(* ===== verification/_CoqProject ===== *)
-Q . S2P
Prelude.v
GoStr.v
Hostname.v
Trie.v
TrieSpec.v
NetIP.v
DnsMsg.v
RespCache.v
RespCacheSpec.v
Resolver.v
ResolverSpec.v
GoFloat.v
Limiter.v
LimiterSpec.v
ClientIP.v
Whitelist.v
WhitelistSpec.v
Groups.v
GroupsSpec.v
Exceptions.v
ExceptionsSpec.v
Category.v
Policy.v
PolicySpec.v
EndToEnd.v
EditDist.v
Confusables.v
Brand.v
SkeletonSpec.v
BrandSpec.v
Lexical.v
LexicalSpec.v
Feed.v
FeedSpec.v
FeedSync.v
FeedSyncSpec.v
FeedCycle.v
FeedCycleSpec.v
FeedMatch.v
FeedMatchSpec.v
DomainML.v
DomainMLSpec.v
Enrich.v
EnrichSpec.v
Assess.v
AssessSpec.v
NetGuard.v
NetGuardSpec.v
ConfigReload.v
ConfigReloadSpec.v
Session.v
SessionSpec.v
AuthAPI.v
Routes.v
AuthSpec.v
AdblockLists.v
AdblockSync.v
AdblockSyncSpec.v
AdblockLoop.v
Upstream.v
UpstreamSpec.v
DoH.v
TransportSpec.v
URLFeedback.v
URLFeedbackSpec.v
URLTableSpec.v
URLShadow.v
URLShadowSpec.v
AgentLog.v
Proposals.v
ProposalsSpec.v
Engine.v
EngineSpec.v
AuditTask.v
AuditSpec.v
Alert.v
AlertSpec.v
WhitelistStore.v
WhitelistStoreSpec.v
WhitelistUpdate.v
