(* ===== verification/Prelude.v ===== *)
(** * Safe Zone: verification library (root file)

    Safe Zone is a filtering DNS resolver with an operator console.  A query
    reaches the resolver over DoH or DoT; the resolver asks the decision
    pipeline what to do with the name, answers a blocked name itself, and takes
    the others from its response cache or from the upstream, asking the pipeline
    again about every CNAME target.  The pipeline consults, in this order, the
    operator's overrides (per client group, then global), the allow list, the
    adblock rules with their exceptions, and at last a threat assessment judged
    under the client's group.  The assessment asks a result cache, then a threat feed
    kept in Redis by a synchronisation daemon, then a lexical analyser whose suspicious
    results a classifier, an AI, public warnings and background enrichment refine.  In
    front of the HTTP services stands a rate limiter keyed by the client's address.

    This library translates these parts from the Go sources (all paths are under
    [src/internal/]) into executable definitions and proves what each promises
    and what they guarantee together.

    ** Files

    Each component has a file of definitions and, where the proofs are long, a
    file [...Spec] with its theorems.  Definitions keep the names of the source.

    - [Prelude]: scope, notations, tactics, hint databases, lemmas on lists, and
      [result], Go's value-and-error pair.
    - [GoStr]: the functions of Go's [strings] package on byte strings, and the
      label suffixes of a domain name.
    - [Hostname]: [NormalizeDomain] ([analysis/analysis.go]), the registrable
      floor ([analysis/registrable.go]), recycled tenant labels
      ([analysis/churn.go]), and the parent walk all lookups share.
    - [Trie], [TrieSpec]: the adblock rule trie ([domaintrie/trie.go]): rules, the
      node tree with its binary searches, matching, merging, cache formats.
    - [NetIP], [DnsMsg]: IP addresses of Go's [net] package; DNS messages.
    - [RespCache], [RespCacheSpec]: the DNS response cache
      ([dns/resolver/cache.go]): a map and a recency list, TTL clamping and ageing,
      stale answers, refresh slots.
    - [Resolver], [ResolverSpec]: [ResolveQuery] ([dns/resolver/resolver.go]) over
      the cache and the interface [PolicyService], background refreshes, and the
      in-flight limit under interleaving.
    - [GoFloat], [Limiter], [LimiterSpec]: binary64 and the token-bucket limiter
      ([ratelimit/limiter.go]): two recency lists, eviction, cleanup.
    - [ClientIP]: trusted proxies, the client's address and the tiered middleware
      ([ratelimit/middleware.go]).
    - [Whitelist], [WhitelistSpec]: the allow list ([risk/whitelist.go]) with its
      Bloom filter ([risk/bloom.go]) and both loads.
    - [Groups], [GroupsSpec]: client groups, mappings and overrides
      ([store/groups.go], [store/overrides.go]): the tables, every write, the CIDR
      index of a process and its reload.
    - [Exceptions], [ExceptionsSpec]: scoped adblock exceptions
      ([risk/adblock_exceptions.go]) and shadow observation
      ([risk/adblock_shadow.go]).
    - [Category]: content categories ([ClassifyCategory] of [analysis/analysis.go]).
    - [Policy], [PolicySpec]: the decision pipeline ([risk/policy.go],
      [policy_decision.go], [analysis_pipeline.go], [admin.go], [trace.go],
      [telemetry.go]) over the interface [Engine] of the threat assessment.
    - [EndToEnd]: the pipeline as the resolver's policy service.
    - [EditDist]: plain and keyboard-weighted edit distances with their early exits
      ([analysis/brand.go]) against edit scripts.
    - [Confusables], [Brand], [SkeletonSpec], [BrandSpec]: the confusable tables,
      brand records, homoglyph skeletons and spoof detection ([analysis/brand.go],
      [confusables_data.go]).
    - [Lexical], [LexicalSpec]: the lexical analyser ([analysis/analysis.go],
      [dga.go], [config/analysis.go]).
    - [Feed], [FeedSpec]: feed parsing, admission and expiry ([feed/parse.go],
      [admission.go], [ttl.go]).
    - [FeedSync], [FeedSyncSpec]: one synchronisation ([feed/sync.go], [status.go])
      over the Redis of [RedisServer], whose every command may fail ([RedisIO]).
    - [FeedCycle], [FeedCycleSpec]: settings, cycles over several sources and the
      status summary ([feedsync/settings.go], [run.go], [feed/status.go]).
    - [FeedMatch], [FeedMatchSpec]: the lookup of a name ([risk/feed.go],
      [feed_engine.go]), up to the verdict a synchronised source implies.
    - [DomainML], [DomainMLSpec]: when the domain classifier counts, its canary and
      its histograms ([risk/ml.go], [ml_canary.go]).
    - [Enrich], [EnrichSpec]: the scores of certificates, registrations and
      name-server lookups ([tlsinspect/inspect.go], [whois/lookup.go],
      [risk/enrichment.go]).
    - [Assess], [AssessSpec]: [Service.analyze] and the enrichment workers
      ([risk/analysis_pipeline.go], [osint_ai.go], [enrichment.go], [cache_types.go])
      over [AnalysisCache] and the moments of [AssessEnv].
    - [NetGuard], [NetGuardSpec]: the outbound address rule, the guarded dialer and
      the redirect policies ([netguard/http.go]), composed into a fetch.
    - [ConfigReload], [ConfigReloadSpec]: how processes learn of changes of the
      configuration, the allow list and the mappings ([risk/config_reload.go]).
    - [Session], [SessionSpec]: signed tokens, roles and the session table
      ([auth/auth.go], [bearer.go], [store/admin_sessions.go]).
    - [AuthAPI], [Routes], [AuthSpec]: login, logout, guest access, both middlewares
      and the route table ([api/handlers/auth*.go], [access.go],
      [api/server/routes.go]), and histories of requests over them.
    - [AdblockLists]: the list and cache parsers and the source policies
      ([risk/adblock_io.go], [adblock_source_policy.go]).
    - [AdblockSync], [AdblockSyncSpec], [AdblockLoop]: the cache files, one
      synchronisation, the operator's switches and the loop beside their writers
      ([risk/adblock_io.go], [adblock_sync.go], [adblock_control.go]).
    - [Upstream], [UpstreamSpec]: the upstream pool and one exchange over the guarded
      client ([dns/doh/upstream.go], [client.go]).
    - [DoH], [TransportSpec]: the RFC 8484 endpoint with its freshness rule
      ([dns/doh/server.go], [cache.go]), the TLS handler ([dns/resolver/dot.go]) and
      the route table ([dns/server/routes.go]), over the resolver with its pool.
    - [URLFeedback], [URLFeedbackSpec], [URLTableSpec]: labels for URL observations: the
      ring buffer ([risk/url_feedback.go]), the durable table with its retention
      ([url_feedback_durable.go], [store/url_feedback.go]) and the handler
      ([api/handlers/url_feedback.go]) over the interface [FeedbackBackend].
    - [URLShadow], [URLShadowSpec]: the URL classifier in shadow: its canary, the held
      promotions, counters, latencies, the operational baseline and drift
      ([risk/url_ml.go], [url_baseline.go]).
    - [AgentLog]: the agent's event log ([agent_audit_log] of [store/telemetry.go],
      [agent/besteffort.go]).
    - [Proposals], [ProposalsSpec]: the agent's proposals and their review in one
      transaction with the override ([store/proposals.go], the sweep of
      [store/retention.go], [api/handlers/agent_proposals.go]).
    - [Engine], [EngineSpec]: the task engine: scheduler, triggers, runs, start and stop
      ([agent/engine.go], [api/handlers/agent.go]).
    - [AuditTask], [AuditSpec]: the audit of suspicious names over a frozen window with a
      durable cursor ([agent/audit.go], [cache_invalidate.go]).
    - [Alert], [AlertSpec]: the delivery of events to four channels over a durable cursor
      ([agent/alert.go]).
    - [WhitelistStore], [WhitelistStoreSpec]: the table of the allow list with its revision,
      the guarded replacement and the rollback copies ([store/whitelist.go],
      [whitelist_snapshot.go]), and the loads of [Whitelist] over it.
    - [WhitelistUpdate]: the update task
      ([agent/whitelist_update.go]) and the rollback handlers
      ([api/handlers/whitelist_snapshot.go]).

    ** Correspondence of state and operations

    A Go struct is a record; a method that changes it is a function from the old
    state and the arguments to the new state and the results.  A nil pointer is
    [None]; an error return is [Err] or [Some] of its message.  Maps are [gmap]s,
    except where order matters; the elements of a [container/list] are represented
    by their keys.  Machine integers wrap where the source relies on it (hashes,
    [oneShot], counters of the exception engine); other counters are integers.
    Times are integers in nanoseconds and are inputs, as are the replies of the
    upstream, the contents of files, and which SQL statements fail ([StoreIO]).

    Code outside the repository is a class: [HostServices] (URL parsing, public
    suffixes, IDNA), [DnsLib] (github.com/miekg/dns), [UnicodeTables], [FloatMath],
    [SortSlice], [ExceptionLibs] (JSON, SHA-256).  What a theorem relies on is a
    class of laws ([PublicSuffixLaws], [DnsLaws], [LogLaws], [RedisLaws],
    [AnalysisCacheLaws]); every class is instantiated by concrete functions in the
    witnesses.  [RedisServer] and [AnalysisCache] are the commands of Redis, [ConfigJSON]
    encodes configurations, [TimeLib] parses timestamps, [DomainClassifier] is the model
    behind the classifier.  [Crypto], [ClaimsJSON] (with [ClaimsLaws]) and [Bodies] are
    the primitives and encodings of authentication, [PolicyLibs] and [MetaJSON] those of
    adblock sources; [CivilTime] (with [CivilLaws]) writes dates; [WebLibs] parses outbound URLs and media types; [URLClassifier] and [BaselineJSON] are
    the model and the report of the URL shadow; [SqlTime] is SQLite's [datetime];
    [ProposalTexts], [AuditTexts], [AlertTexts] (with [AlertLaws]), [UpdateTexts] and
    [ZipReader] are the encodings of the agent, [BrandOrder] and [TableOrder] (with
    [OrderLaws]) the orders in which Go iterates a map and SQLite delivers rows; the files of the adblock cache are a map from paths to contents,
    and every operation on a file may fail ([SaveIO], [FileRead]).

    Concurrency: the in-flight counter is stepped thread by thread; the resolver
    and its background refreshes are a step relation over whole calls, and a single
    call is also the sequence of its accesses to shared state ([Resolver.call_step]),
    between any two of which all others may act ([Resolver.interleaved]): [ResolveQuery]
    is that sequence when nobody does ([ResolverSpec.call_alone]).  One evaluation of
    the policy is one step.  The CIDR
    index is a step relation in which several processes commit and read in any
    order.  Locked sections of the cache, the limiter and the allow list are atomic.
    Commands to Redis are atomic; between two of them others may change the server
    ([interfere]), a command may fail before or after it was carried out, and
    [World] keeps every state the server went through.  Requests and enrichment
    workers are a step relation over the assessor ([AssessSpec.sstep]); the reads,
    comparisons and applications of configuration reloads are one over any number of
    processes and their threads ([ConfigReloadSpec.world_step]); authentication is stated
    over histories of requests ([AuthSpec.step]); the adblock loop interleaves, source by
    source, with setters that store a switch before they ask for a rebuild
    ([AdblockLoop.loop_step]); the background prune of the feedback table runs statement by
    statement between requests ([URLTableSpec.durable_step]); the shadow's counters move
    one atomic operation at a time ([URLShadowSpec.shadow_step]); the engine's scheduler,
    its task goroutines, triggers, start and stop are one relation ([Engine.engine_step]);
    a load of the allow list reads the store in three statements that any process may write
    between ([WhitelistStoreSpec.allow_step]); the audit of a name lets others write before
    each of its checks and before its own write ([AuditTask.meanwhile]).  Proposals, audits
    and alerts are stated over histories: of proposals, reviews, requests of operators
    ([Proposals.OperatorWrite]) and blocks of the audit ([ProposalsSpec.run]), of cycles
    ([AuditSpec.window_history]), of cycles and restarts ([AlertSpec.alert_history]).

    ** What the theorems show

    - End to end ([EndToEnd], [TransportSpec]): whatever the upstream replies and the
      other calls do, as long as the store answers and no caller goes away, every
      message sent over HTTPS or TLS is an error without records, the blocked message,
      or its question and CNAME targets were all admissible under the operator's
      overrides, allow list and adblock rules when they were evaluated; or it is a stale
      copy, served when the upstream failed in a race of two calls, of which only the
      question was evaluated.  The transports agree, and the lifetime granted to HTTP
      caches is never longer than that of the records or, unless the answer holds
      pseudo records only, of the resolver's own cache entry.
    - Upstream pool: forwarding answers exactly when an endpoint does, in the stable
      order of health and latency; the pool never loses an endpoint and probes
      restore failed ones.
    - Resolver: every answer is vetted, cached ones included, whatever the others do
      during the call, except that a stale copy is returned with its question alone
      evaluated; that path cannot be reached by a call that runs alone, and can when
      another call fills the cache meanwhile; blocked questions never become empty
      answers; the concurrency bound holds under every interleaving; refresh slots are
      neither lost nor duplicated.
    - Response cache: representation invariant, round trip, lifetimes and TTLs,
      least-recently-used eviction.
    - Pipeline: the precedence of the layers as a refinement of an ordered list of
      answers; an exception is as narrow as switching adblock off; failures of the
      store are survived and counted; the client identifier has no influence; every
      decision is handed to the telemetry; adblock never colours the security verdict.
    - Trie: any sequence of insertions refines a first-wins pair of maps, matching
      is longest-suffix over it, merging is left-biased, the v2 format round-trips.
    - Allow list, groups, exceptions: lookups are exactly membership, nearest row,
      longest prefix and most specific entry; failed loads keep what was loaded; the
      revision bytes of an exception file identify its entries.
    - Limiter and addresses: the two lists partition the clients by whether they
      would be denied, eviction spares the throttled, clients are isolated, and
      forwarded headers cannot be forged.

    - Lexical analyser: the distance loops compute least edit scripts and the early
      exits change no comparison, also in binary64; a name is reported as a spoof
      exactly when it imitates a brand that does not own it; penalties, scores and
      results are bounded, below by -10 when the brand score is configured under ten; trusted names are judged on their shape.
    - Feed: the parser hands over every candidate; a CSV stream is left only at its
      end; the admission plan is exactly the evidence of the whole stream; a replacing
      synchronisation switches generations at once whatever fails, an additive cycle
      keeps what outlives it, and the verdict of a lookup is a function of the source.
    - Assessment: every answer, cached or not, is one that a configuration in force
      during the request produces, under any interference and any reload, or, when a
      reload brought an old configuration back, one that the configuration in between
      produces; refinements never make an assessment
      milder and need a stated cause to make it malicious; no name is enriched twice
      at once, workers come to an end and write only over what is not newer; the
      classifier counts exactly under enforcement for the canary's cohort.
    - Network guard: the refused addresses are exactly the special ranges, and a
      guarded fetch connects to checked public addresses only, whatever the resolver
      answers and however often it changes its answer.
    - Configuration reload: processes reach the stored configuration after the last
      write under every interleaving, and the retry delays stay in their bounds.
    - Authentication: an administrator's route answers only requests that carry the
      static token or a session that a login issued and nobody revoked, over every
      history; issued sessions stay usable for their lifetime; both middlewares agree;
      a cookie is accepted on a change only from the same site.
    - Adblock lists: a synchronisation publishes exactly the first-wins union of the
      texts it could read, as it stores them; the saved cache restores the enforcement of
      the rules a line of it can carry; an accepted policy document is in force as
      written; and a changed switch reaches the rules however the loop and its writers
      interleave, except rules that are kept, or loaded from the cache, because no source
      contributed any.
    - URL feedback: the ring buffer refines a queue of the last observations; a stored
      observation is labelled at most once, whatever interleaves and fails; pruning keeps
      the cap and goes by age, to the second; both backends answer alike.
    - URL shadow: the counters of a promotion add up under every interleaving; a sampled
      request promotes or is held back exactly by the rule and is fed back exactly once.
    - Agent: a review takes effect completely or not at all; every override comes from a
      request of an operator, an approval, or a block of the audit with automatic
      enforcement; a task has one run at a time and none after a stop; an audit that does
      not enforce changes no policy, one that does blocks only what it found malicious where
      it saw no override (one set after it looked is overwritten), and it visits each name of
      its window once; no event is passed over before every configured channel has taken
      it, except those a restart skips that finds no readable cursor.
    - Stored allow list: a replacement is complete, guarded by floors on the number of names
      of its source (repetitions counted) and numbered; an
      index that carries the stored revision is the stored table, however loads and writes
      interleave; a copy restores what it was taken of; an update installs only verified
      bodies and can be undone; the reply to a rollback is truthful.

    ** Fuel

    Loops that are not structural carry fuel computed from their input: the length
    of the string for loops that shorten it ([label_loop], [strip_wildcards],
    [collapse_dots], [suffix_match], the loops of [Category], [runes_fuel],
    [v6_loop]), the length of the slice for the binary searches ([search_loop],
    [search_strings]), the number of digits for the printers of [NetIP].  The
    theorems about their callers are stated at that fuel and cover every input, so
    a run that exhausted it would refute them.  The loop over a CSV stream has no
    bound of its own: its fuel counts reads, and it returns exactly when the reader
    reports the end ([FeedSpec.csv_returns_iff_eof]).

    ** Not modelled

    The models behind the classifiers, the HTTP side of OSINT, WHOIS and AI lookups
    and of feed downloads, and layer timings are outside; the AI client, OSINT lookups
    and enrichment lookups are functions of the moment in [AssessEnv].  The agent's feed
    and OSINT tasks call services that are modelled elsewhere or are external; the bodies
    of alert messages and the SMTP dialogue are texts and I/O.  [Routes.serve] gives the reply of the routes that change the
    sessions and the authorisation of all others; what a handler behind it writes is modelled
    where a component says so and not otherwise, also for the GET requests that write (such
    as [/v1/osint/evidence?refresh=1]).  Of the review of a false positive its override is
    modelled, the rows of the reports are not.  Left out as glue are the
    sweep of old temporary adblock files, the schema, the SQL tables that only feed
    dashboards, the handlers that only shape JSON around an operation modelled here,
    logging, metrics, flag parsing, process start-up, and the offline evaluation and data
    preparation tools. *)

From Stdlib Require Import ZArith Lia Bool.
From stdpp Require Export base option list strings gmap.


(** ** Scope and notations of the development *)

Declare Scope sz_scope.
Delimit Scope sz_scope with sz.

(** Sequencing of fallible steps: [None] is the error return of the code. *)
Notation "'let?' x ':=' e1 'in' e2" :=
  (match e1 with Some x => e2 | None => None end)
  (at level 10, x pattern, e1 at level 200, e2 at level 200)
  : sz_scope.

(** Guarded early return. *)
Notation "'require' b 'else' r ';;' k" :=
  (if (b : bool) then k else r)
  (at level 10, b at level 100, r at level 100, k at level 200)
  : sz_scope.

#[global] Open Scope sz_scope.

(** ** Tactics *)

(** Turn boolean tests in the context and in the goal into propositions. *)
Ltac bool_simpl :=
  repeat match goal with
  | H : _ && _ = true |- _ => apply andb_true_iff in H; destruct H
  | H : _ || _ = false |- _ => apply orb_false_iff in H; destruct H
  | H : negb _ = true |- _ => apply negb_true_iff in H
  | H : negb _ = false |- _ => apply negb_false_iff in H
  | H : bool_decide _ = true |- _ => apply bool_decide_eq_true in H
  | H : bool_decide _ = false |- _ => apply bool_decide_eq_false in H
  | H : Nat.eqb _ _ = true |- _ => apply Nat.eqb_eq in H
  | H : Nat.eqb _ _ = false |- _ => apply Nat.eqb_neq in H
  | H : Nat.ltb _ _ = true |- _ => apply Nat.ltb_lt in H
  | H : Nat.ltb _ _ = false |- _ => apply Nat.ltb_ge in H
  | H : String.eqb _ _ = true |- _ => apply String.eqb_eq in H
  | H : String.eqb _ _ = false |- _ => apply String.eqb_neq in H
  | H : (_ =? _)%Z = true |- _ => apply Z.eqb_eq in H
  | H : (_ =? _)%Z = false |- _ => apply Z.eqb_neq in H
  | H : (_ <? _)%Z = true |- _ => apply Z.ltb_lt in H
  | H : (_ <? _)%Z = false |- _ => apply Z.ltb_ge in H
  | H : (_ <=? _)%Z = true |- _ => apply Z.leb_le in H
  | H : (_ <=? _)%Z = false |- _ => apply Z.leb_gt in H
  end.

(** Case analysis on every [match]/[if] of the goal, closing trivial goals. *)
Ltac split_cases :=
  repeat case_match; simplify_eq/=; try done.

(** ** Hint databases shared by the components *)

Create Rewrite HintDb szlist.
Create Rewrite HintDb gostr.
Create HintDb gostr_db.

(** ** Lists *)

Section Lists.
Context {A : Type}.
Implicit Types (l : list A) (x : A).

Lemma take_insert_drop l (i : nat) x :
  i < length l → <[i:=x]> l = take i l ++ x :: drop (S i) l.
Proof.
  revert i. induction l as [|y l IH]; intros [|i] Hi; simpl in *; try lia.
  - done.
  - by rewrite IH by lia.
Qed.

Lemma elem_of_concat x (ls : list (list A)) : x ∈ concat ls ↔ ∃ l, l ∈ ls ∧ x ∈ l.
Proof.
  induction ls as [|l ls IH]; simpl.
  - rewrite elem_of_nil. split; [done|]. intros (? & H & _). by apply elem_of_nil in H.
  - rewrite elem_of_app, IH. setoid_rewrite elem_of_cons. naive_solver.
Qed.

Lemma elem_of_option_list x (o : option A) : x ∈ option_list o ↔ o = Some x.
Proof.
  destruct o; cbn; rewrite ?list_elem_of_singleton, ?elem_of_nil; naive_solver.
Qed.

Lemma list_split_lookup l (i : nat) x :
  l !! i = Some x → l = take i l ++ x :: drop (S i) l.
Proof. intros H. symmetry. by apply take_drop_middle. Qed.

Lemma reverse_rev l : reverse l = rev l.
Proof. symmetry. apply rev_alt. Qed.

Lemma list_filter_ext (P Q : A → Prop) `{∀ x, Decision (P x), ∀ x, Decision (Q x)} l :
  (∀ x, x ∈ l → (P x ↔ Q x)) → filter P l = filter Q l.
Proof.
  induction l as [|y l IH]; intros Hl; [done|]. rewrite !filter_cons.
  assert (P y ↔ Q y) as Hy by (apply Hl; left).
  rewrite IH by (intros x Hx; apply Hl; by right).
  repeat case_decide; tauto.
Qed.
Lemma list_filter_all (P : A → Prop) `{∀ x, Decision (P x)} l :
  (∀ x, x ∈ l → P x) → filter P l = l.
Proof.
  induction l as [|y l IH]; intros Hl; [done|]. rewrite filter_cons_True by (apply Hl; left).
  rewrite IH; [done|]. intros x Hx. apply Hl. by right.
Qed.
Lemma list_filter_none (P : A → Prop) `{∀ x, Decision (P x)} l :
  (∀ x, x ∈ l → ¬ P x) → filter P l = [].
Proof.
  induction l as [|y l IH]; intros Hl; [done|]. rewrite filter_cons_False by (apply Hl; left).
  apply IH. intros x Hx. apply Hl. by right.
Qed.
End Lists.

#[export] Hint Rewrite @length_app @length_insert @length_take @length_drop : szlist.

(** ** Results of fallible operations

    Go's [(value, error)] pair: [Err] carries the error's message. *)

Inductive result (A : Type) : Type :=
  | Ok (a : A)
  | Err (msg : string).
Arguments Ok {A} a.
Arguments Err {A} msg.

Definition is_ok {A} (r : result A) : bool :=
  match r with Ok _ => true | Err _ => false end.
Definition ok_opt {A} (r : result A) : option A :=
  match r with Ok a => Some a | Err _ => None end.

Lemma is_ok_spec {A} (r : result A) : is_ok r = true ↔ ∃ a, r = Ok a.
Proof. destruct r; simpl; naive_solver. Qed.

(** A step's result from its visible part, leaving the new state symbolic. *)
Lemma result_of {A B} (p : A * B) x : p.2 = x → p = (p.1, x).
Proof. destruct p. by intros <-. Qed.
