(* ===== verification/GoStr.v ===== *)
(** * Go strings

    Go strings are byte sequences; they are modelled by [string], whose
    characters are 8-bit.  This file writes out the functions of Go's [strings]
    package that the modelled code calls.  Unicode tables (letters, digits,
    case pairs above U+007F) are data of Go's standard library; they are the
    fields of the class [UnicodeTables], consulted only for bytes and runes
    above ASCII. *)

From Stdlib Require Import ZArith Lia Ascii String.
From S2P Require Import Prelude.

#[global] Open Scope string_scope.
#[global] Open Scope nat_scope.
Abbreviation slen := String.length.
#[export] Set Warnings "-notation-overridden".
#[global] Arguments String.append !_ _ / : simpl nomatch.

(** ** Bytes *)

Definition byte_z (c : ascii) : Z := Z.of_N (N_of_ascii c).
Definition is_ascii_byte (c : ascii) : bool := (byte_z c <? 128)%Z.
Definition ascii_upper (c : ascii) : bool := ((65 <=? byte_z c) && (byte_z c <=? 90))%Z.
Definition lower_byte (c : ascii) : ascii :=
  if ascii_upper c then ascii_of_N (N_of_ascii c + 32) else c.
Definition ascii_letter (c : ascii) : bool :=
  let z := byte_z (lower_byte c) in ((97 <=? z) && (z <=? 122))%Z.
Definition ascii_digit (c : ascii) : bool := ((48 <=? byte_z c) && (byte_z c <=? 57))%Z.
Definition ascii_space (c : ascii) : bool :=
  let z := byte_z c in ((z =? 32) || ((9 <=? z) && (z <=? 13)))%Z.

(** ** Byte-wise recursions *)

Fixpoint smap (f : ascii → ascii) (s : string) : string :=
  match s with EmptyString => "" | String c r => String (f c) (smap f r) end.

Fixpoint sforall (p : ascii → bool) (s : string) : bool :=
  match s with EmptyString => true | String c r => p c && sforall p r end.

Fixpoint scount (p : ascii → bool) (s : string) : nat :=
  match s with
  | EmptyString => 0
  | String c r => (if p c then 1 else 0) + scount p r
  end.

Definition is_ascii (s : string) : bool := sforall is_ascii_byte s.
Definition contains_byte (c : ascii) (s : string) : bool :=
  negb (sforall (fun d => negb (Ascii.eqb c d)) s).

Fixpoint srev_app (s acc : string) : string :=
  match s with EmptyString => acc | String c r => srev_app r (String c acc) end.
Definition srev (s : string) : string := srev_app s "".

Fixpoint trim_left (p : ascii → bool) (s : string) : string :=
  match s with
  | EmptyString => ""
  | String c r => if p c then trim_left p r else s
  end.
Definition trim_right (p : ascii → bool) (s : string) : string :=
  srev (trim_left p (srev s)).

(** ** Unicode tables above ASCII *)

Class UnicodeTables := {
  uc_to_lower : string → string;
  uc_trim_space : string → string;
  uc_equal_fold : string → string → bool;
  uc_letter : Z → bool;
  uc_digit : Z → bool
}.

(** ** The [strings] package *)

(** [strings.HasPrefix] *)
Fixpoint HasPrefix (s p : string) {struct p} : bool :=
  match p, s with
  | EmptyString, _ => true
  | String c p', String d s' => Ascii.eqb c d && HasPrefix s' p'
  | String _ _, EmptyString => false
  end.

Fixpoint TrimPrefix_aux (s p : string) {struct p} : option string :=
  match p, s with
  | EmptyString, _ => Some s
  | String c p', String d s' => if Ascii.eqb c d then TrimPrefix_aux s' p' else None
  | String _ _, EmptyString => None
  end.
(** [strings.TrimPrefix] *)
Definition TrimPrefix (s p : string) : string := default s (TrimPrefix_aux s p).

Definition HasSuffix (s p : string) : bool := HasPrefix (srev s) (srev p).
(** [strings.TrimSuffix] *)
Definition TrimSuffix (s p : string) : string :=
  if HasSuffix s p then String.substring 0 (slen s - slen p) s else s.

(** [strings.Contains] *)
Fixpoint Contains (s sub : string) : bool :=
  HasPrefix s sub ||
  match s with EmptyString => false | String _ r => Contains r sub end.

(** [strings.Count] for a one-byte separator *)
Definition Count (s : string) (c : ascii) : nat := scount (Ascii.eqb c) s.

(** [strings.Split] for a one-byte separator: never empty *)
Fixpoint Split (s : string) (c : ascii) : list string :=
  match s with
  | EmptyString => [""]
  | String d r =>
      if Ascii.eqb c d then "" :: Split r c
      else match Split r c with
           | [] => [String d ""]
           | w :: ws => String d w :: ws
           end
  end.

(** [strings.Join] for a one-byte separator *)
Fixpoint Join (ws : list string) (c : ascii) : string :=
  match ws with
  | [] => ""
  | [w] => w
  | w :: ws => w ++ String c (Join ws c)
  end.

(** [strings.IndexByte]: [None] is the code's -1 *)
Fixpoint IndexByte (s : string) (c : ascii) : option nat :=
  match s with
  | EmptyString => None
  | String d r => if Ascii.eqb c d then Some 0 else S <$> IndexByte r c
  end.

(** [strings.LastIndexByte] as an integer, -1 when absent *)
Fixpoint LastIndexByte_from (s : string) (c : ascii) (i : Z) (best : Z) : Z :=
  match s with
  | EmptyString => best
  | String d r => LastIndexByte_from r c (i + 1) (if Ascii.eqb c d then i else best)
  end.
Definition LastIndexByte (s : string) (c : ascii) : Z := LastIndexByte_from s c 0 (-1).

(** [strings.TrimRight] with a one-byte cutset *)
Definition TrimRightByte (s : string) (c : ascii) : string := trim_right (Ascii.eqb c) s.

(** [s[i:j]] for [0 <= i <= j <= len(s)] *)
Definition slice (s : string) (i j : Z) : string :=
  String.substring (Z.to_nat i) (Z.to_nat (j - i)) s.

Section Tables.
Context `{UnicodeTables}.

(** [strings.ToLower] *)
Definition ToLower (s : string) : string :=
  if is_ascii s then smap lower_byte s else uc_to_lower s.

(** [strings.TrimSpace] *)
Definition TrimSpace (s : string) : string :=
  if is_ascii s then trim_right ascii_space (trim_left ascii_space s)
  else uc_trim_space s.

(** [strings.EqualFold] *)
Definition EqualFold (s t : string) : bool :=
  if is_ascii s && is_ascii t then String.eqb (smap lower_byte s) (smap lower_byte t)
  else uc_equal_fold s t.
End Tables.

(** The tables restricted to ASCII: the concrete instance of the witnesses. *)
Definition ascii_tables : UnicodeTables := {|
  uc_to_lower s := s; uc_trim_space s := s; uc_equal_fold := String.eqb;
  uc_letter _ := false; uc_digit _ := false |}.

(** ** Lemmas on byte strings *)

Lemma sapp_nil_r s : s ++ "" = s.
Proof. induction s; simpl; congruence. Qed.
Lemma sapp_assoc a b c : (a ++ b) ++ c = a ++ (b ++ c).
Proof. induction a; simpl; congruence. Qed.
Lemma slen_app a b : slen (a ++ b) = slen a + slen b.
Proof. induction a; simpl; congruence. Qed.
Lemma sapp_inj_l a b c : a ++ b = a ++ c → b = c.
Proof. induction a; simpl; [done|]. intros [= H]; auto. Qed.
#[export] Hint Rewrite sapp_nil_r sapp_assoc slen_app : gostr.

Lemma sforall_app p a b : sforall p (a ++ b) = sforall p a && sforall p b.
Proof. induction a; simpl; [done|]. rewrite IHa. by destruct (p a). Qed.
Lemma smap_app f a b : smap f (a ++ b) = smap f a ++ smap f b.
Proof. induction a; simpl; congruence. Qed.
Lemma slen_smap f s : slen (smap f s) = slen s.
Proof. induction s; simpl; congruence. Qed.
Lemma sforall_smap p f s : sforall p (smap f s) = sforall (λ c, p (f c)) s.
Proof. induction s; simpl; congruence. Qed.
Lemma sforall_impl (p q : ascii → bool) s :
  (∀ c, p c = true → q c = true) → sforall p s = true → sforall q s = true.
Proof.
  intros Hpq. induction s; simpl; [done|]. rewrite !andb_true_iff.
  intros [??]; split; auto.
Qed.
Lemma smap_ext_forall (p : ascii → bool) f s :
  (∀ c, p c = true → f c = c) → sforall p s = true → smap f s = s.
Proof.
  intros Hp. induction s; simpl; [done|]. rewrite andb_true_iff.
  intros [??]. f_equal; auto.
Qed.
Lemma scount_app p a b : scount p (a ++ b) = scount p a + scount p b.
Proof. induction a; simpl; [done|]. rewrite IHa. lia. Qed.
Lemma contains_byte_app c a b : contains_byte c (a ++ b) = contains_byte c a || contains_byte c b.
Proof. unfold contains_byte. rewrite sforall_app. by rewrite negb_andb. Qed.
Lemma contains_byte_cons c d s : contains_byte c (String d s) = Ascii.eqb c d || contains_byte c s.
Proof. unfold contains_byte. simpl. by rewrite negb_andb, negb_involutive. Qed.
#[export] Hint Rewrite sforall_app smap_app slen_smap sforall_smap scount_app
  contains_byte_app contains_byte_cons : gostr.

(** Case mapping of ASCII bytes. *)
Lemma lower_byte_idemp c : lower_byte (lower_byte c) = lower_byte c.
Proof. destruct c as [[][][][][][][][]]; reflexivity. Qed.
Lemma lower_byte_ascii c : is_ascii_byte (lower_byte c) = is_ascii_byte c.
Proof. destruct c as [[][][][][][][][]]; reflexivity. Qed.
Lemma lower_byte_space c : ascii_space (lower_byte c) = ascii_space c.
Proof. destruct c as [[][][][][][][][]]; reflexivity. Qed.
Lemma smap_lower_idemp s : smap lower_byte (smap lower_byte s) = smap lower_byte s.
Proof. induction s; simpl; [done|]. by rewrite lower_byte_idemp, IHs. Qed.
Lemma is_ascii_lower s : is_ascii (smap lower_byte s) = is_ascii s.
Proof.
  unfold is_ascii. rewrite sforall_smap. induction s; simpl; [done|].
  by rewrite lower_byte_ascii, IHs.
Qed.

(** Reversal. *)
Lemma srev_app_spec s acc : srev_app s acc = srev s ++ acc.
Proof.
  unfold srev. revert acc. induction s as [|c s IH]; intros acc; simpl; [done|].
  rewrite (IH (String c acc)), (IH (String c "")). by rewrite sapp_assoc.
Qed.
Lemma srev_cons c s : srev (String c s) = srev s ++ String c "".
Proof. unfold srev at 1. simpl. by rewrite srev_app_spec. Qed.
Lemma srev_app_distr a b : srev (a ++ b) = srev b ++ srev a.
Proof.
  induction a as [|c a IH]; simpl; [by rewrite sapp_nil_r|].
  by rewrite !srev_cons, IH, sapp_assoc.
Qed.
Lemma srev_involutive s : srev (srev s) = s.
Proof. induction s as [|c s IH]; [done|]. by rewrite srev_cons, srev_app_distr, IH. Qed.
Lemma slen_srev s : slen (srev s) = slen s.
Proof. induction s as [|c s IH]; [done|]. rewrite srev_cons, slen_app, IH. simpl. lia. Qed.
Lemma sforall_srev p s : sforall p (srev s) = sforall p s.
Proof.
  induction s as [|c s IH]; [done|]. rewrite srev_cons, sforall_app, IH. simpl.
  rewrite andb_true_r. apply andb_comm.
Qed.
#[export] Hint Rewrite srev_involutive slen_srev sforall_srev : gostr.

(** Prefixes and suffixes. *)
Lemma HasPrefix_spec s p : HasPrefix s p = true ↔ ∃ r, s = p ++ r.
Proof.
  revert s. induction p as [|c p IH]; intros s; simpl.
  - split; [by exists s|done].
  - destruct s as [|d s]; [split; [done|by intros [??]]|].
    destruct (Ascii.eqb_spec c d) as [->|Hne]; simpl.
    + rewrite IH. split; intros [r Hr]; exists r; [by f_equal|by inversion Hr].
    + split; [done|by intros [? [=]]].
Qed.
Lemma HasSuffix_spec s p : HasSuffix s p = true ↔ ∃ r, s = r ++ p.
Proof.
  unfold HasSuffix. rewrite HasPrefix_spec. split; intros [r Hr].
  - exists (srev r). rewrite <-(srev_involutive s), Hr.
    by rewrite srev_app_distr, srev_involutive.
  - exists (srev r). by rewrite Hr, srev_app_distr.
Qed.

Lemma substring_all s : String.substring 0 (slen s) s = s.
Proof. induction s; simpl; congruence. Qed.
Lemma substring_0_app a b : String.substring 0 (slen a) (a ++ b) = a.
Proof. induction a; simpl; [by destruct b|]. congruence. Qed.
Lemma substring_skip a n b : String.substring (slen a) n (a ++ b) = String.substring 0 n b.
Proof. induction a; [done|]. exact IHa. Qed.
Lemma substring_tail_app a b : String.substring (slen a) (slen b) (a ++ b) = b.
Proof. by rewrite substring_skip, substring_all. Qed.

Lemma TrimSuffix_app r p : TrimSuffix (r ++ p) p = r.
Proof.
  unfold TrimSuffix. assert (HasSuffix (r ++ p) p = true) as ->.
  { apply HasSuffix_spec. by exists r. }
  rewrite slen_app. replace (slen r + slen p - slen p) with (slen r) by lia.
  apply substring_0_app.
Qed.

Lemma TrimPrefix_aux_spec s p :
  match TrimPrefix_aux s p with Some r => s = p ++ r | None => HasPrefix s p = false end.
Proof.
  revert s. induction p as [|c p IH]; intros s; simpl; [done|].
  destruct s as [|d s]; [done|].
  destruct (Ascii.eqb_spec c d) as [->|Hne]; [|done].
  specialize (IH s). destruct (TrimPrefix_aux s p); [by f_equal|done].
Qed.
Lemma TrimPrefix_app p r : TrimPrefix (p ++ r) p = r.
Proof.
  unfold TrimPrefix. pose proof (TrimPrefix_aux_spec (p ++ r) p) as H.
  destruct (TrimPrefix_aux _ _); simpl.
  - symmetry. by eapply sapp_inj_l.
  - assert (HasPrefix (p ++ r) p = true) by (apply HasPrefix_spec; eauto). congruence.
Qed.
Lemma TrimPrefix_no s p : HasPrefix s p = false → TrimPrefix s p = s.
Proof.
  intros Hn. unfold TrimPrefix. pose proof (TrimPrefix_aux_spec s p) as H.
  destruct (TrimPrefix_aux s p); [|done].
  assert (HasPrefix s p = true) by (apply HasPrefix_spec; eauto). congruence.
Qed.

(** Splitting at a byte. *)
Lemma Split_nonnil s c : Split s c ≠ [].
Proof. destruct s; simpl; [done|]. repeat case_match; done. Qed.

Lemma Split_app a b c : Split (a ++ String c b) c = (Split a c ++ Split b c)%list.
Proof.
  induction a as [|d a IH]; simpl.
  - by rewrite Ascii.eqb_refl.
  - destruct (Ascii.eqb c d); [by rewrite IH|]. rewrite IH.
    by destruct (Split a c) eqn:E; [destruct (Split_nonnil a c)|].
Qed.

Lemma Split_no_sep s c : contains_byte c s = false → Split s c = [s].
Proof.
  induction s as [|d s IH]; [done|]. rewrite contains_byte_cons, orb_false_iff.
  intros [Hd Hs]. simpl. by rewrite Hd, IH.
Qed.

Lemma Split_Forall_no_sep s c : Forall (λ w, contains_byte c w = false) (Split s c).
Proof.
  induction s as [|d s IH]; simpl; [by repeat constructor|].
  destruct (Ascii.eqb c d) eqn:Hd; [by constructor|].
  destruct (Split s c) as [|w ws]; [by repeat constructor; rewrite contains_byte_cons, Hd|].
  inversion IH; subst. constructor; [|done]. by rewrite contains_byte_cons, Hd.
Qed.

Lemma Join_cons w ws c : ws ≠ [] → Join (w :: ws) c = w ++ String c (Join ws c).
Proof. by destruct ws. Qed.

Lemma Join_Split s c : Join (Split s c) c = s.
Proof.
  induction s as [|d s IH]; [done|]. cbn [Split].
  destruct (Ascii.eqb_spec c d) as [->|Hne].
  - rewrite Join_cons by apply Split_nonnil. by rewrite IH.
  - destruct (Split s c) as [|w ws] eqn:E; [by destruct (Split_nonnil s c)|].
    destruct ws as [|w' ws]; [simpl in *; congruence|].
    rewrite Join_cons in * by done. rewrite <-IH. done.
Qed.

Lemma Split_Join ws c :
  ws ≠ [] → Forall (λ w, contains_byte c w = false) ws → Split (Join ws c) c = ws.
Proof.
  induction ws as [|w ws IH]; [done|]. intros _ Hall. inversion Hall; subst.
  destruct ws as [|w' ws]; [by apply Split_no_sep|].
  rewrite Join_cons by done. rewrite Split_app, Split_no_sep by done.
  by rewrite IH.
Qed.

Lemma Split_length s c : length (Split s c) = S (Count s c).
Proof.
  unfold Count. induction s as [|d s IH]; simpl; [done|].
  destruct (Ascii.eqb c d); simpl; [lia|].
  destruct (Split s c); simpl in *; lia.
Qed.

(** The last separator of a string. *)
Lemma last_sep_decompose s c :
  contains_byte c s = false ∨ ∃ a b, s = a ++ String c b ∧ contains_byte c b = false.
Proof.
  induction s as [|d s [IH|(a & b & -> & Hb)]].
  - by left.
  - destruct (Ascii.eqb_spec c d) as [->|Hne].
    + right. by exists "", s.
    + left. rewrite contains_byte_cons, IH, orb_false_r. by apply Ascii.eqb_neq.
  - right. by exists (String d a), b.
Qed.

Lemma LastIndexByte_from_no s c i best :
  contains_byte c s = false → LastIndexByte_from s c i best = best.
Proof.
  revert i best. induction s as [|d s IH]; intros i best; [done|].
  rewrite contains_byte_cons, orb_false_iff. intros [Hd Hs]. simpl. rewrite Hd. auto.
Qed.
Lemma LastIndexByte_from_app a b c i best :
  contains_byte c b = false →
  LastIndexByte_from (a ++ String c b) c i best = (i + Z.of_nat (slen a))%Z.
Proof.
  revert i best. induction a as [|d a IH]; intros i best Hb; cbn [String.append LastIndexByte_from].
  - rewrite Ascii.eqb_refl, LastIndexByte_from_no by done. cbn. lia.
  - rewrite IH by done. cbn [slen]. lia.
Qed.
Lemma LastIndexByte_none s c : contains_byte c s = false → LastIndexByte s c = (-1)%Z.
Proof. apply LastIndexByte_from_no. Qed.
Lemma LastIndexByte_app a b c :
  contains_byte c b = false → LastIndexByte (a ++ String c b) c = Z.of_nat (slen a).
Proof. intros Hb. unfold LastIndexByte. by rewrite LastIndexByte_from_app. Qed.

(** String order of Go ([<] on strings is the byte-wise lexicographic order). *)
Lemma scompare_eq a b : String.compare a b = Eq ↔ a = b.
Proof.
  split; [apply String.compare_eq_iff|]. intros ->.
  induction b as [|c b IH]; simpl; [done|].
  unfold Ascii.compare. by rewrite N.compare_refl.
Qed.
Lemma scompare_antisym a b : String.compare a b = CompOpp (String.compare b a).
Proof. apply String.compare_antisym. Qed.

Lemma scompare_lt_trans a b c :
  String.compare a b = Lt → String.compare b c = Lt → String.compare a c = Lt.
Proof.
  revert b c. induction a as [|x a IH]; intros [|y b] [|z c]; simpl; try done.
  unfold Ascii.compare.
  destruct (N.compare_spec (N_of_ascii x) (N_of_ascii y)) as [E1|E1|E1]; try done;
  destruct (N.compare_spec (N_of_ascii y) (N_of_ascii z)) as [E2|E2|E2]; try done;
  destruct (N.compare_spec (N_of_ascii x) (N_of_ascii z)) as [E3|E3|E3]; try done; try lia.
  eauto.
Qed.
Definition slt (a b : string) : Prop := String.compare a b = Lt.
#[export] Instance slt_trans : Transitive slt.
Proof. intros a b c. apply scompare_lt_trans. Qed.
#[export] Instance slt_irrefl : Irreflexive slt.
Proof. intros a H. unfold slt in H. by rewrite (proj2 (scompare_eq a a) eq_refl) in H. Qed.

(** ** Strings whose bytes all satisfy a predicate *)

Lemma sforall_no_byte (p : ascii → bool) c s :
  p c = false → sforall p s = true → contains_byte c s = false.
Proof.
  intros Hc. induction s as [|d s IH]; [done|]. simpl. rewrite andb_true_iff.
  intros [Hd Hs]. rewrite contains_byte_cons, IH by done.
  destruct (Ascii.eqb_spec c d) as [->|]; [congruence|done].
Qed.

Lemma trim_left_id p s : sforall (λ c, negb (p c)) s = true → trim_left p s = s.
Proof.
  destruct s as [|c s]; simpl; [done|]. rewrite andb_true_iff, negb_true_iff.
  by intros [-> _].
Qed.
Lemma trim_right_id p s : sforall (λ c, negb (p c)) s = true → trim_right p s = s.
Proof.
  intros Hs. unfold trim_right. rewrite trim_left_id by by rewrite sforall_srev.
  apply srev_involutive.
Qed.

Lemma Contains_byte s c : Contains s (String c "") = contains_byte c s.
Proof.
  induction s as [|d s IH]; [done|]. rewrite contains_byte_cons, <-IH. cbn.
  by rewrite andb_true_r.
Qed.
Lemma Contains_head c sub s : contains_byte c s = false → Contains s (String c sub) = false.
Proof.
  induction s as [|d s IH]; [done|]. rewrite contains_byte_cons, orb_false_iff.
  intros [Hd Hs]. cbn. rewrite Hd. cbn. auto.
Qed.
Lemma Contains_needs_byte c s sub :
  contains_byte c sub = true → contains_byte c s = false → Contains s sub = false.
Proof.
  intros Hsub. induction s as [|d s IH]; intros Hs; cbn [Contains].
  - destruct sub; [done|]. done.
  - assert (HasPrefix (String d s) sub = false) as ->.
    { destruct (HasPrefix (String d s) sub) eqn:E; [|done].
      apply HasPrefix_spec in E as [r Hr]. rewrite Hr, contains_byte_app, Hsub in Hs. done. }
    rewrite contains_byte_cons, orb_false_iff in Hs. simpl. apply IH, Hs.
Qed.
Lemma Count_zero s c : contains_byte c s = false → Count s c = 0.
Proof.
  unfold Count. induction s as [|d s IH]; [done|]. rewrite contains_byte_cons, orb_false_iff.
  intros [Hd Hs]. simpl. by rewrite Hd, IH.
Qed.

Section TablesLemmas.
Context `{UnicodeTables}.

Lemma ToLower_ascii s : is_ascii s = true → ToLower s = smap lower_byte s.
Proof. unfold ToLower. by intros ->. Qed.
Lemma TrimSpace_id s :
  is_ascii s = true → sforall (λ c, negb (ascii_space c)) s = true → TrimSpace s = s.
Proof.
  unfold TrimSpace. intros -> Hs. by rewrite trim_left_id, trim_right_id.
Qed.
Lemma EqualFold_refl s : is_ascii s = true → EqualFold s s = true.
Proof. unfold EqualFold. intros ->. apply String.eqb_refl. Qed.
Lemma EqualFold_sym_ascii s t :
  is_ascii s = true → is_ascii t = true → EqualFold s t = EqualFold t s.
Proof. unfold EqualFold. intros -> ->. apply String.eqb_sym. Qed.
End TablesLemmas.

(** ** Substrings keep byte predicates *)

Lemma sforall_substring_0 p n s : sforall p s = true → sforall p (String.substring 0 n s) = true.
Proof.
  revert s. induction n as [|n IH]; intros [|c s]; try done.
  simpl. rewrite !andb_true_iff. intros [??]; split; [done|by apply IH].
Qed.
Lemma sforall_trim_left p q s : sforall p s = true → sforall p (trim_left q s) = true.
Proof.
  induction s as [|c s IH]; [done|]. simpl. rewrite andb_true_iff. intros [??].
  destruct (q c); [auto|]. simpl. by apply andb_true_iff.
Qed.
Lemma sforall_trim_right p q s : sforall p s = true → sforall p (trim_right q s) = true.
Proof.
  intros Hs. unfold trim_right. rewrite sforall_srev. apply sforall_trim_left.
  by rewrite sforall_srev.
Qed.
Lemma sforall_TrimSuffix p s q : sforall p s = true → sforall p (TrimSuffix s q) = true.
Proof.
  intros Hs. unfold TrimSuffix. destruct (HasSuffix s q); [|done]. by apply sforall_substring_0.
Qed.

Definition is_lower (s : string) : bool := sforall (λ c, negb (ascii_upper c)) s.
Lemma is_lower_smap s : is_lower (smap lower_byte s) = true.
Proof.
  unfold is_lower. rewrite sforall_smap. induction s as [|c s IH]; [done|].
  simpl. rewrite IH, andb_true_r. by destruct c as [[][][][][][][][]].
Qed.
Lemma is_lower_fixed s : is_lower s = true → smap lower_byte s = s.
Proof.
  apply smap_ext_forall. intros c. unfold lower_byte. by destruct (ascii_upper c).
Qed.

Lemma IndexByte_None s c : IndexByte s c = None → contains_byte c s = false.
Proof.
  induction s as [|d s IH]; [done|]. cbn [IndexByte]. rewrite contains_byte_cons.
  destruct (Ascii.eqb c d); [done|]. destruct (IndexByte s c); [done|]. auto.
Qed.
Lemma IndexByte_Some s c n :
  IndexByte s c = Some n →
  ∃ p r, s = p ++ String c r ∧ slen p = n ∧ contains_byte c p = false.
Proof.
  revert n. induction s as [|d s IH]; intros n; [done|]. cbn [IndexByte].
  destruct (Ascii.eqb_spec c d) as [->|Hne].
  - intros [= <-]. by exists "", s.
  - destruct (IndexByte s c) as [m|]; intros [= <-].
    destruct (IH m eq_refl) as (p & r & -> & <- & Hp). exists (String d p), r.
    split_and!; [done|done|]. rewrite contains_byte_cons, Hp. by apply Ascii.eqb_neq in Hne as ->.
Qed.

(** ** Label suffixes: [r] is [d] or the tail of [d] after a dot *)

Definition label_suffix (r d : string) : Prop := d = r ∨ ∃ p, d = p ++ String "." r.

#[export] Instance label_suffix_refl : Reflexive label_suffix.
Proof. by left. Qed.
#[export] Instance label_suffix_trans : Transitive label_suffix.
Proof.
  intros a b c [->|[p ->]] [->|[q ->]]; [by left|right..]; [by exists q|by exists p|].
  exists (q ++ String "." p). by rewrite (sapp_assoc q).
Qed.

Lemma Join_app ws vs c :
  ws ≠ [] → vs ≠ [] → Join (ws ++ vs)%list c = Join ws c ++ String c (Join vs c).
Proof.
  intros Hw Hv. induction ws as [|w ws IH]; [done|].
  destruct ws as [|w' ws]; [by cbn [app]; rewrite Join_cons|].
  rewrite (Join_cons w) by done. change ((w :: w' :: ws) ++ vs)%list with (w :: ((w' :: ws) ++ vs))%list.
  rewrite Join_cons by done. rewrite IH by done. by rewrite sapp_assoc.
Qed.

Lemma Join_app_suffix ws vs : vs ≠ [] → label_suffix (Join vs ".") (Join (ws ++ vs)%list ".").
Proof.
  intros Hv. destruct ws as [|w ws]; [by left|]. right. exists (Join (w :: ws) ".").
  by apply Join_app.
Qed.

Lemma Join_drop_suffix (i : nat) d :
  i < length (Split d ".") → label_suffix (Join (drop i (Split d ".")) ".") d.
Proof.
  intros Hi. rewrite <-(Join_Split d ".") at 2.
  rewrite <-(take_drop i (Split d ".")) at 2. apply Join_app_suffix.
  intros Hd. apply (f_equal length) in Hd. rewrite length_drop in Hd. simpl in Hd. lia.
Qed.
