(* ===== verification/Hostname.v ===== *)
(** * Domain names: [internal/analysis/analysis.go], [registrable.go], [churn.go]

    [NormalizeDomain] is the gate every domain passes before a policy layer
    sees it; [IsRegistrableDomain] and [RegistrableWalkFloor] bound every
    parent-suffix lookup; [ChurnProneRoot] classifies recycled tenant labels.

    [net/url]'s parser and [golang.org/x/net/publicsuffix] are not part of the
    repository: they are the fields of the class [HostServices].  What the code
    relies on of the public-suffix list is the class [PublicSuffixLaws]. *)

From Stdlib Require Import ZArith Lia Ascii String.
From S2P Require Import Prelude GoStr.

Class HostServices := {
  (** [url.Parse(v)] followed by [Hostname()]; [None] when parsing fails *)
  url_hostname : string → option string;
  (** [publicsuffix.EffectiveTLDPlusOne]; [None] is its error *)
  etld_plus_one : string → option string;
  (** [idna.Lookup.ToASCII]; [None] is its error *)
  idna_to_ascii : string → option string
}.

(** ** Runes

    [for _, r := range s] decodes UTF-8; an invalid sequence yields U+FFFD and
    consumes one byte.  The ranges are those of the language specification's
    UTF-8 decoder. *)

Definition cont (lo hi b : Z) : bool := ((lo <=? b) && (b <=? hi))%Z.

Definition decode_rune (b0 : Z) (rest : list Z) : Z * nat :=
  let bad := (65533%Z, 1) in
  if (b0 <? 128)%Z then (b0, 1)
  else if cont 194 223 b0 then
    match rest with
    | b1 :: _ => if cont 128 191 b1 then (((b0 - 192) * 64 + (b1 - 128))%Z, 2) else bad
    | _ => bad
    end
  else if cont 224 239 b0 then
    match rest with
    | b1 :: b2 :: _ =>
        let lo := if (b0 =? 224)%Z then 160%Z else 128%Z in
        let hi := if (b0 =? 237)%Z then 159%Z else 191%Z in
        if cont lo hi b1 && cont 128 191 b2
        then (((b0 - 224) * 4096 + (b1 - 128) * 64 + (b2 - 128))%Z, 3) else bad
    | _ => bad
    end
  else if cont 240 244 b0 then
    match rest with
    | b1 :: b2 :: b3 :: _ =>
        let lo := if (b0 =? 240)%Z then 144%Z else 128%Z in
        let hi := if (b0 =? 244)%Z then 143%Z else 191%Z in
        if cont lo hi b1 && cont 128 191 b2 && cont 128 191 b3
        then (((b0 - 240) * 262144 + (b1 - 128) * 4096 + (b2 - 128) * 64 + (b3 - 128))%Z, 4)
        else bad
    | _ => bad
    end
  else bad.

(** Each rune consumes at least one byte, so the byte count is enough fuel. *)
Fixpoint runes_fuel (fuel : nat) (bs : list Z) : list Z :=
  match fuel, bs with
  | S fuel, b0 :: rest =>
      let '(r, w) := decode_rune b0 rest in r :: runes_fuel fuel (drop (w - 1) rest)
  | _, _ => []
  end.

Definition bytes_of (s : string) : list Z := byte_z <$> list_ascii_of_string s.
Definition runes (s : string) : list Z := runes_fuel (slen s) (bytes_of s).

Section Hostname.
Context `{UnicodeTables, HostServices}.

Definition IsLetter (r : Z) : bool :=
  if (r <? 128)%Z then ((65 <=? r) && (r <=? 90) || (97 <=? r) && (r <=? 122))%Z
  else uc_letter r.
Definition IsDigit (r : Z) : bool :=
  if (r <? 128)%Z then ((48 <=? r) && (r <=? 57))%Z else uc_digit r.

Definition maxDomainLength : nat := 253.
Definition maxDomainLabelLength : nat := 63.

(** The rune test of the final loop: [utf8.RuneSelf] is 128. *)
Definition rune_allowed (r : Z) : bool :=
  ((r =? 46) || (r =? 45))%Z || IsLetter r || IsDigit r || (128 <? r)%Z.

Fixpoint check_labels (ls : list string) : option string :=
  match ls with
  | [] => None
  | l :: ls =>
      if String.eqb l "" then Some "domain contains an empty label"
      else if Nat.ltb maxDomainLabelLength (slen l) then Some "domain label exceeds 63 bytes"
      else check_labels ls
  end.

(** [strings.SplitN(value, ":", 2)[0]] *)
Definition before_colon (v : string) : string :=
  match IndexByte v ":" with Some i => String.substring 0 i v | None => v end.

Definition NormalizeDomain (input : string) : result string :=
  let value := TrimSpace (ToLower input) in
  if String.eqb value "" then Err "domain is empty"
  else
    let value :=
      if Contains value "/" && negb (Contains value "://") && negb (HasPrefix value "/")
      then "http://" ++ value else value in
    let host :=
      if Contains value "://" then
        match url_hostname value with
        | Some h => if String.eqb h "" then None else Some h
        | None => None
        end
      else Some value in
    match host with
    | None => Err "domain could not be parsed from url"
    | Some value =>
        let value :=
          if Nat.eqb (Count value ":") 1 then
            if String.eqb (before_colon value) "" then value else before_colon value
          else value in
        let value := TrimSuffix value "." in
        if String.eqb value "" then Err "domain is empty"
        else if Nat.ltb maxDomainLength (slen value) then Err "domain exceeds 253 bytes"
        else
          match check_labels (Split value ".") with
          | Some e => Err e
          | None =>
              if forallb rune_allowed (runes value) then Ok value
              else Err "domain contains invalid characters"
          end
    end.

Definition IsRegistrableDomain (domain : string) : bool :=
  match NormalizeDomain domain with
  | Ok normalized =>
      if String.eqb normalized "" then false
      else bool_decide (is_Some (etld_plus_one normalized))
  | Err _ => false
  end.

(** The number of parent labels a parent-suffix lookup may skip. *)
Definition RegistrableWalkFloor (domain : string) : Z :=
  match NormalizeDomain domain with
  | Err _ => 0
  | Ok normalized =>
      if String.eqb normalized "" then 0
      else
        match etld_plus_one normalized with
        | None => 0
        | Some registrable =>
            let floorLabels := (Z.of_nat (Count registrable ".") + 1)%Z in
            let labels := (Z.of_nat (Count normalized ".") + 1)%Z in
            if (labels <=? floorLabels)%Z then 0 else labels - floorLabels
        end
  end%Z.
End Hostname.

Lemma sforall_before_colon p v : sforall p v = true → sforall p (before_colon v) = true.
Proof. unfold before_colon. destruct (IndexByte v ":"); [apply sforall_substring_0|done]. Qed.

(** ** Well-formed names *)

Definition label_ok (l : string) : Prop := l ≠ "" ∧ slen l ≤ 63.

(** The bytes an ASCII name may hold. *)
Definition host_byte (c : ascii) : bool :=
  Ascii.eqb c "." || Ascii.eqb c "-" || ascii_letter c || ascii_digit c.
Definition host_byte_lower (c : ascii) : bool := host_byte c && negb (ascii_upper c).

Section WellFormed.
Context `{UnicodeTables, HostServices}.

Record well_formed (d : string) : Prop := {
  wf_nonempty : d ≠ "";
  wf_length : slen d ≤ 253;
  wf_labels : Forall label_ok (Split d ".");
  wf_runes : forallb rune_allowed (runes d) = true
}.

Lemma check_labels_none ls : check_labels ls = None ↔ Forall label_ok ls.
Proof.
  induction ls as [|l ls IH]; simpl; [by split|].
  rewrite Forall_cons. unfold label_ok at 1. unfold maxDomainLabelLength in *.
  destruct (String.eqb_spec l "") as [->|Hl]; [split; [done|tauto]|].
  destruct (Nat.ltb_spec 63 (slen l)); [split; [done|lia]|].
  rewrite IH. tauto.
Qed.

Lemma normalize_wf_aux input d : NormalizeDomain input = Ok d → well_formed d.
Proof.
  unfold NormalizeDomain, maxDomainLength. cbv zeta. intros Hn.
  destruct (String.eqb (TrimSpace (ToLower input)) ""); [done|].
  repeat (case_match; try discriminate); simplify_eq;
    repeat match goal with
    | E1 : check_labels _ = None |- _ => apply check_labels_none in E1
    | E1 : Nat.ltb _ _ = false |- _ => apply Nat.ltb_ge in E1
    | E1 : String.eqb (TrimSuffix _ _) _ = false |- _ => apply String.eqb_neq in E1
    end; by split.
Qed.
End WellFormed.

(** ** ASCII names *)

Lemma runes_fuel_ascii n bs :
  length bs ≤ n → Forall (λ b, b < 128)%Z bs → runes_fuel n bs = bs.
Proof.
  revert bs. induction n as [|n IH]; intros [|b bs] Hlen Hall; simpl in *; try done; try lia.
  inversion Hall; subst. unfold decode_rune.
  replace (b <? 128)%Z with true by (symmetry; by apply Z.ltb_lt). simpl.
  f_equal. rewrite drop_0. apply IH; [lia|done].
Qed.

Lemma length_bytes_of s : length (bytes_of s) = slen s.
Proof. unfold bytes_of. rewrite length_fmap. induction s; simpl; congruence. Qed.

Lemma bytes_of_cons c s : bytes_of (String c s) = byte_z c :: bytes_of s.
Proof. done. Qed.

Lemma runes_ascii s : is_ascii s = true → runes s = bytes_of s.
Proof.
  intros Hs. apply runes_fuel_ascii; [by rewrite length_bytes_of|].
  induction s as [|c s IH]; [constructor|]. unfold is_ascii in Hs. simpl in Hs.
  apply andb_true_iff in Hs as [Hc Hs]. rewrite bytes_of_cons. constructor; [|auto].
  by apply Z.ltb_lt.
Qed.

Section AsciiNames.
Context `{UnicodeTables, HostServices}.

Lemma host_byte_rune c : is_ascii_byte c = true → rune_allowed (byte_z c) = host_byte c.
Proof. destruct c as [[][][][][][][][]]; vm_compute; done. Qed.

Lemma ascii_runes_allowed s :
  is_ascii s = true → forallb rune_allowed (runes s) = sforall host_byte s.
Proof.
  intros Hs. rewrite runes_ascii by done. unfold is_ascii in Hs.
  induction s as [|c s IH]; [done|]. simpl in Hs. apply andb_true_iff in Hs as [Hc Hs].
  rewrite bytes_of_cons. simpl. by rewrite host_byte_rune, IH.
Qed.

Lemma wf_no_dot_suffix d : well_formed d → TrimSuffix d "." = d.
Proof.
  intros [_ _ Hl _]. unfold TrimSuffix.
  destruct (HasSuffix d ".") eqn:Hs; [|done].
  apply HasSuffix_spec in Hs as [r ->]. rewrite Split_app in Hl.
  apply Forall_app in Hl as [_ Hl]. inversion Hl as [|?? [Hbad _] _]; subst. done.
Qed.

Lemma host_byte_not_space c : host_byte c = true → negb (ascii_space c) = true.
Proof. destruct c as [[][][][][][][][]]; vm_compute; done. Qed.
Lemma host_byte_ascii c : host_byte c = true → is_ascii_byte c = true.
Proof. destruct c as [[][][][][][][][]]; vm_compute; done. Qed.
Lemma host_byte_lower_byte c : host_byte (lower_byte c) = host_byte c.
Proof. destruct c as [[][][][][][][][]]; vm_compute; done. Qed.

(** On a name of host bytes the URL and port steps do nothing. *)
Lemma normalize_host_bytes d :
  sforall host_byte d = true → well_formed (smap lower_byte d) →
  NormalizeDomain d = Ok (smap lower_byte d).
Proof.
  intros Hb Hwf.
  assert (Ha : is_ascii d = true) by (eapply sforall_impl; [apply host_byte_ascii|done]).
  assert (Hb' : sforall host_byte (smap lower_byte d) = true).
  { rewrite sforall_smap. rewrite <-Hb. clear. induction d; simpl; [done|].
    by rewrite host_byte_lower_byte, IHd. }
  unfold NormalizeDomain. cbv zeta.
  rewrite ToLower_ascii by done. set (v := smap lower_byte d) in *.
  assert (Hav : is_ascii v = true) by (by unfold v; rewrite is_ascii_lower).
  rewrite TrimSpace_id; [|done|eapply sforall_impl; [apply host_byte_not_space|done]].
  assert (Hslash : contains_byte "/" v = false) by (by apply sforall_no_byte with host_byte).
  assert (Hcolon : contains_byte ":" v = false) by (by apply sforall_no_byte with host_byte).
  destruct (String.eqb_spec v "") as [E|_]; [by destruct (wf_nonempty _ Hwf)|].
  rewrite Contains_byte, Hslash. cbn [andb].
  rewrite Contains_head by done. rewrite Count_zero by done. cbn [Nat.eqb].
  rewrite wf_no_dot_suffix by done.
  destruct (String.eqb_spec v "") as [E|_]; [by destruct (wf_nonempty _ Hwf)|].
  destruct (Nat.ltb_spec maxDomainLength (slen v)) as [Hlen|_].
  { pose proof (wf_length _ Hwf). unfold maxDomainLength in *. lia. }
  rewrite (proj2 (check_labels_none _)) by apply Hwf.
  by rewrite (wf_runes _ Hwf).
Qed.

Lemma well_formed_host_bytes d :
  is_ascii d = true → well_formed d → sforall host_byte d = true.
Proof. intros Ha Hwf. rewrite <-ascii_runes_allowed by done. apply Hwf. Qed.

(** The fixed points among ASCII names are the lower-case well-formed ones. *)
Lemma normalize_fixpoint d :
  is_ascii d = true → well_formed d → smap lower_byte d = d → NormalizeDomain d = Ok d.
Proof.
  intros Ha Hwf Hl. rewrite <-Hl at 2. apply normalize_host_bytes; [|by rewrite Hl].
  by apply well_formed_host_bytes.
Qed.
End AsciiNames.

(** ** Parent walks

    Every parent-suffix lookup of the code (whitelist, admin override) visits
    [strings.Join(parts[i:], ".")] for [i < len(parts) && i <= floor]. *)

Section Walk.
Context `{UnicodeTables, HostServices}.

Definition walk_candidate (parts : list string) (i : nat) : string := Join (drop i parts) ".".

Definition walk_candidates (domain : string) : list string :=
  let parts := Split domain "." in
  let floor := RegistrableWalkFloor domain in
  walk_candidate parts <$>
    seq 0 (Nat.min (length parts) (Z.to_nat (floor + 1))).

(** What the code relies on of the public-suffix list. *)
Class PublicSuffixLaws := {
  etld_suffix d r : etld_plus_one d = Some r → label_suffix r d;
  etld_stable d r c :
    etld_plus_one d = Some r → label_suffix c d → label_suffix r c →
    etld_plus_one c = Some r
}.

Context `{!PublicSuffixLaws}.

Lemma floor_nonneg d : (0 <= RegistrableWalkFloor d)%Z.
Proof. unfold RegistrableWalkFloor. repeat case_match; lia. Qed.

Lemma floor_split d r :
  NormalizeDomain d = Ok d → etld_plus_one d = Some r →
  ∃ ps, Split d "." = (ps ++ Split r ".")%list ∧ RegistrableWalkFloor d = Z.of_nat (length ps).
Proof.
  intros Hn Hr. unfold RegistrableWalkFloor. rewrite Hn, Hr.
  assert (d ≠ "") as Hd by apply (normalize_wf_aux _ _ Hn).
  apply String.eqb_neq in Hd. rewrite Hd.
  destruct (etld_suffix _ _ Hr) as [->|[p ->]].
  - exists []. split; [done|]. rewrite Z.leb_refl. done.
  - exists (Split p "."). rewrite Split_app. split; [done|].
    pose proof (Split_length p "."). unfold Count in *. rewrite scount_app. simpl.
    match goal with |- (if ?b then _ else _) = _ => destruct b eqn:E end;
      [apply Z.leb_le in E; lia|lia].
Qed.

Lemma walk_candidate_suffix d r c :
  NormalizeDomain d = Ok d → etld_plus_one d = Some r → c ∈ walk_candidates d →
  label_suffix c d ∧ label_suffix r c.
Proof.
  intros Hn Hr Hc. destruct (floor_split d r Hn Hr) as (ps & Hps & Hf).
  unfold walk_candidates, walk_candidate in Hc.
  apply list_elem_of_fmap in Hc as (i & -> & Hi). apply elem_of_seq in Hi.
  rewrite Hf in Hi. split; [apply Join_drop_suffix; lia|].
  assert (i ≤ length ps) by lia.
  rewrite Hps, drop_app_le by done.
  rewrite <-(Join_Split r ".") at 1. apply Join_app_suffix, Split_nonnil.
Qed.

Lemma walk_candidates_not_registrable d :
  NormalizeDomain d = Ok d → etld_plus_one d = None → walk_candidates d = [d].
Proof.
  intros Hn Hr. unfold walk_candidates, RegistrableWalkFloor. rewrite Hn, Hr.
  destruct (String.eqb d ""); simpl.
  all: pose proof (Split_length d ".") as Hl; rewrite Hl; simpl.
  all: rewrite Nat.min_0_r; simpl; unfold walk_candidate; by rewrite drop_0, Join_Split.
Qed.
End Walk.

(** ** Recycled tenant labels: [churn.go] *)

Definition churnProneRoots : list string := [
  "duckdns.org"; "no-ip.org"; "no-ip.com"; "ddns.net"; "hopto.org"; "serveo.net";
  "loclx.net"; "zapto.org"; "my.id";
  "000webhostapp.com"; "000webhost.com"; "weeblysite.com"; "weebly.com"; "webflow.io";
  "square.site"; "wixstudio.com"; "webnode.com"; "ucoz.com"; "blogspot.com";
  "ngrok.io"; "ngrok-free.app"; "trycloudflare.com";
  "dweb.link"; "ipfs.io"; "ipns.io"; "cf-ipfs.com" ].

Definition in_list (x : string) (l : list string) : bool := existsb (String.eqb x) l.

Section Churn.
Context `{UnicodeTables}.

(** The loop [for i := 1; i < len(labels); i++]; [ls] is [labels[i:]]. *)
Fixpoint churn_walk (ls : list string) : string :=
  match ls with
  | [] => ""
  | _ :: rest =>
      let root := Join ls "." in
      if in_list root churnProneRoots then root else churn_walk rest
  end.

Definition ChurnProneRoot (domain : string) : string :=
  let value := ToLower (TrimSuffix (TrimSpace domain) ".") in
  let value := if String.eqb value "" || HasPrefix value "*."
               then TrimPrefix value "*." else value in
  if String.eqb value "" then ""
  else churn_walk (tail (Split value ".")).

Definition IsChurnProneTenant (domain : string) : bool :=
  negb (String.eqb (ChurnProneRoot domain) "").
End Churn.

(** ** Label suffixes as tails of the label list *)

Lemma label_suffix_split c d :
  label_suffix c d ↔ ∃ i, i < length (Split d ".") ∧ Split c "." = drop i (Split d ".").
Proof.
  split.
  - intros [->|[p ->]].
    + exists 0. split; [|by rewrite drop_0]. rewrite Split_length. lia.
    + exists (length (Split p ".")). rewrite Split_app, length_app, drop_app_length.
      split; [|done]. rewrite (Split_length c). lia.
  - intros (i & Hi & Hc). rewrite <-(Join_Split c "."), Hc. by apply Join_drop_suffix.
Qed.

Lemma label_suffix_cut p r c :
  contains_byte "." p = false →
  label_suffix c (p ++ String "." r) ↔ c = p ++ String "." r ∨ label_suffix c r.
Proof.
  intros Hp. rewrite !label_suffix_split, Split_app, (Split_no_sep p) by done. split.
  - intros ([|i] & Hi & Hc); [left|right; exists i; split; [cbn in Hi; lia|done]].
    rewrite <-(Join_Split c "."), Hc, drop_0, <-(Split_no_sep p ".") by done.
    by rewrite <-Split_app, Join_Split.
  - intros [->|(i & Hi & Hc)]; [exists 0; split; [cbn; lia|]|exists (S i); split; [cbn; lia|done]].
    by rewrite drop_0, Split_app, (Split_no_sep p).
Qed.

Lemma in_list_spec x l : in_list x l = true ↔ x ∈ l.
Proof.
  unfold in_list. rewrite existsb_exists. split.
  - intros (y & Hy & E). apply String.eqb_eq in E as ->. by apply list_elem_of_In.
  - intros Hx. exists x. split; [by apply list_elem_of_In|apply String.eqb_refl].
Qed.

Lemma churn_walk_spec ls :
  churn_walk ls ≠ "" →
  churn_walk ls ∈ churnProneRoots ∧
  ∃ i, i < length ls ∧ churn_walk ls = Join (drop i ls) "." ∧
       ∀ j, j < i → Join (drop j ls) "." ∉ churnProneRoots.
Proof.
  induction ls as [|l ls IH]; [done|]. cbn [churn_walk length].
  destruct (in_list (Join (l :: ls) ".") churnProneRoots) eqn:E; intros Hne.
  - apply in_list_spec in E. split; [done|]. exists 0. split_and!; [lia|done|lia].
  - destruct (IH Hne) as (Hin & i & Hi & Heq & Hmin). split; [done|].
    exists (S i). split_and!; [lia|done|]. intros [|j] Hj.
    + rewrite drop_0. intros Hbad. apply in_list_spec in Hbad. congruence.
    + apply Hmin. lia.
Qed.

(** ** A concrete public-suffix service: every name's last label is its suffix *)

Definition two_label_etld (d : string) : option string :=
  let ls := Split d "." in
  if Nat.ltb (length ls) 2 then None else Some (Join (drop (length ls - 2) ls) ".").

Definition two_label_services : HostServices := {|
  url_hostname _ := None; etld_plus_one := two_label_etld; idna_to_ascii := Some |}.

Lemma two_label_laws : @PublicSuffixLaws two_label_services.
Proof.
  split; simpl; unfold two_label_etld; intros d r.
  - destruct (Nat.ltb_spec (length (Split d ".")) 2); intros [= <-].
    apply Join_drop_suffix. lia.
  - intros c. destruct (Nat.ltb_spec (length (Split d ".")) 2) as [|Hd]; intros [= <-].
    intros Hcd Hrc. apply label_suffix_split in Hcd as (i & Hi & Hc).
    apply label_suffix_split in Hrc as (j & Hj & Hr).
    rewrite Split_Join in Hr.
    2: { intros E. apply (f_equal length) in E. rewrite length_drop in E. simpl in E. lia. }
    2: { apply Forall_drop, Split_Forall_no_sep. }
    assert (length (Split c ".") = length (Split d ".") - i) as Hlc
      by (by rewrite Hc, length_drop).
    apply (f_equal length) in Hr. rewrite !length_drop in Hr.
    destruct (Nat.ltb_spec (length (Split c ".")) 2); [lia|].
    rewrite Hc, drop_drop. do 2 f_equal. rewrite length_drop. f_equal. lia.
Qed.

(** ** Properties *)

Section Properties.
Context `{UnicodeTables, HostServices}.

(** Whatever [NormalizeDomain] accepts, as a name, a host:port or a URL, is a
    non-empty name of at most 253 bytes whose labels hold 1 to 63 bytes and whose
    runes are letters, digits, dots, hyphens or above U+0080. *)
Theorem normalize_wf input d : NormalizeDomain input = Ok d → well_formed d.
Proof. apply normalize_wf_aux. Qed.

(** On an ASCII input that is not a URL, normalisation is idempotent and its
    output is lower case: later layers may normalise again without changing the
    name they key their rules on. *)
Theorem normalize_idempotent input d :
  is_ascii input = true → contains_byte "/" input = false →
  NormalizeDomain input = Ok d →
  is_lower d = true ∧ NormalizeDomain d = Ok d.
Proof.
  intros Ha Hs Hn. pose proof (normalize_wf_aux _ _ Hn) as Hwf.
  set (p := λ c, is_ascii_byte c && negb (Ascii.eqb "/" c) && negb (ascii_upper c)).
  assert (Hp : sforall p d = true).
  { assert (Hv : sforall p (TrimSpace (ToLower input)) = true).
    { rewrite ToLower_ascii by done. unfold TrimSpace. rewrite is_ascii_lower, Ha.
      apply sforall_trim_right, sforall_trim_left. rewrite sforall_smap.
      unfold is_ascii, contains_byte in *. apply negb_false_iff in Hs.
      clear Hn. induction input as [|c s IH]; [done|]. simpl in *. bool_simpl.
      rewrite IH by done. rewrite andb_true_r. unfold p.
      destruct c as [[][][][][][][][]]; try done. }
    assert (contains_byte "/" (TrimSpace (ToLower input)) = false) as Hns
      by exact (sforall_no_byte p "/" _ eq_refl Hv).
    unfold NormalizeDomain in Hn. cbv zeta in Hn.
    rewrite Contains_byte, Hns in Hn. cbn [andb] in Hn.
    set (v := TrimSpace (ToLower input)) in *. clearbody v.
    assert (Contains v "://" = false) as Hurl.
      by (by apply Contains_needs_byte with "/"%char).
    rewrite Hurl in Hn.
    repeat (case_match; try discriminate); simplify_eq;
      apply sforall_TrimSuffix; auto using sforall_before_colon. }
  assert (Hl : is_lower d = true).
  { eapply sforall_impl; [|exact Hp]. intros c. unfold p. by intros [_ ?]%andb_true_iff. }
  split; [done|]. apply normalize_fixpoint; [|done|by apply is_lower_fixed].
  eapply sforall_impl; [|exact Hp]. intros c. unfold p. intros Hc. by bool_simpl.
Qed.

Context `{!PublicSuffixLaws}.

(** The walk of a parent-suffix lookup visits exactly the label suffixes of the
    name that still end in its registrable domain, so a row stored for a public
    suffix such as [co.uk] is never reached. *)
Theorem walk_candidates_exact d r c :
  NormalizeDomain d = Ok d → etld_plus_one d = Some r →
  c ∈ walk_candidates d ↔
  label_suffix c d ∧ label_suffix r c ∧ etld_plus_one c = Some r.
Proof.
  intros Hn Hr. split.
  - intros Hc. destruct (walk_candidate_suffix d r c Hn Hr Hc) as [H1' H2'].
    split; [done|]. split; [done|]. by eapply etld_stable.
  - intros (Hcd & Hrc & _). destruct (floor_split d r Hn Hr) as (ps & Hps & Hf).
    apply label_suffix_split in Hcd as (i & Hi & Hc).
    apply label_suffix_split in Hrc as (j & Hj & Hrs).
    apply list_elem_of_fmap. exists i. split.
    + unfold walk_candidate. by rewrite <-Hc, Join_Split.
    + apply elem_of_seq. rewrite Hf. split; [lia|].
      apply (f_equal length) in Hrs, Hc, Hps.
      rewrite length_drop in Hrs, Hc. rewrite length_app in Hps. lia.
Qed.
End Properties.

(** ** Witnesses *)

#[local] Existing Instance ascii_tables.
#[local] Existing Instance two_label_services.

Lemma normalize_wf_witness :
  NormalizeDomain " Mail.Example.COM:8443" = Ok "mail.example.com" ∧
  well_formed "mail.example.com".
Proof.
  split; [by vm_compute|].
  apply (normalize_wf " Mail.Example.COM:8443"). by vm_compute.
Defined.

Lemma normalize_idempotent_witness :
  is_lower "login.bank.vn" = true ∧ NormalizeDomain "login.bank.vn" = Ok "login.bank.vn".
Proof. apply (normalize_idempotent "Login.Bank.VN."); by vm_compute. Defined.

Lemma walk_candidates_exact_witness :
  "mail.example.com" ∈ walk_candidates "a.mail.example.com" ↔
  label_suffix "mail.example.com" "a.mail.example.com" ∧
  label_suffix "example.com" "mail.example.com" ∧
  etld_plus_one "mail.example.com" = Some "example.com".
Proof.
  apply (@walk_candidates_exact _ _ two_label_laws); by vm_compute.
Defined.
