(* ===== verification/Trie.v ===== *)
(** * The adblock rule trie: [internal/domaintrie/trie.go]

    A prefix tree over domain labels in reverse order ([com], [example],
    [ads]).  Every node has one slot for an exact rule and one for a suffix
    rule.  [AddRule] normalises a rule and fills its slot first-wins;
    [MatchRuleDetail] prefers the queried name's own exact rule, then the
    deepest suffix rule on its path.

    The Go nodes are shared mutable objects only while a trie is being built;
    each node has one parent, so the tree is modelled as a value. *)

From Stdlib Require Import ZArith Lia Ascii String.
From S2P Require Import Prelude GoStr Hostname.

(** ** Rules *)

Inductive RuleScope := RuleScopeExact | RuleScopeSuffix | RuleScopeOther (s : string).

Definition scope_string (s : RuleScope) : string :=
  match s with
  | RuleScopeExact => "exact" | RuleScopeSuffix => "suffix" | RuleScopeOther s => s
  end.
(** [RuleScope(s)]: the conversion from a string *)
Definition scope_of_string (s : string) : RuleScope :=
  if String.eqb s "exact" then RuleScopeExact
  else if String.eqb s "suffix" then RuleScopeSuffix else RuleScopeOther s.

Definition RuleActionBlock : string := "block".
Definition LegacyRuleSourceID : string := "legacy".
Definition CacheV2Header : string := "# safe-zone-adblock-cache-v2".
Definition DefaultRuleCategory : string := "unknown".

Definition validRuleCategories : list string :=
  ["ads"; "tracking"; "telemetry"; "nuisance"; "unknown"].
Definition IsValidRuleCategory (category : string) : bool :=
  in_list category validRuleCategories.

Inductive ScopeOrigin :=
  | OriginUnspecified | OriginGlobalDefault | OriginSourcePolicyExact
  | OriginSourcePolicySuffix | OriginWildcard | OriginLegacyAdd
  | OriginCacheV2Unknown | OriginLegacyCache.

Record Rule := mkRule {
  Domain : string;
  Scope : RuleScope;
  SourceID : string;
  Category : string;
  Action : string;
  Origin : ScopeOrigin
}.

(** Go's zero [Rule{}]. *)
Definition zero_rule : Rule := mkRule "" (RuleScopeOther "") "" "" "" OriginUnspecified.

#[export] Instance RuleScope_eq_dec : EqDecision RuleScope.
Proof. solve_decision. Defined.
#[export] Instance ScopeOrigin_eq_dec : EqDecision ScopeOrigin.
Proof. solve_decision. Defined.
#[export] Instance Rule_eq_dec : EqDecision Rule.
Proof. solve_decision. Defined.

(** ** Nodes *)

Inductive Node := mkNode {
  Children : list (string * Node);
  Exact : option Rule;
  Suffix : option Rule
}.

Definition empty_node : Node := mkNode [] None None.

Definition set_children (n : Node) (cs : list (string * Node)) : Node :=
  mkNode cs (Exact n) (Suffix n).

(** The outcome of a binary search: the index of the label, or the insertion
    point; [SearchPanic] is an index out of range or exhausted fuel. *)
Inductive search_result := Found (i : nat) | Missing (lo : Z) | SearchPanic.

(** The loop [for lo <= hi { mid := int(uint(lo+hi) >> 1) ... }]. *)
Fixpoint search_loop {A} (fuel : nat) (cs : list (string * A)) (label : string)
    (lo hi : Z) : search_result :=
  if (lo <=? hi)%Z then
    match fuel with
    | 0 => SearchPanic
    | S fuel =>
        let mid := Z.shiftr (lo + hi) 1 in
        match cs !! Z.to_nat mid with
        | None => SearchPanic
        | Some (l, _) =>
            match String.compare l label with
            | Lt => search_loop fuel cs label (mid + 1) hi
            | Gt => search_loop fuel cs label lo (mid - 1)
            | Eq => Found (Z.to_nat mid)
            end
        end
    end
  else Missing lo.

(** The interval halves at every turn, so [S (length cs)] turns are enough. *)
Definition search {A} (cs : list (string * A)) (label : string) : search_result :=
  search_loop (S (length cs)) cs label 0 (Z.of_nat (length cs) - 1).

Definition findChild (n : Node) (label : string) : option Node :=
  match search (Children n) label with
  | Found i => snd <$> Children n !! i
  | _ => None
  end.

(** [append] of one zero entry, [copy(s[lo+1:], s[lo:])], then [s[lo] = e]. *)
Definition insert_at {A} (lo : nat) (e : A) (cs : list A) : list A :=
  take lo cs ++ e :: drop lo cs.

(** Returns the node with the child present, and the child's index: the Go code
    returns a pointer to it. *)
Definition addChild (n : Node) (label : string) : Node * nat :=
  match search (Children n) label with
  | Found i => (n, i)
  | Missing lo =>
      (set_children n (insert_at (Z.to_nat lo) (label, empty_node) (Children n)), Z.to_nat lo)
  | SearchPanic => (n, 0)
  end.

(** Writing through the pointer of the child at index [i]. *)
Definition set_child (n : Node) (i : nat) (c : Node) : Node :=
  match Children n !! i with
  | Some (l, _) => set_children n (<[i:=(l, c)]> (Children n))
  | None => n
  end.

(** ** Label walk

    [end := len(domain); for end > 0 { start := LastIndexByte(domain[:end], '.');
    label := domain[start+1:end]; end = start; if label == "" continue; ... }] *)
Fixpoint label_loop (fuel : nat) (domain : string) (end_ : Z) : list string :=
  if (0 <? end_)%Z then
    match fuel with
    | 0 => []
    | S fuel =>
        let start := LastIndexByte (slice domain 0 end_) "." in
        let label := slice domain (start + 1) end_ in
        if String.eqb label "" then label_loop fuel domain start
        else label :: label_loop fuel domain start
    end
  else [].

(** [end] decreases at every turn, so [len(domain)] turns are enough. *)
Definition walk_labels (domain : string) : list string :=
  label_loop (slen domain) domain (Z.of_nat (slen domain)).

(** Descend along the labels, creating the missing nodes, and run [k] on the
    last one. *)
Fixpoint descend {R} (ls : list string) (k : Node → Node * R) (n : Node) : Node * R :=
  match ls with
  | [] => k n
  | l :: ls =>
      let '(n, i) := addChild n l in
      match Children n !! i with
      | Some (_, c) => let '(c', r) := descend ls k c in (set_child n i c', r)
      | None => k n
      end
  end.

Record Trie := mkTrie { root : Node; exactCount : Z; suffixCount : Z }.
Definition NewTrie : Trie := mkTrie empty_node 0 0.
Definition Clear (t : Trie) : Trie := mkTrie empty_node 0 0.
Definition ExactCount (t : Trie) : Z := exactCount t.
Definition SuffixCount (t : Trie) : Z := suffixCount t.
Definition TrieCount (t : Trie) : Z := (exactCount t + suffixCount t)%Z.

(** [for strings.HasPrefix(d, "*.") { d = strings.TrimPrefix(d, "*.") }] *)
Fixpoint strip_wildcards (fuel : nat) (d : string) : string :=
  match fuel with
  | 0 => d
  | S fuel => if HasPrefix d "*." then strip_wildcards fuel (TrimPrefix d "*.") else d
  end.
Definition sanitizeDomain (domain : string) : string :=
  let domain := strip_wildcards (slen domain) domain in
  if Contains domain "*" then "" else domain.

(** [strings.ReplaceAll(s, "..", ".")]: left to right, non-overlapping *)
Fixpoint replace_dots (s : string) : string :=
  match s with
  | String c1 (String c2 r as r1) =>
      if Ascii.eqb c1 "." && Ascii.eqb c2 "." then String "." (replace_dots r)
      else String c1 (replace_dots r1)
  | _ => s
  end.
(** [for strings.Contains(s, "..") { s = ReplaceAll(s, "..", ".") }]: every turn
    shortens the string. *)
Fixpoint collapse_dots (fuel : nat) (s : string) : string :=
  match fuel with
  | 0 => s
  | S fuel => if Contains s ".." then collapse_dots fuel (replace_dots s) else s
  end.

Section Ops.
Context `{UnicodeTables, HostServices}.

Definition normalizeDomain (domain : string) : string :=
  let domain := ToLower (TrimSpace domain) in
  if String.eqb domain "" then ""
  else match idna_to_ascii domain with Some a => a | None => domain end.

(** The slot write at the end of [AddRule]. *)
Definition store_rule (stored : Rule) (n : Node) : Node * bool :=
  match Scope stored with
  | RuleScopeExact =>
      match Exact n with
      | Some _ => (n, false)
      | None => (mkNode (Children n) (Some stored) (Suffix n), true)
      end
  | _ =>
      match Suffix n with
      | Some _ => (n, false)
      | None => (mkNode (Children n) (Exact n) (Some stored), true)
      end
  end.

(** Everything [AddRule] does before the walk: the normalised rule, or [None]
    when the rule is rejected. *)
Definition prepare_rule (rule : Rule) : option Rule :=
  let raw := TrimSpace (Domain rule) in
  if String.eqb raw "" then None
  else
    let forcedSuffix := HasPrefix raw "*." in
    let domain := sanitizeDomain (normalizeDomain raw) in
    if String.eqb domain "" then None
    else
      let checkDomain := TrimRightByte domain "." in
      let checkDomain := collapse_dots (slen checkDomain) checkDomain in
      let domain := checkDomain in
      if negb (IsRegistrableDomain checkDomain) then None
      else
        let scope := if forcedSuffix then RuleScopeSuffix else Scope rule in
        let origin := if forcedSuffix then OriginWildcard else Origin rule in
        let scope := match scope with
                     | RuleScopeExact => RuleScopeExact | _ => RuleScopeSuffix end in
        let category := ToLower (TrimSpace (Category rule)) in
        let category := if IsValidRuleCategory category then category
                        else DefaultRuleCategory in
        let action := ToLower (TrimSpace (Action rule)) in
        let stored := mkRule domain scope (SourceID rule) category RuleActionBlock origin in
        if String.eqb action "" then Some stored
        else if String.eqb action RuleActionBlock then Some stored
        else None.

Definition AddRule (t : Trie) (rule : Rule) : Trie * bool :=
  match prepare_rule rule with
  | None => (t, false)
  | Some stored =>
      let '(n, ok) := descend (walk_labels (Domain stored)) (store_rule stored) (root t) in
      if ok then
        match Scope stored with
        | RuleScopeExact => (mkTrie n (exactCount t + 1) (suffixCount t), true)
        | _ => (mkTrie n (exactCount t) (suffixCount t + 1), true)
        end
      else (mkTrie n (exactCount t) (suffixCount t), false)
  end.

Definition Add (t : Trie) (domain : string) : Trie :=
  fst (AddRule t (mkRule domain RuleScopeSuffix LegacyRuleSourceID DefaultRuleCategory
                    RuleActionBlock OriginLegacyAdd)).

Record MatchDetail := mkMatch { MRule : Rule; Query : string; Matched : bool }.
Definition no_match : MatchDetail := mkMatch zero_rule "" false.

(** The lookup loop; [deepest] is the deepest suffix rule seen so far. *)
Fixpoint match_walk (query : string) (ls : list string) (curr : Node)
    (deepest : option Rule) : MatchDetail :=
  match ls with
  | [] =>
      match Exact curr with
      | Some r => mkMatch r query true
      | None =>
          match deepest with Some r => mkMatch r query true | None => no_match end
      end
  | l :: ls =>
      match findChild curr l with
      | None =>
          match deepest with Some r => mkMatch r query true | None => no_match end
      | Some child =>
          match_walk query ls child
            (match Suffix child with Some r => Some r | None => deepest end)
      end
  end.

Definition MatchRuleDetail (t : Trie) (domain : string) : MatchDetail :=
  let domain := normalizeDomain domain in
  if String.eqb domain "" then no_match
  else match_walk domain (walk_labels domain) (root t) None.

Definition MatchRule (t : Trie) (domain : string) : Rule * bool :=
  let detail := MatchRuleDetail t domain in (MRule detail, Matched detail).
Definition Match (t : Trie) (domain : string) : bool := snd (MatchRule t domain).
End Ops.

(** ** Traversal, merge and the cache formats *)

(** [ForEach]: the visitor returns its new state and whether to go on; the
    second component of the walk's state is Go's [stopped]. *)
Fixpoint foreach_node {S} (fn : Rule → S → S * bool) (n : Node) (st : S * bool) : S * bool :=
  let visit (r : option Rule) (st : S * bool) :=
    match r with
    | Some r => let '(s, go) := fn r (fst st) in (s, negb go)
    | None => st
    end in
  if snd st then st
  else
    let st := visit (Exact n) st in
    if snd st then st
    else
      let st := visit (Suffix n) st in
      if snd st then st
      else
        (fix loop (cs : list (string * Node)) (st : S * bool) : S * bool :=
           match cs with
           | [] => st
           | (_, c) :: cs =>
               let st := foreach_node fn c st in
               if snd st then st else loop cs st
           end) (Children n) st.

Definition ForEach {S} (fn : Rule → S → S * bool) (t : Trie) (s : S) : S :=
  fst (foreach_node fn (root t) (s, false)).

(** A writer in state [W]: bytes written and the error, if any. *)
Definition writer (W : Type) : Type := string → W → W * (Z * option string).

Definition newline : string := String (ascii_of_N 10) "".
Definition tab : string := String (ascii_of_N 9) "".
Definition tab_byte : ascii := ascii_of_N 9.

(** The state of both [WriteTo] walks: the writer, [total] and [err]. *)
Record wstate (W : Type) := mkW { wr : W; total : Z; werr : option string }.
Arguments mkW {W} _ _ _.
Arguments wr {W} _.
Arguments total {W} _.
Arguments werr {W} _.

Definition emit {W} (w : writer W) (line : string) (st : wstate W) : wstate W :=
  let '(s, (n, e)) := w line (wr st) in mkW s (total st + n) e.

(** [fmt.Fprintf(w, "%s\t%s\t%s\t%s\t%s\n", ...)] *)
Definition format_rule (r : Rule) : string :=
  Domain r ++ tab ++ scope_string (Scope r) ++ tab ++ Category r ++ tab ++ Action r
  ++ tab ++ SourceID r ++ newline.

Definition writeRule {W} (w : writer W) (rule : Rule) (st : wstate W) : wstate W :=
  match werr st with Some _ => st | None => emit w (format_rule rule) st end.

Fixpoint write_v2_node {W} (w : writer W) (n : Node) (st : wstate W) : wstate W :=
  match werr st with
  | Some _ => st
  | None =>
      let st := match Exact n with Some r => writeRule w r st | None => st end in
      let st := match Suffix n with Some r => writeRule w r st | None => st end in
      match werr st with
      | Some _ => st
      | None =>
          (fix loop (cs : list (string * Node)) (st : wstate W) : wstate W :=
             match cs with
             | [] => st
             | (_, c) :: cs => loop cs (write_v2_node w c st)
             end) (Children n) st
      end
  end.

(** [WriteToV2]: the byte count and the error. *)
Definition WriteToV2 {W} (w : writer W) (t : Trie) (s : W) : wstate W :=
  let st := emit w (CacheV2Header ++ newline) (mkW s 0 None) in
  match werr st with
  | Some e => mkW (wr st) 0 (Some e)
  | None =>
      write_v2_node w (root t)
        (mkW (wr st) (Z.of_nat (slen CacheV2Header + 1)) None)
  end.

(** The v1 walk carries the path from the TLD down. *)
Fixpoint write_v1_node {W} (w : writer W) (n : Node) (path : list string) (st : wstate W)
    : wstate W :=
  match werr st with
  | Some _ => st
  | None =>
      let st :=
        match Exact n, Suffix n with
        | None, None => st
        | _, _ => emit w (Join (rev path) "." ++ newline) st
        end in
      match werr st with
      | Some _ => st
      | None =>
          (fix loop (cs : list (string * Node)) (st : wstate W) : wstate W :=
             match cs with
             | [] => st
             | (l, c) :: cs => loop cs (write_v1_node w c (path ++ [l])%list st)
             end) (Children n) st
      end
  end.

Definition WriteTo {W} (w : writer W) (t : Trie) (s : W) : wstate W :=
  write_v1_node w (root t) [] (mkW s 0 None).

Definition ParseCacheV2Line (line : string) : option Rule :=
  match Split line tab_byte with
  | [domain; scope; category; action; source] =>
      let rule := mkRule domain (scope_of_string scope) source category action
                    OriginCacheV2Unknown in
      if String.eqb domain "" || String.eqb source "" then None
      else match Scope rule with
           | RuleScopeOther _ => None
           | _ =>
               if negb (IsValidRuleCategory category) then None
               else if negb (String.eqb action RuleActionBlock) then None
               else Some rule
           end
  | _ => None
  end.

Section Merge.
Context `{UnicodeTables, HostServices}.

(** [MergeFrom]: the visitor always continues. *)
Definition merge_visit (rule : Rule) (s : Trie * Z) : (Trie * Z) * bool :=
  let '(t, merged) := s in
  let '(t, ok) := AddRule t rule in
  ((t, if ok then (merged + 1)%Z else merged), true).
Definition MergeFrom (t src : Trie) : Trie * Z := ForEach merge_visit src (t, 0%Z).
End Merge.
