(* ===== verification/TrieSpec.v ===== *)
(** * Specification of the rule trie

    The abstract trie is a pair of finite maps from label paths to rules, one
    for exact and one for suffix rules.  The theorems show that the node tree
    of [Trie.v] refines it, and that the cache formats round-trip. *)

From Stdlib Require Import ZArith Lia Ascii String Sorting.Sorted.
From S2P Require Import Prelude GoStr Hostname Trie.

(** ** The label walk *)

Section Labels.
Definition nonempty_label (l : string) : bool := negb (String.eqb l "").

Lemma slice_prefix_app a b : slice (a ++ b) 0 (Z.of_nat (slen a)) = a.
Proof. unfold slice. rewrite Z.sub_0_r, Nat2Z.id. apply substring_0_app. Qed.
Lemma substring_mid a b c : String.substring (slen a) (slen b) (a ++ b ++ c) = b.
Proof. rewrite substring_skip. apply substring_0_app. Qed.
Lemma slice_last_app p a b :
  slice (p ++ a ++ b) (Z.of_nat (slen p)) (Z.of_nat (slen p + slen a)) = a.
Proof.
  unfold slice. rewrite Nat2Z.id. replace (Z.to_nat _) with (slen a) by lia.
  apply substring_mid.
Qed.

(** One turn removes the last label of the prefix [p] of the domain. *)
Lemma label_loop_prefix fuel p s :
  slen p ≤ fuel →
  label_loop fuel (p ++ s) (Z.of_nat (slen p)) =
  rev (List.filter nonempty_label (Split p ".")).
Proof.
  revert p s. induction fuel as [|fuel IH]; intros p s Hf.
  { destruct p; simpl in Hf; [done|lia]. }
  cbn [label_loop]. destruct p as [|c0 p0] eqn:Ep; [done|]. rewrite <-Ep in *.
  assert (0 < slen p) by (rewrite Ep; simpl; lia). clear Ep c0 p0.
  destruct (Z.ltb_spec 0 (Z.of_nat (slen p))); [|lia].
  rewrite slice_prefix_app.
  destruct (last_sep_decompose p ".") as [Hno|(a & b & -> & Hb)].
  - rewrite LastIndexByte_none, Split_no_sep by done. cbn [Z.add].
    replace (-1 + 1)%Z with 0%Z by lia. rewrite slice_prefix_app.
    assert (p ≠ "") as Hp by (intros ->; simpl in *; lia).
    apply String.eqb_neq in Hp. rewrite Hp. cbn [List.filter].
    unfold nonempty_label at 1. rewrite Hp. simpl. by destruct fuel.
  - rewrite LastIndexByte_app, Split_app, (Split_no_sep b) by done.
    rewrite sapp_assoc. cbn [String.append].
    change (String "." (b ++ s)) with (String "." "" ++ b ++ s).
    rewrite slen_app in *. cbn [slen] in *.
    replace (Z.of_nat (slen a) + 1)%Z with (Z.of_nat (slen (a ++ ".")))
      by (rewrite slen_app; simpl; lia).
    rewrite <-sapp_assoc.
    replace (Z.of_nat (slen a + S (slen b))) with
      (Z.of_nat (slen (a ++ ".") + slen b)) by (rewrite slen_app; simpl; lia).
    rewrite slice_last_app, sapp_assoc, IH by lia.
    rewrite List.filter_app, rev_app_distr. cbn [List.filter].
    change (nonempty_label b) with (negb (String.eqb b "")).
    by destruct (String.eqb b "").
Qed.

Lemma walk_labels_split d :
  walk_labels d = rev (List.filter nonempty_label (Split d ".")).
Proof.
  unfold walk_labels. rewrite <-(sapp_nil_r d) at 2. by apply label_loop_prefix.
Qed.
End Labels.

(** ** Binary search over sorted children *)

Section Search.
Context {A : Type}.
Implicit Types cs : list (string * A).

Definition sorted_labels cs : Prop := StronglySorted slt (fst <$> cs).

Lemma sorted_lookup cs (i j : nat) x y :
  sorted_labels cs → i < j → cs !! i = Some x → cs !! j = Some y → slt (fst x) (fst y).
Proof.
  unfold sorted_labels. revert i j. induction cs as [|z cs IH]; intros i j Hs Hij Hi Hj; [done|].
  inversion Hs as [|?? Hs' Hall]; subst.
  destruct j as [|j]; [lia|]. destruct i as [|i]; simpl in *.
  - simplify_eq. rewrite List.Forall_forall in Hall. apply Hall.
    apply list_elem_of_In, list_elem_of_fmap. exists y. split; [done|].
    by apply list_elem_of_lookup_2 with j.
  - apply (IH i j); [done|lia|done|done].
Qed.

(** The loop invariant: everything left of [lo] is smaller than the label and
    everything right of [hi] is larger. *)
Definition bounds cs label (lo hi : Z) : Prop :=
  (0 <= lo)%Z ∧ (lo <= hi + 1)%Z ∧ (hi < Z.of_nat (length cs))%Z ∧
  (∀ (j : nat) x, (Z.of_nat j < lo)%Z → cs !! j = Some x → slt (fst x) label) ∧
  (∀ (j : nat) x, (hi < Z.of_nat j)%Z → cs !! j = Some x → slt label (fst x)).

Definition search_post cs label (r : search_result) : Prop :=
  match r with
  | Found i => ∃ a, cs !! i = Some (label, a)
  | Missing lo =>
      (0 <= lo <= Z.of_nat (length cs))%Z ∧
      (∀ (j : nat) x, (Z.of_nat j < lo)%Z → cs !! j = Some x → slt (fst x) label) ∧
      (∀ (j : nat) x, (lo <= Z.of_nat j)%Z → cs !! j = Some x → slt label (fst x))
  | SearchPanic => False
  end.

Lemma search_loop_spec fuel cs label lo hi :
  sorted_labels cs → bounds cs label lo hi → (hi - lo < Z.of_nat fuel)%Z →
  search_post cs label (search_loop fuel cs label lo hi).
Proof.
  intros Hs. revert lo hi. induction fuel as [|fuel IH]; intros lo hi Hb Hf;
    pose proof Hb as (Hlo & Hlh & Hhi & Hl & Hr); cbn [search_loop].
  { destruct (Z.leb_spec lo hi); [lia|]. split; [lia|]. split; [done|].
    intros j x Hj. apply Hr. lia. }
  destruct (Z.leb_spec lo hi) as [Hle|Hgt].
  2: { split; [lia|]. split; [done|]. intros j x Hj. apply Hr. lia. }
  rewrite Z.shiftr_div_pow2 by lia. change (2 ^ 1)%Z with 2%Z.
  set (mid := ((lo + hi) / 2)%Z).
  assert (lo <= mid <= hi)%Z as Hmid by (unfold mid; split; [apply Z.div_le_lower_bound|apply Z.div_le_upper_bound]; lia).
  destruct (cs !! Z.to_nat mid) as [[l a]|] eqn:E.
  2: { apply lookup_ge_None in E. lia. }
  destruct (String.compare l label) eqn:Ec.
  - apply scompare_eq in Ec as ->. by exists a.
  - apply IH; [|lia]. split; [lia|]. split; [lia|]. split; [lia|]. split; [|done].
    intros j x Hj Hx. destruct (decide (j = Z.to_nat mid)) as [->|Hne]; [by simplify_eq|].
    transitivity l; [|done]. apply (sorted_lookup cs j (Z.to_nat mid) x (l, a)); [done|lia|done|done].
  - assert (slt label l) as Hlt by (unfold slt; by rewrite scompare_antisym, Ec).
    apply IH; [|lia]. split; [lia|]. split; [lia|]. split; [lia|]. split; [done|].
    intros j x Hj Hx. destruct (decide (j = Z.to_nat mid)) as [->|Hne]; [by simplify_eq|].
    transitivity l; [done|]. apply (sorted_lookup cs (Z.to_nat mid) j (l, a) x); [done|lia|done|done].
Qed.

Lemma search_spec cs label :
  sorted_labels cs → search_post cs label (search cs label).
Proof.
  intros Hs. apply search_loop_spec; [done| |lia].
  split; [lia|]. split; [lia|]. split; [lia|]. split; [intros; lia|].
  intros j x Hj Hx. apply lookup_lt_Some in Hx. lia.
Qed.

Lemma search_found cs label i a :
  sorted_labels cs → cs !! i = Some (label, a) → search cs label = Found i.
Proof.
  intros Hs Hi. pose proof (search_spec cs label Hs) as Hp.
  destruct (search cs label) as [j|lo|]; simpl in Hp; [| |done].
  - destruct Hp as [b Hj]. f_equal.
    destruct (lt_eq_lt_dec i j) as [[Hlt| ->]|Hlt]; [|done|]; exfalso.
    + exact (irreflexivity slt _ (sorted_lookup cs i j _ _ Hs Hlt Hi Hj)).
    + exact (irreflexivity slt _ (sorted_lookup cs j i _ _ Hs Hlt Hj Hi)).
  - destruct Hp as (Hlo & Hl & Hr). exfalso.
    destruct (Z.lt_ge_cases (Z.of_nat i) lo).
    + exact (irreflexivity slt _ (Hl i _ ltac:(done) Hi)).
    + exact (irreflexivity slt _ (Hr i _ ltac:(done) Hi)).
Qed.

Lemma sorted_insert_at cs label lo a :
  sorted_labels cs → search cs label = Missing lo →
  sorted_labels (insert_at (Z.to_nat lo) (label, a) cs).
Proof.
  intros Hs Hm. pose proof (search_spec cs label Hs) as Hp. rewrite Hm in Hp.
  destruct Hp as (Hlo & Hl & Hr). unfold insert_at, sorted_labels in *.
  rewrite fmap_app, fmap_cons. cbn [fst].
  rewrite <-(take_drop (Z.to_nat lo) cs), fmap_app in Hs.
  assert (Forall (λ x, slt x label) (fst <$> take (Z.to_nat lo) cs)) as H1.
  { apply Forall_forall. intros x (y & -> & Hy)%list_elem_of_fmap.
    apply list_elem_of_lookup in Hy as [j Hj]. apply lookup_take_Some in Hj as [Hj Hlt].
    apply (Hl j); [lia|done]. }
  assert (Forall (slt label) (fst <$> drop (Z.to_nat lo) cs)) as H2.
  { apply Forall_forall. intros x (y & -> & Hy)%list_elem_of_fmap.
    apply list_elem_of_lookup in Hy as [j Hj]. rewrite lookup_drop in Hj.
    apply (Hr (Z.to_nat lo + j)); [lia|done]. }
  revert Hs H1. generalize (fst <$> take (Z.to_nat lo) cs) as xs.
  induction xs as [|x xs IH]; intros Hs Hx; simpl in *.
  - constructor; [done|]. by apply Forall_fold_right, Forall_fold_right.
  - inversion Hs as [|?? Hs' Hall]; subst. inversion Hx as [|?? Hx1 Hx2]; subst.
    constructor; [by apply IH|]. apply Forall_app in Hall as [Ha1 Ha2].
    apply Forall_app. split; [done|]. constructor; [done|].
    eapply Forall_impl; [exact H2|]. intros y Hy. by transitivity label.
Qed.
End Search.

(** ** Well-formed node trees *)

Inductive node_wf : Node → Prop :=
  | NodeWf cs e s :
      sorted_labels cs → Forall (λ p, node_wf p.2) cs → node_wf (mkNode cs e s).

Section NodeInd.
Context (P : Node → Prop).
Context (Hstep : ∀ cs e s, Forall (λ p, P p.2) cs → P (mkNode cs e s)).

Fixpoint Node_tree_ind (n : Node) : P n :=
  match n with
  | mkNode cs e s =>
      Hstep cs e s
        ((fix go (cs : list (string * Node)) : Forall (λ p, P p.2) cs :=
            match cs with
            | [] => List.Forall_nil _
            | p :: cs => List.Forall_cons _ p cs (Node_tree_ind p.2) (go cs)
            end) cs)
  end.
End NodeInd.

Lemma node_wf_inv n :
  node_wf n → sorted_labels (Children n) ∧ Forall (λ p, node_wf p.2) (Children n).
Proof. by inversion 1. Qed.
Lemma node_wf_intro n :
  sorted_labels (Children n) → Forall (λ p, node_wf p.2) (Children n) → node_wf n.
Proof. destruct n. by constructor. Qed.
Lemma node_wf_empty : node_wf empty_node.
Proof. constructor; constructor. Qed.
#[export] Hint Resolve node_wf_empty : core.

Lemma findChild_spec n l c :
  sorted_labels (Children n) → findChild n l = Some c ↔ ∃ i, Children n !! i = Some (l, c).
Proof.
  intros Hs. unfold findChild. split.
  - pose proof (search_spec (Children n) l Hs) as Hp.
    destruct (search (Children n) l) as [i| |]; [|done|done]. destruct Hp as [a Ha].
    rewrite Ha. intros [= ->]. by exists i.
  - intros [i Hi]. rewrite (search_found _ _ _ _ Hs Hi), Hi. done.
Qed.

Lemma findChild_wf n l c : node_wf n → findChild n l = Some c → node_wf c.
Proof.
  intros [Hs Hall]%node_wf_inv Hf. apply findChild_spec in Hf as [i Hi]; [|done].
  rewrite Forall_lookup in Hall. by apply (Hall i (l, c)).
Qed.

Lemma addChild_found n l i c :
  node_wf n → Children n !! i = Some (l, c) → addChild n l = (n, i).
Proof.
  intros [Hs _]%node_wf_inv Hi. unfold addChild. by rewrite (search_found _ _ _ _ Hs Hi).
Qed.

(** [addChild] makes the child present, keeps the node sorted and changes
    nothing else. *)
Lemma addChild_spec n l n' i :
  node_wf n → addChild n l = (n', i) →
  node_wf n' ∧ Exact n' = Exact n ∧ Suffix n' = Suffix n ∧
  Children n' !! i = Some (l, default empty_node (findChild n l)) ∧
  ∀ l', l' ≠ l → findChild n' l' = findChild n l'.
Proof.
  intros Hwf Ha. pose proof (node_wf_inv n Hwf) as [Hs Hall].
  pose proof (search_spec (Children n) l Hs) as Hp.
  unfold addChild in Ha. destruct (search (Children n) l) as [j|lo|] eqn:E; [| |done].
  - injection Ha as <- <-. destruct Hp as [c Hc]. split_and!; try done.
    rewrite (proj2 (findChild_spec n l c Hs)) by eauto. done.
  - injection Ha as <- <-.
    assert (sorted_labels (insert_at (Z.to_nat lo) (l, empty_node) (Children n))) as Hs'
      by by apply sorted_insert_at.
    assert (Z.to_nat lo ≤ length (Children n)) as Hlo by (destruct Hp; lia).
    assert (length (take (Z.to_nat lo) (Children n)) = Z.to_nat lo) as Hlt
      by (rewrite length_take; lia).
    split_and!; try done.
    + apply node_wf_intro; [done|]. cbn. unfold insert_at.
      rewrite <-(take_drop (Z.to_nat lo) (Children n)) in Hall.
      apply Forall_app in Hall as [H1 H2]. apply Forall_app. by split; [|constructor].
    + cbn. unfold insert_at. rewrite lookup_app_r by lia. rewrite Hlt, Nat.sub_diag. cbn.
      unfold findChild. by rewrite E.
    + intros l' Hne. apply option_eq. intros c.
      rewrite !findChild_spec by done. cbn. unfold insert_at.
      rewrite <-!list_elem_of_lookup.
      transitivity ((l', c) ∈ take (Z.to_nat lo) (Children n) ++ drop (Z.to_nat lo) (Children n))%list;
        [|by rewrite take_drop].
      rewrite !elem_of_app, elem_of_cons.
      split; [|tauto]. intros [?|[[= ??]|?]]; [tauto|done|tauto].
Qed.

Lemma set_child_spec n i l c c' :
  node_wf n → Children n !! i = Some (l, c) → node_wf c' →
  node_wf (set_child n i c') ∧
  Exact (set_child n i c') = Exact n ∧ Suffix (set_child n i c') = Suffix n ∧
  ∀ l', findChild (set_child n i c') l' = if decide (l' = l) then Some c' else findChild n l'.
Proof.
  intros Hwf Hi Hc'. pose proof (node_wf_inv n Hwf) as [Hs Hall].
  unfold set_child. rewrite Hi. cbn.
  assert (i < length (Children n)) as Hlt by by eapply lookup_lt_Some.
  assert (sorted_labels (<[i:=(l, c')]> (Children n))) as Hs'.
  { unfold sorted_labels in *. rewrite list_fmap_insert. cbn.
    rewrite list_insert_id; [done|]. by rewrite list_lookup_fmap, Hi. }
  split_and!; try done.
  - apply node_wf_intro; cbn; [done|]. by apply Forall_insert.
  - intros l'. apply option_eq. intros d. rewrite findChild_spec by done. cbn.
    split.
    + intros [j Hj]. rewrite list_lookup_insert in Hj. case_decide as E.
      * destruct E as [<- _]. simplify_eq. by rewrite decide_True.
      * destruct (decide (l' = l)) as [->|Hne]; [|apply findChild_spec; [done|by exists j]].
        exfalso. apply E. split; [|done].
        pose proof (search_found _ _ _ _ Hs Hi). pose proof (search_found _ _ _ _ Hs Hj).
        congruence.
    + case_decide as E.
      * intros [= ->]. subst. exists i. by rewrite list_lookup_insert_eq.
      * rewrite findChild_spec by done. intros [j Hj]. exists j.
        rewrite list_lookup_insert_ne; [done|]. intros ->. congruence.
Qed.

(** ** The rules stored at a label path *)

Fixpoint node_at (n : Node) (ls : list string) : option Node :=
  match ls with
  | [] => Some n
  | l :: ls => findChild n l ≫= λ c, node_at c ls
  end.
Definition exact_at (n : Node) (ls : list string) : option Rule := node_at n ls ≫= Exact.
Definition suffix_at (n : Node) (ls : list string) : option Rule := node_at n ls ≫= Suffix.

Lemma exact_at_cons n l ls : exact_at n (l :: ls) = findChild n l ≫= λ c, exact_at c ls.
Proof. unfold exact_at. simpl. by destruct (findChild n l). Qed.
Lemma suffix_at_cons n l ls : suffix_at n (l :: ls) = findChild n l ≫= λ c, suffix_at c ls.
Proof. unfold suffix_at. simpl. by destruct (findChild n l). Qed.
Lemma exact_at_empty ls : exact_at empty_node ls = None.
Proof. by destruct ls. Qed.
Lemma suffix_at_empty ls : suffix_at empty_node ls = None.
Proof. by destruct ls. Qed.

Lemma exact_at_default n l ls :
  exact_at (default empty_node (findChild n l)) ls = exact_at n (l :: ls).
Proof.
  rewrite exact_at_cons. destruct (findChild n l); simpl; [done|apply exact_at_empty].
Qed.
Lemma suffix_at_default n l ls :
  suffix_at (default empty_node (findChild n l)) ls = suffix_at n (l :: ls).
Proof.
  rewrite suffix_at_cons. destruct (findChild n l); simpl; [done|apply suffix_at_empty].
Qed.

(** The effect of an insertion walk: the continuation [k] runs on the slots of
    the path's node and every other path keeps its rules. *)
Section Descend.
Context {R : Type} (k : Node → Node * R).
Context (f : option Rule → option Rule → option Rule * option Rule * R).
Context (Hk : ∀ n, k n =
  (mkNode (Children n) (f (Exact n) (Suffix n)).1.1 (f (Exact n) (Suffix n)).1.2,
   (f (Exact n) (Suffix n)).2)).

Lemma descend_spec ls n :
  node_wf n →
  let f' := f (exact_at n ls) (suffix_at n ls) in
  let '(n', r) := descend ls k n in
  node_wf n' ∧ r = f'.2 ∧
  ∀ ls', exact_at n' ls' = (if decide (ls' = ls) then f'.1.1 else exact_at n ls') ∧
         suffix_at n' ls' = (if decide (ls' = ls) then f'.1.2 else suffix_at n ls').
Proof.
  revert n. induction ls as [|l ls IH]; intros n Hwf; cbn [descend].
  - rewrite Hk. split_and!; [|done|].
    + apply node_wf_inv in Hwf as []. by constructor.
    + intros [|l' ls']; [done|]. rewrite !decide_False by done.
      rewrite !exact_at_cons, !suffix_at_cons. done.
  - destruct (addChild n l) as [n1 i] eqn:Ea.
    destruct (addChild_spec n l n1 i Hwf Ea) as (Hwf1 & He & Hsf & Hi & Hoth).
    rewrite Hi. set (c := default empty_node (findChild n l)) in *.
    assert (node_wf c) as Hwfc.
    { apply node_wf_inv in Hwf1 as [_ Hall]. rewrite Forall_lookup in Hall.
      by apply (Hall i (l, c)). }
    specialize (IH c Hwfc). destruct (descend ls k c) as [c' r].
    unfold c in IH. rewrite exact_at_default, suffix_at_default in IH.
    destruct IH as (Hwfc' & Hr & Hat).
    destruct (set_child_spec n1 i l c c' Hwf1 Hi Hwfc') as (Hwf2 & He2 & Hs2 & Hfind).
    split_and!; [done|done|]. intros [|l' ls'].
    + rewrite !decide_False by done. unfold exact_at, suffix_at. cbn. split; congruence.
    + rewrite !exact_at_cons, !suffix_at_cons, Hfind. destruct (decide (l' = l)) as [->|Hne].
      * destruct (Hat ls') as [H1 H2]. cbn. rewrite H1, H2.
        rewrite exact_at_default, suffix_at_default.
        rewrite !exact_at_cons, !suffix_at_cons.
        destruct (decide (ls' = ls)) as [->|Hne']; [by rewrite !decide_True|].
        rewrite !decide_False by congruence. done.
      * rewrite !decide_False by congruence. by rewrite Hoth.
Qed.
End Descend.

(** ** The abstract trie *)

Record spec := mkSpec {
  sp_exact : gmap (list string) Rule;
  sp_suffix : gmap (list string) Rule
}.
Definition spec_empty : spec := mkSpec ∅ ∅.

Definition rule_key (r : Rule) : list string := walk_labels (Domain r).

(** First-wins insertion into the slot of the rule's scope. *)
Definition spec_add (sp : spec) (r : Rule) : spec * bool :=
  match Scope r with
  | RuleScopeExact =>
      match sp_exact sp !! rule_key r with
      | Some _ => (sp, false)
      | None => (mkSpec (<[rule_key r := r]> (sp_exact sp)) (sp_suffix sp), true)
      end
  | _ =>
      match sp_suffix sp !! rule_key r with
      | Some _ => (sp, false)
      | None => (mkSpec (sp_exact sp) (<[rule_key r := r]> (sp_suffix sp)), true)
      end
  end.

(** The rule at the longest of the first [k] prefixes of the path. *)
Fixpoint longest (m : list string → option Rule) (ls : list string) (k : nat) : option Rule :=
  match k with
  | 0 => None
  | S k => match m (take (S k) ls) with Some r => Some r | None => longest m ls k end
  end.

Definition spec_match (sp : spec) (ls : list string) : option Rule :=
  match sp_exact sp !! ls with
  | Some r => Some r
  | None => longest (λ p, sp_suffix sp !! p) ls (length ls)
  end.

Definition to_detail (query : string) (o : option Rule) : MatchDetail :=
  match o with Some r => mkMatch r query true | None => no_match end.

(** Every stored rule sits at the path of its own domain, in the slot of its
    scope. *)
Record spec_wf (sp : spec) : Prop := {
  sw_exact ls r : sp_exact sp !! ls = Some r → ls = rule_key r ∧ Scope r = RuleScopeExact;
  sw_suffix ls r : sp_suffix sp !! ls = Some r → ls = rule_key r ∧ Scope r ≠ RuleScopeExact
}.

Record trie_refines (t : Trie) (sp : spec) : Prop := {
  tr_wf : node_wf (root t);
  tr_exact ls : exact_at (root t) ls = sp_exact sp !! ls;
  tr_suffix ls : suffix_at (root t) ls = sp_suffix sp !! ls;
  tr_exact_count : exactCount t = Z.of_nat (size (sp_exact sp));
  tr_suffix_count : suffixCount t = Z.of_nat (size (sp_suffix sp))
}.

Lemma trie_refines_new : trie_refines NewTrie spec_empty.
Proof.
  split; try done; intros ls; cbn; rewrite lookup_empty;
    [apply exact_at_empty|apply suffix_at_empty].
Qed.

Lemma spec_wf_empty : spec_wf spec_empty.
Proof. split; intros ls r; cbn; by rewrite lookup_empty. Qed.

Lemma spec_add_wf sp r : spec_wf sp → spec_wf (spec_add sp r).1.
Proof.
  intros [He Hs]. unfold spec_add.
  destruct (Scope r) eqn:Esc; repeat case_match; cbn; try (by split); split; cbn;
    try (by intros; auto); intros ls' r'; rewrite lookup_insert; case_decide;
    intros; simplify_eq; auto; split; congruence.
Qed.

Section Refine.
Context `{UnicodeTables, HostServices}.

(** [store_rule] as a function of the two slots. *)
Definition slot_update (stored : Rule) (e s : option Rule) : option Rule * option Rule * bool :=
  match Scope stored with
  | RuleScopeExact => match e with Some _ => (e, s, false) | None => (Some stored, s, true) end
  | _ => match s with Some _ => (e, s, false) | None => (e, Some stored, true) end
  end.

Lemma store_rule_slots stored n :
  store_rule stored n =
  (mkNode (Children n) (slot_update stored (Exact n) (Suffix n)).1.1
     (slot_update stored (Exact n) (Suffix n)).1.2,
   (slot_update stored (Exact n) (Suffix n)).2).
Proof.
  unfold store_rule, slot_update. destruct n as [cs e s]; cbn.
  destruct (Scope stored), e, s; done.
Qed.

Lemma add_rule_refines_aux t sp rule r :
  trie_refines t sp → prepare_rule rule = Some r →
  trie_refines (AddRule t rule).1 (spec_add sp r).1 ∧
  (AddRule t rule).2 = (spec_add sp r).2.
Proof.
  intros [Hwf He Hs Hec Hsc] Hp. unfold AddRule. rewrite Hp.
  pose proof (descend_spec (store_rule r) (slot_update r) (store_rule_slots r)
                (walk_labels (Domain r)) (root t) Hwf) as Hd.
  cbv zeta in Hd. rewrite He, Hs in Hd. fold (rule_key r) in *.
  destruct (descend (rule_key r) (store_rule r) (root t)) as [n' ok].
  destruct Hd as (Hwf' & -> & Hat).
  unfold spec_add, slot_update in *.
  destruct (Scope r) eqn:Esc; [destruct (sp_exact sp !! rule_key r) eqn:Ek
    |destruct (sp_suffix sp !! rule_key r) eqn:Ek..]; cbn in *;
    (split; [|done]); split; cbn; try done;
    try (intros ls; destruct (Hat ls) as [H1 H2]; rewrite ?H1, ?H2;
         rewrite ?lookup_insert; repeat case_decide; subst; try done; congruence);
    rewrite map_size_insert_None by done; lia.
Qed.
End Refine.

(** ** Lookup *)

Lemma longest_S m ls k :
  longest m ls (S k) = match m (take (S k) ls) with Some r => Some r | None => longest m ls k end.
Proof. done. Qed.

Lemma longest_cons n l c ls k :
  findChild n l = Some c →
  longest (suffix_at n) (l :: ls) (S k) =
  match longest (suffix_at c) ls k with Some r => Some r | None => Suffix c end.
Proof.
  intros Hf. induction k as [|k IH]; rewrite longest_S, firstn_cons, suffix_at_cons, Hf;
    cbn [mbind option_bind].
  - rewrite take_0. cbn. by destruct (Suffix c).
  - rewrite IH, longest_S. by destruct (suffix_at c (take (S k) ls)).
Qed.

Lemma longest_none n l ls k :
  findChild n l = None → longest (suffix_at n) (l :: ls) k = None.
Proof.
  intros Hf. induction k as [|k IH]; [done|]. cbn [longest].
  rewrite firstn_cons, suffix_at_cons, Hf. done.
Qed.

Lemma match_walk_spec query ls n deepest :
  match_walk query ls n deepest =
  to_detail query
    match exact_at n ls with
    | Some r => Some r
    | None =>
        match longest (suffix_at n) ls (length ls) with Some r => Some r | None => deepest end
    end.
Proof.
  revert n deepest. induction ls as [|l ls IH]; intros n deepest.
  - cbn. destruct (Exact n), deepest; done.
  - cbn [match_walk length]. rewrite exact_at_cons.
    destruct (findChild n l) as [c|] eqn:Hf; cbn [mbind option_bind].
    + rewrite IH, (longest_cons n l c) by done. f_equal.
      destruct (exact_at c ls); [done|].
      destruct (longest (suffix_at c) ls (length ls)); [done|]. by destruct (Suffix c).
    + rewrite longest_none by done. by destruct deepest.
Qed.

Lemma longest_ext m1 m2 ls k : (∀ p, m1 p = m2 p) → longest m1 ls k = longest m2 ls k.
Proof. intros Hm. induction k as [|k IH]; cbn; [done|]. by rewrite Hm, IH. Qed.

Lemma longest_some m ls k r :
  longest m ls k = Some r ↔
  ∃ i, 0 < i ≤ k ∧ m (take i ls) = Some r ∧ ∀ j, i < j ≤ k → m (take j ls) = None.
Proof.
  induction k as [|k IH]; cbn.
  - split; [done|]. intros (i & ? & _). lia.
  - destruct (m (take (S k) ls)) as [r'|] eqn:E.
    + split.
      * intros [= ->]. exists (S k). split; [lia|]. split; [done|]. intros; lia.
      * intros (i & Hi & Hm & Hmax). destruct (decide (i = S k)) as [->|]; [congruence|].
        rewrite Hmax in E by lia. done.
    + rewrite IH. split; intros (i & Hi & Hm & Hmax); exists i.
      * split; [lia|]. split; [done|]. intros j Hj.
        destruct (decide (j = S k)) as [->|]; [done|]. apply Hmax. lia.
      * destruct (decide (i = S k)) as [->|]; [congruence|].
        split; [lia|]. split; [done|]. intros j Hj. apply Hmax. lia.
Qed.

Lemma longest_is_some m ls k i r :
  0 < i ≤ k → m (take i ls) = Some r → is_Some (longest m ls k).
Proof.
  intros Hi Hm. induction k as [|k IH]; [lia|]. cbn.
  destruct (m (take (S k) ls)) eqn:E; [by eexists|].
  apply IH. destruct (decide (i = S k)) as [->|]; [congruence|lia].
Qed.

Section MatchRefine.
Context `{UnicodeTables, HostServices}.

Lemma match_refines_aux t sp domain :
  trie_refines t sp →
  MatchRuleDetail t domain =
  let q := normalizeDomain domain in
  if String.eqb q "" then no_match else to_detail q (spec_match sp (walk_labels q)).
Proof.
  intros [Hwf He Hs _ _]. unfold MatchRuleDetail. cbv zeta.
  destruct (String.eqb _ _); [done|]. rewrite match_walk_spec, He. unfold spec_match.
  f_equal. destruct (sp_exact sp !! _); [done|].
  rewrite (longest_ext _ _ _ _ Hs). by destruct (longest _ _ _).
Qed.

Lemma spec_match_sound sp ls r :
  spec_wf sp → spec_match sp ls = Some r →
  match Scope r with
  | RuleScopeExact => ls = rule_key r
  | _ => rule_key r `prefix_of` ls
  end.
Proof.
  intros [He Hs]. unfold spec_match. destruct (sp_exact sp !! ls) as [r'|] eqn:E.
  - intros [= ->]. destruct (He _ _ E) as [-> ->]. done.
  - intros (i & Hi & Hm & _)%longest_some. destruct (Hs _ _ Hm) as [Hk Hsc].
    destruct (Scope r); [done|..]; rewrite <-Hk; apply prefix_take.
Qed.

Lemma spec_match_complete sp r ls :
  sp_suffix sp !! rule_key r = Some r → rule_key r ≠ [] → rule_key r `prefix_of` ls →
  is_Some (spec_match sp ls).
Proof.
  intros Hr Hne [ls' ->]. unfold spec_match.
  destruct (sp_exact sp !! _); [by eexists|].
  apply (longest_is_some _ _ _ (length (rule_key r)) r).
  - rewrite length_app. destruct (rule_key r); [done|]. simpl. lia.
  - by rewrite take_app_length.
Qed.
End MatchRefine.

(** ** Traversal order *)

Fixpoint rules_of (n : Node) : list Rule :=
  option_list (Exact n) ++ option_list (Suffix n) ++
  (fix go (cs : list (string * Node)) : list Rule :=
     match cs with [] => [] | (_, c) :: cs => rules_of c ++ go cs end)%list (Children n).

Fixpoint fold_stop {S} (fn : Rule → S → S * bool) (rs : list Rule) (st : S * bool) : S * bool :=
  if snd st then st
  else match rs with
       | [] => st
       | r :: rs => let '(s, go) := fn r (fst st) in fold_stop fn rs (s, negb go)
       end.

Lemma fold_stop_true {S} (fn : Rule → S → S * bool) rs s : fold_stop fn rs (s, true) = (s, true).
Proof. by destruct rs. Qed.

Lemma fold_stop_app {S} (fn : Rule → S → S * bool) rs1 rs2 st :
  fold_stop fn (rs1 ++ rs2)%list st = fold_stop fn rs2 (fold_stop fn rs1 st).
Proof.
  revert st. induction rs1 as [|r rs1 IH]; intros [s b]; cbn.
  - destruct b; [by rewrite fold_stop_true|done].
  - destruct b; [by rewrite fold_stop_true|]. destruct (fn r s). apply IH.
Qed.

(** [ForEach] visits the rules in the order of [rules_of], exact before suffix,
    and stops when the visitor says so. *)
Lemma foreach_node_spec {S} (fn : Rule → S → S * bool) n st :
  foreach_node fn n st = fold_stop fn (rules_of n) st.
Proof.
  revert st. induction n as [cs e s IH] using Node_tree_ind. intros [x b].
  cbn [foreach_node rules_of Exact Suffix Children].
  destruct b; [by rewrite fold_stop_true|]. cbn [snd fst].
  rewrite !fold_stop_app.
  assert (∀ (o : option Rule) (y : S) (b' : bool), (if snd (y, b') then (y, b') : S * bool
          else match o with
               | Some r => let '(s', go) := fn r (fst (y, b')) in (s', negb go)
               | None => (y, b')
               end) = fold_stop fn (option_list o) (y, b')) as Hvisit.
  { intros [r|] y [|]; cbn; try done. destruct (fn r y) as [s' []]; done. }
  pose proof (Hvisit e x false) as He. cbn [snd fst] in He. rewrite He. clear He.
  destruct (fold_stop fn (option_list e) (x, false)) as [y []]; cbn [snd].
  { by rewrite !fold_stop_true. }
  pose proof (Hvisit s y false) as Hs. cbn [snd fst] in Hs. cbn [fst]. rewrite Hs. clear Hs.
  destruct (fold_stop fn (option_list s) (y, false)) as [z []]; cbn [snd].
  { by rewrite !fold_stop_true. }
  clear Hvisit. revert z. induction cs as [|[l c] cs IHcs]; intros z; [done|].
  inversion IH as [|?? Hc Hcs]; subst. rewrite fold_stop_app. cbn in Hc. rewrite Hc.
  destruct (fold_stop fn (rules_of c) (z, false)) as [w []]; cbn [snd].
  - by rewrite fold_stop_true.
  - by apply IHcs.
Qed.

Lemma rules_of_unfold cs e s :
  rules_of (mkNode cs e s) =
  (option_list e ++ option_list s ++ concat ((λ p, rules_of p.2) <$> cs))%list.
Proof.
  cbn [rules_of Exact Suffix Children]. do 2 f_equal.
  induction cs as [|[l c] cs IH]; [done|]. rewrite fmap_cons. cbn [concat]. by rewrite IH.
Qed.

Lemma elem_of_rules_of n r :
  node_wf n → r ∈ rules_of n ↔ ∃ ls, exact_at n ls = Some r ∨ suffix_at n ls = Some r.
Proof.
  induction n as [cs e s IH] using Node_tree_ind. intros Hwf.
  pose proof (node_wf_inv _ Hwf) as [Hs Hall]. cbn in Hs, Hall.
  rewrite rules_of_unfold, !elem_of_app, !elem_of_option_list.
  rewrite elem_of_concat.
  split.
  - intros [->|[->|(rs & Hrs & Hr)]]; [exists []; by left|exists []; by right|].
    apply list_elem_of_fmap in Hrs as ([l c] & -> & Hin).
    rewrite Forall_forall in IH, Hall. cbn in *.
    assert (node_wf c) as Hwc by by apply (Hall (l, c)).
    apply (IH _ Hin Hwc) in Hr as [ls Hls].
    exists (l :: ls). rewrite exact_at_cons, suffix_at_cons.
    assert (findChild (mkNode cs e s) l = Some c) as ->; [|done].
    apply findChild_spec; [done|]. by apply list_elem_of_lookup in Hin.
  - intros [[|l ls] Hls]; [destruct Hls; auto|].
    rewrite exact_at_cons, suffix_at_cons in Hls. right; right.
    destruct (findChild (mkNode cs e s) l) as [c|] eqn:Hf; [|by destruct Hls].
    apply findChild_spec in Hf as [i Hi]; [|done]. cbn in Hi.
    exists (rules_of c). split.
    + apply list_elem_of_fmap. exists (l, c). split; [done|]. by eapply list_elem_of_lookup_2.
    + rewrite Forall_lookup in IH, Hall. apply (IH i (l, c) Hi (Hall i (l, c) Hi)). by exists ls.
Qed.

(** ** Merging *)

Section MergeSpec.
Context `{UnicodeTables, HostServices}.

(** A rule that [AddRule] stores unchanged. *)
Definition canonical (r : Rule) : Prop := prepare_rule r = Some r.

Lemma merge_fold rs t k sp :
  trie_refines t sp → Forall canonical rs →
  let '(t', k') := (fold_stop merge_visit rs ((t, k), false)).1 in
  trie_refines t' (foldl (λ s r, (spec_add s r).1) sp rs) ∧
  (k' - k = TrieCount t' - TrieCount t)%Z.
Proof.
  intros Hr Hc. revert t k sp Hr. induction Hc as [|r rs Hcr Hc IH]; intros t k sp Hr.
  { cbn. split; [done|]. lia. }
  cbn [fold_stop snd fst merge_visit].
  destruct (add_rule_refines_aux t sp r r Hr Hcr) as [Hr' Hok].
  destruct (AddRule t r) as [t1 ok] eqn:Ea. cbn in Hr', Hok.
  specialize (IH t1 (if ok then (k + 1)%Z else k) _ Hr').
  cbn [negb]. destruct (fold_stop _ _ _) as [[t' k'] b]. cbn in *.
  destruct IH as [Hr2 Hk]. split; [done|].
  assert (TrieCount t1 = TrieCount t + if ok then 1 else 0)%Z as Hcount; [|destruct ok; lia].
  destruct Hr as [_ _ _ E1 E2], Hr' as [_ _ _ E3 E4]. unfold TrieCount.
  rewrite E1, E2, E3, E4. subst ok. clear. unfold spec_add.
  destruct (Scope r); [destruct (sp_exact sp !! rule_key r) eqn:Ek
    |destruct (sp_suffix sp !! rule_key r) eqn:Ek..]; cbn;
    rewrite ?map_size_insert_None by done; lia.
Qed.

(** Folding first-wins insertions yields left-biased unions. *)
Lemma spec_add_fold_lookup rs sp :
  let sp' := foldl (λ s r, (spec_add s r).1) sp rs in
  ∀ ls,
    sp_exact sp' !! ls =
      (match sp_exact sp !! ls with
       | Some r => Some r
       | None => List.find (λ r, bool_decide (Scope r = RuleScopeExact ∧ rule_key r = ls)) rs
       end) ∧
    sp_suffix sp' !! ls =
      (match sp_suffix sp !! ls with
       | Some r => Some r
       | None => List.find (λ r, bool_decide (Scope r ≠ RuleScopeExact ∧ rule_key r = ls)) rs
       end).
Proof.
  cbv zeta. revert sp. induction rs as [|r rs IH]; intros sp ls; cbn.
  { by destruct (sp_exact sp !! ls), (sp_suffix sp !! ls). }
  destruct (IH (spec_add sp r).1 ls) as [-> ->]. clear IH.
  unfold spec_add.
  destruct (Scope r) eqn:Esc; [destruct (sp_exact sp !! rule_key r) eqn:Ek
    |destruct (sp_suffix sp !! rule_key r) eqn:Ek..]; cbn;
    rewrite ?lookup_insert; destruct (decide (rule_key r = ls)) as [<-|Hne];
    rewrite ?Ek;
    repeat (first [rewrite bool_decide_true by (split; [done|done])
                  |rewrite bool_decide_false by (intros [??]; congruence)]);
    try done; by rewrite ?bool_decide_true by (split; congruence).
Qed.
End MergeSpec.

(** ** Label paths and label suffixes *)

Lemma filter_nonempty_id ls :
  Forall (λ l, l ≠ "") ls → List.filter nonempty_label ls = ls.
Proof.
  induction 1 as [|l ls Hl Hls IH]; cbn; [done|]. unfold nonempty_label at 1.
  apply String.eqb_neq in Hl. rewrite Hl. cbn. by rewrite IH.
Qed.

Definition no_empty_label (d : string) : Prop := Forall (λ l, l ≠ "") (Split d ".").

Lemma well_formed_no_empty `{UnicodeTables} d : well_formed d → no_empty_label d.
Proof. intros Hwf. eapply Forall_impl; [apply Hwf|]. by intros l []. Qed.

Lemma walk_labels_rev d : no_empty_label d → walk_labels d = rev (Split d ".").
Proof. intros Hd. by rewrite walk_labels_split, filter_nonempty_id. Qed.

Lemma walk_labels_inj a b :
  no_empty_label a → no_empty_label b → walk_labels a = walk_labels b → a = b.
Proof.
  intros Ha Hb. rewrite !walk_labels_rev by done. intros E.
  apply (f_equal (@rev string)) in E. rewrite !rev_involutive in E.
  rewrite <-(Join_Split a "."), <-(Join_Split b "."). by rewrite E.
Qed.

Lemma label_suffix_prefix_of r d :
  no_empty_label r → no_empty_label d →
  walk_labels r `prefix_of` walk_labels d ↔ label_suffix r d.
Proof.
  intros Hr Hd. rewrite !walk_labels_rev by done. split.
  - intros [ls E]. apply (f_equal (@rev string)) in E.
    rewrite rev_app_distr, !rev_involutive in E.
    rewrite <-(Join_Split d "."), <-(Join_Split r "."), E.
    apply Join_app_suffix, Split_nonnil.
  - intros [->|[p ->]]; [done|]. rewrite Split_app, rev_app_distr. by eexists.
Qed.

(** ** Properties of built tries *)

Section Theorems.
Context `{UnicodeTables, HostServices}.

(** The trie after adding the rules in order, and its specification. *)
Definition built (rules : list Rule) : Trie := foldl (λ t r, (AddRule t r).1) NewTrie rules.
Definition spec_of (rules : list Rule) : spec :=
  foldl (λ s r, (spec_add s r).1) spec_empty (omap prepare_rule rules).

Lemma built_refines_from rules t sp :
  trie_refines t sp → spec_wf sp →
  let t' := foldl (λ t r, (AddRule t r).1) t rules in
  let sp' := foldl (λ s r, (spec_add s r).1) sp (omap prepare_rule rules) in
  trie_refines t' sp' ∧ spec_wf sp'.
Proof.
  cbv zeta. revert t sp. induction rules as [|rule rules IH]; intros t sp Hr Hw; [done|].
  cbn. destruct (prepare_rule rule) as [r|] eqn:Ep.
  - destruct (add_rule_refines_aux t sp rule r Hr Ep) as [Hr' _].
    cbn. apply IH; [done|by apply spec_add_wf].
  - unfold AddRule at 2. rewrite Ep. by apply IH.
Qed.

Lemma built_ok rules : trie_refines (built rules) (spec_of rules) ∧ spec_wf (spec_of rules).
Proof. apply built_refines_from; [apply trie_refines_new|apply spec_wf_empty]. Qed.

(** C4: adding any sequence of rules builds a sorted node tree that holds exactly the
    rules of the abstract first-wins map, and whose two counters are the numbers of
    exact and suffix rules stored. *)
Theorem built_refines rules :
  trie_refines (built rules) (spec_of rules) ∧ spec_wf (spec_of rules) ∧
  TrieCount (built rules) =
    Z.of_nat (size (sp_exact (spec_of rules)) + size (sp_suffix (spec_of rules))).
Proof.
  destruct (built_ok rules) as [Hr Hw]. split; [done|]. split; [done|].
  unfold TrieCount. destruct Hr as [_ _ _ -> ->]. lia.
Qed.

(** A lookup walks the tree exactly as the specification prescribes: the rule of
    the queried name's own exact slot, else the suffix rule of the longest label
    prefix that has one, else nothing. *)
Theorem match_refines rules domain :
  MatchRuleDetail (built rules) domain =
  let q := normalizeDomain domain in
  if String.eqb q "" then no_match
  else to_detail q (spec_match (spec_of rules) (walk_labels q)).
Proof. apply match_refines_aux, built_ok. Qed.

(** No over-blocking: whenever a lookup reports a rule, the rule's own domain is
    the queried name (exact scope) or a label suffix of it (suffix scope). *)
Theorem match_sound rules domain r :
  let q := normalizeDomain domain in
  no_empty_label q → no_empty_label (Domain r) →
  MatchRule (built rules) domain = (r, true) →
  match Scope r with
  | RuleScopeExact => q = Domain r
  | _ => label_suffix (Domain r) q
  end.
Proof.
  cbv zeta. intros Hq Hd. unfold MatchRule. rewrite match_refines. cbv zeta.
  destruct (String.eqb _ _); [done|].
  destruct (spec_match _ _) as [r'|] eqn:E; [|done]. cbn. intros [= ->].
  apply spec_match_sound in E; [|apply built_ok]. unfold rule_key in E.
  destruct (Scope r); [by apply walk_labels_inj|by apply label_suffix_prefix_of..].
Qed.

Lemma spec_add_keeps sp r r' :
  (is_Some (sp_suffix sp !! rule_key r) → is_Some (sp_suffix (spec_add sp r').1 !! rule_key r)) ∧
  (is_Some (sp_exact sp !! rule_key r) → is_Some (sp_exact (spec_add sp r').1 !! rule_key r)).
Proof.
  unfold spec_add. split; intros Hs; repeat case_match; cbn; try done;
    rewrite lookup_insert; case_decide; done.
Qed.

Lemma spec_fold_keeps rs sp r :
  let sp' := foldl (λ s r, (spec_add s r).1) sp rs in
  (is_Some (sp_suffix sp !! rule_key r) → is_Some (sp_suffix sp' !! rule_key r)) ∧
  (is_Some (sp_exact sp !! rule_key r) → is_Some (sp_exact sp' !! rule_key r)).
Proof.
  cbv zeta. revert sp. induction rs as [|r' rs IH]; intros sp; [done|]. cbn.
  destruct (spec_add_keeps sp r r') as [H1 H2], (IH (spec_add sp r').1) as [H3 H4]. auto.
Qed.

Lemma spec_of_slot rules1 rule rules2 r :
  prepare_rule rule = Some r →
  match Scope r with
  | RuleScopeExact => is_Some (sp_exact (spec_of (rules1 ++ rule :: rules2)%list) !! rule_key r)
  | _ => is_Some (sp_suffix (spec_of (rules1 ++ rule :: rules2)%list) !! rule_key r)
  end.
Proof.
  intros Hp. unfold spec_of. rewrite omap_app. cbn. rewrite Hp, foldl_app. cbn.
  set (sp := foldl _ spec_empty _).
  destruct (spec_fold_keeps (omap prepare_rule rules2) (spec_add sp r).1 r) as [Hs He].
  destruct (Scope r) eqn:Esc; [apply He|apply Hs..]; unfold spec_add; rewrite Esc;
    case_match; cbn; try (by eexists); by rewrite lookup_insert_eq.
Qed.

(** No under-blocking: once a suffix rule has been accepted, in any position of the
    source order and even when its slot was already taken, every name equal to or
    below the rule's domain matches. *)
Theorem suffix_rule_covers rules1 rule rules2 r domain :
  prepare_rule rule = Some r → Scope r = RuleScopeSuffix →
  no_empty_label (Domain r) → no_empty_label (normalizeDomain domain) →
  normalizeDomain domain ≠ "" →
  label_suffix (Domain r) (normalizeDomain domain) →
  Match (built (rules1 ++ rule :: rules2)%list) domain = true.
Proof.
  intros Hp Hsc Hd Hq Hne Hsuf. unfold Match, MatchRule. rewrite match_refines. cbv zeta.
  apply String.eqb_neq in Hne. rewrite Hne.
  pose proof (spec_of_slot rules1 rule rules2 r Hp) as Hslot. rewrite Hsc in Hslot.
  destruct Hslot as [r' Hr'].
  assert (rule_key r' = rule_key r) as Hkey.
  { destruct (built_ok (rules1 ++ rule :: rules2)%list) as [_ [_ Hs]].
    by destruct (Hs _ _ Hr') as [-> _]. }
  destruct (spec_match_complete (spec_of (rules1 ++ rule :: rules2)%list) r'
    (walk_labels (normalizeDomain domain))) as [r0 ->]; try done.
  - by rewrite Hkey.
  - rewrite Hkey. unfold rule_key. rewrite walk_labels_rev by done. intros E.
    apply (f_equal length) in E. rewrite length_rev, Split_length in E. done.
  - rewrite Hkey. by apply label_suffix_prefix_of.
Qed.

Lemma find_stored src sps ls :
  trie_refines src sps → spec_wf sps →
  List.find (λ r, bool_decide (Scope r = RuleScopeExact ∧ rule_key r = ls))
    (rules_of (root src)) = sp_exact sps !! ls ∧
  List.find (λ r, bool_decide (Scope r ≠ RuleScopeExact ∧ rule_key r = ls))
    (rules_of (root src)) = sp_suffix sps !! ls.
Proof.
  intros [Hwf He Hs _ _] [We Ws].
  assert (∀ r, r ∈ rules_of (root src) ↔
    ∃ ls, sp_exact sps !! ls = Some r ∨ sp_suffix sps !! ls = Some r) as Hin.
  { intros r. rewrite elem_of_rules_of by done. setoid_rewrite He. by setoid_rewrite Hs. }
  split; match goal with |- List.find ?p ?l = _ => destruct (List.find p l) as [r|] eqn:E end.
  - apply find_some in E as [Hr E]. apply bool_decide_eq_true in E as [Hsc Hk].
    apply list_elem_of_In, Hin in Hr as [ls' [Hr|Hr]].
    + destruct (We _ _ Hr) as [-> _]. by rewrite <-Hk.
    + by destruct (Ws _ _ Hr) as [_ ?].
  - destruct (sp_exact sps !! ls) as [r|] eqn:Er; [|done]. destruct (We _ _ Er) as [-> Hsc].
    apply find_none with (x := r) in E; [by rewrite bool_decide_true in E|].
    apply list_elem_of_In, Hin. eauto.
  - apply find_some in E as [Hr E]. apply bool_decide_eq_true in E as [Hsc Hk].
    apply list_elem_of_In, Hin in Hr as [ls' [Hr|Hr]].
    + by destruct (We _ _ Hr) as [_ ?].
    + destruct (Ws _ _ Hr) as [-> _]. by rewrite <-Hk.
  - destruct (sp_suffix sps !! ls) as [r|] eqn:Er; [|done]. destruct (Ws _ _ Er) as [-> Hsc].
    apply find_none with (x := r) in E; [by rewrite bool_decide_true in E|].
    apply list_elem_of_In, Hin. eauto.
Qed.

(** Merging a staging trie keeps every slot that is already taken and fills the
    others from the staging trie (left-biased union per path and scope), and the
    returned number is the number of rules added. *)
Theorem merge_first_wins t src sp sps :
  trie_refines t sp → trie_refines src sps → spec_wf sps →
  Forall canonical (rules_of (root src)) →
  let '(t', merged) := MergeFrom t src in
  trie_refines t' (mkSpec (sp_exact sp ∪ sp_exact sps) (sp_suffix sp ∪ sp_suffix sps)) ∧
  merged = (TrieCount t' - TrieCount t)%Z.
Proof.
  intros Ht Hsrc Hw Hc. unfold MergeFrom, ForEach. rewrite foreach_node_spec.
  pose proof (merge_fold (rules_of (root src)) t 0 sp Ht Hc) as Hm.
  destruct (fold_stop _ _ _) as [[t' k] b]. cbn in *. destruct Hm as [Hm Hk].
  split; [|lia].
  pose proof (spec_add_fold_lookup (rules_of (root src)) sp) as Hf. cbv zeta in Hf.
  set (sp' := foldl _ sp _) in *.
  assert (sp' = mkSpec (sp_exact sp ∪ sp_exact sps) (sp_suffix sp ∪ sp_suffix sps)) as <-; [|done].
  destruct sp' as [e s]. cbn in Hf. f_equal; apply map_eq; intros ls;
    destruct (Hf ls) as [H1 H2], (find_stored src sps ls Hsrc Hw) as [H3 H4];
    rewrite ?H1, ?H2, ?H3, ?H4, lookup_union.
  - destruct (sp_exact sp !! ls), (sp_exact sps !! ls); done.
  - destruct (sp_suffix sp !! ls), (sp_suffix sps !! ls); done.
Qed.
End Theorems.

(** ** The v2 cache format *)

Definition newline_byte : ascii := ascii_of_N 10.

(** An in-memory writer: every write succeeds completely. *)
Definition buf_writer : writer string :=
  λ line s, (s ++ line, (Z.of_nat (slen line), None)).

Fixpoint sconcat (ls : list string) : string :=
  match ls with [] => "" | l :: ls => l ++ sconcat ls end.

Lemma sconcat_app l1 l2 : sconcat (l1 ++ l2)%list = sconcat l1 ++ sconcat l2.
Proof. induction l1 as [|s l1 IH]; cbn; [done|]. by rewrite IH, sapp_assoc. Qed.

Lemma write_v2_buf n s k :
  write_v2_node buf_writer n (mkW s k None) =
  mkW (s ++ sconcat (format_rule <$> rules_of n))
    (k + Z.of_nat (slen (sconcat (format_rule <$> rules_of n)))) None.
Proof.
  revert s k. induction n as [cs e x IH] using Node_tree_ind. intros s k.
  rewrite rules_of_unfold, !fmap_app, !sconcat_app, !slen_app.
  cbn [write_v2_node werr Exact Suffix Children].
  assert (∀ o s k, match o with Some r => writeRule buf_writer r (mkW s k None)
                   | None => mkW s k None end =
          mkW (s ++ sconcat (format_rule <$> option_list o))
            (k + Z.of_nat (slen (sconcat (format_rule <$> option_list o)))) None) as Hw.
  { intros [r|] s' k'; cbn; [by rewrite sapp_nil_r|].
    rewrite sapp_nil_r. f_equal. lia. }
  rewrite !Hw. cbn [werr]. clear Hw.
  rewrite <-!sapp_assoc.
  set (a := sconcat (format_rule <$> option_list e)).
  set (b := sconcat (format_rule <$> option_list x)).
  replace (mkW ((s ++ a) ++ b) (k + Z.of_nat (slen a) + Z.of_nat (slen b)) None)
    with (mkW ((s ++ a) ++ b) (k + Z.of_nat (slen a + slen b)) (@None string))
    by (f_equal; lia).
  replace (k + Z.of_nat (slen a + (slen b + _)))%Z with
    (k + Z.of_nat (slen a + slen b) +
     Z.of_nat (slen (sconcat (format_rule <$> concat ((λ p, rules_of p.2) <$> cs)))))%Z by lia.
  generalize ((s ++ a) ++ b) as s0.
  generalize (k + Z.of_nat (slen a + slen b))%Z as k0. clear -IH.
  induction cs as [|[l c] cs IHcs] in IH |- *; intros k0 s0.
  - cbn. rewrite sapp_nil_r. f_equal. lia.
  - inversion IH as [|?? Hc Hcs]; subst. rewrite fmap_cons. cbn [concat snd].
    cbn in Hc. rewrite Hc, IHcs by done. rewrite fmap_app, sconcat_app, slen_app, sapp_assoc.
    f_equal. lia.
Qed.

Definition field_ok (s : string) : Prop :=
  s ≠ "" ∧ contains_byte tab_byte s = false ∧ contains_byte newline_byte s = false.

(** What a stored rule needs to survive the tab-separated format. *)
Definition storable (r : Rule) : Prop :=
  field_ok (Domain r) ∧ field_ok (SourceID r) ∧ IsValidRuleCategory (Category r) = true ∧
  Action r = RuleActionBlock ∧ (Scope r = RuleScopeExact ∨ Scope r = RuleScopeSuffix).

Definition reloaded (r : Rule) : Rule :=
  mkRule (Domain r) (Scope r) (SourceID r) (Category r) (Action r) OriginCacheV2Unknown.

Definition rule_fields (r : Rule) : list string :=
  [Domain r; scope_string (Scope r); Category r; Action r; SourceID r].
Definition rule_line (r : Rule) : string := Join (rule_fields r) tab_byte.

Lemma format_rule_line r : format_rule r = rule_line r ++ newline.
Proof.
  unfold format_rule, rule_line, rule_fields. cbn [Join]. unfold tab. fold tab_byte.
  rewrite !sapp_assoc. cbn [String.append]. rewrite !sapp_assoc. cbn [String.append].
  rewrite !sapp_assoc. cbn [String.append]. by rewrite !sapp_assoc.
Qed.

Lemma category_field_ok c : IsValidRuleCategory c = true → field_ok c.
Proof.
  unfold IsValidRuleCategory. rewrite in_list_spec. unfold validRuleCategories.
  rewrite !elem_of_cons, elem_of_nil. intros Hc. destruct_or!; subst; try done.
Qed.

Lemma storable_fields r :
  storable r → Forall field_ok (rule_fields r).
Proof.
  intros (Hd & Hs & Hc & Ha & Hsc). unfold rule_fields. rewrite Ha.
  repeat constructor; try done; try apply Hd; try apply Hs;
    try apply (category_field_ok _ Hc); destruct Hsc as [->| ->]; done.
Qed.

Lemma parse_rule_line r : storable r → ParseCacheV2Line (rule_line r) = Some (reloaded r).
Proof.
  intros Hst. pose proof (storable_fields r Hst) as Hf.
  unfold ParseCacheV2Line, rule_line. rewrite Split_Join; [|done|].
  2: { eapply Forall_impl; [exact Hf|]. by intros x (_ & ? & _). }
  destruct Hst as ((Hd & _) & (Hs & _) & Hc & Ha & Hsc). unfold rule_fields.
  apply String.eqb_neq in Hd, Hs. rewrite Hd, Hs, Ha. cbn [orb Scope].
  unfold reloaded. rewrite Ha, Hc.
  assert (scope_of_string (scope_string (Scope r)) = Scope r) as ->
    by by destruct Hsc as [-> | ->].
  by destruct Hsc as [-> | ->].
Qed.

Lemma rule_line_no_newline r :
  storable r → contains_byte newline_byte (rule_line r) = false.
Proof.
  intros Hst. pose proof (storable_fields r Hst) as Hf. unfold rule_line.
  revert Hf. generalize (rule_fields r). intros l.
  induction 1 as [|w ws (_ & _ & Hw) Hws IH]; [done|].
  destruct ws as [|w' ws]; [done|]. rewrite Join_cons by done.
  rewrite contains_byte_app, contains_byte_cons, Hw, IH. done.
Qed.

(** The lines of the file. *)
Lemma write_v2_lines t :
  Forall storable (rules_of (root t)) →
  Split (wr (WriteToV2 buf_writer t "")) newline_byte
  = (CacheV2Header :: (rule_line <$> rules_of (root t)) ++ [""])%list.
Proof.
  intros Hall. unfold WriteToV2. cbn [emit buf_writer wr total werr]. cbn [String.append].
  rewrite write_v2_buf. cbn [werr total wr]. unfold newline. rewrite sapp_assoc. cbn [String.append].
  fold newline_byte. rewrite Split_app, Split_no_sep by done. cbn [app]. f_equal.
  induction Hall as [|r rs Hr Hrs IH]; [done|]. rewrite !fmap_cons. cbn [sconcat].
  rewrite format_rule_line, sapp_assoc. unfold newline. cbn [String.append].
  fold newline_byte. rewrite Split_app, Split_no_sep by by apply rule_line_no_newline.
  by rewrite IH.
Qed.

(** The v2 cache file is a lossless encoding of the typed rules: [WriteToV2] on a
    buffer succeeds and counts its bytes, the file splits into the header and one
    line per stored rule in traversal order, and every line parses back to its rule,
    with only the observation-only origin replaced. *)
Theorem cache_v2_roundtrip t :
  Forall storable (rules_of (root t)) →
  let st := WriteToV2 buf_writer t "" in
  werr st = None ∧ total st = Z.of_nat (slen (wr st)) ∧
  ∃ lines, Split (wr st) newline_byte = (CacheV2Header :: lines ++ [""])%list ∧
           ParseCacheV2Line <$> lines = (Some ∘ reloaded) <$> rules_of (root t).
Proof.
  intros Hall. cbv zeta. pose proof (write_v2_lines t Hall) as Hlines. revert Hlines.
  unfold WriteToV2. cbn [emit buf_writer wr total werr]. cbn [String.append]. rewrite write_v2_buf.
  cbn [werr total wr]. intros Hlines.
  split; [done|]. split; [rewrite !slen_app; unfold CacheV2Header; cbn; lia|].
  exists (rule_line <$> rules_of (root t)). split; [done|].
  rewrite <-list_fmap_compose. apply list_fmap_ext. intros i r Hi. cbn.
  apply parse_rule_line. rewrite Forall_lookup in Hall. by eapply Hall.
Qed.

(** Sufficient conditions for a rule to be stored unchanged. *)
Lemma canonical_intro `{UnicodeTables, HostServices} r :
  sforall host_byte (Domain r) = true → NormalizeDomain (Domain r) = Ok (Domain r) →
  is_lower (Domain r) = true →
  is_Some (etld_plus_one (Domain r)) →
  (idna_to_ascii (Domain r) = None ∨ idna_to_ascii (Domain r) = Some (Domain r)) →
  IsValidRuleCategory (Category r) = true → Action r = RuleActionBlock →
  (Scope r = RuleScopeExact ∨ Scope r = RuleScopeSuffix) →
  canonical r.
Proof.
  intros Hb Hn Hl He Hi Hc Ha Hs. pose proof (normalize_wf_aux _ _ Hn) as Hwf.
  assert (Hasc : is_ascii (Domain r) = true)
    by (eapply sforall_impl; [apply host_byte_ascii|done]).
  unfold canonical, prepare_rule. cbv zeta.
  rewrite TrimSpace_id; [|done|eapply sforall_impl; [apply host_byte_not_space|done]].
  assert (Hstar : contains_byte "*" (Domain r) = false) by (by apply sforall_no_byte with host_byte).
  pose proof (wf_nonempty _ Hwf) as Hne. apply String.eqb_neq in Hne. rewrite Hne.
  assert (HasPrefix (Domain r) "*." = false) as Hpre.
  { destruct (HasPrefix (Domain r) "*.") eqn:E; [|done]. apply HasPrefix_spec in E as [x Hx].
    rewrite Hx in Hstar. done. }
  rewrite Hpre.
  assert (normalizeDomain (Domain r) = Domain r) as ->.
  { unfold normalizeDomain. rewrite TrimSpace_id;
      [|done|eapply sforall_impl; [apply host_byte_not_space|done]].
    rewrite ToLower_ascii, is_lower_fixed, Hne by done. by destruct Hi as [-> | ->]. }
  assert (sanitizeDomain (Domain r) = Domain r) as ->.
  { unfold sanitizeDomain. destruct (slen (Domain r)) eqn:El; cbn [strip_wildcards];
      rewrite ?Hpre, Contains_byte, Hstar; done. }
  rewrite Hne.
  assert (Hlast : ∀ s, Forall label_ok (Split s ".") → TrimRightByte s "." = s).
  { intros s Hls. unfold TrimRightByte, trim_right.
    rewrite <-(srev_involutive s) at 2. f_equal.
    destruct (srev s) as [|c s'] eqn:E; [done|]. cbn [trim_left].
    destruct (Ascii.eqb_spec "." c) as [<-|]; [|done].
    apply (f_equal srev) in E. rewrite srev_involutive, srev_cons in E. subst s.
    rewrite Split_app in Hls. apply Forall_app in Hls as [_ Hls].
    inversion Hls as [|?? [Hbad _]]. done. }
  rewrite Hlast by apply Hwf.
  assert (Contains (Domain r) ".." = false) as Hdd.
  { destruct (Contains (Domain r) "..") eqn:E; [|done]. exfalso.
    assert (∀ s, Contains s ".." = true → ∃ a b, s = a ++ String "." (String "." b)) as Hsplit.
    { clear. induction s as [|c s IH]; [done|]. cbn [Contains]. rewrite orb_true_iff.
      intros [Hp|Hs]; [apply HasPrefix_spec in Hp as [b ->]; by exists "", b|].
      destruct (IH Hs) as (a & b & ->). by exists (String c a), b. }
    apply Hsplit in E as (a & b & E). pose proof (wf_labels _ Hwf) as Hls.
    rewrite E, Split_app in Hls. apply Forall_app in Hls as [_ Hls]. cbn in Hls.
    inversion Hls as [|?? [Hbad _]]. done. }
  assert (collapse_dots (slen (Domain r)) (Domain r) = Domain r) as ->
    by (destruct (slen (Domain r)); cbn; rewrite ?Hdd; done).
  unfold IsRegistrableDomain. rewrite Hn, Hne, bool_decide_true by done. cbn [negb].
  assert (∀ s, IsValidRuleCategory s = true → ToLower (TrimSpace s) = s) as Hcat.
  { intros s. unfold IsValidRuleCategory. rewrite in_list_spec. unfold validRuleCategories.
    rewrite !elem_of_cons, elem_of_nil. intros. destruct_or!; subst; done. }
  rewrite (Hcat (Category r) Hc), Hc, Ha. destruct r as [d sc src cat act org]; cbn in *. subst act.
  by destruct Hs as [-> | ->].
Qed.

(** ** Witnesses *)

#[local] Existing Instance ascii_tables.
#[local] Existing Instance two_label_services.

Definition rule_a : Rule :=
  mkRule "ads.example.com" RuleScopeExact "src1" "ads" "block" OriginGlobalDefault.
Definition rule_b : Rule :=
  mkRule "Tracker.example.net." RuleScopeSuffix "src2" "tracking" "" OriginGlobalDefault.
Definition rule_b' : Rule :=
  mkRule "tracker.example.net" RuleScopeSuffix "src2" "tracking" "block" OriginGlobalDefault.
Definition rule_c : Rule :=
  mkRule "*.example.com" RuleScopeExact "src3" "ads" "block" OriginGlobalDefault.

(** Evaluate the list under a [Forall] and treat its elements one by one. *)
Ltac eval_list_then tac :=
  match goal with
  | |- Forall ?P ?l =>
      let l' := eval vm_compute in l in
      change (Forall P l'); repeat (apply List.Forall_cons; [tac|]); apply List.Forall_nil
  end.

Lemma match_sound_witness :
  MatchRule (built [rule_a; rule_c]) "x.ads.example.com" =
    (mkRule "example.com" RuleScopeSuffix "src3" "ads" "block" OriginWildcard, true) ∧
  label_suffix "example.com" "x.ads.example.com".
Proof.
  split; [by vm_compute|].
  refine (match_sound [rule_a; rule_c] "x.ads.example.com"
    (mkRule "example.com" RuleScopeSuffix "src3" "ads" "block" OriginWildcard) _ _ _).
  - vm_compute. repeat constructor; done.
  - vm_compute. repeat constructor; done.
  - by vm_compute.
Defined.

Lemma suffix_rule_covers_witness :
  Match (built ([rule_a] ++ rule_b :: [rule_c])%list) "cdn.tracker.EXAMPLE.net" = true.
Proof.
  apply (suffix_rule_covers [rule_a] rule_b [rule_c] rule_b').
  - by vm_compute.
  - done.
  - vm_compute. repeat constructor; done.
  - vm_compute. repeat constructor; done.
  - by vm_compute.
  - vm_compute. right. by exists "cdn".
Defined.

Lemma merge_first_wins_witness :
  let '(t', merged) := MergeFrom (built [rule_a]) (built [rule_b; rule_c]) in
  trie_refines t'
    (mkSpec (sp_exact (spec_of [rule_a]) ∪ sp_exact (spec_of [rule_b; rule_c]))
       (sp_suffix (spec_of [rule_a]) ∪ sp_suffix (spec_of [rule_b; rule_c]))) ∧
  merged = (TrieCount t' - TrieCount (built [rule_a]))%Z.
Proof.
  apply (merge_first_wins (built [rule_a]) (built [rule_b; rule_c])).
  - apply built_ok.
  - apply built_ok.
  - apply built_ok.
  - eval_list_then ltac:(by vm_compute).
Defined.

Lemma cache_v2_roundtrip_witness :
  let st := WriteToV2 buf_writer (built [rule_a; rule_b; rule_c]) "" in
  werr st = None ∧ total st = Z.of_nat (slen (wr st)) ∧
  ∃ lines, Split (wr st) newline_byte = (CacheV2Header :: lines ++ [""])%list ∧
    ParseCacheV2Line <$> lines =
    (Some ∘ reloaded) <$> rules_of (root (built [rule_a; rule_b; rule_c])).
Proof.
  apply cache_v2_roundtrip.
  eval_list_then ltac:(repeat split; try done; try (by left); try (by right)).
Defined.

(** ** Finding: a wildcard entry with a non-ASCII name never matches

    [AddRule] converts the raw entry, wildcard included, with [idna.Lookup];
    the profile rejects ['*'], so [normalizeDomain] keeps the Unicode spelling
    and the rule is stored under labels no lookup ever produces: a lookup
    converts the queried name to punycode. *)

Definition idn_services : HostServices := {|
  url_hostname _ := None;
  etld_plus_one := two_label_etld;
  idna_to_ascii s :=
    if contains_byte "*" s then None
    else if String.eqb s "bücher.de" then Some "xn--bcher-kva.de" else Some s |}.

Lemma wildcard_idn_rule_never_matches :
  let wild := mkRule "*.bücher.de" RuleScopeSuffix "src" "ads" "block" OriginGlobalDefault in
  let plain := mkRule "bücher.de" RuleScopeSuffix "src" "ads" "block" OriginGlobalDefault in
  let add r := @AddRule ascii_tables idn_services NewTrie r in
  let hit t d := @Match ascii_tables idn_services t d in
  (add wild).2 = true ∧ hit (add wild).1 "bücher.de" = false ∧
  hit (add wild).1 "xn--bcher-kva.de" = false ∧
  (add plain).2 = true ∧ hit (add plain).1 "bücher.de" = true.
Proof. by vm_compute. Qed.
