(* ===== verification/NetIP.v ===== *)
(** * IP addresses

    The parts of Go's [net] package that the code calls: [ParseIP], [To4],
    [To16], [IP.String], [ParseCIDR], [IPNet.Contains] and [SplitHostPort].
    An [IP] is its byte slice: 4 or 16 bytes. *)

From Stdlib Require Import ZArith Lia Ascii String.
From S2P Require Import Prelude GoStr.

Abbreviation IP := (list Z).

Definition v4InV6Prefix : list Z := [0;0;0;0;0;0;0;0;0;0;255;255]%Z.
Definition IPv4zero : IP := (v4InV6Prefix ++ [0;0;0;0]%Z)%list.
Definition IPv6zero : IP := replicate 16 0%Z.

(** ** Representations *)

Definition To4 (ip : IP) : option IP :=
  if Nat.eqb (length ip) 4 then Some ip
  else if Nat.eqb (length ip) 16 && bool_decide (take 12 ip = v4InV6Prefix)
       then Some (drop 12 ip) else None.

Definition To16 (ip : IP) : option IP :=
  if Nat.eqb (length ip) 4 then Some (v4InV6Prefix ++ ip)%list
  else if Nat.eqb (length ip) 16 then Some ip else None.

(** ** Parsing *)

Definition digit_val (c : ascii) : option Z :=
  if ascii_digit c then Some (byte_z c - 48)%Z else None.
Definition hex_val (c : ascii) : option Z :=
  let z := byte_z c in
  if ((48 <=? z) && (z <=? 57))%Z then Some (z - 48)%Z
  else if ((97 <=? z) && (z <=? 102))%Z then Some (z - 87)%Z
  else if ((65 <=? z) && (z <=? 70))%Z then Some (z - 55)%Z else None.

Fixpoint dec_val (s : string) (acc : Z) : option Z :=
  match s with
  | EmptyString => Some acc
  | String c r => match digit_val c with Some d => dec_val r (acc * 10 + d) | None => None end
  end%Z.

(** One dotted field: digits only, no leading zero, at most 255. *)
Definition parse_octet (s : string) : option Z :=
  match s with
  | EmptyString => None
  | String c r =>
      if Ascii.eqb c "0" && negb (String.eqb r "") then None
      else match dec_val s 0 with
           | Some v => if (v <=? 255)%Z then Some v else None
           | None => None
           end
  end.

Definition parse_v4 (s : string) : option (list Z) :=
  match Split s "." with
  | [a; b; c; d] =>
      let? x := parse_octet a in let? y := parse_octet b in
      let? z := parse_octet c in let? w := parse_octet d in Some [x; y; z; w]
  | _ => None
  end.

(** A hexadecimal group: its value, its length and the rest of the input. *)
Fixpoint hex_group (s : string) (acc : Z) (off : nat) : Z * nat * string :=
  match s with
  | EmptyString => (acc, off, s)
  | String c r =>
      match hex_val c with
      | Some v => hex_group r (acc * 16 + v) (S off)
      | None => (acc, off, s)
      end
  end%Z.

(** The group loop of the IPv6 parser: [bs] are the bytes so far, [ell] the
    position of the ellipsis.  Returns the bytes and the ellipsis; each turn
    adds two bytes, so nine turns are enough. *)
Fixpoint v6_loop (fuel : nat) (s : string) (bs : list Z) (ell : option nat)
    : option (list Z * option nat) :=
  match fuel with
  | 0 => None
  | S fuel =>
      if Nat.leb 16 (length bs) then (if String.eqb s "" then Some (bs, ell) else None)
      else
        let '(acc, off, rest) := hex_group s 0 0 in
        if Nat.eqb off 0 || Nat.ltb 4 off then None
        else
          match rest with
          | String "." _ =>
              if (match ell with None => true | _ => false end) && negb (Nat.eqb (length bs) 12)
              then None
              else if Nat.ltb 12 (length bs) then None
              else match parse_v4 s with Some q => Some (bs ++ q, ell)%list | None => None end
          | EmptyString => Some ((bs ++ [Z.shiftr acc 8; Z.land acc 255])%list, ell)
          | String ":" r =>
              let bs := (bs ++ [Z.shiftr acc 8; Z.land acc 255])%list in
              match r with
              | EmptyString => None
              | String ":" r' =>
                  match ell with
                  | Some _ => None
                  | None =>
                      if String.eqb r' "" then Some (bs, Some (length bs))
                      else v6_loop fuel r' bs (Some (length bs))
                  end
              | _ => v6_loop fuel r bs ell
              end
          | _ => None
          end
  end.

Definition v6_expand (bs : list Z) (ell : option nat) : option IP :=
  if Nat.ltb (length bs) 16 then
    match ell with
    | Some e => Some (take e bs ++ replicate (16 - length bs) 0%Z ++ drop e bs)%list
    | None => None
    end
  else match ell with Some _ => None | None => Some bs end.

(** Addresses with a zone are rejected by [net.ParseIP]. *)
Definition parse_v6 (s : string) : option IP :=
  if contains_byte "%" s then None
  else if HasPrefix s "::" then
    let s := TrimPrefix s "::" in
    if String.eqb s "" then Some IPv6zero
    else let? r := v6_loop 9 s [] (Some 0) in v6_expand r.1 r.2
  else let? r := v6_loop 9 s [] None in v6_expand r.1 r.2.

(** The first ['.'], [':'] or ['%'] decides the family. *)
Fixpoint addr_family (s : string) : option ascii :=
  match s with
  | EmptyString => None
  | String c r =>
      if Ascii.eqb c "." || Ascii.eqb c ":" || Ascii.eqb c "%" then Some c else addr_family r
  end.

(** The parsed bytes: 4 for a dotted address, 16 for a colon address. *)
Definition ParseAddr (s : string) : option IP :=
  match addr_family s with
  | Some "."%char => parse_v4 s
  | Some ":"%char => parse_v6 s
  | _ => None
  end.

Definition ParseIP (s : string) : option IP := let? a := ParseAddr s in To16 a.

(** ** Printing *)

Definition digit_char (z : Z) : ascii := ascii_of_N (Z.to_N (48 + z)).
Definition hex_char (z : Z) : ascii :=
  if (z <? 10)%Z then digit_char z else ascii_of_N (Z.to_N (87 + z)).

(** Digits in base [b] without leading zeros; [fuel] digits are enough. *)
Fixpoint digits (fuel : nat) (b z : Z) (acc : string) : string :=
  match fuel with
  | 0 => acc
  | S fuel =>
      let acc := String (hex_char (z mod b)%Z) acc in
      if (z <? b)%Z then acc else digits fuel b (z / b)%Z acc
  end.
Definition dec_string (z : Z) : string := digits 20 10 z "".
Definition hex_string (z : Z) : string := digits 8 16 z "".

Definition v4_string (ip : IP) : string := Join (dec_string <$> ip) ".".

Fixpoint groups_of (ip : IP) : list Z :=
  match ip with a :: b :: r => (a * 256 + b)%Z :: groups_of r | _ => [] end.

Fixpoint zero_run (gs : list Z) : nat :=
  match gs with g :: gs => if (g =? 0)%Z then S (zero_run gs) else 0 | [] => 0 end.

(** The longest run of two or more zero groups, leftmost first: [(start, len)]. *)
Fixpoint best_run (i : nat) (gs : list Z) (best : nat * nat) : nat * nat :=
  match gs with
  | [] => best
  | _ :: gs' =>
      let l := zero_run gs in
      best_run (S i) gs' (if Nat.leb 2 l && Nat.ltb best.2 l then (i, l) else best)
  end.

Definition v6_string (ip : IP) : string :=
  let gs := groups_of ip in
  let '(st, l) := best_run 0 gs (0, 0) in
  if Nat.eqb l 0 then Join (hex_string <$> gs) ":"
  else Join (hex_string <$> take st gs) ":" ++ "::" ++
       Join (hex_string <$> drop (st + l) gs) ":".

Definition IPString (ip : IP) : string :=
  match To4 ip with Some q => v4_string q | None => v6_string ip end.

(** ** Networks *)

Record IPNet := mkNet { NetAddr : IP; NetMask : list Z }.

(** [CIDRMask(ones, bits)] *)
Fixpoint mask_bytes (n : nat) (ones : Z) : list Z :=
  match n with
  | 0 => []
  | S n =>
      if (8 <=? ones)%Z then 255%Z :: mask_bytes n (ones - 8)
      else (255 - (2 ^ (8 - Z.max 0 ones) - 1))%Z :: mask_bytes n 0
  end.

Definition and_bytes (a b : list Z) : list Z := zip_with Z.land a b.

(** [dtoi]: a non-empty run of digits below 0xFFFFFF *)
Definition dtoi (s : string) : option Z :=
  if String.eqb s "" then None
  else let? v := dec_val s 0 in if (v <? 16777215)%Z then Some v else None.

Definition cut_slash (s : string) : option (string * string) :=
  match IndexByte s "/" with
  | Some i => Some (String.substring 0 i s, String.substring (S i) (slen s - S i) s)
  | None => None
  end.

(** The address in 16-byte form and the masked network. *)
Definition ParseCIDR (s : string) : option (IP * IPNet) :=
  let? am := cut_slash s in
  let? a := ParseAddr am.1 in
  let? n := dtoi am.2 in
  let bits := (8 * Z.of_nat (length a))%Z in
  if (bits <? n)%Z then None
  else
    let m := mask_bytes (length a) n in
    match To16 a with
    | Some a16 => Some (a16, mkNet (and_bytes a m) m)
    | None => None
    end.

Definition networkNumberAndMask (n : IPNet) : option (IP * list Z) :=
  match To4 (NetAddr n) with
  | Some ip =>
      if Nat.eqb (length (NetMask n)) 4 then Some (ip, NetMask n)
      else if Nat.eqb (length (NetMask n)) 16 then Some (ip, drop 12 (NetMask n)) else None
  | None =>
      if Nat.eqb (length (NetAddr n)) 16 && Nat.eqb (length (NetMask n)) 16
      then Some (NetAddr n, NetMask n) else None
  end.

Definition NetContains (n : IPNet) (ip : IP) : bool :=
  let ip := default ip (To4 ip) in
  match networkNumberAndMask n with
  | None => Nat.eqb (length ip) 0
  | Some (nn, m) =>
      if Nat.eqb (length ip) (length nn)
      then bool_decide (and_bytes nn m = and_bytes ip m) else false
  end.

(** ** Host and port *)

Definition SplitHostPort (hp : string) : option (string * string) :=
  let i := LastIndexByte hp ":" in
  if (i <? 0)%Z then None
  else
    let port := String.substring (Z.to_nat (i + 1)) (slen hp - Z.to_nat (i + 1)) hp in
    match hp with
    | String "[" body =>
        match IndexByte hp "]" with
        | None => None
        | Some e =>
            if negb (Z.of_nat (S e) =? i)%Z then None
            else if contains_byte "[" body then None
            else if contains_byte "]" (String.substring (S e) (slen hp - S e) hp) then None
            else Some (String.substring 1 (e - 1) hp, port)
        end
    | _ =>
        let host := String.substring 0 (Z.to_nat i) hp in
        if contains_byte ":" host then None
        else if contains_byte "[" hp then None
        else if contains_byte "]" hp then None
        else Some (host, port)
    end.

Example ip_ex1 : ParseIP "192.168.1.10" = Some (v4InV6Prefix ++ [192;168;1;10]%Z)%list.
Proof. reflexivity. Qed.
Example ip_ex2 : option_map IPString (ParseIP "2001:db8:0:0:1::1") = Some "2001:db8::1:0:0:1".
Proof. reflexivity. Qed.
Example ip_ex3 : ParseIP "::ffff:10.0.0.1" = ParseIP "10.0.0.1".
Proof. reflexivity. Qed.
Example ip_ex4 : option_map (λ n, NetContains n.2 [10;200;3;4]%Z) (ParseCIDR "10.0.0.0/8") = Some true.
Proof. reflexivity. Qed.
Example ip_ex5 : option_map (λ n, NetContains n.2 (replicate 15 0 ++ [1])%Z%list) (ParseCIDR "::1/128") = Some true.
Proof. vm_compute. reflexivity. Qed.
Example ip_ex6 : SplitHostPort "[::1]:53" = Some ("::1", "53").
Proof. reflexivity. Qed.
Example ip_ex7 : ParseIP "1::" = Some ([0;1] ++ replicate 14 0)%Z%list ∧ ParseIP "01.2.3.4" = None.
Proof. by vm_compute. Qed.
