(* ===== verification/DnsMsg.v ===== *)
(** * DNS messages

    The message structures of github.com/miekg/dns, restricted to the fields
    the resolver reads or writes.  The library's own functions are not part of
    the repository: they are the fields of [DnsLib].  [dns.Msg.Copy] is a deep
    copy, so messages are values. *)

From Stdlib Require Import ZArith Lia Ascii String.
From S2P Require Import Prelude GoStr.

Record RR_Header := mkHdr {
  HName : string; Rrtype : Z; HClass : Z; Ttl : Z
}.

(** The record types the code distinguishes by type assertion. *)
Inductive RData :=
  | OPT (options : list Z)         (** EDNS option codes *)
  | TSIG
  | SOA (minttl : Z)
  | CNAME (target : string)
  | RDA (ip : list Z)
  | RDAAAA (ip : list Z)
  | OtherData (data : string).

Record RR := mkRR { Hdr : RR_Header; Data : RData }.

Record Question := mkQ { QName : string; Qtype : Z; Qclass : Z }.

Record Msg := mkMsg {
  Id : Z;
  Response : bool;
  Opcode : Z;
  Authoritative : bool;
  Truncated : bool;
  RecursionDesired : bool;
  RecursionAvailable : bool;
  AuthenticatedData : bool;
  CheckingDisabled : bool;
  Rcode : Z;
  Questions : list Question;
  Answer : list RR;
  Ns : list RR;
  Extra : list RR
}.

#[export] Instance RR_Header_eq_dec : EqDecision RR_Header.
Proof. solve_decision. Defined.
#[export] Instance RData_eq_dec : EqDecision RData.
Proof. solve_decision. Defined.
#[export] Instance RR_eq_dec : EqDecision RR.
Proof. solve_decision. Defined.
#[export] Instance Question_eq_dec : EqDecision Question.
Proof. solve_decision. Defined.

(** Constants of the library. *)
Definition OpcodeQuery : Z := 0.
Definition RcodeSuccess : Z := 0.
Definition RcodeServerFailure : Z := 2.
Definition RcodeNameError : Z := 3.
Definition RcodeRefused : Z := 5.
Definition TypeA : Z := 1.
Definition TypeAAAA : Z := 28.
Definition EDNS0PADDING : Z := 12.

Class DnsLib := {
  (** [m.IsTsig() != nil] *)
  is_tsig : Msg → bool;
  (** [m.Len()] *)
  msg_len : Msg → Z;
  (** [dns.Fqdn] *)
  fqdn : string → string;
  (** [opt.Version()] and [opt.Do()], both read from the TTL field *)
  opt_version : RR → Z;
  opt_do : RR → bool;
  (** [new(dns.Msg).SetReply(query)] *)
  set_reply : Msg → Msg;
  (** [m.Pack()] and [m.Unpack(wire)] *)
  msg_pack : Msg → result string;
  msg_unpack : string → result Msg
}.

(** What the code relies on of [SetReply]: the reply echoes the identifier and the
    first question, is a response, and carries no record. *)
Class DnsLaws `{DnsLib} := {
  set_reply_id q : Id (set_reply q) = Id q;
  set_reply_response q : Response (set_reply q) = true;
  set_reply_questions q : Questions (set_reply q) = take 1 (Questions q);
  set_reply_empty q :
    Answer (set_reply q) = [] ∧ Ns (set_reply q) = [] ∧ Extra (set_reply q) = []
}.

(** ** Updates *)

Definition set_ttl (ttl : Z) (rr : RR) : RR :=
  mkRR (mkHdr (HName (Hdr rr)) (Rrtype (Hdr rr)) (HClass (Hdr rr)) ttl) (Data rr).
Definition set_name (name : string) (rr : RR) : RR :=
  mkRR (mkHdr name (Rrtype (Hdr rr)) (HClass (Hdr rr)) (Ttl (Hdr rr))) (Data rr).
Definition rr_ttl (rr : RR) : Z := Ttl (Hdr rr).

Definition set_id (i : Z) (m : Msg) : Msg :=
  mkMsg i (Response m) (Opcode m) (Authoritative m) (Truncated m) (RecursionDesired m)
    (RecursionAvailable m) (AuthenticatedData m) (CheckingDisabled m) (Rcode m)
    (Questions m) (Answer m) (Ns m) (Extra m).
Definition set_questions (qs : list Question) (m : Msg) : Msg :=
  mkMsg (Id m) (Response m) (Opcode m) (Authoritative m) (Truncated m) (RecursionDesired m)
    (RecursionAvailable m) (AuthenticatedData m) (CheckingDisabled m) (Rcode m)
    qs (Answer m) (Ns m) (Extra m).
(** [for _, section := range {Answer, Ns, Extra} { for _, rr := range section { f(rr) } }] *)
Definition map_sections (f : RR → RR) (m : Msg) : Msg :=
  mkMsg (Id m) (Response m) (Opcode m) (Authoritative m) (Truncated m) (RecursionDesired m)
    (RecursionAvailable m) (AuthenticatedData m) (CheckingDisabled m) (Rcode m)
    (Questions m) (f <$> Answer m) (f <$> Ns m) (f <$> Extra m).

Definition all_records (m : Msg) : list RR := (Answer m ++ Ns m ++ Extra m)%list.

Lemma all_records_map f m : all_records (map_sections f m) = f <$> all_records m.
Proof. unfold all_records. cbn. by rewrite !fmap_app. Qed.

Lemma map_sections_compose f g m :
  map_sections f (map_sections g m) = map_sections (f ∘ g) m.
Proof. unfold map_sections. cbn. by rewrite <-!list_fmap_compose. Qed.

Lemma map_sections_ext f g m :
  (∀ rr, rr ∈ all_records m → f rr = g rr) → map_sections f m = map_sections g m.
Proof.
  intros Hfg. unfold map_sections, all_records in *.
  f_equal; apply list_fmap_ext; intros i rr Hi; apply Hfg;
    apply list_elem_of_lookup_2 in Hi; set_solver.
Qed.

(** OPT and TSIG use the TTL field for something else. *)
Definition pseudo_record (rr : RR) : bool :=
  match Data rr with OPT _ | TSIG => true | _ => false end.

(** ** A concrete library

    Used to instantiate theorems.  [set_reply], the EDNS accessors and [is_tsig]
    follow the documentation of the library; the wire format is a stub in which
    every packet unpacks to [reply]. *)
Definition rfc_set_reply (q : Msg) : Msg :=
  mkMsg (Id q) true (Opcode q) false false
    ((Opcode q =? OpcodeQuery)%Z && RecursionDesired q) false false
    ((Opcode q =? OpcodeQuery)%Z && CheckingDisabled q) RcodeSuccess
    (take 1 (Questions q)) [] [] [].

Definition rfc_dns (reply : Msg) : DnsLib := {|
  is_tsig m := match last (Extra m) with Some rr =>
                 match Data rr with TSIG => true | _ => false end | None => false end;
  msg_len m := Z.of_nat (12 + 16 * length (all_records m));
  fqdn s := if String.eqb (String.substring (slen s - 1) 1 s) "." then s else (s ++ ".");
  opt_version rr := ((rr_ttl rr / 65536) mod 256)%Z;
  opt_do rr := Z.testbit (rr_ttl rr) 15;
  set_reply := rfc_set_reply;
  msg_pack _ := Ok "wire";
  msg_unpack _ := Ok reply
|}.

Lemma rfc_dns_laws reply : @DnsLaws (rfc_dns reply).
Proof. by split. Qed.

(** A query and an answer used in the examples. *)
Definition ex_query (i : Z) (name : string) : Msg :=
  mkMsg i false 0 false false true false false false 0 [mkQ name TypeA 1] [] [] [].
Definition ex_answer (i : Z) (name : string) (ttl : Z) (extra : list RR) : Msg :=
  mkMsg i true 0 false false true true false false 0 [mkQ name TypeA 1]
    (mkRR (mkHdr name TypeA 1 ttl) (RDA [93; 184; 216; 34]%Z) :: extra) [] [].
