(* ===== verification/RespCache.v ===== *)
(** * The DNS response cache: [internal/dns/resolver/cache.go]

    A bounded LRU cache of upstream answers.  Go keeps a map from keys to list
    elements and a [container/list] whose elements hold the entries.  An
    element is identified by its entry's key, so the state is a finite map from
    keys to entries and the list of keys, most recently used first.  A nil
    cache is [None].  Times are nanoseconds. *)

From Stdlib Require Import ZArith Lia Ascii String.
From S2P Require Import Prelude GoStr DnsMsg.

Definition DefaultDNSCacheEntries : Z := 4096.
Definition DNSCacheMaxTTLSeconds : Z := 300.
Definition maxDNSCacheMessageSize : Z := 8192.
Definition second : Z := 1000000000.
Definition DNSCacheStaleWindow : Z := (3600 * second)%Z.
Definition DNSCacheStaleTTL : Z := 30.
Definition refreshAheadMinHits : Z := 3.

Record responseCacheKey := mkKey {
  key_name : string; key_qtype : Z; key_qclass : Z;
  key_do : bool; key_cd : bool; key_ad : bool; key_rd : bool; key_edns : bool
}.

#[export] Instance responseCacheKey_eq_dec : EqDecision responseCacheKey.
Proof. solve_decision. Defined.
#[export] Instance responseCacheKey_countable : Countable responseCacheKey.
Proof.
  refine (inj_countable'
    (λ k, (key_name k, key_qtype k, key_qclass k,
           (key_do k, key_cd k, key_ad k, key_rd k, key_edns k)))
    (λ '(n, t, c, (d, cd, ad, rd, e)), mkKey n t c d cd ad rd e) _).
  by intros [].
Defined.

Record responseCacheEntry := mkEntry {
  message : Msg; storedAt : Z; ttl : Z; hits : Z
}.

Record ResponseCache := mkCache {
  maxEntries : Z;
  maxTTL : Z;
  entries : gmap responseCacheKey responseCacheEntry;
  lru : list responseCacheKey;
  refreshing : gset responseCacheKey
}.

Definition newResponseCache (maxEntries maxTTL : Z) : option ResponseCache :=
  if (maxEntries <=? 0)%Z then None else Some (mkCache maxEntries maxTTL ∅ [] ∅).
Definition NewResponseCache (maxEntries : Z) : option ResponseCache :=
  newResponseCache maxEntries DNSCacheMaxTTLSeconds.

(** [list.Remove] and [list.MoveToFront] on the element of a key. *)
Definition lru_remove (k : responseCacheKey) (l : list responseCacheKey) :=
  filter (λ k', k' ≠ k) l.
Definition lru_front (k : responseCacheKey) (l : list responseCacheKey) :=
  k :: lru_remove k l.

Definition with_store (c : ResponseCache) (es : gmap responseCacheKey responseCacheEntry)
    (l : list responseCacheKey) : ResponseCache :=
  mkCache (maxEntries c) (maxTTL c) es l (refreshing c).

Record ResponseCacheStats := mkStats { Enabled : bool; Entries : Z; MaxEntries : Z }.
Definition Stats (c : option ResponseCache) : ResponseCacheStats :=
  match c with
  | None => mkStats false 0 0
  | Some c =>
      if (maxEntries c <=? 0)%Z then mkStats false 0 0
      else mkStats true (Z.of_nat (length (lru c))) (maxEntries c)
  end.

Section Cache.
Context `{UnicodeTables, DnsLib}.

(** The EDNS loop of [responseCacheKeyFor]; [count] is [optCount]. *)
Fixpoint edns_loop (extra : list RR) (count : Z) (do : bool) : option (Z * bool) :=
  match extra with
  | [] => Some (count, do)
  | rr :: extra =>
      match Data rr with
      | OPT options =>
          let count := (count + 1)%Z in
          if (1 <? count)%Z || negb (opt_version rr =? 0)%Z then None
          else if forallb (λ o, (o =? EDNS0PADDING)%Z) options
               then edns_loop extra count (opt_do rr)
               else None
      | _ => None
      end
  end.

Definition responseCacheKeyFor (query : option Msg) : option responseCacheKey :=
  match query with
  | None => None
  | Some query =>
      if Response query || Truncated query || negb (Opcode query =? OpcodeQuery)%Z
         || negb (Nat.eqb (length (Questions query)) 1)
      then None
      else if is_tsig query then None
      else
        match Questions query with
        | [] => None
        | question :: _ =>
            if String.eqb (TrimSpace (QName question)) "" then None
            else
              match edns_loop (Extra query) 0 false with
              | None => None
              | Some (optCount, do) =>
                  Some (mkKey (ToLower (fqdn (QName question))) (Qtype question)
                          (Qclass question) do (CheckingDisabled query)
                          (AuthenticatedData query) (RecursionDesired query)
                          (optCount =? 1)%Z)
              end
        end
  end.

Definition cacheableResponse (response : Msg) : bool :=
  if Truncated response || is_tsig response
     || negb (Nat.eqb (length (Questions response)) 1)
     || (maxDNSCacheMessageSize <? msg_len response)%Z
  then false
  else if negb (Rcode response =? RcodeSuccess)%Z && negb (Rcode response =? RcodeNameError)%Z
  then false
  else forallb (λ rr, match Data rr with OPT (_ :: _) => false | _ => true end)
         (all_records response).

(** First pass of [clampResponseTTLs] on one record: the clamped record and the
    running [(ttl, found)]. *)
Definition clamp_rr (max : Z) (rr : RR) : RR :=
  if pseudo_record rr then rr
  else if (0 <? max)%Z && (max <? rr_ttl rr)%Z then set_ttl max rr else rr.
Definition min_rr (acc : Z * bool) (rr : RR) : Z * bool :=
  let '(ttl, found) := acc in
  if pseudo_record rr then acc
  else if negb found || (rr_ttl rr <? ttl)%Z then (rr_ttl rr, true) else acc.
(** Second pass: the SOA minimum of a negative answer. *)
Definition soa_min (ttl : Z) (rr : RR) : Z :=
  match Data rr with SOA minttl => if (minttl <? ttl)%Z then minttl else ttl | _ => ttl end.
(** Third pass: no record outlives the message. *)
Definition cap_rr (ttl : Z) (rr : RR) : RR :=
  if pseudo_record rr then rr else if (ttl <? rr_ttl rr)%Z then set_ttl ttl rr else rr.

Definition negative_answer (m : Msg) : bool :=
  (Rcode m =? RcodeNameError)%Z || Nat.eqb (length (Answer m)) 0.

(** The message with its TTLs rewritten in place, and its lifetime. *)
Definition clampResponseTTLs (message : Msg) (maxTTL : Z) : Msg * Z :=
  let message := map_sections (clamp_rr maxTTL) message in
  let '(ttl, found) := foldl min_rr (0%Z, false) (all_records message) in
  if negb found then (message, 0%Z)
  else
    let ttl := if negative_answer message then foldl soa_min ttl (Ns message) else ttl in
    (map_sections (cap_rr ttl) message, ttl).

Definition ageRecordTTL (age : Z) (rr : RR) : RR :=
  if pseudo_record rr then rr
  else set_ttl (if (rr_ttl rr <=? age)%Z then 0%Z else (rr_ttl rr - age)%Z) rr.

Definition Cacheable (c : option ResponseCache) (query : option Msg) : bool :=
  match c with
  | None => false
  | Some c => (0 <? maxEntries c)%Z && bool_decide (is_Some (responseCacheKeyFor query))
  end.

(** [now.Sub(storedAt)], negative ages counted as zero *)
Definition entry_age (e : responseCacheEntry) (now : Z) : Z := Z.max 0 (now - storedAt e).

(** The copy handed to a caller: its own identifier and question spelling. *)
Definition personalize (query : Msg) (m : Msg) : Msg :=
  match Questions m, Questions query with
  | q0 :: qs, uq :: _ =>
      set_questions (mkQ (QName uq) (Qtype q0) (Qclass q0) :: qs) (set_id (Id query) m)
  | _, _ => set_id (Id query) m
  end.

Definition question_name (m : Msg) : string :=
  match Questions m with q :: _ => QName q | [] => "" end.

Definition rename_rr (cachedName callerName : string) (rr : RR) : RR :=
  if EqualFold (HName (Hdr rr)) cachedName then set_name callerName rr else rr.

Definition hit_response (query : Msg) (e : responseCacheEntry) (age : Z) : Msg :=
  let ageSeconds := ((age / second) mod 2 ^ 32)%Z in
  map_sections
    (λ rr, ageRecordTTL ageSeconds
             (rename_rr (question_name (message e)) (question_name query) rr))
    (personalize query (message e)).

Definition Get (c : option ResponseCache) (query : option Msg) (now : Z)
    : option ResponseCache * option Msg :=
  match c, query with
  | Some c, Some q =>
      if (maxEntries c <=? 0)%Z then (Some c, None)
      else
        match responseCacheKeyFor query with
        | None => (Some c, None)
        | Some key =>
            match entries c !! key with
            | None => (Some c, None)
            | Some e =>
                let age := entry_age e now in
                if (ttl e * second <=? age)%Z then
                  (Some (with_store c (delete key (entries c)) (lru_remove key (lru c))), None)
                else
                  let e' := mkEntry (message e) (storedAt e) (ttl e) (hits e + 1) in
                  (Some (with_store c (<[key:=e']> (entries c)) (lru_front key (lru c))),
                   Some (hit_response q e age))
            end
        end
  | _, _ => (c, None)
  end.

Definition Put (c : option ResponseCache) (query response : option Msg) (now : Z)
    : option ResponseCache * (bool * bool) :=
  match c, response with
  | Some c, Some response =>
      if (maxEntries c <=? 0)%Z then (Some c, (false, false))
      else
        match responseCacheKeyFor query with
        | None => (Some c, (false, false))
        | Some key =>
            if negb (cacheableResponse response) then (Some c, (false, false))
            else
              let '(message, ttl) := clampResponseTTLs response (maxTTL c) in
              if (ttl =? 0)%Z then (Some c, (false, false))
              else
                match entries c !! key with
                | Some e =>
                    let e' := mkEntry message now ttl (hits e) in
                    (Some (with_store c (<[key:=e']> (entries c)) (lru_front key (lru c))),
                     (true, false))
                | None =>
                    let es := <[key:=mkEntry message now ttl 0]> (entries c) in
                    let l := key :: lru c in
                    if (maxEntries c <? Z.of_nat (length l))%Z then
                      match last l with
                      | Some oldest =>
                          (Some (with_store c (delete oldest es) (removelast l)), (true, true))
                      | None => (Some (with_store c es l), (true, false))
                      end
                    else (Some (with_store c es l), (true, false))
                end
        end
  | _, _ => (c, (false, false))
  end.

Definition stale_response (query : Msg) (e : responseCacheEntry) : Msg :=
  map_sections (set_ttl DNSCacheStaleTTL) (personalize query (message e)).

Definition GetStale (c : option ResponseCache) (query : option Msg) (now : Z) : option Msg :=
  match c, query with
  | Some c, Some q =>
      if (maxEntries c <=? 0)%Z then None
      else
        match responseCacheKeyFor query with
        | None => None
        | Some key =>
            match entries c !! key with
            | None => None
            | Some e =>
                let age := entry_age e now in
                if (age <? ttl e * second)%Z || (ttl e * second + DNSCacheStaleWindow <? age)%Z
                then None
                else Some (stale_response q e)
            end
        end
  | _, _ => None
  end.

(** [time.Duration(float64(ttl)*refreshAheadFraction)*time.Second]: halving an
    unsigned 32-bit integer is exact in float64 and the conversion truncates. *)
Definition refresh_point (ttl : Z) : Z := (ttl / 2 * second)%Z.

Definition ShouldRefresh (c : option ResponseCache) (query : option Msg) (now : Z) : bool :=
  match c with
  | None => false
  | Some c =>
      if (maxEntries c <=? 0)%Z then false
      else
        match responseCacheKeyFor query with
        | None => false
        | Some key =>
            match entries c !! key with
            | None => false
            | Some e =>
                if (hits e <? refreshAheadMinHits)%Z then false
                else
                  let age := (now - storedAt e)%Z in
                  if (age <? 0)%Z then false else (refresh_point (ttl e) <=? age)%Z
            end
        end
  end.

Definition with_refreshing (c : ResponseCache) (r : gset responseCacheKey) : ResponseCache :=
  mkCache (maxEntries c) (maxTTL c) (entries c) (lru c) r.

Definition BeginRefresh (c : option ResponseCache) (query : option Msg)
    : option ResponseCache * bool :=
  match c with
  | None => (None, false)
  | Some c =>
      match responseCacheKeyFor query with
      | None => (Some c, false)
      | Some key =>
          if bool_decide (key ∈ refreshing c) then (Some c, false)
          else (Some (with_refreshing c ({[key]} ∪ refreshing c)), true)
      end
  end.

Definition EndRefresh (c : option ResponseCache) (query : option Msg) : option ResponseCache :=
  match c with
  | None => None
  | Some c =>
      match responseCacheKeyFor query with
      | None => Some c
      | Some key => Some (with_refreshing c (refreshing c ∖ {[key]}))
      end
  end.
End Cache.
