(* ===== verification/RespCacheSpec.v ===== *)
(** * Properties of the DNS response cache

    The representation invariant of the LRU map, the lifetime of every stored
    and served record, eviction order, the serve-stale window and the
    single-flight refresh slot. *)

From Stdlib Require Import ZArith Lia Ascii String.
From S2P Require Import Prelude GoStr DnsMsg RespCache.

(** ** TTL arithmetic of one message *)

Definition u32 (z : Z) : Prop := (0 <= z < 2 ^ 32)%Z.

(** TTL fields and SOA minimums are unsigned 32-bit integers. *)
Definition rr_range (rr : RR) : Prop :=
  u32 (rr_ttl rr) ∧ match Data rr with SOA m => u32 m | _ => True end.
Definition msg_range (m : Msg) : Prop := Forall rr_range (all_records m).

Lemma pseudo_set_ttl t rr : pseudo_record (set_ttl t rr) = pseudo_record rr.
Proof. done. Qed.
Lemma pseudo_clamp max rr : pseudo_record (clamp_rr max rr) = pseudo_record rr.
Proof. unfold clamp_rr. by repeat case_match. Qed.
Lemma pseudo_cap t rr : pseudo_record (cap_rr t rr) = pseudo_record rr.
Proof. unfold cap_rr. by repeat case_match. Qed.
Lemma data_clamp max rr : Data (clamp_rr max rr) = Data rr.
Proof. unfold clamp_rr. by repeat case_match. Qed.
Lemma data_cap t rr : Data (cap_rr t rr) = Data rr.
Proof. unfold cap_rr. by repeat case_match. Qed.

Lemma clamp_bound max rr :
  (0 < max)%Z → pseudo_record rr = false → (rr_ttl (clamp_rr max rr) <= max)%Z.
Proof.
  intros Hm Hp. unfold clamp_rr. rewrite Hp.
  destruct (Z.ltb_spec 0 max); [|lia]. cbn.
  destruct (Z.ltb_spec max (rr_ttl rr)); cbn; lia.
Qed.
Lemma clamp_nonneg max rr : (0 <= rr_ttl rr)%Z → (0 <= rr_ttl (clamp_rr max rr))%Z.
Proof. intros Hr. unfold clamp_rr. repeat case_match; cbn; bool_simpl; lia. Qed.
Lemma clamp_le max rr : (rr_ttl (clamp_rr max rr) <= rr_ttl rr)%Z.
Proof.
  unfold clamp_rr. repeat case_match; cbn; bool_simpl; lia.
Qed.
Lemma cap_bound t rr : pseudo_record rr = false → (rr_ttl (cap_rr t rr) <= t)%Z.
Proof. intros Hp. unfold cap_rr. rewrite Hp. case_match; bool_simpl; cbn; lia. Qed.
Lemma cap_nonneg t rr : (0 <= t)%Z → (0 <= rr_ttl rr)%Z → (0 <= rr_ttl (cap_rr t rr))%Z.
Proof. intros. unfold cap_rr. repeat case_match; cbn; lia. Qed.

(** The first pass computes the minimum over the ordinary records. *)
Lemma min_rr_fold rrs t f :
  let '(t', f') := foldl min_rr (t, f) rrs in
  (f' = true ↔ f = true ∨ ∃ rr, rr ∈ rrs ∧ pseudo_record rr = false) ∧
  (f = true → (t' <= t)%Z) ∧
  (∀ rr, rr ∈ rrs → pseudo_record rr = false → (t' <= rr_ttl rr)%Z) ∧
  (f' = true → (f = true ∧ t' = t) ∨ ∃ rr, rr ∈ rrs ∧ pseudo_record rr = false ∧ t' = rr_ttl rr).
Proof.
  revert t f. induction rrs as [|rr rrs IH]; intros t f; cbn.
  { split_and!; try done; [|by intros ? ?%elem_of_nil|by left].
    split; [by left|]. intros [?|(? & H & _)]; [done|]. by apply elem_of_nil in H. }
  destruct (pseudo_record rr) eqn:Ep.
  - specialize (IH t f). destruct (foldl min_rr (t, f) rrs) as [t' f'].
    destruct IH as (H1 & H2 & H3 & H4).
    split_and!.
    + rewrite H1. setoid_rewrite elem_of_cons. naive_solver congruence.
    + done.
    + intros x [->|Hx]%elem_of_cons Hp; [congruence|auto].
    + intros Hf. destruct (H4 Hf) as [?|(x & ? & ?)]; [by left|right].
      exists x. rewrite elem_of_cons. naive_solver.
  - assert (∃ t1, (if negb f || (rr_ttl rr <? t)%Z then (rr_ttl rr, true) else (t, f)) = (t1, true)
      ∧ (t1 <= rr_ttl rr)%Z ∧ (f = true → t1 <= t)%Z ∧
      ((f = true ∧ t1 = t) ∨ t1 = rr_ttl rr)) as (t1 & -> & Ht1 & Hft & Hor).
    { destruct f; cbn.
      - destruct (Z.ltb_spec (rr_ttl rr) t); eexists; split_and!; eauto; lia.
      - eexists; split_and!; eauto; lia. }
    specialize (IH t1 true). destruct (foldl min_rr (t1, true) rrs) as [t' f'].
    destruct IH as (H1 & H2 & H3 & H4). specialize (H2 eq_refl).
    split_and!.
    + split; [|intros _; apply H1; by left]. intros _. right. exists rr.
      rewrite elem_of_cons. auto.
    + intros Hf. specialize (Hft Hf). lia.
    + intros x [->|Hx]%elem_of_cons Hp; [lia|auto].
    + intros Hf. destruct (H4 Hf) as [[_ ->]|(x & ? & ? & ?)].
      * destruct Hor as [?| ->]; [by left|right]. exists rr. rewrite elem_of_cons. auto.
      * right. exists x. rewrite elem_of_cons. auto.
Qed.

Lemma soa_min_fold rrs t :
  (foldl soa_min t rrs <= t)%Z ∧
  (∀ rr m, rr ∈ rrs → Data rr = SOA m → (foldl soa_min t rrs <= m)%Z) ∧
  (Forall rr_range rrs → (0 <= t)%Z → (0 <= foldl soa_min t rrs)%Z).
Proof.
  revert t. induction rrs as [|rr rrs IH]; intros t; cbn.
  { split_and!; [lia|by intros ? ? ?%elem_of_nil|done]. }
  destruct (IH (soa_min t rr)) as (H1 & H2 & H3).
  assert (soa_min t rr <= t)%Z as Hle by (unfold soa_min; repeat case_match; bool_simpl; lia).
  split_and!; [lia| |].
  - intros x m [->|Hx]%elem_of_cons Hd; [|by eapply H2].
    transitivity (soa_min t rr); [done|]. unfold soa_min. rewrite Hd.
    destruct (Z.ltb_spec m t); lia.
  - intros Hr Ht. inversion Hr as [|?? [Hx1 Hx2] Hrs]; subst. apply H3; [done|].
    unfold soa_min. destruct (Data rr); try done. unfold u32 in *. case_match; lia.
Qed.

(** What [clampResponseTTLs] guarantees of a message it gives a lifetime. *)
Lemma clamp_spec m max m' t :
  msg_range m → clampResponseTTLs m max = (m', t) → t ≠ 0%Z →
  (0 < t < 2 ^ 32)%Z ∧ ((0 < max)%Z → (t <= max)%Z) ∧
  (∀ rr, rr ∈ all_records m' → pseudo_record rr = false → (0 <= rr_ttl rr <= t)%Z) ∧
  (∀ rr, rr ∈ all_records m → pseudo_record rr = false → (t <= rr_ttl rr)%Z) ∧
  (negative_answer m = true → ∀ rr min, rr ∈ Ns m → Data rr = SOA min → (t <= min)%Z) ∧
  Questions m' = Questions m ∧ Rcode m' = Rcode m.
Proof.
  intros Hr Hc Ht. unfold clampResponseTTLs in Hc. cbv zeta in Hc.
  rewrite all_records_map in Hc.
  pose proof (min_rr_fold (clamp_rr max <$> all_records m) 0 false) as Hmin.
  destruct (foldl min_rr (0%Z, false) _) as [t0 found].
  destruct found; cbn [negb] in Hc; [|congruence].
  destruct Hmin as (_ & _ & Hle & Hwit). destruct (Hwit eq_refl) as [[? _]|(rr0 & Hin0 & Hp0 & ->)]; [done|].
  apply list_elem_of_fmap in Hin0 as (rr1 & -> & Hin1). rewrite pseudo_clamp in Hp0.
  set (t0 := rr_ttl (clamp_rr max rr1)) in *.
  set (t1 := if negative_answer _ then _ else t0) in Hc. injection Hc as <- <-.
  unfold msg_range in Hr. pose proof Hr as Hr'. rewrite Forall_forall in Hr.
  destruct (Hr _ Hin1) as [[Hlo Hhi] _].
  pose proof (clamp_nonneg max rr1 Hlo) as Hnn. pose proof (clamp_le max rr1) as Hcl.
  fold t0 in Hnn, Hcl.
  assert (Hrange_ns : Forall rr_range (clamp_rr max <$> Ns m)).
  { apply Forall_fmap. unfold all_records in Hr'. rewrite !Forall_app in Hr'.
    destruct Hr' as (_ & Hns & _). eapply Forall_impl; [exact Hns|].
    intros rr [[H1 H2] H3]. unfold rr_range, compose. rewrite data_clamp. split; [|done].
    pose proof (clamp_nonneg max rr H1). pose proof (clamp_le max rr). unfold u32. lia. }
  destruct (soa_min_fold (clamp_rr max <$> Ns m) t0) as (Hs1 & Hs2 & Hs3).
  assert (0 <= t1 <= t0)%Z as Ht1.
  { unfold t1. cbn. case_match; [|lia]. split; [by apply Hs3|done]. }
  split_and!; try done; try lia.
  - intros Hmax. pose proof (clamp_bound max rr1 Hmax Hp0). fold t0 in H. lia.
  - intros rr Hrr Hp. rewrite all_records_map in Hrr.
    apply list_elem_of_fmap in Hrr as (x & -> & Hx). rewrite pseudo_cap in Hp.
    rewrite all_records_map in Hx. apply list_elem_of_fmap in Hx as (y & -> & Hy).
    split; [|by apply cap_bound]. apply cap_nonneg; [lia|]. apply clamp_nonneg, (Hr _ Hy).
  - intros rr Hrr Hp. pose proof (clamp_le max rr).
    assert (t0 <= rr_ttl (clamp_rr max rr))%Z; [|lia].
    apply Hle; [apply list_elem_of_fmap; eauto|by rewrite pseudo_clamp].
  - intros Hneg rr mn Hrr Hd. unfold t1.
    assert (negative_answer (map_sections (clamp_rr max) m) = true) as ->.
    { unfold negative_answer in *. cbn. by rewrite length_fmap. }
    apply (Hs2 (clamp_rr max rr)); [|by rewrite data_clamp].
    apply list_elem_of_fmap. eauto.
Qed.

(** ** The LRU list *)

Lemma elem_of_lru_remove k k' l : k' ∈ lru_remove k l ↔ k' ≠ k ∧ k' ∈ l.
Proof. unfold lru_remove. by rewrite list_elem_of_filter. Qed.
Lemma NoDup_lru_remove k l : NoDup l → NoDup (lru_remove k l).
Proof. apply NoDup_filter. Qed.
Lemma NoDup_lru_front k l : NoDup l → NoDup (lru_front k l).
Proof.
  intros Hn. constructor; [|by apply NoDup_lru_remove].
  rewrite elem_of_lru_remove. tauto.
Qed.
Lemma elem_of_lru_front k k' l : k' ∈ lru_front k l ↔ k' = k ∨ k' ∈ l.
Proof.
  unfold lru_front. rewrite elem_of_cons, elem_of_lru_remove.
  destruct (decide (k' = k)); tauto.
Qed.
Lemma length_lru_remove k l : NoDup l → k ∈ l → S (length (lru_remove k l)) = length l.
Proof.
  unfold lru_remove. induction 1 as [|x l Hx Hn IH]; [by intros ?%elem_of_nil|].
  intros [->|Hk]%elem_of_cons.
  - rewrite filter_cons_False by tauto. cbn. f_equal.
    assert (filter (λ k', k' ≠ x) l = l) as ->; [|done].
    clear -Hx. induction l as [|y l IH]; [done|]. apply not_elem_of_cons in Hx as [Hxy Hx].
    rewrite filter_cons_True by congruence. by rewrite IH.
  - rewrite filter_cons_True by (intros ->; done). cbn. by rewrite IH.
Qed.
Lemma length_lru_remove_le k l : length (lru_remove k l) ≤ length l.
Proof. apply length_filter. Qed.

Lemma removelast_last {A} (l : list A) x : last l = Some x → l = (removelast l ++ [x])%list.
Proof.
  induction l as [|y l IH]; [done|]. destruct l as [|z l]; [by intros [= ->]|].
  intros Hl. cbn [removelast app]. f_equal. apply IH, Hl.
Qed.

(** ** The representation invariant *)

(** A stored entry: a positive lifetime within the cap that no ordinary record
    outlives, for an answer (not a failure) to one question. *)
Record entry_ok (max : Z) (e : responseCacheEntry) : Prop := {
  eo_ttl : (0 < ttl e < 2 ^ 32)%Z;
  eo_max : (0 < max → ttl e <= max)%Z;
  eo_records rr : rr ∈ all_records (message e) → pseudo_record rr = false →
                  (0 <= rr_ttl rr <= ttl e)%Z;
  eo_rcode : Rcode (message e) = RcodeSuccess ∨ Rcode (message e) = RcodeNameError;
  eo_question : length (Questions (message e)) = 1
}.

Record cache_ok (c : ResponseCache) : Prop := {
  co_max : (0 < maxEntries c)%Z;
  co_nodup : NoDup (lru c);
  co_dom k : k ∈ lru c ↔ is_Some (entries c !! k);
  co_bound : (Z.of_nat (length (lru c)) <= maxEntries c)%Z;
  co_entries k e : entries c !! k = Some e → entry_ok (maxTTL c) e
}.

Lemma cache_ok_new n max c : newResponseCache n max = Some c → cache_ok c.
Proof.
  unfold newResponseCache. destruct (Z.leb_spec n 0); [done|]. intros [= <-].
  split; cbn; try lia.
  - constructor.
  - intros k. rewrite lookup_empty, elem_of_nil. split; [done|]. by intros [].
  - intros k e. by rewrite lookup_empty.
Qed.

Section Ops.
Context `{UnicodeTables, DnsLib}.

Lemma cache_ok_touch c key e e' :
  cache_ok c → entries c !! key = Some e → entry_ok (maxTTL c) e' →
  cache_ok (with_store c (<[key:=e']> (entries c)) (lru_front key (lru c))).
Proof.
  intros [Hm Hn Hd Hb He] Hk He'.
  assert (key ∈ lru c) as Hin by (apply Hd; eauto).
  split; cbn; try done.
  - by apply NoDup_lru_front.
  - intros k. rewrite elem_of_lru_front, lookup_insert, Hd.
    destruct (decide (key = k)) as [<-|Hne]; [split; [eauto|by left]|naive_solver].
  - pose proof (length_lru_remove key (lru c) Hn Hin). lia.
  - intros k x. rewrite lookup_insert. case_decide; [by intros [= <-]|apply He].
Qed.

Lemma Get_ok c q now : cache_ok c → ∃ c', (Get (Some c) q now).1 = Some c' ∧ cache_ok c'.
Proof.
  intros Hc. unfold Get. destruct q as [q|]; [|by eexists].
  destruct (maxEntries c <=? 0)%Z; [by eexists|].
  destruct (responseCacheKeyFor (Some q)) as [key|]; [|by eexists].
  destruct (entries c !! key) as [e|] eqn:Ek; [|by eexists]. cbv zeta.
  destruct (ttl e * second <=? entry_age e now)%Z; eexists; (split; [done|]).
  - destruct Hc as [Hm Hn Hd Hb He]. split; cbn; try done.
    + by apply NoDup_lru_remove.
    + intros k. rewrite elem_of_lru_remove, Hd, lookup_delete.
      destruct (decide (key = k)) as [<-|Hne]; [|naive_solver].
      split; [tauto|]. by intros [].
    + pose proof (length_lru_remove_le key (lru c)). lia.
    + intros k x. rewrite lookup_delete. case_decide; [done|apply He].
  - apply (cache_ok_touch c key e); [done|done|].
    destruct (co_entries _ Hc _ _ Ek) as []. by split.
Qed.

Lemma entry_ok_clamp c r m t now h :
  msg_range r → cacheableResponse r = true → clampResponseTTLs r (maxTTL c) = (m, t) →
  t ≠ 0%Z → entry_ok (maxTTL c) (mkEntry m now t h).
Proof.
  intros Hr Hcr Hcl Ht.
  destruct (clamp_spec r (maxTTL c) m t Hr Hcl Ht) as (H1 & H2 & H3 & _ & _ & Hq & Hrc).
  unfold cacheableResponse in Hcr.
  destruct (Truncated r || _ || _ || _) eqn:E1; [done|].
  destruct (negb (Rcode r =? RcodeSuccess)%Z && _) eqn:E2; [done|].
  apply andb_false_iff in E2. bool_simpl.
  split; cbn; try done; [|congruence]. rewrite Hrc.
  rewrite !negb_false_iff, !Z.eqb_eq in E2. done.
Qed.

Lemma Put_ok c q r now :
  cache_ok c → (∀ m, r = Some m → msg_range m) →
  ∃ c', (Put (Some c) q r now).1 = Some c' ∧ cache_ok c'.
Proof.
  intros Hc Hr. unfold Put. destruct r as [r|]; [|by eexists].
  destruct (maxEntries c <=? 0)%Z; [by eexists|].
  destruct (responseCacheKeyFor q) as [key|]; [|by eexists].
  destruct (cacheableResponse r) eqn:Ecr; cbn [negb]; [|by eexists].
  destruct (clampResponseTTLs r (maxTTL c)) as [m t] eqn:Ecl.
  destruct (Z.eqb_spec t 0) as [|Ht]; [by eexists|].
  pose proof (λ h, entry_ok_clamp c r m t now h (Hr r eq_refl) Ecr Ecl Ht) as Heo.
  destruct (entries c !! key) as [e|] eqn:Ek.
  { eexists; split; [done|]. by apply (cache_ok_touch c key e). }
  assert (key ∉ lru c) as Hnin by (rewrite (co_dom _ Hc), Ek; by intros []).
  pose proof Hc as [Hm Hn Hd Hb He].
  assert (NoDup (key :: lru c)) as Hnd by by constructor.
  assert (∀ k, k ∈ key :: lru c ↔ is_Some (<[key:=mkEntry m now t 0]> (entries c) !! k)) as Hdom.
  { intros k. rewrite elem_of_cons, lookup_insert, Hd.
    destruct (decide (key = k)) as [<-|]; [split; [eauto|by left]|naive_solver]. }
  destruct (Z.ltb_spec (maxEntries c) (Z.of_nat (length (key :: lru c)))) as [Hfull|Hroom].
  - destruct (last (key :: lru c)) as [oldest|] eqn:El; cbn [fst].
    2: { apply last_None in El. done. }
    eexists; split; [done|]. pose proof (removelast_last _ _ El) as Hsplit.
    set (l := removelast (key :: lru c)) in *.
    rewrite Hsplit in Hnd. apply NoDup_app in Hnd as (Hnl & Hdisj & _).
    split; cbn; try done.
    + intros k. rewrite lookup_delete. destruct (decide (oldest = k)) as [<-|Hne].
      * split; [|by intros []]. intros Hk. exfalso. apply (Hdisj _ Hk). by left.
      * rewrite <-Hdom, Hsplit, elem_of_app, list_elem_of_singleton. naive_solver.
    + apply (f_equal length) in Hsplit. rewrite length_app in Hsplit. cbn in *. lia.
    + intros k x. rewrite lookup_delete. case_decide; [done|].
      rewrite lookup_insert. case_decide; [by intros [= <-]|apply He].
  - eexists; split; [done|]. split; cbn; try done.
    intros k x. rewrite lookup_insert. case_decide; [by intros [= <-]|apply He].
Qed.

(** ** Reachable caches *)

Inductive cache_op :=
  | OpGet (q : option Msg) (now : Z)
  | OpPut (q r : option Msg) (now : Z)
  | OpBeginRefresh (q : option Msg)
  | OpEndRefresh (q : option Msg).

Definition apply_op (c : option ResponseCache) (o : cache_op) : option ResponseCache :=
  match o with
  | OpGet q now => (Get c q now).1
  | OpPut q r now => (Put c q r now).1
  | OpBeginRefresh q => (BeginRefresh c q).1
  | OpEndRefresh q => EndRefresh c q
  end.

Definition op_valid (o : cache_op) : Prop :=
  match o with OpPut _ (Some m) _ => msg_range m | _ => True end.

Lemma refreshing_ok c r : cache_ok c → cache_ok (with_refreshing c r).
Proof. intros []. by split. Qed.

Lemma apply_op_ok c o :
  cache_ok c → op_valid o → ∃ c', apply_op (Some c) o = Some c' ∧ cache_ok c'.
Proof.
  intros Hc Hv. destruct o as [q now|q r now|q|q]; cbn.
  - by apply Get_ok.
  - apply Put_ok; [done|]. by intros m ->.
  - unfold BeginRefresh. destruct (responseCacheKeyFor q); [|by eexists].
    case_match; eexists; (split; [done|]); [done|by apply refreshing_ok].
  - unfold EndRefresh. destruct (responseCacheKeyFor q); eexists; (split; [done|]);
      [by apply refreshing_ok|done].
Qed.

(** C37: from a new cache, after any sequence of lookups, stores and refresh claims in
    any order, the LRU list and the map hold the same keys without repetition, the
    number of entries is within the bound, and every entry is an answer to one
    question with a positive lifetime of at most 300 s that no ordinary record
    outlives. *)
Theorem cache_invariant n ops :
  (0 < n)%Z → Forall op_valid ops →
  ∃ c, foldl apply_op (NewResponseCache n) ops = Some c ∧ cache_ok c ∧
       maxEntries c = n ∧ maxTTL c = DNSCacheMaxTTLSeconds.
Proof.
  intros Hn Hops. unfold NewResponseCache, newResponseCache.
  destruct (Z.leb_spec n 0); [lia|].
  assert (cache_ok (mkCache n DNSCacheMaxTTLSeconds ∅ [] ∅)) as Hc0.
  { apply (cache_ok_new n DNSCacheMaxTTLSeconds). unfold newResponseCache.
    destruct (Z.leb_spec n 0); [lia|done]. }
  assert (∀ c, cache_ok c → ∃ c', foldl apply_op (Some c) ops = Some c' ∧ cache_ok c' ∧
    maxEntries c' = maxEntries c ∧ maxTTL c' = maxTTL c) as Hall; [|by apply Hall in Hc0].
  clear Hc0. induction Hops as [|o ops Ho Hops IH]; intros c Hc; [by eexists|].
  cbn [foldl]. destruct (apply_op_ok c o Hc Ho) as (c1 & E1 & Hc1). rewrite E1.
  destruct (IH c1 Hc1) as (c2 & E2 & Hc2 & Em & Et). exists c2. split_and!; try done.
  - rewrite Em. clear -E1. destruct o; cbn in E1;
      unfold Get, Put, BeginRefresh, EndRefresh in E1; repeat case_match; by simplify_eq/=.
  - rewrite Et. clear -E1. destruct o; cbn in E1;
      unfold Get, Put, BeginRefresh, EndRefresh in E1; repeat case_match; by simplify_eq/=.
Qed.
End Ops.

(** ** Lookup, store and eviction *)

Lemma personalize_records q m : all_records (personalize q m) = all_records m.
Proof. unfold personalize. by destruct (Questions m), (Questions q). Qed.

Lemma entry_age_nonneg e now : (0 <= entry_age e now)%Z.
Proof. unfold entry_age. lia. Qed.

Lemma age_seconds_small e now :
  (0 < ttl e < 2 ^ 32)%Z → (entry_age e now < ttl e * second)%Z →
  ((entry_age e now / second) mod 2 ^ 32 = entry_age e now / second)%Z ∧
  (0 <= entry_age e now / second < ttl e)%Z.
Proof.
  intros Ht Ha. pose proof (entry_age_nonneg e now).
  assert (0 <= entry_age e now / second < ttl e)%Z as Hb.
  { split; [apply Z.div_pos; unfold second; lia|].
    apply Z.div_lt_upper_bound; unfold second in *; lia. }
  split; [|done]. apply Z.mod_small. lia.
Qed.

Section Functional.
Context `{UnicodeTables, DnsLib}.

(** A cache hit carries the caller's identifier, and every ordinary record's TTL is at
    most what is left of the entry's lifetime: no client can hold an answer longer
    than the cache itself may. *)
Theorem hit_within_lifetime c q now c' m :
  cache_ok c → Get (Some c) (Some q) now = (c', Some m) →
  ∃ key e, responseCacheKeyFor (Some q) = Some key ∧ entries c !! key = Some e ∧
    (entry_age e now < ttl e * second)%Z ∧ Id m = Id q ∧
    ∀ rr, rr ∈ all_records m → pseudo_record rr = false →
      (0 <= rr_ttl rr <= ttl e - entry_age e now / second)%Z.
Proof.
  intros Hc. unfold Get. pose proof (co_max _ Hc).
  destruct (Z.leb_spec (maxEntries c) 0); [lia|].
  destruct (responseCacheKeyFor (Some q)) as [key|] eqn:Ekey; [|done].
  destruct (entries c !! key) as [e|] eqn:Ek; [|done]. cbv zeta.
  destruct (Z.leb_spec (ttl e * second) (entry_age e now)) as [|Hage]; [done|].
  intros [= <- <-]. exists key, e. split_and!; try done.
  { unfold hit_response, personalize. by destruct (Questions (message e)), (Questions q). }
  destruct (co_entries _ Hc _ _ Ek) as [Ht Hmax Hrec _ _].
  destruct (age_seconds_small e now Ht Hage) as [Hmod Hsec].
  intros rr Hrr Hp. unfold hit_response in Hrr.
  rewrite Hmod, all_records_map, personalize_records in Hrr.
  apply list_elem_of_fmap in Hrr as (x & -> & Hx).
  set (x' := rename_rr _ _ x) in *.
  assert (pseudo_record x' = pseudo_record x ∧ rr_ttl x' = rr_ttl x) as [Hpx Htx]
    by (unfold x', rename_rr; by case_match).
  unfold ageRecordTTL in *. destruct (pseudo_record x') eqn:Ep; [congruence|].
  specialize (Hrec x Hx ltac:(congruence)). rewrite Htx. cbn.
  destruct (Z.leb_spec (rr_ttl x) (entry_age e now / second)); lia.
Qed.

(** A stored answer is served back: any lookup of the same question before the
    lifetime ends returns the stored message with the caller's identifier, question
    spelling and aged TTLs, even when storing it evicted another entry. *)
Theorem get_after_put c q r now c1 evicted now' m t :
  cache_ok c → Put (Some c) (Some q) (Some r) now = (c1, (true, evicted)) →
  clampResponseTTLs r (maxTTL c) = (m, t) →
  (now <= now' < now + t * second)%Z →
  ∃ h, (Get c1 (Some q) now').2 = Some (hit_response q (mkEntry m now t h) (now' - now)).
Proof.
  intros Hc Hput Hcl Hnow. pose proof (co_max _ Hc). unfold Put in Hput.
  destruct (Z.leb_spec (maxEntries c) 0); [lia|].
  destruct (responseCacheKeyFor (Some q)) as [key|] eqn:Ekey; [|done].
  destruct (cacheableResponse r); cbn [negb] in Hput; [|done].
  rewrite Hcl in Hput. destruct (Z.eqb_spec t 0); [done|].
  assert (∀ c2 h, maxEntries c2 = maxEntries c →
    entries c2 !! key = Some (mkEntry m now t h) →
    (Get (Some c2) (Some q) now').2 =
    Some (hit_response q (mkEntry m now t h) (now' - now))) as Hget.
  { intros c2 h Hm2 Hk2. unfold Get. rewrite Hm2. destruct (Z.leb_spec (maxEntries c) 0); [lia|].
    rewrite Ekey, Hk2. cbv zeta.
    assert (entry_age (mkEntry m now t h) now' = now' - now)%Z as ->
      by (unfold entry_age; cbn; lia).
    cbn [ttl]. destruct (Z.leb_spec (t * second) (now' - now)); [lia|done]. }
  destruct (entries c !! key) as [e|] eqn:Ek.
  { injection Hput as <- _. exists (hits e). apply Hget; [done|]. cbn. apply lookup_insert_eq. }
  assert (key ∉ lru c) as Hnin by (rewrite (co_dom _ Hc), Ek; by intros []).
  exists 0%Z.
  destruct (Z.ltb_spec (maxEntries c) (Z.of_nat (length (key :: lru c)))) as [Hfull|].
  2: { injection Hput as <- _. apply Hget; [done|]. cbn. apply lookup_insert_eq. }
  destruct (last (key :: lru c)) as [oldest|] eqn:El.
  2: { injection Hput as <- _. apply Hget; [done|]. cbn. apply lookup_insert_eq. }
  injection Hput as <- _. apply Hget; [done|]. cbn.
  rewrite lookup_delete_ne; [apply lookup_insert_eq|]. intros ->.
  destruct (lru c) as [|k l] eqn:Elru; [cbn in Hfull; lia|].
  apply last_Some in El as [l' El]. destruct l' as [|k' l']; [by inversion El|].
  injection El as -> El. apply Hnin. rewrite El. apply elem_of_app. right. by left.
Qed.

(** Eviction is strict LRU: storing a new question in a full cache removes exactly the
    entry at the back of the recency list, and storing one below the bound removes
    nothing. *)
Theorem put_evicts_lru c q r now c1 evicted key :
  cache_ok c → Put (Some c) (Some q) (Some r) now = (Some c1, (true, evicted)) →
  responseCacheKeyFor (Some q) = Some key → entries c !! key = None →
  lru c1 = (key :: if evicted then removelast (lru c) else lru c) ∧
  evicted = (maxEntries c =? Z.of_nat (length (lru c)))%Z ∧
  ∀ k, k ≠ key → entries c1 !! k =
    if evicted && bool_decide (last (lru c) = Some k) then None else entries c !! k.
Proof.
  intros Hc Hput Hkey Hnew. pose proof Hc as [Hm Hn Hd Hb He]. unfold Put in Hput.
  destruct (Z.leb_spec (maxEntries c) 0); [lia|].
  rewrite Hkey in Hput. destruct (cacheableResponse r); cbn [negb] in Hput; [|done].
  destruct (clampResponseTTLs r (maxTTL c)) as [m t].
  destruct (Z.eqb_spec t 0); [done|]. rewrite Hnew in Hput.
  destruct (Z.ltb_spec (maxEntries c) (Z.of_nat (length (key :: lru c)))) as [Hfull|Hroom];
    cbn [length] in *.
  - destruct (lru c) as [|k0 l0] eqn:Elru; [cbn in Hfull; lia|].
    change (last (key :: k0 :: l0)) with (last (k0 :: l0)) in Hput.
    destruct (last (k0 :: l0)) as [oldest|] eqn:El; [|by apply last_None in El].
    injection Hput as <- <-. cbn [lru with_store entries]. split; [done|].
    split; [symmetry; apply Z.eqb_eq; lia|]. intros k Hk. cbn [andb].
    rewrite lookup_delete, lookup_insert_ne by done.
    destruct (decide (oldest = k)) as [->|Hne]; [by rewrite bool_decide_true|].
    rewrite bool_decide_false by congruence. done.
  - injection Hput as <- <-. cbn [lru with_store entries]. split; [done|].
    split; [symmetry; apply Z.eqb_neq; lia|]. intros k Hk. cbn [andb].
    by rewrite lookup_insert_ne.
Qed.

(** What is stored respects RFC 2308 and the policy cap: the lifetime of a stored
    answer is at most the configured maximum, at most every ordinary record's TTL
    (and the stored copy's TTLs are lowered to it),
    and for NXDOMAIN or NODATA at most every SOA minimum of the authority section;
    failures, truncated, signed and oversized replies are never stored. *)
Theorem put_lifetime c q r now c1 evicted m t :
  msg_range r → Put (Some c) (Some q) (Some r) now = (c1, (true, evicted)) →
  clampResponseTTLs r (maxTTL c) = (m, t) →
  (0 < t)%Z ∧ ((0 < maxTTL c)%Z → (t <= maxTTL c)%Z) ∧
  (∀ rr, rr ∈ all_records r → pseudo_record rr = false → (t <= rr_ttl rr)%Z) ∧
  (∀ rr, rr ∈ all_records m → pseudo_record rr = false → (rr_ttl rr <= t)%Z) ∧
  (negative_answer r = true → ∀ rr mn, rr ∈ Ns r → Data rr = SOA mn → (t <= mn)%Z) ∧
  (Rcode r = RcodeSuccess ∨ Rcode r = RcodeNameError) ∧
  Truncated r = false ∧ is_tsig r = false ∧ (msg_len r <= maxDNSCacheMessageSize)%Z.
Proof.
  intros Hr Hput Hcl. unfold Put in Hput.
  destruct (Z.leb_spec (maxEntries c) 0); [done|].
  destruct (responseCacheKeyFor (Some q)) as [key|]; [|done].
  destruct (cacheableResponse r) eqn:Ecr; cbn [negb] in Hput; [|done].
  rewrite Hcl in Hput. destruct (Z.eqb_spec t 0) as [|Ht]; [done|].
  destruct (clamp_spec r (maxTTL c) m t Hr Hcl Ht) as (H1' & H2' & H3' & H4' & H5' & _).
  unfold cacheableResponse in Ecr.
  destruct (Truncated r || _ || _ || _) eqn:E1; [done|].
  destruct (negb (Rcode r =? RcodeSuccess)%Z && _) eqn:E2; [done|].
  apply andb_false_iff in E2. rewrite !negb_false_iff, !Z.eqb_eq in E2. bool_simpl.
  split_and!; try done; try lia. intros rr Hrr Hp. by apply H3'.
Qed.

(** ** Serve-stale *)

(** [GetStale] serves only entries past their lifetime by at most one hour, and every
    record of the reply carries the 30 s stale TTL. *)
Theorem stale_window c q now m :
  GetStale (Some c) (Some q) now = Some m →
  ∃ key e, responseCacheKeyFor (Some q) = Some key ∧ entries c !! key = Some e ∧
    (ttl e * second <= entry_age e now <= ttl e * second + DNSCacheStaleWindow)%Z ∧
    Id m = Id q ∧ ∀ rr, rr ∈ all_records m → rr_ttl rr = DNSCacheStaleTTL.
Proof.
  unfold GetStale. destruct (maxEntries c <=? 0)%Z; [done|].
  destruct (responseCacheKeyFor (Some q)) as [key|]; [|done].
  destruct (entries c !! key) as [e|] eqn:Ek; [|done]. cbv zeta.
  destruct ((entry_age e now <? ttl e * second)%Z || _) eqn:E; [done|]. intros [= <-].
  bool_simpl. exists key, e. split_and!; try done; try lia.
  - unfold stale_response, personalize. by destruct (Questions (message e)), (Questions q).
  - intros rr. unfold stale_response. rewrite all_records_map.
    intros (x & -> & _)%list_elem_of_fmap. done.
Qed.

(** A lookup that misses leaves nothing stale behind: [Get] deletes the expired entry it
    finds, so after a miss no later [GetStale] for that question can succeed until a
    new answer is stored. *)
Lemma no_stale_after_miss c q now c1 now' :
  Get c q now = (c1, None) → GetStale c1 q now' = None.
Proof.
  unfold Get, GetStale. destruct c as [c|]; [|by intros [= <-]].
  destruct q as [q|]; [|by intros [= <-]].
  destruct (maxEntries c <=? 0)%Z eqn:Em; [intros [= <-]; by rewrite Em|].
  destruct (responseCacheKeyFor (Some q)) as [key|] eqn:Ekey;
    [|intros [= <-]; by rewrite Em, ?Ekey].
  destruct (entries c !! key) as [e|] eqn:Ek; [|intros [= <-]; by rewrite Em, ?Ekey, Ek].
  cbv zeta. destruct (ttl e * second <=? entry_age e now)%Z; [|done].
  intros [= <-]. cbn. rewrite Em, ?Ekey, lookup_delete_eq. done.
Qed.

(** ** Refresh-ahead *)

Definition ends_key (key : responseCacheKey) (o : cache_op) : bool :=
  match o with
  | OpEndRefresh q => bool_decide (responseCacheKeyFor q = Some key)
  | _ => false
  end.

Lemma apply_op_refreshing c o c' key :
  apply_op (Some c) o = Some c' → ends_key key o = false →
  key ∈ refreshing c → key ∈ refreshing c'.
Proof.
  intros Ho He Hk. destruct o as [q now|q r now|q|q]; cbn in Ho, He;
    unfold Get, Put, BeginRefresh, EndRefresh in Ho;
    repeat case_match; simplify_eq/=; try done; [set_solver|].
  apply bool_decide_eq_false in He. set_solver.
Qed.

(** Refresh-ahead is single flight: once a caller has claimed the refresh of a question,
    no other claim of it succeeds, whatever other operations run, until it is
    released. *)
Theorem refresh_single_flight c q c1 ops c2 key :
  responseCacheKeyFor q = Some key →
  BeginRefresh (Some c) q = (Some c1, true) →
  forallb (λ o, negb (ends_key key o)) ops = true →
  foldl apply_op (Some c1) ops = Some c2 →
  (BeginRefresh (Some c2) q).2 = false.
Proof.
  intros Hkey Hb Hops Hfold. unfold BeginRefresh in *. rewrite Hkey in *.
  case_bool_decide as E; [by inversion Hb|]. injection Hb as <-.
  assert (key ∈ refreshing c2) as Hin; [|by rewrite bool_decide_true].
  assert (key ∈ refreshing (with_refreshing c ({[key]} ∪ refreshing c))) as H0'
    by (cbn; set_solver).
  revert Hops Hfold H0'. generalize (with_refreshing c ({[key]} ∪ refreshing c)) as c0.
  induction ops as [|o ops IH]; intros c0 Hops Hfold Hin; cbn in *; [by simplify_eq|].
  apply andb_true_iff in Hops as [Ho Hops]. apply negb_true_iff in Ho.
  destruct (apply_op (Some c0) o) as [c'|] eqn:E'.
  - apply (IH c'); [done|done|]. by apply (apply_op_refreshing c0 o).
  - exfalso. clear -Hfold. induction ops as [|o ops IH]; [done|]. cbn in Hfold.
    destruct o; cbn in Hfold; unfold Get, Put, BeginRefresh, EndRefresh in Hfold;
      repeat case_match; auto.
Qed.
End Functional.

(** ** Witnesses: one question asked at 0 s, answered with a TTL of 60 s *)

Module Examples.
#[local] Instance ex_tables : UnicodeTables := ascii_tables.
Definition reply := ex_answer 7 "Example.com." 60 [].
#[local] Instance ex_dns : DnsLib := rfc_dns reply.
Definition q := ex_query 9 "example.COM.".
Definition q2 := ex_query 9 "other.example.".
Definition reply2 := ex_answer 9 "other.example." 900 [].
Definition at_s (t : Z) : Z := (t * second)%Z.

Definition empty_cache : ResponseCache := mkCache 1 300 ∅ [] ∅.
Definition one_entry : ResponseCache :=
  default empty_cache (Put (Some empty_cache) (Some q) (Some reply) 0).1.

Lemma reply_range : msg_range reply.
Proof. repeat constructor; cbn; lia. Qed.
Lemma reply2_range : msg_range reply2.
Proof. repeat constructor; cbn; lia. Qed.

Lemma one_entry_ok : cache_ok one_entry.
Proof.
  assert (cache_ok empty_cache) as He by (by apply (cache_ok_new 1 300)).
  destruct (Put_ok empty_cache (Some q) (Some reply) 0 He) as (c & E & Hc).
  { intros m [= <-]. apply reply_range. }
  unfold one_entry. by rewrite E.
Qed.

(** A cache operation's result from its visible part, leaving the cache symbolic. *)
Lemma cache_result_of {B} (p : option ResponseCache * B) x :
  bool_decide (is_Some p.1) = true → p.2 = x → p = (Some (default empty_cache p.1), x).
Proof. destruct p as [[c|] ?]; [by intros _ <-|by intros H%bool_decide_eq_true%is_Some_None]. Qed.

Definition put2 : option ResponseCache * (bool * bool) :=
  Put (Some one_entry) (Some q2) (Some reply2) 0.
Definition cache2 : ResponseCache := default empty_cache put2.1.
Definition key2 : responseCacheKey := mkKey "other.example." TypeA 1 false false false true false.

Lemma cache_invariant_witness :
  ∃ c, foldl apply_op (NewResponseCache 1)
         [OpPut (Some q) (Some reply) 0; OpPut (Some q2) (Some reply2) 0] = Some c ∧
       cache_ok c ∧ maxEntries c = 1%Z ∧ maxTTL c = DNSCacheMaxTTLSeconds.
Proof.
  apply cache_invariant; [done|].
  constructor; [exact reply_range|constructor; [exact reply2_range|constructor]].
Defined.

Definition hit2 : option ResponseCache * option Msg := Get (Some one_entry) (Some q) (at_s 20).

Lemma hit_within_lifetime_witness :
  ∃ key e, responseCacheKeyFor (Some q) = Some key ∧ entries one_entry !! key = Some e ∧
    (entry_age e (at_s 20) < ttl e * second)%Z ∧ Id (ex_answer 9 "example.COM." 40 []) = Id q ∧
    ∀ rr, rr ∈ all_records (ex_answer 9 "example.COM." 40 []) → pseudo_record rr = false →
      (0 <= rr_ttl rr <= ttl e - entry_age e (at_s 20) / second)%Z.
Proof.
  refine (hit_within_lifetime one_entry q (at_s 20) hit2.1 _ one_entry_ok (result_of hit2 _ _)).
  vm_compute. reflexivity.
Defined.

Lemma get_after_put_witness :
  ∃ h, (Get (Some cache2) (Some q2) (at_s 299)).2 =
    Some (hit_response q2 (mkEntry (clampResponseTTLs reply2 300).1 0 300 h) (at_s 299 - 0)).
Proof.
  refine (get_after_put one_entry q2 reply2 0 (Some cache2) true (at_s 299) _ 300 one_entry_ok
            (cache_result_of put2 _ _ _) (result_of _ _ _) _).
  - vm_compute. reflexivity.
  - vm_compute. reflexivity.
  - vm_compute. reflexivity.
  - unfold at_s, second. lia.
Defined.

Lemma put_evicts_lru_witness :
  lru cache2 = (key2 :: if true then removelast (lru one_entry) else lru one_entry) ∧
  true = (maxEntries one_entry =? Z.of_nat (length (lru one_entry)))%Z ∧
  ∀ k, k ≠ key2 → entries cache2 !! k =
    if true && bool_decide (last (lru one_entry) = Some k) then None else entries one_entry !! k.
Proof.
  refine (put_evicts_lru one_entry q2 reply2 0 cache2 true key2 one_entry_ok
            (cache_result_of put2 _ _ _) _ _); vm_compute; reflexivity.
Defined.

Lemma put_lifetime_witness :
  (0 < 300)%Z ∧ ((0 < maxTTL one_entry)%Z → (300 <= maxTTL one_entry)%Z) ∧
  (∀ rr, rr ∈ all_records reply2 → pseudo_record rr = false → (300 <= rr_ttl rr)%Z) ∧
  (∀ rr, rr ∈ all_records (clampResponseTTLs reply2 (maxTTL one_entry)).1 →
     pseudo_record rr = false → (rr_ttl rr <= 300)%Z) ∧
  (negative_answer reply2 = true → ∀ rr mn, rr ∈ Ns reply2 → Data rr = SOA mn → (300 <= mn)%Z) ∧
  (Rcode reply2 = RcodeSuccess ∨ Rcode reply2 = RcodeNameError) ∧
  Truncated reply2 = false ∧ is_tsig reply2 = false ∧ (msg_len reply2 <= maxDNSCacheMessageSize)%Z.
Proof.
  refine (put_lifetime one_entry q2 reply2 0 (Some cache2) true _ 300 reply2_range
            (cache_result_of put2 _ _ _) (result_of _ _ _)); vm_compute; reflexivity.
Defined.

Definition stale2 : Msg := map_sections (set_ttl 30) (ex_answer 9 "example.COM." 60 []).

Lemma stale_window_witness :
  ∃ m key e, GetStale (Some one_entry) (Some q) (at_s 100) = Some m ∧
    responseCacheKeyFor (Some q) = Some key ∧ entries one_entry !! key = Some e ∧
    (ttl e * second <= entry_age e (at_s 100) <= ttl e * second + DNSCacheStaleWindow)%Z ∧
    Id m = Id q ∧ ∀ rr, rr ∈ all_records m → rr_ttl rr = DNSCacheStaleTTL.
Proof.
  destruct (GetStale (Some one_entry) (Some q) (at_s 100)) as [m|] eqn:E.
  - destruct (stale_window one_entry q (at_s 100) m E) as (key & e & H).
    exists m, key, e. split; [reflexivity|exact H].
  - exfalso. revert E. vm_compute. discriminate.
Defined.

Definition begin2 : option ResponseCache * bool := BeginRefresh (Some one_entry) (Some q).
Definition claimed : ResponseCache := default empty_cache begin2.1.
Definition between : list cache_op := [OpGet (Some q) (at_s 1); OpBeginRefresh (Some q)].
Definition after_ops : option ResponseCache := foldl apply_op (Some claimed) between.

Lemma refresh_single_flight_witness :
  ∃ c2, after_ops = Some c2 ∧ (BeginRefresh (Some c2) (Some q)).2 = false.
Proof.
  assert (bool_decide (is_Some after_ops) = true) as Hsome by (vm_compute; reflexivity).
  destruct after_ops as [c2|] eqn:E; [|discriminate].
  - exists c2. split; [reflexivity|].
    refine (refresh_single_flight one_entry (Some q) claimed between c2
              (mkKey "example.com." TypeA 1 false false false true false) _
              (cache_result_of begin2 _ _ _) _ E); vm_compute; reflexivity.
Defined.
End Examples.
