(* ===== verification/Resolver.v ===== *)
(** * The DNS policy resolver: [internal/dns/resolver/resolver.go]

    [ResolveQuery] evaluates the policy on the question, answers from the cache
    or the upstream, validates the answer, and evaluates the policy again on
    every CNAME target before the answer is returned and stored.

    The policy service is an interface ([PolicyService]): a state-passing
    evaluation.  The upstream's reply, the clock readings and the packing of
    messages are inputs.  A background refresh is recorded in [pending] and run
    by [refresh_job]. *)

From Stdlib Require Import ZArith Lia Ascii String.
From S2P Require Import Prelude GoStr NetIP DnsMsg RespCache.

Definition BlockStrategySinkhole : string := "sinkhole".
Definition BlockStrategyNXDomain : string := "nxdomain".
Definition BlockStrategyRefused : string := "refused".
Definition BlockStrategyNullIP : string := "nullip".
Definition maxCNAMEPolicyChecks : Z := 8.
Definition DefaultMaxConcurrentQueries : Z := 256.

Record Config := mkConfig {
  BlockPageIP : string;
  BlockStrategy : string;
  DNSTTL : Z;
  MaxConcurrentQueries : Z;
  DNSCacheEntries : Z
}.

Record ClientInfo := mkClient { ClientIPAddr : string; ClientID : string }.

(** The promise of the decision pipeline to the resolver: an evaluation step
    over its own state, yielding the policy action ([Policy.Policy]). *)
Class PolicyService (S : Type) := {
  policy_eval : S → string → ClientInfo → S * string
}.

(** [New]: the empty strategy means sinkhole. *)
Definition New (cfg : Config) : Config * option ResponseCache :=
  let cfg := if String.eqb (BlockStrategy cfg) ""
             then mkConfig (BlockPageIP cfg) BlockStrategySinkhole (DNSTTL cfg)
                    (MaxConcurrentQueries cfg) (DNSCacheEntries cfg)
             else cfg in
  (cfg, NewResponseCache (DNSCacheEntries cfg)).

(** ** Blocked answers *)

Definition EffectiveBlockStrategy (cfg : Config) : string :=
  if String.eqb (BlockStrategy cfg) "" then BlockStrategySinkhole else BlockStrategy cfg.

Definition BlockIPv4 (cfg : Config) : IP :=
  if String.eqb (EffectiveBlockStrategy cfg) BlockStrategyNullIP then IPv4zero
  else match ParseIP (BlockPageIP cfg) with
       | Some parsed => match To4 parsed with Some v4 => v4 | None => IPv4zero end
       | None => IPv4zero
       end.

Definition BlockIPv6 (cfg : Config) : IP :=
  if String.eqb (EffectiveBlockStrategy cfg) BlockStrategyNullIP then IPv6zero
  else match ParseIP (BlockPageIP cfg) with
       | Some parsed => match To16 parsed with Some v6 => v6 | None => IPv6zero end
       | None => IPv6zero
       end.

(** The record appended for one question; a nil address is [continue]d over,
    and neither address function returns nil. *)
Definition block_rr (cfg : Config) (question : Question) : list RR :=
  if (Qtype question =? TypeA)%Z then
    [mkRR (mkHdr (QName question) TypeA (Qclass question) (DNSTTL cfg)) (RDA (BlockIPv4 cfg))]
  else if (Qtype question =? TypeAAAA)%Z then
    [mkRR (mkHdr (QName question) TypeAAAA (Qclass question) (DNSTTL cfg))
       (RDAAAA (BlockIPv6 cfg))]
  else [].

Definition set_flags (auth ra : bool) (m : Msg) : Msg :=
  mkMsg (Id m) (Response m) (Opcode m) auth (Truncated m) (RecursionDesired m)
    ra (AuthenticatedData m) (CheckingDisabled m) (Rcode m)
    (Questions m) (Answer m) (Ns m) (Extra m).
Definition set_rcode (rc : Z) (m : Msg) : Msg :=
  mkMsg (Id m) (Response m) (Opcode m) (Authoritative m) (Truncated m) (RecursionDesired m)
    (RecursionAvailable m) (AuthenticatedData m) (CheckingDisabled m) rc
    (Questions m) (Answer m) (Ns m) (Extra m).
Definition add_answers (rrs : list RR) (m : Msg) : Msg :=
  mkMsg (Id m) (Response m) (Opcode m) (Authoritative m) (Truncated m) (RecursionDesired m)
    (RecursionAvailable m) (AuthenticatedData m) (CheckingDisabled m) (Rcode m)
    (Questions m) (Answer m ++ rrs)%list (Ns m) (Extra m).

Section Resolver.
Context `{UnicodeTables, DnsLib}.

Definition BlockedDNSMessage (cfg : Config) (query : Msg) : Msg :=
  let response := set_flags true true (set_reply query) in
  if String.eqb (EffectiveBlockStrategy cfg) BlockStrategyNXDomain
  then set_rcode RcodeNameError response
  else if String.eqb (EffectiveBlockStrategy cfg) BlockStrategyRefused
  then set_rcode RcodeRefused response
  else foldl (λ m question, add_answers (block_rr cfg question) m) response (Questions query).

(** [None] is a nil error. *)
Definition validateUpstreamResponse (query : Msg) (response : option Msg) : option string :=
  match response with
  | None => Some "nil upstream response"
  | Some response =>
      if negb (Response response) then Some "upstream message is not a response"
      else if negb (Id response =? Id query)%Z then Some "upstream id does not match query id"
      else if (Opcode query =? OpcodeQuery)%Z && negb (Opcode response =? OpcodeQuery)%Z
      then Some "upstream opcode does not match query opcode"
      else
        match Questions response, Questions query with
        | [rq], [qq] =>
            if negb (EqualFold (QName rq) (QName qq))
            then Some "upstream question does not match query"
            else if negb (Qtype rq =? Qtype qq)%Z || negb (Qclass rq =? Qclass qq)%Z
            then Some "upstream question type or class does not match"
            else None
        | _, _ => Some "upstream question count does not match query count"
        end
  end.

(** ** State of a resolver *)

Context {S : Type} `{!PolicyService S}.

Record State := mkState {
  inflight : Z;
  cache : option ResponseCache;
  svc : S;
  counters : gmap string Z;
  pending : list Msg
}.

(** The inputs of one call: the clock at each cache operation and the reply
    of [Upstreams.Forward]. *)
Record Env := mkEnv {
  t_get : Z; t_should : Z; t_stale : Z; t_put : Z;
  upstream : result string
}.

Definition set_inflight (n : Z) (st : State) : State :=
  mkState n (cache st) (svc st) (counters st) (pending st).
Definition set_cache (c : option ResponseCache) (st : State) : State :=
  mkState (inflight st) c (svc st) (counters st) (pending st).
Definition set_svc (s : S) (st : State) : State :=
  mkState (inflight st) (cache st) s (counters st) (pending st).
Definition add_pending (q : Msg) (st : State) : State :=
  mkState (inflight st) (cache st) (svc st) (counters st) (q :: pending st).
Definition IncCounter (name : string) (st : State) : State :=
  mkState (inflight st) (cache st) (svc st)
    (<[name := (default 0 (counters st !! name) + 1)%Z]> (counters st)) (pending st).

Definition eval_policy (domain : string) (client : ClientInfo) (st : State) : State * string :=
  let '(s, p) := policy_eval (svc st) domain client in (set_svc s st, p).

(** ** Cache access *)

Definition storeCache (query response : Msg) (now : Z) (st : State) : State :=
  match cache st with
  | None => st
  | Some _ =>
      let '(c, (_, evicted)) := Put (cache st) (Some query) (Some response) now in
      let st := set_cache c st in
      if evicted then IncCounter "dns_cache_evictions_total" st else st
  end.

Definition maybeRefreshAhead (query : Msg) (now : Z) (st : State) : State :=
  if negb (ShouldRefresh (cache st) (Some query) now) then st
  else
    let '(c, owns) := BeginRefresh (cache st) (Some query) in
    let st := set_cache c st in
    if owns then add_pending query st else st.

(** The background goroutine: its slot is released on every path. *)
Definition refresh_job (query : Msg) (reply : result string) (now : Z) (st : State) : State :=
  let st :=
    match msg_pack query with
    | Err _ => st
    | Ok _ =>
        match reply with
        | Err _ => IncCounter "dns_cache_refresh_failures_total" st
        | Ok wire =>
            match msg_unpack wire with
            | Err _ => IncCounter "dns_cache_refresh_failures_total" st
            | Ok response =>
                match validateUpstreamResponse query (Some response) with
                | Some _ => IncCounter "dns_cache_refresh_failures_total" st
                | None =>
                    storeCache query response now (IncCounter "dns_cache_refreshes_total" st)
                end
            end
        end
    end in
  set_cache (EndRefresh (cache st) (Some query)) st.

Definition lookupCache (query : Msg) (env : Env) (st : State) : State * option Msg :=
  if negb (Cacheable (cache st) (Some query)) then (st, None)
  else
    let '(c, response) := Get (cache st) (Some query) (t_get env) in
    let st := set_cache c st in
    match response with
    | None => (IncCounter "dns_cache_misses_total" st, None)
    | Some response =>
        match validateUpstreamResponse query (Some response) with
        | Some _ =>
            (IncCounter "dns_cache_misses_total" (IncCounter "dns_cache_invalid_total" st), None)
        | None =>
            let st := IncCounter "dns_cache_hits_total" st in
            (maybeRefreshAhead query (t_should env) st, Some response)
        end
    end.

Definition lookupStale (query : Msg) (env : Env) (st : State) : State * option Msg :=
  match GetStale (cache st) (Some query) (t_stale env) with
  | None => (st, None)
  | Some stale =>
      match validateUpstreamResponse query (Some stale) with
      | Some _ => (IncCounter "dns_cache_invalid_total" st, None)
      | None => (IncCounter "dns_cache_stale_served_total" st, Some stale)
      end
  end.

(** ** CNAME uncloaking *)

Inductive uncloak_result := Clean | BlockedTarget | TooMany.

Fixpoint uncloak (rrs : list RR) (checked : Z) (client : ClientInfo) (st : State)
    : State * uncloak_result :=
  match rrs with
  | [] => (st, Clean)
  | answer :: rrs =>
      match Data answer with
      | CNAME target =>
          if String.eqb target "" then uncloak rrs checked client st
          else
            let checked := (checked + 1)%Z in
            if (maxCNAMEPolicyChecks <? checked)%Z then (st, TooMany)
            else
              let '(st, p) := eval_policy (TrimSuffix target ".") client st in
              if String.eqb p "block" then (st, BlockedTarget)
              else uncloak rrs checked client st
      | _ => uncloak rrs checked client st
      end
  end.

(** The end of [ResolveQuery]: uncloaking, then the store of a fresh answer. *)
Definition finish (cfg : Config) (query : Msg) (client : ClientInfo) (env : Env)
    (response : Msg) (cacheHit : bool) (st : State) : State * result Msg :=
  let '(st, u) := uncloak (all_records response) 0 client st in
  match u with
  | TooMany => (st, Err "cname policy check limit exceeded")
  | BlockedTarget => (st, Ok (BlockedDNSMessage cfg query))
  | Clean =>
      ((if cacheHit then st else storeCache query response (t_put env) st), Ok response)
  end.

(** A miss: the upstream is asked; when it fails, the stale cache. *)
Definition answer_upstream (cfg : Config) (query : Msg) (client : ClientInfo) (env : Env)
    (st : State) : State * result Msg :=
  match msg_pack query with
  | Err e => (st, Err e)
  | Ok _ =>
      match upstream env with
      | Err e =>
          let '(st, stale) := lookupStale query env st in
          match stale with
          | Some stale => (st, Ok stale)
          | None => (IncCounter "upstream_doh_failures_total" st, Err e)
          end
      | Ok responseWire =>
          match msg_unpack responseWire with
          | Err e => (st, Err e)
          | Ok response =>
              match validateUpstreamResponse query (Some response) with
              | Some e => (IncCounter "upstream_doh_mismatched_total" st, Err e)
              | None => finish cfg query client env response false st
              end
          end
      end
  end.

(** The body of [ResolveQuery] between the two updates of [inflight]. *)
Definition resolve_body (cfg : Config) (query : Msg) (client : ClientInfo) (env : Env)
    (st : State) : State * result Msg :=
  match Questions query with
  | [] => (IncCounter "malformed_dns_queries_total" st, Err "dns query has no question")
  | question :: _ =>
      let questionDomain := TrimSuffix (QName question) "." in
      let '(st, p) := eval_policy questionDomain client st in
      if String.eqb p "block" then (st, Ok (BlockedDNSMessage cfg query))
      else
        let '(st, hit) := lookupCache query env st in
        match hit with
        | Some response => finish cfg query client env response true st
        | None => answer_upstream cfg query client env st
        end
  end.

Definition effective_limit (cfg : Config) : Z :=
  if (MaxConcurrentQueries cfg <=? 0)%Z then DefaultMaxConcurrentQueries
  else MaxConcurrentQueries cfg.

Definition ResolveQuery (cfg : Config) (query : Msg) (client : ClientInfo) (env : Env)
    (st : State) : State * result Msg :=
  let st := set_inflight (inflight st + 1) st in
  if (effective_limit cfg <? inflight st)%Z
  then (set_inflight (inflight st - 1) st, Err "too many concurrent dns queries")
  else
    let '(st, r) := resolve_body cfg query client env st in
    (set_inflight (inflight st - 1) st, r).

(** *** One call among the others

    The cache, the counters and the policy service are shared by all calls, all
    refreshes and whatever changes the configuration; [ResolveQuery] holds no lock
    across them.  [call_step] is the code between two accesses of shared state: the
    admission, each policy evaluation, each method of the cache, the upstream
    request.  A counter is incremented with the access before it. *)
Inductive call_phase :=
  | CEnter | COver | CPolicy | CLookup
  | CShould (response : Msg) | CBegin (response : Msg)
  | CForward | CStale (err : string)
  | CUncloak (rrs : list RR) (checked : Z) (response : Msg) (cacheHit : bool)
  | CStore (response : Msg) | CReturn (r : result Msg) | CDone (r : result Msg).

(** The name of the question, as it is evaluated. *)
Definition questionDomain (query : Msg) : string :=
  match Questions query with [] => "" | question :: _ => TrimSuffix (QName question) "." end.

Definition call_step (cfg : Config) (query : Msg) (client : ClientInfo) (env : Env)
    (p : call_phase) (st : State) : call_phase * State :=
  match p with
  | CEnter =>
      let st := set_inflight (inflight st + 1) st in
      (if (effective_limit cfg <? inflight st)%Z then COver else CPolicy, st)
  | COver => (CDone (Err "too many concurrent dns queries"), set_inflight (inflight st - 1) st)
  | CPolicy =>
      match Questions query with
      | [] => (CReturn (Err "dns query has no question"),
               IncCounter "malformed_dns_queries_total" st)
      | _ :: _ =>
          let '(st, v) := eval_policy (questionDomain query) client st in
          (if String.eqb v "block" then CReturn (Ok (BlockedDNSMessage cfg query)) else CLookup, st)
      end
  | CLookup =>
      if negb (Cacheable (cache st) (Some query)) then (CForward, st)
      else
        let '(c, response) := Get (cache st) (Some query) (t_get env) in
        let st := set_cache c st in
        match response with
        | None => (CForward, IncCounter "dns_cache_misses_total" st)
        | Some response =>
            match validateUpstreamResponse query (Some response) with
            | Some _ =>
                (CForward, IncCounter "dns_cache_misses_total" (IncCounter "dns_cache_invalid_total" st))
            | None => (CShould response, IncCounter "dns_cache_hits_total" st)
            end
        end
  | CShould m =>
      (if ShouldRefresh (cache st) (Some query) (t_should env) then CBegin m
       else CUncloak (all_records m) 0 m true, st)
  | CBegin m =>
      let '(c, owns) := BeginRefresh (cache st) (Some query) in
      let st := set_cache c st in
      (CUncloak (all_records m) 0 m true, if owns then add_pending query st else st)
  | CForward =>
      match msg_pack query with
      | Err e => (CReturn (Err e), st)
      | Ok _ =>
          match upstream env with
          | Err e => (CStale e, st)
          | Ok responseWire =>
              match msg_unpack responseWire with
              | Err e => (CReturn (Err e), st)
              | Ok response =>
                  match validateUpstreamResponse query (Some response) with
                  | Some e => (CReturn (Err e), IncCounter "upstream_doh_mismatched_total" st)
                  | None => (CUncloak (all_records response) 0 response false, st)
                  end
              end
          end
      end
  | CStale e =>
      let '(st, stale) := lookupStale query env st in
      match stale with
      | Some stale => (CReturn (Ok stale), st)
      | None => (CReturn (Err e), IncCounter "upstream_doh_failures_total" st)
      end
  | CUncloak [] _ m cacheHit => (if cacheHit then CReturn (Ok m) else CStore m, st)
  | CUncloak (answer :: rrs) checked m cacheHit =>
      match Data answer with
      | CNAME target =>
          if String.eqb target "" then (CUncloak rrs checked m cacheHit, st)
          else if (maxCNAMEPolicyChecks <? checked + 1)%Z
          then (CReturn (Err "cname policy check limit exceeded"), st)
          else
            let '(st, v) := eval_policy (TrimSuffix target ".") client st in
            (if String.eqb v "block" then CReturn (Ok (BlockedDNSMessage cfg query))
             else CUncloak rrs (checked + 1) m cacheHit, st)
      | _ => (CUncloak rrs checked m cacheHit, st)
      end
  | CStore m => (CReturn (Ok m), storeCache query m (t_put env) st)
  | CReturn r => (CDone r, set_inflight (inflight st - 1) st)
  | CDone r => (CDone r, st)
  end.

(** The name a step has the policy evaluate. *)
Definition asked (query : Msg) (p : call_phase) : option string :=
  match p with
  | CPolicy => match Questions query with [] => None | _ :: _ => Some (questionDomain query) end
  | CUncloak (answer :: _) checked _ _ =>
      match Data answer with
      | CNAME target =>
          if String.eqb target "" || (maxCNAMEPolicyChecks <? checked + 1)%Z then None
          else Some (TrimSuffix target ".")
      | _ => None
      end
  | _ => None
  end.

(** A verdict as it was reached: the service at that moment, the name, the action. *)
Definition verdict_at (query : Msg) (client : ClientInfo) (p : call_phase) (st : State)
    : list (S * string * string) :=
  match asked query p with
  | Some d => [(svc st, d, (policy_eval (svc st) d client).2)]
  | None => []
  end.

(** The runs of one call: its own steps, and between any two of them whatever the
    others do to the shared state ([others]).  The list is that of its verdicts. *)
Inductive interleaved (others : State → State → Prop) (cfg : Config) (query : Msg)
    (client : ClientInfo) (env : Env) (st0 : State)
    : list (S * string * string) → call_phase → State → Prop :=
  | il_enter : interleaved others cfg query client env st0 [] CEnter st0
  | il_others l p st st' :
      interleaved others cfg query client env st0 l p st → others st st' →
      interleaved others cfg query client env st0 l p st'
  | il_call l p st :
      interleaved others cfg query client env st0 l p st →
      interleaved others cfg query client env st0 (l ++ verdict_at query client p st)%list
        (call_step cfg query client env p st).1 (call_step cfg query client env p st).2.

(** *** The in-flight counter

    [inflight] is atomic and shared by all goroutines: each call of
    [ResolveQuery] adds one, compares the result with the limit, and subtracts
    one on return. *)
Inductive phase := Start | InBody | OverLimit | Finished.

Definition enter (limit n : Z) : Z * phase :=
  let n := (n + 1)%Z in if (limit <? n)%Z then (n, OverLimit) else (n, InBody).

(** One atomic step of thread [i]. *)
Definition thread_step (limit : Z) (w : Z * list phase) (i : nat) : Z * list phase :=
  let '(n, ts) := w in
  match ts !! i with
  | Some Start => let '(n, p) := enter limit n in (n, <[i:=p]> ts)
  | Some InBody | Some OverLimit => ((n - 1)%Z, <[i:=Finished]> ts)
  | Some Finished | None => (n, ts)
  end.
Definition run_threads (limit : Z) (threads : nat) (schedule : list nat) : Z * list phase :=
  foldl (thread_step limit) (0%Z, replicate threads Start) schedule.

(** [SendServfail]: [SetRcode] is [SetReply] with the code replaced. *)
Definition SendServfail (req : Msg) : Msg :=
  set_flags false true (set_rcode RcodeServerFailure (set_reply req)).
End Resolver.
Arguments State S : clear implicits.
