(* ===== verification/ResolverSpec.v ===== *)
(** * Properties of the DNS policy resolver

    Every answer that reaches a client was vetted, whatever other calls do meanwhile:
    its question and all its CNAME targets were evaluated by the policy, whether it
    came from the upstream or from the cache.  The exception is a stale copy, whose
    targets are not evaluated; a call that runs alone never serves one.  A blocked question is answered by the block strategy alone.  The
    refresh slots, the in-flight counter and the cache stay consistent under any
    interleaving of queries and background refreshes. *)

From Stdlib Require Import ZArith Lia Ascii String.
From S2P Require Import Prelude GoStr NetIP DnsMsg RespCache RespCacheSpec Resolver.

(** ** Addresses of the block page *)

Lemma mask_v4_len : length v4InV6Prefix = 12. Proof. done. Qed.

Lemma To4_length ip q : To4 ip = Some q → length q = 4.
Proof.
  unfold To4. destruct (Nat.eqb_spec (length ip) 4); [by intros [= <-]|].
  destruct (Nat.eqb_spec (length ip) 16) as [Hl|]; cbn [andb]; [|done].
  case_match; [|done]. intros [= <-]. rewrite length_drop. lia.
Qed.
Lemma To16_length ip q : To16 ip = Some q → length q = 16.
Proof.
  unfold To16. destruct (Nat.eqb_spec (length ip) 4) as [Hl|].
  - intros [= <-]. cbn. lia.
  - destruct (Nat.eqb_spec (length ip) 16); [by intros [= <-]|done].
Qed.
Lemma To4_idem ip : length ip = 4 → To4 ip = Some ip.
Proof. unfold To4. by intros ->. Qed.

(** An A record of a blocked answer carries four address bytes in every configuration. *)
Lemma BlockIPv4_valid cfg : ∃ q, To4 (BlockIPv4 cfg) = Some q ∧ length q = 4.
Proof.
  assert (∃ q, To4 IPv4zero = Some q ∧ length q = 4) as Hz by (by eexists).
  unfold BlockIPv4. destruct (String.eqb _ _); [done|].
  destruct (ParseIP _) as [p|]; [|done]. destruct (To4 p) as [q|] eqn:E; [|done].
  apply To4_length in E. exists q. split; [by apply To4_idem|done].
Qed.
Lemma BlockIPv6_valid cfg : length (BlockIPv6 cfg) = 16.
Proof.
  unfold BlockIPv6. destruct (String.eqb _ _); [done|].
  destruct (ParseIP _) as [p|]; [|done]. destruct (To16 p) as [q|] eqn:E; [|done].
  by apply To16_length in E.
Qed.

(** ** Blocked answers *)

Section Blocked.
Context `{UnicodeTables, DnsLib, !DnsLaws}.

Lemma add_block_rrs cfg qs m :
  foldl (λ m question, add_answers (block_rr cfg question) m) m qs =
  add_answers (concat (block_rr cfg <$> qs)) m.
Proof.
  revert m. induction qs as [|q qs IH]; intros m.
  - unfold add_answers. cbn. rewrite app_nil_r. by destruct m.
  - cbn [foldl]. rewrite IH. unfold add_answers. cbn. by rewrite (assoc_L app).
Qed.

(** A blocked question is never answered NOERROR/NODATA: with the sinkhole and null-IP
    strategies every A question gets one four-byte address and every AAAA question
    one sixteen-byte address of the question's name with the configured TTL,
    whatever the configured block page is; the other strategies return NXDOMAIN or
    REFUSED with no record.  Identifier and question are echoed. *)
Theorem blocked_answer cfg query :
  let m := BlockedDNSMessage cfg query in
  Id m = Id query ∧ Response m = true ∧ Questions m = take 1 (Questions query) ∧
  Authoritative m = true ∧ Ns m = [] ∧ Extra m = [] ∧
  if decide (EffectiveBlockStrategy cfg = BlockStrategyNXDomain)
  then Rcode m = RcodeNameError ∧ Answer m = []
  else if decide (EffectiveBlockStrategy cfg = BlockStrategyRefused)
  then Rcode m = RcodeRefused ∧ Answer m = []
  else ∀ q, q ∈ Questions query →
    (Qtype q = TypeA → ∃ ip v4,
       mkRR (mkHdr (QName q) TypeA (Qclass q) (DNSTTL cfg)) (RDA ip) ∈ Answer m ∧
       To4 ip = Some v4 ∧ length v4 = 4) ∧
    (Qtype q = TypeAAAA → ∃ ip,
       mkRR (mkHdr (QName q) TypeAAAA (Qclass q) (DNSTTL cfg)) (RDAAAA ip) ∈ Answer m ∧
       length ip = 16).
Proof.
  intros m. unfold m, BlockedDNSMessage. rewrite add_block_rrs.
  destruct (set_reply_empty query) as (Ha & Hn & He).
  pose proof (set_reply_id query). pose proof (set_reply_response query).
  pose proof (set_reply_questions query).
  destruct (decide (EffectiveBlockStrategy cfg = BlockStrategyNXDomain)) as [->|Hnx].
  { rewrite String.eqb_refl. cbn. split_and!; done. }
  destruct (String.eqb_spec (EffectiveBlockStrategy cfg) BlockStrategyNXDomain); [done|].
  destruct (decide (EffectiveBlockStrategy cfg = BlockStrategyRefused)) as [->|Hrf].
  { rewrite String.eqb_refl. cbn. split_and!; done. }
  destruct (String.eqb_spec (EffectiveBlockStrategy cfg) BlockStrategyRefused); [done|].
  cbn. split_and!; try done. rewrite Ha. cbn [app]. intros q Hq. split; intros Ht.
  - destruct (BlockIPv4_valid cfg) as (v4 & E & Hl). exists (BlockIPv4 cfg), v4.
    split; [|done]. apply elem_of_concat. exists (block_rr cfg q).
    split; [apply list_elem_of_fmap; eauto|]. unfold block_rr. rewrite Ht. by left.
  - exists (BlockIPv6 cfg). split; [|apply BlockIPv6_valid].
    apply elem_of_concat. exists (block_rr cfg q).
    split; [apply list_elem_of_fmap; eauto|]. unfold block_rr. rewrite Ht. by left.
Qed.
End Blocked.

(** ** Validation of replies *)

Section Validation.
Context `{UnicodeTables}.

Lemma validate_spec query m :
  validateUpstreamResponse query (Some m) = None ↔
  Response m = true ∧ Id m = Id query ∧
  (Opcode query = OpcodeQuery → Opcode m = OpcodeQuery) ∧
  ∃ rq qq, Questions m = [rq] ∧ Questions query = [qq] ∧
    EqualFold (QName rq) (QName qq) = true ∧ Qtype rq = Qtype qq ∧ Qclass rq = Qclass qq.
Proof.
  unfold validateUpstreamResponse. split.
  - intros Hv. destruct (Response m) eqn:Er; cbn [negb] in Hv; [|done].
    destruct (Z.eqb_spec (Id m) (Id query)); cbn [negb] in Hv; [|done].
    destruct ((Opcode query =? OpcodeQuery)%Z && _) eqn:Eo; [done|].
    destruct (Questions m) as [|rq [|]]; try done. destruct (Questions query) as [|qq [|]]; try done.
    destruct (EqualFold _ _) eqn:Ef; cbn [negb] in Hv; [|done].
    destruct (negb (Qtype rq =? Qtype qq)%Z || _) eqn:Et; [done|]. bool_simpl.
    split_and!; try done; [|by eexists _, _].
    intros Hq. rewrite Hq, Z.eqb_refl in Eo. cbn in Eo. by bool_simpl.
  - intros (-> & -> & Ho & rq & qq & -> & -> & Hf & Ht & Hc). rewrite Z.eqb_refl. cbn.
    destruct (Z.eqb_spec (Opcode query) OpcodeQuery) as [E|].
    + rewrite (Ho E), Hf, Ht, Hc, !Z.eqb_refl. done.
    + cbn. by rewrite Hf, Ht, Hc, !Z.eqb_refl.
Qed.

(** Two replies that agree on the checked fields validate alike. *)
Lemma validate_ext query m m' :
  Response m = Response m' → Id m = Id m' → Opcode m = Opcode m' → Questions m = Questions m' →
  validateUpstreamResponse query (Some m) = validateUpstreamResponse query (Some m').
Proof. unfold validateUpstreamResponse. by intros -> -> -> ->. Qed.
End Validation.

(** ** Policy evaluation of an answer *)

(** The names [ResolveQuery] evaluates for an answer: every non-empty CNAME target of
    every section, in order. *)
Definition cname_target (rr : RR) : list string :=
  match Data rr with
  | CNAME t => if String.eqb t "" then [] else [TrimSuffix t "."]
  | _ => []
  end.
Definition cname_targets (m : Msg) : list string :=
  concat (cname_target <$> all_records m).

Section Vetting.
Context `{UnicodeTables, DnsLib} {S : Type} `{!PolicyService S}.
Implicit Types (st : State S) (c : ClientInfo).

(** [evaluates c s ds s']: evaluating the names [ds] in order takes the policy service from [s] to [s'],
    and no verdict is a block. *)
Inductive evaluates c : S → list string → S → Prop :=
  | evaluates_nil s : evaluates c s [] s
  | evaluates_cons s d p s1 ds s2 :
      policy_eval s d c = (s1, p) → p ≠ "block" →
      evaluates c s1 ds s2 → evaluates c s (d :: ds) s2.

(** [blocks c s ds s']: the last of the names [ds] is blocked, the ones before are not. *)
Definition blocks c (s : S) (ds : list string) (s' : S) : Prop :=
  ∃ ds' d s1, ds = (ds' ++ [d])%list ∧ evaluates c s ds' s1 ∧
    policy_eval s1 d c = (s', "block").

Lemma evaluates_snoc c s ds s1 d s2 p :
  evaluates c s ds s1 → policy_eval s1 d c = (s2, p) → p ≠ "block" →
  evaluates c s (ds ++ [d])%list s2.
Proof.
  induction 1; intros Hd Hp; cbn; econstructor; eauto. constructor.
Qed.

(** What the uncloaking walk leaves alone. *)
Definition same_store st st' : Prop :=
  inflight st' = inflight st ∧ cache st' = cache st ∧
  counters st' = counters st ∧ pending st' = pending st.

Lemma eval_policy_spec d c st st1 p :
  eval_policy d c st = (st1, p) → policy_eval (svc st) d c = (svc st1, p) ∧ same_store st st1.
Proof.
  unfold eval_policy. destruct (policy_eval _ _ _) eqn:E. by intros [= <- <-].
Qed.

(** The outcome of a walk over the targets [ts] with [checked] of them done before: clean
    means all were evaluated and allowed within the bound, blocked means the walk
    stopped at the first blocked one. *)
Definition walk_outcome c (ts : list string) (checked : Z) st st' (u : uncloak_result) : Prop :=
  match u with
  | Clean =>
      evaluates c (svc st) ts (svc st') ∧
      (checked + Z.of_nat (length ts) <= maxCNAMEPolicyChecks)%Z
  | BlockedTarget => ∃ ds rest, ts = (ds ++ rest)%list ∧ blocks c (svc st) ds (svc st')
  | TooMany => (maxCNAMEPolicyChecks < checked + Z.of_nat (length ts))%Z
  end.

Lemma uncloak_step rr rrs checked c st :
  uncloak (rr :: rrs) checked c st =
  match cname_target rr with
  | [] => uncloak rrs checked c st
  | d :: _ =>
      if (maxCNAMEPolicyChecks <? checked + 1)%Z then (st, TooMany)
      else let '(st, p) := eval_policy d c st in
           if String.eqb p "block" then (st, BlockedTarget) else uncloak rrs (checked + 1) c st
  end.
Proof. unfold cname_target. cbn. destruct (Data rr); try done. by destruct (String.eqb _ _). Qed.

Lemma cname_target_single rr d ds : cname_target rr = d :: ds → ds = [].
Proof. unfold cname_target. destruct (Data rr); try done. case_match; [done|]. by intros [= _ <-]. Qed.

Lemma uncloak_spec rrs checked c st st' u :
  uncloak rrs checked c st = (st', u) → (checked <= maxCNAMEPolicyChecks)%Z →
  same_store st st' ∧ walk_outcome c (concat (cname_target <$> rrs)) checked st st' u.
Proof.
  revert checked st. induction rrs as [|rr rrs IH]; intros checked st.
  { cbn. intros [= <- <-] Hle. split; [done|]. split; [constructor|cbn; lia]. }
  rewrite uncloak_step. cbn [fmap list_fmap concat].
  destruct (cname_target rr) as [|d ds] eqn:Et; [by apply IH|].
  apply cname_target_single in Et as ->. cbn [app]. set (ts := concat _) in *.
  destruct (Z.ltb_spec maxCNAMEPolicyChecks (checked + 1)) as [Hbig|Hfit].
  { intros [= <- <-] _. split; [done|]. cbn. lia. }
  destruct (eval_policy d c st) as [st1 p] eqn:Ep.
  apply eval_policy_spec in Ep as [Ep (S1 & S2 & S3 & S4)].
  destruct (String.eqb_spec p "block") as [->|Hp].
  { intros [= <- <-] _. split; [done|]. exists [d], ts. split; [done|].
    exists [], d, (svc st). split; [done|]. split; [constructor|done]. }
  intros Hu Hle. destruct (IH _ _ Hu Hfit) as [(T1 & T2 & T3 & T4) Hcase].
  split; [unfold same_store; split_and!; congruence|]. destruct u; cbn in *.
  - destruct Hcase as [Hev Hlen]. split; [by econstructor|]. lia.
  - destruct Hcase as (ds & rest & -> & ds' & d' & s1 & -> & Hev & Hb).
    exists (d :: ds' ++ [d'])%list, rest. split; [done|].
    exists (d :: ds')%list, d', s1. split_and!; [done|by econstructor|done].
  - lia.
Qed.
End Vetting.

(** ** The cache as the resolver uses it *)

Definition stale_counter : string := "dns_cache_stale_served_total".

Section Answers.
Context `{UnicodeTables, DnsLib} {S : Type} `{!PolicyService S}.
Implicit Types (st : State S) (c : ClientInfo).

(** Steps that do not touch the policy service, the in-flight counter or the count of
    stale answers. *)
Definition quiet st st' : Prop :=
  svc st' = svc st ∧ inflight st' = inflight st ∧
  counters st' !! stale_counter = counters st !! stale_counter.

Lemma quiet_refl st : quiet st st. Proof. done. Qed.
Lemma quiet_trans st1 st2 st3 : quiet st1 st2 → quiet st2 st3 → quiet st1 st3.
Proof. unfold quiet. intuition congruence. Qed.
Lemma quiet_counter name st : name ≠ stale_counter → quiet st (IncCounter name st).
Proof. intros Hn. unfold quiet. cbn. split_and!; try done. by rewrite lookup_insert_ne. Qed.
Lemma quiet_cache ca st : quiet st (set_cache ca st). Proof. done. Qed.

Lemma storeCache_quiet q r now st : quiet st (storeCache q r now st).
Proof.
  unfold storeCache. destruct (cache st); [|done].
  destruct (Put _ _ _ _) as [ca [? []]]; [|apply quiet_cache].
  eapply quiet_trans; [apply quiet_cache|]. by apply quiet_counter.
Qed.

Lemma maybeRefreshAhead_quiet q now st : quiet st (maybeRefreshAhead q now st).
Proof.
  unfold maybeRefreshAhead. destruct (negb _); [done|].
  destruct (BeginRefresh _ _) as [ca []]; done.
Qed.

Lemma personalize_checked q m :
  Response (personalize q m) = Response m ∧ Opcode (personalize q m) = Opcode m.
Proof. unfold personalize. by destruct (Questions m), (Questions q). Qed.

(** A cached entry fails validation as a stale answer exactly when it fails as a hit. *)
Lemma stale_validates_as_hit q e e' age :
  message e' = message e →
  validateUpstreamResponse q (Some (stale_response q e')) =
  validateUpstreamResponse q (Some (hit_response q e age)).
Proof. intros Hm. apply validate_ext; unfold stale_response, hit_response; by rewrite Hm. Qed.

Lemma lookupCache_spec q env st st' r :
  lookupCache q env st = (st', r) →
  quiet st st' ∧
  match r with
  | Some m => validateUpstreamResponse q (Some m) = None ∧
      (Get (cache st) (Some q) (t_get env)).2 = Some m
  | None => ∀ now m, GetStale (cache st') (Some q) now = Some m →
      validateUpstreamResponse q (Some m) ≠ None
  end.
Proof.
  unfold lookupCache. destruct (Cacheable (cache st) (Some q)) eqn:Ec; cbn [negb].
  2: { intros [= <- <-]. split; [done|]. intros now m. unfold GetStale, Cacheable in *.
       destruct (cache st) as [ca|]; [|done].
       destruct (Z.leb_spec (maxEntries ca) 0); [done|].
       destruct (Z.ltb_spec 0 (maxEntries ca)); [|lia]. cbn [andb] in Ec.
       by destruct (responseCacheKeyFor (Some q)). }
  destruct (Get (cache st) (Some q) (t_get env)) as [ca' [resp|]] eqn:Eg.
  2: { intros [= <- <-]. split.
       { by apply (quiet_counter "dns_cache_misses_total" (set_cache ca' st)). }
       cbn. intros now m.
       by rewrite (no_stale_after_miss _ _ _ _ now Eg). }
  destruct (validateUpstreamResponse q (Some resp)) as [err|] eqn:Ev.
  - intros [= <- <-]. split.
    { eapply quiet_trans; [|by apply quiet_counter]. by apply (quiet_counter "dns_cache_invalid_total" (set_cache ca' st)). }
    intros now m Hs. unfold Get in Eg. destruct (cache st) as [ca|]; [|done].
    unfold GetStale in Hs.
    destruct (maxEntries ca <=? 0)%Z; [done|].
    destruct (responseCacheKeyFor (Some q)) as [key|] eqn:Ekey; [|done].
    destruct (entries ca !! key) as [e|] eqn:Ek; [|done]. cbv zeta in Eg.
    destruct (_ <=? _)%Z; [done|]. injection Eg as <- <-. cbn in Hs.
    rewrite ?Ekey in Hs.
    destruct (maxEntries ca <=? 0)%Z; [done|].
    rewrite lookup_insert_eq in Hs. cbv zeta in Hs.
    destruct (_ || _); [done|]. injection Hs as <-.
    set (e' := mkEntry _ _ _ _).
    by rewrite (stale_validates_as_hit q e e' (entry_age e (t_get env)) eq_refl), Ev.
  - intros [= <- <-]. split; [|done].
    eapply quiet_trans; [|apply maybeRefreshAhead_quiet].
    by apply (quiet_counter "dns_cache_hits_total" (set_cache ca' st)).
Qed.

Lemma lookupStale_none q env st :
  (∀ now m, GetStale (cache st) (Some q) now = Some m →
     validateUpstreamResponse q (Some m) ≠ None) →
  ∃ st', lookupStale q env st = (st', None) ∧ quiet st st'.
Proof.
  intros Hn. unfold lookupStale. destruct (GetStale _ _ _) as [m|] eqn:E; [|by eexists].
  destruct (validateUpstreamResponse q (Some m)) eqn:Ev; [|by destruct (Hn _ _ E)].
  eexists. split; [done|]. by apply quiet_counter.
Qed.

(** ** What a query returns *)

(** The answer [m] was checked: its question and all its targets allowed. *)
Definition vetted c s d q m s' : Prop :=
  evaluates c s (d :: cname_targets m) s' ∧
  (Z.of_nat (length (cname_targets m)) <= maxCNAMEPolicyChecks)%Z ∧
  validateUpstreamResponse q (Some m) = None.

Definition body_outcome cfg q c env st st' (r : result Msg) : Prop :=
  match Questions q with
  | [] => r = Err "dns query has no question"
  | q0 :: _ =>
      let d := TrimSuffix (QName q0) "." in
      match r with
      | Ok m =>
          (m = BlockedDNSMessage cfg q ∧ ∃ ds, blocks c (svc st) (d :: ds) (svc st')) ∨
          (vetted c (svc st) d q m (svc st') ∧
           ((Get (cache st) (Some q) (t_get env)).2 = Some m ∨
            ∃ wire, upstream env = Ok wire ∧ msg_unpack wire = Ok m))
      | Err _ => True
      end
  end.

Lemma same_store_quiet st st' : same_store st st' →
  inflight st' = inflight st ∧ counters st' !! stale_counter = counters st !! stale_counter.
Proof. unfold same_store. intuition congruence. Qed.

Lemma resolve_body_spec cfg q c env st st' r :
  resolve_body cfg q c env st = (st', r) →
  inflight st' = inflight st ∧
  counters st' !! stale_counter = counters st !! stale_counter ∧
  body_outcome cfg q c env st st' r.
Proof.
  unfold resolve_body, answer_upstream, body_outcome. destruct (Questions q) as [|q0 qs] eqn:Eq.
  { intros [= <- <-]. split_and!; try done. cbn. by rewrite lookup_insert_ne. }
  cbv zeta. set (d := TrimSuffix (QName q0) ".").
  destruct (eval_policy d c st) as [st1 p] eqn:Ep. apply eval_policy_spec in Ep as [Ep Hs1].
  destruct (same_store_quiet _ _ Hs1) as [Hi1 Hc1]. destruct Hs1 as (_ & Hca1 & _ & _).
  destruct (String.eqb_spec p "block") as [->|Hp].
  { intros [= <- <-]. split_and!; try done. left. split; [done|]. exists [].
    exists [], d, (svc st). split_and!; [done|constructor|done]. }
  assert (∀ m hit st2, quiet st1 st2 → finish cfg q c env m hit st2 = (st', r) →
    inflight st' = inflight st1 ∧
    counters st' !! stale_counter = counters st1 !! stale_counter ∧
    match r with
    | Ok m' =>
        (m' = BlockedDNSMessage cfg q ∧ ∃ ds, blocks c (svc st) (d :: ds) (svc st')) ∨
        (m' = m ∧ evaluates c (svc st) (d :: cname_targets m) (svc st') ∧
         (Z.of_nat (length (cname_targets m)) <= maxCNAMEPolicyChecks)%Z)
    | Err _ => True
    end) as Hfin.
  { intros m hit st2 (Hq1 & Hq2 & Hq3). unfold finish.
    destruct (uncloak (all_records m) 0 c st2) as [st3 u] eqn:Eu.
    apply uncloak_spec in Eu as [Hss Hw]; [|done].
    destruct (same_store_quiet _ _ Hss) as [Hi3 Hc3].
    destruct u.
    - intros [= <- <-]. cbn in Hw. rewrite Hq1 in Hw. destruct Hw as [Hev Hlen].
      assert (quiet st3 (if hit then st3 else storeCache q m (t_put env) st3)) as (K1 & K2 & K3)
        by (destruct hit; [done|apply storeCache_quiet]).
      split_and!; [congruence..|]. right. split_and!; [done| |by rewrite Z.add_0_l in Hlen].
      rewrite K1. by econstructor.
    - intros [= <- <-]. split_and!; [congruence..|]. left. split; [done|].
      cbn in Hw. rewrite Hq1 in Hw. destruct Hw as (ds & rest & _ & ds' & d' & s1 & -> & Hev & Hb).
      exists (ds' ++ [d'])%list, (d :: ds')%list, d', s1. split_and!; [done|by econstructor|done].
    - intros [= <- <-]. split_and!; [congruence..|done]. }
  destruct (lookupCache q env st1) as [st2 hit] eqn:El.
  apply lookupCache_spec in El as [Hq Hhit]. destruct hit as [m|].
  - intros Hf. destruct (Hfin _ _ _ Hq Hf) as (H1 & H2 & H3).
    split_and!; [congruence..|]. destruct r as [m'|]; [|done].
    destruct H3 as [H3|(-> & Hev & Hlen)]; [by left|right]. destruct Hhit as [Hv Hg].
    rewrite Hca1 in Hg. split; [done|by left].
  - destruct (msg_pack q) as [w|].
    2: { intros [= <- <-]. destruct Hq as (? & ? & ?). split_and!; [congruence..|done]. }
    destruct (upstream env) as [wire|err].
    2: { destruct (lookupStale_none q env st2 Hhit) as (st3 & -> & Hq3). intros [= <- <-].
         destruct (quiet_trans _ _ _ Hq Hq3) as (? & ? & ?). cbn.
         rewrite lookup_insert_ne by done. split_and!; [congruence..|done]. }
    destruct (msg_unpack wire) as [m|] eqn:Eu.
    2: { intros [= <- <-]. destruct Hq as (? & ? & ?). split_and!; [congruence..|done]. }
    destruct (validateUpstreamResponse q (Some m)) as [e|] eqn:Ev.
    { intros [= <- <-]. destruct Hq as (? & ? & ?). cbn.
      rewrite lookup_insert_ne by done. split_and!; [congruence..|done]. }
    intros Hf. destruct (Hfin _ _ _ Hq Hf) as (H1 & H2 & H3).
    split_and!; [congruence..|]. destruct r as [m'|]; [|done].
    destruct H3 as [H3|(-> & Hev & Hlen)]; [by left|right]. split; [done|right; eauto].
Qed.

Lemma ResolveQuery_split cfg q c env st :
  ResolveQuery cfg q c env st =
  if (effective_limit cfg <? inflight st + 1)%Z
  then (set_inflight (inflight st + 1 - 1) (set_inflight (inflight st + 1) st),
        Err "too many concurrent dns queries")
  else let '(st', r) := resolve_body cfg q c env (set_inflight (inflight st + 1) st) in
       (set_inflight (inflight st' - 1) st', r).
Proof. done. Qed.

Lemma resolve_outcome cfg q c env st st' m :
  ResolveQuery cfg q c env st = (st', Ok m) → body_outcome cfg q c env st st' (Ok m).
Proof.
  rewrite ResolveQuery_split. destruct (_ <? _)%Z; [done|].
  destruct (resolve_body _ _ _ _ _) as [st1 r] eqn:E. intros [= <- ->].
  by apply resolve_body_spec in E as (_ & _ & Hb).
Qed.

(** A call that runs alone never serves a stale answer: the lookup that precedes the
    upstream request either deletes the expired entry or has rejected it, so
    [ResolveQuery] never counts a stale answer, and when the upstream fails the only
    answers are blocked messages and unexpired cache hits. *)
Theorem serve_stale_unreachable cfg q c env st st' r :
  ResolveQuery cfg q c env st = (st', r) →
  counters st' !! stale_counter = counters st !! stale_counter ∧
  ∀ e m, upstream env = Err e → r = Ok m →
    m = BlockedDNSMessage cfg q ∨ (Get (cache st) (Some q) (t_get env)).2 = Some m.
Proof.
  rewrite ResolveQuery_split. destruct (_ <? _)%Z; [by intros [= <- <-]|].
  destruct (resolve_body _ _ _ _ _) as [st1 r1] eqn:E. intros [= <- ->].
  apply resolve_body_spec in E as (_ & Hc & Hb). split; [done|].
  intros e m Hu ->. unfold body_outcome, vetted in Hb. cbn in Hb.
  destruct (Questions q) as [|q0 qs]; [done|].
  destruct Hb as [(? & _)|(_ & [?|(w & ? & _)])]; [by left|by right|congruence].
Qed.

(** A blocked question is answered by the block strategy alone: neither the cache nor the
    upstream is consulted or changed, whatever they hold. *)
Theorem blocked_question cfg q c env st q0 qs s1 :
  Questions q = q0 :: qs →
  policy_eval (svc st) (TrimSuffix (QName q0) ".") c = (s1, "block") →
  (inflight st < effective_limit cfg)%Z →
  ResolveQuery cfg q c env st = (set_svc s1 st, Ok (BlockedDNSMessage cfg q)).
Proof.
  intros Hq Hp Hl. rewrite ResolveQuery_split.
  destruct (Z.ltb_spec (effective_limit cfg) (inflight st + 1)); [lia|].
  unfold resolve_body. rewrite Hq. unfold eval_policy. cbn. rewrite Hp. cbn.
  unfold set_svc, set_inflight. cbn. do 2 f_equal. lia.
Qed.

Lemma ResolveQuery_inflight cfg q c env st :
  inflight (ResolveQuery cfg q c env st).1 = inflight st.
Proof.
  rewrite ResolveQuery_split. destruct (_ <? _)%Z; [cbn; lia|].
  destruct (resolve_body _ _ _ _ _) as [st1 r] eqn:E.
  apply resolve_body_spec in E as (Hi & _). cbn in *. lia.
Qed.
End Answers.

(** ** A call among the others *)

Section Interleaved.
Context `{UnicodeTables, DnsLib} {S : Type} `{!PolicyService S}.
Implicit Types (st : State S) (c : ClientInfo) (l : list (S * string * string)).

Definition names l : list string := (λ '(_, d, _), d) <$> l.
(** No verdict of the list is a block. *)
Definition passed l : Prop := Forall (λ '(_, _, v), v ≠ "block") l.
(** The verdicts are the policy's own, of the moments they were reached. *)
Definition truthful c l : Prop := Forall (λ '(s, d, v), (policy_eval s d c).2 = v) l.

(** No stale answer to the query can be served from the cache as it is. *)
Definition no_stale q st : Prop :=
  ∀ now m, GetStale (cache st) (Some q) now = Some m → validateUpstreamResponse q (Some m) ≠ None.

Section Call.
Variables (others : State S → State S → Prop) (cfg : Config) (q : Msg) (c : ClientInfo) (env : Env)
  (st0 : State S).
#[local] Notation run := (interleaved others cfg q c env st0).
#[local] Notation step := (call_step cfg q c env).

(** Where an answer comes from: the cache as this call looked it up, or the upstream. *)
Definition hit_source m : Prop := ∃ l st, run l CLookup st ∧
  (Get (cache st) (Some q) (t_get env)).2 = Some m.
Definition reply_source m : Prop := ∃ wire, upstream env = Ok wire ∧ msg_unpack wire = Ok m.
(** The lookup of this call left nothing that could be served stale; what the state is
    now, it became through the others. *)
Definition missed st : Prop := ∃ l st1, run l CLookup st1 ∧
  no_stale q (step CLookup st1).2 ∧ rtc others (step CLookup st1).2 st.
(** A stale copy: the upstream failed, this call had found nothing to serve, and since then
    the others have put the entry there. *)
Definition stale_source m : Prop := ∃ e l st, upstream env = Err e ∧ run l (CStale e) st ∧
  missed st ∧ GetStale (cache st) (Some q) (t_stale env) = Some m.

(** The question and every target of the answer was evaluated, none blocked. *)
Definition fully_vetted l m : Prop :=
  names l = questionDomain q :: cname_targets m ∧ passed l ∧
  (Z.of_nat (length (cname_targets m)) <= maxCNAMEPolicyChecks)%Z ∧
  validateUpstreamResponse q (Some m) = None ∧ (hit_source m ∨ reply_source m).
(** The last verdict is a block, the ones before are not, the first is that on the question. *)
Definition was_blocked l : Prop := ∃ l' s d, l = (l' ++ [(s, d, "block")])%list ∧ passed l' ∧
  head (names l) = Some (questionDomain q).
Definition stale_answer l m : Prop :=
  names l = [questionDomain q] ∧ passed l ∧ validateUpstreamResponse q (Some m) = None ∧ stale_source m.

Definition call_outcome l (r : result Msg) : Prop :=
  match r with
  | Ok m => Questions q ≠ [] ∧
      ((m = BlockedDNSMessage cfg q ∧ was_blocked l) ∨ fully_vetted l m ∨ stale_answer l m)
  | Err _ => True
  end.

(** What holds between two steps. *)
Definition question_passed l : Prop :=
  Questions q ≠ [] ∧ names l = [questionDomain q] ∧ passed l.
Definition call_inv l (p : call_phase) st : Prop :=
  match p with
  | CEnter | COver | CPolicy => l = []
  | CLookup => question_passed l
  | CShould m | CBegin m =>
      question_passed l ∧ validateUpstreamResponse q (Some m) = None ∧ hit_source m
  | CForward => question_passed l ∧ missed st
  | CStale e => question_passed l ∧ missed st ∧ upstream env = Err e
  | CUncloak rrs checked m _ => Questions q ≠ [] ∧ passed l ∧
      validateUpstreamResponse q (Some m) = None ∧ (hit_source m ∨ reply_source m) ∧
      ∃ before, all_records m = (before ++ rrs)%list ∧
        names l = questionDomain q :: concat (cname_target <$> before) ∧
        checked = Z.of_nat (length (concat (cname_target <$> before))) ∧
        (checked <= maxCNAMEPolicyChecks)%Z
  | CStore m => Questions q ≠ [] ∧ fully_vetted l m
  | CReturn r | CDone r => call_outcome l r
  end.

Lemma missed_others st st' : missed st → others st st' → missed st'.
Proof.
  intros (l & st1 & Hr & Hn & Ho) Hs. exists l, st1. split_and!; [done..|].
  by eapply rtc_r.
Qed.

Lemma names_app l1 l2 : names (l1 ++ l2)%list = (names l1 ++ names l2)%list.
Proof. apply fmap_app. Qed.

Lemma lookup_step st :
  match (step CLookup st).1 with
  | CShould m => validateUpstreamResponse q (Some m) = None ∧
      (Get (cache st) (Some q) (t_get env)).2 = Some m
  | CForward => no_stale q (step CLookup st).2
  | _ => False
  end.
Proof.
  pose proof (lookupCache_spec q env st _ _ (surjective_pairing _)) as [_ Hl]. revert Hl.
  unfold lookupCache, no_stale. cbn [call_step].
  destruct (Cacheable (cache st) (Some q)); cbn [negb]; [|done].
  destruct (Get (cache st) (Some q) (t_get env)) as [ca [m|]]; [|done].
  by destruct (validateUpstreamResponse q (Some m)).
Qed.

Lemma uncloak_inv l answer rrs checked m hit st :
  call_inv l (CUncloak (answer :: rrs) checked m hit) st →
  call_inv (l ++ verdict_at q c (CUncloak (answer :: rrs) checked m hit) st)%list
    (step (CUncloak (answer :: rrs) checked m hit) st).1
    (step (CUncloak (answer :: rrs) checked m hit) st).2.
Proof.
  intros (Hq & Hp & Hv & Hs & before & Hall & Hn & Hc & Hle). cbn [call_step].
  assert (all_records m = ((before ++ [answer]) ++ rrs)%list) as Hall' by (by rewrite <-(assoc_L app)).
  assert (concat (cname_target <$> before ++ [answer]) =
          concat (cname_target <$> before) ++ cname_target answer)%list as Hcat
    by (by rewrite fmap_app, concat_app; cbn; rewrite app_nil_r).
  assert (cname_target answer = [] → call_inv l (CUncloak rrs checked m hit) st) as Hskip.
  { intros Ht. rewrite Ht, app_nil_r in Hcat. split_and!; try done.
    exists (before ++ [answer])%list. by rewrite Hcat. }
  assert (cname_target answer = match Data answer with
    | CNAME t => if String.eqb t "" then [] else [TrimSuffix t "."] | _ => [] end) as Ht by done.
  unfold verdict_at, asked. destruct (Data answer) eqn:Ed; cbn [fst snd]; rewrite ?app_nil_r; auto.
  destruct (String.eqb target ""); cbn [orb fst snd]; [rewrite ?app_nil_r; auto|].
  destruct (Z.ltb_spec maxCNAMEPolicyChecks (checked + 1)); cbn [fst snd]; [done|].
  unfold eval_policy. destruct (policy_eval (svc st) _ c) as [s v]; cbn [fst snd].
  set (d := TrimSuffix target ".") in *.
  destruct (String.eqb_spec v "block") as [->|Hb]; cbn [call_inv].
  - split; [done|]. left. split; [done|]. exists l, (svc st), d. split_and!; [done..|].
    rewrite names_app, Hn. done.
  - split_and!; try done; [by apply Forall_app; split; [|constructor]|].
    exists (before ++ [answer])%list. rewrite Hcat, Ht, names_app, Hn, length_app. cbn.
    split_and!; [done..|lia|lia].
Qed.

Lemma call_step_inv l p st :
  run l p st → call_inv l p st →
  call_inv (l ++ verdict_at q c p st)%list (step p st).1 (step p st).2.
Proof.
  intros Hr Hi. destruct p as [| | | |m|m| |e|[|answer rrs] checked m hit|m|r|r];
    try (by apply uncloak_inv); cbn [call_inv] in Hi.
  - rewrite Hi. cbn. by destruct (_ <? _)%Z.
  - done.
  - subst l. unfold verdict_at. cbn [asked call_step app].
    destruct (Questions q) as [|q0 qs] eqn:Eq; cbn [fst snd]; [done|]. unfold eval_policy.
    destruct (policy_eval (svc st) (questionDomain q) c) as [s v] eqn:Ev; cbn [fst snd].
    destruct (String.eqb_spec v "block") as [->|Hb].
    + split; [by rewrite Eq|]. left. split; [done|]. exists [], (svc st), (questionDomain q).
      split_and!; [done|constructor|done].
    + split_and!; [by rewrite Eq|done|]. by repeat constructor.
  - pose proof (lookup_step st) as Hl. change (verdict_at q c CLookup st) with (@nil (S * string * string)).
    rewrite app_nil_r. destruct (step CLookup st) as [p' st'] eqn:E; cbn [fst snd] in *.
    destruct p'; try done; cbn [call_inv].
    + destruct Hl. split_and!; [done..|]. by exists l, st.
    + split; [done|]. exists l, st. rewrite E. done.
  - rewrite app_nil_r. cbn. destruct (ShouldRefresh _ _ _); [done|]. cbn.
    destruct Hi as ((?&Hn&?)&?&?). split_and!; try done; [by left|]. by exists [].
  - rewrite app_nil_r. cbn. destruct (BeginRefresh _ _) as [ca []]; cbn;
    destruct Hi as ((?&Hn&?)&?&?); (split_and!; try done; [by left|]; by exists []).
  - rewrite app_nil_r. cbn [call_step]. destruct Hi as [(?&?&?) ?]. destruct (msg_pack q); [|done].
    destruct (upstream env) as [wire|e] eqn:Eu; [|done].
    destruct (msg_unpack wire) as [m|] eqn:Em; [|done].
    destruct (validateUpstreamResponse q (Some m)) eqn:Ev; cbn [fst snd call_inv call_outcome]; [done|].
    split_and!; try done; [right; by exists wire|]. by exists [].
  - rewrite app_nil_r. destruct Hi as ((?&?&?)&?&?). cbn [call_step]. unfold lookupStale.
    destruct (GetStale _ _ _) as [m|] eqn:Es; [|done].
    destruct (validateUpstreamResponse q (Some m)) eqn:Ev; cbn [fst snd call_inv call_outcome]; [done|].
    split; [done|]. do 2 right. split_and!; try done. by exists e, l, st.
  - rewrite app_nil_r. cbn [call_step fst snd]. destruct Hi as (Hq & Hp & Hv & Hs & before & Hall & Hn & Hc & Hle).
    rewrite app_nil_r in Hall. subst before.
    assert (fully_vetted l m) as Hf by (subst checked; by split_and!).
    destruct hit; cbn [call_inv]; [|done]. split; [done|]. by right; left.
  - rewrite app_nil_r. cbn. destruct Hi. split; [done|]. by right; left.
  - by rewrite app_nil_r.
  - by rewrite app_nil_r.
Qed.

Lemma run_inv l p st : run l p st → call_inv l p st.
Proof.
  induction 1 as [|l p st st' Hr IH Ho|l p st Hr IH]; [done| |by apply call_step_inv].
  destruct p; try done; cbn [call_inv] in *; intuition eauto using missed_others.
Qed.

Lemma run_truthful l p st : run l p st → truthful c l.
Proof.
  induction 1 as [|l p st st' Hr IH Ho|l p st Hr IH]; [constructor|done|].
  apply Forall_app. split; [done|]. unfold verdict_at. destruct (asked q p); [|constructor].
  by repeat constructor.
Qed.

(** What the others keep of the policy service, and evaluations keep, holds at each moment
    the policy is asked. *)
Lemma run_moments (P : S → Prop) l p st :
  (∀ x y, P (svc x) → others x y → P (svc y)) → (∀ s d, P s → P (policy_eval s d c).1) →
  P (svc st0) → run l p st → P (svc st) ∧ Forall (λ '(s, _, _), P s) l.
Proof.
  intros Ho He Hst0 Hr. induction Hr as [|l p st st' Hr [IH1 IH2] Hs|l p st Hr [IH1 IH2]]; [done|eauto|].
  split.
  - assert (∀ d, P (svc (eval_policy d c st).1)) as Hev.
    { intros d. specialize (He (svc st) d IH1). unfold eval_policy. by destruct (policy_eval _ _ _). }
    destruct p as [| | | |m|m| |e|[|answer rrs] checked m hit|m|r|r]; cbn [call_step fst snd]; try done.
    + destruct (Questions q); [done|]. specialize (Hev (questionDomain q)).
      by destruct (eval_policy _ _ _).
    + destruct (negb _); [done|]. destruct (Get _ _ _) as [ca [m|]]; [|done].
      by destruct (validateUpstreamResponse q (Some m)).
    + destruct (BeginRefresh _ _) as [ca []]; done.
    + repeat case_match; done.
    + unfold lookupStale. repeat case_match; simplify_eq/=; done.
    + destruct (Data answer) as [| | |target| | |]; try done. destruct (String.eqb target ""); [done|].
      destruct (_ <? _)%Z; [done|]. specialize (Hev (TrimSuffix target ".")). by destruct (eval_policy _ _ _).
    + by destruct (storeCache_quiet q m (t_put env) st) as (-> & _).
  - apply Forall_app. split; [done|]. unfold verdict_at. destruct (asked q p); [|constructor].
    by repeat constructor.
Qed.
End Call.

(** C2: what was evaluated before an answer, whatever the others do meanwhile: let any other
    calls, refreshes and configuration changes ([others]) interfere between any two
    steps of a call.  When it returns a message, the query had a question, and either
    (1) the message is the blocked message, and the last verdict the policy gave this
    call was a block; or (2) the names evaluated during this call are exactly the
    question and then every CNAME target of every section of that very message, at most
    eight, none was blocked when it was evaluated, and the message matches the query's
    identifier and question and is what this call's own lookup or its upstream returned;
    or (3) it is a stale copy, for which only the question was evaluated, not its
    targets: the upstream had failed, this call's lookup had left nothing to serve,
    and after that the others put the entry into the cache from which it was taken. *)
Theorem answer_vetted others cfg q c env st0 l m st :
  interleaved others cfg q c env st0 l (CDone (Ok m)) st →
  truthful c l ∧ Questions q ≠ [] ∧
  ((m = BlockedDNSMessage cfg q ∧ was_blocked q l) ∨
   fully_vetted others cfg q c env st0 l m ∨
   stale_answer others cfg q c env st0 l m).
Proof. intros Hr. split; [by eapply run_truthful|]. by apply run_inv in Hr. Qed.

(** Where the others leave the cache alone there is no stale answer. *)
Lemma stale_needs_others others cfg q c env st0 m :
  (∀ x y, others x y → cache y = cache x) →
  validateUpstreamResponse q (Some m) = None → ¬ stale_source others cfg q c env st0 m.
Proof.
  intros Ho Hv (e & l & st & _ & _ & (l1 & st1 & _ & Hn & Hrtc) & Hg).
  assert (cache st = cache (call_step cfg q c env CLookup st1).2) as Hc
    by (clear -Hrtc Ho; induction Hrtc as [|x y z Hxy _ IH]; [done|]; rewrite IH; eauto).
  rewrite Hc in Hg. by destruct (Hn _ _ Hg).
Qed.

(** Others that may do more. *)
Lemma il_mono (others others' : State S → State S → Prop) cfg q c env st0 l p st :
  (∀ x y, others x y → others' x y) →
  interleaved others cfg q c env st0 l p st → interleaved others' cfg q c env st0 l p st.
Proof. intros Ho. induction 1; eauto using il_enter, il_others, il_call. Qed.

(** A call that runs alone is [ResolveQuery]. *)
Section Alone.
Variables (cfg : Config) (q : Msg) (c : ClientInfo) (env : Env).
#[local] Notation alone := (interleaved (λ _ _, False) cfg q c env).
(** From any run that has come to [p] the call goes on to [p']. *)
Definition leads (p : call_phase) st (p' : call_phase) st' : Prop :=
  ∀ st0 l, alone st0 l p st → ∃ l', alone st0 l' p' st'.

Lemma leads_refl p st : leads p st p st.
Proof. intros st0 l Hr. by exists l. Qed.
Lemma leads_step p st p1 st1 p' st' :
  call_step cfg q c env p st = (p1, st1) → leads p1 st1 p' st' → leads p st p' st'.
Proof. intros Hs Hl st0 l Hr. eapply Hl. apply il_call in Hr. by rewrite Hs in Hr. Qed.

Lemma leads_uncloak rrs checked m hit st :
  leads (CUncloak rrs checked m hit) st
    (CReturn (match (uncloak rrs checked c st).2 with
              | TooMany => Err "cname policy check limit exceeded"
              | BlockedTarget => Ok (BlockedDNSMessage cfg q)
              | Clean => Ok m
              end))
    (match (uncloak rrs checked c st).2 with
     | Clean => if hit then (uncloak rrs checked c st).1
                else storeCache q m (t_put env) (uncloak rrs checked c st).1
     | _ => (uncloak rrs checked c st).1
     end).
Proof.
  revert checked st. induction rrs as [|answer rrs IH]; intros checked st.
  { cbn. eapply leads_step; [done|]. destruct hit; [apply leads_refl|].
    eapply leads_step; [done|]. apply leads_refl. }
  eapply leads_step; [cbn; apply surjective_pairing|]. cbn [uncloak call_step].
  destruct (Data answer) as [| | |target| | |]; cbn [fst snd]; try apply IH.
  destruct (String.eqb target ""); cbn [fst snd]; [apply IH|].
  destruct (_ <? _)%Z; cbn [fst snd]; [apply leads_refl|].
  destruct (eval_policy _ c st) as [st1 v]. destruct (String.eqb v "block"); cbn [fst snd];
    [apply leads_refl|apply IH].
Qed.
Lemma leads_finish m hit st :
  leads (CUncloak (all_records m) 0 m hit) st
    (CReturn (finish cfg q c env m hit st).2) (finish cfg q c env m hit st).1.
Proof.
  pose proof (leads_uncloak (all_records m) 0 m hit st) as Hl. unfold finish.
  by destruct (uncloak (all_records m) 0 c st) as [st1 []]; cbn [fst snd] in *.
Qed.

Lemma leads_forward st :
  leads CForward st (CReturn (answer_upstream cfg q c env st).2) (answer_upstream cfg q c env st).1.
Proof.
  eapply leads_step; [apply surjective_pairing|]. cbn [call_step]. unfold answer_upstream.
  destruct (msg_pack q); [|apply leads_refl]. destruct (upstream env) as [wire|e].
  - destruct (msg_unpack wire) as [m|]; [|apply leads_refl].
    destruct (validateUpstreamResponse q (Some m)); [apply leads_refl|apply leads_finish].
  - eapply leads_step; [apply surjective_pairing|]. cbn [call_step fst snd].
    destruct (lookupStale q env st) as [st1 [m|]]; apply leads_refl.
Qed.
Lemma leads_body st :
  leads CPolicy st (CReturn (resolve_body cfg q c env st).2) (resolve_body cfg q c env st).1.
Proof.
  eapply leads_step; [apply surjective_pairing|]. cbn [call_step]. unfold resolve_body, questionDomain.
  destruct (Questions q) as [|q0 qs]; [apply leads_refl|]. cbv zeta.
  destruct (eval_policy _ c st) as [st1 v]. destruct (String.eqb v "block"); [apply leads_refl|].
  eapply leads_step; [apply surjective_pairing|]. cbn [call_step fst snd]. unfold lookupCache.
  destruct (Cacheable (cache st1) (Some q)); cbn [negb fst snd]; [|apply leads_forward].
  destruct (Get (cache st1) (Some q) (t_get env)) as [ca [m|]]; cbn [fst snd]; [|apply leads_forward].
  destruct (validateUpstreamResponse q (Some m)); cbn [fst snd]; [apply leads_forward|].
  set (st2 := IncCounter _ _). eapply leads_step; [apply surjective_pairing|]. cbn [call_step fst snd].
  unfold maybeRefreshAhead. destruct (ShouldRefresh _ _ _); cbn [negb]; [|apply leads_finish].
  eapply leads_step; [apply surjective_pairing|]. cbn [call_step].
  destruct (BeginRefresh _ _) as [ca2 []]; apply leads_finish.
Qed.

(** The steps of a call, uninterrupted, are [ResolveQuery]. *)
Lemma call_alone st :
  ∃ l, alone st l (CDone (ResolveQuery cfg q c env st).2) (ResolveQuery cfg q c env st).1.
Proof.
  destruct (leads_step CEnter st _ _ (CDone (ResolveQuery cfg q c env st).2)
    (ResolveQuery cfg q c env st).1 (surjective_pairing _)) with (st0 := st) (l := @nil (S * string * string))
    as [l Hl]; [|constructor|by exists l].
  cbn [call_step fst snd]. rewrite ResolveQuery_split. cbn [inflight set_inflight].
  destruct (_ <? _)%Z; [eapply leads_step; [done|]; apply leads_refl|].
  pose proof (leads_body (set_inflight (inflight st + 1) st)) as Hb.
  destruct (resolve_body _ _ _ _ _) as [st1 r]. intros st0 l Hr. apply Hb in Hr as [l' Hr].
  exists (l' ++ [])%list. by apply il_call in Hr.
Qed.
End Alone.

(** [n] steps of a call in a row. *)
Fixpoint drive cfg q c env (n : nat) (x : list (S * string * string) * call_phase * State S) :=
  match n with
  | 0 => x
  | Datatypes.S n =>
      let '(l, p, st) := x in
      drive cfg q c env n ((l ++ verdict_at q c p st)%list, (call_step cfg q c env p st).1,
                           (call_step cfg q c env p st).2)
  end.
Lemma il_drive others cfg q c env st0 n l p st :
  interleaved others cfg q c env st0 l p st →
  interleaved others cfg q c env st0 (drive cfg q c env n (l, p, st)).1.1
    (drive cfg q c env n (l, p, st)).1.2 (drive cfg q c env n (l, p, st)).2.
Proof. revert l p st. induction n as [|n IH]; intros l p st Hr; [done|]. by apply IH, il_call. Qed.
End Interleaved.

(** ** The in-flight limit under interleaving *)

Definition in_phase (p q : phase) : bool :=
  match p, q with
  | Start, Start | InBody, InBody | OverLimit, OverLimit | Finished, Finished => true
  | _, _ => false
  end.
Definition count_phase (p : phase) (ts : list phase) : Z :=
  Z.of_nat (length (filter (λ q, in_phase p q = true) ts)).

Lemma count_phase_nonneg p ts : (0 <= count_phase p ts)%Z.
Proof. unfold count_phase. lia. Qed.

Lemma count_phase_insert p ts (i : nat) old new :
  ts !! i = Some old →
  count_phase p (<[i:=new]> ts) =
  (count_phase p ts - (if in_phase p old then 1 else 0) + (if in_phase p new then 1 else 0))%Z.
Proof.
  intros Hi. rewrite insert_take_drop by (by eapply lookup_lt_Some).
  rewrite <-(take_drop_middle ts i old Hi) at 3. unfold count_phase.
  rewrite !filter_app, !filter_cons. repeat case_decide; destruct (in_phase p old), (in_phase p new);
    try done; rewrite !length_app; cbn [length]; lia.
Qed.

Lemma count_phase_replicate p n : p ≠ Start → count_phase p (replicate n Start) = 0%Z.
Proof. intros Hp. induction n as [|n IH]; [done|]. unfold count_phase in *. cbn. by destruct p. Qed.

Lemma thread_step_inv limit n ts i n' ts' :
  (0 <= limit)%Z →
  thread_step limit (n, ts) i = (n', ts') →
  n = (count_phase InBody ts + count_phase OverLimit ts)%Z →
  (count_phase InBody ts <= limit)%Z →
  n' = (count_phase InBody ts' + count_phase OverLimit ts')%Z ∧
  (count_phase InBody ts' <= limit)%Z.
Proof.
  intros Hl Hs Hn Hb. unfold thread_step, enter in Hs. pose proof (count_phase_nonneg OverLimit ts).
  destruct (ts !! i) as [[]|] eqn:Ei; [|..|by simplify_eq].
  - destruct (Z.ltb_spec limit (n + 1)); injection Hs as <- <-;
      rewrite !(count_phase_insert _ ts i _ _ Ei); cbn; lia.
  - injection Hs as <- <-. rewrite !(count_phase_insert _ ts i _ _ Ei). cbn. lia.
  - injection Hs as <- <-. rewrite !(count_phase_insert _ ts i _ _ Ei). cbn. lia.
  - by simplify_eq.
Qed.

(** Under every interleaving of any number of calls, at most [limit] of them are past the
    check at any time, the counter counts exactly the calls that have entered and
    not yet returned, and it is back to zero when all have returned; a call that
    arrives when the counter is below the limit is admitted. *)
Theorem concurrency_bound limit threads schedule n ts :
  (0 <= limit)%Z → run_threads limit threads schedule = (n, ts) →
  (count_phase InBody ts <= limit)%Z ∧
  n = (count_phase InBody ts + count_phase OverLimit ts)%Z ∧
  (Forall (λ p, p = Finished) ts → n = 0%Z) ∧
  ∀ i, ts !! i = Some Start → (n < limit)%Z →
    thread_step limit (n, ts) i = ((n + 1)%Z, <[i:=InBody]> ts).
Proof.
  intros Hl Hr.
  assert (n = (count_phase InBody ts + count_phase OverLimit ts)%Z ∧
          (count_phase InBody ts <= limit)%Z) as [Hn Hb].
  { unfold run_threads in Hr. revert Hr.
    assert (0%Z = (count_phase InBody (replicate threads Start) +
                   count_phase OverLimit (replicate threads Start))%Z ∧
            (count_phase InBody (replicate threads Start) <= limit)%Z) as Hinit
      by (by rewrite !count_phase_replicate).
    revert Hinit. generalize 0%Z as n0, (replicate threads Start) as ts0.
    induction schedule as [|i schedule IH]; intros n0 ts0 [Hn0 Hb0]; [by intros [= <- <-]|].
    cbn [foldl]. destruct (thread_step limit (n0, ts0) i) as [n1 ts1] eqn:E.
    apply IH. by apply (thread_step_inv limit n0 ts0 i). }
  split_and!; [done|done| |].
  - intros Hf. rewrite Hn. unfold count_phase.
    assert (∀ p, p ≠ Finished → filter (λ q, in_phase p q = true) ts = []) as Hz.
    { intros p Hp. clear -Hf Hp. induction Hf as [|x ts -> _ IH]; [done|].
      rewrite filter_cons_False; [done|]. by destruct p. }
    by rewrite !Hz.
  - intros i Hi Hlt. unfold thread_step, enter. rewrite Hi.
    destruct (Z.ltb_spec limit (n + 1)); [lia|done].
Qed.

(** ** The resolver and its background refreshes as one system *)

Section System.
Context `{UnicodeTables, DnsLib} {S : Type} `{!PolicyService S}.
Implicit Types (st : State S) (ca : ResponseCache).

(** TTL fields of an unpacked message are unsigned 32-bit integers. *)
Hypothesis unpack_range : ∀ wire m, msg_unpack wire = Ok m → msg_range m.

Definition refresh_key (q : Msg) : option responseCacheKey := responseCacheKeyFor (Some q).

(** Queries and refreshes in any order; a refresh runs once. *)
Inductive system_step (cfg : Config) : State S → State S → Prop :=
  | step_query q c env st : system_step cfg st (ResolveQuery cfg q c env st).1
  | step_refresh l1 q l2 reply now st :
      pending st = (l1 ++ q :: l2)%list →
      system_step cfg st
        (refresh_job q reply now
           (mkState (inflight st) (cache st) (svc st) (counters st) (l1 ++ l2)%list)).

(** The claimed slots are exactly those of the pending refreshes, one each. *)
Definition slots_ok (rf : gset responseCacheKey) (ps : list Msg) : Prop :=
  NoDup (refresh_key <$> ps) ∧ ∀ o, o ∈ refresh_key <$> ps ↔ ∃ k, o = Some k ∧ k ∈ rf.

Definition system_inv st : Prop :=
  match cache st with
  | None => True
  | Some ca => cache_ok ca ∧ slots_ok (refreshing ca) (pending st)
  end.

Lemma Put_refreshing ca q r now ca' x :
  Put (Some ca) q r now = (Some ca', x) → refreshing ca' = refreshing ca.
Proof. unfold Put. intros Hp. repeat case_match; by simplify_eq/=. Qed.
Lemma Get_refreshing ca q now ca' x :
  Get (Some ca) q now = (Some ca', x) → refreshing ca' = refreshing ca.
Proof. unfold Get. intros Hp. repeat case_match; by simplify_eq/=. Qed.

(** What a step may do to the cache: keep it well formed and keep its slots. *)
Definition cache_kept (c c' : option ResponseCache) : Prop :=
  match c with
  | None => c' = None
  | Some ca => ∃ ca', c' = Some ca' ∧ refreshing ca' = refreshing ca ∧ (cache_ok ca → cache_ok ca')
  end.

Lemma cache_kept_refl c : cache_kept c c.
Proof. destruct c; [|done]. cbn. eauto. Qed.
Lemma cache_kept_trans c1 c2 c3 : cache_kept c1 c2 → cache_kept c2 c3 → cache_kept c1 c3.
Proof.
  destruct c1 as [c1|]; cbn; [|by intros ->].
  intros (ca2 & -> & E2 & H2) (ca3 & -> & E3 & H3). exists ca3. split_and!; [done|congruence|auto].
Qed.

Lemma storeCache_kept q r now st :
  msg_range r →
  cache_kept (cache st) (cache (storeCache q r now st)) ∧
  pending (storeCache q r now st) = pending st.
Proof.
  intros Hr. unfold storeCache. destruct (cache st) as [ca|] eqn:E; [|by rewrite E].
  destruct (Put (Some ca) (Some q) (Some r) now) as [c' [b ev]] eqn:Ep.
  assert (cache_kept (Some ca) c') as Hk.
  { cbn. destruct c' as [ca'|].
    - exists ca'. split_and!; [done|by eapply Put_refreshing|]. intros Hok.
      destruct (Put_ok ca (Some q) (Some r) now Hok) as (x & Ex & Hx); [by intros ? [= <-]|].
      rewrite Ep in Ex. by injection Ex as <-.
    - unfold Put in Ep. repeat case_match; done. }
  by destruct ev.
Qed.

Lemma Get_kept ca q now : cache_kept (Some ca) (Get (Some ca) q now).1.
Proof.
  destruct (Get (Some ca) q now) as [[ca'|] r] eqn:E.
  - exists ca'. split_and!; [done|by eapply Get_refreshing|]. intros Hok.
    destruct (Get_ok ca q now Hok) as (x & Ex & Hx). rewrite E in Ex. by injection Ex as <-.
  - unfold Get in E. repeat case_match; done.
Qed.

(** Claiming a slot records the refresh that will release it. *)
Lemma maybeRefreshAhead_inv q now st :
  system_inv st → system_inv (maybeRefreshAhead q now st).
Proof.
  unfold system_inv at 1. intros Hc. unfold maybeRefreshAhead. destruct (negb _); [done|].
  destruct (BeginRefresh (cache st) (Some q)) as [c' owns] eqn:Eb.
  unfold BeginRefresh in Eb. destruct (cache st) as [ca|] eqn:Ec.
  2: { by injection Eb as <- <-. }
  destruct (responseCacheKeyFor (Some q)) as [key|] eqn:Ek; [|by injection Eb as <- <-].
  case_bool_decide as Ein; injection Eb as <- <-; [done|].
  assert (refresh_key q = Some key) as Hrk by done.
  destruct Hc as [Hok [Hnd Hdom]]. split; [by apply refreshing_ok|]. split.
  - change (NoDup (refresh_key q :: (refresh_key <$> pending st))).
    constructor; [|done]. rewrite Hrk, Hdom. intros (k & [= <-] & Hk). done.
  - intros o. change (o ∈ refresh_key q :: (refresh_key <$> pending st) ↔
                      ∃ k, o = Some k ∧ k ∈ {[key]} ∪ refreshing ca).
    rewrite elem_of_cons, Hdom, Hrk. set_solver.
Qed.

Definition kept_st st st' : Prop :=
  cache_kept (cache st) (cache st') ∧ pending st' = pending st.

Lemma system_inv_kept st st' : kept_st st st' → system_inv st → system_inv st'.
Proof.
  unfold system_inv. intros [Hk Hp] Hc. unfold cache_kept in Hk.
  destruct (cache st) as [ca|]; [|by rewrite Hk].
  destruct Hk as (ca' & -> & Er & Hok). destruct Hc as [Hca Hs].
  split; [by apply Hok|]. by rewrite Er, Hp.
Qed.
Lemma kept_counter name st : kept_st st (IncCounter name st).
Proof. split; [apply cache_kept_refl|done]. Qed.

Lemma lookupCache_inv q env st : system_inv st → system_inv (lookupCache q env st).1.
Proof.
  intros Hinv. unfold lookupCache. destruct (Cacheable _ _) eqn:Ec; cbn [negb]; [|done].
  destruct (cache st) as [ca|] eqn:Eca; [|done].
  pose proof (Get_kept ca (Some q) (t_get env)) as Hk.
  destruct (Get (Some ca) (Some q) (t_get env)) as [c' r]. cbn [fst] in Hk.
  assert (system_inv (set_cache c' st)) as Hs.
  { apply (system_inv_kept st); [|done]. split; [by rewrite Eca|done]. }
  destruct r as [m|]; cbn [fst]; [|apply (system_inv_kept (set_cache c' st)), Hs; apply kept_counter].
  destruct (validateUpstreamResponse _ _); cbn [fst].
  - apply (system_inv_kept (set_cache c' st)), Hs. split; [apply cache_kept_refl|done].
  - apply maybeRefreshAhead_inv. apply (system_inv_kept (set_cache c' st)), Hs; apply kept_counter.
Qed.

Lemma same_store_inv st st' : same_store st st' → system_inv st → system_inv st'.
Proof.
  intros (_ & Hc & _ & Hp). apply system_inv_kept.
  split; [rewrite Hc; apply cache_kept_refl|done].
Qed.

Lemma storeCache_inv q r now st : msg_range r → system_inv st → system_inv (storeCache q r now st).
Proof.
  intros Hr. by apply system_inv_kept, storeCache_kept.
Qed.

Lemma finish_inv cfg q c env m hit st :
  (hit = false → msg_range m) → system_inv st → system_inv (finish cfg q c env m hit st).1.
Proof.
  intros Hr Hinv. unfold finish. destruct (uncloak (all_records m) 0 c st) as [st1 u] eqn:Eu.
  apply uncloak_spec in Eu as [Hs _]; [|done]. pose proof (same_store_inv _ _ Hs Hinv) as H1.
  destruct u; cbn [fst]; try done. destruct hit; [done|]. apply storeCache_inv; auto.
Qed.

Lemma resolve_body_inv cfg q c env st :
  system_inv st → system_inv (resolve_body cfg q c env st).1.
Proof.
  intros Hinv. unfold resolve_body, answer_upstream. destruct (Questions q) as [|q0 qs].
  { cbn [fst]. apply (system_inv_kept st), Hinv. apply kept_counter. }
  destruct (eval_policy _ c st) as [st1 p] eqn:Ep. apply eval_policy_spec in Ep as [_ Hs].
  pose proof (same_store_inv _ _ Hs Hinv) as H1. destruct (String.eqb p "block"); [done|].
  pose proof (lookupCache_inv q env st1 H1) as H2.
  destruct (lookupCache q env st1) as [st2 [m|]] eqn:El; cbn [fst] in H2.
  { by apply finish_inv. }
  apply lookupCache_spec in El as [_ Hst]. destruct (msg_pack q); [|done].
  destruct (upstream env) as [wire|].
  - destruct (msg_unpack wire) as [m|] eqn:Eu; [|done].
    destruct (validateUpstreamResponse q (Some m)).
    + apply (system_inv_kept st2), H2; apply kept_counter.
    + apply finish_inv; [|done]. intros _. by eapply unpack_range.
  - unfold lookupStale. destruct (GetStale _ _ _) as [m|] eqn:Eg; cbn [fst];
      [|apply (system_inv_kept st2), H2; apply kept_counter].
    destruct (validateUpstreamResponse q (Some m)); cbn [fst];
      (apply (system_inv_kept st2), H2; split; [apply cache_kept_refl|done]).
Qed.

Lemma slots_release rf l1 q l2 :
  slots_ok rf (l1 ++ q :: l2)%list →
  slots_ok (match refresh_key q with Some key => rf ∖ {[key]} | None => rf end) (l1 ++ l2)%list.
Proof.
  intros [Hnd Hdom]. unfold slots_ok in *. rewrite fmap_app, fmap_cons in *.
  apply NoDup_app in Hnd as (N1 & Hdis & N2). apply NoDup_cons in N2 as [Hq N2].
  split.
  - apply NoDup_app. split_and!; [done| |done]. intros x Hx Hx2. apply (Hdis x Hx). by right.
  - destruct (Hdom (refresh_key q)) as [Hk _]. destruct Hk as (key & Ekey & Hin); [set_solver|].
    rewrite Ekey in *. intros o. specialize (Hdom o). split.
    + intros Ho. destruct Hdom as [Hdom _]. destruct Hdom as (k & -> & Hk); [set_solver|].
      exists k. split; [done|]. apply elem_of_difference. split; [done|].
      rewrite elem_of_singleton. intros ->. apply elem_of_app in Ho as [Ho|Ho]; [|done].
      apply (Hdis _ Ho). by left.
    + intros (k & -> & [Hk Hne]%elem_of_difference). rewrite elem_of_singleton in Hne.
      assert (Some k ∈ ((refresh_key <$> l1) ++ Some key :: (refresh_key <$> l2))%list) as Hm
        by (apply Hdom; eauto).
      set_solver.
Qed.

Lemma EndRefresh_spec ca q :
  EndRefresh (Some ca) (Some q) =
  Some (with_refreshing ca
    (match refresh_key q with Some key => refreshing ca ∖ {[key]} | None => refreshing ca end)).
Proof.
  unfold EndRefresh, refresh_key. destruct (responseCacheKeyFor _); [done|]. by destruct ca.
Qed.

Lemma refresh_job_inv l1 q l2 reply now st :
  pending st = (l1 ++ q :: l2)%list → system_inv st →
  system_inv (refresh_job q reply now
    (mkState (inflight st) (cache st) (svc st) (counters st) (l1 ++ l2)%list)).
Proof.
  unfold system_inv. intros Hp Hc. set (st1 := mkState _ _ _ _ _).
  unfold refresh_job. set (st2 := match msg_pack q with Ok _ => _ | Err _ => st1 end).
  assert (kept_st st1 st2) as [Hk Hp2].
  { unfold st2. destruct (msg_pack q); [|split; [apply cache_kept_refl|done]].
    destruct reply as [w|]; [|apply kept_counter].
    destruct (msg_unpack w) as [m|] eqn:Eu; [|apply kept_counter].
    destruct (validateUpstreamResponse q (Some m)); [apply kept_counter|].
    apply (storeCache_kept q m now (IncCounter "dns_cache_refreshes_total" st1)).
    by eapply unpack_range. }
  clearbody st2. unfold cache_kept in Hk. unfold st1 in Hk, Hp2. cbn in Hk, Hp2. cbn.
  destruct (cache st) as [ca|]; [|by rewrite Hk].
  destruct Hk as (ca' & -> & Er & Hok). destruct Hc as [Hca Hs].
  rewrite EndRefresh_spec. split; [by apply refreshing_ok, Hok|]. cbn. rewrite Hp2, Er.
  apply slots_release. by rewrite <-Hp.
Qed.

Lemma refresh_job_inflight q reply now st : inflight (refresh_job q reply now st) = inflight st.
Proof.
  unfold refresh_job. cbn. repeat case_match; try done.
  match goal with |- inflight (storeCache ?q ?m ?n ?s) = _ =>
    by destruct (storeCache_quiet q m n s) as (_ & -> & _) end.
Qed.

Lemma system_inv_new cfg s0 : system_inv (mkState 0 (New cfg).2 s0 ∅ []).
Proof.
  unfold New, system_inv. cbn [snd cache].
  destruct (NewResponseCache _) as [ca|] eqn:E; [|done]. split; [by eapply cache_ok_new|].
  unfold NewResponseCache, newResponseCache in E. case_match; [done|]. injection E as <-.
  split; [constructor|]. cbn. set_solver.
Qed.

Lemma system_reachable cfg st st' :
  rtc (system_step cfg) st st' → inflight st = 0%Z → system_inv st →
  inflight st' = 0%Z ∧ system_inv st'.
Proof.
  induction 1 as [|x y z Hxy _ IH]; [done|]. intros Hi Hx. apply IH.
  - destruct Hxy as [q c env x|l1 q l2 reply now x Hp]; [by rewrite ResolveQuery_inflight|].
    by rewrite refresh_job_inflight.
  - destruct Hxy as [q c env x|l1 q l2 reply now x Hp]; [|by apply refresh_job_inv].
    rewrite ResolveQuery_split. destruct (_ <? _)%Z; [done|].
    pose proof (resolve_body_inv cfg q c env (set_inflight (inflight x + 1) x) Hx) as Hb.
    by destruct (resolve_body _ _ _ _ _).
Qed.

(** C38: the resolver and its background refreshes, run in any order from [New]: the cache
    stays well formed, the in-flight counter is back to zero between calls, no two
    refreshes of one question are ever pending, and a refresh slot is claimed only
    while its refresh is pending, so a question is never locked out of refreshing. *)
Theorem resolver_system_invariant cfg s0 st :
  rtc (system_step cfg) (mkState 0 (New cfg).2 s0 ∅ []) st →
  inflight st = 0%Z ∧
  ∀ ca, cache st = Some ca →
    cache_ok ca ∧ NoDup (refresh_key <$> pending st) ∧
    ∀ k, k ∈ refreshing ca ↔ Some k ∈ refresh_key <$> pending st.
Proof.
  intros Hr. assert (inflight st = 0%Z ∧ system_inv st) as [Hi Hc].
  { apply (system_reachable cfg (mkState 0 (New cfg).2 s0 ∅ [])); [done|done|].
    apply system_inv_new. }
  split; [done|]. intros ca Hca. unfold system_inv in Hc. rewrite Hca in Hc.
  destruct Hc as [Hok [Hnd Hdom]]. split_and!; [done|done|]. intros k. rewrite Hdom. naive_solver.
Qed.
End System.

(** ** Witnesses *)

Module Examples.
#[local] Instance ex_tables : UnicodeTables := ascii_tables.
(** A reply whose question hides behind two aliases. *)
Definition reply := ex_answer 9 "www.shop.example." 60
  [mkRR (mkHdr "www.shop.example." 5 1 60) (CNAME "cdn.example.");
   mkRR (mkHdr "cdn.example." 5 1 60) (CNAME "edge.example.")].
#[local] Instance ex_dns : DnsLib := rfc_dns reply.
#[local] Instance ex_laws : DnsLaws := rfc_dns_laws reply.
(** A policy that counts its evaluations and blocks two names. *)
#[local] Instance ex_policy : PolicyService nat := {
  policy_eval n d _ :=
    (S n, if String.eqb d "ads.example" || String.eqb d "tracker.example" then "block" else "allow")
}.
Definition cfg := mkConfig "not an address" "" 60 0 4.
Definition client := mkClient "10.0.0.2" "".
Definition q := ex_query 9 "www.shop.example.".
Definition q_ads := ex_query 9 "ads.example.".
Definition st0 : State nat := mkState 0 (New cfg).2 0 ∅ [].
Definition env_ok := mkEnv 0 0 0 0 (Ok "wire").
(** The upstream is down while the cached answer is 40 s past its lifetime. *)
Definition env_down := mkEnv (100 * second) 0 (100 * second) 0 (Err "unreachable").

Definition run_ok := ResolveQuery cfg q client env_ok st0.
Definition run_down := ResolveQuery cfg q client env_down run_ok.1.

Lemma blocked_answer_witness :
  let m := BlockedDNSMessage cfg q_ads in
  Id m = Id q_ads ∧ Response m = true ∧ Questions m = take 1 (Questions q_ads) ∧
  Authoritative m = true ∧ Ns m = [] ∧ Extra m = [] ∧
  if decide (EffectiveBlockStrategy cfg = BlockStrategyNXDomain)
  then Rcode m = RcodeNameError ∧ Answer m = []
  else if decide (EffectiveBlockStrategy cfg = BlockStrategyRefused)
  then Rcode m = RcodeRefused ∧ Answer m = []
  else ∀ q, q ∈ Questions q_ads →
    (Qtype q = TypeA → ∃ ip v4,
       mkRR (mkHdr (QName q) TypeA (Qclass q) (DNSTTL cfg)) (RDA ip) ∈ Answer m ∧
       To4 ip = Some v4 ∧ length v4 = 4) ∧
    (Qtype q = TypeAAAA → ∃ ip,
       mkRR (mkHdr (QName q) TypeAAAA (Qclass q) (DNSTTL cfg)) (RDAAAA ip) ∈ Answer m ∧
       length ip = 16).
Proof. exact (blocked_answer cfg q_ads). Defined.

Definition run_alone := drive cfg q client env_ok 10 ([], CEnter, st0).
Lemma answer_vetted_witness :
  names run_alone.1.1 = ["www.shop.example"; "cdn.example"; "edge.example"] ∧
  truthful client run_alone.1.1 ∧ Questions q ≠ [] ∧
  ((reply = BlockedDNSMessage cfg q ∧ was_blocked q run_alone.1.1) ∨
   fully_vetted (system_step cfg) cfg q client env_ok st0 run_alone.1.1 reply ∨
   stale_answer (system_step cfg) cfg q client env_ok st0 run_alone.1.1 reply).
Proof.
  split; [vm_compute; reflexivity|].
  refine (answer_vetted (system_step cfg) cfg q client env_ok st0 run_alone.1.1 reply run_alone.2 _).
  assert (run_alone.1.2 = CDone (Ok reply)) as E by (vm_compute; reflexivity).
  rewrite <- E. apply il_drive, il_enter.
Defined.

Lemma serve_stale_unreachable_witness :
  counters run_down.1 !! stale_counter = counters run_ok.1 !! stale_counter ∧
  ∀ e m, upstream env_down = Err e → run_down.2 = Ok m →
    m = BlockedDNSMessage cfg q ∨ (Get (cache run_ok.1) (Some q) (t_get env_down)).2 = Some m.
Proof.
  exact (serve_stale_unreachable cfg q client env_down run_ok.1 run_down.1 run_down.2
           (result_of run_down run_down.2 eq_refl)).
Defined.

Lemma blocked_question_witness :
  ResolveQuery cfg q_ads client env_ok st0 =
  (set_svc 1 st0, Ok (BlockedDNSMessage cfg q_ads)).
Proof.
  refine (blocked_question cfg q_ads client env_ok st0 (mkQ "ads.example." TypeA 1) [] 1 _ _ _);
    [reflexivity|vm_compute; reflexivity|vm_compute; reflexivity].
Defined.

(** Three calls against a limit of two: the third is turned away while both run. *)
Lemma concurrency_bound_witness :
  let ts := [InBody; InBody; OverLimit] in
  (count_phase InBody ts <= 2)%Z ∧
  3%Z = (count_phase InBody ts + count_phase OverLimit ts)%Z ∧
  (Forall (λ p, p = Finished) ts → 3%Z = 0%Z) ∧
  ∀ i, ts !! i = Some Start → (3 < 2)%Z →
    thread_step 2 (3%Z, ts) i = (4%Z, <[i:=InBody]> ts).
Proof.
  refine (concurrency_bound 2 3 [0; 1; 2] 3 _ _ _); [done|vm_compute; reflexivity].
Defined.

Lemma resolver_system_invariant_witness :
  inflight run_ok.1 = 0%Z ∧
  ∀ ca, cache run_ok.1 = Some ca →
    cache_ok ca ∧ NoDup (refresh_key <$> pending run_ok.1) ∧
    ∀ k, k ∈ refreshing ca ↔ Some k ∈ refresh_key <$> pending run_ok.1.
Proof.
  apply (resolver_system_invariant) with (cfg := cfg) (s0 := 0).
  - intros wire m [= <-]. repeat constructor; cbn; lia.
  - apply rtc_once. apply step_query.
Defined.
End Examples.

(** The race behind the stale answer.  The policy blocks [edge.example] for the client
    "kid" only.  The kid's call finds the cache empty and waits for an upstream that
    fails; meanwhile the call of another client is answered and stored for two seconds.
    The kid is served that entry as a stale copy, although its second alias target is
    blocked for the kid and was not evaluated. *)
Module Race.
Import Examples.
Definition short := ex_answer 9 "www.shop.example." 2
  [mkRR (mkHdr "www.shop.example." 5 1 2) (CNAME "cdn.example.");
   mkRR (mkHdr "cdn.example." 5 1 2) (CNAME "edge.example.")].
#[local] Existing Instance ex_tables.
#[local] Instance race_dns : DnsLib := rfc_dns short.
#[local] Instance race_policy : PolicyService nat := {
  policy_eval n d c :=
    (S n, if String.eqb d "edge.example" && String.eqb (Resolver.ClientID c) "kid" then "block" else "allow")
}.
Definition kid := mkClient "10.0.0.3" "kid".
Definition env_slow := mkEnv 0 0 (5 * second) 0 (Err "unreachable").
Definition waiting := drive cfg q kid env_slow 3 ([], CEnter, st0).
Definition stored : State nat := (ResolveQuery cfg q client env_ok waiting.2).1.
Definition served := drive cfg q kid env_slow 3 (waiting.1.1, waiting.1.2, stored).

Example stale_unvetted : ∃ l m st,
  interleaved (system_step cfg) cfg q kid env_slow st0 l (CDone (Ok m)) st ∧
  names l = ["www.shop.example"] ∧ "edge.example" ∈ cname_targets m ∧
  (policy_eval (svc st) "edge.example" kid).2 = "block".
Proof.
  assert (∃ m, served.1.2 = CDone (Ok m) ∧ cname_targets m = ["cdn.example"; "edge.example"]) as (m & E & Ht)
    by (eexists; split; vm_compute; reflexivity).
  exists served.1.1, m, served.2. split; [|split; [by vm_compute|split; [|by vm_compute]]].
  - rewrite <- E. apply il_drive. eapply il_others; [apply il_drive, il_enter|]. apply step_query.
  - rewrite Ht. set_solver.
Qed.
End Race.
