(* ===== verification/GoFloat.v ===== *)
(** * float64

    Go's float64 is IEEE 754 binary64; its operations are those of the Standard
    Library's [SpecFloat] at precision 53 and maximal exponent 1024. *)

From Stdlib Require Import ZArith Lia Bool.
From Stdlib Require Import SpecFloat.
From S2P Require Import Prelude.

Abbreviation float64 := spec_float.

Definition f_add : float64 → float64 → float64 := SFadd 53 1024.
Definition f_sub : float64 → float64 → float64 := SFsub 53 1024.
Definition f_mul : float64 → float64 → float64 := SFmul 53 1024.
Definition f_div : float64 → float64 → float64 := SFdiv 53 1024.
Definition f_lt : float64 → float64 → bool := SFltb.
(** [float64(z)] *)
Definition f_of_Z (z : Z) : float64 := binary_normalize 53 1024 z 0 false.

Definition f_zero : float64 := S754_zero false.
Definition f_one : float64 := f_of_Z 1.

(** [int(f)]: truncation; the values outside the range of [int] are those of amd64. *)
Definition min_int : Z := (- 2 ^ 63)%Z.
Definition in_int (z : Z) : Z := if (min_int <=? z)%Z && (z <? 2 ^ 63)%Z then z else min_int.
Definition f_trunc (f : float64) : Z :=
  match f with
  | S754_zero _ => 0
  | S754_finite s m e =>
      let z := if (0 <=? e)%Z then Z.pos m * 2 ^ e else Z.pos m / 2 ^ (- e) in
      in_int (if s then - z else z)
  | S754_infinity _ | S754_nan => min_int
  end%Z.
(** [int(math.Ceil(f))] *)
Definition f_ceil (f : float64) : Z :=
  match f with
  | S754_finite s m e =>
      if (0 <=? e)%Z then f_trunc f
      else
        let q := Z.pos m / 2 ^ (- e) in
        let exact := (Z.pos m mod 2 ^ (- e) =? 0)%Z in
        in_int (if s then - q else if exact then q else q + 1)
  | _ => f_trunc f
  end%Z.

(** [int(math.Round(f))]: halves away from zero *)
Definition f_round (f : float64) : Z :=
  match f with
  | S754_finite s m e =>
      if (0 <=? e)%Z then f_trunc f
      else
        let q := (Z.pos m + 2 ^ (- e - 1)) / 2 ^ (- e) in
        in_int (if s then - q else q)
  | _ => f_trunc f
  end%Z.

(** Not infinite and not a NaN. *)
Definition f_finite (f : float64) : bool :=
  match f with S754_zero _ | S754_finite _ _ _ => true | _ => false end.

(** [time.Duration.Seconds] of a duration in nanoseconds. *)
Definition Seconds (d : Z) : float64 :=
  f_add (f_of_Z (Z.quot d 1000000000)) (f_div (f_of_Z (Z.rem d 1000000000)) (f_of_Z 1000000000)).

(** The comparison of two floats with the same sign is that of exponent and
    mantissa, so "less than" is transitive. *)
Lemma f_lt_trans x y z : f_lt x y = true → f_lt y z = true → f_lt x z = true.
Proof.
  unfold f_lt, SFltb, SFcompare.
  destruct x as [[]|[]| |[] m1 e1], y as [[]|[]| |[] m2 e2], z as [[]|[]| |[] m3 e3]; try done;
    change (Pos.compare_cont Eq) with Pos.compare;
    destruct (Z.compare_spec e1 e2), (Z.compare_spec e2 e3), (Z.compare_spec e1 e3);
    try done; try lia; unfold CompOpp;
    destruct (Pos.compare_spec m1 m2), (Pos.compare_spec m2 m3), (Pos.compare_spec m1 m3);
    try done; try lia.
Qed.

Lemma f_lt_add_zero x y : f_lt (f_add x f_zero) y = f_lt x y.
Proof. by destruct x as [[]|[]| |]. Qed.
Lemma f_lt_add_zero_r x y : f_lt y (f_add x f_zero) = f_lt y x.
Proof. by destruct x as [[]|[]| |], y as [[]|[]| |[]]. Qed.

(** No time, no refill. *)
Lemma f_mul_zero_elapsed r : f_finite r = true → ∃ s, f_mul (Seconds 0) r = S754_zero s.
Proof. destruct r; try done; intros _; eexists; reflexivity. Qed.

Lemma f_lt_add_szero s x y : f_lt (f_add x (S754_zero s)) y = f_lt x y.
Proof. by destruct s, x as [[]|[]| |]. Qed.
Lemma f_lt_add_szero_r s x y : f_lt y (f_add x (S754_zero s)) = f_lt y x.
Proof. by destruct s, x as [[]|[]| |], y as [[]|[]| |[]]. Qed.

Example trim_ex : f_trunc (f_mul (f_of_Z 50000) (S754_finite false 8106479329266893 (-53))) = 45000%Z.
Proof. reflexivity. Qed.
Example ceil_ex : f_ceil (f_div (f_of_Z 7) (f_of_Z 2)) = 4%Z ∧ f_ceil (f_of_Z 4) = 4%Z.
Proof. done. Qed.
