(* ===== verification/Limiter.v ===== *)
(** * The token-bucket rate limiter: [internal/ratelimit/limiter.go]

    A bounded map of token buckets with two recency lists.  A list element holds
    a pointer to its bucket and a bucket its element and owner list; since a
    bucket is reached by its key alone, the elements are represented by keys and
    the lists hold keys, most recently used first.  Times are nanoseconds,
    tokens are float64, [oneShot] is an unsigned 32-bit integer. *)

From Stdlib Require Import ZArith Lia Ascii String.
From Stdlib Require Import SpecFloat.
From S2P Require Import Prelude GoFloat.

Definition DefaultMaxKeys : Z := 50000.
(** The float64 nearest to 0.9. *)
Definition evictionRatio : float64 := S754_finite false 8106479329266893 (-53).

Inductive list_id := Active | Blocked.
#[export] Instance list_id_eq_dec : EqDecision list_id.
Proof. solve_decision. Defined.

Record bucket := mkBucket {
  tokens : float64;
  lastCheck : Z;
  bhits : Z;
  owner : option list_id
}.

Record Limiter := mkLimiter {
  buckets : gmap string bucket;
  active : list string;
  blocked : list string;
  oneShot : Z;
  rate : float64;
  burst : Z;
  maxKeys : Z
}.

Definition NewWithMaxKeys (ratePerMinute : float64) (burst maxKeys : Z) : Limiter :=
  mkLimiter ∅ [] [] 0 (f_div ratePerMinute (f_of_Z 60)) burst maxKeys.
Definition NewLimiter (ratePerMinute : float64) (burst : Z) : Limiter :=
  NewWithMaxKeys ratePerMinute burst DefaultMaxKeys.

(** ** Field updates *)

Definition which (t : list_id) (l : Limiter) : list string :=
  match t with Active => active l | Blocked => blocked l end.
Definition set_list (t : list_id) (ks : list string) (l : Limiter) : Limiter :=
  match t with
  | Active => mkLimiter (buckets l) ks (blocked l) (oneShot l) (rate l) (burst l) (maxKeys l)
  | Blocked => mkLimiter (buckets l) (active l) ks (oneShot l) (rate l) (burst l) (maxKeys l)
  end.
Definition set_buckets (bs : gmap string bucket) (l : Limiter) : Limiter :=
  mkLimiter bs (active l) (blocked l) (oneShot l) (rate l) (burst l) (maxKeys l).
(** Arithmetic on [oneShot] wraps at 32 bits. *)
Definition set_oneShot (n : Z) (l : Limiter) : Limiter :=
  mkLimiter (buckets l) (active l) (blocked l) (n mod 2 ^ 32)%Z (rate l) (burst l) (maxKeys l).

(** [container/list.Remove] of the element of a key. *)
Definition drop_key (k : string) (ks : list string) : list string := filter (λ k', k' ≠ k) ks.

Definition unlink (k : string) (t : option list_id) (l : Limiter) : Limiter :=
  match t with Some t => set_list t (drop_key k (which t l)) l | None => l end.

(** ** Operations *)

Definition Len (l : option Limiter) : Z :=
  match l with None => 0 | Some l => Z.of_nat (size (buckets l)) end.

Definition trimCount (l : Limiter) : Z :=
  let trim := f_trunc (f_mul (f_of_Z (maxKeys l)) evictionRatio) in
  let trim := if (trim <? 1)%Z then 1%Z else trim in
  if (Z.of_nat (size (buckets l)) <? trim)%Z then Z.of_nat (size (buckets l)) else trim.

(** [place]: the bucket, already updated, is filed at the front of its list. *)
Definition place (k : string) (b : bucket) (is_blocked : bool) (l : Limiter) : Limiter :=
  let target := if is_blocked then Blocked else Active in
  let l := unlink k (owner b) l in
  let l := set_buckets (<[k := mkBucket (tokens b) (lastCheck b) (bhits b) (Some target)]> (buckets l)) l in
  set_list target (k :: which target l) l.

Definition removeKey (k : string) (l : Limiter) : Limiter :=
  match buckets l !! k with
  | None => l
  | Some b =>
      let l := set_buckets (delete k (buckets l)) l in
      let l := if (bhits b =? 1)%Z && (0 <? oneShot l)%Z
               then set_oneShot (oneShot l - 1) l else l in
      unlink k (owner b) l
  end.

Definition has_repeats (l : Limiter) (k : string) : bool :=
  match buckets l !! k with Some b => (1 <? bhits b)%Z | None => false end.

(** One pass of [evictLocked] over the keys from the back of a list. *)
Fixpoint evict_walk (oneShotPass : bool) (ks : list string) (removed n : Z) (l : Limiter)
    : Z * Limiter :=
  match ks with
  | [] => (removed, l)
  | k :: older =>
      if (removed <? n)%Z then
        if oneShotPass && has_repeats l k then evict_walk oneShotPass older removed n l
        else evict_walk oneShotPass older (removed + 1) n (removeKey k l)
      else (removed, l)
  end.

Definition evict_pass (from : list_id) (oneShotPass : bool) (removed n : Z) (l : Limiter)
    : Z * Limiter :=
  if oneShotPass && (oneShot l =? 0)%Z then (removed, l)
  else evict_walk oneShotPass (rev (which from l)) removed n l.

Definition evictLocked (n : Z) (l : Limiter) : Limiter :=
  if (n <=? 0)%Z then l
  else
    let '(removed, l) := evict_pass Active true 0 n l in
    if (n <=? removed)%Z then l
    else
      let '(removed, l) := evict_pass Active false removed n l in
      if (n <=? removed)%Z then l
      else (evict_pass Blocked false removed n l).2.

(** The bucket a request works on: the existing one, or a fresh one after the
    eviction that keeps the map within its cap. *)
Definition find_bucket (key : string) (now : Z) (l : Limiter) : bucket * Limiter :=
  match buckets l !! key with
  | Some b => (b, l)
  | None =>
      let l := if (0 <? maxKeys l)%Z && (maxKeys l <=? Z.of_nat (size (buckets l)))%Z
               then evictLocked (trimCount l) l else l in
      let b := mkBucket (f_of_Z (burst l)) now 0 None in
      (b, set_oneShot (oneShot l + 1) (set_buckets (<[key := b]> (buckets l)) l))
  end.

(** Refill by elapsed time, capped at the burst. *)
Definition refill (l : Limiter) (b : bucket) (now : Z) : float64 :=
  let t := f_add (tokens b) (f_mul (Seconds (now - lastCheck b)) (rate l)) in
  if f_lt (f_of_Z (burst l)) t then f_of_Z (burst l) else t.

Definition Allow_locked (key : string) (now : Z) (l : Limiter) : Limiter * bool :=
  let '(b, l) := find_bucket key now l in
  let l := if (bhits b =? 1)%Z then set_oneShot (oneShot l - 1) l else l in
  let t := refill l b now in
  if f_lt t f_one
  then (place key (mkBucket t now (bhits b + 1) (owner b)) true l, false)
  else
    let t := f_sub t f_one in
    (place key (mkBucket t now (bhits b + 1) (owner b)) (f_lt t f_one) l, true).

(** [rate <= 0] *)
Definition disabled (l : Limiter) : bool := SFleb (rate l) f_zero.

Definition Allow (key : string) (now : Z) (l : option Limiter) : option Limiter * bool :=
  match l with
  | None => (None, true)
  | Some l =>
      if disabled l then (Some l, true)
      else let '(l, r) := Allow_locked key now l in (Some l, r)
  end.

Definition SecondsUntilNextToken (key : string) (l : option Limiter) : float64 :=
  match l with
  | None => f_zero
  | Some l =>
      if disabled l then f_zero
      else
        match buckets l !! key with
        | None => f_zero
        | Some b =>
            if SFleb f_one (tokens b) then f_zero
            else f_div (f_sub f_one (tokens b)) (rate l)
        end
  end.

Definition idleThreshold : Z := (10 * 60 * 1000000000)%Z.

(** The sweep of one list from its back; the list at entry is the fuel. *)
Fixpoint sweep (ks : list string) (cutoff : Z) (l : Limiter) : Limiter :=
  match ks with
  | [] => l
  | k :: older =>
      match buckets l !! k with
      | None => l
      | Some b => if (lastCheck b <? cutoff)%Z then sweep older cutoff (removeKey k l) else l
      end
  end.

Definition cleanup (now : Z) (l : Limiter) : Limiter :=
  let cutoff := (now - idleThreshold)%Z in
  let l := sweep (rev (active l)) cutoff l in
  sweep (rev (blocked l)) cutoff l.

(** The [Retry-After] value of [TieredMiddleware.Wrap]. *)
Definition retry_after (key : string) (l : option Limiter) : Z :=
  let secs := f_ceil (SecondsUntilNextToken key l) in
  if (secs <? 1)%Z then 1%Z else secs.
