(* ===== verification/LimiterSpec.v ===== *)
(** * Properties of the rate limiter

    The two recency lists partition the tracked keys by whether they would be
    denied, the key cap holds, eviction spares throttled clients until nothing
    else is left, and a request touches no bucket but its own and the evicted. *)

From Stdlib Require Import ZArith Lia Ascii String.
From Stdlib Require Import SpecFloat.
From S2P Require Import Prelude GoFloat Limiter.

(** ** Counting one-shot keys *)

Definition once (o : option bucket) : Z :=
  match o with Some b => if (bhits b =? 1)%Z then 1%Z else 0%Z | None => 0%Z end.
Definition one_shots (m : gmap string bucket) : Z :=
  Z.of_nat (size (filter (λ kb, bhits kb.2 = 1%Z) m)).

Lemma one_shots_delete m k : one_shots (delete k m) = (one_shots m - once (m !! k))%Z.
Proof.
  unfold one_shots, once. rewrite map_filter_delete, map_size_delete, map_lookup_filter.
  destruct (m !! k) as [b|] eqn:Ek; cbn; [|lia].
  destruct (Z.eqb_spec (bhits b) 1) as [E|E].
  - rewrite option_guard_True by done. cbn.
    assert (size (filter (λ kb : string * bucket, bhits kb.2 = 1%Z) m) ≠ 0); [|lia].
    rewrite map_size_ne_0_lookup. exists k, b. by apply map_lookup_filter_Some_2.
  - rewrite option_guard_False by done. cbn. lia.
Qed.

Lemma one_shots_insert m k b :
  one_shots (<[k:=b]> m) = (one_shots m - once (m !! k) + once (Some b))%Z.
Proof.
  rewrite <-insert_delete_eq, <-one_shots_delete.
  assert (delete k m !! k = None) as Hk by apply lookup_delete_eq.
  revert Hk. generalize (delete k m) as m0. intros m0 Hk.
  unfold one_shots, once. destruct (Z.eqb_spec (bhits b) 1) as [E|E].
  - rewrite map_filter_insert_True by done. rewrite map_size_insert_None; [lia|].
    apply map_lookup_filter_None_2. by left.
  - rewrite map_filter_insert_False, delete_id by done. lia.
Qed.

Lemma one_shots_bound m : (0 <= one_shots m <= Z.of_nat (size m))%Z.
Proof.
  unfold one_shots. split; [lia|]. apply inj_le, map_size_filter.
Qed.

(** ** The invariant *)

Definition class_of (b : bucket) : list_id := if f_lt (tokens b) f_one then Blocked else Active.

Record limiter_ok (l : Limiter) : Prop := {
  lo_nodup t : NoDup (which t l);
  lo_dom t k : k ∈ which t l ↔ ∃ b, buckets l !! k = Some b ∧ owner b = Some t;
  lo_owner k b : buckets l !! k = Some b → owner b = Some (class_of b) ∧ (1 <= bhits b)%Z;
  lo_oneShot : oneShot l = one_shots (buckets l);
  lo_cap : (Z.of_nat (size (buckets l)) <= maxKeys l < 2 ^ 32)%Z
}.

Lemma NewWithMaxKeys_ok r b n : (0 <= n < 2 ^ 32)%Z → limiter_ok (NewWithMaxKeys r b n).
Proof.
  intros Hn. split; cbn; try done.
  - intros []; constructor.
  - intros [] k; cbn; rewrite elem_of_nil, lookup_empty; naive_solver.
Qed.

Lemma which_set_list t t' ks l :
  which t (set_list t' ks l) = if decide (t = t') then ks else which t l.
Proof. by destruct t, t'. Qed.
Lemma buckets_set_list t ks l : buckets (set_list t ks l) = buckets l.
Proof. by destruct t. Qed.
Lemma which_set_buckets t bs l : which t (set_buckets bs l) = which t l.
Proof. by destruct t. Qed.
Lemma which_set_oneShot t n l : which t (set_oneShot n l) = which t l.
Proof. by destruct t. Qed.

Lemma elem_of_drop_key k k' ks : k' ∈ drop_key k ks ↔ k' ≠ k ∧ k' ∈ ks.
Proof. unfold drop_key. by rewrite list_elem_of_filter. Qed.
Lemma drop_key_id k ks : k ∉ ks → drop_key k ks = ks.
Proof.
  unfold drop_key. induction ks as [|x ks IH]; [done|]. rewrite not_elem_of_cons. intros [Hx Hk].
  rewrite filter_cons_True by congruence. by rewrite IH.
Qed.

(** Unlinking a key the lists hold at most where its owner says. *)
Lemma which_unlink k t o l :
  (∀ t', k ∈ which t' l → o = Some t') → which t (unlink k o l) = drop_key k (which t l).
Proof.
  intros Ho. destruct o as [t'|]; cbn.
  - rewrite which_set_list. case_decide as E; [by subst|].
    rewrite drop_key_id; [done|]. intros Hk. apply Ho in Hk. congruence.
  - rewrite drop_key_id; [done|]. intros Hk. by apply Ho in Hk.
Qed.

Definition same_config (l l' : Limiter) : Prop :=
  rate l' = rate l ∧ burst l' = burst l ∧ maxKeys l' = maxKeys l.

Lemma unlink_other k o l :
  buckets (unlink k o l) = buckets l ∧ oneShot (unlink k o l) = oneShot l ∧
  same_config l (unlink k o l).
Proof. destruct o as [[]|]; done. Qed.

Lemma removeKey_spec k l :
  limiter_ok l →
  buckets (removeKey k l) = delete k (buckets l) ∧
  (∀ t, which t (removeKey k l) = drop_key k (which t l)) ∧
  oneShot (removeKey k l) = one_shots (delete k (buckets l)) ∧
  same_config l (removeKey k l).
Proof.
  intros [Hn Hd Ho Hs Hc]. unfold removeKey. rewrite one_shots_delete.
  destruct (buckets l !! k) as [b|] eqn:Eb.
  2: { split_and!; try done.
       - by rewrite delete_id.
       - intros t. rewrite drop_key_id; [done|]. rewrite Hd, Eb. naive_solver.
       - cbn. lia. }
  cbv zeta. set (l1 := if _ && _ then _ else _).
  assert (buckets l1 = delete k (buckets l) ∧ (∀ t, which t l1 = which t l) ∧ same_config l l1)
    as (E1 & E2 & E3).
  { unfold l1. case_match; split_and!; try done; intros t; by destruct t. }
  destruct (unlink_other k (owner b) l1) as (U1 & U2 & U3). rewrite U1, U2. split_and!.
  - done.
  - intros t. rewrite which_unlink; [by rewrite E2|]. intros t'. rewrite E2, Hd, Eb. naive_solver.
  - pose proof (one_shots_bound (buckets l)). pose proof (one_shots_bound (delete k (buckets l))) as Hb'.
    rewrite one_shots_delete, Eb in Hb'. unfold l1, once in *.
    change (oneShot (set_buckets _ l)) with (oneShot l).
    revert Hb'. destruct (Z.eqb_spec (bhits b) 1); intros Hb'; cbn [andb].
    + destruct (Z.ltb_spec 0 (oneShot l)); [|cbn; lia].
      change (oneShot (set_oneShot ?n _)) with (n mod 2 ^ 32)%Z. rewrite Z.mod_small by lia. lia.
    + cbn. lia.
  - unfold same_config in *. intuition congruence.
Qed.

Lemma removeKey_ok k l : limiter_ok l → limiter_ok (removeKey k l).
Proof.
  intros Hl. destruct (removeKey_spec k l Hl) as (E1 & E2 & E3 & (_ & _ & E4)).
  destruct Hl as [Hn Hd Ho Hs Hc]. split.
  - intros t. rewrite E2. by apply NoDup_filter.
  - intros t k'. rewrite E2, E1, elem_of_drop_key, Hd, lookup_delete.
    case_decide; subst; naive_solver.
  - intros k' b. rewrite E1, lookup_delete. case_decide; [done|apply Ho].
  - by rewrite E3, E1.
  - rewrite E1, E4, map_size_delete. destruct (buckets l !! k); unfold id; lia.
Qed.

(** ** Eviction *)

Definition remove_all (rs : list string) (l : Limiter) : Limiter := foldl (λ l k, removeKey k l) l rs.

Lemma remove_all_spec rs l :
  limiter_ok l →
  limiter_ok (remove_all rs l) ∧
  (∀ t, which t (remove_all rs l) = filter (λ k, k ∉ rs) (which t l)) ∧
  (∀ k, buckets (remove_all rs l) !! k = if decide (k ∈ rs) then None else buckets l !! k) ∧
  same_config l (remove_all rs l).
Proof.
  revert l. induction rs as [|k rs IH]; intros l Hl.
  { cbn. split_and!; try done.
    - intros t. symmetry. apply list_filter_all. intros ? _. apply not_elem_of_nil. }
  destruct (IH _ (removeKey_ok k l Hl)) as (I1 & I2 & I3 & I4).
  destruct (removeKey_spec k l Hl) as (E1 & E2 & _ & E4).
  change (remove_all (k :: rs) l) with (remove_all rs (removeKey k l)). split_and!.
  - done.
  - intros t. rewrite I2, E2. unfold drop_key. rewrite list_filter_filter.
    apply list_filter_iff. intros x. rewrite not_elem_of_cons. tauto.
  - intros k'. rewrite I3, E1, lookup_delete. repeat case_decide; set_solver.
  - unfold same_config, remove_all in *. intuition congruence.
Qed.

Lemma remove_all_app rs1 rs2 l : remove_all (rs1 ++ rs2)%list l = remove_all rs2 (remove_all rs1 l).
Proof. apply foldl_app. Qed.

(** The keys one pass may take. *)
Definition candidate (oneShotPass : bool) (l : Limiter) (k : string) : Prop :=
  oneShotPass && has_repeats l k = false.

#[export] Instance candidate_dec os l k : Decision (candidate os l k).
Proof. unfold candidate. apply _. Defined.

Lemma evict_walk_spec os ks removed n l :
  limiter_ok l → NoDup ks → (removed <= n)%Z →
  evict_walk os ks removed n l =
  let rs := take (Z.to_nat (n - removed)) (filter (candidate os l) ks) in
  ((removed + Z.of_nat (length rs))%Z, remove_all rs l).
Proof.
  cbv zeta. intros Hl Hn. revert removed l Hl. induction Hn as [|k ks Hk Hn IH]; intros removed l Hl Hr.
  { cbn. rewrite take_nil. cbn. f_equal. lia. }
  cbn [evict_walk]. destruct (Z.ltb_spec removed n).
  2: { replace (Z.to_nat (n - removed)) with 0 by lia. rewrite take_0. cbn. f_equal. lia. }
  destruct (os && has_repeats l k) eqn:Ec.
  - rewrite IH by done. rewrite filter_cons_False; [done|]. unfold candidate. congruence.
  - rewrite filter_cons_True by done.
    replace (Z.to_nat (n - removed)) with (S (Z.to_nat (n - (removed + 1)))) by lia.
    rewrite IH by (first [by apply removeKey_ok|lia]).
    assert (filter (candidate os (removeKey k l)) ks = filter (candidate os l) ks) as ->.
    { apply list_filter_ext. intros x Hx. unfold candidate, has_repeats.
      destruct (removeKey_spec k l Hl) as (-> & _). rewrite lookup_delete_ne; [done|].
      intros ->. done. }
    cbn [take length remove_all foldl]. f_equal. lia.
Qed.

Lemma evict_pass_spec from os removed n l :
  limiter_ok l → (removed <= n)%Z →
  evict_pass from os removed n l =
  let rs := take (Z.to_nat (n - removed)) (filter (candidate os l) (rev (which from l))) in
  ((removed + Z.of_nat (length rs))%Z, remove_all rs l).
Proof.
  cbv zeta. intros Hl Hr. unfold evict_pass. destruct (os && (oneShot l =? 0)%Z) eqn:E.
  2: { apply evict_walk_spec; [done| |done]. rewrite <-reverse_rev. rewrite reverse_Permutation. by apply (lo_nodup _ Hl from). }
  apply andb_true_iff in E as [-> Hz%Z.eqb_eq].
  rewrite list_filter_none; [rewrite take_nil; cbn; f_equal; lia|].
  intros k Hk. unfold candidate, has_repeats. cbn.
  rewrite <-reverse_rev, elem_of_reverse in Hk. apply (lo_dom _ Hl) in Hk as (b & Hb & _).
  rewrite Hb. destruct (lo_owner _ Hl _ _ Hb) as [_ Hh].
  rewrite (lo_oneShot _ Hl) in Hz. pose proof (one_shots_bound (delete k (buckets l))) as Hd.
  rewrite one_shots_delete, Hb in Hd. unfold once in Hd.
  destruct (Z.eqb_spec (bhits b) 1); [lia|]. destruct (Z.ltb_spec 1 (bhits b)); [done|lia].
Qed.

Lemma filter_candidate_false l (ks : list string) : filter (candidate false l) ks = ks.
Proof. by apply list_filter_all. Qed.

(** The three groups of keys an eviction removes. *)
Definition evict1 (n : nat) (l : Limiter) : list string :=
  take n (filter (candidate true l) (rev (active l))).
Definition evict_tail (t : list_id) (n : nat) (l : Limiter) : list string :=
  take n (rev (which t l)).

Lemma evictLocked_eq n l :
  limiter_ok l → (0 < n)%Z →
  let rs1 := evict1 (Z.to_nat n) l in
  let l1 := remove_all rs1 l in
  let rs2 := evict_tail Active (Z.to_nat n - length rs1) l1 in
  let l2 := remove_all rs2 l1 in
  let rs3 := evict_tail Blocked (Z.to_nat n - length rs1 - length rs2) l2 in
  evictLocked n l = remove_all rs3 l2.
Proof.
  intros Hl Hn rs1 l1 rs2 l2 rs3. unfold evictLocked.
  destruct (Z.leb_spec n 0); [lia|]. rewrite evict_pass_spec by (done || lia). cbv zeta.
  rewrite Z.sub_0_r. change (take (Z.to_nat n) _) with rs1. fold l1.
  assert (limiter_ok l1) as Hl1 by by apply remove_all_spec.
  assert (length rs1 ≤ Z.to_nat n) as H1 by (unfold rs1, evict1; rewrite length_take; lia).
  destruct (Z.leb_spec n (0 + Z.of_nat (length rs1))) as [Hstop|Hgo].
  { assert (rs2 = []) as E2.
    { unfold rs2, evict_tail. by replace (Z.to_nat n - length rs1) with 0 by lia. }
    assert (rs3 = []) as E3.
    { unfold rs3, evict_tail. by replace (Z.to_nat n - length rs1 - length rs2) with 0 by lia. }
    rewrite E3. unfold l2. by rewrite E2. }
  rewrite evict_pass_spec by (done || lia). cbv zeta. rewrite filter_candidate_false.
  replace (Z.to_nat (n - (0 + Z.of_nat (length rs1)))) with (Z.to_nat n - length rs1) by lia.
  change (take _ (rev (which Active l1))) with rs2. fold l2.
  assert (limiter_ok l2) as Hl2 by by apply remove_all_spec.
  assert (length rs2 ≤ Z.to_nat n - length rs1) as H2
    by (unfold rs2, evict_tail; rewrite length_take; lia).
  destruct (Z.leb_spec n (0 + Z.of_nat (length rs1) + Z.of_nat (length rs2))) as [Hstop|Hgo2].
  { assert (rs3 = []) as E3.
    { unfold rs3, evict_tail. by replace (Z.to_nat n - length rs1 - length rs2) with 0 by lia. }
    by rewrite E3. }
  rewrite evict_pass_spec by (done || lia). cbn [snd]. rewrite filter_candidate_false.
  replace (Z.to_nat (n - (0 + Z.of_nat (length rs1) + Z.of_nat (length rs2))))
    with (Z.to_nat n - length rs1 - length rs2) by lia. done.
Qed.

(** Lengths and order of what is left. *)
Lemma filter_out_length {A} `{EqDecision A} (rs ks : list A) :
  NoDup rs → NoDup ks → rs ⊆ ks → length (filter (λ k, k ∉ rs) ks) + length rs = length ks.
Proof.
  intros Hr Hk Hs. rewrite Nat.add_comm, <-length_app. apply Permutation_length.
  apply NoDup_Permutation; [|done|].
  - apply NoDup_app. split_and!; [done| |by apply NoDup_filter].
    intros x Hx. rewrite list_elem_of_filter. tauto.
  - intros x. rewrite elem_of_app, list_elem_of_filter.
    destruct (decide (x ∈ rs)); [split; auto|tauto].
Qed.

Lemma filter_out_tail {A} `{EqDecision A} (n : nat) (ks : list A) :
  NoDup ks → filter (λ k, k ∉ take n (rev ks)) ks = take (length ks - n) ks.
Proof.
  intros Hn. rewrite firstn_rev, <-reverse_rev. set (m := length ks - n).
  trans (filter (λ k, k ∉ reverse (drop m ks)) (take m ks ++ drop m ks)%list);
    [by rewrite take_drop|]. rewrite filter_app.
  rewrite <-(take_drop m ks) in Hn. apply NoDup_app in Hn as (_ & Hd & _).
  rewrite list_filter_all, list_filter_none, app_nil_r; [done| |].
  - intros x Hx. rewrite elem_of_reverse. tauto.
  - intros x Hx. rewrite elem_of_reverse. auto.
Qed.

Lemma elem_of_nonempty_length {A} (k : A) ks : k ∈ ks → 0 < length ks.
Proof. destruct ks; [by intros ?%elem_of_nil|cbn; lia]. Qed.

(** The lists hold exactly the tracked keys. *)
Lemma size_lists l : limiter_ok l → size (buckets l) = length (active l) + length (blocked l).
Proof.
  intros Hl. pose proof (lo_dom _ Hl) as Hd.
  rewrite <-length_app, <-(size_list_to_set (C := gset string)).
  - rewrite <-size_dom. f_equal. apply set_eq. intros k.
    rewrite elem_of_dom, elem_of_list_to_set, elem_of_app, (Hd Active), (Hd Blocked).
    split; [|naive_solver]. intros [b Hb]. destruct (lo_owner _ Hl _ _ Hb) as [Ho _].
    destruct (class_of b); eauto.
  - apply NoDup_app. split_and!; [apply (lo_nodup _ Hl Active)| |apply (lo_nodup _ Hl Blocked)].
    intros k (b & Hb & E)%(Hd Active) (b' & Hb' & E')%(Hd Blocked). congruence.
Qed.

Lemma evict1_sub n l k : k ∈ evict1 n l → k ∈ active l ∧ candidate true l k.
Proof.
  unfold evict1. intros Hk%elem_of_take. destruct Hk as (i & Hi & _).
  apply list_elem_of_lookup_2, list_elem_of_filter in Hi as [Hc Hi].
  by rewrite <-reverse_rev, elem_of_reverse in Hi.
Qed.

Lemma NoDup_take_le {A} (n : nat) (ks : list A) : NoDup ks → NoDup (take n ks).
Proof. intros Hn. rewrite <-(take_drop n ks) in Hn. by apply NoDup_app in Hn as (? & _). Qed.

Lemma NoDup_rev_which t l : limiter_ok l → NoDup (rev (which t l)).
Proof. intros Hl. rewrite <-reverse_rev, reverse_Permutation. apply (lo_nodup _ Hl). Qed.

Lemma removed_length t rs l :
  limiter_ok l → NoDup rs → rs ⊆ which t l →
  length (which t (remove_all rs l)) + length rs = length (which t l).
Proof.
  intros Hl Hr Hs. destruct (remove_all_spec rs l Hl) as (_ & -> & _).
  apply filter_out_length; [done|apply (lo_nodup _ Hl)|done].
Qed.

Lemma which_disjoint l k : limiter_ok l → k ∈ active l → k ∈ blocked l → False.
Proof.
  intros Hl (b & Hb & E)%(lo_dom _ Hl Active) (b' & Hb' & E')%(lo_dom _ Hl Blocked). congruence.
Qed.

Lemma other_list_kept t t' rs l :
  limiter_ok l → t ≠ t' → rs ⊆ which t l → which t' (remove_all rs l) = which t' l.
Proof.
  intros Hl Ht Hs. destruct (remove_all_spec rs l Hl) as (_ & -> & _).
  apply list_filter_all. intros k Hk Hr. apply Hs in Hr.
  destruct t, t'; try done; cbn in *; by eapply which_disjoint.
Qed.

Lemma evict_tail_which t n l :
  limiter_ok l →
  which t (remove_all (evict_tail t n l) l) = take (length (which t l) - n) (which t l).
Proof.
  intros Hl. destruct (remove_all_spec (evict_tail t n l) l Hl) as (_ & -> & _).
  apply filter_out_tail, (lo_nodup _ Hl).
Qed.
Lemma evict_tail_sub t n l : evict_tail t n l ⊆ which t l.
Proof.
  intros k. unfold evict_tail. intros (i & Hi & _)%elem_of_take.
  apply list_elem_of_lookup_2 in Hi. by rewrite <-reverse_rev, elem_of_reverse in Hi.
Qed.
Lemma evict_tail_length t n l : length (evict_tail t n l) = Nat.min n (length (which t l)).
Proof. unfold evict_tail. by rewrite length_take, <-reverse_rev, length_reverse. Qed.

(** An eviction in terms of its three groups of keys, and what it leaves. *)
Definition evict2 (n : nat) (l : Limiter) : list string :=
  evict_tail Active (n - length (evict1 n l)) (remove_all (evict1 n l) l).
Definition after2 (n : nat) (l : Limiter) : Limiter :=
  remove_all (evict2 n l) (remove_all (evict1 n l) l).
Definition evict3 (n : nat) (l : Limiter) : list string :=
  evict_tail Blocked (n - length (evict1 n l) - length (evict2 n l)) (after2 n l).

Lemma evict_lists n l :
  limiter_ok l →
  let l' := remove_all (evict3 n l) (after2 n l) in
  let ones := filter (λ k, k ∉ evict1 n l) (active l) in
  limiter_ok l' ∧
  active l' = take (length ones - (n - length (evict1 n l))) ones ∧
  blocked l' = take (length (blocked l) - (n - length (evict1 n l) - length (evict2 n l))) (blocked l) ∧
  length ones + length (evict1 n l) = length (active l) ∧
  length (evict1 n l) ≤ n ∧
  length (evict2 n l) = Nat.min (n - length (evict1 n l)) (length ones) ∧
  length (evict3 n l) = Nat.min (n - length (evict1 n l) - length (evict2 n l)) (length (blocked l)).
Proof.
  intros Hl. cbv zeta. set (rs1 := evict1 n l). set (l1 := remove_all rs1 l).
  assert (rs1 ⊆ which Active l) as Hs1 by (intros k Hk; by apply evict1_sub in Hk as [? _]).
  assert (NoDup rs1) as Hd1 by apply NoDup_take_le, NoDup_filter, (NoDup_rev_which Active _ Hl).
  destruct (remove_all_spec rs1 l Hl) as (Hl1 & W1 & _). fold l1 in Hl1, W1.
  destruct (remove_all_spec (evict2 n l) l1 Hl1) as (Hl2 & _).
  change (remove_all (evict2 n l) l1) with (after2 n l) in Hl2.
  assert (blocked l1 = blocked l) as K1 by (by apply (other_list_kept Active Blocked)).
  assert (blocked (after2 n l) = blocked l) as K2.
  { rewrite <-K1. apply (other_list_kept Active Blocked); [done|done|apply evict_tail_sub]. }
  pose proof (W1 Active) as A1. cbn [which] in A1.
  pose proof (evict_tail_which Active (n - length rs1) l1 Hl1) as A2. cbn [which] in A2.
  rewrite A1 in A2.
  pose proof (evict_tail_which Blocked (n - length rs1 - length (evict2 n l)) _ Hl2) as A3.
  cbn [which] in A3. rewrite K2 in A3. split_and!.
  - by apply remove_all_spec.
  - rewrite <-A2. apply (other_list_kept Blocked Active); [done|done|apply evict_tail_sub].
  - exact A3.
  - by apply filter_out_length; [|apply (lo_nodup _ Hl Active)|].
  - unfold rs1, evict1. rewrite length_take. lia.
  - unfold evict2. rewrite evict_tail_length. fold rs1 l1. cbn [which]. by rewrite A1.
  - unfold evict3. rewrite evict_tail_length. cbn [which]. by rewrite K2.
Qed.

Lemma evict_buckets n l k :
  limiter_ok l →
  buckets (remove_all (evict3 n l) (after2 n l)) !! k =
  if decide (k ∈ evict1 n l ∨ k ∈ evict2 n l ∨ k ∈ evict3 n l) then None else buckets l !! k.
Proof.
  intros Hl. destruct (remove_all_spec (evict1 n l) l Hl) as (Hl1 & _ & B1 & _).
  destruct (remove_all_spec (evict2 n l) _ Hl1) as (Hl2 & _ & B2 & _).
  destruct (remove_all_spec (evict3 n l) _ Hl2) as (_ & _ & B3 & _).
  unfold after2. rewrite B3, B2, B1. repeat case_decide; tauto.
Qed.

Lemma evict_groups n l k :
  limiter_ok l →
  (k ∈ evict1 n l → k ∈ active l ∧ candidate true l k) ∧
  (k ∈ evict2 n l → k ∈ active l) ∧ (k ∈ evict3 n l → k ∈ blocked l).
Proof.
  intros Hl. destruct (remove_all_spec (evict1 n l) l Hl) as (Hl1 & W1 & _).
  destruct (remove_all_spec (evict2 n l) _ Hl1) as (_ & W2 & _).
  split_and!; [apply evict1_sub| |].
  - intros Hk%evict_tail_sub. rewrite (W1 Active) in Hk. by apply list_elem_of_filter in Hk as [_ ?].
  - intros Hk%evict_tail_sub. unfold after2 in Hk. rewrite (W2 Blocked), (W1 Blocked) in Hk.
    by apply list_elem_of_filter in Hk as [_ [_ ?]%list_elem_of_filter].
Qed.

Lemma evictLocked_ok n l :
  limiter_ok l → (0 < n <= Z.of_nat (size (buckets l)))%Z →
  limiter_ok (evictLocked n l) ∧ buckets (evictLocked n l) ⊆ buckets l ∧
  (Z.of_nat (size (buckets (evictLocked n l))) + n)%Z = Z.of_nat (size (buckets l)).
Proof.
  intros Hl Hn. rewrite (evictLocked_eq n l Hl) by lia. cbv zeta.
  set (m := Z.to_nat n). change (evict_tail Blocked _ _) with (evict3 m l).
  change (remove_all (evict_tail Active _ _) _) with (after2 m l).
  destruct (evict_lists m l Hl) as (Hl' & Ha & Hb & L1 & R1 & L2 & L3).
  pose proof (size_lists l Hl) as Z0. pose proof (size_lists _ Hl') as Z3.
  pose proof (f_equal length Ha) as LA. pose proof (f_equal length Hb) as LB.
  rewrite length_take in LA, LB. split_and!; [done| |lia].
  apply map_subseteq_spec. intros k b. rewrite evict_buckets by done. by case_decide.
Qed.

(** Eviction order: evicting [n] keys removes exactly [n]; a throttled key is removed only
    when no other key is left, a repeat visitor only when no one-shot key is left, and
    among throttled keys the survivors are the most recently used. *)
Theorem eviction_order n l :
  limiter_ok l → (0 < n <= Z.of_nat (size (buckets l)))%Z →
  let l' := evictLocked n l in
  limiter_ok l' ∧ buckets l' ⊆ buckets l ∧
  (Z.of_nat (size (buckets l')) + n)%Z = Z.of_nat (size (buckets l)) ∧
  (∀ k, k ∈ blocked l → buckets l' !! k = None → active l' = []) ∧
  (∀ k, k ∈ active l → has_repeats l k = true → buckets l' !! k = None →
     ∀ j, j ∈ active l' → has_repeats l j = true) ∧
  ∃ m, blocked l' = take m (blocked l).
Proof.
  intros Hl Hn. cbv zeta. destruct (evictLocked_ok n l Hl Hn) as (E1 & E2 & E3).
  do 3 (split; [done|]). clear E1 E2 E3. rewrite (evictLocked_eq n l Hl) by lia. cbv zeta.
  set (m := Z.to_nat n). change (evict_tail Blocked _ _) with (evict3 m l).
  change (remove_all (evict_tail Active _ _) _) with (after2 m l).
  destruct (evict_lists m l Hl) as (Hl' & Ha & Hb & L1 & R1 & L2 & L3).
  pose proof (evict_buckets m l) as HB. pose proof (evict_groups m l) as HG.
  set (l' := remove_all (evict3 m l) (after2 m l)) in *. set (ones := filter _ (active l)) in *.
  pose proof (size_lists l Hl) as Z0.
  pose proof (f_equal length Ha) as LA. rewrite length_take in LA. split_and!; [| |by eexists].
  - intros k Hk Hnone. pose proof Hk as (b & Eb & _)%(lo_dom _ Hl Blocked).
    rewrite HB in Hnone by done. case_decide as Hin; [|congruence].
    destruct (HG k Hl) as (G1 & G2 & _).
    assert (k ∈ evict3 m l) as Hk3.
    { destruct Hin as [?|[?|?]]; [| |done]; exfalso; apply (which_disjoint l k Hl); naive_solver. }
    apply elem_of_nonempty_length in Hk3. apply length_zero_iff_nil. lia.
  - intros k Hk Hrep Hnone j Hj. pose proof Hk as (b & Eb & _)%(lo_dom _ Hl Active).
    rewrite HB in Hnone by done. case_decide as Hin; [|congruence].
    destruct (HG k Hl) as (G1 & _ & G3).
    assert (k ∈ evict2 m l) as Hk2.
    { destruct Hin as [Hk1|[?|?]]; [|done|].
      - destruct (G1 Hk1) as [_ Hc]. unfold candidate in Hc. by rewrite Hrep in Hc.
      - exfalso. apply (which_disjoint l k Hl); auto. }
    apply elem_of_nonempty_length in Hk2.
    rewrite Ha in Hj. apply elem_of_take in Hj as (i & Hj%list_elem_of_lookup_2 & _).
    apply list_elem_of_filter in Hj as [Hj1 Hj]. destruct (has_repeats l j) eqn:Er; [done|].
    destruct Hj1. unfold evict1. rewrite take_ge by (unfold evict1 in *; rewrite length_take in *; lia).
    rewrite list_elem_of_filter, <-reverse_rev, elem_of_reverse. unfold candidate. by rewrite Er.
Qed.

(** ** Requests *)

Lemma trimCount_range l :
  (0 < size (buckets l)) → (0 < trimCount l <= Z.of_nat (size (buckets l)))%Z.
Proof.
  intros Hs. unfold trimCount.
  destruct (Z.ltb_spec (f_trunc (f_mul (f_of_Z (maxKeys l)) evictionRatio)) 1); cbv zeta;
    match goal with |- context [(?a <? ?b)%Z] => destruct (Z.ltb_spec a b) end; lia.
Qed.

Lemma evictLocked_config n l : limiter_ok l → (0 < n)%Z → same_config l (evictLocked n l).
Proof.
  intros Hl Hn. rewrite (evictLocked_eq n l Hl Hn). cbv zeta.
  destruct (remove_all_spec (evict1 (Z.to_nat n) l) l Hl) as (Hl1 & _ & _ & C1).
  match goal with |- same_config _ (remove_all ?r3 (remove_all ?r2 ?x)) =>
    destruct (remove_all_spec r2 x Hl1) as (Hl2 & _ & _ & C2);
    destruct (remove_all_spec r3 _ Hl2) as (_ & _ & _ & C3) end.
  unfold same_config in *. intuition congruence.
Qed.

(** What [find_bucket] works from: the limiter after the eviction it may run. *)
Definition room (key : string) (l : Limiter) : Limiter :=
  match buckets l !! key with
  | Some _ => l
  | None => if (0 <? maxKeys l)%Z && (maxKeys l <=? Z.of_nat (size (buckets l)))%Z
            then evictLocked (trimCount l) l else l
  end.

Lemma room_spec key l :
  limiter_ok l → (0 < maxKeys l)%Z →
  limiter_ok (room key l) ∧ buckets (room key l) ⊆ buckets l ∧ same_config l (room key l) ∧
  buckets (room key l) !! key = buckets l !! key ∧
  (buckets l !! key = None → (Z.of_nat (size (buckets (room key l))) < maxKeys l)%Z).
Proof.
  intros Hl Hm. unfold room. destruct (buckets l !! key) as [b|] eqn:Eb; [by rewrite Eb|].
  destruct (Z.ltb_spec 0 (maxKeys l)); [|lia]. cbn [andb].
  destruct (Z.leb_spec (maxKeys l) (Z.of_nat (size (buckets l)))) as [Hfull|Hroom]; [|by rewrite Eb].
  pose proof (trimCount_range l ltac:(lia)) as Ht.
  destruct (evictLocked_ok (trimCount l) l Hl Ht) as (E1 & E2 & E3).
  pose proof (lo_cap _ Hl). split_and!; [done|done|apply evictLocked_config; [done|lia]| |lia].
  destruct (buckets (evictLocked (trimCount l) l) !! key) eqn:E; [|done].
  eapply lookup_weaken in E; [|done]. congruence.
Qed.

(** The bucket, the verdict and the limiter that one request leaves. *)
Definition current (key : string) (now : Z) (l : Limiter) : bucket :=
  default (mkBucket (f_of_Z (burst l)) now 0 None) (buckets l !! key).
Definition verdict (key : string) (now : Z) (l : Limiter) : bool :=
  negb (f_lt (refill l (current key now l) now) f_one).
Definition served (key : string) (now : Z) (l : Limiter) : bucket :=
  let b := current key now l in
  let t := refill l b now in
  mkBucket (if verdict key now l then f_sub t f_one else t) now (bhits b + 1) (owner b).

Lemma class_of_verdict key now l :
  f_lt (tokens (served key now l)) f_one =
  if verdict key now l then f_lt (f_sub (refill l (current key now l) now) f_one) f_one else true.
Proof.
  unfold served. cbn. unfold verdict. by destruct (f_lt (refill _ _ _) f_one) eqn:E; cbn; rewrite ?E.
Qed.

(** The limiter before [place]: [oneShot] adjusted, the fresh bucket inserted. *)
Definition prepared (key : string) (now : Z) (l : Limiter) : Limiter :=
  let '(b, l) := find_bucket key now l in
  if (bhits b =? 1)%Z then set_oneShot (oneShot l - 1) l else l.

Lemma find_bucket_eq key now l :
  find_bucket key now l =
  match buckets l !! key with
  | Some b => (b, l)
  | None =>
      let b := mkBucket (f_of_Z (burst (room key l))) now 0 None in
      (b, set_oneShot (oneShot (room key l) + 1)
            (set_buckets (<[key := b]> (buckets (room key l))) (room key l)))
  end.
Proof. unfold find_bucket, room. by destruct (buckets l !! key). Qed.

Lemma Allow_locked_eq key now l :
  limiter_ok l → (0 < maxKeys l)%Z →
  Allow_locked key now l =
  (place key (served key now l) (f_lt (tokens (served key now l)) f_one) (prepared key now l),
   verdict key now l).
Proof.
  intros Hl Hm. unfold Allow_locked, prepared, served, verdict, current. rewrite find_bucket_eq.
  destruct (room_spec key l Hl Hm) as (_ & _ & (Cr & Cb & _) & _).
  destruct (buckets l !! key) as [b|] eqn:Eb; cbn [default from_option]; unfold id.
  - assert (∀ l', same_config l l' → refill l' b now = refill l b now) as Hr.
    { intros l' (E1 & E2 & _). unfold refill. by rewrite E1, E2. }
    set (l1 := if (bhits b =? 1)%Z then _ else l). rewrite (Hr l1) by (unfold l1; by case_match);
      destruct (f_lt (refill l b now) f_one) eqn:E; cbn [negb tokens]; by rewrite ?E.
  - cbn [bhits]. cbv zeta. rewrite Cb.
    match goal with |- context [refill ?l' ?b now] =>
      assert (refill l' b now = refill l b now) as ->
        by (unfold refill; cbn; by rewrite Cr, Cb) end.
    destruct (f_lt (refill l _ now) f_one) eqn:E; cbn [negb tokens bhits owner]; by rewrite ?E.
Qed.

Lemma place_spec (k : string) (b : bucket) (blk : bool) (l : Limiter) :
  (∀ t, k ∈ which t l → owner b = Some t) →
  let target := if blk then Blocked else Active in
  buckets (place k b blk l) =
    <[k := mkBucket (tokens b) (lastCheck b) (bhits b) (Some target)]> (buckets l) ∧
  (∀ t, which t (place k b blk l) =
     (if decide (t = target) then [k] else []) ++ drop_key k (which t l))%list ∧
  oneShot (place k b blk l) = oneShot l ∧ same_config l (place k b blk l).
Proof.
  intros Ho target. unfold place. fold target.
  destruct (unlink_other k (owner b) l) as (U1 & U2 & U3). split_and!.
  - by rewrite buckets_set_list, <-U1.
  - intros t. rewrite which_set_list, !which_set_buckets, !which_unlink by done.
    case_decide as E; [by subst|done].
  - rewrite <-U2. by destruct target.
  - destruct target; exact U3.
Qed.

Lemma prepared_spec key now l :
  limiter_ok l → (0 < maxKeys l)%Z →
  let l1 := room key l in
  (∀ t, which t (prepared key now l) = which t l1) ∧
  (∀ b, <[key := b]> (buckets (prepared key now l)) = <[key := b]> (buckets l1)) ∧
  oneShot (prepared key now l) =
    (one_shots (buckets l1) - once (buckets l1 !! key) + once (Some (served key now l)))%Z ∧
  same_config l1 (prepared key now l).
Proof.
  intros Hl Hm. cbv zeta. unfold prepared. rewrite find_bucket_eq.
  destruct (room_spec key l Hl Hm) as (Hl1 & _ & (_ & _ & Cm) & Hk & Hroom).
  pose proof (one_shots_bound (buckets (room key l))) as Hb. pose proof (lo_cap _ Hl1) as Hc.
  pose proof (lo_oneShot _ Hl1) as Hs. rewrite Hk. unfold served, current.
  destruct (buckets l !! key) as [b|] eqn:Eb; cbn [default from_option]; unfold id.
  - assert (room key l = l) as Er by (unfold room; by rewrite Eb). rewrite Er in *.
    destruct (lo_owner _ Hl _ _ Eb) as [_ Hh].
    pose proof (one_shots_bound (delete key (buckets l))) as Hd.
    rewrite one_shots_delete, Eb in Hd. revert Hd. unfold once. cbn [bhits].
    destruct (Z.eqb_spec (bhits b + 1) 1); [lia|].
    destruct (Z.eqb_spec (bhits b) 1) as [E1|E1]; intros Hd; split_and!; try done.
    + change (oneShot (set_oneShot ?n _)) with (n mod 2 ^ 32)%Z. rewrite Z.mod_small by lia. lia.
    + lia.
  - specialize (Hroom eq_refl). cbn [bhits]. cbv zeta. unfold once. cbn [bhits]. change (0 =? 1)%Z with false. cbv iota. split_and!.
    + intros t. by destruct t.
    + intros b. cbn. by rewrite insert_insert_eq.
    + change (oneShot (set_oneShot ?n _)) with (n mod 2 ^ 32)%Z.
      rewrite Z.mod_small by lia. change (0 + 1 =? 1)%Z with true. cbv iota. lia.
    + done.
Qed.

(** The limiter after a request, and the request's verdict. *)
Lemma Allow_locked_spec key now l l' r :
  limiter_ok l → (0 < maxKeys l)%Z → Allow_locked key now l = (l', r) →
  r = verdict key now l ∧ limiter_ok l' ∧ same_config l l' ∧
  (∃ b, buckets l' !! key = Some b ∧ tokens b = tokens (served key now l) ∧ lastCheck b = now) ∧
  (∀ k, k ≠ key → buckets l' !! k = buckets (room key l) !! k).
Proof.
  intros Hl Hm. rewrite Allow_locked_eq by done. intros [<- <-]%pair_equal_spec. split; [done|].
  destruct (room_spec key l Hl Hm) as (Hl1 & _ & C1 & Hk & Hroom).
  destruct (prepared_spec key now l Hl Hm) as (W & B & O & C2). cbv zeta in *.
  set (b := served key now l) in *. set (blk := f_lt (tokens b) f_one).
  assert (∀ t, key ∈ which t (prepared key now l) → owner b = Some t) as Hown.
  { intros t. rewrite W, (lo_dom _ Hl1), Hk. intros (b0 & E & Eo). subst b. unfold served, current.
    by rewrite E. }
  destruct (place_spec key b blk _ Hown) as (PB & PW & PO & PC). cbv zeta in *.
  rewrite B in PB. set (b' := mkBucket _ _ _ _) in PB.
  assert (class_of b' = if blk then Blocked else Active) as Hcls by done.
  assert (1 <= bhits b')%Z as Hh.
  { cbn. subst b. unfold served, current. cbn.
    destruct (buckets l !! key) eqn:E; cbn; [destruct (lo_owner _ Hl _ _ E); lia|lia]. }
  pose proof Hl1 as [Hn Hd Ho Hs Hc].
  assert (same_config l (place key b blk (prepared key now l))) as C3
    by (unfold same_config in *; intuition congruence).
  split; [split|split; [exact C3|split]].
  - intros t. rewrite PW, W. case_decide; cbn [app]; [|by apply NoDup_filter].
    constructor; [rewrite elem_of_drop_key; tauto|by apply NoDup_filter].
  - intros t k. rewrite PW, W, PB, elem_of_app, elem_of_drop_key, Hd, lookup_insert.
    destruct (decide (key = k)) as [<-|Hne].
    + case_decide as E; [|rewrite elem_of_nil; naive_solver].
      rewrite list_elem_of_singleton. split; [|tauto]. intros _. exists b'. by rewrite E.
    + case_decide; rewrite ?list_elem_of_singleton, ?elem_of_nil; naive_solver.
  - intros k x. rewrite PB, lookup_insert. case_decide; [|apply Ho].
    intros [= <-]. split; [by rewrite Hcls|done].
  - rewrite PO, PB, O, one_shots_insert. done.
  - destruct C3 as (_ & _ & ->). destruct C1 as (_ & _ & E). rewrite PB, map_size_insert, Hk.
    destruct (buckets l !! key); unfold id in *; [lia|]. specialize (Hroom eq_refl). lia.
  - exists b'. split; [|done]. by rewrite PB, lookup_insert_eq.
  - intros k Hne. by rewrite PB, lookup_insert_ne.
Qed.

(** ** Cleanup *)

Lemma sweep_ok ks cutoff l :
  limiter_ok l →
  limiter_ok (sweep ks cutoff l) ∧ same_config l (sweep ks cutoff l) ∧
  (∀ k, buckets (sweep ks cutoff l) !! k = buckets l !! k ∨
        buckets (sweep ks cutoff l) !! k = None ∧
        ∃ b, buckets l !! k = Some b ∧ (lastCheck b < cutoff)%Z).
Proof.
  revert l. induction ks as [|k ks IH]; intros l Hl; cbn; [by split; [|split; [|intros; left]]|].
  destruct (buckets l !! k) as [b|] eqn:Eb; [|by split; [|split; [|intros; left]]].
  destruct (Z.ltb_spec (lastCheck b) cutoff); [|by split; [|split; [|intros; left]]].
  destruct (removeKey_spec k l Hl) as (E1 & _ & _ & E4).
  destruct (IH _ (removeKey_ok k l Hl)) as (I1 & I2 & I3). split; [done|split].
  - unfold same_config in *. intuition congruence.
  - intros k'. destruct (I3 k') as [E|[E (b' & Eb' & Hb')]]; rewrite E1, lookup_delete in *.
    + case_decide; subst; eauto.
    + case_decide; [done|]. eauto.
Qed.

Lemma cleanup_ok now l :
  limiter_ok l →
  limiter_ok (cleanup now l) ∧ same_config l (cleanup now l).
Proof.
  intros Hl. unfold cleanup.
  destruct (sweep_ok (rev (active l)) (now - idleThreshold) l Hl) as (Hl1 & C1 & _).
  destruct (sweep_ok (rev (blocked (sweep (rev (active l)) (now - idleThreshold) l)))
              (now - idleThreshold) _ Hl1) as (Hl2 & C2 & _).
  split; [done|]. unfold same_config in *. intuition congruence.
Qed.

(** ** Reachable limiters *)

Inductive limiter_op := DoAllow (key : string) (now : Z) | DoCleanup (now : Z).
Definition run_op (l : Limiter) (o : limiter_op) : Limiter :=
  match o with
  | DoAllow key now => default l (Allow key now (Some l)).1
  | DoCleanup now => cleanup now l
  end.

Lemma run_op_ok l o :
  limiter_ok l → (0 < maxKeys l)%Z → limiter_ok (run_op l o) ∧ same_config l (run_op l o).
Proof.
  intros Hl Hm. destruct o as [key now|now]; [|by apply cleanup_ok]. cbn.
  destruct (disabled l); [done|]. destruct (Allow_locked key now l) as [l' r] eqn:E. cbn.
  by destruct (Allow_locked_spec _ _ _ _ _ Hl Hm E) as (_ & ? & ? & _).
Qed.

(** From a new limiter, after any sequence of requests and cleanups at any times, each
    recency list has no repetition, the lists hold exactly the tracked keys, a key is
    in the blocked list exactly when it holds less than one token, [oneShot] is the
    number of keys seen once, and the number of keys never exceeds the cap. *)
Theorem limiter_invariant r b n ops :
  (0 < n < 2 ^ 32)%Z →
  let l := foldl run_op (NewWithMaxKeys r b n) ops in
  limiter_ok l ∧ (Len (Some l) <= n)%Z ∧
  ∀ k, k ∈ blocked l ↔ ∃ bk, buckets l !! k = Some bk ∧ f_lt (tokens bk) f_one = true.
Proof.
  intros Hn l. assert (limiter_ok l ∧ maxKeys l = n) as [Hl Hm].
  { unfold l. assert (limiter_ok (NewWithMaxKeys r b n)) as H0 by (apply NewWithMaxKeys_ok; lia).
    assert (maxKeys (NewWithMaxKeys r b n) = n) as Hm0 by done.
    clear l. revert H0 Hm0. generalize (NewWithMaxKeys r b n) as l.
    induction ops as [|o ops IH]; intros l Hl Hm; [done|]. cbn.
    destruct (run_op_ok l o Hl ltac:(lia)) as [Hl' (_ & _ & Hm')]. apply IH; [done|congruence]. }
  split; [done|]. split; [rewrite <-Hm; apply (lo_cap _ Hl)|]. intros k.
  rewrite (lo_dom _ Hl Blocked). split; intros (bk & Ek & Hb); exists bk; (split; [done|]);
    destruct (lo_owner _ Hl _ _ Ek) as [Ho _]; unfold class_of in Ho; rewrite Ho in *.
  - by destruct (f_lt _ _).
  - by rewrite Hb.
Qed.

(** The blocked list means what it says: a tracked key asking again at the instant of its
    last request is denied exactly when it is in the blocked list. *)
Theorem blocked_iff_denied l key b :
  limiter_ok l → (0 < maxKeys l)%Z → disabled l = false → f_finite (rate l) = true →
  f_lt (f_of_Z (burst l)) f_one = false →
  buckets l !! key = Some b →
  (Allow key (lastCheck b) (Some l)).2 = false ↔ key ∈ blocked l.
Proof.
  intros Hl Hm Hdis Hr Hb Eb. unfold Allow. rewrite Hdis, Allow_locked_eq by done. cbn [snd].
  unfold verdict, current. rewrite Eb. cbn [default from_option]. unfold id.
  rewrite (lo_dom _ Hl Blocked). destruct (lo_owner _ Hl _ _ Eb) as [Ho _].
  assert (f_lt (refill l b (lastCheck b)) f_one = f_lt (tokens b) f_one) as ->.
  { unfold refill. rewrite Z.sub_diag. destruct (f_mul_zero_elapsed (rate l) Hr) as [s ->].
    rewrite f_lt_add_szero_r. destruct (f_lt (f_of_Z (burst l)) (tokens b)) eqn:Ec.
    - rewrite Hb. destruct (f_lt (tokens b) f_one) eqn:Et; [|done].
      by rewrite (f_lt_trans _ _ _ Ec Et) in Hb.
    - apply f_lt_add_szero. }
  unfold class_of in Ho. destruct (f_lt (tokens b) f_one); cbn; naive_solver.
Qed.

(** A request never changes another client's bucket: it is untouched, unless the request
    came from a new key at a full map and evicted it; a tracked key's request evicts
    nobody. *)
Theorem allow_isolated l key now l' r k :
  limiter_ok l → (0 < maxKeys l)%Z → Allow key now (Some l) = (Some l', r) → k ≠ key →
  buckets l' !! k = buckets l !! k ∨
  buckets l' !! k = None ∧ buckets l !! key = None ∧ Len (Some l) = maxKeys l.
Proof.
  intros Hl Hm. unfold Allow. destruct (disabled l); [intros [= <- <-]; by left|].
  destruct (Allow_locked key now l) as [l1 r1] eqn:E. intros [= <- <-] Hk.
  destruct (Allow_locked_spec _ _ _ _ _ Hl Hm E) as (_ & _ & _ & _ & Ho). rewrite Ho by done.
  destruct (room_spec key l Hl Hm) as (_ & Hsub & _). unfold room in *.
  destruct (buckets l !! key); [by left|].
  destruct (Z.ltb_spec 0 (maxKeys l)); [|lia]. cbn [andb] in *.
  destruct (Z.leb_spec (maxKeys l) (Z.of_nat (size (buckets l)))) as [Hfull|]; [|by left].
  destruct (buckets (evictLocked (trimCount l) l) !! k) as [b|] eqn:Ek.
  - left. symmetry. by eapply lookup_weaken.
  - right. split_and!; [done|done|]. pose proof (lo_cap _ Hl). cbn. lia.
Qed.

(** ** Witnesses: one request per second with a burst of two, at most two keys *)

Module Examples.
Definition new : Limiter := NewWithMaxKeys (f_of_Z 60) 2 2.
Definition ops : list limiter_op :=
  [DoAllow "a" 0; DoAllow "a" 0; DoAllow "a" 0; DoAllow "b" 0].
Definition full : Limiter := foldl run_op new ops.

Lemma full_ok : limiter_ok full.
Proof.
  unfold full. assert (limiter_ok new) as Hl by (apply NewWithMaxKeys_ok; lia).
  do 4 (apply run_op_ok; [|vm_compute; reflexivity]). exact Hl.
Qed.

Lemma limiter_invariant_witness :
  limiter_ok full ∧ (Len (Some full) <= 2)%Z ∧
  ∀ k, k ∈ blocked full ↔ ∃ bk, buckets full !! k = Some bk ∧ f_lt (tokens bk) f_one = true.
Proof. exact (limiter_invariant (f_of_Z 60) 2 2 ops ltac:(lia)). Defined.

(** Evicting one of [a] (throttled) and [b] takes [b]. *)
Lemma eviction_order_witness :
  let l' := evictLocked 1 full in
  limiter_ok l' ∧ buckets l' ⊆ buckets full ∧
  (Z.of_nat (size (buckets l')) + 1)%Z = Z.of_nat (size (buckets full)) ∧
  (∀ k, k ∈ blocked full → buckets l' !! k = None → active l' = []) ∧
  (∀ k, k ∈ active full → has_repeats full k = true → buckets l' !! k = None →
     ∀ j, j ∈ active l' → has_repeats full j = true) ∧
  ∃ m, blocked l' = take m (blocked full).
Proof. refine (eviction_order 1 full full_ok _). split; vm_compute; congruence. Defined.

Lemma blocked_iff_denied_witness :
  ∃ b, buckets full !! "a" = Some b ∧
    ((Allow "a" (lastCheck b) (Some full)).2 = false ↔ "a" ∈ blocked full).
Proof.
  eexists. split; [vm_compute; reflexivity|].
  refine (blocked_iff_denied full "a" _ full_ok _ _ _ _ _); vm_compute; reflexivity.
Defined.

Definition req := Allow "c" 0 (Some full).

Lemma allow_isolated_witness :
  buckets (default new req.1) !! "a" = buckets full !! "a" ∨
  buckets (default new req.1) !! "a" = None ∧ buckets full !! "c" = None ∧
  Len (Some full) = maxKeys full.
Proof.
  refine (allow_isolated full "c" 0 (default new req.1) true "a" full_ok _ _ _).
  - vm_compute. reflexivity.
  - vm_compute. reflexivity.
  - discriminate.
Defined.
End Examples.
