(* ===== verification/ClientIP.v ===== *)
(** * Client addresses and rate-limit tiers: [internal/ratelimit/middleware.go]

    The address a request is limited by, the trusted proxy list it depends on, and
    the middleware that applies the tiers.  Headers are plain strings, the empty
    string being an absent header.  The resolved proxy list, a process-wide
    pointer in Go, is an explicit state.  Limiters are shared objects: tiers hold
    indices into a store. *)

From Stdlib Require Import ZArith Lia Ascii String.
From S2P Require Import Prelude GoStr NetIP GoFloat Limiter.

Definition DefaultTrustedProxies : string := "127.0.0.0/8,::1/128".

(** The fields of [http.Request] the code reads. *)
Record Request := mkReq {
  RemoteAddr : string;
  XForwardedFor : string;
  XRealIP : string;
  URLPath : string
}.

(** [net.IP.IsLoopback] *)
Definition IPv6loopback : IP := (replicate 15 0 ++ [1])%Z%list.
Definition IsLoopback (ip : IP) : bool :=
  match To4 ip with
  | Some (a :: _) => (a =? 127)%Z
  | Some [] => false
  | None => bool_decide (ip = IPv6loopback)
  end.

(** [net.IPMask.Size]: a mask that is not ones followed by zeros has size 0. *)
Definition mask_ones (m : list Z) : Z :=
  match find (λ n, bool_decide (mask_bytes (length m) (Z.of_nat n) = m))
          (seq 0 (S (8 * length m))) with
  | Some n => Z.of_nat n
  | None => 0
  end.

Definition overBroadProxyPrefix (network : IPNet) : bool :=
  let ones := mask_ones (NetMask network) in
  if (ones <? 0)%Z then false
  else if IsLoopback (NetAddr network) then false
  else match To4 (NetAddr network) with
       | Some _ => (ones <=? 8)%Z
       | None => (ones <=? 16)%Z
       end.

(** [strings.Trim(value, "[]")] *)
Definition trim_brackets (s : string) : string :=
  let b c := Ascii.eqb c "[" || Ascii.eqb c "]" in trim_right b (trim_left b s).

Section Proxies.
Context `{UnicodeTables}.

(** The loop of [ParseTrustedProxies]; [None] is its error. *)
Fixpoint parse_proxies (entries : list string) (parsed : list IPNet) : option (list IPNet) :=
  match entries with
  | [] => Some parsed
  | entry :: entries =>
      let entry := TrimSpace entry in
      if String.eqb entry "" then parse_proxies entries parsed
      else
        match ParseCIDR entry with
        | None => None
        | Some (_, network) => parse_proxies entries (parsed ++ [network])%list
        end
  end.
Definition ParseTrustedProxies (l : string) : option (list IPNet) :=
  parse_proxies (Split l ",") [].

(** [configureTrustedProxies]: the list to install and the prefixes warned about;
    [raw] is the environment variable, empty when unset. *)
Definition configureTrustedProxies (raw : string) : list IPNet * list IPNet :=
  let raw := if String.eqb raw "" then DefaultTrustedProxies else raw in
  match ParseTrustedProxies raw with
  | Some proxies => (proxies, filter (λ n, overBroadProxyPrefix n = true) proxies)
  | None => (default [] (ParseTrustedProxies DefaultTrustedProxies), [])
  end.

(** The cached configuration: resolved once, then fixed. *)
Definition resolveTrustedProxies (raw : string) (cached : option (list IPNet))
    : option (list IPNet) * list IPNet :=
  match cached with
  | Some nets => (cached, nets)
  | None => let nets := (configureTrustedProxies raw).1 in (Some nets, nets)
  end.

Definition isTrustedProxyIP (proxies : list IPNet) (ip : IP) : bool :=
  existsb (λ network, NetContains network ip) proxies.

Definition parseHeaderIP (value : string) : option IP :=
  let value := TrimSpace value in
  if String.eqb value "" then None
  else
    let value := match SplitHostPort value with Some (host, _) => host | None => value end in
    ParseIP (trim_brackets value).

Definition isTrustedProxy (proxies : list IPNet) (ip : string) : bool :=
  match parseHeaderIP ip with None => false | Some p => isTrustedProxyIP proxies p end.

(** The loop from the right; [valid] is reversed. *)
Fixpoint rightmost_client (proxies : list IPNet) (valid_rev : list IP) : string :=
  match valid_rev with
  | [] => ""
  | ip :: rest =>
      if isTrustedProxyIP proxies ip then rightmost_client proxies rest else IPString ip
  end.

Definition valid_hops (xff : string) : list IP := omap parseHeaderIP (Split xff ",").

Definition clientIPFromXForwardedFor (proxies : list IPNet) (xff : string) : string :=
  rightmost_client proxies (rev (valid_hops xff)).

Definition remote_host (r : Request) : string :=
  match SplitHostPort (RemoteAddr r) with Some (host, _) => host | None => RemoteAddr r end.

Definition ClientIP (proxies : list IPNet) (r : Request) : string :=
  let host := remote_host r in
  if isTrustedProxy proxies host then
    let from_xff := if String.eqb (XForwardedFor r) "" then ""
                    else clientIPFromXForwardedFor proxies (XForwardedFor r) in
    if negb (String.eqb from_xff "") then from_xff
    else if String.eqb (XRealIP r) "" then host
         else match parseHeaderIP (XRealIP r) with Some ip => IPString ip | None => host end
  else host.
End Proxies.

(** ** Tiers *)

Record Tier := mkTier { PathPrefix : string; TierLimiter : nat }.
Record TieredMiddleware := mkTiers { tiers : list Tier; fallback : nat }.

Definition limiterFor (tm : TieredMiddleware) (path : string) : nat :=
  match find (λ t, HasPrefix path (PathPrefix t)) (tiers tm) with
  | Some t => TierLimiter t
  | None => fallback tm
  end.

(** What [Wrap] does with a request: pass it on, or answer 429 with a
    [Retry-After]. *)
Inductive wrapped := Served | TooManyRequests (retryAfter : Z).

Definition Wrap `{UnicodeTables} (tm : TieredMiddleware) (proxies : list IPNet) (now : Z)
    (r : Request) (store : gmap nat Limiter) : gmap nat Limiter * wrapped :=
  let id := limiterFor tm (URLPath r) in
  let ip := ClientIP proxies r in
  let '(l, ok) := Allow ip now (store !! id) in
  let store := match l with Some l => <[id := l]> store | None => store end in
  if ok then (store, Served) else (store, TooManyRequests (retry_after ip l)).

(** ** Properties *)

Section Props.
Context `{UnicodeTables}.

Lemma valid_hops_app a b : valid_hops (a ++ String "," b) = (valid_hops a ++ valid_hops b)%list.
Proof. unfold valid_hops. by rewrite Split_app, omap_app. Qed.

Lemma rightmost_client_app proxies xs ys :
  (∃ ip, ip ∈ xs ∧ isTrustedProxyIP proxies ip = false) →
  rightmost_client proxies (xs ++ ys) = rightmost_client proxies xs.
Proof.
  induction xs as [|x xs IH]; intros (ip & Hin & Ht); [by apply elem_of_nil in Hin|]. cbn.
  destruct (isTrustedProxyIP proxies x) eqn:E; [|done]. apply IH. exists ip. split; [|done].
  apply elem_of_cons in Hin as [->|Hin]; [congruence|done].
Qed.

Lemma rightmost_client_spec proxies xs :
  (Forall (λ ip, isTrustedProxyIP proxies ip = true) xs ∧ rightmost_client proxies xs = "") ∨
  ∃ pre ip post, xs = (pre ++ ip :: post)%list ∧
    Forall (λ i, isTrustedProxyIP proxies i = true) pre ∧
    isTrustedProxyIP proxies ip = false ∧ rightmost_client proxies xs = IPString ip.
Proof.
  induction xs as [|x xs IH]; [left; by split|]. cbn.
  destruct (isTrustedProxyIP proxies x) eqn:E.
  - destruct IH as [[IH1 IH2]|(pre & ip & post & -> & Hp & Ht & Hr)].
    + left. split; [by constructor|done].
    + right. exists (x :: pre), ip, post. split_and!; [done|by constructor|done|done].
  - right. exists [], x, xs. by split_and!.
Qed.

(** The address a request is limited by cannot be forged from the left: when the part of
    X-Forwarded-For written by the proxies, [s], names a hop that is not a trusted
    proxy, whatever a client put in front of it changes nothing, and the address is
    that of the rightmost such hop. *)
Theorem forwarded_for_unforgeable proxies s forged :
  (∃ ip, ip ∈ valid_hops s ∧ isTrustedProxyIP proxies ip = false) →
  clientIPFromXForwardedFor proxies (forged ++ String "," s) =
  clientIPFromXForwardedFor proxies s ∧
  ∃ left ip right, valid_hops s = (left ++ ip :: right)%list ∧
    isTrustedProxyIP proxies ip = false ∧
    Forall (λ i, isTrustedProxyIP proxies i = true) right ∧
    clientIPFromXForwardedFor proxies s = IPString ip.
Proof.
  intros (ip & Hin & Ht). unfold clientIPFromXForwardedFor. rewrite valid_hops_app, rev_app_distr.
  rewrite rightmost_client_app; [|exists ip; by rewrite <-reverse_rev, elem_of_reverse].
  split; [done|].
  destruct (rightmost_client_spec proxies (rev (valid_hops s)))
    as [[Hall _]|(pre & ip' & post & Hs & Hp & Ht' & Hr)].
  - rewrite Forall_forall in Hall. rewrite (Hall ip) in Ht; [done|].
    by rewrite <-reverse_rev, elem_of_reverse.
  - exists (rev post), ip', (rev pre). split_and!; [|done| |done].
    + rewrite <-(rev_involutive (valid_hops s)), Hs, rev_app_distr. cbn. by rewrite <-(assoc_L app).
    + by rewrite <-reverse_rev, reverse_Permutation.
Qed.

(** Headers are believed only from trusted proxies: for any other peer the address is
    the socket's, whatever the headers say; and when every forwarded hop is a proxy
    and no valid X-Real-IP is present, it is the socket's too. *)
Theorem client_ip_fails_closed proxies r :
  (isTrustedProxy proxies (remote_host r) = false → ClientIP proxies r = remote_host r) ∧
  (Forall (λ ip, isTrustedProxyIP proxies ip = true) (valid_hops (XForwardedFor r)) →
   parseHeaderIP (XRealIP r) = None → ClientIP proxies r = remote_host r).
Proof.
  unfold ClientIP. split; [by intros ->|]. intros Hall Hx. rewrite Hx.
  destruct (isTrustedProxy proxies (remote_host r)); [|done].
  assert (clientIPFromXForwardedFor proxies (XForwardedFor r) = "") as ->.
  { unfold clientIPFromXForwardedFor.
    destruct (rightmost_client_spec proxies (rev (valid_hops (XForwardedFor r))))
      as [[_ E]|(pre & ip & post & Hs & _ & Ht & _)]; [done|].
    rewrite Forall_forall in Hall. rewrite (Hall ip) in Ht; [done|].
    rewrite <-elem_of_reverse, reverse_rev, Hs, elem_of_app. right. by left. }
  destruct (String.eqb (XForwardedFor r) ""), (String.eqb (XRealIP r) ""); done.
Qed.
End Props.

(** ** Tiers and configuration *)

Lemma limiterFor_first tm t pre post path :
  tiers tm = (pre ++ t :: post)%list → HasPrefix path (PathPrefix t) = true →
  Forall (λ u, HasPrefix path (PathPrefix u) = false) pre →
  limiterFor tm path = TierLimiter t.
Proof.
  intros Ht Hp Hpre. unfold limiterFor. rewrite Ht. clear Ht.
  induction Hpre as [|u pre Hu _ IH]; cbn; [by rewrite Hp|]. by rewrite Hu.
Qed.

Lemma retry_after_pos key l : (1 <= retry_after key l)%Z.
Proof. unfold retry_after. cbv zeta. destruct (Z.ltb_spec (f_ceil (SecondsUntilNextToken key l)) 1); lia. Qed.

(** The middleware turns a request away only through the limiter of the first tier whose
    prefix matches (or the fallback), with a Retry-After of at least one second, and
    changes no other limiter. *)
Theorem wrap_tiered `{UnicodeTables} tm proxies now r store store' w :
  Wrap tm proxies now r store = (store', w) →
  let id := limiterFor tm (URLPath r) in
  (∀ i, i ≠ id → store' !! i = store !! i) ∧
  store' !! id = (Allow (ClientIP proxies r) now (store !! id)).1 ∧
  (w = Served ↔ (Allow (ClientIP proxies r) now (store !! id)).2 = true) ∧
  (∀ secs, w = TooManyRequests secs → (1 <= secs)%Z).
Proof.
  intros Hw id. unfold Wrap in Hw. fold id in Hw.
  destruct (Allow (ClientIP proxies r) now (store !! id)) as [l ok] eqn:E. cbn [fst snd].
  set (store1 := match l with Some l => <[id := l]> store | None => store end) in Hw.
  assert (store' = store1) as -> by (destruct ok; congruence).
  assert (store1 !! id = l) as Hid.
  { unfold store1. destruct l as [l|]; [apply lookup_insert_eq|].
    unfold Allow in E. destruct (store !! id) as [l0|] eqn:E0; [|done].
    destruct (disabled l0); [done|]. by destruct (Allow_locked _ _ l0). }
  split; [|split; [done|split]].
  - intros i Hi. unfold store1. destruct l; [by rewrite lookup_insert_ne|done].
  - destruct ok; injection Hw as <-; split; congruence.
  - intros secs Hs. destruct ok; [congruence|]. injection Hw as Hw. rewrite Hs in Hw. injection Hw as <-. apply retry_after_pos.
Qed.

(** A malformed proxy list never widens the trust boundary: the list installed is then the
    loopback default, and without a configured list it is the default too. *)
Theorem trusted_proxies_fail_closed `{UnicodeTables} raw :
  ParseTrustedProxies (if String.eqb raw "" then DefaultTrustedProxies else raw) = None ∨ raw = "" →
  resolveTrustedProxies raw None =
  let nets := default [] (ParseTrustedProxies DefaultTrustedProxies) in (Some nets, nets).
Proof.
  intros Hr. unfold resolveTrustedProxies, configureTrustedProxies.
  destruct Hr as [Hr| ->]; [by rewrite Hr|]. cbn [String.eqb].
  by destruct (ParseTrustedProxies DefaultTrustedProxies).
Qed.

(** ** Witnesses *)

Module Examples.
#[local] Instance ex_tables : UnicodeTables := ascii_tables.
Definition proxies : list IPNet := default [] (ParseTrustedProxies "127.0.0.0/8, 172.18.0.0/16").

Lemma forwarded_for_unforgeable_witness :
  clientIPFromXForwardedFor proxies ("6.6.6.6" ++ String "," "203.0.113.9, 172.18.0.3") =
  clientIPFromXForwardedFor proxies "203.0.113.9, 172.18.0.3" ∧
  ∃ left ip right, valid_hops "203.0.113.9, 172.18.0.3" = (left ++ ip :: right)%list ∧
    isTrustedProxyIP proxies ip = false ∧
    Forall (λ i, isTrustedProxyIP proxies i = true) right ∧
    clientIPFromXForwardedFor proxies "203.0.113.9, 172.18.0.3" = IPString ip.
Proof.
  refine (forwarded_for_unforgeable proxies "203.0.113.9, 172.18.0.3" "6.6.6.6" _).
  exists (v4InV6Prefix ++ [203; 0; 113; 9]%Z)%list. split; [|vm_compute; reflexivity].
  assert (valid_hops "203.0.113.9, 172.18.0.3" =
    [v4InV6Prefix ++ [203; 0; 113; 9]%Z; v4InV6Prefix ++ [172; 18; 0; 3]%Z]%list) as ->
    by (vm_compute; reflexivity).
  by left.
Defined.

Definition store0 : gmap nat Limiter := {[0 := NewWithMaxKeys (f_of_Z 60) 1 8]}.
Definition req := mkReq "203.0.113.9:4242" "10.0.0.1" "" "/v1/check".
Definition wrapped1 := Wrap (mkTiers [mkTier "/v1/" 0] 1) proxies 0 req store0.

Lemma wrap_tiered_witness :
  let id := 0 in
  (∀ i, i ≠ id → wrapped1.1 !! i = store0 !! i) ∧
  wrapped1.1 !! id = (Allow (ClientIP proxies req) 0 (store0 !! id)).1 ∧
  (Served = Served ↔ (Allow (ClientIP proxies req) 0 (store0 !! id)).2 = true) ∧
  (∀ secs, Served = TooManyRequests secs → (1 <= secs)%Z).
Proof.
  refine (wrap_tiered (mkTiers [mkTier "/v1/" 0] 1) proxies 0 req store0 wrapped1.1 Served
            (result_of wrapped1 _ _)).
  vm_compute. reflexivity.
Defined.

Lemma trusted_proxies_fail_closed_witness :
  resolveTrustedProxies "172.18.0.0/16, oops" None =
  let nets := default [] (ParseTrustedProxies DefaultTrustedProxies) in (Some nets, nets).
Proof.
  refine (trusted_proxies_fail_closed "172.18.0.0/16, oops" _). left. vm_compute. reflexivity.
Defined.

(** The second property has a hypothesis inside each conjunct. *)
Lemma client_ip_fails_closed_witness : ClientIP proxies req = "203.0.113.9".
Proof.
  destruct (client_ip_fails_closed proxies req) as [Hc _].
  rewrite Hc; vm_compute; reflexivity.
Defined.

Example broad : overBroadProxyPrefix (mkNet [10; 0; 0; 0]%Z [255; 0; 0; 0]%Z) = true
  ∧ overBroadProxyPrefix (mkNet [127; 0; 0; 0]%Z [255; 0; 0; 0]%Z) = false
  ∧ overBroadProxyPrefix (mkNet [172; 18; 0; 0]%Z [255; 255; 0; 0]%Z) = false.
Proof. by vm_compute. Qed.
End Examples.
