(* ===== verification/Whitelist.v ===== *)
(** * The allow list: [internal/risk/bloom.go] and [internal/risk/whitelist.go]

    A Bloom filter in front of a sorted, deduplicated slice.  Bytes, hashes and
    indices are integers with the wrap-around of their Go types.  The database
    is outside: the results of its queries are inputs of a load. *)

From Stdlib Require Import ZArith Lia Ascii String.
From Stdlib Require Import SpecFloat.
From stdpp Require Import sorting.
From S2P Require Import Prelude GoStr Hostname GoFloat.

Definition u64 (z : Z) : Z := (z mod 2 ^ 64)%Z.

(** ** Bloom filter *)

(** Go's [math.Log] and [math.Pow]. *)
Class FloatMath := { Log : float64 → float64; Pow : float64 → float64 → float64 }.

Record BloomFilter := mkBloom { bm : Z; bk : Z; bits : list Z }.

(** [math.Round]: to the nearest integer, halves away from zero. *)
Definition f_round (f : float64) : Z :=
  match f with
  | S754_finite s m e =>
      if (0 <=? e)%Z then f_trunc f
      else let q := ((2 * Z.pos m + 2 ^ (- e)) / (2 * 2 ^ (- e)))%Z in if s then (- q)%Z else q
  | _ => f_trunc f
  end.

Section Filter.
Context `{FloatMath}.

(** The float64 nearest to 0.01, and [whitelistFPR]. *)
Definition point01 : float64 := S754_finite false 5764607523034235 (-59).
Definition whitelistFPR : float64 := point01.

Definition bloom_bits (n : Z) (p : float64) : Z :=
  let mFloat := f_div (f_mul (SFopp (f_of_Z n)) (Log p)) (Pow (Log (f_of_Z 2)) (f_of_Z 2)) in
  let m := u64 (f_ceil mFloat) in
  if (m mod 8 =? 0)%Z then m else u64 ((m / 8 + 1) * 8).

Definition NewBloomFilter (n : Z) (p : float64) : BloomFilter :=
  let n := if (n <=? 0)%Z then 1000%Z else n in
  let p := if SFleb p f_zero || SFleb f_one p then point01 else p in
  let m := bloom_bits n p in
  let kFloat := f_mul (f_div (f_of_Z m) (f_of_Z n)) (Log (f_of_Z 2)) in
  let k := u64 (f_round kFloat) in
  mkBloom m (if (k <? 1)%Z then 1%Z else k) (replicate (Z.to_nat (m / 8)) 0%Z).
End Filter.

(** FNV-1a, 64 bits *)
Fixpoint fnv1a (data : string) (h : Z) : Z :=
  match data with
  | EmptyString => h
  | String c data => fnv1a data (u64 (Z.lxor h (byte_z c) * 1099511628211))
  end.
Definition bloom_hash (data : string) : Z * Z :=
  let sum := fnv1a data 14695981039346656037 in
  (Z.land sum 0xffffffff, Z.shiftr sum 32).

(** [(uint64(h1) + i*uint64(h2)) % m] *)
Definition bloom_index (bf : BloomFilter) (h : Z * Z) (i : nat) : Z :=
  (u64 (h.1 + u64 (Z.of_nat i * h.2)) mod bm bf)%Z.

Definition set_bit (bs : list Z) (idx : Z) : list Z :=
  let b := Z.to_nat (idx / 8) in
  match bs !! b with
  | Some v => <[b := Z.lor v (2 ^ (idx mod 8))]> bs
  | None => bs   (* out of range: Go panics; excluded by [bloom_ok] *)
  end.
Definition get_bit (bs : list Z) (idx : Z) : bool :=
  match bs !! Z.to_nat (idx / 8) with
  | Some v => negb (Z.land v (2 ^ (idx mod 8)) =? 0)%Z
  | None => false
  end.

Definition BloomAdd (bf : BloomFilter) (data : string) : BloomFilter :=
  if Nat.eqb (length (bits bf)) 0 then bf
  else
    let h := bloom_hash data in
    mkBloom (bm bf) (bk bf)
      (foldl (λ bs i, set_bit bs (bloom_index bf h i)) (bits bf) (seq 0 (Z.to_nat (bk bf)))).

Definition BloomTest (bf : BloomFilter) (data : string) : bool :=
  if Nat.eqb (length (bits bf)) 0 then false
  else
    let h := bloom_hash data in
    forallb (λ i, get_bit (bits bf) (bloom_index bf h i)) (seq 0 (Z.to_nat (bk bf))).

(** ** The exact index *)

Definition str_le (a b : string) : Prop := String.compare a b ≠ Gt.
#[export] Instance str_le_dec a b : Decision (str_le a b).
Proof. unfold str_le. apply _. Defined.

(** [sort.Strings]: the sorted permutation. *)
Definition sort_strings (l : list string) : list string := merge_sort str_le l.

(** The compaction loop: [kept] shares the array of [exact], so an append writes
    into the slice being ranged over.  [arr] is that array, [n] the length of
    [kept], [i] the loop index. *)
Fixpoint compact (steps : nat) (i n : nat) (arr : list string) : list string * nat :=
  match steps with
  | 0 => (arr, n)
  | S steps =>
      let domain := default "" (arr !! i) in
      if Nat.ltb 0 i && String.eqb domain (default "" (arr !! (i - 1)))
      then compact steps (S i) n arr
      else compact steps (S i) (S n) (<[n := domain]> arr)
  end.

Section Index.
Context `{FloatMath}.

Definition buildIndex (domains : list string) : option BloomFilter * list string :=
  let exact := sort_strings domains in
  let '(arr, n) := compact (length exact) 0 0 exact in
  let exact := take n arr in
  let bf :=
    if Nat.ltb 0 (length exact)
    then Some (foldl BloomAdd (NewBloomFilter (Z.of_nat (length exact)) whitelistFPR) exact)
    else None in
  (bf, exact).
End Index.

(** [sort.SearchStrings]: the binary search of [sort.Search]. *)
Fixpoint search_strings (fuel : nat) (sorted : list string) (x : string) (i j : nat) : nat :=
  match fuel with
  | 0 => i
  | S fuel =>
      if Nat.ltb i j then
        let h := Nat.div (i + j) 2 in
        match String.compare (default "" (sorted !! h)) x with
        | Lt => search_strings fuel sorted x (S h) j
        | _ => search_strings fuel sorted x i h
        end
      else i
  end.
Definition SearchStrings (sorted : list string) (x : string) : nat :=
  search_strings (S (length sorted)) sorted x 0 (length sorted).

Definition containsDomain (sorted : list string) (domain : string) : bool :=
  match sorted !! SearchStrings sorted domain with
  | Some d => String.eqb d domain
  | None => false
  end.

(** ** The whitelist *)

Record Whitelist := mkWL {
  bloom : option BloomFilter;
  exact : list string;
  loadErr : option string;
  revision : Z
}.
Definition NewWhitelist : Whitelist := mkWL None [] None 0.

Definition publish (bf : option BloomFilter) (ex : list string) (w : Whitelist) : Whitelist :=
  mkWL bf ex (loadErr w) (revision w).
Definition publishWithRevision (bf : option BloomFilter) (ex : list string) (rev : Z) (w : Whitelist)
    : Whitelist := mkWL bf ex (loadErr w) rev.
Definition recordLoad (err : option string) (w : Whitelist) : Whitelist :=
  mkWL (bloom w) (exact w) err (revision w).
Definition ExactCount (w : option Whitelist) : Z :=
  match w with None => 0 | Some w => Z.of_nat (length (exact w)) end.
Definition ContainsExactIndex (w : option Whitelist) (domain : string) : bool :=
  match w with None => false | Some w => containsDomain (exact w) domain end.

Record WhitelistLoadStatus := mkLoadStatus { Loaded : bool; LoadErrorText : string; StatusRevision : Z }.
Definition LoadStatus (w : option Whitelist) : WhitelistLoadStatus :=
  match w with
  | None => mkLoadStatus true "" 0
  | Some w =>
      match loadErr w with
      | Some err => mkLoadStatus false err (revision w)
      | None => mkLoadStatus true "" (revision w)
      end
  end.

(** The results of the three queries of a load. *)
Record DBReads := mkReads {
  r_revision : result Z;
  r_count : result Z;
  r_stream : result (list string)
}.

Section Loads.
Context `{UnicodeTables, HostServices, FloatMath}.

Definition isWhitelistEntrySafe (domain : string) : bool := IsRegistrableDomain domain.

(** [loadFromDB]: the new state and the error; [db] is [None] when the store is
    disabled. *)
Definition loadFromDB (db : option DBReads) (w : Whitelist) : Whitelist * option string :=
  match db with
  | None => (w, None)
  | Some db =>
      match r_revision db with
      | Err e => (w, Some e)
      | Ok rev =>
          match r_count db with
          | Err e => (w, Some e)
          | Ok count =>
              if (count =? 0)%Z then
                if (0 <? ExactCount (Some w))%Z then (w, None)
                else (publishWithRevision None [] rev w, None)
              else
                match r_stream db with
                | Err e => (w, Some e)
                | Ok domains =>
                    let '(bf, ex) := buildIndex domains in
                    (publishWithRevision bf ex rev w, None)
                end
          end
      end
  end.

Definition LoadFromDB (db : option DBReads) (w : Whitelist) : Whitelist * option string :=
  let '(w, err) := loadFromDB db w in (recordLoad err w, err).

(** One scanned line: [None] when skipped, [Some (Some d)] when accepted,
    [Some None] when rejected as unsafe. *)
Definition parse_line (line : string) : option (option string) :=
  let line := TrimSpace line in
  if String.eqb line "" || HasPrefix line "#" then None
  else
    let domain :=
      match Split line "," with _ :: second :: _ => second | first :: _ => first | [] => "" end in
    match NormalizeDomain domain with
    | Err _ => None
    | Ok normalized =>
        if String.eqb normalized "" then None
        else if isWhitelistEntrySafe normalized then Some (Some normalized) else Some None
    end.

(** The domains of a file and the number of dropped entries. *)
Definition parse_lines (lines : list string) : list string * nat :=
  (omap (λ l, mjoin (parse_line l)) lines,
   length (filter (λ l, parse_line l = Some None) lines)).

(** [loadFromFile]: [file] is the scanned lines with the scanner's error, or
    the error of the open; [db] is the store: the result of [UpdateWhitelist]
    on the parsed domains and the reads of the load that follows. *)
Definition loadFromFile (path : string) (file : result (list string * option string))
    (db : option ((list string → option string) * DBReads)) (w : Whitelist)
    : Whitelist * option string :=
  if String.eqb path "" then (w, None)
  else
    match file with
    | Err e => (w, Some e)
    | Ok (lines, scan_err) =>
        let '(domains, rejected) := parse_lines lines in
        match scan_err with
        | Some e => (w, Some e)
        | None =>
            match db with
            | Some (update, reads) =>
                match update domains with
                | Some e => (w, Some e)
                | None => LoadFromDB (Some reads) w
                end
            | None =>
                let '(bf, ex) := buildIndex domains in (publish bf ex w, None)
            end
        end
    end.

Definition LoadFromFile path file db (w : Whitelist) : Whitelist * option string :=
  let '(w, err) := loadFromFile path file db w in (recordLoad err w, err).

(** The walk of [IsAllowed]; [done i] says whether the caller has gone away
    before step [i]. *)
Fixpoint allowed_walk (cands : list string) (i : nat) (cancelled : nat → bool)
    (bf : option BloomFilter) (ex : list string) : bool :=
  match cands with
  | [] => false
  | candidate :: cands =>
      if cancelled i then false
      else if String.eqb candidate "" then allowed_walk cands (S i) cancelled bf ex
      else if match bf with Some bf => negb (BloomTest bf candidate) | None => false end
      then allowed_walk cands (S i) cancelled bf ex
      else if containsDomain ex candidate then true
      else allowed_walk cands (S i) cancelled bf ex
  end.

Definition IsAllowed (w : option Whitelist) (cancelled : nat → bool) (domain : string) : bool :=
  match w with
  | None => false
  | Some w => allowed_walk (walk_candidates domain) 0 cancelled (bloom w) (exact w)
  end.
End Loads.
