(* ===== verification/WhitelistSpec.v ===== *)
(** * Properties of the allow list

    The filter has no false negatives, the in-place compaction is a correct
    deduplication, the binary search is membership; together [IsAllowed] is exactly
    membership of a walk candidate in the loaded set, and no load failure loses the
    previous index. *)

From Stdlib Require Import ZArith Lia Ascii String.
From stdpp Require Import sorting.
From S2P Require Import Prelude GoStr Hostname GoFloat Whitelist.

(** ** Bloom filter *)

Record bloom_ok (bf : BloomFilter) : Prop := {
  bo_m : (0 < bm bf < 2 ^ 64)%Z;
  bo_len : (8 * Z.of_nat (length (bits bf)) = bm bf)%Z
}.

Lemma land_pow2 v k : (0 <= k)%Z → negb (Z.land v (2 ^ k) =? 0)%Z = Z.testbit v k.
Proof.
  intros Hk. destruct (Z.testbit v k) eqn:E.
  - apply negb_true_iff, Z.eqb_neq. intros H0.
    pose proof (f_equal (λ z, Z.testbit z k) H0) as H1. cbn beta in H1.
    rewrite Z.land_spec, E, Z.pow2_bits_true, Z.bits_0 in H1 by done. done.
  - apply negb_false_iff, Z.eqb_eq. apply Z.bits_inj'. intros j Hj.
    rewrite Z.land_spec, Z.bits_0. destruct (decide (j = k)) as [->|Hne]; [by rewrite E|].
    rewrite Z.pow2_bits_false by done. apply andb_false_r.
Qed.

Lemma set_bit_length bs i : length (set_bit bs i) = length bs.
Proof. unfold set_bit. case_match; [apply length_insert|done]. Qed.

Lemma get_set_bit bs i :
  (0 <= i < 8 * Z.of_nat (length bs))%Z → get_bit (set_bit bs i) i = true.
Proof.
  intros Hi. unfold get_bit, set_bit.
  destruct (lookup_lt_is_Some_2 bs (Z.to_nat (i / 8))) as [v Ev].
  { apply Nat2Z.inj_lt. rewrite Z2Nat.id by (apply Z.div_pos; lia).
    apply Z.div_lt_upper_bound; lia. }
  rewrite Ev, list_lookup_insert_eq by (by eapply lookup_lt_Some).
  pose proof (Z.mod_pos_bound i 8 ltac:(lia)).
  rewrite land_pow2, Z.lor_spec, Z.pow2_bits_true by lia. apply orb_true_r.
Qed.

Lemma get_bit_mono bs i j : get_bit bs j = true → get_bit (set_bit bs i) j = true.
Proof.
  unfold get_bit, set_bit. intros Hj. destruct (bs !! Z.to_nat (i / 8)) as [v|] eqn:Ev; [|done].
  destruct (decide (Z.to_nat (i / 8) = Z.to_nat (j / 8))) as [E|E].
  - rewrite E in *. rewrite Ev in Hj. rewrite list_lookup_insert_eq by (by eapply lookup_lt_Some).
    pose proof (Z.mod_pos_bound j 8 ltac:(lia)). rewrite land_pow2 in * by lia.
    by rewrite Z.lor_spec, Hj.
  - by rewrite list_lookup_insert_ne.
Qed.

Lemma foldl_set_bit_mono bs ixs (f : nat → Z) j :
  get_bit bs j = true → get_bit (foldl (λ bs i, set_bit bs (f i)) bs ixs) j = true.
Proof. revert bs. induction ixs as [|i ixs IH]; intros bs Hj; [done|]. cbn. by apply IH, get_bit_mono. Qed.

Lemma foldl_set_bit_sets bs ixs (f : nat → Z) i :
  (∀ i, 0 <= f i < 8 * Z.of_nat (length bs))%Z → i ∈ ixs →
  get_bit (foldl (λ bs i, set_bit bs (f i)) bs ixs) (f i) = true.
Proof.
  revert bs. induction ixs as [|x ixs IH]; intros bs Hf Hi; [by apply elem_of_nil in Hi|]. cbn.
  apply elem_of_cons in Hi as [<-|Hi].
  - apply foldl_set_bit_mono, get_set_bit, Hf.
  - apply IH; [|done]. by rewrite set_bit_length.
Qed.

Lemma foldl_set_bit_length bs ixs (f : nat → Z) :
  length (foldl (λ bs i, set_bit bs (f i)) bs ixs) = length bs.
Proof. revert bs. induction ixs as [|x ixs IH]; intros bs; [done|]. cbn. by rewrite IH, set_bit_length. Qed.

Lemma BloomAdd_ok bf d : bloom_ok bf → bloom_ok (BloomAdd bf d).
Proof.
  intros [Hm Hl]. unfold BloomAdd. destruct (Nat.eqb_spec (length (bits bf)) 0); [by split|].
  split; cbn; [done|]. by rewrite foldl_set_bit_length.
Qed.

Lemma BloomAdd_test bf d : bloom_ok bf → BloomTest (BloomAdd bf d) d = true.
Proof.
  intros [Hm Hl]. unfold BloomAdd, BloomTest. destruct (Nat.eqb_spec (length (bits bf)) 0); [lia|].
  cbn [bits bk]. rewrite foldl_set_bit_length.
  destruct (Nat.eqb_spec (length (bits bf)) 0); [lia|].
  apply forallb_forall. intros i Hi%list_elem_of_In. unfold bloom_index. cbn [bm].
  apply (foldl_set_bit_sets _ _ (bloom_index bf (bloom_hash d))); [|done].
  intros j. unfold bloom_index. rewrite Hl. apply Z.mod_pos_bound. lia.
Qed.

Lemma BloomAdd_mono bf d d' : BloomTest bf d = true → BloomTest (BloomAdd bf d') d = true.
Proof.
  unfold BloomAdd, BloomTest. destruct (Nat.eqb_spec (length (bits bf)) 0); [done|].
  cbn [bits bk]. rewrite foldl_set_bit_length. destruct (Nat.eqb_spec (length (bits bf)) 0); [done|].
  rewrite !forallb_forall. intros Ht i Hi. apply foldl_set_bit_mono. by apply Ht.
Qed.

(** No false negatives. *)
Lemma bloom_complete bf ds d :
  bloom_ok bf → d ∈ ds → BloomTest (foldl BloomAdd bf ds) d = true.
Proof.
  revert bf. induction ds as [|x ds IH]; intros bf Hok Hd; [by apply elem_of_nil in Hd|]. cbn.
  apply elem_of_cons in Hd as [<-|Hd]; [|by apply IH; [apply BloomAdd_ok|]].
  assert (BloomTest (BloomAdd bf d) d = true) as Ht by by apply BloomAdd_test.
  revert Ht. generalize (BloomAdd bf d) as b. clear IH Hok.
  induction ds as [|y ds IH]; intros b Ht; [done|]. cbn. by apply IH, BloomAdd_mono.
Qed.

(** For index sizes up to [B] the logarithms give a filter of at least one bit and at most
    2^62: the size is about 9.6 bits per element. *)
Class LogLaws `{FloatMath} (B : Z) := {
  log_bits n : (0 < n <= B)%Z →
    (0 < f_ceil (f_div (f_mul (SpecFloat.SFopp (f_of_Z n)) (Log whitelistFPR))
                    (Pow (Log (f_of_Z 2)) (f_of_Z 2))) < 2 ^ 62)%Z
}.

Lemma NewBloomFilter_ok `{FloatMath} B `{!LogLaws B} n :
  (0 < n <= B)%Z → bloom_ok (NewBloomFilter n whitelistFPR).
Proof.
  intros Hn. unfold NewBloomFilter. destruct (Z.leb_spec n 0); [lia|].
  change (SpecFloat.SFleb whitelistFPR f_zero || SpecFloat.SFleb f_one whitelistFPR) with false.
  cbv iota zeta.
  assert (0 < bloom_bits n whitelistFPR < 2 ^ 64 ∧ bloom_bits n whitelistFPR mod 8 = 0)%Z as [Hb H8].
  { unfold bloom_bits. cbv zeta. pose proof (log_bits n Hn) as Hl. set (z := f_ceil _) in *.
    assert (u64 z = z) as -> by (unfold u64; apply Z.mod_small; lia).
    destruct (Z.eqb_spec (z mod 8) 0); [lia|].
    pose proof (Z.div_mod z 8 ltac:(lia)). pose proof (Z.mod_pos_bound z 8 ltac:(lia)).
    assert (u64 ((z / 8 + 1) * 8) = (z / 8 + 1) * 8)%Z as -> by (unfold u64; apply Z.mod_small; lia).
    split; [lia|]. apply Z.mod_mul. lia. }
  split; cbn [bm bits]; [done|]. rewrite length_replicate.
  pose proof (Z.div_mod (bloom_bits n whitelistFPR) 8 ltac:(lia)).
  rewrite Z2Nat.id by (apply Z.div_pos; lia). lia.
Qed.

(** ** Compaction *)

Fixpoint dedup_from (prev : option string) (l : list string) : list string :=
  match l with
  | [] => []
  | x :: l => if bool_decide (prev = Some x) then dedup_from prev l else x :: dedup_from (Some x) l
  end.

Lemma elem_of_dedup_from p l x : x ∈ dedup_from p l ∨ p = Some x ↔ x ∈ l ∨ p = Some x.
Proof.
  revert p. induction l as [|y l IH]; intros p; cbn; [done|].
  case_bool_decide as E; rewrite ?elem_of_cons.
  - subst. rewrite IH. naive_solver.
  - specialize (IH (Some y)). naive_solver.
Qed.
Lemma elem_of_dedup l x : x ∈ dedup_from None l ↔ x ∈ l.
Proof. pose proof (elem_of_dedup_from None l x). naive_solver. Qed.

#[export] Instance str_le_trans : Transitive str_le.
Proof.
  intros a b c H1 H2 H3. unfold str_le in *.
  destruct (String.compare a b) eqn:Eab; [|clear H1|done].
  - apply scompare_eq in Eab as ->. done.
  - destruct (String.compare b c) eqn:Ebc; [|clear H2|done].
    + apply scompare_eq in Ebc as ->. congruence.
    + rewrite (scompare_lt_trans a b c) in H3; done.
Qed.
#[export] Instance str_le_total : Total str_le.
Proof.
  intros a b. unfold str_le. rewrite (scompare_antisym b a).
  destruct (String.compare a b); cbn; auto.
Qed.
#[export] Instance str_le_antisym : AntiSymm (=) str_le.
Proof.
  intros a b H1 H2. unfold str_le in *. rewrite scompare_antisym in H2.
  destruct (String.compare a b) eqn:E; [by apply scompare_eq|done..].
Qed.
Lemma str_le_refl a : str_le a a.
Proof. unfold str_le. by rewrite (proj2 (scompare_eq a a) eq_refl). Qed.

Lemma dedup_sorted p l : StronglySorted str_le l → StronglySorted str_le (dedup_from p l).
Proof.
  intros Hs. revert p. induction Hs as [|x l Hs IH Hx]; intros p; cbn; [constructor|].
  case_bool_decide; [apply IH|]. constructor; [apply IH|].
  rewrite Forall_forall in *. intros y Hy.
  pose proof (elem_of_dedup_from (Some x) l y) as [Hd _].
  destruct (Hd (or_introl Hy)) as [?|[= <-]]; [by apply Hx|apply str_le_refl].
Qed.

Definition before (orig : list string) (i : nat) : option string :=
  if Nat.ltb 0 i then orig !! (i - 1) else None.

(** The loop on the shared array computes the same: the elements it has yet to read, and the
    last one it read, are still those of the original. *)
Lemma compact_spec steps i n arr orig :
  i + steps = length orig → length arr = length orig → n ≤ i →
  (∀ k, i ≤ k → arr !! k = orig !! k) → (0 < i → arr !! (i - 1) = orig !! (i - 1)) →
  let '(arr', n') := compact steps i n arr in
  take n' arr' = (take n arr ++ dedup_from (before orig i) (drop i orig))%list.
Proof.
  revert i n arr. induction steps as [|steps IH]; intros i n arr Hlen Ha Hn Hk Hp.
  { cbn. rewrite (drop_ge orig) by lia. cbn. by rewrite app_nil_r. }
  cbn [compact]. destruct (lookup_lt_is_Some_2 orig i ltac:(lia)) as [x Hx].
  assert (default "" (arr !! i) = x) as -> by (by rewrite Hk, Hx).
  rewrite (drop_S orig x i Hx). cbn [dedup_from].
  assert (Nat.ltb 0 i && String.eqb x (default "" (arr !! (i - 1))) =
          bool_decide (before orig i = Some x)) as ->.
  { unfold before. destruct (Nat.ltb_spec 0 i) as [Hi|]; cbn [andb]; [|done]. rewrite Hp by done.
    destruct (lookup_lt_is_Some_2 orig (i - 1) ltac:(lia)) as [y ->]. cbn.
    destruct (String.eqb_spec x y) as [->|]; [by rewrite bool_decide_true|].
    rewrite bool_decide_false; [done|congruence]. }
  assert (before orig (S i) = Some x) as Hb by (unfold before; cbn; by rewrite Nat.sub_0_r).
  case_bool_decide as Hd.
  - specialize (IH (S i) n arr ltac:(lia) Ha ltac:(lia)).
    destruct (compact steps (S i) n arr) as [arr' n']. rewrite IH.
    + by rewrite Hb, Hd.
    + intros k ?. apply Hk. lia.
    + intros _. apply Hk. lia.
  - specialize (IH (S i) (S n) (<[n:=x]> arr) ltac:(lia)).
    destruct (compact steps (S i) (S n) (<[n:=x]> arr)) as [arr' n']. rewrite IH.
    + rewrite Hb, (take_S_r _ _ x) by (apply list_lookup_insert_eq; lia).
      rewrite take_insert by lia. rewrite <-(assoc_L app). rewrite decide_False by lia. done.
    + by rewrite length_insert.
    + lia.
    + intros k ?. rewrite list_lookup_insert_ne by lia. apply Hk. lia.
    + intros _. replace (S i - 1) with i by lia. destruct (decide (n = i)) as [->|].
      * rewrite list_lookup_insert_eq by lia. done.
      * rewrite list_lookup_insert_ne by lia. apply Hk. lia.
Qed.

Lemma buildIndex_exact `{FloatMath} domains :
  (buildIndex domains).2 = dedup_from None (sort_strings domains).
Proof.
  unfold buildIndex.
  pose proof (compact_spec (length (sort_strings domains)) 0 0 (sort_strings domains)
                (sort_strings domains)) as Hc.
  destruct (compact _ 0 0 _) as [arr n]. cbn [snd]. rewrite Hc; try done; try lia.
Qed.

Lemma buildIndex_elem `{FloatMath} domains d : d ∈ (buildIndex domains).2 ↔ d ∈ domains.
Proof.
  rewrite buildIndex_exact, elem_of_dedup. unfold sort_strings. by rewrite merge_sort_Permutation.
Qed.
Lemma buildIndex_sorted `{FloatMath} domains : StronglySorted str_le (buildIndex domains).2.
Proof.
  rewrite buildIndex_exact. apply dedup_sorted, StronglySorted_merge_sort; apply _.
Qed.

Lemma length_dedup p l : length (dedup_from p l) ≤ length l.
Proof.
  revert p. induction l as [|x l IH]; intros p; cbn; [lia|]. case_bool_decide; cbn.
  - specialize (IH p). lia.
  - specialize (IH (Some x)). lia.
Qed.
Lemma buildIndex_length `{FloatMath} domains : length (buildIndex domains).2 ≤ length domains.
Proof.
  rewrite buildIndex_exact. etrans; [apply length_dedup|]. unfold sort_strings.
  by rewrite (Permutation_length (merge_sort_Permutation str_le domains)).
Qed.

(** ** Binary search *)

Lemma sorted_lookup_le sorted (i j : nat) a b :
  StronglySorted str_le sorted → i ≤ j → sorted !! i = Some a → sorted !! j = Some b → str_le a b.
Proof.
  intros Hs. revert i j. induction Hs as [|x l Hs IH Hx]; intros i j Hij Hi Hj; [done|].
  rewrite Forall_forall in Hx. destruct i as [|i], j as [|j]; cbn in *; simplify_eq; try lia.
  - apply str_le_refl.
  - apply Hx. by eapply list_elem_of_lookup_2.
  - apply (IH i j); [lia|done|done].
Qed.

Lemma search_strings_spec fuel sorted x i j :
  StronglySorted str_le sorted → i ≤ j ≤ length sorted → j - i < fuel →
  (∀ k a, k < i → sorted !! k = Some a → String.compare a x = Lt) →
  (∀ k a, j ≤ k → sorted !! k = Some a → String.compare a x ≠ Lt) →
  let r := search_strings fuel sorted x i j in
  (∀ k a, k < r → sorted !! k = Some a → String.compare a x = Lt) ∧
  (∀ k a, r ≤ k → sorted !! k = Some a → String.compare a x ≠ Lt).
Proof.
  intros Hs. revert i j. induction fuel as [|fuel IH]; intros i j Hij Hf Hlo Hhi; [lia|].
  cbn [search_strings]. cbv zeta. destruct (Nat.ltb_spec i j) as [Hlt|Hge].
  2: { assert (i = j) as -> by lia. by split. }
  pose proof (Nat.div_mod (i + j) 2 ltac:(lia)). pose proof (Nat.mod_upper_bound (i + j) 2 ltac:(lia)).
  set (h := Nat.div (i + j) 2) in *.
  destruct (lookup_lt_is_Some_2 sorted h ltac:(lia)) as [a Ha]. rewrite Ha. cbn [default from_option].
  unfold id. destruct (String.compare a x) eqn:Ec.
  1,3: apply IH; [lia|lia|done|]; intros k b Hk Hb Hc;
    pose proof (sorted_lookup_le sorted h k a b Hs Hk Ha Hb) as Hle;
    unfold str_le in Hle; destruct (String.compare a b) eqn:Eab;
      [apply scompare_eq in Eab as ->; congruence| |done];
      by rewrite (scompare_lt_trans a b x) in Ec.
  apply IH; [lia|lia| |done]. intros k b Hk Hb.
  pose proof (sorted_lookup_le sorted k h b a Hs ltac:(lia) Hb Ha) as Hle. unfold str_le in Hle.
  destruct (String.compare b a) eqn:Eba; [apply scompare_eq in Eba as ->; done| |done].
  by apply (scompare_lt_trans b a x).
Qed.

Lemma containsDomain_spec sorted d :
  StronglySorted str_le sorted → containsDomain sorted d = true ↔ d ∈ sorted.
Proof.
  intros Hs. unfold containsDomain, SearchStrings.
  pose proof (search_strings_spec (S (length sorted)) sorted d 0 (length sorted) Hs) as Hr.
  destruct Hr as [Hlo Hhi]; [lia|lia|intros; lia| |].
  { intros k a Hk Ha. apply lookup_lt_Some in Ha. lia. }
  set (r := search_strings _ _ _ _ _) in *. split.
  - destruct (sorted !! r) as [a|] eqn:Ea; [|done]. intros <-%String.eqb_eq.
    by eapply list_elem_of_lookup_2.
  - intros (k & Hk)%list_elem_of_lookup.
    assert (r ≤ k) as Hrk.
    { destruct (decide (r ≤ k)); [done|]. specialize (Hlo k d ltac:(lia) Hk).
      by rewrite (proj2 (scompare_eq d d) eq_refl) in Hlo. }
    destruct (lookup_lt_is_Some_2 sorted r) as [a Ha]; [apply lookup_lt_Some in Hk; lia|].
    rewrite Ha. pose proof (sorted_lookup_le sorted r k a d Hs Hrk Ha Hk) as Hle.
    specialize (Hhi r a ltac:(lia) Ha). unfold str_le in Hle.
    destruct (String.compare a d) eqn:E; [|done|done]. apply scompare_eq in E as ->.
    apply String.eqb_refl.
Qed.

(** ** Lookups *)

Section Lookups.
Context `{UnicodeTables, HostServices, FloatMath} (B : Z) `{!LogLaws B}.

(** The index of [w] was built from [domains]. *)
Definition indexes (w : Whitelist) (domains : list string) : Prop :=
  (bloom w, exact w) = buildIndex domains ∧ (Z.of_nat (length domains) <= B)%Z.

Lemma indexes_contains w domains d :
  indexes w domains → containsDomain (exact w) d = true ↔ d ∈ domains.
Proof.
  intros [Hi _]. assert (exact w = (buildIndex domains).2) as -> by (by rewrite <-Hi).
  rewrite containsDomain_spec by apply buildIndex_sorted. apply buildIndex_elem.
Qed.

(** The filter never rejects a loaded domain. *)
Lemma indexes_filter w domains d bf :
  indexes w domains → d ∈ domains → bloom w = Some bf → BloomTest bf d = true.
Proof.
  intros [Hi Hlen] Hd Hb. pose proof (proj2 (buildIndex_elem domains d) Hd) as Hx.
  pose proof (buildIndex_length domains) as Hle.
  revert Hi Hx Hle. unfold buildIndex. destruct (compact _ _ _ _) as [arr n]. cbn [snd].
  intros [= Hbl _] Hx Hle. rewrite Hb in Hbl.
  destruct (Nat.ltb_spec 0 (length (take n arr))) as [Hpos|]; [|done]. injection Hbl as ->.
  apply bloom_complete; [|done]. apply (NewBloomFilter_ok B). lia.
Qed.

Lemma allowed_walk_sound cands i cancelled bf ex :
  allowed_walk cands i cancelled bf ex = true →
  ∃ c, c ∈ cands ∧ c ≠ "" ∧ containsDomain ex c = true.
Proof.
  revert i. induction cands as [|c cands IH]; intros i; cbn; [done|].
  destruct (cancelled i); [done|].
  assert (∀ j, allowed_walk cands j cancelled bf ex = true →
    ∃ c', c' ∈ c :: cands ∧ c' ≠ "" ∧ containsDomain ex c' = true) as Hrec.
  { intros j (c' & ? & ?)%IH. exists c'. split; [by right|done]. }
  destruct (String.eqb_spec c ""); [apply Hrec|]. destruct (match bf with Some _ => _ | None => _ end);
    [apply Hrec|]. destruct (containsDomain ex c) eqn:E; [|apply Hrec].
  intros _. exists c. split; [by left|done].
Qed.

Lemma allowed_walk_complete cands i bf ex c :
  c ∈ cands → c ≠ "" → containsDomain ex c = true →
  (∀ f, bf = Some f → BloomTest f c = true) →
  allowed_walk cands i (λ _, false) bf ex = true.
Proof.
  intros Hc Hne Hex Hbf. revert i. induction cands as [|x cands IH]; intros i;
    [by apply elem_of_nil in Hc|]. cbn.
  apply elem_of_cons in Hc as [<-|Hc].
  - destruct (String.eqb_spec c ""); [done|]. destruct bf as [f|]; [rewrite (Hbf f eq_refl)|];
      cbn; by rewrite Hex.
  - destruct (String.eqb x ""); [by apply IH|].
    destruct (match bf with Some _ => _ | None => _ end); [by apply IH|].
    destruct (containsDomain ex x); [done|by apply IH].
Qed.

Lemma allowed_iff w domains d :
  indexes w domains →
  IsAllowed (Some w) (λ _, false) d = true ↔
  ∃ c, c ∈ walk_candidates d ∧ c ≠ "" ∧ c ∈ domains.
Proof.
  intros Hi. unfold IsAllowed. split.
  - intros (c & Hc & Hne & Hx)%allowed_walk_sound. exists c.
    split_and!; [done|done|]. by apply (indexes_contains w domains).
  - intros (c & Hc & Hne & Hx). apply (allowed_walk_complete _ _ _ _ c); [done|done| |].
    + by apply (indexes_contains w domains).
    + intros f Hf. by apply (indexes_filter w domains).
Qed.

(** C6: the allow list is exact: against an index built from a set of domains, a name is
    allowed if and only if it or one of its parents down to the registrable domain
    is in the set; the probabilistic filter and the binary search change nothing,
    and a caller that gives up can only lose an allow, never gain one. *)
Theorem is_allowed_exact w domains d :
  indexes w domains →
  (IsAllowed (Some w) (λ _, false) d = true ↔
     ∃ c, c ∈ walk_candidates d ∧ c ≠ "" ∧ c ∈ domains) ∧
  ∀ cancelled, IsAllowed (Some w) cancelled d = true →
     IsAllowed (Some w) (λ _, false) d = true.
Proof.
  intros Hi. split; [by apply allowed_iff|].
  intros cancelled (c & Hc & Hne & Hx)%allowed_walk_sound. apply (allowed_iff w domains d Hi).
  exists c. split_and!; [done|done|]. by apply (indexes_contains w domains).
Qed.

(** ** Loads *)

Definition same_index (w w' : Whitelist) : Prop :=
  bloom w' = bloom w ∧ exact w' = exact w ∧ revision w' = revision w.

Lemma loadFromDB_cases db w w' err :
  loadFromDB db w = (w', err) →
  (err ≠ None → w' = w) ∧
  (w' = w ∨ ∃ reads rev, db = Some reads ∧ r_revision reads = Ok rev ∧ revision w' = rev ∧
     ((exact w = [] ∧ exact w' = [] ∧ bloom w' = None) ∨
      ∃ domains, r_stream reads = Ok domains ∧ (bloom w', exact w') = buildIndex domains)).
Proof.
  unfold loadFromDB. destruct db as [reads|]; [|intros [= <- <-]; auto].
  destruct (r_revision reads) as [rev|] eqn:Er; [|intros [= <- <-]; auto].
  destruct (r_count reads) as [count|]; [|intros [= <- <-]; auto].
  destruct (count =? 0)%Z.
  - destruct (Z.ltb_spec 0 (ExactCount (Some w))) as [|Hz]; [intros [= <- <-]; auto|].
    intros [= <- <-]. split; [done|]. right. exists reads, rev. split_and!; [done|done|done|].
    left. cbn in *. split; [|done]. destruct (exact w); [done|cbn in Hz; lia].
  - destruct (r_stream reads) as [domains|] eqn:Es; [|intros [= <- <-]; auto].
    destruct (buildIndex domains) as [bf ex] eqn:Eb. intros [= <- <-]. split; [done|].
    right. exists reads, rev. split_and!; [done|done|done|]. right. eauto.
Qed.

(** No load loses the allow list: a load that fails, at any step, keeps the previous
    index and revision and is reported as not loaded; a load that succeeds either
    keeps the index too (an empty table never replaces a loaded one), or publishes
    the index of exactly the streamed rows with the revision read before them. *)
Theorem load_keeps_or_replaces db w w' err :
  LoadFromDB db w = (w', err) →
  (err ≠ None → same_index w w' ∧ Loaded (LoadStatus (Some w')) = false) ∧
  (err = None → Loaded (LoadStatus (Some w')) = true) ∧
  (same_index w w' ∨ ∃ reads rev, db = Some reads ∧ r_revision reads = Ok rev ∧ revision w' = rev ∧
     ((exact w = [] ∧ exact w' = []) ∨
      ∃ domains, r_stream reads = Ok domains ∧ (bloom w', exact w') = buildIndex domains)).
Proof.
  unfold LoadFromDB. destruct (loadFromDB db w) as [w1 err1] eqn:E. intros [= <- <-].
  apply loadFromDB_cases in E as [E1 E2]. split_and!.
  - intros He. rewrite (E1 He). split; [done|]. cbn. by destruct err1.
  - intros ->. done.
  - destruct E2 as [->|(reads & rev & ? & ? & ? & Hc)]; [by left|]. right. exists reads, rev.
    split_and!; try done. naive_solver.
Qed.

(** Every accepted line is a normal form with a registrable domain. *)
Lemma parse_line_safe line d :
  parse_line line = Some (Some d) → IsRegistrableDomain d = true ∧ well_formed d.
Proof.
  unfold parse_line. destruct (_ || _); [done|]. cbv zeta.
  set (s := match Split _ _ with [] => _ | _ => _ end).
  destruct (NormalizeDomain s) as [n|] eqn:En; [|done].
  destruct (String.eqb n ""); [done|]. unfold isWhitelistEntrySafe.
  destruct (IsRegistrableDomain n) eqn:Er; [|done]. intros [= <-].
  split; [done|by eapply normalize_wf_aux].
Qed.

Lemma elem_of_parse_lines lines d :
  d ∈ (parse_lines lines).1 ↔ ∃ line, line ∈ lines ∧ parse_line line = Some (Some d).
Proof.
  unfold parse_lines. cbn [fst]. rewrite list_elem_of_omap.
  split; intros (line & Hl & Hp); exists line; (split; [done|]).
  - destruct (parse_line line) as [[x|]|]; cbn in Hp; congruence.
  - by rewrite Hp.
Qed.

(** Importing a file: after a load without a database, the names allowed are exactly those
    under an accepted line; every accepted line is a well-formed name with a
    registrable domain, so no line of any file can allow a public suffix. *)
Theorem file_load_allows_exactly path lines w w' d :
  path ≠ "" → (Z.of_nat (length lines) <= B)%Z →
  LoadFromFile path (Ok (lines, None)) None w = (w', None) →
  IsAllowed (Some w') (λ _, false) d = true ↔
  ∃ c line, c ∈ walk_candidates d ∧ line ∈ lines ∧ parse_line line = Some (Some c) ∧
    IsRegistrableDomain c = true ∧ well_formed c.
Proof.
  intros Hp Hlen. unfold LoadFromFile, loadFromFile.
  destruct (String.eqb_spec path ""); [done|].
  destruct (parse_lines lines) as [domains rejected] eqn:El.
  destruct (buildIndex domains) as [bf ex] eqn:Eb. intros [= <-].
  assert (domains = (parse_lines lines).1) as Hd by (by rewrite El).
  assert (length domains ≤ length lines) as Hle.
  { rewrite Hd. unfold parse_lines. cbn. clear.
    induction lines as [|x lines IH]; [done|]. cbn. destruct (mjoin (parse_line x)); cbn; lia. }
  set (w1 := recordLoad _ _).
  assert (indexes w1 domains) as Hi by (split; [by rewrite Eb|lia]).
  rewrite (allowed_iff w1 domains d Hi).
  rewrite Hd. split.
  - intros (c & Hc & _ & (line & Hl & Hpl)%elem_of_parse_lines).
    exists c, line. by destruct (parse_line_safe line c Hpl).
  - intros (c & line & Hc & Hl & Hpl & _ & Hwf). exists c. split_and!; [done| |].
    + apply Hwf.
    + apply elem_of_parse_lines. eauto.
Qed.
End Lookups.

(** ** Witnesses *)

Module Examples.
#[local] Instance ex_tables : UnicodeTables := ascii_tables.
#[local] Instance ex_services : HostServices := two_label_services.
(** The two logarithms the code takes, and squaring. *)
#[local] Instance ex_math : FloatMath := {
  Log x := if SpecFloat.SFltb x f_one then SpecFloat.S754_finite true 5185047945183062 (-50)
           else SpecFloat.S754_finite false 6243314768165359 (-53);
  Pow x _ := f_mul x x
}.
#[local] Instance ex_log : LogLaws 3.
Proof.
  split. intros n Hn. assert (n = 1 ∨ n = 2 ∨ n = 3)%Z as [->|[->| ->]] by lia;
    split; vm_compute; reflexivity.
Qed.

Definition lines : list string :=
  ["# allow list"; "1,Example.com"; "co.uk,com"].
Definition loaded := LoadFromFile "top.csv" (Ok (lines, None)) None NewWhitelist.

Lemma is_allowed_exact_witness :
  let w := loaded.1 in let domains := ["example.com"] in
  (IsAllowed (Some w) (λ _, false) "mail.example.com" = true ↔
     ∃ c, c ∈ walk_candidates "mail.example.com" ∧ c ≠ "" ∧ c ∈ domains) ∧
  ∀ cancelled, IsAllowed (Some w) cancelled "mail.example.com" = true →
     IsAllowed (Some w) (λ _, false) "mail.example.com" = true.
Proof.
  refine (is_allowed_exact 3 loaded.1 ["example.com"] "mail.example.com" _).
  split; [vm_compute; reflexivity|cbn; lia].
Defined.

Lemma load_keeps_or_replaces_witness :
  let db := Some (mkReads (Ok 7%Z) (Ok 0%Z) (Err "unused")) in
  let w := loaded.1 in let w' := (LoadFromDB db w).1 in
  (None ≠ @None string → same_index w w' ∧ Loaded (LoadStatus (Some w')) = false) ∧
  (@None string = None → Loaded (LoadStatus (Some w')) = true) ∧
  (same_index w w' ∨ ∃ reads rev, db = Some reads ∧ r_revision reads = Ok rev ∧ revision w' = rev ∧
     ((exact w = [] ∧ exact w' = []) ∨
      ∃ domains, r_stream reads = Ok domains ∧ (bloom w', exact w') = buildIndex domains)).
Proof.
  refine (load_keeps_or_replaces _ loaded.1 _ None (result_of _ _ _)).
  vm_compute. reflexivity.
Defined.

Lemma file_load_allows_exactly_witness :
  IsAllowed (Some loaded.1) (λ _, false) "www.example.com" = true ↔
  ∃ c line, c ∈ walk_candidates "www.example.com" ∧ line ∈ lines ∧
    parse_line line = Some (Some c) ∧ IsRegistrableDomain c = true ∧ well_formed c.
Proof.
  refine (file_load_allows_exactly 3 "top.csv" lines NewWhitelist loaded.1 "www.example.com" _ _ _).
  - discriminate.
  - cbn. lia.
  - refine (result_of loaded None _). vm_compute. reflexivity.
Defined.

Example allowed_ex :
  IsAllowed (Some loaded.1) (λ _, false) "www.example.com" = true ∧
  IsAllowed (Some loaded.1) (λ _, false) "www.example.org" = false.
Proof. by vm_compute. Qed.
End Examples.
