(* ===== verification/Groups.v ===== *)
(** * Client groups and overrides: [internal/store/groups.go], [internal/store/overrides.go]

    The tables of the SQLite file and the in-process index of CIDR mappings.
    SQL statements are reads and writes of the tables, with the unique and
    foreign-key constraints of the schema; the revision row is an integer.  An
    oracle says which statements fail ([StoreIO]).  Two processes share the
    tables, each with its own index. *)

From Stdlib Require Import ZArith Lia Ascii String.
From stdpp Require Import sorting.
From S2P Require Import Prelude GoStr Hostname NetIP ClientIP.

Record ClientGroup := mkGroup {
  GroupID : Z; GroupName : string; Description : string;
  BlockCategories : list string; StrictPhishing : bool; StrictMalware : bool
}.
Record ClientMapping := mkMapping { MappingID : Z; MappingGroup : Z }.
Record Override := mkOverride { ODomain : string; OAction : string; OReason : string }.

(** Mappings are unique on (type, value), group overrides on (group, domain). *)
Record Tables := mkTables {
  client_groups : gmap Z ClientGroup;
  client_mappings : gmap (string * string) ClientMapping;
  group_overrides : gmap (Z * string) Override;
  local_overrides : gmap string Override;
  mappings_revision : Z;
  next_id : Z
}.

(** The in-process half of a [DB]: the CIDR index and the revision it was built from. *)
Record DB := mkDB {
  cidrCache : list (Z * IPNet);
  cidrRevision : Z
}.

(** The statements that can fail. *)
Inductive query :=
  | QGroupOverride (g : Z) (d : string) | QLocalOverride (d : string)
  | QGroup (id : Z) | QGroupName (name : string)
  | QMapping (kind value : string) | QWrite | QRevision | QCidrRows.
Class StoreIO := { io_err : query → option string }.

(** [sort.Slice]: some sorted permutation; ties are in no particular order. *)
Class SortSlice := {
  sort_slice {A} : (A → A → bool) → list A → list A;
  sort_slice_perm {A} (less : A → A → bool) l : sort_slice less l ≡ₚ l;
  sort_slice_sorted {A} (less : A → A → bool) l :
    Transitive (λ a b, less b a = false) → Total (λ a b, less b a = false) →
    StronglySorted (λ a b, less b a = false) (sort_slice less l)
}.

(** ** Table updates *)

Definition set_groups (gs : gmap Z ClientGroup) (t : Tables) : Tables :=
  mkTables gs (client_mappings t) (group_overrides t) (local_overrides t) (mappings_revision t) (next_id t).
Definition set_mappings (ms : gmap (string * string) ClientMapping) (t : Tables) : Tables :=
  mkTables (client_groups t) ms (group_overrides t) (local_overrides t) (mappings_revision t) (next_id t).
Definition set_group_overrides (os : gmap (Z * string) Override) (t : Tables) : Tables :=
  mkTables (client_groups t) (client_mappings t) os (local_overrides t) (mappings_revision t) (next_id t).
Definition set_local_overrides (os : gmap string Override) (t : Tables) : Tables :=
  mkTables (client_groups t) (client_mappings t) (group_overrides t) os (mappings_revision t) (next_id t).
Definition bumpClientMappingsRevision (t : Tables) : Tables :=
  mkTables (client_groups t) (client_mappings t) (group_overrides t) (local_overrides t)
    (mappings_revision t + 1) (next_id t).
Definition take_id (t : Tables) : Tables :=
  mkTables (client_groups t) (client_mappings t) (group_overrides t) (local_overrides t)
    (mappings_revision t) (next_id t + 1).

(** ** Groups *)

Section Ops.
Context `{UnicodeTables, HostServices, StoreIO, SortSlice}.

Definition CreateDefaultGroups (t : Tables) : Tables * option string :=
  match io_err (QGroupName "default") with
  | Some e => (t, Some e)
  | None =>
      if bool_decide (map_Forall (λ _ g, GroupName g ≠ "default") (client_groups t))
      then match io_err QWrite with
           | Some e => (t, Some e)
           | None =>
               (take_id (set_groups
                  (<[next_id t := mkGroup (next_id t) "default" "Default policy group" [] false true]>
                     (client_groups t)) t), None)
           end
      else (t, None)
  end.

Definition CreateGroup (name desc : string) (cats : list string) (sp sm : bool) (t : Tables)
    : Tables * result Z :=
  match io_err QWrite with
  | Some e => (t, Err e)
  | None =>
      if bool_decide (map_Forall (λ _ g, GroupName g ≠ name) (client_groups t))
      then (take_id (set_groups (<[next_id t := mkGroup (next_id t) name desc cats sp sm]>
                                   (client_groups t)) t), Ok (next_id t))
      else (t, Err "UNIQUE constraint failed: client_groups.name")
  end.

Definition UpdateGroup (id : Z) (name desc : string) (cats : list string) (sp sm : bool) (t : Tables)
    : Tables * option string :=
  let name := if (id =? 1)%Z then "default" else name in
  match io_err QWrite with
  | Some e => (t, Some e)
  | None =>
      match client_groups t !! id with
      | None => (t, None)
      | Some _ =>
          if bool_decide (map_Forall (λ i g, i ≠ id → GroupName g ≠ name) (client_groups t))
          then (set_groups (<[id := mkGroup id name desc cats sp sm]> (client_groups t)) t, None)
          else (t, Some "UNIQUE constraint failed: client_groups.name")
      end
  end.

Definition GetGroup (id : Z) (t : Tables) : result ClientGroup :=
  match io_err (QGroup id) with
  | Some e => Err e
  | None => match client_groups t !! id with Some g => Ok g | None => Err "group not found" end
  end.

Definition GetGroupByName (name : string) (t : Tables) : result ClientGroup :=
  match io_err (QGroupName name) with
  | Some e => Err e
  | None =>
      match find (λ g, String.eqb (GroupName g) name) (map_to_list (client_groups t)).*2 with
      | Some g => Ok g
      | None => Err "group not found"
      end
  end.

(** ** The CIDR index *)

(** The sort's comparison, as written: [Mask.Size] returns the number of ones first
    and the number of bits second. *)
Definition cidr_less (a b : Z * IPNet) : bool :=
  let bi := mask_ones (NetMask a.2) in let oi := (8 * Z.of_nat (length (NetMask a.2)))%Z in
  let bj := mask_ones (NetMask b.2) in let oj := (8 * Z.of_nat (length (NetMask b.2)))%Z in
  if negb (bi =? bj)%Z then (bj <? bi)%Z else (oj <? oi)%Z.

Definition cidr_rows (t : Tables) : list (Z * IPNet) :=
  omap (λ '((kind, value), m),
          if String.eqb kind "cidr" then
            match ParseCIDR value with Some (_, n) => Some (MappingGroup m, n) | None => None end
          else None)
       (map_to_list (client_mappings t)).

(** [loadCIDRCache] as the code orders it: the revision first ([t_rev]), the rows
    later ([t_rows]); other processes may write in between. *)
Definition loadCIDRCache (t_rev t_rows : Tables) (db : DB) : DB * option string :=
  match io_err QRevision with
  | Some e => (db, Some e)
  | None =>
      match io_err QCidrRows with
      | Some e => (db, Some e)
      | None =>
          (mkDB (sort_slice cidr_less (cidr_rows t_rows)) (mappings_revision t_rev), None)
      end
  end.

(** [ReconcileCIDRMappings]: [t_check] is the state at its own revision check. *)
Definition ReconcileCIDRMappings (t_check t_rev t_rows : Tables) (db : DB) : DB * result bool :=
  match io_err QRevision with
  | Some e => (db, Err e)
  | None =>
      if (mappings_revision t_check =? cidrRevision db)%Z then (db, Ok false)
      else match loadCIDRCache t_rev t_rows db with
           | (db, Some e) => (db, Err e)
           | (db, None) => (db, Ok true)
           end
  end.

(** [reloadCIDRCache]: errors are logged only. *)
Definition reloadCIDRCache (t : Tables) (db : DB) : DB := (ReconcileCIDRMappings t t t db).1.

(** ** Mappings *)

(** [IPNet.String]: the prefix-length form; the masks written are canonical. *)
Definition net_string (n : IPNet) : string :=
  IPString (NetAddr n) ++ "/" ++ dec_string (mask_ones (NetMask n)).

Definition normalizeCIDRForStorage (n : IPNet) : string :=
  match To4 (NetAddr n) with
  | Some ip4 =>
      if Nat.eqb (length (NetAddr n)) 16 && (96 <=? mask_ones (NetMask n))%Z
      then net_string (mkNet ip4 (mask_bytes 4 (mask_ones (NetMask n) - 96)))
      else net_string n
  | None => net_string n
  end.

(** Validation of [AddMappingInt]: the stored type and value. *)
Definition check_mapping (mappingType value : string) : result (string * string) :=
  let mappingType := TrimSpace (ToLower mappingType) in
  if negb (in_list mappingType ["ip"; "cidr"; "client_id"]) then Err "invalid mapping type"
  else
    let value := TrimSpace value in
    if String.eqb value "" then Err "mapping value cannot be empty"
    else if String.eqb mappingType "ip" then
      match ParseIP value with None => Err "invalid IP address format" | Some _ => Ok (mappingType, value) end
    else if String.eqb mappingType "cidr" then
      match ParseCIDR value with
      | None => Err "invalid CIDR format"
      | Some (_, n) => Ok (mappingType, normalizeCIDRForStorage n)
      end
    else Ok (mappingType, value).

(** The transaction: the row and the revision are written together. *)
Definition AddMappingInt (mappingType value : string) (groupID : Z) (t : Tables) (db : DB)
    : Tables * DB * result Z :=
  match check_mapping mappingType value with
  | Err e => (t, db, Err e)
  | Ok (kind, value) =>
      match io_err QWrite with
      | Some e => (t, db, Err e)
      | None =>
          if bool_decide (is_Some (client_mappings t !! (kind, value)))
          then (t, db, Err "UNIQUE constraint failed")
          else if negb (bool_decide (is_Some (client_groups t !! groupID)))
          then (t, db, Err "FOREIGN KEY constraint failed")
          else
            let id := next_id t in
            let t := bumpClientMappingsRevision (take_id (set_mappings
                       (<[(kind, value) := mkMapping id groupID]> (client_mappings t)) t)) in
            (t, (if String.eqb kind "cidr" then reloadCIDRCache t db else db), Ok id)
      end
  end.

Definition DeleteMapping (id : Z) (t : Tables) (db : DB) : Tables * DB * option string :=
  match io_err QWrite with
  | Some e => (t, db, Some e)
  | None =>
      let ms := filter (λ kv, MappingID kv.2 ≠ id) (client_mappings t) in
      if Nat.eqb (size ms) (size (client_mappings t)) then (t, db, Some "mapping not found")
      else
        let t := bumpClientMappingsRevision (set_mappings ms t) in
        (t, reloadCIDRCache t db, None)
  end.

(** Deleting a group cascades to its mappings and overrides. *)
Definition DeleteGroup (id : Z) (t : Tables) (db : DB) : Tables * DB * option string :=
  if (id =? 1)%Z then (t, db, Some "cannot delete default policy group")
  else
    match io_err QWrite with
    | Some e => (t, db, Some e)
    | None =>
        match client_groups t !! id with
        | None => (t, db, Some "group not found")
        | Some _ =>
            let t := set_groups (delete id (client_groups t)) t in
            let t := set_mappings (filter (λ kv, MappingGroup kv.2 ≠ id) (client_mappings t)) t in
            let t := set_group_overrides (filter (λ kv, kv.1.1 ≠ id) (group_overrides t)) t in
            let t := bumpClientMappingsRevision t in
            (t, reloadCIDRCache t db, None)
        end
    end.

(** ** Group of a client *)

Definition GetGroupForClient (clientIP clientID : string) (clientIDTrusted : bool)
    (t : Tables) (db : DB) : result ClientGroup :=
  let clientID := TrimSpace clientID in
  let clientIP := TrimSpace clientIP in
  let by_default := GetGroupByName "default" t in
  let by_cidr :=
    if String.eqb clientIP "" then by_default
    else match ParseIP clientIP with
         | None => by_default
         | Some ip =>
             let matched := match find (λ e, NetContains e.2 ip) (cidrCache db) with
                            | Some e => e.1 | None => 0%Z end in
             if (0 <? matched)%Z then GetGroup matched t else by_default
         end in
  let by_ip :=
    if String.eqb clientIP "" then by_cidr
    else match io_err (QMapping "ip" clientIP) with
         | Some e => Err e
         | None => match client_mappings t !! ("ip", clientIP) with
                   | Some m => GetGroup (MappingGroup m) t
                   | None => by_cidr
                   end
         end in
  if clientIDTrusted && negb (String.eqb clientID "") then
    match io_err (QMapping "client_id" clientID) with
    | Some e => Err e
    | None => match client_mappings t !! ("client_id", clientID) with
              | Some m => GetGroup (MappingGroup m) t
              | None => by_ip
              end
    end
  else by_ip.

(** ** Overrides *)

Definition clean_override_domain (domain : string) : string :=
  TrimSuffix (TrimSpace (ToLower domain)) ".".

(** The checks [UpsertOverride] and [UpsertGroupOverride] share. *)
Definition check_override (domain action : string) : result string :=
  if negb (in_list action ["allow"; "block"]) then Err "invalid action"
  else
    let domain := clean_override_domain domain in
    if String.eqb domain "" then Err "override domain cannot be empty"
    else if negb (IsRegistrableDomain domain)
    then Err "override domain is a public suffix or has no registrable label"
    else Ok domain.

Definition UpsertOverride (domain action reason : string) (t : Tables) : Tables * option string :=
  match check_override domain action with
  | Err e => (t, Some e)
  | Ok d =>
      match io_err QWrite with
      | Some e => (t, Some e)
      | None => (set_local_overrides (<[d := mkOverride d action reason]> (local_overrides t)) t, None)
      end
  end.

Definition UpsertGroupOverride (groupID : Z) (domain action reason : string) (t : Tables)
    : Tables * option string :=
  match check_override domain action with
  | Err e => (t, Some e)
  | Ok d =>
      match io_err QWrite with
      | Some e => (t, Some e)
      | None =>
          if negb (bool_decide (is_Some (client_groups t !! groupID)))
          then (t, Some "FOREIGN KEY constraint failed")
          else (set_group_overrides (<[(groupID, d) := mkOverride d action reason]>
                                       (group_overrides t)) t, None)
      end
  end.

Definition DeleteOverride (domain : string) (t : Tables) : Tables * option string :=
  match io_err QWrite with
  | Some e => (t, Some e)
  | None =>
      match local_overrides t !! domain with
      | None => (t, Some "override not found")
      | Some _ => (set_local_overrides (delete domain (local_overrides t)) t, None)
      end
  end.

Definition DeleteGroupOverride (groupID : Z) (domain : string) (t : Tables) : Tables * option string :=
  let domain := TrimSpace (ToLower domain) in
  match io_err QWrite with
  | Some e => (t, Some e)
  | None =>
      match group_overrides t !! (groupID, domain) with
      | None => (t, Some "group override not found")
      | Some _ => (set_group_overrides (delete (groupID, domain) (group_overrides t)) t, None)
      end
  end.

Fixpoint override_walk (groupID : Z) (candidates : list string) (t : Tables) : result (option Override) :=
  match candidates with
  | [] => Ok None
  | candidate :: candidates =>
      match io_err (QGroupOverride groupID candidate) with
      | Some e => Err e
      | None =>
          match group_overrides t !! (groupID, candidate) with
          | Some o => Ok (Some o)
          | None =>
              match io_err (QLocalOverride candidate) with
              | Some e => Err e
              | None =>
                  match local_overrides t !! candidate with
                  | Some o => Ok (Some o)
                  | None => override_walk groupID candidates t
                  end
              end
          end
      end
  end.

(** [tables] is [None] when the store is disabled. *)
Definition GetEffectiveOverride (groupID : Z) (domain : string) (tables : option Tables)
    : result (option Override) :=
  match tables with
  | None => Ok None
  | Some t => override_walk groupID (walk_candidates (TrimSpace (ToLower domain))) t
  end.

Fixpoint global_walk (candidates : list string) (t : Tables) : result (option Override) :=
  match candidates with
  | [] => Ok None
  | candidate :: candidates =>
      match io_err (QLocalOverride candidate) with
      | Some e => Err e
      | None =>
          match local_overrides t !! candidate with
          | Some o => Ok (Some o)
          | None => global_walk candidates t
          end
      end
  end.
Definition GetOverride (domain : string) (t : Tables) : result (option Override) :=
  global_walk (walk_candidates domain) t.
End Ops.
