(* ===== verification/GroupsSpec.v ===== *)
(** * Properties of groups and overrides

    The override walk finds the nearest row with the group's before the global one,
    a client outside the exact mappings gets the group of the longest matching
    prefix, and the in-process index can only be out of date when its revision
    says so. *)

From Stdlib Require Import ZArith Lia Ascii String.
From stdpp Require Import sorting.
From S2P Require Import Prelude GoStr Hostname NetIP ClientIP Groups.

Section Overrides.
Context `{UnicodeTables, HostServices, StoreIO}.

(** The row that applies at one candidate. *)
Definition row_at (g : Z) (t : Tables) (c : string) : option Override :=
  match group_overrides t !! (g, c) with Some o => Some o | None => local_overrides t !! c end.

Lemma override_walk_spec g cands t r :
  override_walk g cands t = Ok r →
  match r with
  | None => Forall (λ c, row_at g t c = None) cands
  | Some o => ∃ near c far, cands = (near ++ c :: far)%list ∧
      Forall (λ c, row_at g t c = None) near ∧ row_at g t c = Some o
  end.
Proof.
  induction cands as [|c cands IH]; cbn; [by intros [= <-]|].
  destruct (io_err (QGroupOverride g c)); [done|].
  destruct (group_overrides t !! (g, c)) as [o|] eqn:Eg.
  { intros [= <-]. exists [], c, cands. unfold row_at. rewrite Eg. by split_and!. }
  destruct (io_err (QLocalOverride c)); [done|].
  destruct (local_overrides t !! c) as [o|] eqn:El.
  { intros [= <-]. exists [], c, cands. unfold row_at. rewrite Eg, El. by split_and!. }
  assert (row_at g t c = None) as Hc by (unfold row_at; by rewrite Eg).
  intros Hr. specialize (IH Hr). destruct r as [o|]; [|by constructor].
  destruct IH as (near & c' & far & -> & Hn & Ho). exists (c :: near), c', far.
  split_and!; [done|by constructor|done].
Qed.

Lemma override_walk_total g cands t :
  (∀ q, io_err q = None) → ∃ r, override_walk g cands t = Ok r.
Proof.
  intros Hio. induction cands as [|c cands IH]; cbn; [by eexists|]. rewrite !Hio.
  destruct (group_overrides t !! (g, c)); [by eexists|].
  destruct (local_overrides t !! c); [by eexists|done].
Qed.

(** C5: the override that applies is the nearest one: of the name and its parents down to
    the registrable domain, the first that has a row for the group or a global row,
    the group's row first; an answer of no override means no such row exists, a
    failed read is always reported, and without failures there is an answer. *)
Theorem effective_override_nearest g domain t r :
  let d := TrimSpace (ToLower domain) in
  (GetEffectiveOverride g domain (Some t) = Ok r →
   match r with
   | None => ∀ c, c ∈ walk_candidates d →
       group_overrides t !! (g, c) = None ∧ local_overrides t !! c = None
   | Some o => ∃ near c far, walk_candidates d = (near ++ c :: far)%list ∧
       (∀ c', c' ∈ near → group_overrides t !! (g, c') = None ∧ local_overrides t !! c' = None) ∧
       (group_overrides t !! (g, c) = Some o ∨
        group_overrides t !! (g, c) = None ∧ local_overrides t !! c = Some o)
   end) ∧
  ((∀ q, io_err q = None) → is_ok (GetEffectiveOverride g domain (Some t)) = true).
Proof.
  intros d. assert (∀ c, row_at g t c = None ↔
    group_overrides t !! (g, c) = None ∧ local_overrides t !! c = None) as Hrow.
  { intros c. unfold row_at. destruct (group_overrides t !! (g, c)); naive_solver. }
  split.
  - intros Hr%override_walk_spec. fold d in Hr. destruct r as [o|].
    + destruct Hr as (near & c & far & Hd & Hn & Ho). exists near, c, far. split; [done|].
      rewrite Forall_forall in Hn. split; [intros c' Hc'; by apply Hrow, Hn|].
      unfold row_at in Ho. destruct (group_overrides t !! (g, c)); naive_solver.
    + rewrite Forall_forall in Hr. intros c Hc. by apply Hrow, Hr.
  - intros Hio. destruct (override_walk_total g (walk_candidates d) t Hio) as [r' Hr].
    cbn. fold d. by rewrite Hr.
Qed.

(** Rows written by the two upserts are for registrable domains. *)
Lemma check_override_safe domain action d :
  check_override domain action = Ok d →
  IsRegistrableDomain d = true ∧ (action = "allow" ∨ action = "block") ∧ d ≠ "".
Proof.
  unfold check_override. destruct (in_list action _) eqn:Ea; cbn [negb]; [|done].
  destruct (String.eqb_spec (clean_override_domain domain) ""); [done|].
  destruct (IsRegistrableDomain (clean_override_domain domain)) eqn:Er; cbn [negb]; [|done].
  intros [= <-]. split_and!; [done| |done]. unfold in_list in Ea. cbn in Ea.
  destruct (String.eqb_spec action "allow"), (String.eqb_spec action "block"); auto; done.
Qed.
End Overrides.

(** ** The CIDR index *)

Section Cidr.
Context `{UnicodeTables, StoreIO, SortSlice}.

Definition prefix_len (e : Z * IPNet) : Z := mask_ones (NetMask e.2).
Definition addr_bits (e : Z * IPNet) : Z := (8 * Z.of_nat (length (NetMask e.2)))%Z.

Lemma cidr_less_false a b :
  cidr_less b a = false ↔
  (prefix_len b < prefix_len a ∨ prefix_len b = prefix_len a ∧ addr_bits b <= addr_bits a)%Z.
Proof.
  unfold cidr_less, prefix_len, addr_bits.
  destruct (Z.eqb_spec (mask_ones (NetMask b.2)) (mask_ones (NetMask a.2))); cbn [negb];
    rewrite Z.ltb_ge; lia.
Qed.

#[local] Instance cidr_le_trans : Transitive (λ a b, cidr_less b a = false).
Proof. intros a b c. rewrite !cidr_less_false. lia. Qed.
#[local] Instance cidr_le_total : Total (λ a b, cidr_less b a = false).
Proof. intros a b. rewrite !cidr_less_false. lia. Qed.

Definition index_of (t : Tables) : list (Z * IPNet) := sort_slice cidr_less (cidr_rows t).

Lemma elem_of_index t e : e ∈ index_of t ↔ e ∈ cidr_rows t.
Proof. unfold index_of. by rewrite sort_slice_perm. Qed.

(** The first hit of a sorted index has the longest prefix. *)
Lemma find_longest l ip :
  StronglySorted (λ a b, cidr_less b a = false) l →
  match find (λ e : Z * IPNet, NetContains e.2 ip) l with
  | Some e => e ∈ l ∧ NetContains e.2 ip = true ∧
      ∀ e', e' ∈ l → NetContains e'.2 ip = true → (prefix_len e' <= prefix_len e)%Z
  | None => ∀ e', e' ∈ l → NetContains e'.2 ip = false
  end.
Proof.
  induction 1 as [|e l Hs IH He]; cbn; [by intros e' ?%elem_of_nil|].
  destruct (NetContains e.2 ip) eqn:Ec.
  - split_and!; [by left|done|]. intros e' [->|Hin]%elem_of_cons _; [lia|].
    rewrite Forall_forall in He. apply He, cidr_less_false in Hin. lia.
  - destruct (find _ l) as [x|].
    + destruct IH as (Hx & Hc & Hmax). split_and!; [by right|done|].
      intros e' [->|Hin]%elem_of_cons Hc'; [congruence|by apply Hmax].
    + intros e' [->|Hin]%elem_of_cons; [done|by apply IH].
Qed.

(** A client without an exact mapping gets the group of the longest matching prefix:
    the index being current, the group returned is that of a row whose network
    contains the address and whose prefix no other containing row exceeds, or the
    default group when no row contains it.  An untrusted client identifier plays no
    part. *)
Theorem longest_prefix_group t db ip client_id addr :
  cidrCache db = index_of t →
  (∀ q, io_err q = None) →
  (∀ e, e ∈ cidr_rows t → (0 < e.1)%Z) →
  TrimSpace ip = ip → ip ≠ "" → ParseIP ip = Some addr →
  client_mappings t !! ("ip", ip) = None →
  (∃ e, e ∈ cidr_rows t ∧ NetContains e.2 addr = true ∧
     (∀ e', e' ∈ cidr_rows t → NetContains e'.2 addr = true → (prefix_len e' <= prefix_len e)%Z) ∧
     GetGroupForClient ip client_id false t db = GetGroup e.1 t) ∨
  (∀ e, e ∈ cidr_rows t → NetContains e.2 addr = false) ∧
  GetGroupForClient ip client_id false t db = GetGroupByName "default" t.
Proof.
  intros Hdb Hio Hpos Htrim Hne Hip Hmap.
  assert (StronglySorted (λ a b, cidr_less b a = false) (index_of t)) as Hs
    by (apply sort_slice_sorted; apply _).
  pose proof (find_longest (index_of t) addr Hs) as Hf.
  unfold GetGroupForClient. cbn [andb]. rewrite Htrim, Hio, Hmap, Hip, Hdb.
  destruct (String.eqb_spec ip ""); [done|].
  destruct (find _ (index_of t)) as [e|].
  - left. destruct Hf as (Hin & Hc & Hmax). rewrite elem_of_index in Hin.
    exists e. split_and!; [done|done| |].
    + intros e' Hin'. apply Hmax. by apply elem_of_index.
    + destruct (Z.ltb_spec 0 e.1); [done|]. specialize (Hpos e Hin). lia.
  - right. split; [|done]. intros e Hin. apply Hf. by apply elem_of_index.
Qed.
End Cidr.

(** ** Freshness of the index *)

Section Fresh.
Context `{UnicodeTables, HostServices, StoreIO, SortSlice}.

(** A process: its index and, while a reload is under way, the revision it has read. *)
Record proc := mkProc { pdb : DB; loading : option Z }.

(** The committed writes of any process. *)
Inductive commit : Tables → Tables → Prop :=
  | c_add kind v g t db : commit t (AddMappingInt kind v g t db).1.1
  | c_delete_mapping id t db : commit t (DeleteMapping id t db).1.1
  | c_delete_group id t db : commit t (DeleteGroup id t db).1.1
  | c_default t : commit t (CreateDefaultGroups t).1
  | c_create n d cats sp sm t : commit t (CreateGroup n d cats sp sm t).1
  | c_update id n d cats sp sm t : commit t (UpdateGroup id n d cats sp sm t).1
  | c_override d a r t : commit t (UpsertOverride d a r t).1
  | c_group_override g d a r t : commit t (UpsertGroupOverride g d a r t).1
  | c_delete_override d t : commit t (DeleteOverride d t).1
  | c_delete_group_override g d t : commit t (DeleteGroupOverride g d t).1.

(** A reload reads the revision, then the rows; anything may be committed between. *)
Inductive world_step : Tables * list proc → Tables * list proc → Prop :=
  | w_commit t t' ps : commit t t' → world_step (t, ps) (t', ps)
  | w_revision t ps i p :
      ps !! i = Some p → io_err QRevision = None →
      world_step (t, ps) (t, <[i := mkProc (pdb p) (Some (mappings_revision t))]> ps)
  | w_rows t ps i p r t_rev :
      ps !! i = Some p → loading p = Some r → mappings_revision t_rev = r →
      world_step (t, ps) (t, <[i := mkProc (loadCIDRCache t_rev t (pdb p)).1 None]> ps).

(** Commits leave the mappings alone or move the revision. *)
Lemma commit_revision t t' :
  commit t t' →
  (client_mappings t' = client_mappings t ∧ mappings_revision t' = mappings_revision t) ∨
  (mappings_revision t < mappings_revision t')%Z.
Proof.
  intros Hc. destruct Hc; unfold AddMappingInt, DeleteMapping, DeleteGroup, CreateDefaultGroups,
    CreateGroup, UpdateGroup, UpsertOverride, UpsertGroupOverride, DeleteOverride,
    DeleteGroupOverride; repeat case_match; cbn; auto; right; lia.
Qed.

Definition proc_ok (t : Tables) (p : proc) : Prop :=
  (cidrRevision (pdb p) <= mappings_revision t)%Z ∧
  (cidrRevision (pdb p) = mappings_revision t → cidrCache (pdb p) = index_of t) ∧
  ∀ r, loading p = Some r → (r <= mappings_revision t)%Z.

Lemma index_of_mappings t t' : client_mappings t' = client_mappings t → index_of t' = index_of t.
Proof. intros Hm. unfold index_of, cidr_rows. by rewrite Hm. Qed.

Lemma commit_proc_ok t t' p : commit t t' → proc_ok t p → proc_ok t' p.
Proof.
  intros Hc (H1' & H2' & H3'). destruct (commit_revision t t' Hc) as [[Hm Hr]|Hr].
  - unfold proc_ok. rewrite Hr, (index_of_mappings t t' Hm). done.
  - split_and!; [lia|lia|]. intros r Hl. specialize (H3' r Hl). lia.
Qed.

Lemma world_ok w w' :
  world_step w w' → Forall (proc_ok w.1) w.2 → Forall (proc_ok w'.1) w'.2.
Proof.
  intros Hs Hw. destruct Hs as [t t' ps Hc|t ps i p Hi Hio|t ps i p r t_rev Hi Hl Hr]; cbn in *.
  - eapply Forall_impl; [exact Hw|]. intros p. by apply commit_proc_ok.
  - apply Forall_insert; [done|]. rewrite Forall_forall in Hw.
    destruct (Hw p) as (H1' & H2' & H3'); [by eapply list_elem_of_lookup_2|].
    split_and!; [done|done|]. intros r [= <-]. lia.
  - apply Forall_insert; [done|]. rewrite Forall_forall in Hw.
    destruct (Hw p) as (H1' & H2' & H3'); [by eapply list_elem_of_lookup_2|].
    unfold loadCIDRCache. destruct (io_err QRevision); [by split_and!|].
    destruct (io_err QCidrRows); [by split_and!|].
    specialize (H3' r Hl). split_and!; cbn; [lia|done|done].
Qed.

(** No stale index goes unnoticed: whatever is committed by any process, and however
    reloads interleave with the commits, the revision of an index never runs ahead of
    the table, and when it equals the table's the index is that of the table; hence
    one reconciliation without a read failure makes any process's index current. *)
Theorem cidr_index_fresh w w' p :
  rtc world_step w w' → Forall (proc_ok w.1) w.2 → p ∈ w'.2 →
  let t := w'.1 in
  (cidrRevision (pdb p) <= mappings_revision t)%Z ∧
  (cidrRevision (pdb p) = mappings_revision t → cidrCache (pdb p) = index_of t) ∧
  ((∀ q, io_err q = None) →
   let db := (ReconcileCIDRMappings t t t (pdb p)).1 in
   cidrRevision db = mappings_revision t ∧ cidrCache db = index_of t).
Proof.
  intros Hr Hw Hp t.
  assert (Forall (proc_ok w'.1) w'.2) as Hw'.
  { clear Hp t. induction Hr as [|x y z Hxy _ IH]; [done|]. apply IH. by apply (world_ok x). }
  rewrite Forall_forall in Hw'. destruct (Hw' p Hp) as (H1' & H2' & _).
  split; [done|]. split; [done|]. intros Hio. unfold ReconcileCIDRMappings, loadCIDRCache.
  rewrite !Hio. destruct (Z.eqb_spec (mappings_revision t) (cidrRevision (pdb p))) as [E|]; cbn; [|done].
  split; [done|]. by apply H2'.
Qed.
End Fresh.

(** ** Witnesses *)

Module Examples.
#[local] Instance ex_tables : UnicodeTables := ascii_tables.
#[local] Instance ex_services : HostServices := two_label_services.
#[local] Instance ex_io : StoreIO := {| io_err _ := None |}.
Definition not_less {A} (less : A → A → bool) (a b : A) : Prop := less b a = false.
#[local] Instance not_less_dec {A} (less : A → A → bool) a b : Decision (not_less less a b).
Proof. unfold not_less. apply _. Defined.
Definition ex_slice {A} (less : A → A → bool) (l : list A) : list A := merge_sort (not_less less) l.
#[local] Instance ex_sort : SortSlice.
Proof.
  apply (Build_SortSlice (@ex_slice)).
  - intros A less l. apply (merge_sort_Permutation (not_less less)).
  - intros A less l Ht Hto. by apply (StronglySorted_merge_sort (not_less less)).
Defined.

Definition t0 : Tables := (CreateDefaultGroups (mkTables ∅ ∅ ∅ ∅ 0 1)).1.
Definition t1 : Tables := (CreateGroup "kids" "" ["adult"] true true t0).1.
Definition t2 : Tables := (AddMappingInt "cidr" "10.0.0.0/8" 1 t1 (mkDB [] 0)).1.1.
Definition t3 : Tables := (AddMappingInt "CIDR" "10.1.0.0/16" 2 t2 (mkDB [] 0)).1.1.
Definition t4 : Tables :=
  (UpsertGroupOverride 2 "Example.com." "block" "" (UpsertOverride "example.com" "allow" "" t3).1).1.
Definition db : DB := mkDB (index_of t4) (mappings_revision t4).

Lemma effective_override_nearest_witness :
  let d := "www.example.com" in
  (GetEffectiveOverride 2 "WWW.example.com" (Some t4) = Ok (Some (mkOverride "example.com" "block" "")) →
   ∃ near c far, walk_candidates d = (near ++ c :: far)%list ∧
     (∀ c', c' ∈ near → group_overrides t4 !! (2%Z, c') = None ∧ local_overrides t4 !! c' = None) ∧
     (group_overrides t4 !! (2%Z, c) = Some (mkOverride "example.com" "block" "") ∨
      group_overrides t4 !! (2%Z, c) = None ∧
      local_overrides t4 !! c = Some (mkOverride "example.com" "block" ""))) ∧
  ((∀ q, io_err q = None) → is_ok (GetEffectiveOverride 2 "WWW.example.com" (Some t4)) = true).
Proof.
  exact (effective_override_nearest 2 "WWW.example.com" t4
           (Some (mkOverride "example.com" "block" ""))).
Defined.

Lemma rows_t4 : cidr_rows t4 =
  [(2%Z, mkNet [10; 1; 0; 0]%Z [255; 255; 0; 0]%Z); (1%Z, mkNet [10; 0; 0; 0]%Z [255; 0; 0; 0]%Z)] ∨
  cidr_rows t4 =
  [(1%Z, mkNet [10; 0; 0; 0]%Z [255; 0; 0; 0]%Z); (2%Z, mkNet [10; 1; 0; 0]%Z [255; 255; 0; 0]%Z)].
Proof. first [left; vm_compute; reflexivity | right; vm_compute; reflexivity]. Qed.

Lemma longest_prefix_group_witness :
  ∃ addr, ParseIP "10.1.2.3" = Some addr ∧
  ((∃ e, e ∈ cidr_rows t4 ∧ NetContains e.2 addr = true ∧
     (∀ e', e' ∈ cidr_rows t4 → NetContains e'.2 addr = true → (prefix_len e' <= prefix_len e)%Z) ∧
     GetGroupForClient "10.1.2.3" "any" false t4 db = GetGroup e.1 t4) ∨
  (∀ e, e ∈ cidr_rows t4 → NetContains e.2 addr = false) ∧
  GetGroupForClient "10.1.2.3" "any" false t4 db = GetGroupByName "default" t4).
Proof.
  eexists. split; [reflexivity|].
  refine (longest_prefix_group t4 db "10.1.2.3" "any" _ _ _ _ _ _ _ _).
  - reflexivity.
  - reflexivity.
  - intros e. destruct rows_t4 as [-> | ->]; intros [->|[->|?%elem_of_nil]%elem_of_cons]%elem_of_cons;
      cbn; lia || done.
  - reflexivity.
  - discriminate.
  - reflexivity.
  - vm_compute. reflexivity.
Defined.

(** A mapping is committed while the process is between its two reads. *)
Definition p0 : proc := mkProc (mkDB (index_of t2) (mappings_revision t2)) None.

Lemma cidr_index_fresh_witness :
  let p := mkProc (loadCIDRCache t2 t3 (pdb p0)).1 None in
  let t := t3 in
  (cidrRevision (pdb p) <= mappings_revision t)%Z ∧
  (cidrRevision (pdb p) = mappings_revision t → cidrCache (pdb p) = index_of t) ∧
  ((∀ q, io_err q = None) →
   let db := (ReconcileCIDRMappings t t t (pdb p)).1 in
   cidrRevision db = mappings_revision t ∧ cidrCache db = index_of t).
Proof.
  set (pm := mkProc (pdb p0) (Some (mappings_revision t2))).
  refine (cidr_index_fresh (t2, [p0])
            (t3, <[0 := mkProc (loadCIDRCache t2 t3 (pdb pm)).1 None]> (<[0 := pm]> [p0])) _ _ _ _).
  - eapply rtc_l; [apply (w_revision t2 [p0] 0 p0); reflexivity|].
    eapply rtc_l; [apply (w_commit t2 t3), c_add|].
    apply rtc_once. by apply (w_rows t3 (<[0 := pm]> [p0]) 0 pm (mappings_revision t2) t2).
  - constructor; [|constructor]. split_and!; [done|done|done].
  - by left.
Defined.

(** The comparison orders by prefix length first, across address families: a
    v4-mapped /96, which covers every IPv4 address, precedes an IPv4 /24. *)
Example mapped_prefix_first :
  cidr_less (1%Z, mkNet (v4InV6Prefix ++ [0; 0; 0; 0]%Z)%list (mask_bytes 16 96))
            (2%Z, mkNet [10; 0; 0; 0]%Z (mask_bytes 4 24)) = true.
Proof. by vm_compute. Qed.
End Examples.
