(* ===== verification/Exceptions.v ===== *)
(** * Scoped adblock exceptions: [internal/risk/adblock_exceptions.go], [adblock_shadow.go]

    A content exception suppresses one adblock match.  [validateAdblockExceptions]
    checks a decoded file, [buildAdblockExceptionSnapshot] indexes the entries,
    [snapshot_match] finds the exception of a fired rule, and
    [reloadAdblockExceptions] publishes a new snapshot or keeps the old one.
    [observeShadowExact] counts what a change of the global match mode would do.

    The JSON decoder and the SHA-256 digest of the revision are the fields of
    [ExceptionLibs]; the file content and the clock are inputs.  An error
    carries its class and the fixed part of its message: the quoted input of a
    [%q] and the wrapped cause of a [%v] are left out. *)

From Stdlib Require Import ZArith Lia Ascii String.
From S2P Require Import Prelude GoStr Hostname Trie NetIP Whitelist Groups.

Definition adblockExceptionsMaxBytes : Z := 256 * 1024.
Definition adblockExceptionsMaxEntries : Z := 1024.
Definition adblockExceptionsMaxIDLen : Z := 64.
Definition adblockExceptionsMaxReason : Z := 256.

Definition adblockExcErrMissing : string := "missing".
Definition adblockExcErrOversize : string := "oversize".
Definition adblockExcErrTooManyEntries : string := "too_many_entries".
Definition adblockExcErrInvalidJSON : string := "invalid_json".
Definition adblockExcErrInvalidVersion : string := "invalid_version".
Definition adblockExcErrInvalidEntry : string := "invalid_entry".

Definition CacheV2LegacySourceID : string := "legacy-cache".

Record adblockException := mkExc {
  EID : string;
  EDomain : string;
  EScope : RuleScope;
  EMatchedRule : string;
  ESourceID : string;
  EMatchType : RuleScope;
  ECategory : string;
  EReason : string
}.

(** [adblockExceptionKey]: matched rule, source, match type and category; the
    match type is a string in the code. *)
Definition adblockExceptionKey : Type := string * string * string * string.

(** A nil map and an empty one behave alike on every read of the code. *)
Record adblockExceptionBucket := mkBucket {
  specific : gmap adblockExceptionKey string;
  wildcard : gmap adblockExceptionKey string
}.
Definition empty_bucket : adblockExceptionBucket := mkBucket ∅ ∅.

Record adblockExceptionSnapshot := mkSnap {
  revision : string;
  count : Z;
  exact : gmap string adblockExceptionBucket;
  suffix : gmap string adblockExceptionBucket
}.
Definition newEmptyAdblockExceptionSnapshot : adblockExceptionSnapshot := mkSnap "" 0 ∅ ∅.

Record rawAdblockException := mkRaw {
  RawID : string; RawDomain : string; RawScope : string; RawMatchedRule : string;
  RawSourceID : string; RawMatchType : string; RawCategory : string; RawReason : string
}.

Class ExceptionLibs := {
  (** strict decoding of the whole body into version and entries; [None] covers
      a decoding error, an unknown field and trailing content *)
  decode_exceptions : string → option (Z * list rawAdblockException);
  (** the first 16 bytes of the SHA-256 digest, in hexadecimal *)
  sha256_hex16 : string → string
}.

(** ** Validation *)

Definition is_lower_byte (c : ascii) : bool := ((97 <=? byte_z c) && (byte_z c <=? 122))%Z.
Definition is_hex_byte (c : ascii) : bool :=
  let z := byte_z c in
  ((48 <=? z) && (z <=? 57) || (97 <=? z) && (z <=? 102) || (65 <=? z) && (z <=? 70))%Z.
Definition label_byte (c : ascii) : bool :=
  is_lower_byte c || ascii_digit c || Ascii.eqb c "-".
Definition id_byte (c : ascii) : bool :=
  ascii_letter c || ascii_digit c || Ascii.eqb c "-" || Ascii.eqb c "_".

(** [strings.ContainsAny(s, chars)] for ASCII [chars] *)
Definition ContainsAny (s chars : string) : bool := negb (sforall (λ c, negb (contains_byte c chars)) s).

Definition carriage_return : ascii := ascii_of_N 13.
Definition line_feed : ascii := ascii_of_N 10.
Definition blank_bytes : string :=
  String " " (String tab_byte (String line_feed (String carriage_return ""))).

Definition first_byte (s : string) : option ascii := String.get 0 s.
Definition last_byte (s : string) : option ascii := String.get (slen s - 1) s.

(** The loop body over [labels]: the error of the first bad label. *)
Definition check_label (label : string) : option string :=
  if Nat.eqb (slen label) 0 || Nat.ltb 63 (slen label)
  then Some "domain has an empty or oversized label"
  else if negb (sforall label_byte label) then Some "domain has invalid characters"
  else if bool_decide (first_byte label = Some "-"%char)
          || bool_decide (last_byte label = Some "-"%char)
  then Some "domain has a malformed label"
  else None.
Fixpoint check_labels (labels : list string) : option string :=
  match labels with
  | [] => None
  | l :: ls => match check_label l with Some e => Some e | None => check_labels ls end
  end.

(** The closure [isSub]. *)
Definition isSub (child parent : string) : bool := HasSuffix child ("." ++ parent).

Definition selectorsIntersect (queryDomain : string) (queryScope : RuleScope)
    (ruleDomain : string) (ruleScope : RuleScope) : bool :=
  if String.eqb queryDomain ruleDomain then true
  else match queryScope, ruleScope with
       | RuleScopeExact, RuleScopeExact => false
       | RuleScopeExact, _ => isSub queryDomain ruleDomain
       | _, RuleScopeExact => isSub ruleDomain queryDomain
       | _, _ => isSub queryDomain ruleDomain || isSub ruleDomain queryDomain
       end.

Definition isValidExceptionID (id : string) : bool :=
  if Nat.eqb (slen id) 0 || (adblockExceptionsMaxIDLen <? Z.of_nat (slen id))%Z then false
  else sforall id_byte id.

Definition known_scope (s : RuleScope) : bool :=
  match s with RuleScopeOther _ => false | _ => true end.

Definition nul : string := String (ascii_of_N 0) "".

(** [selectorKey] *)
Definition selector_key (e : adblockException) : string :=
  EDomain e ++ nul ++ scope_string (EScope e) ++ nul ++ EMatchedRule e ++ nul ++
  ESourceID e ++ nul ++ scope_string (EMatchType e) ++ nul ++ ECategory e.

Definition entry_err (i : nat) (what : string) : string :=
  adblockExcErrInvalidEntry ++ ": entry " ++ dec_string (Z.of_nat i) ++ what.

Section Validate.
Context `{UnicodeTables, HostServices, ExceptionLibs}.

Definition normalizeExceptionDomain (raw : string) : result string :=
  let trimmed := ToLower (TrimSpace raw) in
  if String.eqb trimmed "" then Err "domain is empty"
  else if Contains trimmed "://" || ContainsAny trimmed "/?#@:" || Contains trimmed "*"
          || ContainsAny trimmed blank_bytes
  then Err "domain is not a bare hostname"
  else match idna_to_ascii trimmed with
       | None => Err "domain is not valid"
       | Some ascii =>
           let ascii := TrimSpace ascii in
           if String.eqb ascii "" || Nat.ltb 253 (slen ascii) then Err "domain is not valid"
           else match check_labels (Split ascii ".") with
                | Some e => Err e
                | None => Ok ascii
                end
       end.

Definition canonicalExceptionSourceID (raw : string) : result string :=
  let trimmed := TrimSpace raw in
  if String.eqb trimmed LegacyRuleSourceID || String.eqb trimmed CacheV2LegacySourceID
  then Ok trimmed
  else if negb (Nat.eqb (slen trimmed) 32)
  then Err "source_id is not a 32-character hex digest"
  else if negb (sforall is_hex_byte trimmed) then Err "source_id is not hex"
  else Ok (ToLower trimmed).

(** The body of the loop over the decoded entries, up to the selector key. *)
Definition check_entry (i : nat) (re : rawAdblockException) (seenIDs : gset string)
    : result adblockException :=
  if negb (isValidExceptionID (RawID re)) then Err (entry_err i " has an invalid id")
  else if bool_decide (RawID re ∈ seenIDs) then Err (adblockExcErrInvalidEntry ++ ": duplicate id")
  else
    let reason := TrimSpace (RawReason re) in
    if String.eqb reason "" || (adblockExceptionsMaxReason <? Z.of_nat (slen reason))%Z
    then Err (entry_err i " has an invalid reason")
    else
    match normalizeExceptionDomain (RawDomain re) with
    | Err _ => Err (entry_err i ": domain")
    | Ok domain =>
    match normalizeExceptionDomain (RawMatchedRule re) with
    | Err _ => Err (entry_err i ": matched_rule")
    | Ok matchedRule =>
    let scope := scope_of_string (ToLower (TrimSpace (RawScope re))) in
    if negb (known_scope scope) then Err (entry_err i " has an unknown scope")
    else
    let matchType := scope_of_string (ToLower (TrimSpace (RawMatchType re))) in
    if negb (known_scope matchType) then Err (entry_err i " has an unknown match_type")
    else
    match canonicalExceptionSourceID (RawSourceID re) with
    | Err _ => Err (entry_err i " has an invalid source_id")
    | Ok sourceID =>
    let category := ToLower (TrimSpace (RawCategory re)) in
    if negb (String.eqb category "") && negb (IsValidRuleCategory category)
    then Err (entry_err i " has an unknown category")
    else if bool_decide (scope = RuleScopeSuffix) && negb (IsRegistrableDomain domain)
    then Err (entry_err i " selector is a public suffix")
    else if negb (selectorsIntersect domain scope matchedRule matchType)
    then Err (entry_err i " selector can never meet its rule")
    else Ok (mkExc (RawID re) domain scope matchedRule sourceID matchType category reason)
    end end end.

Fixpoint validate_loop (i : nat) (raws : list rawAdblockException)
    (seenIDs seenSelectors : gset string) (entries : list adblockException)
    : result (list adblockException) :=
  match raws with
  | [] => Ok entries
  | re :: raws =>
      match check_entry i re seenIDs with
      | Err e => Err e
      | Ok e =>
          if bool_decide (selector_key e ∈ seenSelectors)
          then Err (entry_err i " duplicates a selector")
          else validate_loop (S i) raws ({[RawID re]} ∪ seenIDs)
                 ({[selector_key e]} ∪ seenSelectors) (entries ++ [e])%list
      end
  end.

Definition validateAdblockExceptions (body : string) : result (list adblockException) :=
  match decode_exceptions body with
  | None => Err adblockExcErrInvalidJSON
  | Some (version, raws) =>
      if negb (version =? 1)%Z then Err adblockExcErrInvalidVersion
      else if (adblockExceptionsMaxEntries <? Z.of_nat (length raws))%Z
      then Err adblockExcErrTooManyEntries
      else validate_loop 0 raws ∅ ∅ []
  end.
End Validate.

(** ** Revision *)

(** [binary.BigEndian.PutUint64]: [n] bytes of [v], the most significant first. *)
Fixpoint be_bytes (n : nat) (v : Z) (rest : string) : string :=
  match n with
  | 0 => rest
  | S n => be_bytes n (v / 256) (String (ascii_of_N (Z.to_N (v mod 256))) rest)
  end.
Definition writeFramedUint64 (v : Z) (rest : string) : string := be_bytes 8 v rest.
Definition writeFramedString (s rest : string) : string :=
  writeFramedUint64 (Z.of_nat (slen s)) (s ++ rest).

Definition revisionDomainSeparator : string := "safe-zone/adblock-exceptions/revision/v1".

(** The fields of an entry, in the order of the comparison and of the encoding. *)
Definition exception_fields (e : adblockException) : list string :=
  [EID e; EDomain e; scope_string (EScope e); EMatchedRule e; ESourceID e;
   scope_string (EMatchType e); ECategory e; EReason e].

Fixpoint lex_less (a b : list string) : bool :=
  match a, b with
  | x :: a, y :: b =>
      if String.eqb x y then lex_less a b
      else match String.compare x y with Lt => true | _ => false end
  | _, _ => false
  end.
Definition entry_less (a b : adblockException) : bool :=
  lex_less (exception_fields a) (exception_fields b).

Definition frame_all (ws : list string) : string := foldr writeFramedString "" ws.

Section Revision.
Context `{SortSlice, ExceptionLibs}.

(** The bytes written to the hash. *)
Definition revision_encoding (entries : list adblockException) : string :=
  let ordered := sort_slice entry_less entries in
  writeFramedString revisionDomainSeparator
    (writeFramedUint64 (Z.of_nat (length ordered)) (frame_all (concat (exception_fields <$> ordered)))).
Definition hashAdblockExceptionRevision (entries : list adblockException) : string :=
  sha256_hex16 (revision_encoding entries).

(** ** Snapshot *)

Definition entry_key (e : adblockException) : adblockExceptionKey :=
  (EMatchedRule e, ESourceID e, scope_string (EMatchType e), ECategory e).

Definition add_to_bucket (e : adblockException) (b : adblockExceptionBucket)
    : adblockExceptionBucket :=
  if String.eqb (ECategory e) ""
  then mkBucket (specific b) (<[entry_key e := EID e]> (wildcard b))
  else mkBucket (<[entry_key e := EID e]> (specific b)) (wildcard b).

Definition add_entry (s : adblockExceptionSnapshot) (e : adblockException)
    : adblockExceptionSnapshot :=
  match EScope e with
  | RuleScopeExact =>
      let b := add_to_bucket e (default empty_bucket (exact s !! EDomain e)) in
      mkSnap (revision s) (count s) (<[EDomain e := b]> (exact s)) (suffix s)
  | _ =>
      let b := add_to_bucket e (default empty_bucket (suffix s !! EDomain e)) in
      mkSnap (revision s) (count s) (exact s) (<[EDomain e := b]> (suffix s))
  end.

Definition buildAdblockExceptionSnapshot (entries : list adblockException)
    : adblockExceptionSnapshot :=
  let snap := foldl add_entry (mkSnap "" (Z.of_nat (length entries)) ∅ ∅) entries in
  mkSnap (hashAdblockExceptionRevision entries) (count snap) (exact snap) (suffix snap).
End Revision.

Definition rule_key (rule : Rule) (category : string) : adblockExceptionKey :=
  (Domain rule, SourceID rule, scope_string (Scope rule), category).

Definition matchBucket (bucket : adblockExceptionBucket) (rule : Rule) : option string :=
  match specific bucket !! rule_key rule (Category rule) with
  | Some id => Some id
  | None => wildcard bucket !! rule_key rule ""
  end.

(** The loop [for candidate := query; ; { ...; candidate = candidate[dot+1:] }]:
    the candidate shortens at every turn, so its length is enough fuel. *)
Fixpoint suffix_match (fuel : nat) (s : adblockExceptionSnapshot) (candidate : string)
    (rule : Rule) : option string :=
  match (b ← suffix s !! candidate; matchBucket b rule) with
  | Some id => Some id
  | None =>
      match IndexByte candidate ".", fuel with
      | Some dot, S fuel =>
          suffix_match fuel s
            (slice candidate (Z.of_nat dot + 1) (Z.of_nat (slen candidate))) rule
      | _, _ => None
      end
  end.

Definition snapshot_match (s : option adblockExceptionSnapshot) (query : string) (rule : Rule)
    : option string :=
  match s with
  | None => None
  | Some s =>
      if (count s =? 0)%Z then None
      else match (b ← exact s !! query; matchBucket b rule) with
           | Some id => Some id
           | None => suffix_match (slen query) s query rule
           end
  end.

Section Match.
Context `{HostServices}.
Definition normalizeExceptionQuery (query : string) : option string :=
  if is_ascii query then (if String.eqb query "" then None else Some query)
  else match idna_to_ascii query with
       | None => None
       | Some converted => if String.eqb converted "" then None else Some converted
       end.
End Match.

(** ** The engine's exception and shadow state

    The part of [AdblockEngine] the request path reads and writes.  Counters are
    unsigned 64-bit. *)

Inductive PolicySemantics := PolicySemanticsSeparated | PolicySemanticsLegacy.
#[export] Instance PolicySemantics_eq_dec : EqDecision PolicySemantics.
Proof. solve_decision. Defined.

Record ExcStatus := mkExcStatus {
  adblockExceptionsConfigured : bool;
  adblockExcLastReload : option Z;
  adblockExcLastOK : bool;
  adblockExcLastErr : string;
  adblockExcReloadSuccesses : Z;
  adblockExcReloadFailures : Z;
  adblockExcMatches : Z
}.
Record ShadowCounters := mkShadow {
  adblockShadowStillBlock : Z;
  adblockShadowWouldAllow : Z;
  adblockShadowPreserved : Z;
  adblockShadowUnavailable : Z;
  adblockShadowExcOverlap : Z
}.

Record AdblockEngine := mkEngine {
  policySemantics : PolicySemantics;
  adblockMatchMode : string;
  adblockTrie : option Trie;
  adblockEnabled : bool;
  adblockShadowExactEnabled : bool;
  adblockShadow : ShadowCounters;
  adblockExceptionsFile : string;
  adblockExceptionsPinned : bool;
  adblockExceptions : option adblockExceptionSnapshot;
  adblockExc : ExcStatus
}.

Definition set_shadow (c : ShadowCounters) (e : AdblockEngine) : AdblockEngine :=
  mkEngine (policySemantics e) (adblockMatchMode e) (adblockTrie e) (adblockEnabled e)
    (adblockShadowExactEnabled e) c (adblockExceptionsFile e) (adblockExceptionsPinned e)
    (adblockExceptions e) (adblockExc e).
Definition set_exceptions (path : string) (s : option adblockExceptionSnapshot) (x : ExcStatus)
    (e : AdblockEngine) : AdblockEngine :=
  mkEngine (policySemantics e) (adblockMatchMode e) (adblockTrie e) (adblockEnabled e)
    (adblockShadowExactEnabled e) (adblockShadow e) path (adblockExceptionsPinned e) s x.

Definition inc64 (z : Z) : Z := u64 (z + 1).

(** [adblockExcMatches.Add(1)] *)
Definition count_exception_match (e : AdblockEngine) : AdblockEngine :=
  let x := adblockExc e in
  set_exceptions (adblockExceptionsFile e) (adblockExceptions e)
    (mkExcStatus (adblockExceptionsConfigured x) (adblockExcLastReload x) (adblockExcLastOK x)
       (adblockExcLastErr x) (adblockExcReloadSuccesses x) (adblockExcReloadFailures x)
       (inc64 (adblockExcMatches x))) e.

Section Engine.
Context `{UnicodeTables, HostServices, ExceptionLibs, SortSlice}.

(** [io.ReadAll(io.LimitReader(file, n))]: the first [n] bytes. *)
Definition limit_reader (n : Z) (content : string) : string :=
  if (Z.of_nat (slen content) <=? n)%Z then content
  else String.substring 0 (Z.to_nat n) content.

(** [file]: the outcome of [OpenWithin] ([None] is any error) and of reading. *)
Definition loadAdblockExceptionFile (file : option (result string))
    : result adblockExceptionSnapshot :=
  match file with
  | None => Err adblockExcErrMissing
  | Some (Err _) => Err adblockExcErrInvalidEntry
  | Some (Ok content) =>
      let body := limit_reader (adblockExceptionsMaxBytes + 1) content in
      if (adblockExceptionsMaxBytes <? Z.of_nat (slen body))%Z then Err adblockExcErrOversize
      else match validateAdblockExceptions body with
           | Err msg =>
               if in_list msg [adblockExcErrInvalidJSON; adblockExcErrInvalidVersion;
                               adblockExcErrTooManyEntries]
               then Err msg else Err adblockExcErrInvalidEntry
           | Ok entries => Ok (buildAdblockExceptionSnapshot entries)
           end
  end.

(** [env] is the value of the environment variable, [files] the file system. *)
Definition reloadAdblockExceptions (env : string) (files : string → option (result string))
    (now : Z) (e : AdblockEngine) : AdblockEngine :=
  let path := if adblockExceptionsPinned e then adblockExceptionsFile e else TrimSpace env in
  let x := adblockExc e in
  if String.eqb path "" then
    if adblockExceptionsConfigured x
    then set_exceptions path (Some newEmptyAdblockExceptionSnapshot)
           (mkExcStatus false (adblockExcLastReload x) (adblockExcLastOK x) (adblockExcLastErr x)
              (adblockExcReloadSuccesses x) (adblockExcReloadFailures x) (adblockExcMatches x)) e
    else set_exceptions path (adblockExceptions e) x e
  else
    match loadAdblockExceptionFile (files path) with
    | Err errorClass =>
        set_exceptions path (adblockExceptions e)
          (mkExcStatus true (Some now) false errorClass (adblockExcReloadSuccesses x)
             (inc64 (adblockExcReloadFailures x)) (adblockExcMatches x)) e
    | Ok snapshot =>
        set_exceptions path (Some snapshot)
          (mkExcStatus true (Some now) true "" (inc64 (adblockExcReloadSuccesses x))
             (adblockExcReloadFailures x) (adblockExcMatches x)) e
    end.

Definition matchAdblockException (e : AdblockEngine) (query : string) (rule : Rule)
    : option string :=
  match adblockExceptions e with
  | None => None
  | Some snapshot =>
      if (count snapshot =? 0)%Z then None
      else match normalizeExceptionQuery query with
           | None => None
           | Some normalized => snapshot_match (Some snapshot) normalized rule
           end
  end.
End Engine.

Record AdblockExceptionStatus := mkStatus {
  StatusConfigured : bool; StatusCount : Z; StatusRevision : string;
  StatusLastReloadAt : option Z; StatusLastReloadOK : bool; StatusLastErrorClass : string;
  StatusReloadSuccesses : Z; StatusReloadFailures : Z; StatusMatches : Z
}.
(** The timestamp is not formatted. *)
Definition exception_status (e : AdblockEngine) : AdblockExceptionStatus :=
  let x := adblockExc e in
  let '(n, rev) := match adblockExceptions e with
                   | Some s => (count s, revision s) | None => (0%Z, "") end in
  mkStatus (adblockExceptionsConfigured x) n rev (adblockExcLastReload x) (adblockExcLastOK x)
    (adblockExcLastErr x) (adblockExcReloadSuccesses x) (adblockExcReloadFailures x)
    (adblockExcMatches x).

(** ** Shadow observation *)

Definition adblockShadowTargetScope : string := "exact".
Definition adblockMatchModeSuffix : string := "suffix".

Inductive shadowExactOutcome :=
  | shadowExactStillBlock | shadowExactWouldAllow | shadowExactPreserved | shadowExactUnavailable.

Definition classifyShadowExactOutcome (rule : Rule) (queryIsApex : bool) : shadowExactOutcome :=
  match Origin rule with
  | OriginGlobalDefault => if queryIsApex then shadowExactStillBlock else shadowExactWouldAllow
  | OriginSourcePolicyExact | OriginSourcePolicySuffix | OriginWildcard => shadowExactPreserved
  | _ => shadowExactUnavailable
  end.

Definition shadowExactActive (e : AdblockEngine) : bool :=
  if negb (adblockShadowExactEnabled e) then false
  else if negb (bool_decide (policySemantics e = PolicySemanticsSeparated)) then false
  else String.eqb (adblockMatchMode e) adblockMatchModeSuffix.

Definition record_outcome (o : shadowExactOutcome) (c : ShadowCounters) : ShadowCounters :=
  let '(mkShadow a b p u x) := c in
  match o with
  | shadowExactStillBlock => mkShadow (inc64 a) b p u x
  | shadowExactWouldAllow => mkShadow a (inc64 b) p u x
  | shadowExactPreserved => mkShadow a b (inc64 p) u x
  | shadowExactUnavailable => mkShadow a b p (inc64 u) x
  end.
Definition record_overlap (c : ShadowCounters) : ShadowCounters :=
  let '(mkShadow a b p u x) := c in mkShadow a b p u (inc64 x).

Definition observeShadowExact (detail : MatchDetail) (exceptionMatched : bool) (e : AdblockEngine)
    : AdblockEngine :=
  if negb (shadowExactActive e) || negb (Matched detail) then e
  else
    let queryIsApex := negb (String.eqb (Query detail) "")
                       && String.eqb (Query detail) (Domain (MRule detail)) in
    let c := record_outcome (classifyShadowExactOutcome (MRule detail) queryIsApex)
               (adblockShadow e) in
    set_shadow (if exceptionMatched then record_overlap c else c) e.

Record AdblockShadowExactStatus := mkShadowStatus {
  Enabled : bool; Active : bool; TargetScope : string; Observations : Z; Shadow : ShadowCounters
}.
Definition shadow_status (e : AdblockEngine) : AdblockShadowExactStatus :=
  let c := adblockShadow e in
  mkShadowStatus (adblockShadowExactEnabled e) (shadowExactActive e) adblockShadowTargetScope
    (u64 (adblockShadowStillBlock c + adblockShadowWouldAllow c + adblockShadowPreserved c
          + adblockShadowUnavailable c)) c.
