(* ===== verification/ExceptionsSpec.v ===== *)
(** * Properties of the scoped adblock exceptions

    What a validated file holds, when a selector can meet its rule, which fired
    rules an exception suppresses, what the revision identifies, and what a
    reload keeps. *)

From Stdlib Require Import ZArith Lia Ascii String.
From stdpp Require Import sorting.
From S2P Require Import Prelude GoStr Hostname Trie NetIP Whitelist Groups GroupsSpec Exceptions.

(** A selector covers a name: the name itself, or the names under it. *)
Definition covers (scope : RuleScope) (d q : string) : Prop :=
  match scope with RuleScopeExact => q = d | _ => label_suffix d q end.

Lemma isSub_spec c p : isSub c p = true ↔ ∃ r, c = r ++ String "." p.
Proof. unfold isSub. apply HasSuffix_spec. Qed.

Lemma label_suffix_sub c p : label_suffix p c ↔ c = p ∨ isSub c p = true.
Proof. unfold label_suffix. by rewrite isSub_spec. Qed.

Lemma label_suffix_comparable a b q :
  label_suffix a q → label_suffix b q → label_suffix a b ∨ label_suffix b a.
Proof.
  intros (i & Hi & Ha)%label_suffix_split (j & Hj & Hb)%label_suffix_split.
  destruct (decide (i ≤ j)) as [Hij|Hij]; [right|left];
    apply label_suffix_split; [exists (j - i)|exists (i - j)];
    rewrite ?Ha, ?Hb, drop_drop, length_drop; (split; [lia|f_equal; lia]).
Qed.

Lemma covers_self s d : covers s d d.
Proof. destruct s; cbn; done. Qed.

(** [selectorsIntersect] is exact: some queried name is covered by both. *)
Lemma intersect_aux qd qs rd rs :
  known_scope qs = true → known_scope rs = true →
  selectorsIntersect qd qs rd rs = true ↔ ∃ q, covers qs qd q ∧ covers rs rd q.
Proof.
  intros Hq Hr. unfold selectorsIntersect. destruct (String.eqb_spec qd rd) as [->|Hne].
  { split; [|done]. intros _. exists rd. split; apply covers_self. }
  assert (∀ a b, a ≠ b → label_suffix b a ↔ isSub a b = true) as Hsub
    by (intros a b ?; rewrite label_suffix_sub; naive_solver).
  destruct qs, rs; try done; cbn [covers].
  - naive_solver.
  - rewrite <-Hsub by done. naive_solver.
  - rewrite <-Hsub by done. naive_solver.
  - rewrite orb_true_iff, <-!Hsub by done. split.
    + intros [Hs|Hs]; [exists qd|exists rd]; done.
    + intros (q & Ha & Hb). destruct (label_suffix_comparable _ _ _ Ha Hb); auto.
Qed.

(** ** Validated entries *)

Record entry_ok `{UnicodeTables, HostServices} (e : adblockException) : Prop := {
  ok_id : EID e ≠ "" ∧ slen (EID e) ≤ 64 ∧ sforall id_byte (EID e) = true;
  ok_reason : EReason e ≠ "" ∧ slen (EReason e) ≤ 256;
  ok_domain : EDomain e ≠ "" ∧ slen (EDomain e) ≤ 253
    ∧ Forall (λ l, check_label l = None) (Split (EDomain e) ".");
  ok_rule : EMatchedRule e ≠ "" ∧ slen (EMatchedRule e) ≤ 253
    ∧ Forall (λ l, check_label l = None) (Split (EMatchedRule e) ".");
  ok_scope : known_scope (EScope e) = true;
  ok_type : known_scope (EMatchType e) = true;
  ok_source : slen (ESourceID e) ≤ 32;
  ok_category : ECategory e = "" ∨ IsValidRuleCategory (ECategory e) = true;
  ok_public : EScope e = RuleScopeSuffix → IsRegistrableDomain (EDomain e) = true;
  ok_meets : ∃ q, covers (EScope e) (EDomain e) q ∧ covers (EMatchType e) (EMatchedRule e) q
}.

Section Validation.
Context `{UnicodeTables, HostServices, ExceptionLibs}.

Lemma exc_labels_none ls : check_labels ls = None ↔ Forall (λ l, check_label l = None) ls.
Proof.
  induction ls as [|l ls IH]; cbn; [done|]. rewrite Forall_cons, <-IH.
  destruct (check_label l); naive_solver.
Qed.

Lemma normalize_exception_ok raw d :
  normalizeExceptionDomain raw = Ok d →
  d ≠ "" ∧ slen d ≤ 253 ∧ Forall (λ l, check_label l = None) (Split d ".").
Proof.
  unfold normalizeExceptionDomain. repeat (case_match; try done). intros [= <-].
  bool_simpl. split_and!; [done|done|]. by apply exc_labels_none.
Qed.

Lemma slen_ToLower_hex s : sforall is_hex_byte s = true → slen (ToLower s) = slen s.
Proof.
  intros Hs. rewrite ToLower_ascii, slen_smap; [done|].
  apply (sforall_impl is_hex_byte); [|done]. intros c. unfold is_hex_byte, is_ascii_byte.
  intros Hc. apply Z.ltb_lt. repeat (rewrite ?orb_true_iff, ?andb_true_iff, ?Z.leb_le in Hc). lia.
Qed.

Lemma canonical_source_ok raw s : canonicalExceptionSourceID raw = Ok s → slen s ≤ 32.
Proof.
  unfold canonicalExceptionSourceID. destruct (_ || _) eqn:E.
  - intros [= <-]. apply orb_true_iff in E. rewrite !String.eqb_eq in E.
    destruct E as [-> | ->]; vm_compute; lia.
  - repeat (case_match; try done). intros [= <-]. bool_simpl.
    rewrite slen_ToLower_hex by done. lia.
Qed.

Lemma check_entry_ok i re seen e :
  check_entry i re seen = Ok e → entry_ok e ∧ EID e = RawID re ∧ RawID re ∉ seen.
Proof.
  unfold check_entry. destruct (isValidExceptionID _) eqn:Eid; [|done]. cbn [negb].
  case_bool_decide as Hseen; [done|]. cbv zeta.
  destruct (_ || _) eqn:Ere; [done|].
  destruct (normalizeExceptionDomain (RawDomain re)) eqn:Ed; [|done].
  destruct (normalizeExceptionDomain (RawMatchedRule re)) eqn:Er; [|done].
  destruct (known_scope _) eqn:Es; [|done]. cbn [negb].
  destruct (known_scope (scope_of_string (ToLower (TrimSpace (RawMatchType re))))) eqn:Et; [|done].
  cbn [negb]. destruct (canonicalExceptionSourceID _) eqn:Esrc; [|done].
  destruct (negb _ && negb (IsValidRuleCategory _)) eqn:Ec; [done|].
  destruct (_ && negb (IsRegistrableDomain _)) eqn:Ep; [done|].
  destruct (selectorsIntersect _ _ _ _) eqn:Ei; [|done]. cbn [negb]. intros [= <-].
  split; [|done]. apply intersect_aux in Ei; [|done..].
  unfold isValidExceptionID in Eid. destruct (_ || _) eqn:Elen in Eid; [done|]. bool_simpl.
  split; cbn; try done.
  - split_and!; [|unfold adblockExceptionsMaxIDLen in *; lia|done]. intros Hz. apply (f_equal slen) in Hz. cbn in Hz. lia.
  - unfold adblockExceptionsMaxReason in *. split; [done|lia].
  - by apply normalize_exception_ok in Ed.
  - by apply normalize_exception_ok in Er.
  - by apply canonical_source_ok in Esrc.
  - apply andb_false_iff in Ec as [Ec|Ec]; apply negb_false_iff in Ec; [left|by right].
    by apply String.eqb_eq.
  - intros Hs. rewrite Hs in Ep. cbn in Ep. by apply negb_false_iff.
Qed.

(** The selectors of an entry, whose tuples are all distinct in a valid file. *)
Definition selector (e : adblockException) : string * string * adblockExceptionKey :=
  (EDomain e, scope_string (EScope e), entry_key e).

Lemma selector_key_of a b : selector a = selector b → selector_key a = selector_key b.
Proof. unfold selector, entry_key, selector_key. intros [=]. congruence. Qed.

Definition entries_ok (l : list adblockException) : Prop :=
  Forall entry_ok l ∧ NoDup (EID <$> l) ∧ NoDup (selector <$> l).

Lemma validate_loop_ok i raws ids sels l l' :
  validate_loop i raws ids sels l = Ok l' →
  entries_ok l → (∀ e, e ∈ l → EID e ∈ ids ∧ selector_key e ∈ sels) →
  entries_ok l' ∧ length l' = length l + length raws.
Proof.
  revert i ids sels l. induction raws as [|re raws IH]; intros i ids sels l; cbn.
  { intros [= <-] Hl _. split; [done|lia]. }
  destruct (check_entry i re ids) as [e|] eqn:Ee; [|done].
  apply check_entry_ok in Ee as (Hok & Hid & Hnew). case_bool_decide as Hsel; [done|].
  intros Hv (Hall & Hids & Hsels) Hseen. destruct (IH _ _ _ _ Hv) as [Hl' Hlen].
  - split_and!.
    + by rewrite Forall_app, Forall_singleton.
    + rewrite fmap_app, NoDup_app. split_and!; [done| |apply NoDup_singleton].
      intros x (e' & -> & He')%list_elem_of_fmap Hx%list_elem_of_singleton.
      apply Hseen in He' as [He' _]. congruence.
    + rewrite fmap_app, NoDup_app. split_and!; [done| |apply NoDup_singleton].
      intros x (e' & -> & He')%list_elem_of_fmap Hx%list_elem_of_singleton.
      apply selector_key_of in Hx. apply Hseen in He' as [_ He']. congruence.
  - intros e' [He'| ->%list_elem_of_singleton]%elem_of_app; [|set_solver].
    apply Hseen in He'. set_solver.
  - split; [done|]. rewrite Hlen, length_app. cbn. lia.
Qed.

Lemma validate_ok body l :
  validateAdblockExceptions body = Ok l → entries_ok l ∧ length l ≤ 1024.
Proof.
  unfold validateAdblockExceptions. destruct (decode_exceptions body) as [[v raws]|]; [|done].
  do 2 (case_match; [done|]). intros Hv. apply validate_loop_ok in Hv as [Hl Hlen].
  - split; [done|]. bool_simpl. unfold adblockExceptionsMaxEntries in *. cbn in Hlen. lia.
  - split_and!; [constructor|apply NoDup_nil_2..].
  - intros e He. by apply elem_of_nil in He.
Qed.
End Validation.

(** ** Lookup in a built snapshot *)

Definition scope_map (s : adblockExceptionSnapshot) (sc : RuleScope)
    : gmap string adblockExceptionBucket :=
  match sc with RuleScopeExact => exact s | _ => suffix s end.
Definition bucket_map (b : adblockExceptionBucket) (c : string)
    : gmap adblockExceptionKey string :=
  if String.eqb c "" then wildcard b else specific b.
(** The identifier stored under a selector: scope, name and provenance. *)
Definition stored (s : adblockExceptionSnapshot) (sc : RuleScope) (d : string)
    (k : adblockExceptionKey) : option string :=
  b ← scope_map s sc !! d; bucket_map b k.2 !! k.

Lemma stored_add s e sc d k :
  known_scope sc = true → known_scope (EScope e) = true →
  stored (add_entry s e) sc d k =
    if bool_decide (EScope e = sc ∧ EDomain e = d ∧ entry_key e = k) then Some (EID e)
    else stored s sc d k.
Proof.
  intros Hsc He.
  assert (∀ (m : gmap string adblockExceptionBucket) b, m !! EDomain e = b →
    (b' ← <[EDomain e := add_to_bucket e (default empty_bucket b)]> m !! d; bucket_map b' k.2 !! k)
    = if bool_decide (EDomain e = d ∧ entry_key e = k) then Some (EID e)
      else b' ← m !! d; bucket_map b' k.2 !! k) as Hins.
  { intros m b <-. destruct (decide (EDomain e = d)) as [<-|Hd].
    2: { rewrite lookup_insert_ne by done. rewrite bool_decide_false; [done|naive_solver]. }
    rewrite lookup_insert_eq. cbn [mbind option_bind]. unfold add_to_bucket, bucket_map.
    case_bool_decide as Hk.
    - destruct Hk as [_ <-]. cbn [entry_key snd].
      destruct (String.eqb (ECategory e) ""); apply lookup_insert_eq.
    - assert (entry_key e ≠ k) as Hne by naive_solver.
      destruct (m !! EDomain e); cbn [default];
        destruct (String.eqb (ECategory e) ""), (String.eqb k.2 ""); cbn;
        rewrite ?lookup_insert_ne, ?lookup_empty by done; done. }
  unfold stored, add_entry.
  destruct (EScope e), sc; try done; cbn [scope_map exact suffix]; rewrite ?(Hins _ _ eq_refl);
    do 2 case_bool_decide; naive_solver.
Qed.

Lemma stored_foldl (l : list adblockException) s sc d k id :
  known_scope sc = true → Forall (λ e, known_scope (EScope e) = true) l →
  (stored (foldl add_entry s l) sc d k = Some id →
     stored s sc d k = Some id ∨
     ∃ e, e ∈ l ∧ EID e = id ∧ EScope e = sc ∧ EDomain e = d ∧ entry_key e = k) ∧
  (stored (foldl add_entry s l) sc d k = None →
     stored s sc d k = None ∧
     ∀ e, e ∈ l → ¬ (EScope e = sc ∧ EDomain e = d ∧ entry_key e = k)).
Proof.
  intros Hsc. revert s. induction l as [|e l IH]; intros s Hl; cbn [foldl].
  { split; [auto|]. intros Hn. split; [done|]. intros e He. by apply elem_of_nil in He. }
  apply Forall_cons in Hl as [He Hl]. destruct (IH (add_entry s e) Hl) as [Hsome Hnone].
  rewrite stored_add in Hsome, Hnone by done. case_bool_decide as Hm.
  - split; [|naive_solver]. intros [[= <-]|(e' & ? & ?)]%Hsome; right.
    + exists e. split; [left|]. naive_solver.
    + exists e'. split; [by right|done].
  - split.
    + intros [?|(e' & ? & ?)]%Hsome; [by left|right; exists e'; split; [by right|done]].
    + intros [? Hno]%Hnone. split; [done|]. intros e' [->|?]%elem_of_cons; [done|auto].
Qed.

(** ** The label walk *)

Lemma label_suffix_whole s c : contains_byte "." s = false → label_suffix c s → c = s.
Proof.
  intros Hs [->|[p ->]]; [done|]. by rewrite contains_byte_app, contains_byte_cons, Ascii.eqb_refl,
    orb_true_r in Hs.
Qed.
Lemma slice_after p c r :
  slice (p ++ String c r) (Z.of_nat (slen p) + 1) (Z.of_nat (slen (p ++ String c r))) = r.
Proof.
  rewrite slen_app. cbn [String.length]. unfold slice.
  replace (p ++ String c r) with ((p ++ String c "") ++ r) by (by rewrite sapp_assoc).
  replace (Z.to_nat (Z.of_nat (slen p) + 1)) with (slen (p ++ String c ""))
    by (rewrite slen_app; cbn; lia).
  replace (Z.to_nat _) with (slen r) by lia. by apply substring_tail_app.
Qed.

Definition hit (s : adblockExceptionSnapshot) (sc : RuleScope) (rule : Rule) (c : string)
    : option string := b ← scope_map s sc !! c; matchBucket b rule.

Lemma suffix_match_spec n s candidate rule :
  slen candidate ≤ n →
  match suffix_match n s candidate rule with
  | Some id => ∃ c, label_suffix c candidate ∧ hit s RuleScopeSuffix rule c = Some id ∧
      ∀ c', label_suffix c' candidate → slen c < slen c' → hit s RuleScopeSuffix rule c' = None
  | None => ∀ c, label_suffix c candidate → hit s RuleScopeSuffix rule c = None
  end.
Proof.
  revert candidate. induction n as [|n IH]; intros candidate Hn; cbn [suffix_match];
    change (b ← suffix s !! candidate; matchBucket b rule)
      with (hit s RuleScopeSuffix rule candidate);
    destruct (hit s RuleScopeSuffix rule candidate) as [id|] eqn:Eh.
  1, 3: exists candidate; split_and!; [done|done|]; intros c' [->|[p ->]];
    rewrite ?slen_app; cbn [String.length]; lia.
  - assert (IndexByte candidate "." = None) as -> by (destruct candidate; cbn in *; [done|lia]).
    intros c Hc. destruct candidate; [|cbn in Hn; lia].
    apply label_suffix_whole in Hc as ->; done.
  - destruct (IndexByte candidate ".") as [dot|] eqn:Ei.
    2: { intros c Hc. apply label_suffix_whole in Hc as ->; [done|]. by apply IndexByte_None. }
    apply IndexByte_Some in Ei as (p & r & -> & <- & Hp). rewrite slice_after.
    rewrite slen_app in Hn. cbn [String.length] in Hn.
    specialize (IH r ltac:(lia)). destruct (suffix_match n s r rule) as [id|].
    + destruct IH as (c & Hc & Hh & Hmin). exists c. split; [apply label_suffix_cut; auto|split; [done|]].
      intros c' [->|Hc']%(label_suffix_cut p r c' Hp); auto.
    + intros c [->|Hc]%(label_suffix_cut p r c Hp); auto.
Qed.

(** ** What an exception suppresses *)

(** The entry names the queried name and exactly the rule's provenance. *)
Definition applies (rule : Rule) (q : string) (e : adblockException) : Prop :=
  covers (EScope e) (EDomain e) q ∧ EMatchedRule e = Domain rule ∧ ESourceID e = SourceID rule ∧
  scope_string (EMatchType e) = scope_string (Scope rule) ∧
  (ECategory e = "" ∨ ECategory e = Category rule).

(** Exact before suffix, then the longer name, then the named category. *)
Definition preferred (e e' : adblockException) : Prop :=
  match EScope e, EScope e' with
  | RuleScopeExact, RuleScopeExact => ECategory e ≠ "" ∧ ECategory e' = ""
  | RuleScopeExact, _ => True
  | _, RuleScopeExact => False
  | _, _ => slen (EDomain e') < slen (EDomain e) ∨
            EDomain e' = EDomain e ∧ ECategory e ≠ "" ∧ ECategory e' = ""
  end.

(** [answer] is the identifier of the preferred entry of [l] that applies, if any. *)
Definition selects (l : list adblockException) (rule : Rule) (q : string)
    (answer : option string) : Prop :=
  match answer with
  | Some id => ∃ e, e ∈ l ∧ EID e = id ∧ applies rule q e ∧
      ∀ e', e' ∈ l → applies rule q e' → e' = e ∨ preferred e e'
  | None => ∀ e, e ∈ l → ¬ applies rule q e
  end.

Section Matching.
Context `{UnicodeTables, HostServices, ExceptionLibs, SortSlice}.

Lemma specific_named l s sc d b k id :
  (∀ sc d b k id, scope_map s sc !! d = Some b → specific b !! k = Some id → k.2 ≠ "") →
  scope_map (foldl add_entry s l) sc !! d = Some b → specific b !! k = Some id → k.2 ≠ "".
Proof.
  revert s. induction l as [|e l IH]; intros s Hs; cbn [foldl]; [apply Hs|].
  apply IH. clear -Hs. intros sc d b k id Hb Hk.
  assert (∀ sc' o, o = scope_map s sc' !! EDomain e →
    specific (add_to_bucket e (default empty_bucket o)) !! k = Some id → k.2 ≠ "") as Hadd.
  { intros sc' o -> Hk'. unfold add_to_bucket in Hk'.
    destruct (String.eqb_spec (ECategory e) "") as [Hc|Hc]; cbn in Hk'.
    2: apply lookup_insert_Some in Hk' as [[<- _]|[_ Hk']]; [done|].
    all: destruct (scope_map s sc' !! EDomain e) eqn:Eb; cbn in Hk';
      [by eapply Hs|by rewrite lookup_empty in Hk']. }
  unfold add_entry in Hb.
  destruct (EScope e), sc; cbn [scope_map exact suffix] in Hb;
    try (apply lookup_insert_Some in Hb as [[<- <-]|[_ Hb]]);
    first [ by eapply (Hs RuleScopeExact)
          | by eapply (Hs RuleScopeSuffix)
          | by apply (Hadd RuleScopeExact (exact s !! EDomain e))
          | by apply (Hadd RuleScopeSuffix (suffix s !! EDomain e)) ].
Qed.

Lemma build_hit l sc rule c :
  known_scope sc = true → Forall (λ e, known_scope (EScope e) = true) l →
  let at_sel cat e := EScope e = sc ∧ EDomain e = c ∧ entry_key e = rule_key rule cat in
  match hit (buildAdblockExceptionSnapshot l) sc rule c with
  | Some id => ∃ e, e ∈ l ∧ EID e = id ∧
      (at_sel (Category rule) e ∨
       at_sel "" e ∧ ∀ e', e' ∈ l → Category rule ≠ "" → ¬ at_sel (Category rule) e')
  | None => ∀ e, e ∈ l → ¬ at_sel (Category rule) e ∧ ¬ at_sel "" e
  end.
Proof.
  intros Hsc Hl at_sel. set (s0 := mkSnap "" (Z.of_nat (length l)) ∅ ∅).
  set (s := foldl add_entry s0 l).
  assert (∀ sc d, scope_map s0 sc !! d = None) as Hempty by (intros []; apply lookup_empty).
  assert (∀ k, stored s0 sc c k = None) as Hstored0 by (intros k; unfold stored; by rewrite Hempty).
  assert (∀ cat, match stored s sc c (rule_key rule cat) with
    | Some id => ∃ e, e ∈ l ∧ EID e = id ∧ at_sel cat e
    | None => ∀ e, e ∈ l → ¬ at_sel cat e end) as Hat.
  { intros cat. destruct (stored s sc c (rule_key rule cat)) as [id|] eqn:E;
      [|by apply stored_foldl in E as [_ E]].
    apply stored_foldl in E as [E|E]; [|done..]. by rewrite Hstored0 in E. }
  assert (∀ b, scope_map s sc !! c = Some b → specific b !! rule_key rule "" = None) as Hnamed.
  { intros b Hb. apply eq_None_not_Some. intros [id Hid].
    by eapply (specific_named l s0 sc c b _ id) in Hid;
      [|intros sc' d' b' k' id' Hb'; rewrite Hempty in Hb'|exact Hb]. }
  replace (hit (buildAdblockExceptionSnapshot l) sc rule c) with (hit s sc rule c)
    by (unfold hit; by destruct sc).
  pose proof (Hat (Category rule)) as Hc. pose proof (Hat "") as Hw.
  unfold hit, stored, bucket_map, matchBucket in *. cbn [snd rule_key] in *.
  destruct (scope_map s sc !! c) as [b|]; cbn [mbind option_bind] in *; [|by split; auto].
  specialize (Hnamed b eq_refl). rewrite (String.eqb_refl "") in Hw.
  destruct (String.eqb_spec (Category rule) "") as [Hcat|Hcat].
  - rewrite Hcat, Hnamed. cbn in Hw.
    destruct (wildcard b !! rule_key rule "") as [id|]; [|by auto].
    destruct Hw as (e & ? & ? & ?). exists e. split_and!; [done|done|]. right. by split.
  - destruct (specific b !! rule_key rule (Category rule)) as [id|].
    + destruct Hc as (e & ? & ? & ?). exists e. split_and!; [done|done|by left].
    + destruct (wildcard b !! rule_key rule "") as [id|]; [|by auto].
      destruct Hw as (e & ? & ? & ?). exists e. split_and!; [done|done|]. right. by split; auto.
Qed.

Lemma entry_key_spec e rule cat :
  entry_key e = rule_key rule cat ↔
    EMatchedRule e = Domain rule ∧ ESourceID e = SourceID rule ∧
    scope_string (EMatchType e) = scope_string (Scope rule) ∧ ECategory e = cat.
Proof. unfold entry_key, rule_key. split; [by intros [=]|]. by intros (-> & -> & -> & ->). Qed.

Lemma provenance_key rule e q :
  applies rule q e ↔ covers (EScope e) (EDomain e) q ∧
    (entry_key e = rule_key rule (Category rule) ∨ entry_key e = rule_key rule "").
Proof. unfold applies. rewrite !entry_key_spec. naive_solver. Qed.

(** The best entry of one selector class. *)
Lemma build_hit_best l sc rule c id :
  entries_ok l → known_scope sc = true →
  hit (buildAdblockExceptionSnapshot l) sc rule c = Some id →
  ∃ e, e ∈ l ∧ EID e = id ∧ EScope e = sc ∧ EDomain e = c ∧
    (entry_key e = rule_key rule (Category rule) ∨ entry_key e = rule_key rule "") ∧
    ∀ e', e' ∈ l → EScope e' = sc → EDomain e' = c →
      (entry_key e' = rule_key rule (Category rule) ∨ entry_key e' = rule_key rule "") →
      e' = e ∨ ECategory e ≠ "" ∧ ECategory e' = "".
Proof.
  intros (Hall & _ & Hsel) Hsc Hh.
  pose proof (build_hit l sc rule c Hsc) as Hb. rewrite Hh in Hb. destruct Hb as (e & He & <- & Hat).
  { eapply Forall_impl; [exact Hall|]. intros e. apply ok_scope. }
  assert (∀ e', e' ∈ l → selector e' = selector e → e' = e) as Huniq.
  { intros e' He' Hs. apply list_elem_of_lookup in He as [i Hi].
    apply list_elem_of_lookup in He' as [j Hj].
    assert (i = j) as <-; [|congruence].
    eapply (NoDup_lookup (selector <$> l)); [done|rewrite list_lookup_fmap, Hi; done|].
    by rewrite list_lookup_fmap, Hj, <-Hs. }
  assert (∀ cat e', entry_key e' = rule_key rule cat → ECategory e' = cat) as Hcat
    by (by intros cat e' (_ & _ & _ & ?)%entry_key_spec).
  unfold selector in Huniq.
  exists e. split_and!; [done|done|naive_solver..|].
  intros e' He' Hs' Hd' Hk'.
  destruct (decide (ECategory e' = ECategory e)) as [Hc|Hc].
  { left. apply Huniq; [done|]. rewrite Hs', Hd'.
    destruct Hat as [(-> & -> & Hk)|[(-> & -> & Hk) _]];
      destruct Hk' as [Hk'|Hk']; pose proof (Hcat _ _ Hk); pose proof (Hcat _ _ Hk');
      congruence. }
  right. destruct Hat as [(_ & _ & Hk)|[(_ & _ & Hk) Hno]]; pose proof (Hcat _ _ Hk) as H1';
    destruct Hk' as [Hk'|Hk']; pose proof (Hcat _ _ Hk') as H2'; try congruence.
  - split; congruence.
  - exfalso. apply (Hno e' He'); [congruence|done].
Qed.

Lemma build_miss l : entries_ok l → ∀ sc rule c, known_scope sc = true →
  hit (buildAdblockExceptionSnapshot l) sc rule c = None →
  ∀ e, e ∈ l → EScope e = sc → EDomain e = c →
  ¬ (entry_key e = rule_key rule (Category rule) ∨ entry_key e = rule_key rule "").
Proof.
  intros (Hall & _ & _) sc rule c Hsc Hn e He Hs Hd Hk.
  pose proof (build_hit l sc rule c Hsc) as Hb. rewrite Hn in Hb.
  ospecialize (Hb _ e He); [|naive_solver]. eapply Forall_impl; [exact Hall|]. intros e'. apply ok_scope.
Qed.

Lemma build_count l : count (buildAdblockExceptionSnapshot l) = Z.of_nat (length l).
Proof.
  unfold buildAdblockExceptionSnapshot. cbn [count].
  enough (∀ s, count (foldl add_entry s l) = count s) as -> by done.
  induction l as [|e l IH]; intros s; [done|]. cbn [foldl]. rewrite IH.
  unfold add_entry. by destruct (EScope e).
Qed.

(** C13: an exception suppresses exactly the matches it was written for: a valid file's
    snapshot answers a fired rule with an entry that names the queried name and the
    rule's full provenance, the most specific such entry, and with none only when no
    entry of the file does. *)
Theorem exception_match_exact body l q rule :
  validateAdblockExceptions body = Ok l →
  selects l rule q (snapshot_match (Some (buildAdblockExceptionSnapshot l)) q rule).
Proof.
  intros [Hok _]%validate_ok. unfold selects, snapshot_match. rewrite build_count.
  destruct (Z.eqb_spec (Z.of_nat (length l)) 0) as [Hz|_].
  { destruct l; [|done]. intros e He. by apply elem_of_nil in He. }
  set (s := buildAdblockExceptionSnapshot l).
  pose proof Hok as (Hall & _ & _). rewrite Forall_forall in Hall.
  change (b ← exact s !! q; matchBucket b rule) with (hit s RuleScopeExact rule q).
  pose proof (build_miss l) as Hmiss. specialize (Hmiss Hok). fold s in Hmiss.
  destruct (hit s RuleScopeExact rule q) as [id|] eqn:Ee.
  - apply build_hit_best in Ee as (e & He & Hid & Hs & Hd & Hk & Hbest); [|done..].
    exists e. split_and!; [done|done| |].
    + apply provenance_key. by rewrite Hs, Hd.
    + intros e' He' [Hc' Hk']%provenance_key. unfold preferred. rewrite Hs.
      destruct (EScope e') eqn:Es'; [|by right..]. cbn in Hc'.
      by apply Hbest.
  - pose proof (suffix_match_spec (slen q) s q rule ltac:(done)) as Hw.
    assert (∀ e, e ∈ l → applies rule q e → EScope e = RuleScopeSuffix ∧ label_suffix (EDomain e) q)
      as Hsuf.
    { intros e He [Hc Hk]%provenance_key. pose proof (ok_scope e (Hall e He)) as Hkn.
      destruct (EScope e) eqn:Es; [|done..].
      exfalso. eapply (Hmiss RuleScopeExact rule q); [done|exact Ee|exact He|done|done|done]. }
    destruct (suffix_match (slen q) s q rule) as [id|].
    + destruct Hw as (c & Hc & Hh & Hmin).
      apply build_hit_best in Hh as (e & He & Hid & Hs & <- & Hk & Hbest); [|done..].
      exists e. split_and!; [done|done|apply provenance_key; by rewrite Hs|].
      intros e' He' Ha'. destruct (Hsuf e' He' Ha') as [Hs' Hc'].
      apply provenance_key in Ha' as [_ Hk']. unfold preferred. rewrite Hs, Hs'.
      destruct (decide (EDomain e' = EDomain e)) as [Hd|Hd]; [destruct (Hbest e' He' Hs' Hd Hk'); auto|].
      right. left. destruct (decide (slen (EDomain e) < slen (EDomain e'))) as [Hlt|Hge].
      { exfalso. by eapply (Hmiss RuleScopeSuffix rule (EDomain e')); eauto. }
      destruct (label_suffix_comparable _ _ _ Hc Hc') as [Hab|Hab];
        destruct Hab as [Hab|[p Hab]]; [by rewrite Hab in Hd| |by rewrite Hab in Hd|];
        apply (f_equal slen) in Hab; rewrite slen_app in Hab; cbn [String.length] in Hab; lia.
    + intros e He Ha. destruct (Hsuf e He Ha) as [Hs Hc]. apply provenance_key in Ha as [_ Hk].
      by eapply (Hmiss RuleScopeSuffix rule (EDomain e)); eauto.
Qed.
End Matching.

(** ** The revision *)

Lemma be_bytes_inj n v w a b :
  be_bytes n v a = be_bytes n w b →
  (0 <= v < 256 ^ Z.of_nat n)%Z → (0 <= w < 256 ^ Z.of_nat n)%Z → v = w ∧ a = b.
Proof.
  revert v w a b. induction n as [|n IH]; intros v w a b; cbn [be_bytes].
  { intros -> Hv Hw. split; [lia|done]. }
  rewrite Nat2Z.inj_succ, Z.pow_succ_r by lia. intros Heq Hv Hw.
  pose proof (Z.mod_pos_bound v 256 ltac:(lia)). pose proof (Z.mod_pos_bound w 256 ltac:(lia)).
  apply IH in Heq as [Hq [= Hc ->]]; [|split; [apply Z.div_pos; lia|apply Z.div_lt_upper_bound; lia]..].
  split; [|done]. apply (f_equal N_of_ascii) in Hc. rewrite !N_ascii_embedding in Hc by lia.
  rewrite (Z.div_mod v 256), (Z.div_mod w 256) by lia. lia.
Qed.

Definition framable (s : string) : Prop := (Z.of_nat (slen s) < 2 ^ 64)%Z.

Lemma sapp_inj_len a b c d : slen a = slen b → a ++ c = b ++ d → a = b ∧ c = d.
Proof.
  revert b. induction a as [|x a IH]; intros [|y b]; cbn; intros [=]; try done.
  intros [=]. destruct (IH b); [done..|]. by subst.
Qed.

Lemma frame_inj s t a b :
  framable s → framable t → writeFramedString s a = writeFramedString t b → s = t ∧ a = b.
Proof.
  unfold framable. intros Hs Ht Heq. apply be_bytes_inj in Heq as [Hl Heq]; [|cbn; lia..].
  apply sapp_inj_len in Heq; [done|lia].
Qed.

Lemma frame_all_inj ws vs :
  length ws = length vs → Forall framable ws → Forall framable vs →
  frame_all ws = frame_all vs → ws = vs.
Proof.
  revert vs. induction ws as [|w ws IH]; intros [|v vs]; try done. cbn [frame_all foldr length].
  intros [= Hlen] [Hw Hws]%Forall_cons [Hv Hvs]%Forall_cons Heq.
  apply frame_inj in Heq as [-> Heq]; [|done..]. f_equal. by apply IH.
Qed.

Definition scopes_known (e : adblockException) : Prop :=
  known_scope (EScope e) = true ∧ known_scope (EMatchType e) = true.

Lemma scope_string_inj a b :
  known_scope a = true → known_scope b = true → scope_string a = scope_string b → a = b.
Proof. by destruct a, b. Qed.

Lemma exception_fields_inj a b :
  scopes_known a → scopes_known b → exception_fields a = exception_fields b → a = b.
Proof.
  intros [] [] [=]. destruct a, b; cbn in *. f_equal; try done; by apply scope_string_inj.
Qed.

Lemma concat_fields_inj l l' :
  Forall scopes_known l → Forall scopes_known l' → length l = length l' →
  concat (exception_fields <$> l) = concat (exception_fields <$> l') → l = l'.
Proof.
  revert l'. induction l as [|a l IH]; intros [|b l']; try done.
  intros [Ha Hl]%Forall_cons [Hb Hl']%Forall_cons [= Hlen] Heq. rewrite !fmap_cons in Heq.
  cbn [concat] in Heq. apply app_inj_1 in Heq as [Hab Heq]; [|done].
  f_equal; [by apply exception_fields_inj|by apply IH].
Qed.

Lemma lex_less_irrefl a : lex_less a a = false.
Proof. induction a as [|x a IH]; [done|]. cbn. by rewrite String.eqb_refl. Qed.

Lemma lex_cons x y a b :
  lex_less (x :: a) (y :: b) = false ↔ String.compare y x = Lt ∨ x = y ∧ lex_less a b = false.
Proof.
  cbn. destruct (String.eqb_spec x y) as [->|Hne].
  - rewrite (proj2 (scompare_eq y y)) by done. naive_solver.
  - rewrite (scompare_antisym x y). destruct (String.compare y x) eqn:E; cbn; try naive_solver.
    by apply scompare_eq in E.
Qed.

Lemma lex_trans n a b c :
  length a = n → length b = n → length c = n →
  lex_less b a = false → lex_less c b = false → lex_less c a = false.
Proof.
  revert a b c. induction n as [|n IH]; intros [|x a] [|y b] [|z c]; try done.
  intros [= Ha] [= Hb] [= Hc]. rewrite !lex_cons.
  intros [H1|[-> H1]] [H2|[-> H2]]; auto.
  - left. by eapply scompare_lt_trans.
  - right. split; [done|]. by eapply (IH a b c).
Qed.
Lemma lex_total n a b :
  length a = n → length b = n → lex_less b a = false ∨ lex_less a b = false.
Proof.
  revert a b. induction n as [|n IH]; intros [|x a] [|y b]; try done; [by left|].
  intros [= Ha] [= Hb]. rewrite !lex_cons. destruct (String.compare x y) eqn:E; [|naive_solver|].
  - apply scompare_eq in E as ->. destruct (IH a b); auto.
  - rewrite (scompare_antisym x y) in E. by destruct (String.compare y x); auto.
Qed.
Lemma lex_antisym n a b :
  length a = n → length b = n → lex_less b a = false → lex_less a b = false → a = b.
Proof.
  revert a b. induction n as [|n IH]; intros [|x a] [|y b]; try done.
  intros [= Ha] [= Hb]. rewrite !lex_cons.
  intros [H1|[-> H1]] [H2|[E H2]]; try subst.
  - rewrite (scompare_antisym x y), H2 in H1. done.
  - by rewrite (proj2 (scompare_eq _ _) eq_refl) in H1.
  - by rewrite (proj2 (scompare_eq _ _) eq_refl) in H2.
  - f_equal. by apply IH.
Qed.

Section RevisionSpec.
Context `{UnicodeTables, HostServices, ExceptionLibs, SortSlice}.

Lemma entry_fields_framable e : entry_ok e → Forall framable (exception_fields e).
Proof.
  intros [(_ & ? & _) (_ & ?) (_ & ? & _) (_ & ? & _) Hs Ht ? Hc _ _].
  assert (∀ s, known_scope s = true → slen (scope_string s) ≤ 6) as Hsc
    by (intros []; cbn; lia || done).
  assert (slen (ECategory e) ≤ 9).
  { destruct Hc as [->|Hc]; [cbn; lia|]. apply in_list_spec in Hc.
    repeat (apply elem_of_cons in Hc as [->|Hc]; [cbn; lia|]). by apply elem_of_nil in Hc. }
  pose proof (Hsc _ Hs). pose proof (Hsc _ Ht).
  unfold exception_fields, framable. repeat constructor; lia.
Qed.

Lemma sort_entries_perm l l' :
  Forall scopes_known l → l ≡ₚ l' → sort_slice entry_less l = sort_slice entry_less l'.
Proof.
  intros Hk Hp. set (R := λ a b, entry_less b a = false).
  assert (∀ m, StronglySorted R (sort_slice entry_less m)) as Hsorted.
  { intros m. apply sort_slice_sorted.
    - intros a b c. unfold entry_less. by apply (lex_trans 8).
    - intros a b. unfold entry_less. by apply (lex_total 8). }
  apply (StronglySorted_unique_strong R); [|done..|by rewrite !sort_slice_perm].
  rewrite Forall_forall in Hk.
  assert (∀ m x, m ≡ₚ l → x ∈ sort_slice entry_less m → scopes_known x) as Hin.
  { intros m x Hm Hx. apply Hk. by rewrite <-Hm, <-(sort_slice_perm entry_less m). }
  intros x y Hx Hy Hxy Hyx. apply exception_fields_inj;
    [by apply (Hin l)|by apply (Hin l')|].
  by apply (lex_antisym 8).
Qed.

(** The bytes hashed into a revision identify the set of entries: two valid files hash
    the same bytes exactly when their entries agree up to order, whatever bytes the
    fields hold. *)
Theorem revision_identifies_entries body body' l l' :
  validateAdblockExceptions body = Ok l → validateAdblockExceptions body' = Ok l' →
  revision_encoding l = revision_encoding l' ↔ l ≡ₚ l'.
Proof.
  intros [(Hl & _) Hn]%validate_ok [(Hl' & _) Hn']%validate_ok.
  assert (∀ m, Forall entry_ok m → Forall scopes_known m) as Hknown.
  { intros m Hm. eapply Forall_impl; [exact Hm|]. intros e He.
    split; [by apply ok_scope|by apply ok_type]. }
  assert (∀ m, Forall entry_ok m → Forall framable (concat (exception_fields <$> m))) as Hframe.
  { intros m Hm. induction Hm; [constructor|]. rewrite fmap_cons. cbn [concat]. apply Forall_app. split; [|done].
    by apply entry_fields_framable. }
  assert (∀ m, Forall entry_ok m → Forall entry_ok (sort_slice entry_less m)) as Hsort
    by (intros m Hm; by rewrite sort_slice_perm).
  split.
  2: { intros Hp. unfold revision_encoding. by rewrite (sort_entries_perm l l') by auto. }
  intros Heq. unfold revision_encoding in Heq.
  apply frame_inj in Heq as [_ Heq]; [|by vm_compute..].
  rewrite <-(sort_slice_perm entry_less l), <-(sort_slice_perm entry_less l').
  assert (∀ m, length m ≤ 1024 → length (sort_slice entry_less m) ≤ 1024) as Hbound
    by (intros m; by rewrite sort_slice_perm).
  apply be_bytes_inj in Heq as [Hlen Heq];
    [|pose proof (Hbound l Hn); cbn; lia|pose proof (Hbound l' Hn'); cbn; lia].
  enough (sort_slice entry_less l = sort_slice entry_less l') as -> by done.
  assert (∀ m : list adblockException,
    length (concat (exception_fields <$> m)) = 8 * length m) as H8.
  { intros m. induction m as [|e m IH]; [done|]. rewrite fmap_cons. cbn [concat].
    rewrite length_app, IH. cbn [exception_fields length]. lia. }
  apply concat_fields_inj; [by auto..|lia|].
  apply frame_all_inj; [rewrite !H8; lia|by auto..|done].
Qed.

(** What a valid file holds: at most 1024 entries with distinct identifiers and
    distinct selectors; every entry is bounded, names hosts in lower-case LDH labels,
    never a public suffix with its subdomains, and can meet its rule. *)
Theorem validated_file body l :
  validateAdblockExceptions body = Ok l →
  length l ≤ 1024 ∧ NoDup (EID <$> l) ∧ NoDup (selector <$> l) ∧ Forall entry_ok l.
Proof. intros [(?&?&?) ?]%validate_ok. auto. Qed.

(** A reload fails closed: a configuration that cannot be read or is not valid keeps
    the published snapshot and is reported with one of six classes; one that validates
    replaces it. *)
Theorem exception_reload env files now e :
  let e' := reloadAdblockExceptions env files now e in
  let path := if adblockExceptionsPinned e then adblockExceptionsFile e else TrimSpace env in
  path ≠ "" →
  match loadAdblockExceptionFile (files path) with
  | Ok s => adblockExceptions e' = Some s ∧ adblockExcLastOK (adblockExc e') = true ∧
      adblockExcLastErr (adblockExc e') = "" ∧
      ∃ content body l, files path = Some (Ok content) ∧
        body = limit_reader (adblockExceptionsMaxBytes + 1) content ∧
        (Z.of_nat (slen body) <= adblockExceptionsMaxBytes)%Z ∧
        validateAdblockExceptions body = Ok l ∧ s = buildAdblockExceptionSnapshot l
  | Err class => adblockExceptions e' = adblockExceptions e ∧
      adblockExcLastOK (adblockExc e') = false ∧ adblockExcLastErr (adblockExc e') = class ∧
      class ∈ [adblockExcErrMissing; adblockExcErrOversize; adblockExcErrTooManyEntries;
               adblockExcErrInvalidJSON; adblockExcErrInvalidVersion; adblockExcErrInvalidEntry]
  end.
Proof.
  intros e' path Hp. subst e'. unfold reloadAdblockExceptions. fold path. cbv zeta.
  rewrite (proj2 (String.eqb_neq _ _) Hp).
  destruct (loadAdblockExceptionFile (files path)) as [s|class] eqn:El; cbn.
  - split_and!; [done..|]. unfold loadAdblockExceptionFile in El.
    destruct (files path) as [[content|]|]; [|done..]. cbv zeta in El.
    destruct (Z.ltb_spec adblockExceptionsMaxBytes
      (Z.of_nat (slen (limit_reader (adblockExceptionsMaxBytes + 1) content))))
      as [|Hlen]; [done|].
    destruct (validateAdblockExceptions _) as [l|] eqn:Ev; [|by destruct (in_list _ _)].
    injection El as <-. by eexists content, _, l.
  - split_and!; [done..|]. unfold loadAdblockExceptionFile in El.
    destruct (files path) as [[content|]|]; [|injection El as <-; set_solver..]. cbv zeta in El.
    destruct (_ <? _)%Z; [injection El as <-; set_solver|].
    destruct (validateAdblockExceptions _); [done|].
    destruct (in_list _ _) eqn:Ei; injection El as <-; [apply in_list_spec in Ei|]; set_solver.
Qed.
End RevisionSpec.

(** ** Witnesses *)

Module Examples.
#[local] Instance ex_tables : UnicodeTables := ascii_tables.
#[local] Instance ex_services : HostServices := two_label_services.
#[local] Existing Instance GroupsSpec.Examples.ex_sort.

Definition digest32 : string := "0123456789ABCDEF0123456789abcdef".
Definition raw (id dom scope cat : string) : rawAdblockException :=
  mkRaw id dom scope "example.com" digest32 "suffix" cat " because ".
Definition file_a : list rawAdblockException :=
  [raw "wild" "Example.com" "suffix" ""; raw "ads" "shop.example.com" "SUFFIX" "ads";
   raw "exact" "www.shop.example.com" "exact" ""].
#[local] Instance ex_libs : ExceptionLibs := {|
  decode_exceptions body :=
    if String.eqb body "a" then Some (1%Z, file_a)
    else if String.eqb body "b" then Some (1%Z, reverse file_a)
    else if String.eqb body "v2" then Some (2%Z, []) else None;
  sha256_hex16 s := s |}.

Definition entries_of (body : string) : list adblockException :=
  match validateAdblockExceptions body with Ok l => l | Err _ => [] end.
Lemma valid_of body : is_ok (validateAdblockExceptions body) = true →
  validateAdblockExceptions body = Ok (entries_of body).
Proof. unfold entries_of. by destruct (validateAdblockExceptions body). Qed.

Definition rule : Rule :=
  mkRule "example.com" RuleScopeSuffix "0123456789abcdef0123456789abcdef" "ads" "block" OriginWildcard.
Definition matched (q : string) : option string :=
  snapshot_match (Some (buildAdblockExceptionSnapshot (entries_of "a"))) q rule.
(** The exact selector, then the deepest suffix, then the shallow one. *)
Example matched_exact : matched "www.shop.example.com" = Some "exact".
Proof. by vm_compute. Qed.
Example matched_deep : matched "x.shop.example.com" = Some "ads".
Proof. by vm_compute. Qed.
Example matched_wild : matched "y.example.com" = Some "wild".
Proof. by vm_compute. Qed.
Example matched_boundary : matched "evil-example.com" = None.
Proof. by vm_compute. Qed.

Lemma exception_match_exact_witness :
  selects (entries_of "a") rule "x.shop.example.com"
    (snapshot_match (Some (buildAdblockExceptionSnapshot (entries_of "a"))) "x.shop.example.com" rule).
Proof.
  refine (exception_match_exact "a" (entries_of "a") "x.shop.example.com" rule _).
  apply valid_of. by vm_compute.
Defined.

Lemma revision_identifies_entries_witness :
  revision_encoding (entries_of "a") = revision_encoding (entries_of "b") ↔
  entries_of "a" ≡ₚ entries_of "b".
Proof. apply (revision_identifies_entries "a" "b"); apply valid_of; by vm_compute. Defined.

Lemma validated_file_witness :
  length (entries_of "a") ≤ 1024 ∧ NoDup (EID <$> entries_of "a") ∧
  NoDup (selector <$> entries_of "a") ∧ Forall entry_ok (entries_of "a").
Proof. apply (validated_file "a"), valid_of. by vm_compute. Defined.

Definition engine0 : AdblockEngine :=
  mkEngine PolicySemanticsSeparated "suffix" None true true (mkShadow 0 0 0 0 0) "" false
    (Some (buildAdblockExceptionSnapshot (entries_of "a"))) (mkExcStatus true None true "" 1 0 0).

Lemma exception_reload_witness :
  let e' := reloadAdblockExceptions " exc.json" (λ _, Some (Ok "v2")) 7 engine0 in
  adblockExceptions e' = adblockExceptions engine0 ∧ adblockExcLastOK (adblockExc e') = false ∧
  adblockExcLastErr (adblockExc e') = adblockExcErrInvalidVersion ∧
  adblockExcErrInvalidVersion ∈ [adblockExcErrMissing; adblockExcErrOversize;
    adblockExcErrTooManyEntries; adblockExcErrInvalidJSON; adblockExcErrInvalidVersion;
    adblockExcErrInvalidEntry].
Proof.
  pose proof (exception_reload " exc.json" (λ _, Some (Ok "v2")) 7 engine0) as Hr.
  assert (loadAdblockExceptionFile (Some (Ok "v2")) = Err adblockExcErrInvalidVersion) as El
    by by vm_compute.
  cbv beta zeta in Hr. rewrite El in Hr. apply Hr. discriminate.
Defined.
End Examples.
