(* ===== verification/Category.v ===== *)
(** * Analysis results and content categories: [internal/analysis/analysis.go]

    The types [Verdict] and [Result], and [ClassifyCategory], [categoryKeywordMatch].

    The category of a name from the name alone: known services by label
    suffix, then keywords as whole tokens of a label. *)

From Stdlib Require Import ZArith Lia Ascii String.
From S2P Require Import Prelude GoStr Hostname GoFloat.

Inductive Verdict := VerdictInvalid | VerdictSafe | VerdictSuspicious | VerdictMalicious.
#[export] Instance Verdict_eq_dec : EqDecision Verdict.
Proof. solve_decision. Defined.
Definition verdict_string (v : Verdict) : string :=
  match v with
  | VerdictInvalid => "INVALID" | VerdictSafe => "SAFE"
  | VerdictSuspicious => "SUSPICIOUS" | VerdictMalicious => "MALICIOUS"
  end.

Record Result := mkResult {
  RDomain : string;
  RVerdict : Verdict;
  Confidence : float64;
  Score : Z;
  Reasons : list string;
  RCategory : string
}.
Definition zero_result : Result := mkResult "" VerdictInvalid f_zero 0 [] "".

Definition socialDomains : list string := [
  "facebook.com"; "fb.com"; "messenger.com"; "instagram.com"; "tiktok.com";
  "twitter.com"; "x.com"; "youtube.com"; "youtu.be"; "reddit.com";
  "linkedin.com"; "pinterest.com"; "snapchat.com"; "tumblr.com";
  "whatsapp.com"; "telegram.org"; "t.me"; "discord.com"; "discord.gg"].
Definition adDomains : list string := [
  "doubleclick.net"; "adservice.google.com"; "adnxs.com"; "adsrvr.org";
  "rubiconproject.com"; "adcolony.com"; "unityads.com"; "applovin.com";
  "criteo.com"; "taboola.com"; "outbrain.com"; "google-analytics.com";
  "scorecardresearch.com"; "hotjar.com"; "mixpanel.com"].
Definition adultTLDs : list string := [".xxx"; ".adult"; ".sexy"; ".porn"].
Definition adultKeywords : list string := [
  "porn"; "sex"; "xvideos"; "xnxx"; "pornhub"; "redtube"; "onlyfans"; "erotic"; "hentai"; "jav"].
Definition gamblingKeywords : list string := [
  "casino"; "gamble"; "lottery"; "poker"; "slot"; "slots"; "w88"; "w88vn"; "fun88"; "m88";
  "188bet"; "kubet"; "bet88"; "blackjack"; "roulette"].
Definition gamingDomains : list string := [
  "roblox.com"; "minecraft.net"; "twitch.tv"; "steamcommunity.com";
  "steampowered.com"; "playstation.com"; "xbox.com"; "nintendo.com";
  "pubg.com"; "epicgames.com"; "riotgames.com"; "blizzard.com";
  "origin.com"; "ubisoft.com"; "ea.com"].
Definition gamingKeywords : list string := ["gaming"; "arcade"; "playgame"].

(** The closure [hasSuffix]. *)
Definition has_domain_suffix (d parent : string) : bool :=
  String.eqb d parent || HasSuffix d ("." ++ parent).

(** [strings.IndexAny(s, "-_")] *)
Fixpoint index_token_sep (s : string) : option nat :=
  match s with
  | EmptyString => None
  | String c r =>
      if Ascii.eqb c "-" || Ascii.eqb c "_" then Some 0 else S <$> index_token_sep r
  end.

(** [s[:i], s[i+1:]], or all of [s] and the empty string. *)
Definition cut_at (i : option nat) (s : string) : string * string :=
  match i with
  | Some i => (slice s 0 (Z.of_nat i), slice s (Z.of_nat i + 1) (Z.of_nat (slen s)))
  | None => (s, "")
  end.

Definition token_match (token kw : string) : bool :=
  String.eqb token kw
  || Nat.leb 5 (slen kw) && (HasPrefix token kw || HasSuffix token kw).

(** The inner loop; every turn shortens [label]. *)
Fixpoint tokens_match (fuel : nat) (label kw : string) : bool :=
  if String.eqb label "" then false
  else match fuel with
       | 0 => false
       | S fuel =>
           let '(token, label) := cut_at (index_token_sep label) label in
           if token_match token kw then true else tokens_match fuel label kw
       end.
(** The outer loop; every turn shortens [domain]. *)
Fixpoint labels_match (fuel : nat) (domain kw : string) : bool :=
  if String.eqb domain "" then false
  else match fuel with
       | 0 => false
       | S fuel =>
           let '(label, domain) := cut_at (IndexByte domain ".") domain in
           if tokens_match (slen label) label kw then true else labels_match fuel domain kw
       end.
Definition categoryKeywordMatch (domain kw : string) : bool := labels_match (slen domain) domain kw.

Section Classify.
Context `{UnicodeTables}.

Definition ClassifyCategory (domain : string) : string :=
  let domain := ToLower (TrimSpace domain) in
  if String.eqb domain "" then "uncategorized"
  else if existsb (has_domain_suffix domain) socialDomains then "social_media"
  else if existsb (has_domain_suffix domain) adDomains then "advertising"
  else if match Split domain "." with
          | first :: _ :: _ :: _ => in_list first ["ads"; "adserver"; "telemetry"]
          | _ => false
          end then "advertising"
  else if existsb (HasSuffix domain) adultTLDs then "adult"
  else if existsb (categoryKeywordMatch domain) adultKeywords then "adult"
  else if existsb (categoryKeywordMatch domain) gamblingKeywords then "gambling"
  else if existsb (has_domain_suffix domain) gamingDomains then "gaming"
  else if existsb (Contains domain) gamingKeywords then "gaming"
  else "uncategorized".
End Classify.

(** ** The fuel is enough: every turn of the two loops shortens its string *)

Lemma slen_substring i n s : slen (String.substring i n s) ≤ slen s - i.
Proof.
  revert i n. induction s as [|c s IH]; intros [|i] [|n]; cbn [String.substring String.length];
    try lia.
  - specialize (IH 0 n). lia.
  - specialize (IH i 0). lia.
  - specialize (IH i (S n)). lia.
Qed.

Lemma cut_at_shorter i s : s ≠ "" → slen (cut_at i s).2 < slen s.
Proof.
  intros Hs. destruct s as [|c s]; [done|]. destruct i as [i|]; cbn [cut_at snd String.length]; [|lia].
  unfold slice. pose proof (slen_substring (Z.to_nat (Z.of_nat i + 1))
    (Z.to_nat (Z.of_nat (S (slen s)) - (Z.of_nat i + 1))) (String c s)) as Hl.
  cbn [String.length] in Hl. lia.
Qed.

Lemma tokens_match_fuel n m label kw :
  slen label ≤ n → slen label ≤ m → tokens_match n label kw = tokens_match m label kw.
Proof.
  revert m label. induction n as [|n IH]; intros m label Hn Hm;
    destruct (String.eqb_spec label "") as [->|Hl].
  1, 3: by destruct m.
  { destruct label; [done|cbn in Hn; lia]. }
  destruct m as [|m]; [destruct label; [done|cbn in Hm; lia]|].
  cbn [tokens_match]. rewrite (proj2 (String.eqb_neq label "") Hl).
  pose proof (cut_at_shorter (index_token_sep label) label Hl).
  destruct (cut_at (index_token_sep label) label) as [token rest]. cbn in *.
  destruct (token_match token kw); [done|]. apply IH; lia.
Qed.

Lemma labels_match_fuel n m domain kw :
  slen domain ≤ n → slen domain ≤ m → labels_match n domain kw = labels_match m domain kw.
Proof.
  revert m domain. induction n as [|n IH]; intros m domain Hn Hm;
    destruct (String.eqb_spec domain "") as [->|Hl].
  1, 3: by destruct m.
  { destruct domain; [done|cbn in Hn; lia]. }
  destruct m as [|m]; [destruct domain; [done|cbn in Hm; lia]|].
  cbn [labels_match]. rewrite (proj2 (String.eqb_neq domain "") Hl).
  pose proof (cut_at_shorter (IndexByte domain ".") domain Hl).
  destruct (cut_at (IndexByte domain ".") domain) as [label rest]. cbn in *.
  destruct (tokens_match _ label kw); [done|]. apply IH; lia.
Qed.

(** Short keywords match whole tokens only. *)
Module Examples.
#[local] Instance ex_tables : UnicodeTables := ascii_tables.
Example categories :
  ClassifyCategory <$> ["www.Facebook.com"; "sussex.ac.uk"; "sex.example"; "playpoker.net";
                        "fun88vietnam.com"; "ads.example.com"; "ads.example"; "sloth.com"]
  = ["social_media"; "uncategorized"; "adult"; "gambling"; "gambling"; "advertising";
     "uncategorized"; "uncategorized"].
Proof. by vm_compute. Qed.
End Examples.
