(* ===== verification/Policy.v ===== *)
(** * The decision pipeline: [internal/risk/policy.go], [policy_decision.go],
      [analysis_pipeline.go], [admin.go], [trace.go]

    [Policy] decides what happens to a name: an invalid name is blocked, then
    an operator override, the allow list, the adblock rules with their scoped
    exceptions, and at last the threat assessment under the client's group.

    The threat-assessment engine ([Service.analyze] and what it calls: threat
    feed, lexical analyser, ML, AI, OSINT, caches) is the interface [Engine]
    over its own state.  The decision identifier, the timestamps, the clock, the
    cancellation of the context and the failing statements are the inputs of one
    call ([CallEnv]).  The per-layer timings are left out. *)

From Stdlib Require Import ZArith Lia Ascii String.
From S2P Require Import Prelude GoStr Hostname Trie GoFloat Whitelist Groups Exceptions Category Resolver.

(** ** Data *)

Definition NormalizePolicySemantics `{UnicodeTables} (value : string) : PolicySemantics :=
  if String.eqb (ToLower (TrimSpace value)) "legacy" then PolicySemanticsLegacy
  else PolicySemanticsSeparated.

Record PolicyDecision := mkDecision {
  PDAction : string; PDKind : string; PDCategory : string; PDReason : string;
  PDSource : string; AssessmentMode : string; MatchedRule : string; MatchType : string;
  PDSourceID : string; ExceptionID : string
}.

Definition PolicyKindContent : string := "content".
Definition PolicyKindAdmin : string := "admin".
Definition PolicyKindAllowlist : string := "allowlist".
Definition adblockAssessmentLocalDefaultBrands : string := "lexical_local_default_brands".
Definition adblockAssessmentFullPipeline : string := "full_security_pipeline".
Definition legacyFusedAssessmentMode : string := "legacy_fused_policy".

(** The rule pointers passed by the code are never nil. *)
Definition decision_category (rule : Rule) : string :=
  if IsValidRuleCategory (Category rule) then Category rule else DefaultRuleCategory.
Definition adblockDecision (assessmentMode : string) (rule : Rule) : PolicyDecision :=
  mkDecision "block" "content" (decision_category rule) "adblock_match" "adblock" assessmentMode
    (Domain rule) (scope_string (Scope rule)) (SourceID rule) "".
Definition adblockExceptionDecision (rule : Rule) (exceptionID : string) : PolicyDecision :=
  mkDecision "allow" "content" (decision_category rule) "adblock_exception" "adblock"
    adblockAssessmentFullPipeline (Domain rule) (scope_string (Scope rule)) (SourceID rule)
    exceptionID.
Definition adminPolicyDecision (action : string) : PolicyDecision :=
  mkDecision action PolicyKindAdmin "custom" "admin_override" "override" "" "" "" "" "".
Definition allowlistPolicyDecision : PolicyDecision :=
  mkDecision "allow" PolicyKindAllowlist "custom" "whitelisted" "whitelist" "" "" "" "" "".
Definition legacyPolicyDecision : PolicyDecision :=
  mkDecision "block" PolicyKindContent "unknown" "legacy_policy_fused" "adblock"
    legacyFusedAssessmentMode "" "" "" "".

(** ** Assessment *)

Definition LayerIdentity : string := "identity".
Definition LayerOverride : string := "override".
Definition LayerWhitelist : string := "whitelist".
Definition LayerAdblock : string := "adblock".
Definition LayerContentPolicy : string := "content_policy".
Definition LayerThreatFeed : string := "threat_feed".
Definition LayerLexical : string := "lexical".
Definition LayerLexicalLocal : string := "lexical_local".
Definition LayerDomainML : string := "domain_ml".
Definition LayerAIRefine : string := "ai_refine".
Definition LayerEnrichment : string := "enrichment".
Definition LayerOSINT : string := "osint".
Definition LayerURLML : string := "url_ml".
Definition LayerGroupPolicy : string := "group_policy".
Definition LayerWebsite : string := "website_content".
Definition SkipNotObserved : string := "not_observed".
Definition SkipNoURLContext : string := "no_url_context".
Definition SkipLegacyFused : string := "legacy_policy_fused".
Definition AssessmentCoverageDomainOnly : string := "domain_only".

Record FeedScope := mkFeedScope {
  ExactMatch : bool; Candidate : string; Depth : Z; TrustBypassed : bool; SharedApex : bool
}.
Record Assessment := mkAssess {
  Coverage : string; Evaluated : list string; SkippedLayers : list string; Feed : option FeedScope
}.

Definition skippedLayer (layer reason : string) : string :=
  if String.eqb reason "" then layer else layer ++ ":" ++ reason.
Definition newDomainAssessment : Assessment :=
  mkAssess AssessmentCoverageDomainOnly [] [skippedLayer LayerWebsite SkipNotObserved] None.
Definition engineSkippedLayers : list string :=
  [LayerThreatFeed; LayerLexical; LayerDomainML; LayerAIRefine; LayerEnrichment; LayerOSINT].
Definition prependLayers (base prefix : list string) : list string := (prefix ++ base)%list.

(** [append] to both lists of an assessment. *)
Definition note (evaluated skipped : list string) (a : Assessment) : Assessment :=
  mkAssess (Coverage a) (Evaluated a ++ evaluated)%list (SkippedLayers a ++ skipped)%list (Feed a).

(** ** The engine interface *)

Inductive osintLookupMode := osintLookupNone | osintLookupCachedOnly | osintLookupOnDemand.

Class Engine (E : Type) := {
  Evidence : Type;
  URLContext : Type;
  URLObservation : Type;
  (** [Service.analyze] *)
  engine_analyze : E → string → osintLookupMode → bool → E * (Result * bool * list Evidence * Assessment);
  (** [analyzeLexical] and [analyzeLexicalLocal] read the analyser only *)
  analyzeLexical : E → string → Result;
  analyzeLexicalLocal : E → string → Result;
  (** the counters of [urlMLTelemetry] at the start of an analyze request:
      [Some reason] when it carries no URL context *)
  note_analyze_request : E → option string → E;
  (** [observeURLML] *)
  observe_url_ml : E → string → Verdict → URLContext → E * URLObservation
}.

(** ** State *)

(** The failure counters of one fail-open lookup. *)
Record Failures := mkFailures {
  lookupFailures : Z; consecutiveFailures : Z; lastFailureUnix : Z; lastSuccessUnix : Z
}.
Definition lookup_failed (now : Z) (f : Failures) : Failures :=
  mkFailures (lookupFailures f + 1) (consecutiveFailures f + 1) now (lastSuccessUnix f).
Definition lookup_succeeded (now : Z) (f : Failures) : Failures :=
  if (0 <? consecutiveFailures f)%Z
  then mkFailures (lookupFailures f) 0 (lastFailureUnix f) now else f.

Record TelemetryEntry := mkEntry {
  TDomain : string; TVerdict : string; TScore : Z; TConfidence : float64; TReasons : list string;
  TCacheHit : bool; TSource : string; PolicyAction : string; PolicyCategory : string;
  TDecisionID : string; Trace : Assessment; AnalyzedAt : string; TClientIP : string;
  TClientID : string
}.

(** [store] is [None] when it is nil or disabled.  [telemetry] is the sequence of
    entries handed to [RecordAnalysis], whose sampling and buffer are the store's,
    and [None] when the telemetry engine has no store. *)
Record Service (E : Type) := mkService {
  store : option (Tables * DB);
  whitelist : option Whitelist;
  adblock : AdblockEngine;
  svcSemantics : PolicySemantics;
  overrideFailures : Failures;
  groupFailures : Failures;
  telemetry : option (list TelemetryEntry);
  engine : E
}.
Arguments mkService {E} _ _ _ _ _ _ _ _.
Arguments store {E} _.
Arguments whitelist {E} _.
Arguments adblock {E} _.
Arguments svcSemantics {E} _.
Arguments overrideFailures {E} _.
Arguments groupFailures {E} _.
Arguments telemetry {E} _.
Arguments engine {E} _.

Record CallEnv := mkCall {
  cancelled : nat → bool;
  call_io : StoreIO;
  decision_id : string;
  analyzed_at : string;
  unix_now : Z
}.

Section Updates.
Context {E : Type}.
Definition set_override_failures (f : Failures) (s : Service E) : Service E :=
  mkService (store s) (whitelist s) (adblock s) (svcSemantics s) f (groupFailures s)
    (telemetry s) (engine s).
Definition set_group_failures (f : Failures) (s : Service E) : Service E :=
  mkService (store s) (whitelist s) (adblock s) (svcSemantics s) (overrideFailures s) f
    (telemetry s) (engine s).
Definition set_adblock (a : AdblockEngine) (s : Service E) : Service E :=
  mkService (store s) (whitelist s) a (svcSemantics s) (overrideFailures s) (groupFailures s)
    (telemetry s) (engine s).
Definition set_telemetry (t : option (list TelemetryEntry)) (s : Service E) : Service E :=
  mkService (store s) (whitelist s) (adblock s) (svcSemantics s) (overrideFailures s)
    (groupFailures s) t (engine s).
Definition set_engine (e : E) (s : Service E) : Service E :=
  mkService (store s) (whitelist s) (adblock s) (svcSemantics s) (overrideFailures s)
    (groupFailures s) (telemetry s) e.
Definition set_tables (t : Tables) (s : Service E) : Service E :=
  mkService (match store s with Some (_, db) => Some (t, db) | None => None end)
    (whitelist s) (adblock s) (svcSemantics s) (overrideFailures s) (groupFailures s)
    (telemetry s) (engine s).
End Updates.

(** ** Telemetry *)

Definition threatFeedReason : string := "matched local threat feed".

Definition reason_source (r : string) : option string :=
  if HasPrefix r "admin override" then Some "override"
  else if String.eqb r "whitelisted" then Some "whitelist"
  else if String.eqb r threatFeedReason then Some "feed"
  else if String.eqb r "adblock" then Some "adblock" else None.
Fixpoint source_loop (rs : list string) : string :=
  match rs with
  | [] => "lexical"
  | r :: rs => match reason_source r with Some s => s | None => source_loop rs end
  end.
Definition inferSource (r : Result) (cacheHit : bool) : string :=
  if cacheHit then "cache" else source_loop (Reasons r).

(** [recordTelemetryWithSource]; [recordTelemetry] is the empty source. *)
Definition recordTelemetryWithSource {E} (r : Result) (cacheHit : bool)
    (decision : option PolicyDecision) (assess : Assessment) (client : ClientInfo)
    (source : string) (env : CallEnv) (s : Service E) : Service E :=
  match telemetry s with
  | None => s
  | Some log =>
      let source := if String.eqb source "" then inferSource r cacheHit else source in
      let '(action, category) := match decision with
                                 | Some d => (PDAction d, PDCategory d) | None => ("", "") end in
      set_telemetry
        (Some (log ++ [mkEntry (RDomain r) (verdict_string (RVerdict r)) (Score r) (Confidence r)
                 (Reasons r) cacheHit source action category (decision_id env) assess
                 (analyzed_at env) (ClientIPAddr client) (ClientID client)])%list) s
  end.

Record PolicyResult := mkPolicy {
  PDomain : string; Policy_ : string; PResult : Result; Decision_ : option PolicyDecision;
  CacheHit : bool; DecisionID : string; PAssessment : Assessment
}.

(** ** Administrative layers *)

Record resolvedLayer := mkLayer {
  layer_result : Result; layer_cacheHit : bool; layer_decision : PolicyDecision
}.

Definition builtin_group : ClientGroup := mkGroup 1 "default" "" [] false true.

Section Pipeline.
Context `{UnicodeTables, HostServices} {E : Type} `{!Engine E}.

Definition resolveClientGroup (client : ClientInfo) (env : CallEnv) (s : Service E)
    : Service E * ClientGroup :=
  match store s with
  | None => (s, builtin_group)
  | Some (t, db) =>
      let IO := call_io env in
      match GetGroupForClient (ClientIPAddr client) (ClientID client) false t db with
      | Err _ => (set_group_failures (lookup_failed (unix_now env) (groupFailures s)) s, builtin_group)
      | Ok g => (set_group_failures (lookup_succeeded (unix_now env) (groupFailures s)) s, g)
      end
  end.

(** The override seam of the tests is absent. *)
Definition lookupEffectiveOverride (groupID : Z) (domain : string) (env : CallEnv)
    (s : Service E) : Service E * result (option Override) :=
  let IO := call_io env in
  match GetEffectiveOverride groupID domain (fst <$> store s) with
  | Ok o => (set_override_failures (lookup_succeeded (unix_now env) (overrideFailures s)) s, Ok o)
  | Err e => (set_override_failures (lookup_failed (unix_now env) (overrideFailures s)) s, Err e)
  end.

Definition override_layer (normalized : string) (o : Override) : resolvedLayer :=
  let '(verdict, score) := if String.eqb (OAction o) "block"
                           then (VerdictMalicious, 100%Z) else (VerdictSafe, 0%Z) in
  let reason := if String.eqb (OReason o) "" then "admin override: " ++ OAction o
                else "admin override: " ++ OAction o ++ " (" ++ OReason o ++ ")" in
  mkLayer (mkResult normalized verdict f_one score [reason] (ClassifyCategory normalized))
    false (adminPolicyDecision (OAction o)).

Definition resolveOverride (group : ClientGroup) (normalized : string) (env : CallEnv)
    (s : Service E) : Service E * option resolvedLayer :=
  match store s with
  | None => (s, None)
  | Some _ =>
      let '(s, r) := lookupEffectiveOverride (GroupID group) normalized env s in
      (s, match r with Ok (Some o) => Some (override_layer normalized o) | _ => None end)
  end.

Definition whitelist_layer (normalized : string) : resolvedLayer :=
  mkLayer (mkResult normalized VerdictSafe f_one 0 ["whitelisted"] "uncategorized")
    false allowlistPolicyDecision.

Definition resolveWhitelist (normalized : string) (env : CallEnv) (s : Service E)
    : option resolvedLayer :=
  if IsAllowed (whitelist s) (cancelled env) normalized
  then Some (whitelist_layer normalized) else None.

(** ** Policy *)

Definition adblock_detail (s : Service E) (normalized : string) : MatchDetail :=
  if adblockEnabled (adblock s) then
    match adblockTrie (adblock s) with
    | Some adTrie => MatchRuleDetail adTrie normalized
    | None => no_match
    end
  else no_match.

Definition legacy_result (normalized : string) : Result :=
  mkResult normalized VerdictMalicious f_one 100 ["adblock"] "adware".

(** The closure of the dynamic enforcement. *)
Definition enforce (group : ClientGroup) (result : Result) : string :=
  let policy := "allow" in
  let policy := if bool_decide (RVerdict result = VerdictMalicious) && StrictMalware group
                then "block" else policy in
  let policy :=
    if StrictPhishing group then
      let isPhishing := existsb (λ r, Contains (ToLower r) "phishing") (Reasons result) in
      if (40 <=? Score result)%Z && (isPhishing || String.eqb (RCategory result) "phishing")
      then "block" else policy
    else policy in
  if negb (Nat.eqb (length (BlockCategories group)) 0)
     && negb (String.eqb (RCategory result) "")
     && negb (String.eqb (RCategory result) "uncategorized")
  then if existsb (λ c, EqualFold (TrimSpace c) (RCategory result)) (BlockCategories group)
       then "block" else policy
  else policy.

(** The three returns that follow an administrative or content decision:
    telemetry, then the policy. *)
Definition conclude (normalized policy : string) (r : Result) (cacheHit : bool)
    (shown logged : option PolicyDecision) (assess : Assessment) (source : string)
    (client : ClientInfo) (env : CallEnv) (s : Service E) : Service E * PolicyResult :=
  (recordTelemetryWithSource r cacheHit logged assess client source env s,
   mkPolicy normalized policy r shown cacheHit (decision_id env) assess).

(** Section 4 and 5 of [Policy]: the engine, then the group's enforcement. *)
Definition assess_and_enforce (group : ClientGroup) (normalized : string)
    (exc : option (Rule * string)) (client : ClientInfo) (env : CallEnv) (s : Service E)
    : Service E * PolicyResult :=
  let '(e, (result, cacheHit, _, engineAssess)) :=
    engine_analyze (engine s) normalized osintLookupCachedOnly false in
  let s := set_engine e s in
  let policy := enforce group result in
  let assess := mkAssess (Coverage engineAssess)
    (prependLayers (Evaluated engineAssess)
       [LayerIdentity; LayerOverride; LayerWhitelist; LayerAdblock; LayerGroupPolicy])
    (SkippedLayers engineAssess) (Feed engineAssess) in
  let decision := (λ x, adblockExceptionDecision x.1 x.2) <$> exc in
  conclude (RDomain result) policy result cacheHit decision decision assess "" client env s.

(** Sections 3.5 to 3.7: a fired adblock rule. *)
Definition adblock_fired (group : ClientGroup) (normalized : string) (adDetail : MatchDetail)
    (client : ClientInfo) (env : CallEnv) (s : Service E) : Service E * PolicyResult :=
  if bool_decide (svcSemantics s = PolicySemanticsLegacy) then
    conclude normalized "block" (legacy_result normalized) false None (Some legacyPolicyDecision)
      (note [LayerIdentity; LayerOverride; LayerWhitelist; LayerAdblock]
         ([LayerGroupPolicy] ++ engineSkippedLayers
          ++ [skippedLayer "security_assessment" SkipLegacyFused])%list
         newDomainAssessment) "" client env s
  else
    let exc := matchAdblockException (adblock s) normalized (MRule adDetail) in
    let s := match exc with
             | Some _ => set_adblock (count_exception_match (adblock s)) s
             | None => s
             end in
    let excMatched := match exc with Some _ => true | None => false end in
    let s := set_adblock (observeShadowExact adDetail excMatched (adblock s)) s in
    match exc with
    | Some id => assess_and_enforce group normalized (Some (MRule adDetail, id)) client env s
    | None =>
        let lexicalResult := analyzeLexicalLocal (engine s) normalized in
        let decision := adblockDecision adblockAssessmentLocalDefaultBrands (MRule adDetail) in
        conclude normalized "block" lexicalResult false (Some decision) (Some decision)
          (note [LayerIdentity; LayerOverride; LayerWhitelist; LayerAdblock;
                 LayerLexicalLocal; LayerContentPolicy]
             ([LayerGroupPolicy] ++ engineSkippedLayers)%list newDomainAssessment)
          "adblock" client env s
    end.

(** Everything after the two store lookups. *)
Definition apply_layers (group : ClientGroup) (override : option resolvedLayer)
    (normalized : string) (client : ClientInfo) (env : CallEnv) (s : Service E)
    : Service E * PolicyResult :=
  match override with
  | Some l =>
      conclude normalized (PDAction (layer_decision l)) (layer_result l) (layer_cacheHit l)
        (Some (layer_decision l)) (Some (layer_decision l))
        (note [LayerIdentity; LayerOverride]
           ([LayerWhitelist; LayerAdblock; LayerGroupPolicy] ++ engineSkippedLayers)%list
           newDomainAssessment) "" client env s
  | None =>
      match resolveWhitelist normalized env s with
      | Some l =>
          conclude normalized "allow" (layer_result l) (layer_cacheHit l)
            (Some (layer_decision l)) (Some (layer_decision l))
            (note [LayerIdentity; LayerOverride; LayerWhitelist]
               ([LayerAdblock; LayerGroupPolicy] ++ engineSkippedLayers)%list
               newDomainAssessment) "" client env s
      | None =>
          let adDetail := adblock_detail s normalized in
          if Matched adDetail then adblock_fired group normalized adDetail client env s
          else assess_and_enforce group normalized None client env s
      end
  end.

Definition Policy (domain : string) (client : ClientInfo) (env : CallEnv) (s : Service E)
    : Service E * PolicyResult :=
  match NormalizeDomain domain with
  | Err _ =>
      (s, mkPolicy domain "block" (analyzeLexical (engine s) domain) None false (decision_id env)
            (note [LayerIdentity]
               ([LayerOverride; LayerWhitelist; LayerAdblock; LayerGroupPolicy]
                ++ engineSkippedLayers)%list newDomainAssessment))
  | Ok normalized =>
      let '(s, group) := resolveClientGroup client env s in
      let '(s, override) := resolveOverride group normalized env s in
      apply_layers group override normalized client env s
  end.

(** ** Analyze *)

Record AnalyzeOptions := mkOptions {
  IncludeEvidence : bool; ForceOSINT : bool; OptURLContext : option URLContext;
  MissingContextReason : string
}.
Record Analysis := mkAnalysis {
  AResult : Result; ACacheHit : bool; AAnalyzedAt : string; AEvidence : list Evidence;
  AURLML : option URLObservation; ADecision : option PolicyDecision; ADecisionID : string;
  AAssessment : Assessment
}.

(** The stages up to the engine: a filled result, or the assessment so far. *)
Definition analyze_layers (normalized : string) (client : ClientInfo) (env : CallEnv)
    (s : Service E) : Service E * Result * bool * option PolicyDecision * Assessment :=
  let '(s, group) := resolveClientGroup client env s in
  let assess := note [LayerIdentity; LayerOverride] [] newDomainAssessment in
  let '(s, override) := resolveOverride group normalized env s in
  let '(result, cacheHit, decision, assess) :=
    match override with
    | Some l => (layer_result l, layer_cacheHit l, Some (layer_decision l),
                 note [] ([LayerWhitelist; LayerAdblock] ++ engineSkippedLayers)%list assess)
    | None => (zero_result, false, None, assess)
    end in
  let '(result, cacheHit, decision, assess) :=
    if String.eqb (RDomain result) "" then
      match resolveWhitelist normalized env s with
      | Some l => (layer_result l, layer_cacheHit l, Some (layer_decision l),
                   note [LayerWhitelist] (LayerAdblock :: engineSkippedLayers) assess)
      | None => (result, cacheHit, decision, assess)
      end
    else (result, cacheHit, decision, assess) in
  if String.eqb (RDomain result) "" then
    let assess := note [LayerWhitelist; LayerAdblock] [] assess in
    let fired := adblockEnabled (adblock s)
                 && match adblockTrie (adblock s) with
                    | Some t => Match t normalized | None => false end in
    if fired && bool_decide (svcSemantics s = PolicySemanticsLegacy)
    then (s, legacy_result normalized, false, Some legacyPolicyDecision,
          note [] (engineSkippedLayers ++ [skippedLayer "security_assessment" SkipLegacyFused])%list
            assess)
    else (s, result, cacheHit, decision, assess)
  else (s, result, cacheHit, decision, assess).

Definition AnalyzeWithOptions (domain : string) (client : ClientInfo) (options : AnalyzeOptions)
    (env : CallEnv) (s : Service E) : Service E * Analysis :=
  let s := set_engine (note_analyze_request (engine s)
             (match OptURLContext options with
              | None => Some (MissingContextReason options) | Some _ => None end)) s in
  let '(s, normalized, result, cacheHit, evidence, decision, assess) :=
    match NormalizeDomain domain with
    | Err _ =>
        (s, "", analyzeLexical (engine s) domain, false, [], None,
         note [LayerIdentity]
           ([LayerOverride; LayerWhitelist; LayerAdblock; LayerGroupPolicy]
            ++ engineSkippedLayers)%list newDomainAssessment)
    | Ok normalized =>
        let '(s, result, cacheHit, decision, assess) := analyze_layers normalized client env s in
        if String.eqb (RDomain result) "" then
          let '(e, (result, cacheHit, evidence, engineAssess)) :=
            engine_analyze (engine s) normalized osintLookupOnDemand (ForceOSINT options) in
          (set_engine e s, normalized, result, cacheHit, evidence, decision,
           mkAssess (Coverage assess)
             (prependLayers (Evaluated engineAssess)
                [LayerIdentity; LayerOverride; LayerWhitelist; LayerAdblock])
             (SkippedLayers engineAssess) (Feed engineAssess))
        else (s, normalized, result, cacheHit, [], decision, assess)
    end in
  let '(s, urlml, assess) :=
    match OptURLContext options with
    | Some ctx =>
        let '(e, obs) := observe_url_ml (engine s) normalized (RVerdict result) ctx in
        (set_engine e s, Some obs, note [LayerURLML] [] assess)
    | None => (s, None, note [] [skippedLayer LayerURLML SkipNoURLContext] assess)
    end in
  let evidence := if IncludeEvidence options then evidence else [] in
  (recordTelemetryWithSource result cacheHit decision assess client "" env s,
   mkAnalysis result cacheHit (analyzed_at env) evidence urlml decision (decision_id env) assess).

Definition Analyze (domain : string) (client : ClientInfo) (env : CallEnv) (s : Service E)
    : Service E * Analysis :=
  AnalyzeWithOptions domain client (mkOptions false false None "") env s.

(** ** Operator changes: [UpsertOverride], [DeleteOverride] of [admin.go] *)

Definition on_tables (domain : string) (f : string → Tables → Tables * option string)
    (s : Service E) : Service E * option string :=
  match store s with
  | None => (s, Some "store disabled")
  | Some (t, _) =>
      match NormalizeDomain domain with
      | Err e => (s, Some ("invalid domain: " ++ e))
      | Ok normalized => let '(t, err) := f normalized t in (set_tables t s, err)
      end
  end.
Definition UpsertOverride (domain action reason : string) (env : CallEnv) (s : Service E)
    : Service E * option string :=
  let IO := call_io env in
  on_tables domain (λ d t, Groups.UpsertOverride d action reason t) s.
Definition DeleteOverride (domain : string) (env : CallEnv) (s : Service E)
    : Service E * option string :=
  let IO := call_io env in
  on_tables domain (λ d t, Groups.DeleteOverride d t) s.

(** ** Status of the fail-open lookups (the counters, unformatted) *)

Record DecisionPipelineStatus := mkPipelineStatus {
  OverrideLookupFailures : Z; OverrideConsecutiveFailures : Z;
  GroupLookupFailures : Z; GroupConsecutiveFailures : Z;
  LastFailureAt : option Z; LastSuccessAt : option Z;
  GroupLastFailureAt : option Z; GroupLastSuccessAt : option Z
}.
Definition positive_stamp (z : Z) : option Z := if (0 <? z)%Z then Some z else None.
Definition pipeline_status (s : Service E) : DecisionPipelineStatus :=
  let o := overrideFailures s in
  let g := groupFailures s in
  mkPipelineStatus (lookupFailures o) (consecutiveFailures o) (lookupFailures g)
    (consecutiveFailures g) (positive_stamp (lastFailureUnix o)) (positive_stamp (lastSuccessUnix o))
    (positive_stamp (lastFailureUnix g)) (positive_stamp (lastSuccessUnix g)).
End Pipeline.

(** ** The pipeline as the resolver's policy service

    One call of [Policy] per evaluation; the inputs of the calls come from a
    schedule indexed by the number of evaluations so far. *)

Record Running (E : Type) := mkRunning {
  service : Service E; calls : nat; schedule : nat → CallEnv
}.
Arguments mkRunning {E} _ _ _.
Arguments service {E} _.
Arguments calls {E} _.
Arguments schedule {E} _.

#[export] Instance pipeline_service `{UnicodeTables, HostServices} {E} `{!Engine E}
    : PolicyService (Running E) := {
  policy_eval r domain client :=
    let '(s, p) := Policy domain client (schedule r (calls r)) (service r) in
    (mkRunning s (S (calls r)) (schedule r), Policy_ p)
}.
