(* ===== verification/PolicySpec.v ===== *)
(** * Properties of the decision pipeline

    The order of precedence of the layers and what each leaves untouched, how
    narrow a content exception is, what a failing store changes, what a client
    cannot influence, and what is put on record.  Their witnesses are in
    [EndToEnd.v]. *)

From Stdlib Require Import ZArith Lia Ascii String.
From S2P Require Import Prelude GoStr Hostname NetIP DnsMsg RespCache Trie.
From S2P Require Import GoFloat Whitelist Groups Exceptions Category Resolver ResolverSpec Policy.

Section Spec.
Context `{UnicodeTables, HostServices} {E : Type} `{!Engine E}.
Implicit Types (s : Service E) (env : CallEnv) (c : ClientInfo).

(** ** The questions the layers ask *)

Definition group_of (s : Service E) (env : CallEnv) (c : ClientInfo) : ClientGroup :=
  (resolveClientGroup c env s).2.
Definition override_of (s : Service E) (env : CallEnv) (c : ClientInfo) (n : string)
    : option Override :=
  let IO := call_io env in
  match store s with
  | None => None
  | Some (t, _) =>
      match GetEffectiveOverride (GroupID (group_of s env c)) n (Some t) with
      | Ok o => o | Err _ => None
      end
  end.
(** The fired rule that no exception suppresses. *)
Definition content_block (s : Service E) (n : string) : bool :=
  let d := adblock_detail s n in
  Matched d && (bool_decide (svcSemantics s = PolicySemanticsLegacy)
                || negb (bool_decide (is_Some (matchAdblockException (adblock s) n (MRule d))))).
Definition engine_result (s : Service E) (n : string) : Result :=
  (engine_analyze (engine s) n osintLookupCachedOnly false).2.1.1.1.

(** The layers' answers, in order of precedence; [None] abstains. *)
Definition administrative (s : Service E) (env : CallEnv) (c : ClientInfo) (n : string)
    : list (option string) :=
  [ OAction <$> override_of s env c n;
    (if IsAllowed (whitelist s) (cancelled env) n then Some "allow" else None);
    (if content_block s n then Some "block" else None) ].
Definition first_answer (l : list (option string)) : option string := head (omap id l).

(** ** The state the first steps leave *)

Lemma resolve_group_state s env c s' g :
  resolveClientGroup c env s = (s', g) →
  s' = set_group_failures (groupFailures s') s ∧ g = group_of s env c ∧
  match store s with
  | None => groupFailures s' = groupFailures s
  | Some (t, db) =>
      let IO := call_io env in
      groupFailures s' =
        (if is_ok (GetGroupForClient (ClientIPAddr c) (ClientID c) false t db)
         then lookup_succeeded else lookup_failed) (unix_now env) (groupFailures s)
  end.
Proof.
  unfold group_of. intros Hr. rewrite Hr. revert Hr. unfold resolveClientGroup.
  destruct (store s) as [[t db]|]; [|by intros [= <- <-]; destruct s].
  cbv zeta. destruct (GetGroupForClient _ _ _ _ _); intros [= <- <-]; by destruct s.
Qed.

Lemma resolve_override_state s env g n s' o :
  resolveOverride g n env s = (s', o) →
  s' = set_override_failures (overrideFailures s') s ∧
  o = (override_layer n <$> match store s with
        | None => None
        | Some (t, _) =>
            let IO := call_io env in
            match GetEffectiveOverride (GroupID g) n (Some t) with Ok o => o | Err _ => None end
        end) ∧
  match store s with
  | None => overrideFailures s' = overrideFailures s
  | Some (t, _) =>
      let IO := call_io env in
      overrideFailures s' =
        (if is_ok (GetEffectiveOverride (GroupID g) n (Some t))
         then lookup_succeeded else lookup_failed) (unix_now env) (overrideFailures s)
  end.
Proof.
  unfold resolveOverride, lookupEffectiveOverride.
  destruct (store s) as [[t db]|] eqn:Es; [|by intros [= <- <-]; destruct s]. cbn [fmap option_fmap fst].
  cbv zeta. cbn [option_map fst].
  destruct (GetEffectiveOverride _ _ _) as [[o'|]|]; intros [= <- <-]; by destruct s.
Qed.

(** [Policy] on a valid name, after the two lookups: only the failure counters moved. *)
Definition after_lookups (s : Service E) (env : CallEnv) (c : ClientInfo) (n : string) : Service E :=
  (resolveOverride (group_of s env c) n env (resolveClientGroup c env s).1).1.

Lemma after_lookups_spec s env c n :
  let s' := after_lookups s env c n in
  store s' = store s ∧ whitelist s' = whitelist s ∧ adblock s' = adblock s ∧
  svcSemantics s' = svcSemantics s ∧ telemetry s' = telemetry s ∧ engine s' = engine s.
Proof.
  unfold after_lookups. destruct (resolveClientGroup c env s) as [s1 g] eqn:Eg.
  apply resolve_group_state in Eg as (E1 & _ & _). cbn [fst].
  destruct (resolveOverride _ n env s1) as [s2 o] eqn:Eo.
  apply resolve_override_state in Eo as (E2 & _ & _). cbn. rewrite E2, E1. by destruct s.
Qed.

Lemma adblock_detail_ext s s' n :
  adblock s = adblock s' → adblock_detail s n = adblock_detail s' n.
Proof. unfold adblock_detail. by intros ->. Qed.

Lemma Policy_valid d n s env c :
  NormalizeDomain d = Ok n →
  Policy d c env s =
  apply_layers (group_of s env c) (override_layer n <$> override_of s env c n) n c env
    (after_lookups s env c n).
Proof.
  intros Hn. unfold Policy, after_lookups. rewrite Hn.
  destruct (resolveClientGroup c env s) as [s1 g] eqn:Eg.
  apply resolve_group_state in Eg as (E1 & -> & _). cbn [fst].
  destruct (resolveOverride _ n env s1) as [s2 o] eqn:Eo.
  apply resolve_override_state in Eo as (E2 & -> & _). cbn [fst]. unfold override_of.
  by replace (store s1) with (store s) by (rewrite E1; by destruct s).
Qed.

Lemma record_telemetry_state r hit dec a c src env s :
  let s' := recordTelemetryWithSource r hit dec a c src env s in
  store s' = store s ∧ whitelist s' = whitelist s ∧ adblock s' = adblock s ∧
  svcSemantics s' = svcSemantics s ∧ overrideFailures s' = overrideFailures s ∧
  groupFailures s' = groupFailures s ∧ engine s' = engine s.
Proof.
  unfold recordTelemetryWithSource. destruct (telemetry s); [|done]. by destruct dec.
Qed.

(** The action of the layers after the lookups. *)
Lemma apply_layers_policy g ov n c env s :
  Policy_ (apply_layers g (override_layer n <$> ov) n c env s).2 =
  default (enforce g (engine_result s n))
    (first_answer [OAction <$> ov;
       (if IsAllowed (whitelist s) (cancelled env) n then Some "allow" else None);
       (if content_block s n then Some "block" else None)]).
Proof.
  assert (∀ exc s', engine s' = engine s →
    Policy_ (assess_and_enforce g n exc c env s').2 = enforce g (engine_result s n)) as Hassess.
  { intros exc s' He. unfold assess_and_enforce, engine_result. rewrite He.
    by destruct (engine_analyze _ _ _ _) as [e [[[r h] ev] a]]. }
  unfold apply_layers. destruct ov as [o|]; cbn [fmap option_fmap option_map].
  { unfold override_layer. by destruct (String.eqb _ _). }
  unfold resolveWhitelist. destruct (IsAllowed _ _ _); [done|].
  unfold content_block. cbv zeta. destruct (Matched (adblock_detail s n)) eqn:Em; cbn [andb].
  2: { cbn. by apply Hassess. }
  unfold adblock_fired. destruct (bool_decide _); [done|]. cbn [orb].
  destruct (matchAdblockException _ _ _) as [id|]; cbn; [|done].
  by apply Hassess.
Qed.

(** C3: the precedence of the layers: an invalid name is blocked; for a valid one the answer
    is that of the first layer that has one, of the effective override, the allow list
    and an unexcepted adblock rule in this order, and otherwise the enforcement of the
    client's group on the threat assessment, which runs only in that last case. *)
Theorem policy_precedence d c env s :
  match NormalizeDomain d with
  | Err _ => Policy_ (Policy d c env s).2 = "block" ∧ (Policy d c env s).1 = s
  | Ok n =>
      Policy_ (Policy d c env s).2 =
        default (enforce (group_of s env c) (engine_result s n))
          (first_answer (administrative s env c n)) ∧
      (is_Some (first_answer (administrative s env c n)) →
       engine (Policy d c env s).1 = engine s)
  end.
Proof.
  destruct (NormalizeDomain d) as [n|] eqn:En.
  2: { unfold Policy. by rewrite En. }
  rewrite (Policy_valid d n) by done.
  destruct (after_lookups_spec s env c n) as (_ & Hw & Ha & Hp & _ & He).
  set (s1 := after_lookups s env c n) in *.
  assert (content_block s1 n = content_block s n) as Hc
    by (unfold content_block; by rewrite (adblock_detail_ext s1 s), Ha, Hp).
  assert (engine_result s1 n = engine_result s n) as Hr by (unfold engine_result; by rewrite He).
  split.
  - rewrite apply_layers_policy. unfold administrative. by rewrite Hw, Hc, Hr.
  - unfold administrative. rewrite <-Hw, <-Hc, <-He. unfold apply_layers.
    destruct (override_of s env c n) as [o|]; cbn [fmap option_fmap option_map].
    { intros _. apply record_telemetry_state. }
    unfold resolveWhitelist. destruct (IsAllowed _ _ _).
    { intros _. apply record_telemetry_state. }
    unfold content_block. cbv zeta. destruct (Matched _); [|by intros [? [=]]]. cbn [andb].
    unfold adblock_fired. destruct (bool_decide (svcSemantics s1 = _)).
    { intros _. apply record_telemetry_state. }
    destruct (matchAdblockException _ _ _) as [id|]; [by intros [? [=]]|].
    intros _. unfold conclude. by etrans; [apply record_telemetry_state|].
Qed.

(** ** Exceptions are narrow *)

Definition adblock_off (s : Service E) : Service E :=
  let a := adblock s in
  set_adblock (mkEngine (policySemantics a) (adblockMatchMode a) (adblockTrie a) false
    (adblockShadowExactEnabled a) (adblockShadow a) (adblockExceptionsFile a)
    (adblockExceptionsPinned a) (adblockExceptions a) (adblockExc a)) s.

Lemma resolve_group_set_adblock s env c a :
  resolveClientGroup c env (set_adblock a s) =
  (set_adblock a (resolveClientGroup c env s).1, group_of s env c).
Proof.
  unfold group_of, resolveClientGroup. cbn [store set_adblock].
  destruct (store s) as [[t db]|]; [|done]. cbv zeta. by destruct (GetGroupForClient _ _ _ _ _).
Qed.
Lemma resolve_override_set_adblock s env g n a :
  resolveOverride g n env (set_adblock a s) =
  (set_adblock a (resolveOverride g n env s).1, (resolveOverride g n env s).2).
Proof.
  unfold resolveOverride, lookupEffectiveOverride. cbn [store set_adblock].
  destruct (store s) as [[t db]|]; [|done].
  cbn [fmap option_fmap option_map fst]. cbv zeta. by destruct (GetEffectiveOverride _ _ _).
Qed.
Lemma lookups_set_adblock s env c n a :
  group_of (set_adblock a s) env c = group_of s env c ∧
  override_of (set_adblock a s) env c n = override_of s env c n ∧
  after_lookups (set_adblock a s) env c n = set_adblock a (after_lookups s env c n).
Proof.
  assert (group_of (set_adblock a s) env c = group_of s env c) as Hgo
    by (unfold group_of at 1; by rewrite resolve_group_set_adblock).
  split_and!; [done|unfold override_of; by rewrite Hgo|].
  unfold after_lookups. rewrite Hgo, resolve_group_set_adblock. cbn [fst].
  by rewrite resolve_override_set_adblock.
Qed.

(** The parts of an outcome that conclude what the client gets. *)
Definition same_outcome (p p' : Service E * PolicyResult) : Prop :=
  Policy_ p.2 = Policy_ p'.2 ∧ PResult p.2 = PResult p'.2 ∧ CacheHit p.2 = CacheHit p'.2 ∧
  PAssessment p.2 = PAssessment p'.2 ∧ engine p.1 = engine p'.1.

Lemma conclude_same n pol r hit d1 d2 l1 l2 a src src' c env s s' :
  engine s = engine s' →
  same_outcome (conclude n pol r hit d1 l1 a src c env s) (conclude n pol r hit d2 l2 a src' c env s').
Proof.
  intros He. unfold same_outcome, conclude. cbn [fst snd]. split_and!; try done.
  etrans; [apply record_telemetry_state|]. rewrite He. symmetry. apply record_telemetry_state.
Qed.

Lemma assess_same g n x x' c env s s' :
  engine s = engine s' →
  same_outcome (assess_and_enforce g n x c env s) (assess_and_enforce g n x' c env s').
Proof.
  intros He. unfold assess_and_enforce. rewrite He.
  destruct (engine_analyze _ _ _ _) as [e [[[r h] ev] a]]. by apply conclude_same.
Qed.

(** C12: an exception suppresses the adblock block and nothing else: wherever no unexcepted
    rule fires, the policy, the security result, its assessment and what the engine does
    are those of a service with adblock switched off. *)
Theorem exception_is_adblock_off d c env s :
  (∀ n, NormalizeDomain d = Ok n → content_block s n = false) →
  same_outcome (Policy d c env s) (Policy d c env (adblock_off s)).
Proof.
  intros Hc. destruct (NormalizeDomain d) as [n|] eqn:En.
  2: { unfold Policy. by rewrite En. }
  specialize (Hc n eq_refl). rewrite !(Policy_valid d n) by done.
  unfold adblock_off. set (a := mkEngine _ _ _ _ _ _ _ _ _ _).
  destruct (lookups_set_adblock s env c n a) as (-> & -> & ->).
  destruct (after_lookups_spec s env c n) as (_ & _ & Ha & Hp & _ & _).
  set (s1 := after_lookups s env c n) in *. unfold apply_layers.
  destruct (override_of s env c n) as [o|]; cbn [fmap option_fmap option_map];
    [by apply conclude_same|].
  unfold resolveWhitelist. cbn [whitelist set_adblock].
  destruct (IsAllowed _ _ _); [by apply conclude_same|].
  unfold adblock_detail at 4. cbn [adblock set_adblock adblockEnabled Matched no_match a].
  cbv zeta. unfold content_block in Hc. rewrite (adblock_detail_ext s s1) in Hc by done.
  destruct (Matched (adblock_detail s1 n)); [|by apply assess_same]. cbn [andb] in Hc.
  unfold adblock_fired. rewrite Hp.
  destruct (bool_decide (svcSemantics s = _)); [done|]. cbn [orb] in Hc.
  rewrite <-Ha in Hc. destruct (matchAdblockException _ _ _); [by apply assess_same|done].
Qed.

(** ** Fail-open lookups *)

Definition no_store (s : Service E) : Service E :=
  mkService None (whitelist s) (adblock s) (svcSemantics s) (overrideFailures s) (groupFailures s)
    (telemetry s) (engine s).

Lemma apply_layers_state g ov n c env s :
  let s' := (apply_layers g ov n c env s).1 in
  store s' = store s ∧ overrideFailures s' = overrideFailures s ∧ groupFailures s' = groupFailures s.
Proof.
  assert (∀ n pol r hit d l a src s, let s' := (conclude n pol r hit d l a src c env s).1 in
    store s' = store s ∧ overrideFailures s' = overrideFailures s ∧
    groupFailures s' = groupFailures s) as Hd
    by (intros; unfold conclude; cbn; edestruct record_telemetry_state as (?&?&?&?&?&?&?); by split_and!).
  assert (∀ x s, let s' := (assess_and_enforce g n x c env s).1 in
    store s' = store s ∧ overrideFailures s' = overrideFailures s ∧
    groupFailures s' = groupFailures s) as Ha.
  { intros x s0. unfold assess_and_enforce.
    destruct (engine_analyze _ _ _ _) as [e [[[r h] ev] a]]. apply (Hd _ _ _ _ _ _ _ _ (set_engine e s0)). }
  unfold apply_layers. destruct ov; [apply Hd|]. destruct (resolveWhitelist _ _ _); [apply Hd|].
  cbv zeta. destruct (Matched _); [|apply Ha]. unfold adblock_fired.
  destruct (bool_decide _); [apply Hd|].
  destruct (matchAdblockException _ _ _); [apply (Ha _ (set_adblock _ (set_adblock _ s)))
    |apply (Hd _ _ _ _ _ _ _ _ (set_adblock _ s))].
Qed.

Lemma apply_layers_ext g ov n c env s s' :
  whitelist s = whitelist s' → adblock s = adblock s' → svcSemantics s = svcSemantics s' →
  engine s = engine s' →
  (apply_layers g ov n c env s).2 = (apply_layers g ov n c env s').2.
Proof.
  intros Hw Ha Hp He. unfold apply_layers. destruct ov; [done|]. unfold resolveWhitelist. rewrite Hw.
  destruct (IsAllowed _ _ _); [done|]. cbv zeta. rewrite (adblock_detail_ext s s') by done.
  assert (∀ x t t', engine t = engine t' →
    (assess_and_enforce g n x c env t).2 = (assess_and_enforce g n x c env t').2) as Hassess.
  { intros x t t' Ht. unfold assess_and_enforce. rewrite Ht.
    by destruct (engine_analyze _ _ _ _) as [e [[[r h] ev] a]]. }
  destruct (Matched _); [|by apply Hassess]. unfold adblock_fired. rewrite Hp, Ha.
  destruct (bool_decide _); [done|].
  destruct (matchAdblockException _ _ _); [by apply Hassess|]. cbn. by rewrite He.
Qed.

(** A store that fails is survived and counted: every failed read of the client's group
    or of the override adds one to its counters, every success ends the streak, and when
    both fail the decision is exactly that of a service without a store. *)
Theorem fail_open_counted d n c env s t db :
  NormalizeDomain d = Ok n → store s = Some (t, db) →
  let IO := call_io env in
  let group := GetGroupForClient (ClientIPAddr c) (ClientID c) false t db in
  let override := GetEffectiveOverride (GroupID (group_of s env c)) n (Some t) in
  let p := Policy d c env s in
  groupFailures p.1 = (if is_ok group then lookup_succeeded else lookup_failed) (unix_now env)
                        (groupFailures s) ∧
  overrideFailures p.1 = (if is_ok override then lookup_succeeded else lookup_failed) (unix_now env)
                           (overrideFailures s) ∧
  (is_ok group = false → is_ok override = false → p.2 = (Policy d c env (no_store s)).2).
Proof.
  intros Hn Hs IO group override p. subst p. rewrite !(Policy_valid d n) by done.
  destruct (apply_layers_state (group_of s env c) (override_layer n <$> override_of s env c n) n c env
    (after_lookups s env c n)) as (_ & -> & ->).
  pose proof (after_lookups_spec s env c n) as (_ & Hw & Ha & Hp & _ & He).
  assert (override_of s env c n = match override with Ok o => o | Err _ => None end) as Hov
    by (unfold override_of; by rewrite Hs).
  assert (is_ok group = false → group_of s env c = builtin_group) as Hbuiltin.
  { unfold group_of, resolveClientGroup. rewrite Hs. cbv zeta. subst group IO.
    by destruct (GetGroupForClient _ _ _ _ _). }
  unfold after_lookups at 1 2. destruct (resolveClientGroup c env s) as [s1 g] eqn:Eg. cbn [fst].
  apply resolve_group_state in Eg as (E1 & _ & Hgf). rewrite Hs in Hgf. cbv zeta in Hgf.
  destruct (resolveOverride (group_of s env c) n env s1) as [s2 o] eqn:Eo.
  apply resolve_override_state in Eo as (E2 & _ & Hof).
  replace (store s1) with (store s) in Hof by (rewrite E1; by destruct s).
  rewrite Hs in Hof. cbv zeta in Hof. cbn [fst].
  replace (overrideFailures s1) with (overrideFailures s) in Hof by (rewrite E1; by destruct s).
  split; [rewrite E2; cbn; exact Hgf|]. split; [exact Hof|].
  intros Hge Hoe. rewrite Hbuiltin, Hov by done. destruct override; [done|].
  rewrite (apply_layers_ext _ _ _ _ _ _ (no_store s)) by done.
  done.
Qed.

(** ** What the client cannot influence *)

Lemma group_of_client s env ip id id' :
  resolveClientGroup (mkClient ip id) env s = resolveClientGroup (mkClient ip id') env s.
Proof. done. Qed.

(** The unauthenticated client identifier has no say: two requests from one address differ
    in the telemetry's identifier only, never in the decision, the counters or the state
    of the engine. *)
Theorem client_id_ignored d ip id id' env s :
  let p := Policy d (mkClient ip id) env s in
  let p' := Policy d (mkClient ip id') env s in
  p.2 = p'.2 ∧ set_telemetry None p.1 = set_telemetry None p'.1.
Proof.
  cbv zeta.
  assert (∀ n pol r hit d l a src s,
    let q := conclude n pol r hit d l a src (mkClient ip id) env s in
    let q' := conclude n pol r hit d l a src (mkClient ip id') env s in
    q.2 = q'.2 ∧ set_telemetry None q.1 = set_telemetry None q'.1) as Hd.
  { intros. unfold q, q', conclude, recordTelemetryWithSource. cbn. split; [done|].
    destruct (telemetry s0); [|done]. by destruct l. }
  assert (∀ g n x s,
    let q := assess_and_enforce g n x (mkClient ip id) env s in
    let q' := assess_and_enforce g n x (mkClient ip id') env s in
    q.2 = q'.2 ∧ set_telemetry None q.1 = set_telemetry None q'.1) as Ha.
  { intros g n x s0. cbv zeta. unfold assess_and_enforce.
    destruct (engine_analyze _ _ _ _) as [e [[[r h] ev] a]]. apply Hd. }
  unfold Policy. destruct (NormalizeDomain d) as [n|]; [|done].
  rewrite (group_of_client s env ip id id'). destruct (resolveClientGroup _ _ _) as [s1 g].
  destruct (resolveOverride _ _ _ _) as [s2 o]. unfold apply_layers.
  destruct o; [apply Hd|]. destruct (resolveWhitelist _ _ _); [apply Hd|]. cbv zeta.
  destruct (Matched _); [|apply Ha]. unfold adblock_fired. destruct (bool_decide _); [apply Hd|].
  destruct (matchAdblockException _ _ _); [apply Ha|apply Hd].
Qed.

(** ** Analyze *)

Lemma analyze_layers_neutral n c env s a :
  svcSemantics s = PolicySemanticsSeparated →
  analyze_layers n c env (set_adblock a s) =
  let '(s', r, h, de, a') := analyze_layers n c env s in (set_adblock a s', r, h, de, a').
Proof.
  intros Hp1. unfold analyze_layers.
  rewrite resolve_group_set_adblock. unfold group_of.
  destruct (resolveClientGroup c env s) as [s2 g] eqn:E1. cbn [fst snd].
  rewrite resolve_override_set_adblock.
  destruct (resolveOverride g n env s2) as [s3 o] eqn:E2. cbn [fst snd].
  assert (svcSemantics s3 = PolicySemanticsSeparated) as Hs3.
  { apply resolve_group_state in E1 as (E1 & _). apply resolve_override_state in E2 as (E2 & _).
    by rewrite E2, E1. }
  unfold resolveWhitelist. cbn [whitelist set_adblock svcSemantics]. rewrite Hs3.
  rewrite (bool_decide_false (PolicySemanticsSeparated = PolicySemanticsLegacy)) by done.
  rewrite !andb_false_r.
  repeat case_match; simplify_eq/=; done.
Qed.

(** Adblock is no security evidence: under the separated semantics the outcome of
    [AnalyzeWithOptions] does not depend on the adblock engine at all, neither on its
    rules and exceptions nor on whether it is on. *)
Theorem analyze_content_neutral d c options env s a :
  svcSemantics s = PolicySemanticsSeparated →
  let p := AnalyzeWithOptions d c options env s in
  let p' := AnalyzeWithOptions d c options env (set_adblock a s) in
  p.2 = p'.2 ∧ p'.1 = set_adblock a p.1.
Proof.
  intros Hp. cbv zeta. unfold AnalyzeWithOptions.
  set (e1 := note_analyze_request _ _). change (engine (set_adblock a s)) with (engine s).
  fold e1. set (s1 := set_engine e1 s). change (set_engine _ (set_adblock a s)) with (set_adblock a s1).
  assert (svcSemantics s1 = PolicySemanticsSeparated) as Hp1 by done. clearbody s1. clear e1 Hp.
  destruct (NormalizeDomain d) as [n|] eqn:En.
  - rewrite analyze_layers_neutral by done. destruct (analyze_layers n c env s1) as [[[[s2 r] h] de] a2].
    cbn [engine set_adblock]. destruct (String.eqb (RDomain r) "").
    + destruct (engine_analyze _ _ _ _) as [e [[[r' h'] ev] a']].
      destruct (OptURLContext options); [cbn; destruct (observe_url_ml _ _ _ _)|]; cbn;
        unfold recordTelemetryWithSource; cbn; destruct (telemetry s2), de; done.
    + destruct (OptURLContext options); [cbn; destruct (observe_url_ml _ _ _ _)|]; cbn;
        unfold recordTelemetryWithSource; cbn; destruct (telemetry s2), de; done.
  - cbn [engine set_adblock].
    destruct (OptURLContext options); [cbn; destruct (observe_url_ml _ _ _ _)|]; cbn;
      unfold recordTelemetryWithSource; cbn; destruct (telemetry s1); done.
Qed.

(** Every decision is put on record: a policy decision on a valid name hands exactly
    one telemetry entry to the store, which carries the decision's identifier, its security result and,
    under the separated semantics, its policy action; an invalid name hands over none. *)
Theorem policy_on_record d c env s log :
  telemetry s = Some log →
  let p := Policy d c env s in
  match NormalizeDomain d with
  | Err _ => telemetry p.1 = Some log
  | Ok n => ∃ e, telemetry p.1 = Some (log ++ [e])%list ∧
      TDecisionID e = DecisionID p.2 ∧ TDomain e = RDomain (PResult p.2) ∧
      TVerdict e = verdict_string (RVerdict (PResult p.2)) ∧ TScore e = Score (PResult p.2) ∧
      Trace e = PAssessment p.2 ∧ TClientIP e = ClientIPAddr c ∧
      (svcSemantics s = PolicySemanticsSeparated →
       PolicyAction e = default "" (PDAction <$> Decision_ p.2))
  end.
Proof.
  intros Hlog. cbv zeta. destruct (NormalizeDomain d) as [n|] eqn:En.
  2: { unfold Policy. by rewrite En. }
  rewrite (Policy_valid d n) by done.
  destruct (after_lookups_spec s env c n) as (_ & _ & _ & Hp & Ht & _).
  rewrite Hlog in Ht. rewrite <-Hp. clear Hp Hlog. set (s1 := after_lookups s env c n) in *.
  clearbody s1.
  set (recorded (t : Service E) (q : Service E * PolicyResult) := ∃ e,
    telemetry q.1 = Some (log ++ [e])%list ∧
      TDecisionID e = DecisionID q.2 ∧ TDomain e = RDomain (PResult q.2) ∧
      TVerdict e = verdict_string (RVerdict (PResult q.2)) ∧ TScore e = Score (PResult q.2) ∧
      Trace e = PAssessment q.2 ∧ TClientIP e = ClientIPAddr c ∧
      (svcSemantics t = PolicySemanticsSeparated →
       PolicyAction e = default "" (PDAction <$> Decision_ q.2))).
  assert (∀ pol r hit shown logged a src t t', telemetry t' = Some log →
    (svcSemantics t = PolicySemanticsSeparated → shown = logged) →
    recorded t (conclude n pol r hit shown logged a src c env t')) as Hd.
  { intros pol r hit shown logged a src t t' Ht' Hs. unfold recorded, conclude.
    unfold recordTelemetryWithSource. cbn [fst snd]. rewrite Ht'.
    destruct logged; cbn; eexists; split_and!; try reflexivity; intros Hsep; by rewrite Hs. }
  assert (∀ g x t t', telemetry t' = Some log → recorded t (assess_and_enforce g n x c env t')) as Ha.
  { intros g x t t' Ht'. unfold assess_and_enforce.
    destruct (engine_analyze _ _ _ _) as [e [[[r h] ev] a]].
    unfold recorded, conclude, recordTelemetryWithSource. cbn. rewrite Ht'.
    destruct x; cbn; eexists; split_and!; reflexivity || done. }
  change (recorded s1 (apply_layers (group_of s env c) (override_layer n <$> override_of s env c n) n
    c env s1)).
  unfold apply_layers. destruct (_ <$> _); [by apply Hd|].
  destruct (resolveWhitelist _ _ _); [by apply Hd|]. cbv zeta.
  destruct (Matched _); [|by apply Ha]. unfold adblock_fired. case_bool_decide as Hl.
  - apply Hd; [done|]. by rewrite Hl.
  - destruct (matchAdblockException _ _ _); [by apply Ha|by apply Hd].
Qed.
End Spec.
