(* ===== verification/EndToEnd.v ===== *)
(** * From the operator's tables to the DNS answer

    The decision pipeline of [Policy.v] run as the policy service of the
    resolver of [Resolver.v]: what no DNS answer can contain, whatever the
    upstream replies and whatever the cache and the analysis engine hold.  This
    file also holds the witnesses of [PolicySpec]. *)

From Stdlib Require Import ZArith Lia Ascii String.
From S2P Require Import Prelude GoStr Hostname NetIP DnsMsg RespCache Trie GoFloat.
From S2P Require Import Whitelist Groups GroupsSpec Exceptions Category Resolver ResolverSpec Policy PolicySpec.

(** Every read of the store succeeds. *)
Definition reliable : StoreIO := {| io_err _ := None |}.

Section EndToEnd.
Context `{UnicodeTables, HostServices, DnsLib} {E : Type} `{!Engine E}.
Implicit Types (s : Service E) (c : ClientInfo).

Definition effective_override (s : Service E) (c : ClientInfo) (n : string) : option Override :=
  override_of s (mkCall (λ _, false) reliable "" "" 0) c n.

(** The name is valid, its effective override does not block it, and a rule that fires
    on it is excepted, unless an override or the allow list has already let it pass. *)
Definition admissible (s : Service E) (c : ClientInfo) (d : string) : Prop :=
  ∃ n, NormalizeDomain d = Ok n ∧
    match effective_override s c n with
    | Some o => OAction o ≠ "block"
    | None => IsAllowed (whitelist s) (λ _, false) n = true ∨ content_block s n = false
    end.

(** What an evaluation leaves of the configuration. *)
Definition same_config (s s' : Service E) : Prop :=
  store s' = store s ∧ whitelist s' = whitelist s ∧ svcSemantics s' = svcSemantics s ∧
  adblockTrie (adblock s') = adblockTrie (adblock s) ∧
  adblockEnabled (adblock s') = adblockEnabled (adblock s) ∧
  adblockExceptions (adblock s') = adblockExceptions (adblock s).

#[local] Instance same_config_trans : Transitive same_config.
Proof. unfold same_config. intros x y z. intuition congruence. Qed.

Lemma group_of_config s s' env c :
  store s' = store s → group_of s' env c = group_of s env c.
Proof.
  intros Hs. unfold group_of, resolveClientGroup. rewrite Hs.
  destruct (store s) as [[t db]|]; [|done]. cbv zeta. by destruct (GetGroupForClient _ _ _ _ _).
Qed.

Lemma admissible_config s s' c d : same_config s s' → admissible s' c d → admissible s c d.
Proof.
  intros (Hs & Hw & Hp & Ht & He & Hx) (n & Hn & Ha). exists n. split; [done|].
  unfold effective_override, override_of in *.
  rewrite (group_of_config s s'), Hs, Hw in Ha by done.
  replace (content_block s n) with (content_block s' n); [done|].
  unfold content_block, matchAdblockException.
  replace (adblock_detail s' n) with (adblock_detail s n)
    by (unfold adblock_detail; by rewrite Ht, He).
  by rewrite Hp, Hx.
Qed.

Lemma record_config r hit dec a c src env s :
  same_config s (recordTelemetryWithSource r hit dec a c src env s).
Proof.
  destruct (record_telemetry_state r hit dec a c src env s) as (R1 & R2 & R3 & R4 & _).
  unfold same_config. by rewrite R1, R2, R3, R4.
Qed.
Lemma conclude_config n pol r hit d l a src c env s :
  same_config s (conclude n pol r hit d l a src c env s).1.
Proof. apply record_config. Qed.
Lemma assess_config g n x c env s : same_config s (assess_and_enforce g n x c env s).1.
Proof.
  unfold assess_and_enforce. destruct (engine_analyze _ _ _ _) as [e [[[r h] ev] a]].
  apply (record_config _ _ _ _ _ _ _ (set_engine e s)).
Qed.

Lemma policy_config d c env s : same_config s (Policy d c env s).1.
Proof.
  destruct (NormalizeDomain d) as [n|] eqn:En.
  2: { unfold Policy. by rewrite En. }
  rewrite (Policy_valid d n) by done.
  destruct (after_lookups_spec s env c n) as (H1' & H2' & H3' & H4' & _).
  transitivity (after_lookups s env c n).
  { unfold same_config. by rewrite H1', H2', H3', H4'. }
  generalize (after_lookups s env c n) as s1. clear. intros s1. unfold apply_layers.
  destruct (_ <$> _); [apply conclude_config|]. destruct (resolveWhitelist _ _ _); [apply conclude_config|].
  cbv zeta. destruct (Matched _); [|apply assess_config]. unfold adblock_fired.
  destruct (bool_decide _); [apply conclude_config|].
  assert (∀ a, adblockTrie a = adblockTrie (adblock s1) → adblockEnabled a = adblockEnabled (adblock s1) →
    adblockExceptions a = adblockExceptions (adblock s1) → same_config s1 (set_adblock a s1)) as Hset
    by (intros; by split_and!).
  assert (∀ det b a, let a' := observeShadowExact det b a in
    adblockTrie a' = adblockTrie a ∧ adblockEnabled a' = adblockEnabled a ∧
    adblockExceptions a' = adblockExceptions a) as Hobs
    by (intros; unfold a', observeShadowExact; by destruct (_ || _)).
  destruct (matchAdblockException _ _ _).
  - etrans; [|apply assess_config]. edestruct Hobs as (O1 & O2 & O3). by apply Hset;
      cbn [adblock set_adblock] in *; rewrite ?O1, ?O2, ?O3.
  - etrans; [|apply conclude_config]. edestruct Hobs as (O1 & O2 & O3). by apply Hset;
      cbn [adblock set_adblock] in *; rewrite ?O1, ?O2, ?O3.
Qed.

(** Undisturbed calls: no store read fails, no caller goes away. *)
Definition undisturbed (sch : nat → CallEnv) : Prop :=
  ∀ i, call_io (sch i) = reliable ∧ cancelled (sch i) = (λ _, false).

Lemma eval_admits (r r' : Running E) d c p :
  undisturbed (schedule r) → policy_eval r d c = (r', p) →
  schedule r' = schedule r ∧ same_config (service r) (service r') ∧
  (p ≠ "block" → admissible (service r) c d).
Proof.
  intros Hu. cbn. destruct (Policy d c _ (service r)) as [s1 p1] eqn:Ep.
  intros [= <- <-]. cbn. split; [done|].
  pose proof (policy_config d c (schedule r (calls r)) (service r)) as Hc. rewrite Ep in Hc.
  split; [exact Hc|]. intros Hp. destruct (NormalizeDomain d) as [n|] eqn:En.
  2: { unfold Policy in Ep. rewrite En in Ep. by injection Ep as <- <-. }
  exists n. split; [done|]. destruct (Hu (calls r)) as [Hio Hcan].
  set (env := schedule r (calls r)) in *. set (s := service r) in *.
  assert (override_of s env c n = effective_override s c n) as Hov.
  { unfold effective_override, override_of, group_of, resolveClientGroup. cbn [call_io].
    rewrite Hio. destruct (store s) as [[t db]|]; [|done]. cbv zeta.
    by destruct (GetGroupForClient _ _ _ _ _). }
  rewrite (Policy_valid d n) in Ep by done. apply (f_equal snd) in Ep. cbn in Ep. subst p1.
  rewrite apply_layers_policy, Hov in Hp.
  destruct (effective_override s c n) as [o|]; [done|].
  destruct (after_lookups_spec s env c n) as (_ & Hw & Ha & Hsem & _ & _).
  rewrite Hw, Hcan in Hp. destruct (IsAllowed _ _ _); [by left|right].
  replace (content_block s n) with (content_block (after_lookups s env c n) n).
  - by destruct (content_block _ _).
  - unfold content_block. by rewrite (adblock_detail_ext _ s), Ha, Hsem.
Qed.

Lemma evaluates_admits (r r' : Running E) c ds :
  undisturbed (schedule r) → evaluates c r ds r' → Forall (admissible (service r) c) ds.
Proof.
  intros Hu Hev. induction Hev as [r|r d p r1 ds r2 Hd Hp _ IH]; [constructor|].
  apply eval_admits in Hd as (Hsch & Hcfg & Ha); [|done]. constructor; [by apply Ha|].
  rewrite Hsch in IH. eapply Forall_impl; [by apply IH|]. intros x. by apply admissible_config.
Qed.

(** The operator's decision reaches the client: as long as the store answers, every
    message a call of [ResolveQuery] that runs alone returns, fresh or cached, is the blocked message or has an
    admissible question and only admissible CNAME targets in all its sections. *)
Theorem answers_admissible cfg q c env (st st' : State (Running E)) m :
  undisturbed (schedule (svc st)) →
  ResolveQuery cfg q c env st = (st', Ok m) →
  m = BlockedDNSMessage cfg q ∨
  ∃ q0 qs, Questions q = q0 :: qs ∧
    Forall (admissible (service (svc st)) c) (TrimSuffix (QName q0) "." :: cname_targets m).
Proof.
  intros Hu Hr%resolve_outcome. unfold body_outcome, vetted in Hr.
  destruct (Questions q) as [|q0 qs]; [done|].
  destruct Hr as [[Hm _]|[(Hev & _) _]]; [by left|right]. exists q0, qs. split; [done|].
  by eapply evaluates_admits.
Qed.
End EndToEnd.

(** ** Witnesses *)

Module Examples.
#[local] Instance ex_tables : UnicodeTables := ascii_tables.
#[local] Instance ex_services : HostServices := two_label_services.
#[local] Existing Instance GroupsSpec.Examples.ex_sort.
#[local] Instance ex_libs : ExceptionLibs := {| decode_exceptions _ := None; sha256_hex16 s := s |}.
(** The upstream answers with an alias into [example.com]. *)
Definition reply := ex_answer 9 "www.shop.org." 60
  [mkRR (mkHdr "www.shop.org." 5 1 60) (CNAME "cdn.example.com.")].
#[local] Instance ex_dns : DnsLib := rfc_dns reply.
(** An engine that counts its runs. *)
#[local] Instance ex_engine : Engine nat := {
  Evidence := unit; URLContext := unit; URLObservation := unit;
  engine_analyze n d _ _ :=
    (S n, (mkResult d VerdictSuspicious f_zero 50 ["lexical"] "uncategorized", false, [],
           newDomainAssessment));
  analyzeLexical _ d := mkResult d VerdictInvalid f_zero 0 [] "";
  analyzeLexicalLocal _ d := mkResult d VerdictSafe f_zero 0 [] "";
  note_analyze_request n _ := n;
  observe_url_ml n _ _ _ := (n, tt)
}.

Definition ads_rule : Rule := mkRule "ads.net" RuleScopeSuffix "legacy" "ads" "block" OriginGlobalDefault.
Definition rules : Trie := (AddRule NewTrie ads_rule).1.
Definition exceptions : adblockExceptionSnapshot :=
  buildAdblockExceptionSnapshot
    [mkExc "shop" "shop.ads.net" RuleScopeSuffix "ads.net" "legacy" RuleScopeSuffix "" "needed"].
Definition engine0 : AdblockEngine :=
  mkEngine PolicySemanticsSeparated "suffix" (Some rules) true true (mkShadow 0 0 0 0 0) "" false
    (Some exceptions) (mkExcStatus true None true "" 1 0 0).
Definition zero : Failures := mkFailures 0 0 0 0.
(** [10.1.0.0/16] is the group "kids", which blocks [example.com]. *)
Definition s0 : Service nat :=
  mkService (Some (GroupsSpec.Examples.t4, GroupsSpec.Examples.db))
    (Some (mkWL None ["bank.org"] None 0)) engine0 PolicySemanticsSeparated zero zero (Some []) 0.
Definition call : CallEnv := mkCall (λ _, false) reliable "id-1" "2026-01-01T00:00:00Z" 5.
Definition failing : CallEnv :=
  mkCall (λ _, false) {| io_err _ := Some "disk I/O error" |} "id-2" "2026-01-01T00:00:01Z" 6.
Definition kid : ClientInfo := mkClient "10.1.2.3" "".

Definition policy_of (d : string) : string := Policy_ (Policy d kid call s0).2.
Example policies :
  policy_of <$> ["www.example.com"; "www.bank.org"; "x.ads.net"; "a.shop.ads.net"; "a..b"; "other.org"]
  = ["block"; "allow"; "block"; "allow"; "block"; "allow"].
Proof. by vm_compute. Qed.

Lemma policy_precedence_witness :
  match NormalizeDomain "x.ads.net" with
  | Err _ => Policy_ (Policy "x.ads.net" kid call s0).2 = "block" ∧ (Policy "x.ads.net" kid call s0).1 = s0
  | Ok n =>
      Policy_ (Policy "x.ads.net" kid call s0).2 =
        default (enforce (group_of s0 call kid) (engine_result s0 n))
          (first_answer (administrative s0 call kid n)) ∧
      (is_Some (first_answer (administrative s0 call kid n)) →
       engine (Policy "x.ads.net" kid call s0).1 = engine s0)
  end.
Proof. exact (policy_precedence "x.ads.net" kid call s0). Defined.

Lemma exception_is_adblock_off_witness :
  same_outcome (Policy "a.shop.ads.net" kid call s0) (Policy "a.shop.ads.net" kid call (adblock_off s0)).
Proof.
  apply (exception_is_adblock_off "a.shop.ads.net" kid call s0). intros n Hn.
  assert (NormalizeDomain "a.shop.ads.net" = Ok "a.shop.ads.net") as E by by vm_compute.
  rewrite E in Hn. injection Hn as <-. vm_compute. reflexivity.
Defined.

Lemma fail_open_counted_witness :
  let p := Policy "www.example.com" kid failing s0 in
  groupFailures p.1 = mkFailures 1 1 6 0 ∧ overrideFailures p.1 = mkFailures 1 1 6 0 ∧
  p.2 = (Policy "www.example.com" kid failing (no_store s0)).2.
Proof.
  destruct (fail_open_counted "www.example.com" "www.example.com" kid failing s0
    GroupsSpec.Examples.t4 GroupsSpec.Examples.db) as (Hg & Ho & Hp); [by vm_compute|reflexivity|].
  split; [exact Hg|]. split; [exact Ho|]. apply Hp; reflexivity.
Defined.

Lemma analyze_content_neutral_witness :
  let opts := mkOptions false false None "" in
  let off := adblock (adblock_off s0) in
  let p := AnalyzeWithOptions "x.ads.net" kid opts call s0 in
  let p' := AnalyzeWithOptions "x.ads.net" kid opts call (set_adblock off s0) in
  p.2 = p'.2 ∧ p'.1 = set_adblock off p.1.
Proof.
  exact (analyze_content_neutral "x.ads.net" kid (mkOptions false false None "") call s0
           (adblock (adblock_off s0)) eq_refl).
Defined.

Lemma policy_on_record_witness :
  let p := Policy "www.example.com" kid call s0 in
  match NormalizeDomain "www.example.com" with
  | Err _ => telemetry p.1 = Some []
  | Ok n => ∃ e, telemetry p.1 = Some ([] ++ [e])%list ∧
      TDecisionID e = DecisionID p.2 ∧ TDomain e = RDomain (PResult p.2) ∧
      TVerdict e = verdict_string (RVerdict (PResult p.2)) ∧ TScore e = Score (PResult p.2) ∧
      Trace e = PAssessment p.2 ∧ TClientIP e = ClientIPAddr kid ∧
      (svcSemantics s0 = PolicySemanticsSeparated →
       PolicyAction e = default "" (PDAction <$> Decision_ p.2))
  end.
Proof. exact (policy_on_record "www.example.com" kid call s0 [] eq_refl). Defined.

(** The alias into the blocked zone turns the answer into the blocked message. *)
Definition cfg := mkConfig "192.0.2.1" "" 60 0 4.
Definition q := ex_query 9 "www.shop.org.".
Definition st0 : State (Running nat) :=
  mkState 0 (New cfg).2 (mkRunning s0 0 (λ _, call)) ∅ [].
Definition run := ResolveQuery cfg q kid (mkEnv 0 0 0 0 (Ok "wire")) st0.
Example uncloaked : run.2 = Ok (BlockedDNSMessage cfg q).
Proof. by vm_compute. Qed.

(** A client of the default group, for which the global override allows the zone. *)
Definition adult : ClientInfo := mkClient "10.2.0.1" "".
Definition run_adult := ResolveQuery cfg q adult (mkEnv 0 0 0 0 (Ok "wire")) st0.

Lemma answers_admissible_witness :
  reply = BlockedDNSMessage cfg q ∨
  ∃ q0 qs, Questions q = q0 :: qs ∧
    Forall (admissible (service (svc st0)) adult)
      (TrimSuffix (QName q0) "." :: cname_targets reply).
Proof.
  refine (answers_admissible cfg q adult (mkEnv 0 0 0 0 (Ok "wire")) st0 run_adult.1 reply _
            (result_of run_adult _ _)).
  - intros i. split; reflexivity.
  - vm_compute. reflexivity.
Defined.
End Examples.
