(* ===== verification/EditDist.v ===== *)
(** * Edit distances: [internal/analysis/brand.go]

    [LevenshteinDistance], its keyboard-weighted variant in binary64, and the
    early-exit variants of both.  The four Go functions run the same two loops
    over one column of the dynamic-programming table, updated in place; the loops
    are written once over the operations of the cells ([Dp]) and instantiated
    with integers and with floats.  The buffers come from a pool and are
    overwritten before they are read, so the pool does not appear.

    The reference is the cost of an edit script ([script]): the distance is the
    least cost of any script, the early exit changes no comparison with the limit,
    and on strings of up to 1000 runes together the float computation is exact. *)

From Stdlib Require Import ZArith Lia Ascii String SpecFloat.
From S2P Require Import Prelude GoStr Hostname GoFloat.

(** [unicode.ToLower] and [unicode.IsSpace] of a rune above ASCII *)
Class RuneTables := { rune_lower : Z → Z; rune_space : Z → bool }.

(** ** The loops *)

Section Dp.
Context {W : Type} (lt : W → W → bool) (add : W → W → W) (one : W) (of_len : nat → W)
  (sub : Z → Z → W).

(** [minInt] and [minFloat] *)
Definition min3 (a b c : W) : W :=
  if lt a b then (if lt a c then a else c) else (if lt b c then b else c).

(** The inner loop from some [y] on: [column] holds the old values from [y] on,
    [prev] is the new [column[y-1]]. *)
Fixpoint row_loop (r1 : list Z) (c2 : Z) (column : list W) (prev lastkey : W) : list W :=
  match r1, column with
  | c1 :: r1, oldkey :: column =>
      let v := min3 (add oldkey one) (add prev one) (add lastkey (sub c1 c2)) in
      v :: row_loop r1 c2 column v oldkey
  | _, _ => []
  end.

(** The outer loop from [x] on; [column] does not hold index 0. *)
Fixpoint rows_loop (r1 r2 : list Z) (x : nat) (column : list W) : list W :=
  match r2 with
  | [] => column
  | c2 :: r2 => rows_loop r1 r2 (S x) (row_loop r1 c2 column (of_len x) (of_len (x - 1)))
  end.

Definition column0 (r1 : list Z) : list W := of_len <$> seq 1 (length r1).
Definition last_cell (column : list W) : W := default (of_len 0) (last column).

Definition distance (r1 r2 : list Z) : W :=
  if Nat.eqb (length r1) 0 then of_len (length r2)
  else if Nat.eqb (length r2) 0 then of_len (length r1)
  else last_cell (rows_loop r1 r2 1 (column0 r1)).

Definition row_min (x : nat) (column : list W) : W :=
  foldl (λ m v, if lt v m then v else m) (of_len x) column.

Fixpoint rows_capped (r1 r2 : list Z) (x : nat) (column : list W) (limit : W) : W :=
  match r2 with
  | [] => if lt limit (last_cell column) then add limit one else last_cell column
  | c2 :: r2 =>
      let column := row_loop r1 c2 column (of_len x) (of_len (x - 1)) in
      if lt limit (row_min x column) then add limit one
      else rows_capped r1 r2 (S x) column limit
  end.

Definition distance_capped (r1 r2 : list Z) (limit : W) : W :=
  if Nat.eqb (length r1) 0 then of_len (length r2)
  else if Nat.eqb (length r2) 0 then of_len (length r1)
  else rows_capped r1 r2 1 (column0 r1) limit.
End Dp.

(** ** The four functions *)

Definition rune_differs (c1 c2 : Z) : Z := if (c1 =? c2)%Z then 0 else 1.

Definition LevenshteinDistance (s1 s2 : string) : Z :=
  distance Z.ltb Z.add 1%Z Z.of_nat rune_differs (runes s1) (runes s2).
Definition LevenshteinDistanceCapped (s1 s2 : string) (limit : Z) : Z :=
  distance_capped Z.ltb Z.add 1%Z Z.of_nat rune_differs (runes s1) (runes s2) limit.

Definition keyboardAdjacency : list (string * string) := [
  ("a", "qwsz"); ("b", "vghn"); ("c", "xdfv"); ("d", "ersfxc");
  ("e", "wsdr34"); ("f", "rtgvcd"); ("g", "tyhbvf"); ("h", "yujnbg");
  ("i", "ujko89"); ("j", "uikmnh"); ("k", "ijlm09"); ("l", "okp");
  ("m", "njk"); ("n", "bhjm"); ("o", "iklp90"); ("p", "ol0");
  ("q", "w12a"); ("r", "edft45"); ("s", "wedxza"); ("t", "rfgy56");
  ("u", "yhji78"); ("v", "cfgb"); ("w", "qase23"); ("x", "zsdc");
  ("y", "tghu67"); ("z", "asx")].

(** [adj, ok := keyboardAdjacency[r1]; ok && strings.ContainsRune(adj, r2)] *)
Definition adjacent (r1 r2 : Z) : bool :=
  existsb (λ kv, bool_decide (runes kv.1 = [r1]) && existsb (Z.eqb r2) (runes kv.2))
    keyboardAdjacency.

Section Weighted.
Context `{RuneTables}.

(** [unicode.ToLower] of a rune *)
Definition ToLowerRune (r : Z) : Z :=
  if (r <? 128)%Z then (if (65 <=? r) && (r <=? 90) then r + 32 else r)%Z else rune_lower r.

(** [incr], counted in halves *)
Definition half_incr (c1 c2 : Z) : Z :=
  if (c1 =? c2)%Z then 0
  else
    let c1Low := ToLowerRune c1 in let c2Low := ToLowerRune c2 in
    if adjacent c1Low c2Low || adjacent c2Low c1Low then 1 else 2.
(** A number of halves as a float. *)
Definition half (k : Z) : float64 := binary_normalize 53 1024 k (-1) false.
Definition f_len (n : nat) : float64 := f_of_Z (Z.of_nat n).

Definition WeightedLevenshteinDistance (s1 s2 : string) : float64 :=
  distance f_lt f_add f_one f_len (λ a b, half (half_incr a b)) (runes s1) (runes s2).
Definition WeightedLevenshteinDistanceCapped (s1 s2 : string) (limit : float64) : float64 :=
  distance_capped f_lt f_add f_one f_len (λ a b, half (half_incr a b)) (runes s1) (runes s2) limit.
End Weighted.

(** ** Edit scripts *)

Section Scripts.
Context (gap : Z) (sub : Z → Z → Z).

(** Scripts that turn [a] into [b], with their cost. *)
Inductive script : list Z → list Z → Z → Prop :=
| script_nil : script [] [] 0
| script_del a b n c : script a b n → script (a ++ [c]) b (n + gap)
| script_ins a b n d : script a b n → script a (b ++ [d]) (n + gap)
| script_sub a b n c d : script a b n → script (a ++ [c]) (b ++ [d]) (n + sub c d).

(** The least cost of a script. *)
Definition least (a b : list Z) (n : Z) : Prop :=
  script a b n ∧ ∀ m, script a b m → (n <= m)%Z.

Hypothesis gap_nonneg : (0 <= gap)%Z.
Hypothesis sub_nonneg : ∀ c d, (0 <= sub c d)%Z.

Lemma script_nonneg a b n : script a b n → (0 <= n)%Z.
Proof.
  induction 1 as [| | |a b n c d _ IH]; [lia..|]. specialize (sub_nonneg c d). lia.
Qed.

Lemma script_nil_l b n : script [] b n → n = (gap * Z.of_nat (length b))%Z.
Proof.
  remember [] as a eqn:Ha. induction 1 as [|a b n c _ _|a b n d _ IH|a b n c d _ _];
    try (by apply app_nil in Ha as [_ ?]); [cbn; lia|]. rewrite IH by done. rewrite length_app. cbn. lia.
Qed.
Lemma script_nil_r a n : script a [] n → n = (gap * Z.of_nat (length a))%Z.
Proof.
  remember [] as b eqn:Hb. induction 1 as [|a b n c _ IH|a b n d _ _|a b n c d _ _];
    try (by apply app_nil in Hb as [_ ?]); [cbn; lia|]. rewrite IH by done. rewrite length_app. cbn. lia.
Qed.
Lemma least_nil_l b : least [] b (gap * Z.of_nat (length b)).
Proof.
  split; [|by intros m ->%script_nil_l].
  induction b as [|d b IH] using rev_ind; [rewrite Z.mul_0_r; constructor|].
  rewrite length_app. cbn. replace (gap * _)%Z with (gap * Z.of_nat (length b) + gap)%Z by lia.
  by constructor.
Qed.
Lemma least_nil_r a : least a [] (gap * Z.of_nat (length a)).
Proof.
  split; [|by intros m ->%script_nil_r].
  induction a as [|d a IH] using rev_ind; [rewrite Z.mul_0_r; constructor|].
  rewrite length_app. cbn. replace (gap * _)%Z with (gap * Z.of_nat (length a) + gap)%Z by lia.
  by constructor.
Qed.

(** The recurrence of the table. *)
Lemma min3_Z a b c : min3 Z.ltb a b c = Z.min a (Z.min b c).
Proof. unfold min3. repeat case_match; bool_simpl; lia. Qed.

Lemma least_step a b c d up left diag :
  least (a ++ [c]) b up → least a (b ++ [d]) left → least a b diag →
  least (a ++ [c]) (b ++ [d]) (min3 Z.ltb (up + gap)%Z (left + gap)%Z (diag + sub c d)%Z).
Proof.
  rewrite min3_Z. intros [Hup Hup'] [Hl Hl'] [Hd Hd']. split.
  - unfold Z.min. repeat case_match; eauto using script.
  - intros m Hm. inversion Hm as [Ha|a' b' n c' Hs Ha|a' b' n d' Hs Ha Hb|a' b' n c' d' Hs Ha Hb]; subst.
    + by destruct a.
    + apply app_inj_tail in Ha as [-> ->]. specialize (Hl' _ Hs). lia.
    + apply app_inj_tail in Hb as [-> ->]. specialize (Hup' _ Hs). lia.
    + apply app_inj_tail in Ha as [-> ->]. apply app_inj_tail in Hb as [-> ->].
      specialize (Hd' _ Hs). lia.
Qed.

(** A script passes every row of the table. *)
Lemma script_prefix a b b1 b2 n :
  script a b n → b = (b1 ++ b2)%list → ∃ a1 a2 m, a = (a1 ++ a2)%list ∧ script a1 b1 m ∧ (m <= n)%Z.
Proof.
  intros Hs. revert b1 b2. induction Hs as [|a b n c Hs IH|a b n d Hs IH|a b n c d Hs IH];
    intros b1 b2 Hb.
  - symmetry in Hb. apply app_nil in Hb as [-> ->]. exists [], [], 0%Z. by split_and!; [|constructor|].
  - destruct (IH b1 b2 Hb) as (a1 & a2 & m & -> & ? & ?).
    exists a1, (a2 ++ [c])%list, m. rewrite app_assoc. split_and!; [done..|lia].
  - destruct b2 as [|d' b2 _] using rev_ind.
    + rewrite app_nil_r in Hb. subst b1. exists a, [], (n + gap)%Z. rewrite app_nil_r.
      split_and!; [done|by constructor|lia].
    + rewrite app_assoc in Hb. apply app_inj_tail in Hb as [Hb ->].
      destruct (IH b1 b2 Hb) as (a1 & a2 & m & -> & ? & ?). exists a1, a2, m. split_and!; [done..|lia].
  - specialize (sub_nonneg c d). destruct b2 as [|d' b2 _] using rev_ind.
    + rewrite app_nil_r in Hb. subst b1. exists (a ++ [c])%list, [], (n + sub c d)%Z.
      rewrite app_nil_r. split_and!; [done|by constructor|lia].
    + rewrite app_assoc in Hb. apply app_inj_tail in Hb as [Hb ->].
      destruct (IH b1 b2 Hb) as (a1 & a2 & m & -> & ? & ?).
      exists a1, (a2 ++ [c])%list, m. rewrite app_assoc. split_and!; [done..|lia].
Qed.
End Scripts.

(** ** The integer table holds least costs *)

Section Table.
Context (gap : Z) (sub : Z → Z → Z).
Hypothesis gap_nonneg : (0 <= gap)%Z.
Hypothesis sub_nonneg : ∀ c d, (0 <= sub c d)%Z.
Context (len : nat → Z) (len_eq : ∀ n, len n = (gap * Z.of_nat n)%Z).
Abbreviation least := (least gap sub).
Abbreviation row := (row_loop Z.ltb Z.add gap sub).

Lemma len_nil_l b : least [] b (len (length b)).
Proof. rewrite len_eq. apply least_nil_l. Qed.
Lemma len_nil_r a : least a [] (len (length a)).
Proof. rewrite len_eq. apply least_nil_r. Qed.

(** [column] holds the costs for the prefixes of [pre ++ r1] beyond [pre]. *)
Inductive is_row (b : list Z) : list Z → list Z → list Z → Prop :=
| row_nil pre : is_row b pre [] []
| row_cons pre c r1 v column :
    least (pre ++ [c]) b v → is_row b (pre ++ [c]) r1 column → is_row b pre (c :: r1) (v :: column).

Lemma column0_row pre r1 :
  is_row [] pre r1 (len <$> seq (S (length pre)) (length r1)).
Proof.
  revert pre. induction r1 as [|c r1 IH]; intros pre; cbn; constructor.
  - pose proof (len_nil_r (pre ++ [c])%list) as Hl.
    rewrite length_app in Hl. cbn in Hl. by rewrite Nat.add_1_r in Hl.
  - specialize (IH (pre ++ [c])%list). rewrite length_app in IH. cbn in IH.
    by rewrite Nat.add_1_r in IH.
Qed.

Lemma row_loop_row b d pre r1 column prev lastkey :
  is_row b pre r1 column → least pre (b ++ [d])%list prev → least pre b lastkey →
  is_row (b ++ [d])%list pre r1 (row r1 d column prev lastkey).
Proof.
  intros Hr. revert prev lastkey.
  induction Hr as [pre|pre c r1 v column Hv Hr IH]; intros prev lastkey Hp Hl; [constructor|].
  cbn [row_loop]. constructor; [|apply IH; [|done]]; by apply least_step.
Qed.

Lemma is_row_last b pre r1 column :
  is_row b pre r1 column → r1 ≠ [] → least (pre ++ r1)%list b (default (len 0) (last column)).
Proof.
  induction 1 as [pre|pre c r1 v column Hv Hr IH]; intros Hne; [done|].
  destruct r1 as [|c' r1].
  - inversion Hr; subst. by cbn.
  - inversion Hr; subst. rewrite last_cons_cons, cons_middle, app_assoc. by apply IH.
Qed.

Lemma rows_loop_row b r1 r2 column :
  is_row b [] r1 column →
  is_row (b ++ r2)%list [] r1 (rows_loop Z.ltb Z.add gap len sub r1 r2 (S (length b)) column).
Proof.
  revert b column. induction r2 as [|d r2 IH]; intros b column Hr; cbn [rows_loop].
  { by rewrite app_nil_r. }
  rewrite cons_middle, app_assoc. specialize (IH (b ++ [d])%list).
  rewrite length_app, Nat.add_1_r in IH. apply IH. apply row_loop_row; [done| |].
  - pose proof (len_nil_l (b ++ [d])%list) as Hl.
    by rewrite length_app, Nat.add_1_r in Hl.
  - cbn [Nat.sub]. rewrite Nat.sub_0_r. apply len_nil_l.
Qed.

Lemma distance_least r1 r2 : least r1 r2 (distance Z.ltb Z.add gap len sub r1 r2).
Proof.
  unfold distance. destruct r1 as [|c r1]; [apply len_nil_l|].
  destruct r2 as [|d r2]; [apply len_nil_r|]. cbn [length Nat.eqb].
  unfold last_cell. apply (is_row_last _ []); [|done].
  apply (rows_loop_row []). apply (column0_row []).
Qed.

(** The least costs of a row bound the costs of everything below it. *)
Lemma row_min_le x column v :
  (v = len x ∨ v ∈ column) → (row_min Z.ltb len x column <= v)%Z.
Proof.
  unfold row_min. generalize (len x) as m. revert v.
  induction column as [|w column IH]; intros v m Hv; cbn.
  - destruct Hv as [->|Hv]; [lia|by apply elem_of_nil in Hv].
  - set (m' := if (w <? m)%Z then w else m). assert (m' <= w ∧ m' <= m)%Z as [Hw Hm].
    { subst m'. destruct (Z.ltb_spec w m); lia. }
    pose proof (IH m' m' (or_introl eq_refl)) as H0.
    destruct Hv as [->|[->|Hv]%elem_of_cons]; [lia|lia|]. apply IH. by right.
Qed.
Lemma is_row_prefix b pre r1 column a1 a2 :
  is_row b pre r1 column → r1 = (a1 ++ a2)%list → a1 ≠ [] →
  ∃ v, v ∈ column ∧ least (pre ++ a1)%list b v.
Proof.
  intros Hr. revert a1. induction Hr as [pre|pre c r1 v column Hv Hr IH]; intros a1 Ha Hne.
  { by destruct a1. }
  destruct a1 as [|c' a1]; [done|]. injection Ha as <- Ha. destruct a1 as [|c' a1].
  - exists v. split; [by left|done].
  - destruct (IH (c' :: a1) Ha) as (w & Hw & Hl); [done|].
    exists w. split; [by right|]. by rewrite cons_middle, app_assoc.
Qed.
Lemma row_min_bound b r1 column r2 n :
  is_row b [] r1 column → script gap sub r1 (b ++ r2)%list n →
  (row_min Z.ltb len (length b) column <= n)%Z.
Proof.
  intros Hr Hs. edestruct script_prefix as (a1 & a2 & m & Ha & Hm & Hle); [done..|].
  destruct (decide (a1 = [])) as [->|Hne].
  - apply script_nil_l in Hm as ->. etrans; [apply row_min_le; by left|]. rewrite len_eq. done.
  - destruct (is_row_prefix b [] r1 column a1 a2 Hr Ha Hne) as (v & Hv & [_ Hl]).
    specialize (Hl _ Hm). etrans; [apply row_min_le; by right|]. lia.
Qed.

Lemma rows_capped_spec b r1 r2 column limit n :
  is_row b [] r1 column → r1 ≠ [] → least r1 (b ++ r2)%list n →
  rows_capped Z.ltb Z.add gap len sub r1 r2 (S (length b)) column limit =
  if (limit <? n)%Z then (limit + gap)%Z else n.
Proof.
  intros Hr Hne. revert b column Hr. induction r2 as [|d r2 IH]; intros b column Hr Hn; cbn [rows_capped].
  - rewrite app_nil_r in Hn. assert (last_cell len column = n) as ->; [|done].
    pose proof (is_row_last b [] r1 column Hr Hne) as [H1 H2]. destruct Hn as [H3 H4].
    specialize (H2 _ H3). specialize (H4 _ H1). unfold last_cell. lia.
  - rewrite cons_middle, app_assoc in Hn.
    assert (is_row (b ++ [d])%list [] r1
      (row r1 d column (len (S (length b))) (len (S (length b) - 1)))) as Hr'.
    { apply row_loop_row; [done| |].
      - pose proof (len_nil_l (b ++ [d])%list) as Hl.
        by rewrite length_app, Nat.add_1_r in Hl.
      - cbn [Nat.sub]. rewrite Nat.sub_0_r. apply len_nil_l. }
    specialize (IH (b ++ [d])%list _ Hr' Hn). rewrite length_app, Nat.add_1_r in IH.
    destruct (Z.ltb_spec limit (row_min Z.ltb len (S (length b))
      (row r1 d column (len (S (length b))) (len (S (length b) - 1))))) as [Hlt|_]; [|exact IH].
    destruct Hn as [Hn _]. pose proof (row_min_bound _ r1 _ r2 n Hr' Hn) as Hb.
    rewrite length_app, Nat.add_1_r in Hb. by replace (limit <? n)%Z with true by (symmetry; apply Z.ltb_lt; lia).
Qed.

Lemma distance_capped_spec r1 r2 limit n :
  least r1 r2 n →
  distance_capped Z.ltb Z.add gap len sub r1 r2 limit =
  if (limit <? n)%Z && negb (Nat.eqb (length r1) 0) && negb (Nat.eqb (length r2) 0)
  then (limit + gap)%Z else n.
Proof.
  intros Hn. unfold distance_capped. destruct r1 as [|c r1].
  { destruct Hn as [->%script_nil_l _]. cbn [length Nat.eqb negb]. by rewrite andb_false_r, len_eq. }
  destruct r2 as [|d r2].
  { destruct Hn as [->%script_nil_r _]. cbn [length Nat.eqb negb]. by rewrite !andb_false_r, len_eq. }
  cbn [length Nat.eqb negb]. rewrite !andb_true_r.
  apply (rows_capped_spec [] (c :: r1) (d :: r2)); [apply (column0_row [])|done|done].
Qed.
End Table.

(** ** The integer functions *)

Lemma rune_differs_nonneg c d : (0 <= rune_differs c d)%Z.
Proof. unfold rune_differs. by case_match. Qed.
Lemma Levenshtein_least s1 s2 : least 1 rune_differs (runes s1) (runes s2) (LevenshteinDistance s1 s2).
Proof. apply distance_least; first [apply rune_differs_nonneg|intros; lia]. Qed.
Lemma capped_distance s1 s2 limit :
  LevenshteinDistanceCapped s1 s2 limit =
  if (limit <? LevenshteinDistance s1 s2)%Z && negb (Nat.eqb (length (runes s1)) 0)
     && negb (Nat.eqb (length (runes s2)) 0)
  then (limit + 1)%Z else LevenshteinDistance s1 s2.
Proof.
  apply distance_capped_spec;
    first [apply rune_differs_nonneg|apply Levenshtein_least|intros; lia].
Qed.
Lemma script_zero a b n : script 1 rune_differs a b n → n = 0%Z → a = b.
Proof.
  intros Hs. induction Hs as [|a b n c Hs _|a b n d Hs _|a b n c d Hs IH]; intros Hn; [done|..];
    pose proof (script_nonneg 1 rune_differs ltac:(lia) rune_differs_nonneg _ _ _ Hs) as H0; [lia|lia|].
  revert Hn. unfold rune_differs. destruct (Z.eqb_spec c d) as [->|]; [|lia].
  intros Hn. by rewrite IH by lia.
Qed.

(** ** The float functions

    Cells are numbers of halves; up to [bound] of them, the float operations of
    the loops are exact. *)

Definition bound : Z := 2002.
Abbreviation within k := (0 <= k <= bound)%Z.

#[export] Instance spec_float_eq_dec : EqDecision spec_float.
Proof. solve_decision. Defined.
Definition half_entry (k : Z) : bool :=
  forallb (λ m, bool_decide (f_add (half k) (half m) = half (k + m))) [0; 1; 2]%Z
  && f_lt (half k) (half (k + 1)) && bool_decide (f_len (Z.to_nat k) = half (2 * k)).
(** [half_entry] from [k] on, [n] times. *)
Fixpoint half_table (n : nat) (k : Z) : bool :=
  match n with 0 => true | S n => half_entry k && half_table n (k + 1) end.
Lemma half_table_ok : half_table (Z.to_nat 2005) 0 = true.
Proof. vm_compute. reflexivity. Qed.
Lemma half_table_at n k j :
  half_table n k = true → (k <= j < k + Z.of_nat n)%Z → half_entry j = true.
Proof.
  revert k. induction n as [|n IH]; intros k Ht Hj; [lia|]. cbn [half_table] in Ht.
  apply andb_true_iff in Ht as [He Ht].
  destruct (decide (j = k)) as [->|Hne]; [done|]. apply (IH (k + 1)%Z); [done|lia].
Qed.

Lemma half_facts k : (0 <= k <= bound + 2)%Z →
  (∀ m, (0 <= m <= 2)%Z → f_add (half k) (half m) = half (k + m))
  ∧ f_lt (half k) (half (k + 1)) = true ∧ f_len (Z.to_nat k) = half (2 * k).
Proof.
  intros Hk. pose proof (half_table_at _ _ k half_table_ok) as He.
  rewrite Z2Nat.id in He by lia. specialize (He ltac:(unfold bound in Hk; lia)).
  unfold half_entry in He. rewrite !andb_true_iff, forallb_forall in He.
  destruct He as [[Ha Hl] Hf]. apply bool_decide_eq_true in Hf. split_and!; [|done..].
  intros m Hm. apply (bool_decide_eq_true (f_add (half k) (half m) = half (k + m))), Ha.
  assert (m = 0 ∨ m = 1 ∨ m = 2)%Z as [->|[->| ->]] by lia; cbn; auto.
Qed.
Lemma half_add k m : (0 <= k <= bound + 2)%Z → (0 <= m <= 2)%Z →
  f_add (half k) (half m) = half (k + m).
Proof. intros Hk. by destruct (half_facts k Hk) as (? & _); auto. Qed.
Lemma f_lt_irrefl x : f_lt x x = false.
Proof.
  unfold f_lt, SFltb, SFcompare. destruct x as [[]|[]| |[] m e]; try done;
    rewrite Z.compare_refl; change (Pos.compare_cont Eq m m) with (Pos.compare m m);
    by rewrite Pos.compare_refl.
Qed.
Lemma half_lt_mono k n : (0 <= k)%Z → (k + Z.of_nat (S n) <= bound + 3)%Z →
  f_lt (half k) (half (k + Z.of_nat (S n))) = true.
Proof.
  intros Hk. induction n as [|n IH]; intros Hn.
  - by destruct (half_facts k) as (_ & ? & _); [lia|].
  - eapply f_lt_trans; [apply IH; lia|].
    replace (k + Z.of_nat (S (S n)))%Z with (k + Z.of_nat (S n) + 1)%Z by lia.
    by destruct (half_facts (k + Z.of_nat (S n))) as (_ & ? & _); [lia|].
Qed.
Lemma half_lt a b : (0 <= a <= bound + 3)%Z → (0 <= b <= bound + 3)%Z →
  f_lt (half a) (half b) = (a <? b)%Z.
Proof.
  assert (∀ a b, (0 <= a < b)%Z → (b <= bound + 3)%Z → f_lt (half a) (half b) = true) as Hlt.
  { intros x y Hx Hy. replace y with (x + Z.of_nat (S (Z.to_nat (y - x - 1))))%Z by lia.
    apply half_lt_mono; lia. }
  intros Ha Hb. destruct (Z.ltb_spec a b) as [H|H]; [apply Hlt; lia|].
  destruct (decide (a = b)) as [->|Hne]; [apply f_lt_irrefl|].
  destruct (f_lt (half a) (half b)) eqn:He; [|done].
  rewrite <-(f_lt_irrefl (half a)). symmetry. eapply f_lt_trans; [done|]. apply Hlt; lia.
Qed.
Lemma half_min3 a b c :
  (0 <= a <= bound + 3)%Z → (0 <= b <= bound + 3)%Z → (0 <= c <= bound + 3)%Z →
  min3 f_lt (half a) (half b) (half c) = half (min3 Z.ltb a b c).
Proof. intros. unfold min3. rewrite !half_lt by lia. by repeat case_match. Qed.

Section Simulation.
Context (sub : Z → Z → Z) (sub_range : ∀ c d, (0 <= sub c d <= 2)%Z).
Let len (n : nat) : Z := (2 * Z.of_nat n)%Z.
Abbreviation fsub := (λ a b, half (sub a b)).
Abbreviation small := (Forall (λ k, within k)).

Lemma row_sim r1 d column prev lastkey :
  small column → (0 <= prev)%Z → (prev + 2 * Z.of_nat (length r1) <= bound)%Z → within lastkey →
  row_loop f_lt f_add f_one fsub r1 d (half <$> column) (half prev) (half lastkey)
  = half <$> row_loop Z.ltb Z.add 2%Z sub r1 d column prev lastkey
  ∧ small (row_loop Z.ltb Z.add 2%Z sub r1 d column prev lastkey).
Proof.
  revert column prev lastkey. induction r1 as [|c r1 IH]; intros column prev lastkey Hc H0 Hb Hl.
  { split; [done|constructor]. }
  destruct column as [|old column]; [split; [done|constructor]|].
  apply Forall_cons in Hc as [Ho Hc]. cbn [row_loop fmap list_fmap]. cbn [length] in Hb.
  specialize (sub_range c d). set (v := min3 Z.ltb _ _ _).
  assert (min3 f_lt (f_add (half old) f_one) (f_add (half prev) f_one)
            (f_add (half lastkey) (half (sub c d))) = half v) as ->.
  { change f_one with (half 2).
    rewrite !half_add by lia. apply half_min3; lia. }
  assert (0 <= v <= prev + 2)%Z as Hv by (subst v; rewrite min3_Z; lia).
  destruct (IH column v old) as [-> Hs]; [done|lia..|].
  split; [done|]. constructor; [lia|done].
Qed.
Lemma f_len_half n : (2 * Z.of_nat n <= bound)%Z → f_len n = half (len n).
Proof.
  intros Hn. destruct (half_facts (Z.of_nat n)) as (_ & _ & He); [lia|].
  by rewrite Nat2Z.id in He.
Qed.
Lemma column0_sim r1 : (2 * Z.of_nat (length r1) <= bound)%Z →
  column0 f_len r1 = half <$> column0 len r1 ∧ small (column0 len r1).
Proof.
  intros Hr. unfold column0. rewrite <-list_fmap_compose. split.
  - apply list_fmap_ext. intros i n Hn%list_elem_of_lookup_2%elem_of_seq. apply f_len_half. lia.
  - apply Forall_fmap, Forall_forall. intros n Hn%elem_of_seq. unfold compose, len. lia.
Qed.
Lemma last_cell_sim column : last_cell f_len (half <$> column) = half (last_cell len column).
Proof. unfold last_cell. rewrite fmap_last. by destruct (last column). Qed.

Lemma rows_sim r1 r2 x column :
  small column → 1 ≤ x → (2 * Z.of_nat (x + length r2 + length r1) <= bound)%Z →
  rows_loop f_lt f_add f_one f_len fsub r1 r2 x (half <$> column)
  = half <$> rows_loop Z.ltb Z.add 2%Z len sub r1 r2 x column.
Proof.
  revert x column. induction r2 as [|d r2 IH]; intros x column Hc Hx Hb; [done|].
  cbn [rows_loop]. cbn [length] in Hb. rewrite !f_len_half by lia.
  destruct (row_sim r1 d column (len x) (len (x - 1))) as [-> Hs]; [done|unfold len; lia..|].
  apply IH; [done|lia..].
Qed.

Lemma row_min_sim x column : small column → (2 * Z.of_nat x <= bound)%Z →
  row_min f_lt f_len x (half <$> column) = half (row_min Z.ltb len x column)
  ∧ within (row_min Z.ltb len x column).
Proof.
  intros Hc Hx. unfold row_min. rewrite f_len_half by done.
  assert (within (len x)) as Hm by (unfold len; lia). revert Hm. generalize (len x) as m.
  induction Hc as [|v column Hv Hc IH]; intros m Hm; [done|]. cbn.
  rewrite half_lt by lia. case_match; by apply IH.
Qed.

Lemma rows_capped_sim r1 r2 x column limit :
  small column → 1 ≤ x → (2 * Z.of_nat (x + length r2 + length r1) <= bound)%Z → within limit →
  rows_capped f_lt f_add f_one f_len fsub r1 r2 x (half <$> column) (half limit)
  = half (rows_capped Z.ltb Z.add 2%Z len sub r1 r2 x column limit).
Proof.
  intros Hc Hx Hb Hl. revert x column Hc Hx Hb.
  assert (f_add (half limit) (half 2) = half (limit + 2)) as Hadd by (apply half_add; lia).
  induction r2 as [|d r2 IH]; intros x column Hc Hx Hb; cbn [rows_capped].
  - rewrite last_cell_sim. change f_one with (half 2). rewrite Hadd, half_lt; [by case_match|lia|].
    unfold last_cell. destruct (last column) as [v|] eqn:Hv; cbn; [|unfold bound, len; lia].
    apply last_Some_elem_of in Hv. rewrite Forall_forall in Hc. specialize (Hc v Hv). lia.
  - cbn [length] in Hb. rewrite !f_len_half by lia.
    destruct (row_sim r1 d column (len x) (len (x - 1))) as [-> Hs]; [done|unfold len; lia..|].
    destruct (row_min_sim x _ Hs) as [-> Hm]; [lia|]. rewrite half_lt by lia.
    change f_one with (half 2). rewrite Hadd. case_match; [done|]. apply IH; [done|lia..].
Qed.

Lemma distance_sim r1 r2 : (Z.of_nat (length r1 + length r2) <= 1000)%Z →
  distance f_lt f_add f_one f_len fsub r1 r2 = half (distance Z.ltb Z.add 2%Z len sub r1 r2)
  ∧ ∀ limit, within limit →
    distance_capped f_lt f_add f_one f_len fsub r1 r2 (half limit)
    = half (distance_capped Z.ltb Z.add 2%Z len sub r1 r2 limit).
Proof.
  intros Hr. unfold distance, distance_capped, bound in *.
  destruct (column0_sim r1) as [-> Hs]; [unfold bound; lia|].
  split; [|intros limit Hl]; (destruct (Nat.eqb _ 0); [apply f_len_half; unfold bound; lia|]);
    (destruct (Nat.eqb _ 0); [apply f_len_half; unfold bound; lia|]).
  - rewrite rows_sim; [apply last_cell_sim|done|lia|unfold bound; lia].
  - apply rows_capped_sim; [done|lia|unfold bound; lia|done].
Qed.
End Simulation.

Lemma least_le gap sub a b n : least gap sub a b n →
  (n <= gap * Z.of_nat (length a + length b))%Z.
Proof.
  intros [_ Hn]. apply Hn. clear n Hn. induction b as [|d b IH] using rev_ind.
  - rewrite Nat.add_0_r. apply least_nil_r.
  - replace (gap * _)%Z with (gap * Z.of_nat (length a + length b) + gap)%Z
      by (rewrite length_app; cbn; lia). by constructor.
Qed.
Lemma least_unique gap sub a b n m : least gap sub a b n → least gap sub a b m → n = m.
Proof. intros [H1 H2] [H3 H4]. specialize (H2 _ H3). specialize (H4 _ H1). lia. Qed.

Section WeightedFacts.
Context `{RuneTables}.
Lemma half_incr_range c d : (0 <= half_incr c d <= 2)%Z.
Proof. unfold half_incr. case_match; [lia|]. cbv zeta. case_match; lia. Qed.

(** The weighted distances in halves. *)
Lemma weighted_halves s1 s2 : (Z.of_nat (length (runes s1) + length (runes s2)) <= 1000)%Z →
  ∃ n, least 2 half_incr (runes s1) (runes s2) n ∧ (0 <= n <= 2000)%Z
    ∧ WeightedLevenshteinDistance s1 s2 = half n
    ∧ ∀ limit, within limit → WeightedLevenshteinDistanceCapped s1 s2 (half limit) =
        half (if (limit <? n)%Z && negb (Nat.eqb (length (runes s1)) 0)
                 && negb (Nat.eqb (length (runes s2)) 0) then (limit + 2)%Z else n).
Proof.
  intros Hl. set (len := λ n : nat, (2 * Z.of_nat n)%Z).
  set (n := distance Z.ltb Z.add 2%Z len half_incr (runes s1) (runes s2)).
  assert (least 2 half_incr (runes s1) (runes s2) n) as Hn.
  { apply distance_least; first [intros; apply half_incr_range|intros; subst len; lia]. }
  destruct (distance_sim half_incr half_incr_range (runes s1) (runes s2) Hl) as [Hd Hc].
  exists n. split_and!; [done| |pose proof (least_le _ _ _ _ _ Hn); lia|done|].
  - destruct Hn as [Hs _]. eapply script_nonneg; [|intros; apply half_incr_range|done]. lia.
  - intros limit Hlim. unfold WeightedLevenshteinDistanceCapped. rewrite Hc by done. f_equal.
    apply distance_capped_spec; first [done|intros; apply half_incr_range|intros; subst len; lia].
Qed.
End WeightedFacts.

Lemma runes_empty s : Nat.eqb (length (runes s)) 0 = String.eqb s "".
Proof.
  destruct s as [|c s]; [done|]. unfold runes. cbn. by destruct (decode_rune _ _).
Qed.

(** ** The theorems *)

(** The rolling-column loop computes the edit distance of the two rune
    sequences: some script of single-rune deletions, insertions and replacements
    has this cost, none is cheaper, and the distance is zero exactly for equal
    sequences. *)
Theorem levenshtein_correct s1 s2 :
  script 1 rune_differs (runes s1) (runes s2) (LevenshteinDistance s1 s2)
  ∧ (∀ m, script 1 rune_differs (runes s1) (runes s2) m → (LevenshteinDistance s1 s2 <= m)%Z)
  ∧ (LevenshteinDistance s1 s2 = 0%Z ↔ runes s1 = runes s2).
Proof.
  destruct (Levenshtein_least s1 s2) as [Hs Hm]. split_and!; [done..|]. split.
  - by apply script_zero.
  - intros He. pose proof (script_nonneg 1 rune_differs ltac:(lia) rune_differs_nonneg _ _ _ Hs).
    enough (script 1 rune_differs (runes s1) (runes s2) 0) as H0 by (specialize (Hm _ H0); lia).
    rewrite He. clear. induction (runes s2) as [|c b IH] using rev_ind; [constructor|].
    replace 0%Z with (0 + rune_differs c c)%Z by (unfold rune_differs; by rewrite Z.eqb_refl).
    by constructor.
Qed.

(** Stopping at a row whose minimum exceeds the limit loses nothing: the capped
    function returns the distance itself whenever that is within the limit, and
    otherwise a value above the limit, namely limit + 1, except that with an empty
    argument it returns the full distance. *)
Theorem capped_exact s1 s2 limit :
  let d := LevenshteinDistance s1 s2 in
  let c := LevenshteinDistanceCapped s1 s2 limit in
  (c <= limit ↔ d <= limit)%Z ∧ ((d <= limit)%Z → c = d)
  ∧ ((limit < d)%Z → c = if String.eqb s1 "" || String.eqb s2 "" then d else (limit + 1)%Z).
Proof.
  cbv zeta. rewrite capped_distance. rewrite !runes_empty.
  destruct (Z.ltb_spec limit (LevenshteinDistance s1 s2)); cbn [andb]; [|split_and!; lia].
  destruct (String.eqb s1 ""), (String.eqb s2 ""); cbn [negb andb orb]; split_and!; lia.
Qed.

(** On strings of at most 1000 runes together the keyboard-weighted distance in
    binary64 is exactly half the least cost of a script with gaps of two halves and
    replacements of zero (equal), one (neighbouring keys) or two halves; and the
    capped variant gives the same answer to every comparison with its limit. *)
Theorem weighted_exact `{RuneTables} s1 s2 limit :
  (Z.of_nat (length (runes s1) + length (runes s2)) <= 1000)%Z → (0 <= limit <= 2000)%Z →
  let w := WeightedLevenshteinDistance s1 s2 in
  let c := WeightedLevenshteinDistanceCapped s1 s2 (half limit) in
  (∃ n, w = half n ∧ least 2 half_incr (runes s1) (runes s2) n)
  ∧ f_lt (half limit) c = f_lt (half limit) w
  ∧ (f_lt (half limit) w = false → c = w).
Proof.
  intros Hl Hlim. cbv zeta. destruct (weighted_halves s1 s2 Hl) as (n & Hn & Hr & -> & Hc).
  rewrite Hc by (unfold bound; lia). split; [by exists n|].
  rewrite !(half_lt limit) by (unfold bound; repeat case_match; lia).
  destruct (Z.ltb_spec limit n); cbn [andb]; [|split; [by apply Z.ltb_ge|done]].
  split; [|done]. apply Z.ltb_lt. case_match; lia.
Qed.

Module Examples.
#[local] Instance ex_runes : RuneTables := {| rune_lower r := r; rune_space _ := false |}.
Example kitten : LevenshteinDistance "kitten" "sitting" = 3%Z
  ∧ LevenshteinDistanceCapped "kitten" "sitting" 1 = 2%Z
  ∧ LevenshteinDistanceCapped "" "sitting" 1 = 7%Z
  ∧ WeightedLevenshteinDistance "goigle" "google" = half 1.
Proof. by vm_compute. Qed.
Lemma weighted_exact_witness :
  let w := WeightedLevenshteinDistance "paypsl" "paypal" in
  let c := WeightedLevenshteinDistanceCapped "paypsl" "paypal" (half 3) in
  (∃ n, w = half n ∧ least 2 half_incr (runes "paypsl") (runes "paypal") n)
  ∧ f_lt (half 3) c = f_lt (half 3) w
  ∧ (f_lt (half 3) w = false → c = w).
Proof. apply (weighted_exact "paypsl" "paypal" 3); [by vm_compute|lia]. Defined.
End Examples.
