(* ===== verification/Confusables.v ===== *)
(** * Confusable characters: [internal/analysis/confusables_data.go], [brand.go]

    The runes of the string [tr39ConfusablePairs] (a source rune and its ASCII
    skeleton, alternating) and the entries of [homoglyphMap], as code points. *)

From Stdlib Require Import ZArith.
From S2P Require Import Prelude.

#[local] Open Scope Z_scope.

Definition tr39ConfusablePairs : list Z := [
  161; 105; 215; 120; 254; 112; 305; 105; 383; 102; 388; 98; 397; 103; 402; 102; 406; 108; 422; 114; 423; 50; 439; 51;
  444; 53; 445; 115; 447; 112; 448; 108; 540; 51; 546; 56; 547; 56; 567; 106; 588; 114; 593; 97; 609; 103; 611; 121;
  617; 105; 618; 105; 623; 119; 644; 102; 651; 117; 655; 121; 895; 106; 913; 97; 914; 98; 917; 101; 918; 122; 919; 104;
  921; 108; 922; 107; 924; 109; 925; 110; 927; 111; 929; 112; 932; 116; 933; 121; 935; 120; 945; 97; 947; 121; 953; 105;
  957; 118; 959; 111; 961; 112; 963; 111; 965; 117; 978; 121; 988; 102; 1000; 50; 1004; 54; 1005; 111; 1009; 112; 1010; 99;
  1011; 106; 1016; 112; 1017; 99; 1018; 109; 1029; 115; 1030; 108; 1032; 106; 1040; 97; 1042; 98; 1045; 101; 1047; 51; 1050; 107;
  1052; 109; 1053; 104; 1054; 111; 1056; 112; 1057; 99; 1058; 116; 1059; 121; 1061; 120; 1068; 98; 1072; 97; 1073; 54; 1075; 114;
  1077; 101; 1086; 111; 1088; 112; 1089; 99; 1091; 121; 1093; 120; 1096; 119; 1109; 115; 1110; 105; 1112; 106; 1121; 119; 1140; 118;
  1141; 118; 1198; 121; 1199; 121; 1210; 104; 1211; 104; 1213; 101; 1216; 108; 1231; 108; 1248; 51; 1281; 100; 1292; 103; 1306; 113;
  1307; 113; 1308; 119; 1309; 119; 1349; 51; 1357; 117; 1359; 115; 1365; 111; 1377; 119; 1379; 113; 1382; 113; 1392; 104; 1397; 106;
  1400; 110; 1404; 110; 1405; 117; 1409; 103; 1410; 105; 1412; 102; 1413; 111; 1472; 108; 1493; 108; 1496; 118; 1503; 108; 1505; 111;
  1575; 108; 1607; 111; 1633; 108; 1637; 111; 1639; 118; 1726; 111; 1729; 111; 1749; 111; 1777; 108; 1781; 111; 1783; 118; 1984; 111;
  1994; 108; 1995; 111; 1996; 121; 2003; 102; 2005; 98; 2016; 116; 2112; 111; 2404; 108; 2406; 111; 2409; 51; 2534; 111; 2538; 56;
  2541; 57; 2662; 111; 2663; 57; 2666; 56; 2790; 111; 2793; 51; 2819; 56; 2848; 111; 2918; 111; 2920; 57; 3046; 111; 3074; 111;
  3174; 111; 3202; 111; 3302; 111; 3330; 111; 3359; 115; 3360; 111; 3430; 111; 3437; 57; 3458; 111; 3664; 111; 3792; 111; 4100; 99;
  4125; 111; 4160; 111; 4170; 108; 4186; 99; 4281; 104; 4285; 115; 4295; 50; 4301; 122; 4327; 121; 4349; 115; 4351; 111; 4363; 111;
  4540; 111; 4608; 117; 4816; 111; 5024; 100; 5025; 114; 5026; 116; 5029; 105; 5033; 121; 5034; 97; 5035; 106; 5036; 101; 5043; 119;
  5047; 109; 5051; 104; 5053; 121; 5056; 103; 5058; 104; 5059; 122; 5070; 52; 5071; 98; 5074; 114; 5076; 119; 5077; 115; 5081; 118;
  5082; 115; 5086; 108; 5087; 99; 5090; 112; 5094; 107; 5095; 100; 5102; 54; 5107; 103; 5108; 98; 5167; 118; 5196; 117; 5229; 112;
  5231; 100; 5234; 98; 5261; 106; 5290; 108; 5311; 50; 5441; 120; 5500; 104; 5501; 120; 5511; 114; 5551; 98; 5556; 102; 5573; 97;
  5598; 100; 5610; 100; 5616; 109; 5623; 98; 5654; 50; 5741; 120; 5742; 120; 5815; 120; 5825; 108; 5840; 108; 5845; 107; 5846; 109;
  5890; 51; 5930; 55; 5987; 120; 6112; 111; 6725; 111; 6784; 111; 6800; 111; 7146; 111; 7148; 120; 7298; 111; 7299; 99; 7300; 55;
  7317; 51; 7351; 50; 7357; 115; 7359; 111; 7413; 120; 7428; 99; 7439; 111; 7441; 111; 7452; 117; 7456; 118; 7457; 119; 7458; 122;
  7462; 114; 7555; 103; 7564; 121; 7837; 102; 7935; 121; 8450; 99; 8458; 103; 8459; 104; 8460; 104; 8461; 104; 8462; 104; 8464; 108;
  8465; 108; 8466; 108; 8467; 108; 8469; 110; 8473; 112; 8474; 113; 8475; 114; 8476; 114; 8477; 114; 8484; 122; 8488; 122; 8492; 98;
  8493; 99; 8494; 101; 8495; 101; 8496; 101; 8497; 102; 8499; 109; 8500; 111; 8505; 105; 8509; 121; 8517; 100; 8518; 100; 8519; 101;
  8520; 105; 8521; 106; 8544; 108; 8548; 118; 8553; 120; 8556; 108; 8557; 99; 8558; 100; 8559; 109; 8560; 105; 8564; 118; 8569; 120;
  8572; 108; 8573; 99; 8574; 100; 8639; 108; 8739; 108; 8744; 118; 8746; 117; 8868; 116; 8897; 118; 8899; 117; 8959; 101; 9075; 105;
  9076; 112; 9082; 97; 9213; 108; 9474; 108; 9475; 108; 9587; 120; 10201; 116; 10539; 120; 10540; 120; 10722; 119; 10799; 120; 11371; 122;
  11372; 122; 11394; 98; 11397; 114; 11404; 122; 11405; 122; 11406; 104; 11410; 108; 11411; 105; 11412; 107; 11416; 109; 11418; 110; 11420; 51;
  11422; 111; 11423; 111; 11426; 112; 11427; 112; 11428; 99; 11429; 99; 11430; 116; 11432; 121; 11433; 121; 11436; 120; 11453; 119; 11460; 51;
  11466; 57; 11467; 57; 11468; 51; 11470; 112; 11471; 112; 11472; 108; 11474; 54; 11475; 54; 11484; 54; 11565; 122; 11576; 118; 11577; 101;
  11594; 108; 11599; 108; 11604; 111; 11605; 113; 11613; 120; 12295; 111; 12562; 116; 12570; 121; 12615; 111; 19973; 116; 20011; 121; 42192; 98;
  42193; 112; 42194; 100; 42195; 100; 42196; 116; 42198; 103; 42199; 107; 42201; 106; 42202; 99; 42204; 122; 42205; 102; 42207; 109; 42208; 110;
  42209; 108; 42210; 115; 42211; 114; 42214; 118; 42215; 104; 42218; 119; 42219; 120; 42220; 121; 42222; 97; 42224; 101; 42226; 108; 42227; 111;
  42228; 117; 42251; 116; 42307; 54; 42327; 98; 42351; 108; 42358; 115; 42377; 56; 42443; 101; 42564; 50; 42567; 105; 42697; 122; 42719; 118;
  42735; 50; 42801; 115; 42842; 50; 42858; 51; 42862; 57; 42863; 57; 42881; 108; 42904; 102; 42905; 102; 42911; 117; 42923; 51; 42926; 108;
  42930; 106; 42931; 120; 42932; 98; 43002; 119; 43006; 108; 43056; 108; 43214; 108; 43613; 108; 43826; 101; 43829; 102; 43837; 111; 43847; 114;
  43848; 114; 43854; 117; 43858; 117; 43866; 121; 43876; 97; 43893; 105; 43905; 114; 43907; 119; 43923; 122; 43934; 52; 43940; 119; 43945; 118;
  43946; 115; 43951; 99; 43966; 54; 64422; 111; 64423; 111; 64424; 111; 64425; 111; 64426; 111; 64427; 111; 64428; 111; 64429; 111; 65073; 108;
  65165; 108; 65166; 108; 65257; 111; 65258; 111; 65259; 111; 65260; 111; 65296; 111; 65297; 108; 65298; 50; 65299; 51; 65300; 52; 65301; 53;
  65302; 54; 65303; 55; 65304; 56; 65305; 57; 65313; 97; 65314; 98; 65315; 99; 65316; 100; 65317; 101; 65318; 102; 65319; 103; 65320; 104;
  65321; 108; 65322; 106; 65323; 107; 65324; 108; 65325; 109; 65326; 110; 65327; 111; 65328; 112; 65329; 113; 65330; 114; 65331; 115; 65332; 116;
  65333; 117; 65334; 118; 65335; 119; 65336; 120; 65337; 121; 65338; 122; 65345; 97; 65346; 98; 65347; 99; 65348; 100; 65349; 101; 65350; 102;
  65351; 103; 65352; 104; 65353; 105; 65354; 106; 65355; 107; 65356; 108; 65358; 110; 65359; 111; 65360; 112; 65361; 113; 65362; 114; 65363; 115;
  65364; 116; 65365; 117; 65366; 118; 65367; 119; 65368; 120; 65369; 121; 65370; 122; 65372; 108; 65463; 111; 65512; 108; 65918; 102; 65931; 100;
  66178; 98; 66182; 101; 66183; 102; 66186; 108; 66192; 120; 66194; 111; 66197; 112; 66198; 115; 66199; 116; 66208; 97; 66209; 98; 66210; 99;
  66213; 102; 66219; 111; 66224; 109; 66225; 116; 66226; 121; 66228; 120; 66255; 104; 66293; 122; 66305; 98; 66306; 99; 66313; 108; 66319; 111;
  66321; 109; 66325; 116; 66327; 120; 66330; 56; 66332; 98; 66336; 108; 66338; 120; 66564; 111; 66581; 99; 66587; 108; 66592; 115; 66604; 111;
  66621; 99; 66632; 115; 66740; 114; 66754; 111; 66766; 117; 66770; 55; 66794; 111; 66806; 117; 66823; 122; 66830; 108; 66835; 110; 66838; 111;
  66840; 107; 66843; 99; 66845; 118; 66853; 102; 66854; 108; 66855; 120; 67878; 108; 67884; 111; 68627; 120; 68631; 111; 68639; 118; 68640; 121;
  68641; 109; 68670; 108; 68738; 120; 68773; 108; 68802; 120; 68858; 108; 68860; 120; 68871; 111; 69703; 108; 69824; 108; 69924; 111; 69953; 108;
  70085; 108; 70402; 111; 70612; 108; 70725; 56; 70731; 108; 70864; 111; 71109; 108; 71233; 108; 71430; 118; 71434; 119; 71438; 119; 71439; 119;
  71840; 118; 71842; 102; 71843; 108; 71844; 121; 71846; 101; 71849; 122; 71852; 57; 71854; 101; 71855; 52; 71858; 108; 71861; 111; 71864; 117;
  71867; 53; 71868; 116; 71872; 118; 71873; 115; 71874; 102; 71875; 105; 71876; 121; 71878; 55; 71880; 111; 71882; 51; 71884; 57; 71893; 54;
  71894; 57; 71895; 111; 71896; 117; 71900; 121; 71904; 111; 71909; 122; 71910; 119; 71913; 99; 71916; 120; 71919; 119; 71922; 99; 72380; 122;
  72382; 110; 72769; 108; 73178; 108; 73184; 111; 73185; 108; 92609; 57; 92670; 56; 92697; 114; 92886; 115; 92905; 111; 93539; 108; 93826; 52;
  93834; 55; 93866; 108; 93878; 98; 93960; 118; 93962; 116; 93974; 108; 93992; 108; 94005; 114; 94010; 115; 94011; 51; 94016; 97; 94018; 117;
  94019; 121; 117974; 97; 117975; 98; 117976; 99; 117977; 100; 117978; 101; 117979; 102; 117980; 103; 117981; 104; 117982; 108; 117983; 106; 117984; 107;
  117985; 108; 117986; 109; 117987; 110; 117988; 111; 117989; 112; 117990; 113; 117991; 114; 117992; 115; 117993; 116; 117994; 117; 117995; 118; 117996; 119;
  117997; 120; 117998; 121; 117999; 122; 118000; 111; 118001; 108; 118002; 50; 118003; 51; 118004; 52; 118005; 53; 118006; 54; 118007; 55; 118008; 56;
  118009; 57; 118524; 118; 119040; 108; 119092; 99; 119294; 55; 119302; 51; 119303; 98; 119308; 119; 119309; 118; 119314; 55; 119315; 102; 119318; 114;
  119338; 108; 119667; 116; 119671; 108; 119808; 97; 119809; 98; 119810; 99; 119811; 100; 119812; 101; 119813; 102; 119814; 103; 119815; 104; 119816; 108;
  119817; 106; 119818; 107; 119819; 108; 119820; 109; 119821; 110; 119822; 111; 119823; 112; 119824; 113; 119825; 114; 119826; 115; 119827; 116; 119828; 117;
  119829; 118; 119830; 119; 119831; 120; 119832; 121; 119833; 122; 119834; 97; 119835; 98; 119836; 99; 119837; 100; 119838; 101; 119839; 102; 119840; 103;
  119841; 104; 119842; 105; 119843; 106; 119844; 107; 119845; 108; 119847; 110; 119848; 111; 119849; 112; 119850; 113; 119851; 114; 119852; 115; 119853; 116;
  119854; 117; 119855; 118; 119856; 119; 119857; 120; 119858; 121; 119859; 122; 119860; 97; 119861; 98; 119862; 99; 119863; 100; 119864; 101; 119865; 102;
  119866; 103; 119867; 104; 119868; 108; 119869; 106; 119870; 107; 119871; 108; 119872; 109; 119873; 110; 119874; 111; 119875; 112; 119876; 113; 119877; 114;
  119878; 115; 119879; 116; 119880; 117; 119881; 118; 119882; 119; 119883; 120; 119884; 121; 119885; 122; 119886; 97; 119887; 98; 119888; 99; 119889; 100;
  119890; 101; 119891; 102; 119892; 103; 119894; 105; 119895; 106; 119896; 107; 119897; 108; 119899; 110; 119900; 111; 119901; 112; 119902; 113; 119903; 114;
  119904; 115; 119905; 116; 119906; 117; 119907; 118; 119908; 119; 119909; 120; 119910; 121; 119911; 122; 119912; 97; 119913; 98; 119914; 99; 119915; 100;
  119916; 101; 119917; 102; 119918; 103; 119919; 104; 119920; 108; 119921; 106; 119922; 107; 119923; 108; 119924; 109; 119925; 110; 119926; 111; 119927; 112;
  119928; 113; 119929; 114; 119930; 115; 119931; 116; 119932; 117; 119933; 118; 119934; 119; 119935; 120; 119936; 121; 119937; 122; 119938; 97; 119939; 98;
  119940; 99; 119941; 100; 119942; 101; 119943; 102; 119944; 103; 119945; 104; 119946; 105; 119947; 106; 119948; 107; 119949; 108; 119951; 110; 119952; 111;
  119953; 112; 119954; 113; 119955; 114; 119956; 115; 119957; 116; 119958; 117; 119959; 118; 119960; 119; 119961; 120; 119962; 121; 119963; 122; 119964; 97;
  119966; 99; 119967; 100; 119970; 103; 119973; 106; 119974; 107; 119977; 110; 119978; 111; 119979; 112; 119980; 113; 119982; 115; 119983; 116; 119984; 117;
  119985; 118; 119986; 119; 119987; 120; 119988; 121; 119989; 122; 119990; 97; 119991; 98; 119992; 99; 119993; 100; 119995; 102; 119997; 104; 119998; 105;
  119999; 106; 120000; 107; 120001; 108; 120003; 110; 120005; 112; 120006; 113; 120007; 114; 120008; 115; 120009; 116; 120010; 117; 120011; 118; 120012; 119;
  120013; 120; 120014; 121; 120015; 122; 120016; 97; 120017; 98; 120018; 99; 120019; 100; 120020; 101; 120021; 102; 120022; 103; 120023; 104; 120024; 108;
  120025; 106; 120026; 107; 120027; 108; 120028; 109; 120029; 110; 120030; 111; 120031; 112; 120032; 113; 120033; 114; 120034; 115; 120035; 116; 120036; 117;
  120037; 118; 120038; 119; 120039; 120; 120040; 121; 120041; 122; 120042; 97; 120043; 98; 120044; 99; 120045; 100; 120046; 101; 120047; 102; 120048; 103;
  120049; 104; 120050; 105; 120051; 106; 120052; 107; 120053; 108; 120055; 110; 120056; 111; 120057; 112; 120058; 113; 120059; 114; 120060; 115; 120061; 116;
  120062; 117; 120063; 118; 120064; 119; 120065; 120; 120066; 121; 120067; 122; 120068; 97; 120069; 98; 120071; 100; 120072; 101; 120073; 102; 120074; 103;
  120077; 106; 120078; 107; 120079; 108; 120080; 109; 120081; 110; 120082; 111; 120083; 112; 120084; 113; 120086; 115; 120087; 116; 120088; 117; 120089; 118;
  120090; 119; 120091; 120; 120092; 121; 120094; 97; 120095; 98; 120096; 99; 120097; 100; 120098; 101; 120099; 102; 120100; 103; 120101; 104; 120102; 105;
  120103; 106; 120104; 107; 120105; 108; 120107; 110; 120108; 111; 120109; 112; 120110; 113; 120111; 114; 120112; 115; 120113; 116; 120114; 117; 120115; 118;
  120116; 119; 120117; 120; 120118; 121; 120119; 122; 120120; 97; 120121; 98; 120123; 100; 120124; 101; 120125; 102; 120126; 103; 120128; 108; 120129; 106;
  120130; 107; 120131; 108; 120132; 109; 120134; 111; 120138; 115; 120139; 116; 120140; 117; 120141; 118; 120142; 119; 120143; 120; 120144; 121; 120146; 97;
  120147; 98; 120148; 99; 120149; 100; 120150; 101; 120151; 102; 120152; 103; 120153; 104; 120154; 105; 120155; 106; 120156; 107; 120157; 108; 120159; 110;
  120160; 111; 120161; 112; 120162; 113; 120163; 114; 120164; 115; 120165; 116; 120166; 117; 120167; 118; 120168; 119; 120169; 120; 120170; 121; 120171; 122;
  120172; 97; 120173; 98; 120174; 99; 120175; 100; 120176; 101; 120177; 102; 120178; 103; 120179; 104; 120180; 108; 120181; 106; 120182; 107; 120183; 108;
  120184; 109; 120185; 110; 120186; 111; 120187; 112; 120188; 113; 120189; 114; 120190; 115; 120191; 116; 120192; 117; 120193; 118; 120194; 119; 120195; 120;
  120196; 121; 120197; 122; 120198; 97; 120199; 98; 120200; 99; 120201; 100; 120202; 101; 120203; 102; 120204; 103; 120205; 104; 120206; 105; 120207; 106;
  120208; 107; 120209; 108; 120211; 110; 120212; 111; 120213; 112; 120214; 113; 120215; 114; 120216; 115; 120217; 116; 120218; 117; 120219; 118; 120220; 119;
  120221; 120; 120222; 121; 120223; 122; 120224; 97; 120225; 98; 120226; 99; 120227; 100; 120228; 101; 120229; 102; 120230; 103; 120231; 104; 120232; 108;
  120233; 106; 120234; 107; 120235; 108; 120236; 109; 120237; 110; 120238; 111; 120239; 112; 120240; 113; 120241; 114; 120242; 115; 120243; 116; 120244; 117;
  120245; 118; 120246; 119; 120247; 120; 120248; 121; 120249; 122; 120250; 97; 120251; 98; 120252; 99; 120253; 100; 120254; 101; 120255; 102; 120256; 103;
  120257; 104; 120258; 105; 120259; 106; 120260; 107; 120261; 108; 120263; 110; 120264; 111; 120265; 112; 120266; 113; 120267; 114; 120268; 115; 120269; 116;
  120270; 117; 120271; 118; 120272; 119; 120273; 120; 120274; 121; 120275; 122; 120276; 97; 120277; 98; 120278; 99; 120279; 100; 120280; 101; 120281; 102;
  120282; 103; 120283; 104; 120284; 108; 120285; 106; 120286; 107; 120287; 108; 120288; 109; 120289; 110; 120290; 111; 120291; 112; 120292; 113; 120293; 114;
  120294; 115; 120295; 116; 120296; 117; 120297; 118; 120298; 119; 120299; 120; 120300; 121; 120301; 122; 120302; 97; 120303; 98; 120304; 99; 120305; 100;
  120306; 101; 120307; 102; 120308; 103; 120309; 104; 120310; 105; 120311; 106; 120312; 107; 120313; 108; 120315; 110; 120316; 111; 120317; 112; 120318; 113;
  120319; 114; 120320; 115; 120321; 116; 120322; 117; 120323; 118; 120324; 119; 120325; 120; 120326; 121; 120327; 122; 120328; 97; 120329; 98; 120330; 99;
  120331; 100; 120332; 101; 120333; 102; 120334; 103; 120335; 104; 120336; 108; 120337; 106; 120338; 107; 120339; 108; 120340; 109; 120341; 110; 120342; 111;
  120343; 112; 120344; 113; 120345; 114; 120346; 115; 120347; 116; 120348; 117; 120349; 118; 120350; 119; 120351; 120; 120352; 121; 120353; 122; 120354; 97;
  120355; 98; 120356; 99; 120357; 100; 120358; 101; 120359; 102; 120360; 103; 120361; 104; 120362; 105; 120363; 106; 120364; 107; 120365; 108; 120367; 110;
  120368; 111; 120369; 112; 120370; 113; 120371; 114; 120372; 115; 120373; 116; 120374; 117; 120375; 118; 120376; 119; 120377; 120; 120378; 121; 120379; 122;
  120380; 97; 120381; 98; 120382; 99; 120383; 100; 120384; 101; 120385; 102; 120386; 103; 120387; 104; 120388; 108; 120389; 106; 120390; 107; 120391; 108;
  120392; 109; 120393; 110; 120394; 111; 120395; 112; 120396; 113; 120397; 114; 120398; 115; 120399; 116; 120400; 117; 120401; 118; 120402; 119; 120403; 120;
  120404; 121; 120405; 122; 120406; 97; 120407; 98; 120408; 99; 120409; 100; 120410; 101; 120411; 102; 120412; 103; 120413; 104; 120414; 105; 120415; 106;
  120416; 107; 120417; 108; 120419; 110; 120420; 111; 120421; 112; 120422; 113; 120423; 114; 120424; 115; 120425; 116; 120426; 117; 120427; 118; 120428; 119;
  120429; 120; 120430; 121; 120431; 122; 120432; 97; 120433; 98; 120434; 99; 120435; 100; 120436; 101; 120437; 102; 120438; 103; 120439; 104; 120440; 108;
  120441; 106; 120442; 107; 120443; 108; 120444; 109; 120445; 110; 120446; 111; 120447; 112; 120448; 113; 120449; 114; 120450; 115; 120451; 116; 120452; 117;
  120453; 118; 120454; 119; 120455; 120; 120456; 121; 120457; 122; 120458; 97; 120459; 98; 120460; 99; 120461; 100; 120462; 101; 120463; 102; 120464; 103;
  120465; 104; 120466; 105; 120467; 106; 120468; 107; 120469; 108; 120471; 110; 120472; 111; 120473; 112; 120474; 113; 120475; 114; 120476; 115; 120477; 116;
  120478; 117; 120479; 118; 120480; 119; 120481; 120; 120482; 121; 120483; 122; 120484; 105; 120485; 106; 120488; 97; 120489; 98; 120492; 101; 120493; 122;
  120494; 104; 120496; 108; 120497; 107; 120499; 109; 120500; 110; 120502; 111; 120504; 112; 120507; 116; 120508; 121; 120510; 120; 120514; 97; 120516; 121;
  120522; 105; 120526; 118; 120528; 111; 120530; 112; 120532; 111; 120534; 117; 120544; 112; 120546; 97; 120547; 98; 120550; 101; 120551; 122; 120552; 104;
  120554; 108; 120555; 107; 120557; 109; 120558; 110; 120560; 111; 120562; 112; 120565; 116; 120566; 121; 120568; 120; 120572; 97; 120574; 121; 120580; 105;
  120584; 118; 120586; 111; 120588; 112; 120590; 111; 120592; 117; 120602; 112; 120604; 97; 120605; 98; 120608; 101; 120609; 122; 120610; 104; 120612; 108;
  120613; 107; 120615; 109; 120616; 110; 120618; 111; 120620; 112; 120623; 116; 120624; 121; 120626; 120; 120630; 97; 120632; 121; 120638; 105; 120642; 118;
  120644; 111; 120646; 112; 120648; 111; 120650; 117; 120660; 112; 120662; 97; 120663; 98; 120666; 101; 120667; 122; 120668; 104; 120670; 108; 120671; 107;
  120673; 109; 120674; 110; 120676; 111; 120678; 112; 120681; 116; 120682; 121; 120684; 120; 120688; 97; 120690; 121; 120696; 105; 120700; 118; 120702; 111;
  120704; 112; 120706; 111; 120708; 117; 120718; 112; 120720; 97; 120721; 98; 120724; 101; 120725; 122; 120726; 104; 120728; 108; 120729; 107; 120731; 109;
  120732; 110; 120734; 111; 120736; 112; 120739; 116; 120740; 121; 120742; 120; 120746; 97; 120748; 121; 120754; 105; 120758; 118; 120760; 111; 120762; 112;
  120764; 111; 120766; 117; 120776; 112; 120778; 102; 120782; 111; 120783; 108; 120784; 50; 120785; 51; 120786; 52; 120787; 53; 120788; 54; 120789; 55;
  120790; 56; 120791; 57; 120792; 111; 120793; 108; 120794; 50; 120795; 51; 120796; 52; 120797; 53; 120798; 54; 120799; 55; 120800; 56; 120801; 57;
  120802; 111; 120803; 108; 120804; 50; 120805; 51; 120806; 52; 120807; 53; 120808; 54; 120809; 55; 120810; 56; 120811; 57; 120812; 111; 120813; 108;
  120814; 50; 120815; 51; 120816; 52; 120817; 53; 120818; 54; 120819; 55; 120820; 56; 120821; 57; 120822; 111; 120823; 108; 120824; 50; 120825; 51;
  120826; 52; 120827; 53; 120828; 54; 120829; 55; 120830; 56; 120831; 57; 122714; 97; 122730; 97; 122749; 119; 122753; 101; 123200; 111; 123201; 108;
  123205; 118; 123632; 111; 123634; 57; 125127; 108; 125131; 56; 126209; 108; 126464; 108; 126500; 111; 126592; 108; 126596; 111; 128844; 99; 128872; 116;
  130032; 111; 130033; 108; 130034; 50; 130035; 51; 130036; 52; 130037; 53; 130038; 54; 130039; 55; 130040; 56; 130041; 57].

Definition homoglyphMap : list (Z * Z) := [
  (1072, 97); (1073, 98); (1089, 99); (1281, 100); (1077, 101); (102, 102); (103, 103); (1211, 104);
  (1110, 105); (1112, 106); (107, 107); (108, 108); (109, 109); (1087, 110); (1086, 111); (1088, 112);
  (113, 113); (1075, 114); (1109, 115); (1090, 116); (965, 117); (1141, 118); (1309, 119); (1093, 120);
  (1091, 121); (122, 122); (1040, 97); (1042, 98); (1057, 99); (1045, 101); (1053, 104); (1030, 105);
  (1032, 106); (1050, 107); (1052, 109); (1054, 111); (1056, 112); (1029, 115); (1058, 116); (1061, 120);
  (1198, 121); (945, 97); (946, 98); (949, 101); (953, 105); (954, 107); (959, 111); (961, 112);
  (964, 116); (967, 120)].

Definition rune_map : Type := gmap Z Z.

(** The loop of [buildTR39Confusables]: a later pair replaces an earlier one. *)
Fixpoint insert_pairs (pairs : list Z) (m : rune_map) : rune_map :=
  match pairs with
  | k :: v :: pairs => insert_pairs pairs (<[k := v]> m)
  | _ => m
  end.
Definition buildTR39Confusables : rune_map := insert_pairs tr39ConfusablePairs ∅.
Definition homoglyphs : rune_map := list_to_map homoglyphMap.
