(* ===== verification/Brand.v ===== *)
(** * Trusted brands and spoof detection: [internal/analysis/brand.go]

    Brand records and their normal form, the built-in lists, the in-memory brand
    store with its published snapshots, root domains and homoglyph skeletons, and
    the decision whether a domain imitates a brand.

    [golang.org/x/net/idna] is the class [IdnaLib].  The store's slices share
    arrays, so the store is modelled over a heap of arrays ([Arrays]). *)

From Stdlib Require Import ZArith Lia Ascii String.
From S2P Require Import Prelude GoStr Hostname GoFloat EditDist Confusables.

Class IdnaLib := {
  (** [idna.ToUnicode]; [None] is its error *)
  idna_to_unicode : string → option string
}.

(** ** Records *)

(** [AltDomains] is [None] when nil. *)
Record Brand := mkBrand {
  ID : Z; Name : string; OfficialDomain : string; AltDomains : option (list string);
  CreatedAt : string; UpdatedAt : string
}.
Definition alts (b : Brand) : list string := default [] (AltDomains b).
Definition with_alts (a : option (list string)) (b : Brand) : Brand :=
  mkBrand (ID b) (Name b) (OfficialDomain b) a (CreatedAt b) (UpdatedAt b).
Definition seed (name official : string) (a : option (list string)) : Brand :=
  mkBrand 0 name official a "" "".

(** [append([]string(nil), s...)]: nil when there is nothing to append *)
Definition append_nil {A} (l : list A) : option (list A) :=
  match l with [] => None | _ => Some l end.
Definition cloneBrand (b : Brand) : Brand := with_alts (append_nil (alts b)) b.
Definition cloneBrands (brands : list Brand) : list Brand := cloneBrand <$> brands.

Definition DefaultTrustedBrands : list Brand := cloneBrands [
  seed "google" "google.com" (Some ["google.com.vn"; "google.co.uk"; "google.com.sg";
    "googleusercontent.com"; "googlesyndication.com"; "googletagservices.com";
    "googletagmanager.com"; "google-analytics.com"; "googleapis.com"; "gstatic.com";
    "googlevideo.com"; "youtube.com"; "youtu.be"; "ytimg.com"; "ggpht.com"; "gvt1.com";
    "doubleclick.net"]);
  seed "binance" "binance.com" (Some ["binance.us"; "binance.info"]);
  seed "paypal" "paypal.com" (Some ["paypal.me"]);
  seed "facebook" "facebook.com" (Some ["fb.com"; "messenger.com"; "fbcdn.net"; "fbsbx.com"]);
  seed "apple" "apple.com" (Some ["icloud.com"]);
  seed "microsoft" "microsoft.com" (Some ["live.com"; "outlook.com"; "office.com";
    "microsoftonline.com"; "sharepoint.com"; "office365.com"; "windows.net"; "windows.com";
    "azure.com"; "visualstudio.com"; "aspnetcdn.com"; "msn.com"; "bing.com"]);
  seed "amazon" "amazon.com" None;
  seed "netflix" "netflix.com" None;
  seed "instagram" "instagram.com" (Some ["cdninstagram.com"]);
  seed "twitter" "twitter.com" (Some ["x.com"]);
  seed "metamask" "metamask.io" None;
  seed "coinbase" "coinbase.com" None;
  seed "trustwallet" "trustwallet.com" None;
  seed "yahoo" "yahoo.com" (Some ["yimg.com"]);
  seed "linkedin" "linkedin.com" None;
  seed "chinhphu" "chinhphu.vn" (Some ["chinhphu.gov.vn"]);
  seed "bocongan" "bocongan.gov.vn" (Some ["mps.gov.vn"]);
  seed "baohiemxahoi" "baohiemxahoi.gov.vn" (Some ["bhxh.gov.vn"]);
  seed "vneid" "vneid.gov.vn" None;
  seed "vtv" "vtv.vn" None;
  seed "vietcombank" "vietcombank.com.vn" (Some ["vietcombank.com"]);
  seed "techcombank" "techcombank.com.vn" (Some ["techcombank.com"]);
  seed "bidv" "bidv.com.vn" (Some ["bidv.com"]);
  seed "vietinbank" "vietinbank.vn" (Some ["vietinbank.co.vn"]);
  seed "mbbank" "mbbank.com.vn" (Some ["mbbank.com"]);
  seed "agribank" "agribank.com.vn" (Some ["agribank.com"]);
  seed "vpbank" "vpbank.com.vn" (Some ["vpbank.com"]);
  seed "acb" "acb.com.vn" (Some ["acb.com"]);
  seed "sacombank" "sacombank.com.vn" (Some ["sacombank.com"]);
  seed "tpbank" "tpb.vn" (Some ["tpbank.com.vn"]);
  seed "vib" "vib.com.vn" None;
  seed "hdbank" "hdbank.com.vn" None;
  seed "shb" "shb.com.vn" None;
  seed "scb" "scb.com.vn" None;
  seed "momo" "momo.vn" None;
  seed "zalopay" "zalopay.vn" None;
  seed "vnpay" "vnpay.vn" None;
  seed "shopee" "shopee.vn" (Some ["shopee.com"; "shopeemobile.com"]);
  seed "tiki" "tiki.vn" None;
  seed "lazada" "lazada.vn" (Some ["lazada.com"])].

Definition detectionBrandExtras : list Brand := [
  seed "allegro" "allegro.pl" None; seed "spotify" "spotify.com" None].

(** ** Shared infrastructure *)

Definition delegatedCDNRoots : list string := [
  "akadns.net"; "akamaihd.net"; "akamaized.net"; "amazonaws.com"; "ampproject.org";
  "azureedge.net"; "azurefd.net"; "azurestaticapps.net"; "b-cdn.net"; "b-msedge.net";
  "baishan-cloud.net"; "bootstrapcdn.com"; "cachefly.net"; "cdn77.net"; "cdn77.org";
  "cdngslb.com"; "cloudflare.net"; "cloudflarestorage.com"; "cloudfront.net";
  "edgecastcdn.net"; "edgekey.net"; "edgesuite.net"; "fastly.net"; "fastlylb.net";
  "githubusercontent.com"; "googleapis.com"; "googleusercontent.com"; "gstatic.com";
  "hwcdn.net"; "incapdns.net"; "jsdelivr.net"; "msedge.net"; "susercontent.com";
  "stackpathdns.com"; "trafficmanager.net"; "unpkg.com"].
Definition selfServiceHostingRoots : list string := [
  "azurecontainerapps.io"; "azurewebsites.net"; "firebaseapp.com"; "fly.dev"; "github.io";
  "glitch.me"; "herokuapp.com"; "netlify.app"; "onrender.com"; "pages.dev"; "railway.app";
  "repl.co"; "replit.app"; "r2.dev"; "surge.sh"; "vercel.app"; "workers.dev"].
Definition sharedServingHosts : list string := [
  "github.com"; "raw.githubusercontent.com"; "cdn.jsdelivr.net"; "cdn.ampproject.org";
  "unpkg.com"; "cdnjs.cloudflare.com"; "docs.google.com"; "drive.google.com"; "forms.gle";
  "storage.googleapis.com"; "sites.google.com"; "script.google.com"; "firebaseapp.com";
  "firebasestorage.googleapis.com"; "onedrive.live.com"; "sharepoint.com"; "1drv.ms";
  "blob.core.windows.net"; "s3.amazonaws.com"; "workers.dev"; "pages.dev"; "vercel.app";
  "netlify.app"; "googleusercontent.com"; "lh3.googleusercontent.com";
  "drive.usercontent.google.com"].

Section Brands.
Context `{UnicodeTables, RuneTables}.

Definition IsSpaceRune (r : Z) : bool :=
  if (r <? 128)%Z then ((r =? 32) || ((9 <=? r) && (r <=? 13)))%Z else rune_space r.

Definition isNormalizedToken (s : string) : bool :=
  forallb (λ r, negb (IsSpaceRune r || negb (ToLowerRune r =? r)%Z)) (runes s).

(** The two nested loops over [alts]; [seen] is [alts[:i]]. *)
Fixpoint alts_normalized (seen rest : list string) : bool :=
  match rest with
  | [] => true
  | alt :: rest =>
      if String.eqb alt "" || negb (isNormalizedToken alt) then false
      else if in_list alt seen then false
      else alts_normalized (seen ++ [alt])%list rest
  end.
Definition isNormalizedBrandRecord (b : Brand) : bool :=
  if negb (isNormalizedToken (Name b)) || negb (isNormalizedToken (OfficialDomain b)) then false
  else match AltDomains b with
       | None => false
       | Some a => alts_normalized [] a
       end.

Fixpoint normalize_alts (rest : list string) (seen : gset string) : list string :=
  match rest with
  | [] => []
  | alt :: rest =>
      let alt := ToLower (TrimSpace alt) in
      if String.eqb alt "" then normalize_alts rest seen
      else if bool_decide (alt ∈ seen) then normalize_alts rest seen
      else alt :: normalize_alts rest ({[alt]} ∪ seen)
  end.
Definition normalizeBrandRecordSlow (b : Brand) : Brand :=
  mkBrand (ID b) (ToLower (TrimSpace (Name b))) (ToLower (TrimSpace (OfficialDomain b)))
    (Some (normalize_alts (alts b) ∅)) (CreatedAt b) (UpdatedAt b).
Definition normalizeBrandRecord (b : Brand) : Brand :=
  if isNormalizedBrandRecord b then b else normalizeBrandRecordSlow b.

(** One loop of [DetectionBrands]; both have the same body. *)
Fixpoint detection_loop (brands : list Brand) (seen : gset string) (out : list Brand)
    : gset string * list Brand :=
  match brands with
  | [] => (seen, out)
  | brand :: brands =>
      let brand := normalizeBrandRecord brand in
      let key := ToLower (TrimSpace (Name brand)) in
      if bool_decide (key ∈ seen) || String.eqb key "" then detection_loop brands seen out
      else detection_loop brands ({[key]} ∪ seen) (out ++ [brand])%list
  end.
Definition DetectionBrands (base : list Brand) : list Brand :=
  let '(seen, out) := detection_loop base ∅ [] in
  (detection_loop detectionBrandExtras seen out).2.

(** ** Names *)

Definition doubleTLDs : list string := ["com"; "co"; "net"; "org"; "gov"; "edu"; "ac"].

(** The parts are taken from the right. *)
Definition getRootDomain (domain : string) : string :=
  let domain := ToLower (TrimSpace domain) in
  match rev (Split domain ".") with
  | last :: secondLast :: thirdLast :: _ =>
      if in_list secondLast doubleTLDs && Nat.eqb (slen last) 2
      then thirdLast ++ "." ++ secondLast ++ "." ++ last
      else secondLast ++ "." ++ last
  | _ => domain
  end.
Definition getMainLabel (domain : string) : string :=
  match Split (getRootDomain domain) "." with part :: _ => part | [] => domain end.

(** [d == root || strings.HasSuffix(d, "."+root)] *)
Definition at_or_beneath (root d : string) : bool :=
  String.eqb d root || HasSuffix d ("." ++ root).

Definition trustedInfraSuffixes : list string := ["github.com"; "taobao.com"; "alibabadns.com"].
Definition IsTrustedInfraSuffix (domain : string) : bool :=
  let domain := ToLower (TrimSpace domain) in
  if String.eqb domain "" then false
  else existsb (λ root, at_or_beneath root domain) trustedInfraSuffixes.

Definition officialDomainAliases : list (string * list string) :=
  [("lazada", ["lazada.sg"; "lazcdn.com"])].
Definition isOfficialAlias (brandName rootDomain : string) : bool :=
  match list_find (λ kv, kv.1 = ToLower (TrimSpace brandName)) officialDomainAliases with
  | None => false
  | Some (_, (_, aliases)) =>
      let rootDomain := ToLower (TrimSpace rootDomain) in
      existsb (λ alias, String.eqb rootDomain (ToLower (TrimSpace alias))) aliases
  end.

Inductive brandLabelMatchKind :=
  brandLabelNoMatch | brandLabelExact | brandLabelContains | brandLabelHyphenPart.
#[export] Instance brandLabelMatchKind_eq_dec : EqDecision brandLabelMatchKind.
Proof. solve_decision. Defined.
(** The order of the Go constants. *)
Definition kind_rank (k : brandLabelMatchKind) : nat :=
  match k with
  | brandLabelNoMatch => 0 | brandLabelExact => 1 | brandLabelContains => 2
  | brandLabelHyphenPart => 3
  end.

Definition classifyBrandLabel (label brandName : string) : brandLabelMatchKind :=
  let label := ToLower label in
  let brandName := ToLower brandName in
  if String.eqb label "" || String.eqb brandName "" then brandLabelNoMatch
  else if String.eqb label brandName then brandLabelExact
  else if in_list brandName (Split label "-") then brandLabelHyphenPart
  else if Nat.leb 6 (slen brandName) && Contains label brandName then brandLabelContains
  else brandLabelNoMatch.

Definition brandKeywordExemptRoots : list string :=
  ["amazonaws.com"; "googleadservices.com"; "googleapis.com"; "googleusercontent.com"].
Definition isBrandKeywordExemptRoot (rootDomain : string) : bool :=
  let rootDomain := ToLower (TrimSpace rootDomain) in
  if String.eqb rootDomain "" then false else in_list rootDomain brandKeywordExemptRoots.

Definition suspiciousTLDs : list string := [
  "xyz"; "top"; "cc"; "info"; "work"; "club"; "fit"; "vip"; "cf"; "gq"; "ga"; "ml"; "tk";
  "icu"; "asia"; "buzz"; "bid"].

Definition IsCDNRoot (rootDomain : string) : bool :=
  let rootDomain := ToLower (TrimSpace rootDomain) in
  if String.eqb rootDomain "" then false else in_list rootDomain delegatedCDNRoots.

Definition IsSharedHostingRoot (rootDomain : string) : bool :=
  let rootDomain := ToLower (TrimSpace rootDomain) in
  if String.eqb rootDomain "" then false
  else in_list rootDomain delegatedCDNRoots || in_list rootDomain selfServiceHostingRoots.
Definition IsSharedServingHost (host : string) : bool :=
  let h := ToLower (TrimSuffix (TrimSpace host) ".") in
  if String.eqb h "" then false else in_list h sharedServingHosts.

Definition isVietnamGovernmentRoot (rootDomain : string) : bool :=
  at_or_beneath "gov.vn" (ToLower (TrimSpace rootDomain)).

Definition isSuspiciousLabel (label brandName : string) : bool :=
  let label := ToLower label in
  let brandName := ToLower brandName in
  if String.eqb label brandName then true
  else if in_list brandName (Split label "-") then true
  else if Nat.ltb (slen brandName) 6 then false
  else Contains label brandName.

Definition brand_covers (domain : string) (brand : Brand) : bool :=
  let brand := normalizeBrandRecord brand in
  negb (String.eqb (OfficialDomain brand) "") && at_or_beneath (OfficialDomain brand) domain
  || existsb (λ alt, at_or_beneath alt domain) (alts brand).
Definition IsTrustedBrandSuffix (domain : string) (brands : list Brand) : bool :=
  let domain := ToLower (TrimSpace domain) in
  if String.eqb domain "" then false else existsb (brand_covers domain) brands.
End Brands.

(** ** Skeletons *)

(** The UTF-8 encoding of a rune; one that has none becomes U+FFFD. *)
Definition encode_rune (r : Z) : list Z :=
  (if (r <? 0) || (1114111 <? r) || ((55296 <=? r) && (r <=? 57343)) then [239; 191; 189]
   else if r <? 128 then [r]
   else if r <? 2048 then [192 + r / 64; 128 + r mod 64]
   else if r <? 65536 then [224 + r / 4096; 128 + r / 64 mod 64; 128 + r mod 64]
   else [240 + r / 262144; 128 + r / 4096 mod 64; 128 + r / 64 mod 64; 128 + r mod 64])%Z.
Definition byte_of_Z (z : Z) : ascii := ascii_of_N (Z.to_N z).
(** [string(runes)] *)
Definition string_of_runes (rs : list Z) : string :=
  string_of_list_ascii (byte_of_Z <$> concat (encode_rune <$> rs)).

Definition skeleton_rune (tr39 glyphs : rune_map) (r : Z) : Z :=
  match tr39 !! r with
  | Some mapped => mapped
  | None => default r (glyphs !! r)
  end.
Definition ToSkeletonExtended (s : string) : string :=
  string_of_runes (skeleton_rune buildTR39Confusables homoglyphs <$> runes s).
Definition ToSkeleton (s : string) : string :=
  string_of_runes ((λ r, default r (homoglyphs !! r)) <$> runes s).

(** ** Spoof detection *)

Definition cdnInfraAdvisoryPenalty : Z := 10.
Definition shortBrandTyposquatMaxLen : nat := 4.

(** What the checks of one domain share. *)
Record Subject := mkSubject {
  s_root : string; s_labels : list string; s_tld : string; s_skeleton_labels : list string;
  s_skeleton_root : string; s_homoglyph : bool; s_cdn : bool; s_score : Z
}.

Section Spoofing.
Context `{UnicodeTables, RuneTables, IdnaLib}.

Definition subject (domain : string) (brandSpoofingScore : Z) : Subject :=
  let unicodeDomain := default domain (idna_to_unicode domain) in
  let rootDomain := getRootDomain domain in
  let rootParts := Split rootDomain "." in
  let skeletonDomain := ToSkeletonExtended unicodeDomain in
  mkSubject rootDomain (Split domain ".")
    (if Nat.ltb 1 (length rootParts) then default "" (last rootParts) else "")
    (Split skeletonDomain ".") (ToSkeletonExtended (getRootDomain unicodeDomain))
    (negb (String.eqb skeletonDomain unicodeDomain)) (IsCDNRoot rootDomain) brandSpoofingScore.

Definition skLabel (d : Subject) (i : nat) (label : string) : string :=
  default label (s_skeleton_labels d !! i).
Definition tld_penalty (d : Subject) (penalty : Z) : Z :=
  if in_list (s_tld d) suspiciousTLDs then (penalty + 20)%Z else penalty.
Definition advisory_penalty (d : Subject) : Z :=
  tld_penalty d (if s_cdn d then cdnInfraAdvisoryPenalty else s_score d).

Definition is_official (brand : Brand) (d : Subject) : bool :=
  String.eqb (s_root d) (OfficialDomain brand) || in_list (s_root d) (alts brand)
  || isOfficialAlias (Name brand) (s_root d).

(** The labels the typosquat loop skips: those that read like the TLD, or like the
    second-level part of a double TLD. *)
Definition typo_skipped (labels : list string) (label : string) : bool :=
  let n := length labels in
  Nat.ltb 1 n && bool_decide (labels !! (n - 1) = Some label)
  || Nat.ltb 2 n && bool_decide (labels !! (n - 2) = Some label) && in_list label doubleTLDs.

(** [maxWDist] in halves and [maxDist] *)
Definition max_distances (minLen : nat) : Z * Z :=
  if Nat.leb minLen shortBrandTyposquatMaxLen then (2, 1)%Z else (3, 2)%Z.

(** The body of the typosquat loop. *)
Definition typo_label (brand : Brand) (d : Subject) (i : nat) (label : string)
    : option (string * Z) :=
  if typo_skipped (s_labels d) label then None
  else
    let sk := skLabel d i label in
    let minLen := Nat.min (slen (Name brand)) (slen sk) in
    if Nat.ltb minLen 4 then None
    else if String.eqb sk (Name brand) && negb (String.eqb label (Name brand)) && s_homoglyph d
    then Some ("homoglyph visual spoofing of " ++ Name brand ++ " brand (" ++ label ++ ")",
               tld_penalty d (s_score d))
    else
      let '(maxWDist, maxDist) := max_distances minLen in
      let wDist := WeightedLevenshteinDistanceCapped sk (Name brand) (half maxWDist) in
      if f_lt f_zero wDist && negb (f_lt (half maxWDist) wDist)
      then Some ((if String.eqb sk label then "keyboard typosquatting of "
                  else "homoglyph keyboard typosquatting of ")
                 ++ Name brand ++ " brand (" ++ label ++ ")", advisory_penalty d)
      else
        let dist := LevenshteinDistanceCapped sk (Name brand) maxDist in
        if (0 <? dist)%Z && (dist <=? maxDist)%Z
        then Some ("typosquatting of " ++ Name brand ++ " brand (" ++ label ++ ")",
                   advisory_penalty d)
        else None.

(** The body of the subdomain loop. *)
Definition subdomain_label (brand : Brand) (d : Subject) (i : nat) (label : string)
    : option (string * Z) :=
  let rootPartsCount := length (Split (s_root d) ".") in
  if Nat.ltb i (length (s_labels d) - rootPartsCount) then
    let kind := classifyBrandLabel label (Name brand) in
    let skKind := classifyBrandLabel (skLabel d i label) (Name brand) in
    let kind := if Nat.ltb (kind_rank kind) (kind_rank skKind) then skKind else kind in
    if bool_decide (kind = brandLabelNoMatch) then None
    else Some ("suspicious brand subdomain usage (" ++ Name brand ++ ")",
               tld_penalty d
                 (if s_cdn d && negb (bool_decide (kind = brandLabelHyphenPart))
                  then cdnInfraAdvisoryPenalty else s_score d - 10))
  else None.

(** A loop over the labels that returns at the first hit. *)
Fixpoint first_label (f : nat → string → option (string * Z)) (i : nat) (labels : list string)
    : option (string * Z) :=
  match labels with
  | [] => None
  | label :: labels =>
      match f i label with Some hit => Some hit | None => first_label f (S i) labels end
  end.

Definition keyword_hit (brand : Brand) (d : Subject) : bool :=
  negb (isBrandKeywordExemptRoot (s_root d))
  && (isSuspiciousLabel (getMainLabel (s_root d)) (Name brand)
      || isSuspiciousLabel (getMainLabel (s_skeleton_root d)) (Name brand)).

(** The body of the loop over the brands, for a normalised record. *)
Definition check_brand (d : Subject) (brand : Brand) : option (string * Z) :=
  if String.eqb (Name brand) "" || String.eqb (OfficialDomain brand) "" then None
  else if is_official brand d then None
  else match first_label (typo_label brand d) 0 (s_labels d) with
       | Some hit => Some hit
       | None =>
           if keyword_hit brand d
           then Some ("suspicious usage of trusted brand keyword (" ++ Name brand ++ ")",
                      tld_penalty d (s_score d))
           else first_label (subdomain_label brand d) 0 (s_labels d)
       end.
Fixpoint check_brands (d : Subject) (brands : list Brand) : option (string * Z) :=
  match brands with
  | [] => None
  | brand :: brands =>
      match check_brand d (normalizeBrandRecord brand) with
      | Some hit => Some hit
      | None => check_brands d brands
      end
  end.

(** [None] is [(false, "", 0)]. *)
Definition CheckBrandSpoofingWithBrands (domain : string) (brandSpoofingScore : Z)
    (brands : list Brand) : option (string * Z) :=
  let domain := ToLower (TrimSpace domain) in
  if String.eqb domain "" then None
  else
    let brands := match brands with [] => DetectionBrands DefaultTrustedBrands | _ => brands end in
    if isVietnamGovernmentRoot (getRootDomain domain) then None
    else if IsTrustedBrandSuffix domain brands || IsTrustedInfraSuffix domain then None
    else check_brands (subject domain brandSpoofingScore) brands.
Definition CheckBrandSpoofing (domain : string) (brandSpoofingScore : Z) : option (string * Z) :=
  CheckBrandSpoofingWithBrands domain brandSpoofingScore (DetectionBrands DefaultTrustedBrands).
End Spoofing.
