(* ===== verification/SkeletonSpec.v ===== *)
(** * UTF-8 and homoglyph skeletons

    Runes survive encoding, and a skeleton is one rune per rune and a fixed point. *)

From Stdlib Require Import ZArith Lia Ascii String.
From S2P Require Import Prelude GoStr Hostname GoFloat EditDist Confusables Brand.

(** ** UTF-8 *)

Definition scalar (r : Z) : Prop :=
  (0 <= r < 55296)%Z ∨ (57343 < r <= 1114111)%Z.

(** Decide the comparisons of the goal by arithmetic. *)
Ltac cmp_cases :=
  repeat (match goal with
  | |- context [(?a =? ?b)%Z] => destruct (Z.eqb_spec a b); try lia
  | |- context [(?a <? ?b)%Z] => destruct (Z.ltb_spec a b); try lia
  | |- context [(?a <=? ?b)%Z] => destruct (Z.leb_spec a b); try lia
  end; cbn [andb orb]).
#[local] Ltac Zify.zify_post_hook ::= Z.to_euclidean_division_equations.

Lemma decode_encode r rest : scalar r →
  ∃ b0 tl, encode_rune r = b0 :: tl ∧ decode_rune b0 (tl ++ rest)%list = (r, S (length tl)).
Proof.
  intros Hr. unfold encode_rune, scalar in *.
  destruct (Z.ltb_spec r 0); [lia|]. destruct (Z.ltb_spec 1114111 r); [lia|].
  destruct ((55296 <=? r) && (r <=? 57343))%Z eqn:Hs; [bool_simpl; lia|]. clear Hs. cbn [orb].
  destruct (Z.ltb_spec r 128); [|destruct (Z.ltb_spec r 2048); [|destruct (Z.ltb_spec r 65536)]];
    eexists _, _; (split; [reflexivity|]); unfold decode_rune, cont; cbn [app length]; cbv zeta;
    cmp_cases; f_equal; lia.
Qed.

Lemma encode_rune_bytes r : Forall (λ b, (0 <= b < 256)%Z) (encode_rune r).
Proof.
  unfold encode_rune. destruct (Z.ltb_spec r 0); [cbn; repeat constructor; lia|].
  destruct (Z.ltb_spec 1114111 r); [cbn; repeat constructor; lia|]. cbn [orb].
  repeat case_match; bool_simpl; repeat constructor; lia.
Qed.
Lemma byte_of_Z_z b : (0 <= b < 256)%Z → byte_z (byte_of_Z b) = b.
Proof. intros Hb. unfold byte_z, byte_of_Z. rewrite N_ascii_embedding by lia. lia. Qed.
Lemma bytes_of_string l : Forall (λ b, (0 <= b < 256)%Z) l →
  bytes_of (string_of_list_ascii (byte_of_Z <$> l)) = l.
Proof.
  intros Hl. unfold bytes_of. rewrite list_ascii_of_string_of_list_ascii, <-list_fmap_compose.
  rewrite <-(list_fmap_id l) at 2. apply list_fmap_ext. intros i b Hb.
  apply byte_of_Z_z. rewrite Forall_forall in Hl. by eapply Hl, list_elem_of_lookup_2.
Qed.
Lemma slen_string_of_list l : slen (string_of_list_ascii l) = length l.
Proof. induction l; cbn; congruence. Qed.

Lemma runes_fuel_encoded rs fuel :
  Forall scalar rs → length (concat (encode_rune <$> rs)) ≤ fuel →
  runes_fuel fuel (concat (encode_rune <$> rs)) = rs.
Proof.
  intros Hrs. revert fuel. induction Hrs as [|r rs Hr Hrs IH]; intros fuel Hf; [by destruct fuel|].
  rewrite fmap_cons in *. cbn [concat] in *.
  destruct (decode_encode r (concat (encode_rune <$> rs)) Hr) as (b0 & tl & He & Hd).
  rewrite He in *. cbn [app length] in *. destruct fuel as [|fuel]; [lia|].
  cbn [runes_fuel]. rewrite Hd. cbn [Nat.sub]. rewrite Nat.sub_0_r, drop_app_length. f_equal.
  apply IH. rewrite length_app in Hf. lia.
Qed.

Lemma runes_string_of_runes rs : Forall scalar rs → runes (string_of_runes rs) = rs.
Proof.
  intros Hrs. unfold runes, string_of_runes. rewrite bytes_of_string, slen_string_of_list, length_fmap.
  - by apply runes_fuel_encoded.
  - clear. induction rs as [|r rs IH]; [constructor|]. rewrite fmap_cons. cbn [concat].
    apply Forall_app. split; [apply encode_rune_bytes|done].
Qed.

(** What decoding yields is always a scalar value. *)
Lemma decode_rune_scalar b0 rest : (0 <= b0 < 256)%Z → Forall (λ b, (0 <= b < 256)%Z) rest →
  scalar (decode_rune b0 rest).1.
Proof.
  intros H0 Hr. unfold decode_rune, cont, scalar.
  destruct rest as [|b1 [|b2 [|b3 rest]]]; repeat match goal with
    | H : Forall _ (_ :: _) |- _ => apply Forall_cons in H as [? H] end; clear Hr; cbv zeta;
    repeat case_match; bool_simpl; cbn [fst]; lia.
Qed.
Lemma bytes_of_range s : Forall (λ b, (0 <= b < 256)%Z) (bytes_of s).
Proof.
  unfold bytes_of. apply Forall_fmap, Forall_true. intros c. unfold compose, byte_z.
  pose proof (N_ascii_bounded c). lia.
Qed.
Lemma runes_fuel_scalar fuel bs :
  Forall (λ b, (0 <= b < 256)%Z) bs → Forall scalar (runes_fuel fuel bs).
Proof.
  revert bs. induction fuel as [|fuel IH]; intros [|b0 bs] Hb; try constructor.
  apply Forall_cons in Hb as [H0 Hb]. cbn [runes_fuel].
  pose proof (decode_rune_scalar b0 bs H0 Hb) as Hs. destruct (decode_rune b0 bs) as [r w].
  constructor; [done|]. apply IH, Forall_drop, Hb.
Qed.
Lemma runes_scalar s : Forall scalar (runes s).
Proof. apply runes_fuel_scalar, bytes_of_range. Qed.

(** ** Skeletons *)

Definition glyph (r : Z) : Z := skeleton_rune buildTR39Confusables homoglyphs r.

(** The targets of both tables are ASCII and have no other target. *)
Definition good_targets (m : rune_map) : bool :=
  forallb (λ kv, (0 <=? kv.2)%Z && (kv.2 <? 128)%Z
    && bool_decide (buildTR39Confusables !! kv.2 = None)
    && bool_decide (default kv.2 (homoglyphs !! kv.2) = kv.2)) (map_to_list m).
Lemma tables_good : good_targets buildTR39Confusables && good_targets homoglyphs = true.
Proof. vm_compute. reflexivity. Qed.
Lemma good_target m r t : good_targets m = true → m !! r = Some t →
  (0 <= t < 128)%Z ∧ glyph t = t.
Proof.
  intros Hg Ht%elem_of_map_to_list. unfold good_targets in Hg. rewrite forallb_forall in Hg.
  specialize (Hg (r, t) (proj1 (list_elem_of_In _ _) Ht)). cbn [snd] in Hg.
  rewrite !andb_true_iff in Hg. destruct Hg as [[[H0 H1] H2] H3]. bool_simpl. split; [lia|].
  unfold glyph, skeleton_rune. by rewrite H2.
Qed.

Lemma glyph_spec r : (glyph r = r ∨ (0 <= glyph r < 128)%Z) ∧ glyph (glyph r) = glyph r.
Proof.
  pose proof tables_good as [Ht Hh]%andb_true_iff.
  assert (glyph r = r ∨ (0 <= glyph r < 128)%Z ∧ glyph (glyph r) = glyph r) as Hg.
  { unfold glyph at 1 2 4, skeleton_rune.
    destruct (buildTR39Confusables !! r) as [t|] eqn:E.
    { right. assert (glyph r = t) as -> by (unfold glyph, skeleton_rune; by rewrite E).
      by apply (good_target _ _ _ Ht E). }
    destruct (homoglyphs !! r) as [t|] eqn:E'; cbn; [right|by left].
    assert (glyph r = t) as -> by (unfold glyph, skeleton_rune; by rewrite E, E').
    by apply (good_target _ _ _ Hh E'). }
  destruct Hg as [Hg|[??]]; [rewrite !Hg|]; auto.
Qed.
Lemma glyph_scalar r : scalar r → scalar (glyph r).
Proof. intros Hr. destruct (glyph_spec r) as [[->|?] _]; [done|unfold scalar; lia]. Qed.

Lemma runes_skeleton s : runes (ToSkeletonExtended s) = glyph <$> runes s.
Proof.
  unfold ToSkeletonExtended. apply runes_string_of_runes, Forall_fmap.
  eapply Forall_impl; [apply runes_scalar|]. intros r. apply glyph_scalar.
Qed.

(** Decoding an encoded sequence of scalar values gives the sequence back, and
    decoding any byte string gives scalar values; so the skeleton of a string is
    read back as its runes mapped one by one, with as many runes, and taking the
    skeleton twice is taking it once. *)
Theorem skeleton_roundtrip rs s :
  Forall scalar rs →
  runes (string_of_runes rs) = rs ∧ Forall scalar (runes s)
  ∧ runes (ToSkeletonExtended s) = glyph <$> runes s
  ∧ length (runes (ToSkeletonExtended s)) = length (runes s)
  ∧ ToSkeletonExtended (ToSkeletonExtended s) = ToSkeletonExtended s.
Proof.
  intros Hrs. split_and!; [by apply runes_string_of_runes|apply runes_scalar|apply runes_skeleton| |].
  - by rewrite runes_skeleton, length_fmap.
  - unfold ToSkeletonExtended at 1. rewrite runes_skeleton. unfold ToSkeletonExtended. fold glyph.
    f_equal. rewrite <-list_fmap_compose. apply list_fmap_ext. intros i r _. apply glyph_spec.
Qed.

Module Examples.
(** "pаypal" with a Cyrillic second letter. *)
Definition spoofed : string := string_of_runes [112; 1072; 121; 112; 97; 108]%Z.
Example spoofed_ex : ToSkeletonExtended spoofed = "paypal" ∧ slen spoofed = 7.
Proof. by vm_compute. Qed.
Lemma skeleton_roundtrip_witness :
  runes (string_of_runes [112; 1072; 8364; 128512]%Z) = [112; 1072; 8364; 128512]%Z
  ∧ Forall scalar (runes spoofed)
  ∧ runes (ToSkeletonExtended spoofed) = glyph <$> runes spoofed
  ∧ length (runes (ToSkeletonExtended spoofed)) = length (runes spoofed)
  ∧ ToSkeletonExtended (ToSkeletonExtended spoofed) = ToSkeletonExtended spoofed.
Proof.
  apply (skeleton_roundtrip [112; 1072; 8364; 128512]%Z spoofed).
  repeat constructor; unfold scalar; lia.
Defined.
End Examples.
