(* ===== verification/BrandSpec.v ===== *)
(** * Properties of brand records and spoof detection

    The fast path of the normal form agrees with the slow one; the detection list
    has one record per name, the operator's first; a domain is reported exactly
    when it imitates a brand in the sense of [imitates]; penalties are bounded. *)

From Stdlib Require Import ZArith Lia Ascii String.
From S2P Require Import Prelude GoStr Hostname GoFloat EditDist Confusables Brand SkeletonSpec.

(** ** The normal form of records *)

(** The Unicode half of [strings.ToLower] and [strings.TrimSpace] on valid UTF-8. *)
Class RuneLaws `{UnicodeTables, RuneTables} := {
  to_lower_fix s : string_of_runes (runes s) = s →
    (∀ r, r ∈ runes s → ToLowerRune r = r) → uc_to_lower s = s;
  trim_space_fix s : string_of_runes (runes s) = s →
    (∀ r, r ∈ runes s → IsSpaceRune r = false) → uc_trim_space s = s
}.
Definition valid_utf8 (s : string) : Prop := string_of_runes (runes s) = s.

Section Normal.
Context `{RuneLaws}.

Lemma forallb_runes (p : Z → bool) (q : ascii → bool) s :
  is_ascii s = true → (∀ c, is_ascii_byte c = true → p (byte_z c) = q c) →
  forallb p (runes s) = sforall q s.
Proof.
  intros Hs Hpq. rewrite runes_ascii by done. unfold bytes_of.
  induction s as [|c s IH]; [done|]. cbn in Hs |- *. apply andb_true_iff in Hs as [Hc Hs].
  by rewrite Hpq, IH.
Qed.

(** A normalised token is a fixed point of both string functions. *)
Lemma normalized_token_fix s : valid_utf8 s → isNormalizedToken s = true →
  ToLower s = s ∧ TrimSpace s = s.
Proof.
  intros Hv Hn. unfold isNormalizedToken in Hn. unfold ToLower, TrimSpace.
  destruct (is_ascii s) eqn:Ha.
  - rewrite (forallb_runes _ (λ c, negb (ascii_space c) && negb (ascii_upper c)) s Ha) in Hn.
    + split.
      * apply (smap_ext_forall (λ c, negb (ascii_space c) && negb (ascii_upper c))); [|done].
        intros c Hc. unfold lower_byte. by destruct (ascii_upper c); [rewrite andb_false_r in Hc|].
      * assert (sforall (λ c, negb (ascii_space c)) s = true) as Hsp.
        { eapply sforall_impl; [|exact Hn]. by intros c [??]%andb_true_iff. }
        rewrite trim_left_id by done. by apply trim_right_id.
    + intros c Hc. destruct c as [[][][][][][][][]]; done.
  - rewrite forallb_forall in Hn. split; [apply to_lower_fix|apply trim_space_fix]; try done;
      intros r Hr%list_elem_of_In; specialize (Hn r Hr); bool_simpl; done.
Qed.

Lemma normalize_alts_elem rest seen x :
  x ∈ normalize_alts rest seen → x ≠ "" ∧ x ∉ seen.
Proof.
  revert seen. induction rest as [|alt rest IH]; intros seen Hx; [by apply elem_of_nil in Hx|].
  cbn in Hx. destruct (String.eqb _ "") eqn:He; [by apply IH|]. case_bool_decide as Hs; [by apply IH|].
  apply elem_of_cons in Hx as [->|Hx]; [split; [by apply String.eqb_neq|done]|].
  apply IH in Hx. set_solver.
Qed.
Lemma normalize_alts_nodup rest seen :
  NoDup (normalize_alts rest seen) ∧ "" ∉ normalize_alts rest seen.
Proof.
  split; [|by intros [? _]%normalize_alts_elem].
  revert seen. induction rest as [|alt rest IH]; intros seen; [constructor|]. cbn.
  destruct (String.eqb _ ""); [done|]. case_bool_decide; [done|]. constructor; [|done].
  intros [_ Hx]%normalize_alts_elem. set_solver.
Qed.

Definition valid_record (b : Brand) : Prop :=
  valid_utf8 (Name b) ∧ valid_utf8 (OfficialDomain b) ∧ Forall valid_utf8 (alts b).

Lemma alts_normalized_fix rest seen :
  Forall valid_utf8 rest → alts_normalized seen rest = true →
  normalize_alts rest (list_to_set seen) = rest.
Proof.
  intros Hv. revert seen. induction Hv as [|alt rest Ha Hv IH]; intros seen Hn; [done|].
  cbn in Hn |- *. destruct (String.eqb alt "") eqn:He; [done|]. cbn [orb] in Hn.
  destruct (isNormalizedToken alt) eqn:Ht; [|done]. cbn [negb] in Hn.
  destruct (in_list alt seen) eqn:Hin; [done|].
  destruct (normalized_token_fix alt Ha Ht) as [Hl Hs]. rewrite Hs, Hl, He.
  rewrite bool_decide_false.
  - f_equal. rewrite <-(IH _ Hn) at 2. f_equal. rewrite list_to_set_app_L. set_solver.
  - rewrite elem_of_list_to_set. intros Hc. apply in_list_spec in Hc. congruence.
Qed.

(** The fast path is sound: on records of valid UTF-8, a record the scan takes
    for normalised is exactly what the slow path would make of it; and the slow
    path's result has no empty, and no repeated, alternative domain. *)
Theorem normalize_fast_path b :
  valid_record b →
  normalizeBrandRecord b = normalizeBrandRecordSlow b
  ∧ NoDup (alts (normalizeBrandRecord b)) ∧ "" ∉ alts (normalizeBrandRecord b).
Proof.
  intros (Hn & Ho & Ha).
  assert (normalizeBrandRecord b = normalizeBrandRecordSlow b) as He.
  { unfold normalizeBrandRecord, normalizeBrandRecordSlow.
    destruct (isNormalizedBrandRecord b) eqn:E; [|done]. unfold isNormalizedBrandRecord in E.
    destruct (isNormalizedToken (Name b)) eqn:E1; [|done].
    destruct (isNormalizedToken (OfficialDomain b)) eqn:E2; [|done]. cbn [negb orb] in E.
    destruct b as [id n o [a|] c u]; [|done]. cbn in *.
    destruct (normalized_token_fix n Hn E1) as [Hl Hs], (normalized_token_fix o Ho E2) as [Hl' Hs'].
    rewrite Hs, Hl, Hs', Hl'. f_equal. f_equal. symmetry. by apply (alts_normalized_fix a []). }
  split; [done|]. rewrite He. cbn. by apply normalize_alts_nodup.
Qed.
End Normal.

(** ** Spoof detection *)

Section Imitation.
Context `{UnicodeTables, RuneTables, IdnaLib}.

(** The skeleton is one of the accepted typing errors away from the name. *)
Definition near (sk name : string) : Prop :=
  let '(maxWDist, maxDist) := max_distances (Nat.min (slen name) (slen sk)) in
  (∃ n, least 2 half_incr (runes sk) (runes name) n ∧ (0 < n <= maxWDist)%Z)
  ∨ (0 < LevenshteinDistance sk name <= maxDist)%Z.
Definition visual (brand : Brand) (d : Subject) (i : nat) (label : string) : Prop :=
  skLabel d i label = Name brand ∧ label ≠ Name brand ∧ s_homoglyph d = true.
(** A label that counts for the typosquat checks. *)
Definition typo_candidate (brand : Brand) (d : Subject) (i : nat) (label : string) : Prop :=
  s_labels d !! i = Some label ∧ typo_skipped (s_labels d) label = false
  ∧ 4 ≤ slen (Name brand) ∧ 4 ≤ slen (skLabel d i label).
(** A label left of the root that names the brand, as [kind]. *)
Definition names_brand (brand : Brand) (d : Subject) (i : nat) (label : string)
    (kind : brandLabelMatchKind) : Prop :=
  s_labels d !! i = Some label ∧ i < length (s_labels d) - length (Split (s_root d) ".")
  ∧ kind ≠ brandLabelNoMatch
  ∧ (classifyBrandLabel label (Name brand) = kind
     ∨ classifyBrandLabel (skLabel d i label) (Name brand) = kind).

Definition imitates (brand : Brand) (d : Subject) : Prop :=
  (∃ i label, typo_candidate brand d i label
     ∧ (visual brand d i label ∨ near (skLabel d i label) (Name brand)))
  ∨ keyword_hit brand d = true
  ∨ ∃ i label kind, names_brand brand d i label kind.

Definition sized (d : Subject) (name : string) : Prop :=
  length (runes name) ≤ 400 ∧
  ∀ i label, s_labels d !! i = Some label → length (runes (skLabel d i label)) ≤ 600.

Lemma max_distances_range n : (2 <= (max_distances n).1 <= 3)%Z ∧ (1 <= (max_distances n).2 <= 2)%Z.
Proof. unfold max_distances. by case_match. Qed.

(** The weighted test of the code, in halves. *)
Lemma weighted_test sk name limit :
  length (runes name) ≤ 400 → length (runes sk) ≤ 600 → (0 < limit <= 2000)%Z →
  let w := WeightedLevenshteinDistanceCapped sk name (half limit) in
  f_lt f_zero w && negb (f_lt (half limit) w) = true ↔
  ∃ n, least 2 half_incr (runes sk) (runes name) n ∧ (0 < n <= limit)%Z.
Proof.
  intros Hn Hs Hl. cbv zeta. destruct (weighted_halves sk name) as (n & Hleast & Hr & _ & Hc); [lia|].
  rewrite Hc by (unfold bound; lia). change f_zero with (half 0).
  assert ((∃ m, least 2 half_incr (runes sk) (runes name) m ∧ (0 < m <= limit)%Z)
          ↔ (0 < n <= limit)%Z) as ->.
  { split; [|by exists n]. intros (m & Hm & ?). by rewrite <-(least_unique _ _ _ _ _ _ Hm Hleast). }
  rewrite !half_lt by (unfold bound; repeat case_match; lia). rewrite andb_true_iff, negb_true_iff.
  rewrite Z.ltb_lt, Z.ltb_ge. destruct (Z.ltb_spec limit n); cbn [andb]; [|lia].
  repeat case_match; lia.
Qed.
Lemma unweighted_test sk name limit :
  let c := LevenshteinDistanceCapped sk name limit in
  (0 <? c)%Z && (c <=? limit)%Z = true ↔ (0 < LevenshteinDistance sk name <= limit)%Z.
Proof.
  cbv zeta. rewrite capped_distance, andb_true_iff, Z.ltb_lt, Z.leb_le.
  destruct (Z.ltb_spec limit (LevenshteinDistance sk name)); cbn [andb]; [|lia].
  repeat case_match; lia.
Qed.

Lemma typo_label_spec brand d i label :
  sized d (Name brand) → s_labels d !! i = Some label →
  is_Some (typo_label brand d i label) ↔
  typo_candidate brand d i label
  ∧ (visual brand d i label ∨ near (skLabel d i label) (Name brand)).
Proof.
  intros [Hn Hsz] Hi. specialize (Hsz i label Hi). unfold typo_label, typo_candidate, visual, near.
  set (sk := skLabel d i label) in *. set (name := Name brand) in *.
  destruct (typo_skipped _ _); [split; [by intros []|intros [(_ & ? & _) _]; done]|].
  destruct (Nat.ltb_spec (slen name `min` slen sk) 4) as [Hm|Hm].
  { split; [by intros []|intros [(_ & _ & ? & ?) _]; lia]. }
  pose proof (max_distances_range (slen name `min` slen sk)) as Hmax.
  destruct (max_distances _) as [maxWDist maxDist]. cbn [fst snd] in Hmax.
  pose proof (weighted_test sk name maxWDist Hn Hsz ltac:(lia)) as Hw.
  pose proof (unweighted_test sk name maxDist) as Hu.
  assert (String.eqb sk name && negb (String.eqb label name) && s_homoglyph d = true ↔
          sk = name ∧ label ≠ name ∧ s_homoglyph d = true) as Hv.
  { rewrite !andb_true_iff, String.eqb_eq, negb_true_iff, String.eqb_neq. tauto. }
  rewrite <-Hv, <-Hw, <-Hu. destruct (_ && s_homoglyph d); [split; [|done]; intros _|].
  { split_and!; [done|done|lia|lia|by left]. }
  destruct (f_lt f_zero _ && _); [split; [|done]; intros _; split_and!; [done|done|lia|lia|auto]|].
  destruct ((0 <? _)%Z && _); [split; [|done]; intros _; split_and!; [done|done|lia|lia|auto]|].
  split; [by intros []|]. by intros [_ [?|[?|?]]].
Qed.

Lemma first_label_spec f i labels :
  is_Some (first_label f i labels) ↔
  ∃ j label, labels !! j = Some label ∧ is_Some (f (i + j) label).
Proof.
  revert i. induction labels as [|l labels IH]; intros i; cbn [first_label].
  { split; [by intros []|by intros (j & ? & ? & _)]. }
  destruct (f i l) as [hit|] eqn:Hf.
  { split; [|done]. intros _. exists 0, l. rewrite Nat.add_0_r, Hf. eauto. }
  rewrite IH. split.
  - intros (j & label & Hj & Hs). exists (S j), label. by rewrite Nat.add_succ_r.
  - intros ([|j] & label & Hj & Hs); [|exists j, label; by rewrite Nat.add_succ_r in Hs].
    injection Hj as <-. rewrite Nat.add_0_r, Hf in Hs. by destruct Hs.
Qed.

Lemma subdomain_label_spec brand d i label :
  s_labels d !! i = Some label →
  is_Some (subdomain_label brand d i label) ↔ ∃ kind, names_brand brand d i label kind.
Proof.
  intros Hi. unfold subdomain_label, names_brand.
  destruct (Nat.ltb_spec i (length (s_labels d) - length (Split (s_root d) "."))) as [Hlt|Hge];
    [|split; [by intros []|intros (? & _ & ? & _); lia]].
  set (k := classifyBrandLabel label (Name brand)).
  set (k' := classifyBrandLabel (skLabel d i label) (Name brand)). cbv zeta.
  case_bool_decide as Hk; split.
  - by intros [].
  - intros (kind & _ & _ & Hne & Hor). destruct Hne. revert Hk Hor.
    destruct k, k'; cbn; try done; intros _ [<-|<-]; done.
  - intros _. exists (if Nat.ltb (kind_rank k) (kind_rank k') then k' else k).
    split_and!; [done..|]. case_match; auto.
  - done.
Qed.

Lemma check_brand_spec brand d :
  sized d (Name brand) →
  is_Some (check_brand d brand) ↔
  Name brand ≠ "" ∧ OfficialDomain brand ≠ "" ∧ is_official brand d = false ∧ imitates brand d.
Proof.
  intros Hsz. unfold check_brand, imitates.
  destruct (String.eqb_spec (Name brand) ""); [split; [by intros []|tauto]|].
  destruct (String.eqb_spec (OfficialDomain brand) ""); [split; [by intros []|tauto]|]. cbn [orb].
  destruct (is_official brand d); [split; [by intros []|by intros (_ & _ & ? & _)]|].
  assert (is_Some (first_label (typo_label brand d) 0 (s_labels d)) ↔
    ∃ i label, typo_candidate brand d i label
      ∧ (visual brand d i label ∨ near (skLabel d i label) (Name brand))) as Ht.
  { rewrite first_label_spec. split.
    - intros (j & label & Hj & Hs). exists j, label. by apply typo_label_spec.
    - intros (j & label & Hc & Hs). exists j, label. assert (Hj := proj1 Hc). split; [done|].
      by apply typo_label_spec. }
  assert (is_Some (first_label (subdomain_label brand d) 0 (s_labels d)) ↔
    ∃ i label kind, names_brand brand d i label kind) as Hs.
  { rewrite first_label_spec. split.
    - intros (j & label & Hj & Hs). exists j, label. by apply subdomain_label_spec.
    - intros (j & label & kind & Hk). exists j, label. assert (Hj := proj1 Hk). split; [done|].
      apply subdomain_label_spec; [done|eauto]. }
  rewrite <-Ht, <-Hs. destruct (first_label (typo_label brand d) 0 (s_labels d)) as [hit|].
  { split; [|done]. eauto 10. }
  destruct (keyword_hit brand d); [split; [|done]; eauto 10|].
  split; [intros; split_and!; eauto|]. intros (_ & _ & _ & [[]|[?|?]]); done.
Qed.

Lemma check_brands_spec d brands :
  is_Some (check_brands d brands) ↔
  ∃ b, b ∈ brands ∧ is_Some (check_brand d (normalizeBrandRecord b)).
Proof.
  induction brands as [|b brands IH]; cbn [check_brands].
  { split; [by intros []|by intros (? & ?%elem_of_nil & _)]. }
  destruct (check_brand d _) as [hit|] eqn:Hb.
  - split; [|done]. intros _. exists b. rewrite Hb. split; [by left|done].
  - rewrite IH. split; intros (b' & Hin & Hs); exists b'; [split; [by right|done]|].
    apply elem_of_cons in Hin as [->|Hin]; [rewrite Hb in Hs; by destruct Hs|done].
Qed.

(** C33: for brand names of at most 400 and labels of at most 600 runes, a domain is
    reported as a spoof exactly when it is not a Vietnamese government name, lies
    under no trusted brand's domain and no trusted infrastructure root, and
    imitates some brand of the list that does not own its root: by a label whose
    skeleton reads like the name or is within the accepted edit distances of it, by
    its main label, or by a subdomain label that names the brand. *)
Theorem spoof_exact domain score brands :
  let dom := ToLower (TrimSpace domain) in
  let brands' := match brands with [] => DetectionBrands DefaultTrustedBrands | _ => brands end in
  let d := subject dom score in
  (∀ b, b ∈ brands' → sized d (Name (normalizeBrandRecord b))) →
  is_Some (CheckBrandSpoofingWithBrands domain score brands) ↔
  dom ≠ "" ∧ isVietnamGovernmentRoot (getRootDomain dom) = false
  ∧ IsTrustedBrandSuffix dom brands' = false ∧ IsTrustedInfraSuffix dom = false
  ∧ ∃ b, b ∈ brands' ∧ let b' := normalizeBrandRecord b in
      Name b' ≠ "" ∧ OfficialDomain b' ≠ "" ∧ is_official b' d = false ∧ imitates b' d.
Proof.
  cbv zeta. intros Hsz. unfold CheckBrandSpoofingWithBrands.
  set (dom := ToLower (TrimSpace domain)) in *.
  set (brands' := match brands with [] => _ | _ => brands end) in *. cbv zeta.
  destruct (String.eqb_spec dom ""); [split; [by intros []|tauto]|].
  destruct (isVietnamGovernmentRoot _); [split; [by intros []|by intros (_ & ? & _)]|].
  destruct (IsTrustedBrandSuffix _ _); [split; [by intros []|by intros (_ & _ & ? & _)]|].
  destruct (IsTrustedInfraSuffix _); [split; [by intros []|by intros (_ & _ & _ & ? & _)]|].
  cbn [orb]. rewrite check_brands_spec. split.
  - intros (b & Hb & Hs). split_and!; [done..|]. exists b. split; [done|].
    by apply check_brand_spec; [apply Hsz|].
  - intros (_ & _ & _ & _ & b & Hb & Hs). exists b. split; [done|].
    by apply check_brand_spec; [apply Hsz|].
Qed.
End Imitation.

(** ** Penalties *)

Section Penalties.
Context `{UnicodeTables, RuneTables, IdnaLib}.

(** Evidence that keeps its full weight on shared infrastructure. *)
Definition full_weight (brand : Brand) (d : Subject) : Prop :=
  keyword_hit brand d = true ∨ (∃ i label, visual brand d i label)
  ∨ ∃ i label, names_brand brand d i label brandLabelHyphenPart.
Definition penalty_ok (brand : Brand) (d : Subject) (p : Z) : Prop :=
  ∃ base, p = tld_penalty d base
    ∧ (base = s_score d ∨ base = s_score d - 10 ∨ base = cdnInfraAdvisoryPenalty)%Z
    ∧ (s_cdn d = true → base = cdnInfraAdvisoryPenalty ∨ full_weight brand d).

Lemma typo_label_penalty brand d i label r p :
  typo_label brand d i label = Some (r, p) → penalty_ok brand d p.
Proof.
  unfold typo_label, penalty_ok, advisory_penalty. destruct (typo_skipped _ _); [done|].
  destruct (Nat.ltb _ 4); [done|]. destruct (String.eqb _ _ && _ && _) eqn:Hv.
  { intros [= _ <-]. exists (s_score d). split_and!; [done|by left|]. intros _. right. right. left.
    exists i, label. bool_simpl. done. }
  destruct (max_distances _) as [w l]. destruct (f_lt f_zero _ && _);
    [|destruct ((0 <? _)%Z && _); [|done]];
    intros [= _ <-]; exists (if s_cdn d then cdnInfraAdvisoryPenalty else s_score d);
    destruct (s_cdn d); split_and!; auto; done.
Qed.
Lemma subdomain_label_penalty brand d i label r p :
  s_labels d !! i = Some label → subdomain_label brand d i label = Some (r, p) → penalty_ok brand d p.
Proof.
  intros Hi. unfold subdomain_label, penalty_ok. destruct (Nat.ltb_spec i (length (s_labels d) -
    length (Split (s_root d) "."))) as [Hlt|]; [|done]. cbv zeta.
  set (k := classifyBrandLabel label _). set (k' := classifyBrandLabel (skLabel d i label) _).
  case_bool_decide as Hk; [done|]. intros [= _ <-].
  destruct (s_cdn d) eqn:Hc; cbn [andb]; [|exists (s_score d - 10)%Z; split_and!; auto; done].
  case_bool_decide as Hh; cbn [negb];
    [exists (s_score d - 10)%Z|exists cdnInfraAdvisoryPenalty; split_and!; auto].
  split_and!; [done|auto|]. intros _.
  right. right. right. exists i, label. unfold names_brand. split_and!; [done..|].
  fold k k'. destruct (Nat.ltb _ _); auto.
Qed.
Lemma first_label_hit f i labels hit :
  first_label f i labels = Some hit → ∃ j label, labels !! j = Some label ∧ f (i + j) label = Some hit.
Proof.
  revert i. induction labels as [|l labels IH]; intros i; cbn [first_label]; [done|].
  destruct (f i l) as [h|] eqn:Hf.
  - intros [= <-]. exists 0, l. by rewrite Nat.add_0_r.
  - intros (j & label & ? & ?)%IH. exists (S j), label. by rewrite Nat.add_succ_r.
Qed.
Lemma check_brand_penalty brand d r p : check_brand d brand = Some (r, p) → penalty_ok brand d p.
Proof.
  unfold check_brand. destruct (_ || _); [done|]. destruct (is_official _ _); [done|].
  destruct (first_label (typo_label brand d) 0 _) as [[r' p']|] eqn:Ht.
  { intros [= <- <-]. apply first_label_hit in Ht as (j & label & _ & Ht). by eapply typo_label_penalty. }
  destruct (keyword_hit brand d) eqn:Hk.
  { intros [= _ <-]. exists (s_score d). split_and!; [done|auto|]. intros _. right. by left. }
  intros (j & label & Hj & Hs)%first_label_hit. by eapply subdomain_label_penalty.
Qed.
Lemma check_brands_hit d brands hit : check_brands d brands = Some hit →
  ∃ b, b ∈ brands ∧ check_brand d (normalizeBrandRecord b) = Some hit.
Proof.
  induction brands as [|b brands IH]; cbn [check_brands]; [done|].
  destruct (check_brand d _) as [h|] eqn:Hb.
  - intros [= <-]. exists b. split; [by left|done].
  - intros (b' & ? & ?)%IH. exists b'. split; [by right|done].
Qed.

Lemma spoof_hit domain score brands reason p :
  CheckBrandSpoofingWithBrands domain score brands = Some (reason, p) →
  ∃ b, b ∈ match brands with [] => DetectionBrands DefaultTrustedBrands | _ => brands end
    ∧ penalty_ok (normalizeBrandRecord b) (subject (ToLower (TrimSpace domain)) score) p.
Proof.
  unfold CheckBrandSpoofingWithBrands. destruct (String.eqb _ ""); [done|]. cbv zeta.
  destruct (isVietnamGovernmentRoot _); [done|]. destruct (_ || _); [done|].
  intros (b & Hb & Hp%check_brand_penalty)%check_brands_hit. by exists b.
Qed.
Lemma brand_hit_base domain score brands reason p :
  CheckBrandSpoofingWithBrands domain score brands = Some (reason, p) →
  ∃ base, (base = score ∨ base = score - 10 ∨ base = 10)%Z
    ∧ p = (base + if in_list (s_tld (subject (ToLower (TrimSpace domain)) score)) suspiciousTLDs
                  then 20 else 0)%Z.
Proof.
  intros (b & _ & base & -> & Hbase & _)%spoof_hit. exists base. split; [exact Hbase|].
  unfold tld_penalty. destruct (in_list _ suspiciousTLDs); lia.
Qed.

(** The penalty of a report is the configured score, ten less, or ten, plus
    twenty under a suspicious TLD; and beneath a delegated CDN root it is at most
    thirty (below every verdict threshold on its own) unless some brand's name is
    spelled by look-alike characters, is a hyphen-separated part of a subdomain
    label, or is in the main label. *)
Theorem spoof_penalty domain score brands reason p :
  let dom := ToLower (TrimSpace domain) in
  let brands' := match brands with [] => DetectionBrands DefaultTrustedBrands | _ => brands end in
  let d := subject dom score in
  CheckBrandSpoofingWithBrands domain score brands = Some (reason, p) →
  (∃ base, (base = score ∨ base = score - 10 ∨ base = 10)%Z
    ∧ p = (base + if in_list (s_tld d) suspiciousTLDs then 20 else 0)%Z)
  ∧ (IsCDNRoot (getRootDomain dom) = true →
     (p <= 30)%Z ∨ ∃ b, b ∈ brands' ∧ full_weight (normalizeBrandRecord b) d).
Proof.
  cbv zeta. intros Hhit. split; [by apply brand_hit_base in Hhit|].
  apply spoof_hit in Hhit as (b & Hb & base & -> & _ & Hcdn). intros Hc.
  destruct (Hcdn Hc) as [->|Hf]; [left|right; by exists b].
  unfold tld_penalty, cdnInfraAdvisoryPenalty. destruct (in_list _ suspiciousTLDs); lia.
Qed.
End Penalties.

(** ** The detection list *)

Section Detection.
Context `{UnicodeTables, RuneTables}.
Definition brand_key (b : Brand) : string := ToLower (TrimSpace (Name b)).
(** The first record of every non-empty key. *)
Fixpoint firsts_by_key (brands : list Brand) (seen : gset string) : list Brand :=
  match brands with
  | [] => []
  | b :: brands =>
      if bool_decide (brand_key b ∈ seen) || String.eqb (brand_key b) "" then firsts_by_key brands seen
      else b :: firsts_by_key brands ({[brand_key b]} ∪ seen)
  end.
Lemma detection_loop_app l1 l2 seen out :
  detection_loop (l1 ++ l2)%list seen out =
  let '(seen', out') := detection_loop l1 seen out in detection_loop l2 seen' out'.
Proof.
  revert seen out. induction l1 as [|b l1 IH]; intros seen out; [done|]. cbn. by case_match.
Qed.
Lemma detection_loop_firsts l seen out :
  (detection_loop l seen out).2 = (out ++ firsts_by_key (normalizeBrandRecord <$> l) seen)%list.
Proof.
  revert seen out. induction l as [|b l IH]; intros seen out; cbn; [by rewrite app_nil_r|].
  unfold brand_key. case_match; [apply IH|]. by rewrite IH, <-app_assoc.
Qed.
Lemma DetectionBrands_firsts base :
  DetectionBrands base = firsts_by_key (normalizeBrandRecord <$> base ++ detectionBrandExtras)%list ∅.
Proof.
  unfold DetectionBrands. pose proof (detection_loop_app base detectionBrandExtras ∅ []) as Ha.
  destruct (detection_loop base ∅ []) as [seen out]. cbv beta iota in Ha. rewrite <-Ha.
  by rewrite detection_loop_firsts.
Qed.

Lemma firsts_by_key_elem l seen b : b ∈ firsts_by_key l seen ↔
  ∃ l1 l2, l = (l1 ++ b :: l2)%list ∧ brand_key b ≠ "" ∧ brand_key b ∉ seen
           ∧ brand_key b ∉ brand_key <$> l1.
Proof.
  revert seen. induction l as [|x l IH]; intros seen; cbn.
  { rewrite elem_of_nil. split; [done|]. by intros ([] & ? & ? & _). }
  destruct (bool_decide (brand_key x ∈ seen) || String.eqb (brand_key x) "") eqn:E.
  - rewrite IH. split.
    + intros (l1 & l2 & -> & ? & ? & ?). exists (x :: l1), l2. split_and!; [done..|].
      rewrite fmap_cons, not_elem_of_cons. split; [|done]. intros Heq.
      apply orb_true_iff in E as [E|E]; bool_simpl; congruence.
    + intros ([|y l1] & l2 & [= -> ->] & ? & ? & Hl1).
      * apply orb_true_iff in E as [E|E]; bool_simpl; congruence.
      * exists l1, l2. split_and!; [done..|]. rewrite fmap_cons, not_elem_of_cons in Hl1. tauto.
  - apply orb_false_iff in E as [Es He]. bool_simpl. rewrite elem_of_cons, IH. split.
    + intros [->|(l1 & l2 & -> & ? & Hs & ?)]; [exists [], l; split_and!; [done..|apply not_elem_of_nil]|].
      exists (x :: l1), l2. split_and!; [done..|set_solver|]. rewrite fmap_cons. set_solver.
    + intros ([|y l1] & l2 & [= -> ->] & ? & ? & Hl1); [by left|right]. exists l1, l2.
      rewrite fmap_cons in Hl1. split_and!; [done..|set_solver|set_solver].
Qed.
Lemma firsts_by_key_nodup l seen : NoDup (brand_key <$> firsts_by_key l seen).
Proof.
  revert seen. induction l as [|x l IH]; intros seen; cbn; [constructor|]. case_match; [done|].
  rewrite fmap_cons. constructor; [|done]. intros (b & Hk & Hb)%list_elem_of_fmap.
  apply firsts_by_key_elem in Hb as (l1 & l2 & _ & _ & Hs & _). set_solver.
Qed.

(** The detection list has exactly one record per name: the first record, in
    normal form, among the base list followed by the extras; so an operator's
    record under an extra's name takes its place. *)
Theorem detection_brands_firsts base b :
  NoDup (brand_key <$> DetectionBrands base)
  ∧ (b ∈ DetectionBrands base ↔
     ∃ l1 l2, normalizeBrandRecord <$> (base ++ detectionBrandExtras)%list = (l1 ++ b :: l2)%list
       ∧ brand_key b ≠ "" ∧ brand_key b ∉ brand_key <$> l1).
Proof.
  rewrite DetectionBrands_firsts. split; [apply firsts_by_key_nodup|].
  rewrite firsts_by_key_elem. set_solver.
Qed.
End Detection.

Module Examples.
#[local] Instance ex_tables : UnicodeTables := ascii_tables.
#[local] Instance ex_runes : RuneTables := {| rune_lower r := r; rune_space _ := false |}.
#[local] Instance ex_idna : IdnaLib := {| idna_to_unicode d := Some d |}.
#[local] Instance ex_rune_laws : RuneLaws.
Proof. by split. Qed.

Definition paypal : Brand := seed "paypal" "paypal.com" (Some ["paypal.me"]).

Lemma normalize_fast_path_witness :
  normalizeBrandRecord paypal = normalizeBrandRecordSlow paypal
  ∧ NoDup (alts (normalizeBrandRecord paypal)) ∧ "" ∉ alts (normalizeBrandRecord paypal).
Proof.
  apply (normalize_fast_path paypal). unfold valid_record, valid_utf8.
  split_and!; [by vm_compute..|]. repeat constructor; by vm_compute.
Defined.

Lemma spoof_exact_witness :
  let dom := ToLower (TrimSpace "www.paypa1.com") in
  let d := subject dom 50 in
  is_Some (CheckBrandSpoofingWithBrands "www.paypa1.com" 50 [paypal]) ↔
  dom ≠ "" ∧ isVietnamGovernmentRoot (getRootDomain dom) = false
  ∧ IsTrustedBrandSuffix dom [paypal] = false ∧ IsTrustedInfraSuffix dom = false
  ∧ ∃ b, b ∈ [paypal] ∧ let b' := normalizeBrandRecord b in
      Name b' ≠ "" ∧ OfficialDomain b' ≠ "" ∧ is_official b' d = false ∧ imitates b' d.
Proof.
  apply (spoof_exact "www.paypa1.com" 50 [paypal]).
  intros b ->%list_elem_of_singleton. split; [by apply Nat.leb_le; vm_compute|].
  intros i label Hl. apply Nat.leb_le.
  assert (i = 0 ∨ i = 1 ∨ i = 2) as [->|[->| ->]].
  { apply lookup_lt_Some in Hl. revert Hl. vm_compute. lia. }
  all: vm_compute in Hl; injection Hl as <-; vm_compute; reflexivity.
Defined.
Example paypa1_ex :
  CheckBrandSpoofingWithBrands "www.paypa1.com" 50 [paypal] =
    Some ("keyboard typosquatting of paypal brand (paypa1)", 50%Z)
  ∧ CheckBrandSpoofingWithBrands "login.paypal.com" 50 [paypal] = None
  ∧ CheckBrandSpoofingWithBrands "paypal.map.fastly.net" 50 [paypal] =
    Some ("suspicious brand subdomain usage (paypal)", 10%Z).
Proof. by vm_compute. Qed.

Lemma spoof_penalty_witness :
  let d := subject "paypal.map.fastly.net" 50 in
  (∃ base, (base = 50 ∨ base = 50 - 10 ∨ base = 10)%Z
    ∧ 10%Z = (base + if in_list (s_tld d) suspiciousTLDs then 20 else 0)%Z)
  ∧ (IsCDNRoot (getRootDomain "paypal.map.fastly.net") = true →
     (10 <= 30)%Z ∨ ∃ b, b ∈ [paypal] ∧ full_weight (normalizeBrandRecord b) d).
Proof.
  apply (spoof_penalty "paypal.map.fastly.net" 50 [paypal]
           "suspicious brand subdomain usage (paypal)" 10).
  vm_compute. reflexivity.
Defined.
End Examples.
