(* ===== verification/Lexical.v ===== *)
(** * The lexical analyser: [internal/analysis/analysis.go], [dga.go], [internal/config/analysis.go]

    [Analyze] scores a name from the name alone: punycode, length, hyphens,
    digits, scripts, keywords, the protected public-service name, brand spoofing
    and algorithmically generated labels; the verdict follows from the score.

    [math.Log2] is the class [Log2Math].  [ShannonEntropy] sums over a Go map,
    whose order is not fixed: the order is an argument ([freq_order]). *)

From Stdlib Require Import ZArith Lia Ascii String SpecFloat.
From S2P Require Import Prelude GoStr Hostname GoFloat EditDist Confusables Brand Category.

Class Log2Math := { Log2 : float64 → float64 }.

(** ** Configuration *)

Record AnalysisConfig := mkConfig {
  PunycodeScore : Z; LongDomainLength : Z; LongDomainScore : Z; HyphenCountThreshold : Z;
  HyphenScore : Z; DigitRatioThreshold : float64; DigitRatioScore : Z; MixedScriptScore : Z;
  Keywords : list string; KeywordBaseScore : Z; KeywordMatchScore : Z; KeywordMultipleBonus : Z;
  BrandSpoofingScore : Z; EntropyThreshold : float64; EntropyScore : Z
}.
Definition quarter : float64 := f_div f_one (f_of_Z 4).
Definition DefaultAnalysisConfig : AnalysisConfig :=
  mkConfig 35 24 15 3 10 quarter 10 25
    ["login"; "secure"; "verify"; "account"; "update"; "support"; "wallet"; "dichvucong"; "congan";
     "vneid"; "phatnguoi"; "xulyphat"; "nganhang"; "xacthuc"; "cungcap"]
    15 10 10 50 (f_of_Z 3) 35.

Section Config.
Context `{UnicodeTables}.
Definition GetKeywords (c : AnalysisConfig) : list string := ToLower <$> Keywords c.

Definition in_range (value lo hi : Z) : bool := (lo <=? value)%Z && (value <=? hi)%Z.
Definition ranges (c : AnalysisConfig) : list (string * Z * Z * Z) := [
  ("punycode_score", PunycodeScore c, 0, 100); ("long_domain_length", LongDomainLength c, 10, 253);
  ("long_domain_score", LongDomainScore c, 0, 100);
  ("hyphen_count_threshold", HyphenCountThreshold c, 1, 20);
  ("hyphen_score", HyphenScore c, 0, 100); ("digit_ratio_score", DigitRatioScore c, 0, 100);
  ("mixed_script_score", MixedScriptScore c, 0, 100);
  ("keyword_base_score", KeywordBaseScore c, 0, 100);
  ("keyword_match_score", KeywordMatchScore c, 0, 100);
  ("keyword_multiple_bonus", KeywordMultipleBonus c, 0, 100);
  ("brand_spoofing_score", BrandSpoofingScore c, 0, 100); ("entropy_score", EntropyScore c, 0, 100)
]%Z.
Fixpoint check_ranges (items : list (string * Z * Z * Z)) : option string :=
  match items with
  | [] => None
  | (name, value, lo, hi) :: items =>
      if negb (in_range value lo hi) then Some (name ++ " out of range") else check_ranges items
  end.
Fixpoint check_keywords (keywords : list string) (seen : gset string) : option string :=
  match keywords with
  | [] => None
  | keyword :: keywords =>
      let trimmed := TrimSpace keyword in
      if negb (String.eqb keyword trimmed)
      then Some "keywords must not contain leading or trailing whitespace"
      else
        let keyword := ToLower trimmed in
        if String.eqb keyword "" || Nat.ltb 64 (slen keyword)
        then Some "keywords must be non-empty and at most 64 characters"
        else if bool_decide (keyword ∈ seen) then Some "keywords must not contain duplicates"
        else check_keywords keywords ({[keyword]} ∪ seen)
  end.
(** [Validate]; [None] is a nil error, the texts name the field only. *)
Definition Validate (c : AnalysisConfig) : option string :=
  match check_ranges (ranges c) with
  | Some e => Some e
  | None =>
      if f_lt (DigitRatioThreshold c) f_zero || f_lt f_one (DigitRatioThreshold c)
      then Some "digit_ratio_threshold must be between 0 and 1"
      else if f_lt (EntropyThreshold c) f_zero || f_lt (f_of_Z 8) (EntropyThreshold c)
      then Some "entropy_threshold must be between 0 and 8"
      else if Nat.ltb 200 (length (Keywords c)) then Some "keywords must contain at most 200 entries"
      else check_keywords (Keywords c) ∅
  end.
End Config.

(** ** Entropy and bigrams *)

(** [frequencies[r]++] over the runes. *)
Definition frequencies (s : string) : gmap Z Z :=
  foldl (λ m r, <[r := (default 0 (m !! r) + 1)%Z]> m) ∅ (runes s).

(** The orders in which Go may range over a map. *)
Class MapOrder := {
  range_order : gmap Z Z → list (Z * Z);
  range_order_perm m : range_order m ≡ₚ map_to_list m
}.

Section Dga.
Context `{UnicodeTables, Log2Math, MapOrder}.

Definition entropy_step (length : float64) (entropy : float64) (count : Z) : float64 :=
  let p := f_div (f_of_Z count) length in f_sub entropy (f_mul p (Log2 p)).
Definition ShannonEntropy (s : string) : float64 :=
  if Nat.eqb (slen s) 0 then f_zero
  else foldl (entropy_step (f_of_Z (Z.of_nat (slen s)))) f_zero (range_order (frequencies s)).*2.

Definition englishBigrams : list string := [
  "ab"; "ac"; "ad"; "ag"; "al"; "am"; "an"; "ap"; "ar"; "as"; "at"; "av"; "ay"; "ba"; "be";
  "bi"; "bl"; "bo"; "br"; "bu"; "ca"; "ce"; "ch"; "ci"; "cl"; "co"; "cr"; "cu"; "da"; "de";
  "di"; "do"; "dr"; "ea"; "ec"; "ed"; "ee"; "ef"; "el"; "em"; "en"; "eo"; "er"; "es"; "et";
  "ev"; "ex"; "fe"; "fi"; "fl"; "fo"; "fr"; "ga"; "ge"; "gh"; "gi"; "gl"; "go"; "gr"; "gu";
  "ha"; "he"; "hi"; "ho"; "ia"; "ic"; "id"; "ie"; "if"; "ig"; "il"; "im"; "in"; "io"; "is";
  "it"; "iv"; "jo"; "ki"; "la"; "le"; "li"; "lo"; "ma"; "me"; "mi"; "mo"; "mu"; "na"; "nd";
  "ne"; "ng"; "ni"; "no"; "ns"; "nt"; "nu"; "oa"; "ob"; "oc"; "od"; "oe"; "of"; "og"; "oi";
  "ol"; "om"; "on"; "oo"; "op"; "or"; "os"; "ot"; "ou"; "ov"; "ow"; "pa"; "pe"; "ph"; "pi";
  "pl"; "po"; "pr"; "qu"; "ra"; "re"; "ri"; "ro"; "rs"; "rt"; "ru"; "ry"; "sa"; "se"; "sh";
  "si"; "so"; "sp"; "ss"; "st"; "su"; "ta"; "te"; "th"; "ti"; "to"; "tr"; "tu"; "ua"; "ub";
  "uc"; "ul"; "um"; "un"; "up"; "ur"; "us"; "ut"; "va"; "ve"; "vi"; "vo"; "wa"; "we"; "wh";
  "wi"; "wo"; "ya"; "yo"; "za"; "ck"; "eb"; "ft"; "fy"; "ke"; "ky"; "ny"; "ok"; "rk"; "zy"].

Definition lower_letter (r : Z) : bool := ((97 <=? r) && (r <=? 122))%Z.
Definition bigram_rune (r : Z) : bool := lower_letter r || ((48 <=? r) && (r <=? 57))%Z.
Fixpoint common_bigrams (seq : list Z) : Z :=
  match seq with
  | a :: (b :: _) as rest =>
      ((if lower_letter a && lower_letter b && in_list (string_of_runes [a; b]) englishBigrams
        then 1 else 0) + common_bigrams rest)%Z
  | _ => 0%Z
  end.
Definition englishBigramRatio (label : string) : float64 :=
  let seq := List.filter bigram_rune (runes (ToLower label)) in
  if Nat.ltb (length seq) 2 then f_one
  else f_div (f_of_Z (common_bigrams seq)) (f_of_Z (Z.of_nat (length seq - 1))).

(** The constants 0.35 and 0.85, and 0.35/2, which Go evaluates exactly before
    rounding. *)
Definition dgaIrregularBigramRatio : float64 := f_div (f_of_Z 35) (f_of_Z 100).
Definition dgaSoftEntropyFactor : float64 := f_div (f_of_Z 85) (f_of_Z 100).
Definition half_dga_ratio : float64 := f_div (f_of_Z 35) (f_of_Z 200).

Definition isDGASuspected (mainLabel : string) (entropyThreshold : float64) : bool :=
  if Nat.ltb (slen mainLabel) 10 then false
  else
    let entropy := ShannonEntropy mainLabel in
    let ratio := englishBigramRatio mainLabel in
    if f_lt entropyThreshold entropy then f_lt ratio dgaIrregularBigramRatio
    else if f_lt (f_mul entropyThreshold dgaSoftEntropyFactor) entropy
    then f_lt ratio half_dga_ratio
    else false.
End Dga.

(** ** The analyser *)

Section Analyzer.
Context `{UnicodeTables, HostServices, RuneTables, IdnaLib, Log2Math, MapOrder}.

Definition digitRatio (value : string) : float64 :=
  if String.eqb value "" then f_zero
  else f_div (f_of_Z (Z.of_nat (length (List.filter IsDigit (runes value)))))
             (f_of_Z (Z.of_nat (slen value))).

(** [hasLatin] and [hasNonLatin] *)
Definition script_step (p : bool * bool) (r : Z) : bool * bool :=
  let '(hasLatin, hasNonLatin) := p in
  if ((r =? 46) || (r =? 45))%Z || IsDigit r then p
  else if (r <=? 128)%Z then (true, hasNonLatin) else (hasLatin, true).
Definition mixedScripts (value : string) : bool :=
  let '(hasLatin, hasNonLatin) := foldl script_step (false, false) (runes value) in
  hasLatin && hasNonLatin.

Definition suspiciousKeywordStats (c : AnalysisConfig) (value : string) : Z * Z :=
  let keywordCount :=
    Z.of_nat (length (List.filter (categoryKeywordMatch value) (GetKeywords c))) in
  if (keywordCount =? 0)%Z then (0, 0)%Z
  else
    let keywordScore := (KeywordBaseScore c + keywordCount * KeywordMatchScore c)%Z in
    (keywordCount,
     if (2 <=? keywordCount)%Z then (keywordScore + KeywordMultipleBonus c)%Z else keywordScore).

Definition isProtectedVietnamPublicServiceAbuse (domain : string) : bool :=
  let domain := ToLower (TrimSpace domain) in
  if String.eqb domain "" || negb (Contains domain "dichvucong") then false
  else
    let root := getRootDomain domain in
    if String.eqb root "dichvucong.gov.vn" || HasSuffix root ".gov.vn" || HasSuffix domain ".gov.vn"
    then false
    else Contains root "dichvucong".

Definition protectedPublicServiceReason : string :=
  "protected Vietnamese public-service keyword abuse (dichvucong)".
Definition highEntropyDGAReason : string := "high_entropy_dga_suspected".

(** The running score with the reasons. *)
Definition tally : Type := Z * list string.
Definition add_if (b : bool) (points : Z) (reason : string) (t : tally) : tally :=
  if b then (t.1 + points, t.2 ++ [reason])%Z%list else t.

(** Checks 1 to 5. *)
Definition shape_score (c : AnalysisConfig) (domain : string) : tally :=
  add_if (mixedScripts domain) (MixedScriptScore c) "mixed script characters"
  (add_if (f_lt (DigitRatioThreshold c) (digitRatio domain)) (DigitRatioScore c) "high digit ratio"
  (add_if (HyphenCountThreshold c <=? Z.of_nat (Count domain "-"))%Z (HyphenScore c) "many hyphens"
  (add_if (LongDomainLength c <? Z.of_nat (slen domain))%Z (LongDomainScore c) "domain is long"
  (add_if (HasPrefix domain "xn--" || Contains domain ".xn--") (PunycodeScore c) "punycode detected"
    (0%Z, []))))).

Definition keyword_score (c : AnalysisConfig) (domain : string) (t : tally) : bool * tally :=
  let '(keywordCount, keywordScore) := suspiciousKeywordStats c domain in
  if (0 <? keywordScore)%Z then
    let t := add_if true keywordScore "phishing keyword pattern" t in
    (true, if (2 <=? keywordCount)%Z then (t.1, (t.2 ++ ["multiple phishing keywords"])%list) else t)
  else (false, t).

Definition protected_score (domain : string) (t : tally) : tally :=
  if isProtectedVietnamPublicServiceAbuse domain
  then (if (t.1 <? 75)%Z then 75%Z else t.1, (t.2 ++ [protectedPublicServiceReason])%list) else t.

Definition brand_score (c : AnalysisConfig) (brands : list Brand) (domain : string) (t : tally)
    : tally :=
  match CheckBrandSpoofingWithBrands domain (BrandSpoofingScore c) brands with
  | Some (reason, penalty) => (t.1 + penalty, t.2 ++ [reason])%Z%list
  | None => t
  end.

Definition dga_score (c : AnalysisConfig) (brands : list Brand) (domain : string)
    (hasSuspiciousKeyword : bool) (t : tally) : tally :=
  let rootDomain := getRootDomain domain in
  let mainLabel := getMainLabel domain in
  add_if (Nat.leb 10 (slen mainLabel) && negb (Contains mainLabel "-") && negb hasSuspiciousKeyword
          && negb (IsSharedHostingRoot rootDomain) && negb (IsTrustedBrandSuffix domain brands)
          && isDGASuspected mainLabel (EntropyThreshold c))
    (EntropyScore c) highEntropyDGAReason t.

Definition verdict_of_score (score : Z) : Verdict :=
  if (70 <=? score)%Z then VerdictMalicious
  else if (40 <=? score)%Z then VerdictSuspicious else VerdictSafe.

Definition category_of (domain : string) (verdict : Verdict) (reasons : list string) : string :=
  let category := ClassifyCategory domain in
  if String.eqb category "uncategorized" then
    if bool_decide (verdict = VerdictMalicious) then
      if existsb (λ r, Contains (ToLower r) "phishing") reasons then "phishing" else "malware"
    else if bool_decide (verdict = VerdictSuspicious) then "suspicious" else category
  else category.

(** [math.Min(1, 0.45+float64(score)/120)] *)
Definition confidence_of (score : Z) : float64 :=
  let f := f_add (f_div (f_of_Z 45) (f_of_Z 100)) (f_div (f_of_Z score) (f_of_Z 120)) in
  if f_lt f f_one then f else f_one.

Definition total_score (c : AnalysisConfig) (brands : list Brand) (domain : string) : tally :=
  let '(hasSuspiciousKeyword, t) := keyword_score c domain (shape_score c domain) in
  let '(score, reasons) :=
    dga_score c brands domain hasSuspiciousKeyword
      (brand_score c brands domain (protected_score domain t)) in
  (if (100 <? score)%Z then 100%Z else score, reasons).

Definition analyzeWithBrands (c : AnalysisConfig) (input : string) (brands : list Brand) : Result :=
  match NormalizeDomain input with
  | Err e => mkResult (TrimSpace input) VerdictInvalid f_one 100 [e] "uncategorized"
  | Ok domain =>
      let '(score, reasons) := total_score c brands domain in
      let verdict := verdict_of_score score in
      mkResult domain verdict (confidence_of score) score reasons
        (category_of domain verdict reasons)
  end.

(** [ListBrands] of the store, [Err] its error; [None] is a nil analyser or store. *)
Definition trustedBrands (listed : option (result (list Brand))) : list Brand :=
  match listed with
  | Some (Ok ((_ :: _) as brands)) => DetectionBrands brands
  | _ => DetectionBrands DefaultTrustedBrands
  end.
Definition localBrandSeed : list Brand :=
  DetectionBrands (normalizeBrandRecord <$> DefaultTrustedBrands).

Definition Analyze (c : AnalysisConfig) (listed : option (result (list Brand))) (input : string)
    : Result := analyzeWithBrands c input (trustedBrands listed).
Definition AnalyzeLocal (c : AnalysisConfig) (input : string) : Result :=
  analyzeWithBrands c input localBrandSeed.
End Analyzer.
