(* ===== verification/LexicalSpec.v ===== *)
(** * Properties of the lexical analyser

    Every result is well formed; the score stays between 0 and 100 when the brand
    penalty cannot be negative, and goes down to -10 when it can; names of trusted
    brands are judged on their shape and keywords only; the protected
    public-service name is always malicious; the store-free path is the path of an
    absent store. *)

From Stdlib Require Import ZArith Lia Ascii String SpecFloat.
From S2P Require Import Prelude GoStr Hostname GoFloat EditDist Confusables Brand Category Lexical.
From S2P Require Import SkeletonSpec BrandSpec.

Section Config.
Context `{UnicodeTables}.
Lemma in_range_spec v lo hi : in_range v lo hi = true ↔ (lo <= v <= hi)%Z.
Proof. unfold in_range. by rewrite andb_true_iff, !Z.leb_le. Qed.
Lemma check_ranges_all items : check_ranges items = None →
  Forall (λ it, in_range it.1.1.2 it.1.2 it.2 = true) items.
Proof.
  induction items as [|[[[name v] lo] hi] items IH]; cbn; [constructor|].
  destruct (in_range v lo hi) eqn:E; [|done]. intros Hn. constructor; [done|by apply IH].
Qed.
Lemma validate_ranges c : Validate c = None →
  Forall (λ it, (it.1.2 <= it.1.1.2 <= it.2)%Z) (ranges c).
Proof.
  unfold Validate. destruct (check_ranges (ranges c)) eqn:E; [done|]. intros _.
  eapply Forall_impl; [apply check_ranges_all, E|]. intros it Hit. by apply in_range_spec.
Qed.
(** The scores a valid configuration can have. *)
Lemma validate_scores c : Validate c = None →
  (0 <= PunycodeScore c ∧ 0 <= LongDomainScore c ∧ 0 <= HyphenScore c ∧ 0 <= DigitRatioScore c
   ∧ 0 <= MixedScriptScore c ∧ 0 <= KeywordBaseScore c ∧ 0 <= KeywordMatchScore c
   ∧ 0 <= KeywordMultipleBonus c ∧ 0 <= BrandSpoofingScore c ∧ 0 <= EntropyScore c)%Z.
Proof.
  intros Hv%validate_ranges. unfold ranges in Hv. rewrite !Forall_cons in Hv. cbn in Hv. lia.
Qed.
End Config.

Section Analyzer.
Context `{UnicodeTables, HostServices, RuneTables, IdnaLib, Log2Math, MapOrder}.

Lemma add_if_mono b points reason t : (0 <= points)%Z → (t.1 <= (add_if b points reason t).1)%Z.
Proof. unfold add_if. case_match; cbn; lia. Qed.

Lemma shape_score_nonneg c domain : Validate c = None → (0 <= (shape_score c domain).1)%Z.
Proof.
  intros Hv%validate_scores. unfold shape_score.
  repeat (etrans; [|apply add_if_mono; lia]). done.
Qed.
Lemma keyword_score_mono c domain t : Validate c = None → (t.1 <= (keyword_score c domain t).2.1)%Z.
Proof.
  intros Hv%validate_scores. unfold keyword_score.
  destruct (suspiciousKeywordStats c domain) as [n k]. destruct (Z.ltb_spec 0 k); [|done].
  case_match; cbn; lia.
Qed.
Lemma protected_score_mono domain t : (t.1 <= (protected_score domain t).1)%Z.
Proof. unfold protected_score. case_match; [|done]. cbn. destruct (Z.ltb_spec t.1 75); lia. Qed.
(** The least a configuration can make of a name: a report of a subdomain costs ten points
    of the brand score, which a configuration may set below ten. *)
Definition lowest_score (c : AnalysisConfig) : Z := Z.min 0 (BrandSpoofingScore c - 10).
Lemma brand_score_low c brands domain t :
  (0 <= BrandSpoofingScore c)%Z → (t.1 + lowest_score c <= (brand_score c brands domain t).1)%Z.
Proof.
  intros Hb. unfold brand_score, lowest_score.
  destruct (CheckBrandSpoofingWithBrands _ _ _) as [[reason p]|] eqn:E; [|lia]. cbn.
  apply brand_hit_base in E as (base & Hbase & ->). case_match; lia.
Qed.
Lemma dga_score_mono c brands domain k t :
  Validate c = None → (t.1 <= (dga_score c brands domain k t).1)%Z.
Proof. intros Hv%validate_scores. apply add_if_mono. lia. Qed.

(** The score before it is capped. *)
Lemma total_score_spec c brands domain :
  ∃ s, (total_score c brands domain).1 = (if (100 <? s)%Z then 100 else s)%Z
    ∧ (Validate c = None → lowest_score c <= s
       ∧ (isProtectedVietnamPublicServiceAbuse domain = true → 75 + lowest_score c <= s))%Z.
Proof.
  unfold total_score. pose proof (shape_score_nonneg c domain) as H0'.
  pose proof (keyword_score_mono c domain (shape_score c domain)) as Hk.
  destruct (keyword_score c domain (shape_score c domain)) as [k t]. cbn [snd] in Hk.
  pose proof (protected_score_mono domain t) as Hp.
  assert (isProtectedVietnamPublicServiceAbuse domain = true → (75 <= (protected_score domain t).1)%Z)
    as Hp75 by (unfold protected_score; intros ->; cbn; destruct (Z.ltb_spec t.1 75); lia).
  pose proof (brand_score_low c brands domain (protected_score domain t)) as Hb.
  pose proof (dga_score_mono c brands domain k (brand_score c brands domain (protected_score domain t)))
    as Hd.
  destruct (dga_score _ _ _ _ _) as [s rs]. cbn [fst] in *. exists s. split; [done|].
  intros Hv. specialize (H0' Hv). specialize (Hk Hv). specialize (Hd Hv).
  assert (0 <= BrandSpoofingScore c)%Z as H10 by (pose proof (validate_scores c Hv); lia). specialize (Hb H10).
  split; [lia|]. intros Hpr. specialize (Hp75 Hpr). lia.
Qed.

(** Normalising the spelling twice is normalising it once. *)
Lemma lower_trim_idemp d : is_ascii d = true → well_formed d →
  ToLower (TrimSpace (ToLower (TrimSpace d))) = ToLower (TrimSpace d).
Proof.
  intros Ha [_ _ _ Hr]. rewrite ascii_runes_allowed in Hr by done.
  assert (sforall (λ c, negb (ascii_space c)) d = true) as Hs
    by (eapply sforall_impl; [apply host_byte_not_space|done]).
  assert (is_ascii (smap lower_byte d) = true) as Hl by by rewrite is_ascii_lower.
  rewrite (TrimSpace_id d) by done. rewrite (ToLower_ascii d) by done. rewrite TrimSpace_id; [|done|].
  - rewrite ToLower_ascii by done. apply smap_lower_idemp.
  - rewrite sforall_smap. eapply sforall_impl; [|exact Hs]. intros c. by rewrite lower_byte_space.
Qed.
Lemma trusted_not_spoof d score brands :
  is_ascii d = true → well_formed d → brands ≠ [] → IsTrustedBrandSuffix d brands = true →
  CheckBrandSpoofingWithBrands d score brands = None.
Proof.
  intros Ha Hw Hb Ht. unfold CheckBrandSpoofingWithBrands. cbv zeta.
  destruct (String.eqb _ ""); [done|]. destruct (isVietnamGovernmentRoot _); [done|].
  assert (IsTrustedBrandSuffix (ToLower (TrimSpace d)) brands = true) as Ht'.
  { unfold IsTrustedBrandSuffix in *. by rewrite lower_trim_idemp. }
  destruct brands as [|b brands]; [done|]. by rewrite Ht'.
Qed.
Lemma local_seed : DetectionBrands DefaultTrustedBrands = localBrandSeed.
Proof. vm_compute. reflexivity. Qed.

(** A result of the analyser, its scores not below [low]. *)
Definition result_ok (low : Z) (r : Result) : Prop :=
  (RVerdict r = VerdictInvalid ∧ Score r = 100%Z ∧ Confidence r = f_one ∧ RCategory r = "uncategorized")
  ∨ ((low <= Score r <= 100)%Z ∧ RVerdict r = verdict_of_score (Score r)
     ∧ well_formed (RDomain r)
     ∧ f_lt f_one (Confidence r) = false
     ∧ (RVerdict r ≠ VerdictSafe → RCategory r ≠ "uncategorized")).

Lemma confidence_bound score : f_lt f_one (confidence_of score) = false.
Proof.
  unfold confidence_of. set (f := f_add _ _). destruct (f_lt f f_one) eqn:E; [|apply f_lt_irrefl].
  destruct (f_lt f_one f) eqn:E'; [|done]. rewrite <-(f_lt_irrefl f). symmetry. by eapply f_lt_trans.
Qed.
Lemma category_of_flagged domain v reasons :
  v ≠ VerdictSafe → v ≠ VerdictInvalid → category_of domain v reasons ≠ "uncategorized".
Proof.
  intros Hs Hi. unfold category_of. destruct (String.eqb_spec (ClassifyCategory domain) "uncategorized");
    [|done]. destruct v; try done; cbn; by repeat case_match.
Qed.
Lemma verdict_of_score_valid s : verdict_of_score s ≠ VerdictInvalid.
Proof. unfold verdict_of_score. by repeat case_match. Qed.

(** C36: under every configuration that passes validation, every result is well formed:
    either the input is not a name and the result is INVALID with score 100, or the name
    is normalised, the score is at most 100 and at least the smaller of 0 and the brand
    score less ten, the verdict is the one of the score, the confidence is at most one,
    and a flagged name has a category. So the scores lie between 0 and 100 when the
    configured brand score is at least ten, and between -10 and 100 in every case: a
    configuration may set the brand score from 0 to 9, and a report of a subdomain then
    lowers the score of the name. *)
Theorem analyze_result_ok c input brands :
  Validate c = None →
  result_ok (lowest_score c) (analyzeWithBrands c input brands)
  ∧ (-10 <= lowest_score c <= 0)%Z ∧ ((10 <= BrandSpoofingScore c)%Z → lowest_score c = 0%Z)
  ∧ (RVerdict (analyzeWithBrands c input brands) = VerdictInvalid ↔
     is_ok (NormalizeDomain input) = false).
Proof.
  intros Hv. assert (-10 <= lowest_score c <= 0 ∧ (10 <= BrandSpoofingScore c → lowest_score c = 0))%Z as [Hlow Hten]
    by (pose proof (validate_scores c Hv); unfold lowest_score; lia).
  unfold analyzeWithBrands, result_ok.
  destruct (NormalizeDomain input) as [d|e] eqn:Hn; [|by split; [left|split; [done|split; [done|]]]].
  destruct (total_score_spec c brands d) as (s & Hs & Hok). destruct (Hok Hv) as [H0' _].
  destruct (total_score c brands d) as [score reasons]. cbn [fst] in Hs. subst score. cbn.
  split; [right|split; [done|split; [done|split; [by intros ?%verdict_of_score_valid|done]]]]. split_and!.
  - case_match; lia.
  - case_match; bool_simpl; lia.
  - done.
  - by apply (normalize_wf_aux input).
  - apply confidence_bound.
  - intros Hne. apply category_of_flagged; [done|apply verdict_of_score_valid].
Qed.

(** Under a valid configuration whose brand score is at least ten, a name outside .gov.vn
    whose root contains the protected public-service keyword is always malicious, whatever
    the brands. *)
Theorem protected_malicious c input brands d :
  Validate c = None → (10 <= BrandSpoofingScore c)%Z → NormalizeDomain input = Ok d →
  isProtectedVietnamPublicServiceAbuse d = true →
  RVerdict (analyzeWithBrands c input brands) = VerdictMalicious.
Proof.
  intros Hv H10 Hn Hp. unfold analyzeWithBrands. rewrite Hn.
  destruct (total_score_spec c brands d) as (s & Hs & Hok). destruct (Hok Hv) as [_ H75]. unfold lowest_score in H75.
  specialize (H75 Hp). destruct (total_score c brands d) as [score reasons]. cbn [fst] in Hs. subst score.
  cbn. unfold verdict_of_score. destruct (Z.ltb_spec 100 s); [done|].
  by destruct (Z.leb_spec 70 s); [|lia].
Qed.

(** A name at or beneath a domain of a trusted brand of the list gets no brand
    and no generated-label evidence: its score and reasons are those of its shape,
    its keywords and the protected public-service name, capped at 100. *)
Theorem trusted_shape_only c input brands d :
  NormalizeDomain input = Ok d → is_ascii d = true → brands ≠ [] →
  IsTrustedBrandSuffix d brands = true →
  let t := protected_score d (keyword_score c d (shape_score c d)).2 in
  let r := analyzeWithBrands c input brands in
  Score r = Z.min 100 t.1 ∧ Reasons r = t.2 ∧ RVerdict r = verdict_of_score (Z.min 100 t.1).
Proof.
  intros Hn Ha Hb Ht. cbv zeta. unfold analyzeWithBrands, total_score. rewrite Hn.
  destruct (keyword_score c d (shape_score c d)) as [k t]. cbn [snd].
  assert (brand_score c brands d (protected_score d t) = protected_score d t) as ->.
  { unfold brand_score. by rewrite trusted_not_spoof by (try done; by eapply normalize_wf_aux). }
  assert (dga_score c brands d k (protected_score d t) = protected_score d t) as ->.
  { unfold dga_score. by rewrite Ht, andb_false_r, andb_false_l. }
  destruct (protected_score d t) as [score reasons]. cbn.
  assert ((if (100 <? score)%Z then 100%Z else score) = Z.min 100 score) as ->
    by (destruct (Z.ltb_spec 100 score); lia). done.
Qed.

(** The store-free entry point gives the result of the general one whenever the
    store is absent, fails, is empty, or lists the built-in brands. *)
Theorem analyze_local_agrees c listed input :
  (∀ b bs, listed = Some (Ok (b :: bs)) → b :: bs = DefaultTrustedBrands) →
  Analyze c listed input = AnalyzeLocal c input.
Proof.
  intros Hl. unfold Analyze, AnalyzeLocal. f_equal.
  assert (trustedBrands listed = DetectionBrands DefaultTrustedBrands) as ->.
  { unfold trustedBrands. destruct listed as [[[|b bs]|]|]; try done. by rewrite (Hl b bs). }
  apply local_seed.
Qed.
End Analyzer.

Module Examples.
#[local] Instance ex_tables : UnicodeTables := ascii_tables.
#[local] Instance ex_services : HostServices := two_label_services.
#[local] Existing Instance BrandSpec.Examples.ex_runes.
#[local] Existing Instance BrandSpec.Examples.ex_idna.
(** The logarithms of a string whose characters are all different need one value. *)
#[local] Instance ex_log2 : Log2Math := {| Log2 p := f_of_Z (-4) |}.
#[local] Instance ex_order : MapOrder := {| range_order := map_to_list; range_order_perm _ := reflexivity _ |}.
Definition paypal := BrandSpec.Examples.paypal.
Definition default_config := DefaultAnalysisConfig.

(** With a brand score below ten a subdomain report lowers the score. *)
Definition no_brand_config : AnalysisConfig :=
  mkConfig 35 24 15 3 10 quarter 10 25 [] 15 10 10 0 (f_of_Z 3) 35.
Lemma analyze_result_ok_witness :
  let r := analyzeWithBrands no_brand_config "paypal.example.org" [paypal] in
  result_ok (-10) r ∧ Score r = (-10)%Z ∧ RVerdict r ≠ VerdictInvalid.
Proof.
  destruct (analyze_result_ok no_brand_config "paypal.example.org" [paypal]) as (Hr & _ & _ & Hv); [by vm_compute|].
  split; [exact Hr|]. split; [by vm_compute|]. intros Hi. apply Hv in Hi. vm_compute in Hi. done.
Defined.
Example paypal_login_ex :
  let r := analyzeWithBrands default_config "paypal-login.xyz" [paypal] in
  RVerdict r = VerdictMalicious ∧ Score r = 95%Z ∧ RCategory r = "phishing".
Proof. by vm_compute. Qed.

(** ... down to the bound. *)
Example negative_score :
  Validate no_brand_config = None
  ∧ Score (analyzeWithBrands no_brand_config "paypal.example.org" [paypal]) = (-10)%Z.
Proof. by vm_compute. Qed.

Lemma protected_malicious_witness :
  RVerdict (analyzeWithBrands default_config "dichvucong-online.com" [paypal]) = VerdictMalicious.
Proof.
  refine (protected_malicious default_config "dichvucong-online.com" [paypal] "dichvucong-online.com"
            _ _ _ _); [|apply Z.leb_le|..]; vm_compute; reflexivity.
Defined.

Lemma trusted_shape_only_witness :
  let t := protected_score "login.paypal.com"
    (keyword_score default_config "login.paypal.com" (shape_score default_config "login.paypal.com")).2 in
  let r := analyzeWithBrands default_config "login.paypal.com" [paypal] in
  Score r = Z.min 100 t.1 ∧ Reasons r = t.2 ∧ RVerdict r = verdict_of_score (Z.min 100 t.1).
Proof.
  refine (trusted_shape_only default_config "login.paypal.com" [paypal] "login.paypal.com"
            _ _ _ _); [| |done|]; vm_compute; reflexivity.
Defined.

Lemma analyze_local_agrees_witness :
  Analyze default_config (Some (Err "closed")) "paypa1.com" = AnalyzeLocal default_config "paypa1.com".
Proof. by apply (analyze_local_agrees default_config (Some (Err "closed")) "paypa1.com"). Defined.
End Examples.
