(* ===== verification/Feed.v ===== *)
(** * Threat feeds: [internal/feed/parse.go], [admission.go], [ttl.go]

    A feed is a text or CSV stream of domains and URLs.  The parser normalises
    each candidate and hands it to a callback with a duplicate flag from a set of
    bounded size; the admission planner is such a callback and classifies every
    host as authoritative or contextual.  The expiry of a member depends on
    whether its label is recycled.

    The stream as Go's [bufio.Scanner] and [encoding/csv] deliver it is an input
    ([FeedSource]): the peeked bytes, the lines with the scanner's error, and the
    successive results of the CSV reader.  [net/url], SHA-256, the public suffix
    list and the Unicode half of [strings.Fields] are the fields of [FeedLibs]. *)

From Stdlib Require Import ZArith Lia Ascii String.
From stdpp Require Import sorting.
From S2P Require Import Prelude GoStr Hostname NetIP GoFloat ClientIP Whitelist Brand.

Record url_parts := mkURL {
  u_hostname : string; u_escaped_path : string; u_raw_query : string; u_fragment : string
}.
Class FeedLibs := {
  (** [url.Parse]; [None] is its error *)
  parse_url : string → option url_parts;
  (** [sha256.Sum256] *)
  sha256_sum : string → string;
  (** [publicsuffix.PublicSuffix], first result *)
  public_suffix : string → string;
  (** [strings.Fields] of a string with bytes above ASCII *)
  unicode_fields : string → list string
}.

Record ParseStats := mkStats {
  Valid : Z; Invalid : Z; Duplicates : Z; Skipped : Z; SkippedPublicSuffix : Z;
  SkippedSharedHost : Z; ChurnProneTenants : Z; TruncatedDomains : Z
}.
Definition zero_stats : ParseStats := mkStats 0 0 0 0 0 0 0 0.
Definition add_valid (n : Z) (s : ParseStats) : ParseStats :=
  mkStats (Valid s + n) (Invalid s) (Duplicates s) (Skipped s) (SkippedPublicSuffix s)
    (SkippedSharedHost s) (ChurnProneTenants s) (TruncatedDomains s).
Definition add_invalid (n : Z) (s : ParseStats) : ParseStats :=
  mkStats (Valid s) (Invalid s + n) (Duplicates s) (Skipped s) (SkippedPublicSuffix s)
    (SkippedSharedHost s) (ChurnProneTenants s) (TruncatedDomains s).
Definition add_duplicate (s : ParseStats) : ParseStats :=
  mkStats (Valid s) (Invalid s) (Duplicates s + 1) (Skipped s) (SkippedPublicSuffix s)
    (SkippedSharedHost s) (ChurnProneTenants s) (TruncatedDomains s).
Definition add_skipped (s : ParseStats) : ParseStats :=
  mkStats (Valid s) (Invalid s) (Duplicates s) (Skipped s + 1) (SkippedPublicSuffix s)
    (SkippedSharedHost s) (ChurnProneTenants s) (TruncatedDomains s).
Definition add_refused (psl shared : bool) (s : ParseStats) : ParseStats :=
  mkStats (Valid s) (Invalid s) (Duplicates s) (Skipped s)
    (SkippedPublicSuffix s + if psl then 1 else 0) (SkippedSharedHost s + if shared then 1 else 0)
    (ChurnProneTenants s) (TruncatedDomains s).
Definition set_truncated (n : Z) (s : ParseStats) : ParseStats :=
  mkStats (Valid s) (Invalid s) (Duplicates s) (Skipped s) (SkippedPublicSuffix s)
    (SkippedSharedHost s) (ChurnProneTenants s) n.

Inductive IndicatorKind := IndicatorDomain | IndicatorURL.
#[export] Instance IndicatorKind_eq_dec : EqDecision IndicatorKind.
Proof. solve_decision. Defined.

(** The fingerprint of a whole domain is the zero array, here the empty string. *)
Record Indicator := mkInd {
  IDomain : string; Kind : IndicatorKind; PathScoped : bool; resourceFingerprint : string
}.

(** ** The bounded deduplication set *)

Definition defaultMaxDistinctFeedDomains : Z := 2000000.
Definition unboundedFeedDomains : Z := (-1)%Z.
(** [resolvedFeedDomainLimit] of the configured value *)
Definition resolvedFeedDomainLimit (configured : Z) : Z :=
  let limit := if (configured <? 0)%Z then 0%Z else configured in
  if (0 <? limit)%Z then limit else unboundedFeedDomains.

Record boundedSeenSet := mkSeen { seen_entries : gset string; seen_limit : Z; overflowed : Z }.
Definition newBoundedSeenSet (limit : Z) : boundedSeenSet :=
  mkSeen ∅ (if (limit <=? 0)%Z then unboundedFeedDomains else limit) 0.
Definition mark (s : boundedSeenSet) (domain : string) : boundedSeenSet * bool :=
  if bool_decide (domain ∈ seen_entries s) then (s, true)
  else if (0 <=? seen_limit s)%Z && (seen_limit s <=? Z.of_nat (size (seen_entries s)))%Z
  then (mkSeen (seen_entries s) (seen_limit s) (overflowed s + 1), true)
  else (mkSeen ({[domain]} ∪ seen_entries s) (seen_limit s) (overflowed s), false).

(** ** Candidates *)

(** The words of an ASCII string, [word] being the one under way. *)
Fixpoint ascii_fields (s word : string) : list string :=
  match s with
  | EmptyString => if String.eqb word "" then [] else [word]
  | String c s =>
      if ascii_space c
      then (if String.eqb word "" then [] else [word]) ++ ascii_fields s ""
      else ascii_fields s (word ++ String c "")
  end.

Section Parse.
Context `{UnicodeTables, HostServices, FeedLibs}.

(** [strings.Fields] *)
Definition Fields (s : string) : list string :=
  if is_ascii s then ascii_fields s "" else unicode_fields s.

Definition stripComment (value : string) : string :=
  if HasPrefix value "#" then ""
  else if Contains value "://" then value
  else match IndexByte value "#" with
       | Some i => TrimSpace (slice value 0 (Z.of_nat i))
       | None => value
       end.

Definition path_scoped (p : url_parts) : bool :=
  negb (String.eqb (u_escaped_path p) "") && negb (String.eqb (u_escaped_path p) "/")
  || negb (String.eqb (u_raw_query p) "") || negb (String.eqb (u_fragment p) "").
Definition resource_key (p : url_parts) : string :=
  u_escaped_path p ++ "?" ++ u_raw_query p ++ "#" ++ u_fragment p.

(** The candidate once its host is known. *)
Definition finish_indicator (value : string) (kind : IndicatorKind) (scoped : bool) (fp : string)
    : result Indicator :=
  match NormalizeDomain value with
  | Err e => Err e
  | Ok domain =>
      if negb (Contains domain ".") then Err "feed candidate must be a domain, not a single label"
      else Ok (mkInd domain kind scoped fp)
  end.

Definition normalizeIndicator (value : string) : result Indicator :=
  let value := TrimSpace value in
  if String.eqb value "" then Err "empty feed candidate"
  else
    let isURL := Contains value "://" || Contains value "/" && negb (HasPrefix value "/") in
    if isURL then
      let parseValue := if negb (Contains value "://") then "http://" ++ value else value in
      match parse_url parseValue with
      | None => Err "invalid feed url candidate"
      | Some parsed =>
          if String.eqb (u_hostname parsed) "" then Err "invalid feed url candidate"
          else finish_indicator (u_hostname parsed) IndicatorURL (path_scoped parsed)
                 (sha256_sum (resource_key parsed))
      end
    else finish_indicator value IndicatorDomain false "".

Fixpoint firstIndicator (fields : list string) : option Indicator :=
  match fields with
  | [] => None
  | field :: fields =>
      let field := stripComment (TrimSpace field) in
      if String.eqb field "" then firstIndicator fields
      else match normalizeIndicator field with
           | Ok i => Some i
           | Err _ => firstIndicator fields
           end
  end.

Fixpoint csv_line (ls : list string) : bool :=
  match ls with
  | [] => false
  | line :: ls =>
      let line := TrimSpace line in
      if String.eqb line "" || HasPrefix line "#" then csv_line ls else Contains line ","
  end.
Definition isProbablyCSV (peek : string) : bool :=
  if String.eqb peek "" then false else csv_line (Split peek (ascii_of_N 10)).
End Parse.

(** ** Streams *)

(** One result of the CSV reader. *)
Inductive csv_event := CsvEOF | CsvError | CsvRow (row : list string).

#[export] Instance csv_event_eq_dec : EqDecision csv_event.
Proof. solve_decision. Defined.

(** [scan_error]: the scanner's error, with whether it is [bufio.ErrTooLong]. *)
Record FeedSource := mkSource {
  peek : string; feed_lines : list string; scan_error : option (bool * string);
  rows : nat → csv_event
}.

Record pstate (S : Type) := mkP { stats : ParseStats; seen : boundedSeenSet; user : S }.
Arguments mkP {S} _ _ _.
Arguments stats {S} _.
Arguments seen {S} _.
Arguments user {S} _.
Definition with_stats {S} (f : ParseStats → ParseStats) (p : pstate S) : pstate S :=
  mkP (f (stats p)) (seen p) (user p).

Section Streams.
Context `{UnicodeTables, HostServices, FeedLibs} {S : Type}.
(** The callback, over the state [S] of its closure; [Some] is its error. *)
Variable onIndicator : S → Indicator → bool → S * option string.

Definition addIndicator (indicator : Indicator) (p : pstate S) : pstate S * option string :=
  let '(seen, duplicate) := mark (seen p) (IDomain indicator) in
  let stats := if duplicate then add_duplicate (stats p) else add_valid 1 (stats p) in
  let '(u, err) := onIndicator (user p) indicator duplicate in
  (mkP stats seen u, err).

(** [parsedAny], [lineHadValid] and [lineInvalid] of one line. *)
Record line_flags := mkFlags { parsedAny : bool; lineHadValid : bool; lineInvalid : Z }.

Fixpoint text_fields (fields : list string) (fl : line_flags) (p : pstate S)
    : pstate S * line_flags * option string :=
  match fields with
  | [] => (p, fl, None)
  | field :: fields =>
      if HasPrefix field "#" then (p, fl, None)
      else
        let field := stripComment (TrimSpace field) in
        if String.eqb field "" then text_fields fields fl p
        else match ParseIP (trim_brackets field) with
        | Some _ => text_fields fields fl p
        | None =>
            match normalizeIndicator field with
            | Err _ => text_fields fields (mkFlags true (lineHadValid fl) (lineInvalid fl + 1)) p
            | Ok indicator =>
                let '(p, err) := addIndicator indicator p in
                let fl := mkFlags true true (lineInvalid fl) in
                match err with
                | Some e => (p, fl, Some e)
                | None => text_fields fields fl p
                end
            end
        end
  end.

Definition text_line (line : string) (p : pstate S) : pstate S * option string :=
  let line := TrimSpace line in
  if String.eqb line "" || HasPrefix line "#" then (with_stats add_skipped p, None)
  else
    let '(p, fl, err) := text_fields (Fields line) (mkFlags false false 0) p in
    match err with
    | Some e => (p, Some e)
    | None =>
        (if negb (parsedAny fl) then with_stats add_skipped p
         else if lineHadValid fl then with_stats (add_invalid (lineInvalid fl)) p
         else if (0 <? lineInvalid fl)%Z then with_stats (add_invalid 1) p else p, None)
    end.

Fixpoint text_lines (lines : list string) (p : pstate S) : pstate S * option string :=
  match lines with
  | [] => (p, None)
  | line :: lines =>
      let '(p, err) := text_line line p in
      match err with Some e => (p, Some e) | None => text_lines lines p end
  end.

Definition parseTextStream (src : FeedSource) (p : pstate S) : pstate S * option string :=
  let '(p, err) := text_lines (feed_lines src) p in
  match err with
  | Some e => (p, Some e)
  | None =>
      (p, match scan_error src with
          | None => None
          | Some (true, e) => Some ("feed line exceeds 1048576 bytes: " ++ e)
          | Some (false, e) => Some e
          end)
  end.

(** The loop [for { row, err := cr.Read() ... }] from the [i]-th read on.  Nothing
    but an end of file or an error of the callback leaves it; [None] is a loop
    still running after [fuel] reads. *)
Fixpoint csv_loop (fuel i : nat) (src : FeedSource) (p : pstate S)
    : option (pstate S * option string) :=
  match fuel with
  | 0 => None
  | Datatypes.S fuel =>
      match rows src i with
      | CsvEOF => Some (p, None)
      | CsvError => csv_loop fuel (Datatypes.S i) src (with_stats (add_invalid 1) p)
      | CsvRow [] => csv_loop fuel (Datatypes.S i) src (with_stats add_skipped p)
      | CsvRow row =>
          match firstIndicator row with
          | None => csv_loop fuel (Datatypes.S i) src (with_stats (add_invalid 1) p)
          | Some indicator =>
              let '(p, err) := addIndicator indicator p in
              match err with
              | Some e => Some (p, Some e)
              | None => csv_loop fuel (Datatypes.S i) src p
              end
          end
      end
  end.
Definition parseCSVStream (fuel : nat) (src : FeedSource) (p : pstate S)
    : option (pstate S * option string) := csv_loop fuel 0 src p.

Definition parseIndicatorsWithLimit (fuel : nat) (src : FeedSource) (limit : Z) (u : S)
    : option (pstate S * option string) :=
  let p := mkP zero_stats (newBoundedSeenSet limit) u in
  let? pe := (if isProbablyCSV (peek src) then parseCSVStream fuel src p
              else Some (parseTextStream src p)) in
  let '(p, err) := pe in
  Some (with_stats (set_truncated (overflowed (seen p))) p, err).
End Streams.

(** [ParseEach]: the callback sees the first occurrence of each domain. *)
Definition ParseEach `{UnicodeTables, HostServices, FeedLibs} {S}
    (onDomain : S → string → S * option string) (fuel : nat) (src : FeedSource) (limit : Z) (u : S)
    : option (pstate S * option string) :=
  parseIndicatorsWithLimit
    (λ u i (duplicate : bool), if duplicate then (u, None) else onDomain u (IDomain i))
    fuel src limit u.

(** ** Admission *)

Inductive AdmissionMode := AdmissionLegacy | AdmissionShadow | AdmissionFilter.
#[export] Instance AdmissionMode_eq_dec : EqDecision AdmissionMode.
Proof. solve_decision. Defined.

Record admissionState := mkAdm {
  authoritative : bool; urlSeen : bool; pathScopedSeen : bool; resourceSeen : bool;
  firstResource : string; corroborated : bool
}.
Definition zero_admission : admissionState := mkAdm false false false false "" false.

Record AdmissionStats := mkAdmStats {
  Mode : AdmissionMode; AuthoritativeHosts : Z; ContextualHosts : Z; URLHosts : Z;
  PathScopedURLHosts : Z; CorroboratedURLHosts : Z; AuthoritativeRetention : float64
}.
Record AdmissionPlan := mkPlan {
  Authoritative : list string; Contextual : list string; PlanParseStats : ParseStats;
  PlanStats : AdmissionStats; UnclassifiableDomains : Z
}.

(** The evidence that speaks for the whole host. *)
Definition whole_host (mode : AdmissionMode) (i : Indicator) : bool :=
  bool_decide (mode = AdmissionLegacy) || bool_decide (Kind i = IndicatorDomain)
  || negb (PathScoped i) || bool_decide (is_Some (ParseIP (IDomain i))).

(** The callback's work on the state of one domain. *)
Definition admit_step (mode : AdmissionMode) (st : admissionState) (i : Indicator)
    : admissionState :=
  let st := if bool_decide (Kind i = IndicatorURL)
            then mkAdm (authoritative st) true (pathScopedSeen st || PathScoped i)
                   (resourceSeen st) (firstResource st) (corroborated st) else st in
  if whole_host mode i
  then mkAdm true (urlSeen st) (pathScopedSeen st) (resourceSeen st) (firstResource st)
         (corroborated st)
  else if negb (resourceSeen st)
  then mkAdm (authoritative st) (urlSeen st) (pathScopedSeen st) true (resourceFingerprint i)
         (corroborated st)
  else if negb (String.eqb (resourceFingerprint i) (firstResource st))
  then mkAdm true (urlSeen st) (pathScopedSeen st) (resourceSeen st) (firstResource st) true
  else st.

(** The callback: the states of the domains and [overCapacity]. *)
Definition plan_handler (mode : AdmissionMode) (limit : Z)
    (u : gmap string admissionState * Z) (i : Indicator) (_ : bool)
    : gmap string admissionState * Z * option string :=
  let '(states, overCapacity) := u in
  match states !! IDomain i with
  | Some st => ((<[IDomain i := admit_step mode st i]> states, overCapacity), None)
  | None =>
      if (0 <=? limit)%Z && (limit <=? Z.of_nat (size states))%Z
      then ((states, (overCapacity + 1)%Z), None)
      else ((<[IDomain i := admit_step mode zero_admission i]> states, overCapacity), None)
  end.

Definition count_states (f : admissionState → bool) (m : gmap string admissionState) : Z :=
  Z.of_nat (length (filter (λ kv, f kv.2 = true) (map_to_list m))).

(** The plan of the final states: Go's map order does not matter, since both lists
    are sorted. *)
Definition summarize (mode : AdmissionMode) (parseStats : ParseStats)
    (m : gmap string admissionState) (overCapacity : Z) : AdmissionPlan :=
  let auth := sort_strings (filter (λ kv, authoritative kv.2 = true) (map_to_list m)).*1 in
  let ctx := sort_strings (filter (λ kv, authoritative kv.2 ≠ true) (map_to_list m)).*1 in
  mkPlan auth ctx parseStats
    (mkAdmStats mode (Z.of_nat (length auth)) (Z.of_nat (length ctx)) (count_states urlSeen m)
       (count_states pathScopedSeen m) (count_states corroborated m)
       (if (0 <? Valid parseStats)%Z
        then f_div (f_of_Z (Z.of_nat (length auth))) (f_of_Z (Valid parseStats)) else f_zero))
    overCapacity.

Section Admission.
Context `{UnicodeTables, HostServices, FeedLibs}.

Definition NormalizeAdmissionMode (value : string) : result AdmissionMode :=
  let mode := TrimSpace value in
  if String.eqb mode "" then Ok AdmissionLegacy
  else if String.eqb mode "legacy" then Ok AdmissionLegacy
  else if String.eqb mode "corroborated-url-host-shadow" then Ok AdmissionShadow
  else if String.eqb mode "corroborated-url-host-filter" then Ok AdmissionFilter
  else Err "unsupported feed admission mode".

(** [configured] is the cap of the environment: the parser resolves its own. *)
Definition planAdmissionWithLimit (fuel : nat) (src : FeedSource) (mode : string)
    (limit configured : Z) : option (result AdmissionPlan) :=
  match NormalizeAdmissionMode mode with
  | Err e => Some (Err e)
  | Ok mode =>
      let limit := if (limit <=? 0)%Z then unboundedFeedDomains else limit in
      let? pe := parseIndicatorsWithLimit (plan_handler mode limit) fuel src
                   (resolvedFeedDomainLimit configured) (∅, 0%Z) in
      let '(p, err) := pe in
      Some (match err with
            | Some e => Err e
            | None => Ok (summarize mode (stats p) (user p).1 (user p).2)
            end)
  end.
Definition PlanAdmission (fuel : nat) (src : FeedSource) (mode : string) (configured : Z)
    : option (result AdmissionPlan) :=
  planAdmissionWithLimit fuel src mode (resolvedFeedDomainLimit configured) configured.
End Admission.

(** ** Refusals *)

Section Refusals.
Context `{UnicodeTables, FeedLibs}.

Definition isPublicSuffixMember (domain : string) : bool :=
  let value := ToLower (TrimSuffix (TrimSpace domain) ".") in
  if String.eqb value "" || bool_decide (is_Some (ParseIP value)) then false
  else let suffix := public_suffix value in
       negb (String.eqb suffix "") && EqualFold suffix value.
Definition isSharedServingRefused (domain : string) : bool :=
  IsSharedServingHost domain || IsSharedHostingRoot domain.
Definition IsAdmissibleDomain (domain : string) : bool :=
  negb (isPublicSuffixMember domain) && negb (isSharedServingRefused domain).

Definition admitFeedDomain (domain : string) (stats : ParseStats) : ParseStats * bool :=
  let pslRefused := isPublicSuffixMember domain in
  let sharedHostRefused := isSharedServingRefused domain in
  if pslRefused || sharedHostRefused
  then (add_refused pslRefused sharedHostRefused stats, false) else (stats, true).

(** The kept names are written over the front of the array they are read from, at
    indices already passed. *)
Fixpoint filterPublicSuffixMembers (domains : list string) (stats : ParseStats)
    : ParseStats * list string :=
  match domains with
  | [] => (stats, [])
  | domain :: domains =>
      let '(stats, ok) := admitFeedDomain domain stats in
      let '(stats, kept) := filterPublicSuffixMembers domains stats in
      (stats, if ok then domain :: kept else kept)
  end.

Definition shadowSampleCap : nat := 50.
Record ShadowDiff := mkDiff {
  ContextualLoaded : Z; ContextualPSLRefused : Z; ContextualSharedHostRefused : Z;
  Sample : list string
}.
Definition gap_step (diff : ShadowDiff) (domain : string) : ShadowDiff :=
  let pslRefused := isPublicSuffixMember domain in
  let sharedHostRefused := IsSharedServingHost domain || IsSharedHostingRoot domain in
  let psl := (ContextualPSLRefused diff + if pslRefused then 1 else 0)%Z in
  let shared := (ContextualSharedHostRefused diff + if sharedHostRefused then 1 else 0)%Z in
  if pslRefused || sharedHostRefused
  then mkDiff (ContextualLoaded diff) psl shared (Sample diff)
  else mkDiff (ContextualLoaded diff + 1) psl shared
         (if Nat.ltb (length (Sample diff)) shadowSampleCap
          then (Sample diff ++ [domain])%list else Sample diff).
Definition SummarizeShadowGap (contextual : list string) : ShadowDiff :=
  let diff := foldl gap_step (mkDiff 0 0 0 []) contextual in
  mkDiff (ContextualLoaded diff) (ContextualPSLRefused diff) (ContextualSharedHostRefused diff)
    (sort_strings (Sample diff)).
End Refusals.

(** ** Expiry

    A [time.Duration] is a signed 64-bit count of nanoseconds. *)

Definition wrap64 (z : Z) : Z := ((z + 2 ^ 63) mod 2 ^ 64 - 2 ^ 63)%Z.
Definition hour : Z := 3600000000000.
(** [time.Duration(days) * 24 * time.Hour] *)
Definition days_duration (days : Z) : Z := wrap64 (wrap64 (days * 24) * hour).

Definition DefaultSyncTTL : Z := days_duration 14.
Definition MinChurnTTLDays : Z := 2.

Definition TTLFromDays (days : Z) : result Z :=
  if (days <=? 0)%Z then Err ("ttl-days must be positive, got " ++ dec_string days)
  else Ok (days_duration days).
Definition ChurnTTLFromDays (days : Z) : result Z :=
  if (days <=? 0)%Z then Ok 0%Z
  else if (days <? MinChurnTTLDays)%Z
  then Err ("churn-ttl-days must be 0 (disabled) or at least 2, got " ++ dec_string days)
  else Ok (days_duration days).
(** [None] is a nil error; durations are not printed. *)
Definition CheckChurnTTLAgainstInterval (churn interval : Z) : option string :=
  if (churn <=? 0)%Z then None
  else if (interval <=? 0)%Z then Some "sync interval must be positive to validate the churn TTL"
  else if (churn <=? interval)%Z then Some "churn TTL must exceed the sync interval"
  else None.
Definition MemberTTL `{UnicodeTables} (domain : string) (base churn : Z) : Z :=
  let base := if (base <=? 0)%Z then DefaultSyncTTL else base in
  if (churn <=? 0)%Z || negb (IsChurnProneTenant domain) then base
  else if (base <=? churn)%Z then base else churn.
