(* ===== verification/FeedSpec.v ===== *)
(** * Properties of feed parsing and admission

    The parser hands over every candidate of a stream in order and counts the
    distinct domains up to its cap; the CSV loop ends exactly when the reader
    reports its end; the admission plan classifies exactly the retained hosts by
    the evidence of the whole stream; a recycled label only shortens an expiry. *)

From Stdlib Require Import ZArith Lia Ascii String.
From stdpp Require Import sorting.
From S2P Require Import Prelude GoStr Hostname NetIP GoFloat ClientIP Whitelist WhitelistSpec Feed.

(** ** The domains a bounded set retains *)

(** First occurrences, in order. *)
Definition first_step (acc : list string) (d : string) : list string :=
  if bool_decide (d ∈ acc) then acc else (acc ++ [d])%list.
Definition firsts (ds : list string) : list string := foldl first_step [] ds.
(** The first occurrences that fit in [limit]; a negative limit is no limit. *)
Definition retained (limit : Z) (ds : list string) : list string :=
  if (limit <? 0)%Z then firsts ds else take (Z.to_nat limit) (firsts ds).

Lemma firsts_snoc ds d : firsts (ds ++ [d])%list = first_step (firsts ds) d.
Proof. unfold firsts. by rewrite foldl_app. Qed.
Lemma elem_of_firsts ds d : d ∈ firsts ds ↔ d ∈ ds.
Proof.
  induction ds as [|x ds IH] using rev_ind; [done|]. rewrite firsts_snoc, elem_of_app.
  unfold first_step. case_bool_decide; rewrite ?elem_of_app, ?list_elem_of_singleton; naive_solver.
Qed.
Lemma NoDup_firsts ds : NoDup (firsts ds).
Proof.
  induction ds as [|x ds IH] using rev_ind; [constructor|]. rewrite firsts_snoc. unfold first_step.
  case_bool_decide; [done|]. apply NoDup_app. split_and!; [done| |apply NoDup_singleton].
  by intros y Hy ->%list_elem_of_singleton.
Qed.
Lemma NoDup_retained limit ds : NoDup (retained limit ds).
Proof.
  unfold retained. destruct (_ <? _)%Z; [apply NoDup_firsts|].
  eapply sublist_NoDup; [apply NoDup_firsts|apply sublist_take].
Qed.
Lemma retained_sub limit ds d : d ∈ retained limit ds → d ∈ ds.
Proof.
  unfold retained. destruct (_ <? _)%Z; rewrite <-(elem_of_firsts ds); [done|].
  intros (i & Hi)%list_elem_of_lookup. apply lookup_take_Some in Hi as [Hi _].
  by eapply list_elem_of_lookup_2.
Qed.

(** One more domain: retained, full, or added. *)
Lemma retained_snoc limit ds d :
  retained limit (ds ++ [d])%list =
  if bool_decide (d ∈ retained limit ds) then retained limit ds
  else if (0 <=? limit)%Z && (limit <=? Z.of_nat (length (retained limit ds)))%Z
  then retained limit ds else (retained limit ds ++ [d])%list.
Proof.
  unfold retained. rewrite firsts_snoc. unfold first_step.
  destruct (Z.ltb_spec limit 0) as [Hl|Hl].
  { by replace (0 <=? limit)%Z with false by (symmetry; apply Z.leb_gt; lia). }
  replace (0 <=? limit)%Z with true by (symmetry; apply Z.leb_le; lia). cbn [andb].
  rewrite length_take. set (F := firsts ds). set (k := Z.to_nat limit).
  destruct (decide (k ≤ length F)) as [Hk|Hk].
  - assert ((limit <=? Z.of_nat (k `min` length F))%Z = true) as -> by (apply Z.leb_le; lia).
    assert (take k (F ++ [d])%list = take k F) as Ht by (apply take_app_le; lia).
    repeat case_bool_decide; congruence.
  - assert ((limit <=? Z.of_nat (k `min` length F))%Z = false) as -> by (apply Z.leb_gt; lia).
    rewrite !(take_ge F) by lia. case_bool_decide; [by rewrite take_ge by lia|].
    apply take_ge. rewrite length_app. cbn. lia.
Qed.

(** ** Delivery *)

Section Delivery.
Context `{UnicodeTables, HostServices, FeedLibs}.

Fixpoint delivered_fields (fields : list string) : list Indicator :=
  match fields with
  | [] => []
  | field :: fields =>
      if HasPrefix field "#" then []
      else
        let f := stripComment (TrimSpace field) in
        if String.eqb f "" then delivered_fields fields
        else match ParseIP (trim_brackets f), normalizeIndicator f with
             | None, Ok i => i :: delivered_fields fields
             | _, _ => delivered_fields fields
             end
  end.
Definition delivered_line (line : string) : list Indicator :=
  let line := TrimSpace line in
  if String.eqb line "" || HasPrefix line "#" then [] else delivered_fields (Fields line).
(** The rows before the end of the file at read [n]. *)
Definition delivered_row (e : csv_event) : list Indicator :=
  match e with CsvRow row => option_list (firstIndicator row) | _ => [] end.
Definition delivered (n : nat) (src : FeedSource) : list Indicator :=
  if isProbablyCSV (peek src) then concat (delivered_row ∘ rows src <$> seq 0 n)
  else concat (delivered_line <$> feed_lines src).

Context {S : Type} (on : S → Indicator → bool → S * option string).
(** The callback has no errors of its own. *)
Context (Hon : ∀ u i b, (on u i b).2 = None).

(** What remains of the parser's state once the counts of invalid and skipped
    entries are forgotten. *)
Definition deliver (p : boundedSeenSet * S * Z * Z) (i : Indicator) : boundedSeenSet * S * Z * Z :=
  let '(sn, u, v, d) := p in
  let '(sn, dup) := mark sn (IDomain i) in
  (sn, (on u i dup).1, if dup then v else (v + 1)%Z, if dup then (d + 1)%Z else d).
Definition core (p : pstate S) : boundedSeenSet * S * Z * Z :=
  (seen p, user p, Valid (stats p), Duplicates (stats p)).

Lemma core_with_stats f p :
  Valid (f (stats p)) = Valid (stats p) → Duplicates (f (stats p)) = Duplicates (stats p) →
  core (with_stats f p) = core p.
Proof. unfold core, with_stats. cbn. by intros -> ->. Qed.
Lemma core_invalid n p : core (with_stats (add_invalid n) p) = core p.
Proof. by apply core_with_stats. Qed.
Lemma core_skipped p : core (with_stats add_skipped p) = core p.
Proof. by apply core_with_stats. Qed.

Lemma addIndicator_core i p :
  (addIndicator on i p).2 = None ∧ core (addIndicator on i p).1 = deliver (core p) i.
Proof.
  unfold addIndicator, core, deliver. destruct p as [st sn0 u0]. cbn.
  destruct (mark sn0 (IDomain i)) as [sn dup].
  pose proof (Hon u0 i dup) as He. destruct (on u0 i dup) as [u e]. cbn in *. subst e.
  split; [done|]. by destruct dup.
Qed.

Lemma text_fields_core fs fl p :
  (text_fields on fs fl p).2 = None ∧
  core (text_fields on fs fl p).1.1 = foldl deliver (core p) (delivered_fields fs).
Proof.
  revert fl p. induction fs as [|f fs IH]; intros fl p; [done|].
  cbn [text_fields delivered_fields]. destruct (HasPrefix f "#"); [done|]. cbv zeta.
  destruct (String.eqb _ ""); [apply IH|].
  destruct (ParseIP _); [apply IH|]. destruct (normalizeIndicator _) as [i|]; [|apply IH].
  destruct (addIndicator_core i p) as [He Hc]. destruct (addIndicator on i p) as [p' e].
  cbn [fst snd] in He, Hc. subst e. cbn [foldl]. rewrite <-Hc. apply IH.
Qed.

Lemma text_line_core l p :
  (text_line on l p).2 = None ∧ core (text_line on l p).1 = foldl deliver (core p) (delivered_line l).
Proof.
  unfold text_line, delivered_line. cbv zeta. destruct (_ || _); [by rewrite <-core_skipped|].
  destruct (text_fields_core (Fields (TrimSpace l)) (mkFlags false false 0) p) as [He Hc].
  destruct (text_fields on _ _ p) as [[p' fl] e]. cbn [fst snd] in He, Hc. subst e. cbn [fst snd]. split; [done|].
  rewrite <-Hc. repeat case_match; by rewrite ?core_skipped, ?core_invalid.
Qed.

Lemma text_lines_core ls p :
  (text_lines on ls p).2 = None ∧
  core (text_lines on ls p).1 = foldl deliver (core p) (concat (delivered_line <$> ls)).
Proof.
  revert p. induction ls as [|l ls IH]; intros p; [done|]. cbn [text_lines].
  rewrite fmap_cons. cbn [concat]. rewrite foldl_app.
  destruct (text_line_core l p) as [He Hc]. destruct (text_line on l p) as [p' e].
  cbn [fst snd] in He, Hc. subst e. rewrite <-Hc. apply IH.
Qed.

(** The CSV loop, given the end of the file at read [i + n]. *)
Lemma csv_loop_core n i fuel src p :
  rows src (i + n) = CsvEOF → (∀ j, j < n → rows src (i + j) ≠ CsvEOF) → n < fuel →
  ∃ p', csv_loop on fuel i src p = Some (p', None) ∧
    core p' = foldl deliver (core p) (concat (delivered_row ∘ rows src <$> seq i n)).
Proof.
  revert i fuel p. induction n as [|n IH]; intros i [|fuel] p Heof Hmin Hf; try lia; cbn [csv_loop].
  - rewrite Nat.add_0_r in Heof. rewrite Heof. by eexists.
  - assert (∀ p', ∃ p'', csv_loop on fuel (Datatypes.S i) src p' = Some (p'', None) ∧
      core p'' = foldl deliver (core p') (concat (delivered_row ∘ rows src <$> seq (Datatypes.S i) n)))
      as Hrec.
    { intros p'. apply IH; [by rewrite Nat.add_succ_comm| |lia].
      intros j Hj. rewrite Nat.add_succ_comm. apply Hmin. lia. }
    cbn [seq]. rewrite fmap_cons. cbn [concat]. rewrite foldl_app. unfold compose at 1.
    specialize (Hmin 0 ltac:(lia)) as H0'. rewrite Nat.add_0_r in H0'.
    destruct (rows src i) as [| |row]; [done| |]; cbn [delivered_row].
    + rewrite <-(core_invalid 1 p). apply Hrec.
    + destruct row as [|f row]; [rewrite <-(core_skipped p); apply Hrec|].
      destruct (firstIndicator (f :: row)) as [ind|]; simpl option_list.
      * destruct (addIndicator_core ind p) as [He Hc]. destruct (addIndicator on ind p) as [p1 e].
        cbn [fst snd] in He, Hc. subst e.
        change (foldl deliver (core p) [ind]) with (deliver (core p) ind).
        rewrite <-Hc. apply Hrec.
      * rewrite <-(core_invalid 1 p). apply Hrec.
Qed.
End Delivery.

(** ** What the bounded set makes of a sequence of domains *)

(** A domain met after [before] is reported as a duplicate when it was met, or is
    not retained. *)
Definition dup_flag (limit : Z) (before : list string) (d : string) : bool :=
  bool_decide (d ∈ before) || negb (bool_decide (d ∈ retained limit (before ++ [d])%list)).
Definition unretained (limit : Z) (ds : list string) : nat :=
  length (filter (λ d, d ∉ retained limit ds) ds).

(** A domain that was not retained when met never is. *)
Lemma retained_stable limit ds x d :
  d ∈ ds → d ∈ retained limit (ds ++ [x])%list ↔ d ∈ retained limit ds.
Proof.
  intros Hd. rewrite retained_snoc. case_bool_decide as Hx; [done|].
  destruct (_ && _) eqn:Hfull; [done|]. rewrite elem_of_app, list_elem_of_singleton.
  split; [intros [?| ->]; [done|]|by left]. exfalso. apply Hx. revert Hfull. unfold retained.
  destruct (Z.ltb_spec limit 0) as [Hl|Hl]; [intros _; by apply elem_of_firsts|].
  rewrite length_take. intros [?%Z.leb_gt|?%Z.leb_gt]%andb_false_iff; [lia|].
  rewrite take_ge by lia. by apply elem_of_firsts.
Qed.

Lemma filter_ext_elem {A} (P Q : A → Prop) `{!∀ x, Decision (P x), !∀ x, Decision (Q x)} (l : list A) :
  (∀ x, x ∈ l → P x ↔ Q x) → filter P l = filter Q l.
Proof.
  induction l as [|x l IH]; intros HPQ; [done|].
  rewrite !filter_cons, IH by (intros; apply HPQ; by right).
  specialize (HPQ x (list_elem_of_here _ _)). repeat case_decide; naive_solver.
Qed.

Lemma unretained_snoc limit ds d :
  unretained limit (ds ++ [d])%list =
  unretained limit ds + if bool_decide (d ∈ retained limit (ds ++ [d])%list) then 0 else 1.
Proof.
  unfold unretained. rewrite filter_app, length_app. f_equal.
  - f_equal. apply filter_ext_elem. intros x Hx. by rewrite retained_stable.
  - cbn. repeat case_decide; case_bool_decide; naive_solver.
Qed.

Lemma size_retained limit ds :
  size (list_to_set (retained limit ds) : gset string) = length (retained limit ds).
Proof. apply size_list_to_set, NoDup_retained. Qed.

Lemma mark_retained limit ds ov d :
  mark (mkSeen (list_to_set (retained limit ds)) limit ov) d =
  (mkSeen (list_to_set (retained limit (ds ++ [d])%list)) limit
     (ov + if bool_decide (d ∈ retained limit (ds ++ [d])%list) then 0 else 1)%Z,
   dup_flag limit ds d).
Proof.
  unfold mark, dup_flag. cbn [seen_entries seen_limit overflowed].
  rewrite (retained_snoc limit ds d), size_retained.
  destruct (decide (d ∈ retained limit ds)) as [Hd|Hd].
  { assert (d ∈ ds) by by eapply retained_sub.
    rewrite !bool_decide_true by (rewrite ?elem_of_list_to_set; done). by rewrite Z.add_0_r. }
  rewrite (bool_decide_false (d ∈ (list_to_set _ : gset _))) by by rewrite elem_of_list_to_set.
  rewrite (bool_decide_false (d ∈ retained limit ds)) by done.
  destruct (_ && _) eqn:Hfull.
  - rewrite (bool_decide_false (d ∈ retained limit ds)) by done. by rewrite orb_true_r.
  - rewrite (bool_decide_true (d ∈ (_ ++ [d])%list)) by set_solver.
    rewrite (bool_decide_false (d ∈ ds)).
    + rewrite Z.add_0_r. do 2 f_equal. rewrite list_to_set_app_L. set_solver.
    + intros Hin. apply Hd. rewrite <-(retained_stable limit ds d d Hin), retained_snoc.
      rewrite (bool_decide_false (d ∈ retained limit ds)) by done. rewrite Hfull. set_solver.
Qed.

(** The calls of the callback for a sequence of indicators. *)
Fixpoint flagged (limit : Z) (before : list string) (inds : list Indicator)
    : list (Indicator * bool) :=
  match inds with
  | [] => []
  | i :: inds =>
      (i, dup_flag limit before (IDomain i)) :: flagged limit (before ++ [IDomain i])%list inds
  end.
Definition run_calls {S} (on : S → Indicator → bool → S * option string)
    (u : S) (calls : list (Indicator * bool)) : S :=
  foldl (λ u c, (on u c.1 c.2).1) u calls.

(** The parser's state after the domains [ds], with [u] the callback's. *)
Definition parsed_state {S} (limit : Z) (ds : list string) (u : S)
    : boundedSeenSet * S * Z * Z :=
  let R := retained limit ds in
  (mkSeen (list_to_set R) limit (Z.of_nat (unretained limit ds)), u, Z.of_nat (length R),
   Z.of_nat (length ds - length R)).

Lemma length_retained limit ds : length (retained limit ds) ≤ length ds.
Proof.
  induction ds as [|d ds IH] using rev_ind; [unfold retained; cbn; by case_match; rewrite ?take_nil|].
  rewrite retained_snoc, length_app. cbn. case_bool_decide; [lia|]. case_match; [lia|].
  rewrite length_app. cbn. lia.
Qed.

Lemma dup_flag_length limit ds d :
  length (retained limit (ds ++ [d])%list) =
  length (retained limit ds) + if dup_flag limit ds d then 0 else 1.
Proof.
  pose proof (mark_retained limit ds 0 d) as Hm. unfold mark in Hm.
  cbn [seen_entries seen_limit] in Hm. apply (f_equal snd) in Hm.
  rewrite size_retained, (retained_snoc limit ds d) in Hm. rewrite retained_snoc.
  destruct (decide (d ∈ retained limit ds)) as [Hd|Hd].
  - rewrite !bool_decide_true in Hm by (rewrite ?elem_of_list_to_set; done).
    rewrite bool_decide_true by done. cbn [snd] in Hm. rewrite <-Hm. lia.
  - rewrite !(bool_decide_false (d ∈ retained limit ds)) in * by done.
    rewrite (bool_decide_false (d ∈ (list_to_set _ : gset _))) in Hm
      by by rewrite elem_of_list_to_set.
    destruct (_ && _); cbn [snd] in Hm; rewrite <-Hm, ?length_app; cbn; lia.
Qed.

Section Delivered.
Context `{UnicodeTables, HostServices, FeedLibs} {S : Type}.
Context (on : S → Indicator → bool → S * option string) (Hon : ∀ u i b, (on u i b).2 = None).

Lemma deliver_parsed limit ds u i :
  deliver on (parsed_state limit ds u) i =
  parsed_state limit (ds ++ [IDomain i])%list (on u i (dup_flag limit ds (IDomain i))).1.
Proof.
  unfold deliver, parsed_state. rewrite mark_retained, unretained_snoc, dup_flag_length, length_app.
  pose proof (length_retained limit ds).
  rewrite !pair_eq. split_and!; [f_equal; case_bool_decide|done| |];
    try destruct (dup_flag _ _ _); cbn [length]; lia.
Qed.
Lemma deliver_all limit inds ds u :
  foldl (deliver on) (parsed_state limit ds u) inds =
  parsed_state limit (ds ++ (IDomain <$> inds))%list (run_calls on u (flagged limit ds inds)).
Proof.
  revert ds u. induction inds as [|i inds IH]; intros ds u; cbn [foldl flagged].
  { by rewrite app_nil_r. }
  rewrite deliver_parsed, IH. rewrite fmap_cons. by rewrite <-app_assoc.
Qed.

(** The stream ends without an error of the reader: for a CSV, at read [n]. *)
Definition ends (n : nat) (src : FeedSource) : Prop :=
  if isProbablyCSV (peek src)
  then rows src n = CsvEOF ∧ ∀ j, j < n → rows src j ≠ CsvEOF
  else scan_error src = None.

Lemma parse_core n fuel src limit u :
  ends n src → n < fuel →
  ∃ st, let ds := IDomain <$> delivered n src in
    let l := seen_limit (newBoundedSeenSet limit) in
    parseIndicatorsWithLimit on fuel src limit u = Some (st, None)
    ∧ core st = parsed_state l ds (run_calls on u (flagged l [] (delivered n src)))
    ∧ TruncatedDomains (stats st) = Z.of_nat (unretained l ds).
Proof.
  intros He Hf. cbv zeta. unfold parseIndicatorsWithLimit, ends in *.
  set (p0 := mkP zero_stats (newBoundedSeenSet limit) u).
  set (l := seen_limit (newBoundedSeenSet limit)).
  assert (core p0 = parsed_state l [] u) as H0'.
  { unfold core, parsed_state, p0. cbn -[newBoundedSeenSet]. unfold retained. cbn.
    rewrite take_nil. by destruct (_ <? _)%Z. }
  assert (∃ p, (if isProbablyCSV (peek src) then parseCSVStream on fuel src p0
                else Some (parseTextStream on src p0)) = Some (p, None)
    ∧ core p = foldl (deliver on) (core p0) (delivered n src)) as (p & -> & Hc).
  { unfold delivered. destruct (isProbablyCSV _).
    - destruct He as [He Hmin]. by apply csv_loop_core.
    - destruct (text_lines_core on Hon (feed_lines src) p0) as [Hn Hc].
      unfold parseTextStream. destruct (text_lines on _ p0) as [p e]. cbn [fst snd] in Hn, Hc.
      subst e. rewrite He. eauto. }
  rewrite H0', deliver_all in Hc. eexists. split; [done|]. rewrite core_with_stats by done.
  split; [done|]. cbn. unfold core, parsed_state in Hc. by injection Hc as ->.
Qed.
End Delivered.

(** ** The parser's contract *)

(** A stream that ends is parsed completely: the callback is called for every
    candidate of the stream, in order and none left out, flagged as a duplicate
    exactly when its domain was met before or no longer fits under the cap; the
    counters say how many distinct domains were retained, how many calls were
    flagged, and how many were calls about domains beyond the cap. *)
Theorem parse_delivers `{UnicodeTables, HostServices, FeedLibs} {S}
    (on : S → Indicator → bool → S * option string) n fuel src limit u :
  (∀ u i b, (on u i b).2 = None) → ends n src → n < fuel →
  let inds := delivered n src in
  let ds := IDomain <$> inds in
  let l := seen_limit (newBoundedSeenSet limit) in
  ∃ st, parseIndicatorsWithLimit on fuel src limit u = Some (st, None)
    ∧ user st = run_calls on u (flagged l [] inds)
    ∧ Valid (stats st) = Z.of_nat (length (retained l ds))
    ∧ (Valid (stats st) + Duplicates (stats st))%Z = Z.of_nat (length inds)
    ∧ TruncatedDomains (stats st) = Z.of_nat (unretained l ds).
Proof.
  intros Hon He Hf. cbv zeta. destruct (parse_core on Hon n fuel src limit u He Hf) as (st & Hp & Hc & Ht).
  exists st. split; [done|]. unfold core, parsed_state in Hc. injection Hc as _ -> -> ->.
  pose proof (length_retained (seen_limit (newBoundedSeenSet limit)) (IDomain <$> delivered n src))
    as Hl. split_and!; [done..| |done]. revert Hl. rewrite length_fmap. cbn. lia.
Qed.

Section Termination.
Context `{UnicodeTables, HostServices, FeedLibs} {S : Type}.
Context (on : S → Indicator → bool → S * option string) (Hon : ∀ u i b, (on u i b).2 = None).

Lemma csv_loop_stops fuel i src p r :
  csv_loop on fuel i src p = Some r → ∃ j, i ≤ j < i + fuel ∧ rows src j = CsvEOF.
Proof.
  revert i p. induction fuel as [|fuel IH]; intros i p; [done|]. cbn [csv_loop].
  assert (∀ p', csv_loop on fuel (Datatypes.S i) src p' = Some r →
    ∃ j, i ≤ j < i + Datatypes.S fuel ∧ rows src j = CsvEOF)
    as Hrec by (intros p' (j & ? & ?)%IH; exists j; split; [lia|done]).
  destruct (rows src i) as [| |[|f row]] eqn:Hr; eauto with lia.
  destruct (firstIndicator _) as [ind|]; [|eauto].
  destruct (addIndicator_core on Hon ind p) as [He _]. destruct (addIndicator on ind p) as [p' e].
  cbn [snd] in He. subst e. eauto.
Qed.
End Termination.

(** The first read that reports the end of the file. *)
Lemma first_eof src n : rows src n = CsvEOF →
  ∃ m, m ≤ n ∧ rows src m = CsvEOF ∧ ∀ j, j < m → rows src j ≠ CsvEOF.
Proof.
  revert src. induction n as [n IH] using lt_wf_ind. intros src Hn.
  destruct (decide (Exists (λ j, rows src j = CsvEOF) (seq 0 n))) as [He|Hno].
  - apply Exists_exists in He as (j & Hj%elem_of_seq & He).
    destruct (IH j ltac:(lia) src He) as (m & ? & ?). exists m. split; [lia|done].
  - exists n. split_and!; [done..|]. intros j Hj He. apply Hno, Exists_exists. exists j.
    split; [apply elem_of_seq; lia|done].
Qed.

(** C35: with a callback that has no errors, reading a CSV stream returns if and
    only if the CSV reader reports the end of the file at some point: no other
    error of the reader ends the loop, so a stream whose reader keeps failing is
    read for ever. *)
Theorem csv_returns_iff_eof `{UnicodeTables, HostServices, FeedLibs} {S}
    (on : S → Indicator → bool → S * option string) src p :
  (∀ u i b, (on u i b).2 = None) →
  (∃ fuel r, parseCSVStream on fuel src p = Some r) ↔ (∃ n, rows src n = CsvEOF).
Proof.
  intros Hon. unfold parseCSVStream. split.
  - intros (fuel & r & Hr). apply (csv_loop_stops on Hon) in Hr as (j & _ & Hj). eauto.
  - intros (n & (m & _ & Hm & Hmin)%first_eof).
    destruct (csv_loop_core on Hon m 0 (m + 1) src p Hm Hmin) as (p' & Hp & _); [lia|eauto].
Qed.

(** ** Callbacks with errors

    A parse that ends without an error made every call of [flagged], each without
    an error; and whatever every call preserves holds in the end in any case. *)

Section Errors.
Context `{UnicodeTables, HostServices, FeedLibs} {S : Type}.
Context (on : S → Indicator → bool → S * option string).

(** The calls in order, none of which fails. *)
Fixpoint run_ok (u : S) (calls : list (Indicator * bool)) (u' : S) : Prop :=
  match calls with
  | [] => u = u'
  | c :: calls => ∃ u1, on u c.1 c.2 = (u1, None) ∧ run_ok u1 calls u'
  end.

(** The callback that remembers whether a call failed and never fails itself. *)
Definition watch (u : S * bool) (i : Indicator) (b : bool) : (S * bool) * option string :=
  let '(u', err) := on u.1 i b in
  ((u', u.2 && match err with None => true | Some _ => false end), None).
Lemma watch_ok u i b : (watch u i b).2 = None.
Proof. unfold watch. by destruct (on u.1 i b). Qed.
Definition watched (p : pstate S) : pstate (S * bool) := mkP (stats p) (seen p) (user p, true).

Lemma addIndicator_watch i p p' :
  addIndicator on i p = (p', None) → addIndicator watch i (watched p) = (watched p', None).
Proof.
  unfold addIndicator, watch, watched. cbn. destruct (mark _ _) as [sn dup].
  destruct (on (user p) i dup) as [u e]. by intros [= <- ->].
Qed.
Lemma text_fields_watch fs fl p p' fl' :
  text_fields on fs fl p = (p', fl', None) → text_fields watch fs fl (watched p) = (watched p', fl', None).
Proof.
  revert fl p. induction fs as [|f fs IH]; intros fl p; cbn [text_fields]; [by intros [= <- <-]|].
  destruct (HasPrefix f "#"); [by intros [= <- <-]|]. cbv zeta.
  destruct (String.eqb _ ""); [apply IH|]. destruct (ParseIP _); [apply IH|].
  destruct (normalizeIndicator _) as [ind|]; [|apply IH].
  destruct (addIndicator on ind p) as [p1 [e|]] eqn:Ha; [done|].
  rewrite (addIndicator_watch _ _ _ Ha). apply IH.
Qed.
Lemma text_line_watch l p p' :
  text_line on l p = (p', None) → text_line watch l (watched p) = (watched p', None).
Proof.
  unfold text_line. cbv zeta. destruct (_ || _); [by intros [= <-]|].
  destruct (text_fields on _ _ p) as [[p1 fl] [e|]] eqn:Hf; [done|].
  rewrite (text_fields_watch _ _ _ _ _ Hf). intros [= <-]. by repeat case_match.
Qed.
Lemma text_lines_watch ls p p' :
  text_lines on ls p = (p', None) → text_lines watch ls (watched p) = (watched p', None).
Proof.
  revert p. induction ls as [|l ls IH]; intros p; cbn [text_lines]; [by intros [= <-]|].
  destruct (text_line on l p) as [p1 [e|]] eqn:Hl; [done|].
  rewrite (text_line_watch _ _ _ Hl). apply IH.
Qed.
Lemma csv_loop_watch fuel i src p p' :
  csv_loop on fuel i src p = Some (p', None) →
  csv_loop watch fuel i src (watched p) = Some (watched p', None).
Proof.
  revert i p. induction fuel as [|fuel IH]; intros i p; cbn [csv_loop]; [done|].
  destruct (rows src i) as [| |[|f row]]; [by intros [= <-]|apply IH|apply IH|].
  destruct (firstIndicator _) as [ind|]; [|apply IH].
  destruct (addIndicator on ind p) as [p1 [e|]] eqn:Ha; [done|].
  rewrite (addIndicator_watch _ _ _ Ha). apply IH.
Qed.
Lemma csv_loop_more {T} (f : T → Indicator → bool → T * option string) fuel i src p r :
  csv_loop f fuel i src p = Some r → csv_loop f (fuel + 1) i src p = Some r.
Proof.
  revert i p. induction fuel as [|fuel IH]; intros i p; cbn [csv_loop Nat.add]; [done|].
  destruct (rows src i) as [| |[|g row]]; eauto. destruct (firstIndicator _); [|eauto].
  destruct (addIndicator f _ p) as [p1 [e|]]; eauto.
Qed.
Lemma run_calls_watch calls u b u' :
  run_calls watch (u, b) calls = (u', true) → b = true ∧ run_ok u calls u'.
Proof.
  revert u b. induction calls as [|c calls IH]; intros u b; cbn; [by intros [= <- ->]|].
  unfold watch at 2. cbn. destruct (on u c.1 c.2) as [u1 e] eqn:Ho. cbn. intros [Hb Hr]%IH.
  destruct b, e; try done. split; [done|]. by exists u1.
Qed.

Lemma parse_success fuel src limit u st :
  parseIndicatorsWithLimit on fuel src limit u = Some (st, None) →
  ∃ n, let ds := IDomain <$> delivered n src in
    let l := seen_limit (newBoundedSeenSet limit) in
    ends n src ∧ run_ok u (flagged l [] (delivered n src)) (user st)
    ∧ Valid (stats st) = Z.of_nat (length (retained l ds)).
Proof.
  intros Hp. set (l := seen_limit (newBoundedSeenSet limit)).
  assert (∃ n, n < fuel + 1 ∧ ends n src ∧
    parseIndicatorsWithLimit watch (fuel + 1) src limit (u, true) = Some (watched st, None))
    as (n & Hn & He & Hw).
  { unfold parseIndicatorsWithLimit, ends in *. destruct (isProbablyCSV _).
    - destruct (parseCSVStream on fuel src _) as [[p e]|] eqn:Hc; [|done].
      injection Hp as <- ->. unfold parseCSVStream in *. apply csv_loop_watch in Hc.
      pose proof (csv_loop_stops watch (λ u i b, watch_ok u i b) _ _ _ _ _ Hc) as (j & Hj & Heof).
      destruct (first_eof src j Heof) as (m & Hm & Hmeof & Hmin). exists m.
      split_and!; [lia|done|done|].
      change (mkP zero_stats (newBoundedSeenSet limit) (u, true))
        with (watched (mkP zero_stats (newBoundedSeenSet limit) u)).
      by rewrite (csv_loop_more watch fuel 0 src _ _ Hc).
    - unfold parseTextStream in *.
      destruct (text_lines on _ _) as [p [e|]] eqn:Ht; [done|]. apply text_lines_watch in Ht.
      unfold watched in Ht at 1. cbn in Ht. rewrite Ht. exists 0.
      destruct (scan_error src) as [[[] e]|]; [done..|]. injection Hp as <-.
      split_and!; [lia|done|done]. }
  destruct (parse_core watch watch_ok n (fuel + 1) src limit (u, true) He Hn) as (st' & Hst & Hc & _).
  rewrite Hst in Hw. injection Hw as ->. exists n. cbv zeta. split; [done|].
  unfold core, parsed_state, watched in Hc. cbn in Hc. injection Hc as _ Hu -> _.
  symmetry in Hu. by apply run_calls_watch in Hu as [_ ?].
Qed.
(** An invariant of the callback's state survives the parse, whether it ends with an
    error or not. *)
Context (P : S → Prop) (HP : ∀ u i b, P u → P (on u i b).1).
Lemma addIndicator_inv i p : P (user p) → P (user (addIndicator on i p).1).
Proof.
  intros Hp. unfold addIndicator. destruct (mark _ _) as [sn dup].
  pose proof (HP (user p) i dup Hp) as Hq. by destruct (on (user p) i dup).
Qed.
Lemma text_fields_inv fs fl p : P (user p) → P (user (text_fields on fs fl p).1.1).
Proof.
  revert fl p. induction fs as [|f fs IH]; intros fl p Hp; [done|]. cbn [text_fields]. cbv zeta.
  destruct (HasPrefix f "#"); [done|]. destruct (String.eqb _ ""); [by apply IH|].
  destruct (ParseIP _); [by apply IH|]. destruct (normalizeIndicator _) as [ind|]; [|by apply IH].
  pose proof (addIndicator_inv ind p Hp) as Ha.
  destruct (addIndicator on ind p) as [p1 [e|]]; [done|by apply IH].
Qed.
Lemma text_line_inv l p : P (user p) → P (user (text_line on l p).1).
Proof.
  intros Hp. unfold text_line. cbv zeta. destruct (_ || _); [done|].
  pose proof (text_fields_inv (Fields (TrimSpace l)) (mkFlags false false 0) p Hp) as Hf.
  destruct (text_fields on _ _ p) as [[p1 fl] [e|]]; [done|]. by repeat case_match.
Qed.
Lemma text_lines_inv ls p : P (user p) → P (user (text_lines on ls p).1).
Proof.
  revert p. induction ls as [|l ls IH]; intros p Hp; [done|]. cbn [text_lines].
  pose proof (text_line_inv l p Hp) as Hl. destruct (text_line on l p) as [p1 [e|]]; auto.
Qed.
Lemma csv_loop_inv fuel i src p r :
  P (user p) → csv_loop on fuel i src p = Some r → P (user r.1).
Proof.
  revert i p. induction fuel as [|fuel IH]; intros i p Hp; cbn [csv_loop]; [done|].
  destruct (rows src i) as [| |[|f row]]; [by intros [= <-]|by apply IH|by apply IH|].
  destruct (firstIndicator _) as [ind|]; [|by apply IH].
  pose proof (addIndicator_inv ind p Hp) as Ha.
  destruct (addIndicator on ind p) as [p1 [e|]]; [by intros [= <-]|by apply IH].
Qed.
Lemma parse_inv fuel src limit u st err :
  P u → parseIndicatorsWithLimit on fuel src limit u = Some (st, err) → P (user st).
Proof.
  intros Hu. unfold parseIndicatorsWithLimit. destruct (isProbablyCSV _).
  - unfold parseCSVStream. destruct (csv_loop on _ _ _ _) as [[p e]|] eqn:Hc; [|done].
    intros [= <- <-]. by apply csv_loop_inv in Hc.
  - unfold parseTextStream. pose proof (text_lines_inv (feed_lines src)
      (mkP zero_stats (newBoundedSeenSet limit) u) Hu) as Ht.
    destruct (text_lines on _ _) as [p [e|]]; cbn; by intros [= <- <-].
Qed.
End Errors.

(** The domains of the calls that are not flagged: the retained ones, in order. *)
Lemma flagged_fresh limit before inds :
  (retained limit before ++
   (IDomain <$> (filter (λ c, c.2 = false) (flagged limit before inds)).*1))%list =
  retained limit (before ++ (IDomain <$> inds))%list.
Proof.
  revert before. induction inds as [|i inds IH]; intros before; cbn [flagged].
  { by rewrite fmap_nil, !app_nil_r. }
  assert (before ++ (IDomain <$> i :: inds) = (before ++ [IDomain i]) ++ (IDomain <$> inds))%list
    as -> by by rewrite <-app_assoc.
  rewrite <-IH, filter_cons. cbn [snd].
  assert (retained limit (before ++ [IDomain i])%list =
          (retained limit before ++ if dup_flag limit before (IDomain i) then [] else [IDomain i])%list)
    as ->; [|by destruct (dup_flag _ _ _); rewrite <-app_assoc].
  pose proof (dup_flag_length limit before (IDomain i)) as Hl. rewrite retained_snoc in *.
  destruct (dup_flag _ _ _); (destruct (bool_decide (_ ∈ _)); [|destruct (_ && _)]);
    rewrite ?app_nil_r; rewrite ?length_app in Hl; cbn in Hl; done || lia.
Qed.

(** ** Admission *)

(** The evidence about one domain, in order. *)
Definition evidence_of (inds : list Indicator) (d : string) : list Indicator :=
  filter (λ i, IDomain i = d) inds.
(** The domain is named as a whole, or two different resources of it are. *)
Definition corroborating (mode : AdmissionMode) (ev : list Indicator) : Prop :=
  (∃ i, i ∈ ev ∧ whole_host mode i = true)
  ∨ ∃ i j, i ∈ ev ∧ j ∈ ev ∧ whole_host mode i = false ∧ whole_host mode j = false
           ∧ resourceFingerprint i ≠ resourceFingerprint j.
Definition scoped (mode : AdmissionMode) (ev : list Indicator) : list Indicator :=
  filter (λ i, whole_host mode i = false) ev.
Definition admit_all (mode : AdmissionMode) (ev : list Indicator) : admissionState :=
  foldl (admit_step mode) zero_admission ev.

Lemma admit_all_resource mode ev :
  (if resourceSeen (admit_all mode ev) then Some (firstResource (admit_all mode ev)) else None)
  = resourceFingerprint <$> head (scoped mode ev).
Proof.
  induction ev as [|i ev IH] using rev_ind; [done|].
  unfold admit_all, scoped in *. rewrite foldl_app, filter_app. cbn [foldl].
  set (st := foldl _ _ ev) in *. unfold admit_step. rewrite filter_cons.
  destruct (whole_host mode i) eqn:Hw.
  - rewrite decide_False by done. cbn. rewrite app_nil_r. by case_bool_decide.
  - rewrite decide_True by done. cbn. destruct (filter _ ev) as [|k ev'].
    + destruct st as [a u p [] f c]; [done|]. by case_bool_decide.
    + destruct st as [a u p [] f c]; [|done]. cbn in IH |- *. injection IH as <-.
      case_bool_decide; cbn; by destruct (String.eqb _ _).
Qed.

(** Some fingerprint differs from the first. *)
Definition differs (l : list Indicator) : bool :=
  match l with
  | [] => false
  | h :: _ => existsb (λ j, negb (String.eqb (resourceFingerprint j) (resourceFingerprint h))) l
  end.
Lemma admit_all_authoritative mode ev :
  authoritative (admit_all mode ev) = existsb (whole_host mode) ev || differs (scoped mode ev).
Proof.
  induction ev as [|i ev IH] using rev_ind; [done|].
  pose proof (admit_all_resource mode ev) as Hr. revert IH Hr.
  unfold admit_all, scoped. rewrite foldl_app, filter_app, existsb_app. cbn [foldl existsb].
  set (st := foldl _ _ ev). rewrite filter_cons. unfold admit_step.
  destruct (whole_host mode i) eqn:Hw.
  - rewrite !orb_true_r. by destruct (bool_decide _).
  - rewrite decide_True by done. cbn [orb]. rewrite orb_false_r.
    destruct (filter _ ev) as [|k ev']; destruct st as [a u p [] f c]; try done; cbn.
    + rewrite String.eqb_refl. intros -> _. by destruct (bool_decide _).
    + intros -> [= ->]. rewrite String.eqb_refl. cbn. rewrite existsb_app. cbn.
      destruct (bool_decide _), (String.eqb _ _); cbn; by rewrite ?orb_true_r, ?orb_false_r.
Qed.

Lemma differs_spec l :
  differs l = true ↔ ∃ i j, i ∈ l ∧ j ∈ l ∧ resourceFingerprint i ≠ resourceFingerprint j.
Proof.
  destruct l as [|h l]; [cbn; set_solver|]. unfold differs. rewrite existsb_exists. split.
  - intros (j & Hj%list_elem_of_In & Hne). bool_simpl. exists h, j. set_solver.
  - intros (i & j & Hi & Hj & Hne).
    destruct (decide (resourceFingerprint i = resourceFingerprint h)) as [He|He].
    + exists j. split; [by apply list_elem_of_In|]. apply negb_true_iff, String.eqb_neq. congruence.
    + exists i. split; [by apply list_elem_of_In|]. by apply negb_true_iff, String.eqb_neq.
Qed.

Lemma admit_all_spec mode ev : authoritative (admit_all mode ev) = true ↔ corroborating mode ev.
Proof.
  rewrite admit_all_authoritative, orb_true_iff, existsb_exists, differs_spec.
  unfold corroborating, scoped. setoid_rewrite list_elem_of_filter.
  setoid_rewrite <-list_elem_of_In. f_equiv. split.
  - intros (i & j & [? ?] & [? ?] & ?). eauto 10.
  - intros (i & j & ? & ? & ? & ? & ?). eauto 10.
Qed.

(** The planner's states after the indicators [inds]. *)
Definition planned (mode : AdmissionMode) (limit : Z) (inds : list Indicator)
    (u : gmap string admissionState * Z) : Prop :=
  let ds := IDomain <$> inds in
  (∀ d, u.1 !! d = if bool_decide (d ∈ retained limit ds)
                   then Some (admit_all mode (evidence_of inds d)) else None)
  ∧ u.2 = Z.of_nat (unretained limit ds).

Lemma evidence_of_snoc inds i d :
  evidence_of (inds ++ [i])%list d =
  (evidence_of inds d ++ if decide (IDomain i = d) then [i] else [])%list.
Proof. unfold evidence_of. by rewrite filter_app. Qed.

Lemma evidence_of_fresh inds d : d ∉ IDomain <$> inds → evidence_of inds d = [].
Proof.
  intros Hd. destruct (evidence_of inds d) as [|i l] eqn:He; [done|].
  assert (i ∈ evidence_of inds d) as [<- Hi]%list_elem_of_filter by (rewrite He; by left).
  destruct Hd. by apply list_elem_of_fmap_2.
Qed.
Lemma planned_size mode limit inds u :
  planned mode limit inds u → size u.1 = length (retained limit (IDomain <$> inds)).
Proof.
  intros [Hm _]. rewrite <-size_dom, <-(size_retained limit (IDomain <$> inds)). f_equal.
  apply set_eq. intros d. rewrite elem_of_dom, elem_of_list_to_set, Hm.
  case_bool_decide; split; [done|by eexists|by intros []|done].
Qed.

Lemma planned_step mode limit inds u i b :
  planned mode limit inds u →
  planned mode limit (inds ++ [i])%list (plan_handler mode limit u i b).1
  ∧ (plan_handler mode limit u i b).2 = None.
Proof.
  intros Hp. pose proof (planned_size _ _ _ _ Hp) as Hsz. destruct u as [m ov].
  destruct Hp as [Hm Hov]. cbn [fst snd] in *. unfold plan_handler, planned.
  rewrite fmap_app. cbn [fmap list_fmap]. set (ds := IDomain <$> inds) in *. set (d := IDomain i) in *.
  rewrite unretained_snoc, retained_snoc, Hm.
  destruct (decide (d ∈ retained limit ds)) as [Hd|Hd].
  - rewrite !(bool_decide_true (d ∈ retained limit ds)) by done.
    split; [|done]. cbn [fst snd]. split; [|lia]. intros d'. rewrite evidence_of_snoc.
    destruct (decide (d = d')) as [<-|Hne].
    + rewrite lookup_insert_eq, bool_decide_true by done. rewrite decide_True by done. unfold admit_all. by rewrite foldl_app.
    + rewrite lookup_insert_ne, Hm, decide_False by done. by rewrite app_nil_r.
  - rewrite !(bool_decide_false (d ∈ retained limit ds)) by done. rewrite Hsz.
    destruct (_ && _) eqn:Hfull; cbn [fst snd].
    + split; [|done]. rewrite (bool_decide_false (d ∈ retained limit ds)) by done. split; [|lia].
      intros d'. rewrite Hm, evidence_of_snoc. case_bool_decide; [|done].
      rewrite decide_False by by intros <-. by rewrite app_nil_r.
    + split; [|done]. rewrite bool_decide_true by set_solver. split; [|lia].
      intros d'. rewrite evidence_of_snoc. destruct (decide (d = d')) as [<-|Hne].
      * rewrite lookup_insert_eq, bool_decide_true by set_solver.
        rewrite decide_True, evidence_of_fresh; [done| |done].
        intros Hin. apply Hd. rewrite <-(retained_stable limit ds d d Hin), retained_snoc.
        rewrite (bool_decide_false (d ∈ retained limit ds)) by done. rewrite Hfull. set_solver.
      * rewrite lookup_insert_ne, Hm, decide_False, app_nil_r by done.
        erewrite bool_decide_ext; [done|]. set_solver.
Qed.

Lemma planned_nil mode limit : planned mode limit [] (∅, 0%Z).
Proof.
  split; [|done]. intros d. rewrite bool_decide_false; [done|].
  intros Hd%retained_sub. by apply elem_of_nil in Hd.
Qed.
Lemma plan_ok mode limit u i b : (plan_handler mode limit u i b).2 = None.
Proof. unfold plan_handler. destruct u. by repeat case_match. Qed.

Lemma run_calls_planned mode limit inds before u l bs :
  planned mode limit before u →
  planned mode limit (before ++ inds)%list
    (run_calls (plan_handler mode limit) u (flagged l bs inds)).
Proof.
  revert before u bs. induction inds as [|i inds IH]; intros before u bs Hp; [by rewrite app_nil_r|].
  cbn. rewrite (cons_middle i before), app_assoc. apply IH. by apply planned_step.
Qed.

Lemma elem_of_keys (P : admissionState → Prop)
    `{!∀ kv : string * admissionState, Decision (P kv.2)}
    (m : gmap string admissionState) d :
  d ∈ sort_strings (filter (λ kv, P kv.2) (map_to_list m)).*1 ↔ ∃ st, m !! d = Some st ∧ P st.
Proof.
  unfold sort_strings. rewrite merge_sort_Permutation, list_elem_of_fmap. split.
  - intros ([k st] & -> & [HP Hk]%list_elem_of_filter). apply elem_of_map_to_list in Hk. eauto.
  - intros (st & Hst & HP). exists (d, st). split; [done|]. apply list_elem_of_filter.
    split; [done|]. by apply elem_of_map_to_list.
Qed.
Lemma NoDup_keys (P : admissionState → Prop)
    `{!∀ kv : string * admissionState, Decision (P kv.2)}
    (m : gmap string admissionState) :
  NoDup (sort_strings (filter (λ kv, P kv.2) (map_to_list m)).*1).
Proof.
  unfold sort_strings. rewrite merge_sort_Permutation.
  apply NoDup_fmap_fst; [|apply NoDup_filter, NoDup_map_to_list].
  intros d st st' [_ H1]%list_elem_of_filter [_ H2]%list_elem_of_filter.
  apply elem_of_map_to_list in H1, H2. congruence.
Qed.

Section PlanProperties.
Context `{UnicodeTables, HostServices, FeedLibs}.

Lemma run_ok_calls {S} (on : S → Indicator → bool → S * option string) u calls u' :
  run_ok on u calls u' → u' = run_calls on u calls.
Proof.
  revert u. induction calls as [|c calls IH]; intros u; cbn; [done|].
  intros (u1 & -> & Hr). by apply IH.
Qed.

(** A plan was made from a complete stream, and its two lists are the retained domains. *)
Lemma plan_lists fuel src mode m limit configured plan :
  NormalizeAdmissionMode mode = Ok m →
  planAdmissionWithLimit fuel src mode limit configured = Some (Ok plan) →
  ∃ n, ends n src ∧ ∀ d, d ∈ (Authoritative plan ++ Contextual plan)%list ↔
    d ∈ retained (if (limit <=? 0)%Z then unboundedFeedDomains else limit)
          (IDomain <$> delivered n src).
Proof.
  unfold planAdmissionWithLimit. intros ->. set (l := if (limit <=? 0)%Z then _ else _).
  destruct (parseIndicatorsWithLimit _ _ _ _ _) as [[st [e|]]|] eqn:Hp; [done| |done].
  intros [= <-]. apply parse_success in Hp as (n & He & Hr%run_ok_calls & _). exists n. split; [done|].
  intros d. pose proof (run_calls_planned m l (delivered n src) [] (∅, 0%Z)
    (seen_limit (newBoundedSeenSet (resolvedFeedDomainLimit configured))) []
    (planned_nil m l)) as [Hm _].
  rewrite <-Hr in Hm. cbn [app] in Hm. rewrite elem_of_app. cbn [Authoritative Contextual summarize].
  rewrite (elem_of_keys (λ st, authoritative st = true)), (elem_of_keys (λ st, authoritative st ≠ true)).
  setoid_rewrite Hm. case_bool_decide; [|naive_solver].
  split; [done|intros _].
  destruct (authoritative (admit_all m (evidence_of (delivered n src) d))) eqn:Ha; [left|right];
    eexists; (split; [done|congruence]).
Qed.

(** C34: for a feed stream that ends, the plan lists, in order and without
    repetition, exactly the distinct domains that fit under the cap: as
    authoritative those the whole stream names as a whole (a bare domain, a URL
    without path, query or fragment, an IP address, or anything in legacy mode)
    or through two different resources, as contextual the others; the calls about
    domains beyond the cap are counted. *)
Theorem admission_exact n fuel src mode m limit configured :
  NormalizeAdmissionMode mode = Ok m → ends n src → n < fuel →
  let inds := delivered n src in
  let R := retained (if (limit <=? 0)%Z then unboundedFeedDomains else limit) (IDomain <$> inds) in
  ∃ plan, planAdmissionWithLimit fuel src mode limit configured = Some (Ok plan)
    ∧ (∀ d, d ∈ Authoritative plan ↔ d ∈ R ∧ corroborating m (evidence_of inds d))
    ∧ (∀ d, d ∈ Contextual plan ↔ d ∈ R ∧ ¬ corroborating m (evidence_of inds d))
    ∧ Sorted str_le (Authoritative plan) ∧ NoDup (Authoritative plan)
    ∧ Sorted str_le (Contextual plan) ∧ NoDup (Contextual plan)
    ∧ UnclassifiableDomains plan =
      Z.of_nat (length (filter (λ d, d ∉ R) (IDomain <$> inds))).
Proof.
  intros Hm He Hf inds R. unfold planAdmissionWithLimit. rewrite Hm.
  set (l := if (limit <=? 0)%Z then _ else _) in *.
  destruct (parse_core (plan_handler m l) (plan_ok m l) n fuel src
    (resolvedFeedDomainLimit configured) (∅, 0%Z) He Hf) as (st & -> & Hc & _).
  cbv beta iota. set (u := user st).
  assert (planned m l inds u) as [Hu Hov].
  { unfold core, parsed_state in Hc. apply (f_equal (λ x, x.1.1.2)) in Hc. cbn [fst snd] in Hc.
    subst u. rewrite Hc. by apply (run_calls_planned m l inds []), planned_nil. }
  eexists. split; [done|]. cbn [Authoritative Contextual UnclassifiableDomains summarize].
  split_and!.
  - intros d. etrans; [apply (elem_of_keys (λ st, authoritative st = true))|]. setoid_rewrite Hu.
    fold R. rewrite <-admit_all_spec. case_bool_decide; naive_solver.
  - intros d. etrans; [apply (elem_of_keys (λ st, authoritative st ≠ true))|]. setoid_rewrite Hu.
    fold R. rewrite <-admit_all_spec. case_bool_decide; naive_solver.
  - apply Sorted_merge_sort, _.
  - apply (NoDup_keys (λ st, authoritative st = true)).
  - apply Sorted_merge_sort, _.
  - apply (NoDup_keys (λ st, authoritative st ≠ true)).
  - done.
Qed.
End PlanProperties.

(** ** Refusals and expiry *)

(** The filter keeps the admissible members, in order, and counts the others. *)
Lemma filter_members_spec `{UnicodeTables, FeedLibs} domains st :
  (filterPublicSuffixMembers domains st).2 = filter (λ d, IsAdmissibleDomain d = true) domains
  ∧ SkippedPublicSuffix (filterPublicSuffixMembers domains st).1 =
    (SkippedPublicSuffix st
     + Z.of_nat (length (filter (λ d, isPublicSuffixMember d = true) domains)))%Z
  ∧ SkippedSharedHost (filterPublicSuffixMembers domains st).1 =
    (SkippedSharedHost st
     + Z.of_nat (length (filter (λ d, isSharedServingRefused d = true) domains)))%Z.
Proof.
  revert st. induction domains as [|d domains IH]; intros st; [cbn; split_and!; [done|lia..]|].
  cbn [filterPublicSuffixMembers]. unfold admitFeedDomain. rewrite !filter_cons.
  assert (IsAdmissibleDomain d = negb (isPublicSuffixMember d) && negb (isSharedServingRefused d))
    as Ha by done.
  destruct (isPublicSuffixMember d) eqn:Hp, (isSharedServingRefused d) eqn:Hs;
    cbn [orb negb andb] in *;
    (match goal with |- context [filterPublicSuffixMembers domains ?s] =>
       specialize (IH s); destruct (filterPublicSuffixMembers domains s) as [st' kept] end);
    cbn in IH |- *; destruct IH as (-> & -> & ->); repeat case_decide; try congruence;
    cbn; split_and!; try done; lia.
Qed.

(** Below 106752 days the duration is exact; from there it wraps. *)
Lemma days_duration_exact days :
  (0 <= days <= 106751)%Z → days_duration days = (days * 86400000000000)%Z.
Proof.
  intros Hd. unfold days_duration, wrap64, hour.
  rewrite (Z.mod_small (days * 24 + 2 ^ 63)) by lia. rewrite Z.mod_small by lia. lia.
Qed.

(** A positive number of days up to 106751 becomes exactly that duration, and a
    member's expiry is never longer than the configured base (14 days when none
    is), is the base itself for a label that is not recycled, and stays positive;
    but no upper bound is checked, so 106752 days become a negative duration. *)
Theorem ttl_bounds `{UnicodeTables} days churn domain base ttl :
  (0 < days <= 106751)%Z → TTLFromDays days = Ok base → ttl = MemberTTL domain base churn →
  base = (days * 86400000000000)%Z ∧ (0 < ttl <= base)%Z
  ∧ (IsChurnProneTenant domain = false → ttl = base)
  ∧ (∃ overflowing, TTLFromDays 106752 = Ok overflowing ∧ (overflowing < 0)%Z
     ∧ MemberTTL domain overflowing 0 = DefaultSyncTTL).
Proof.
  intros Hd Hb ->. unfold TTLFromDays in Hb. rewrite (proj2 (Z.leb_gt _ _)) in Hb by lia.
  injection Hb as <-. rewrite days_duration_exact by lia. split; [done|]. unfold MemberTTL.
  rewrite (proj2 (Z.leb_gt (days * _) 0)) by lia. split_and!.
  - destruct (Z.leb_spec churn 0); cbn [orb]; [lia|].
    destruct (negb _); [lia|]. destruct (Z.leb_spec (days * 86400000000000) churn); lia.
  - destruct (Z.leb_spec churn 0); cbn [orb]; [lia|].
    destruct (negb _); [lia|]. destruct (Z.leb_spec (days * 86400000000000) churn); lia.
  - intros ->. by rewrite orb_true_r.
  - exists (days_duration 106752). by split.
Qed.

Module Examples.
#[local] Instance ex_tables : UnicodeTables := ascii_tables.
#[local] Instance ex_services : HostServices := two_label_services.
(** URLs without user information or port. *)
Definition ex_parse_url (s : string) : option url_parts :=
  match String.index 0 "://" s with
  | None => None
  | Some n =>
      let rest := String.substring (n + 3) (String.length s) s in
      match String.index 0 "/" rest with
      | None => Some (mkURL rest "" "" "")
      | Some m => Some (mkURL (String.substring 0 m rest)
                          (String.substring m (String.length rest) rest) "" "")
      end
  end.
#[local] Instance ex_feed_libs : FeedLibs := {|
  parse_url := ex_parse_url; sha256_sum s := s; public_suffix s := ""; unicode_fields _ := []
|}.

Definition text_feed : FeedSource :=
  mkSource "# feed" ["# feed"; "0.0.0.0 bad.example.com # listed"; "https://cdn.example.net/a";
    "https://one.example.org/x"; "https://cdn.example.net/b"; "localhost"] None (λ _, CsvEOF).
Definition csv_feed : FeedSource :=
  mkSource "1,https://a.example.com/x" [] None
    (λ n, match n with
          | 0 => CsvRow ["1"; "https://a.example.com/x"] | 1 => CsvError | _ => CsvEOF
          end).
(** A callback that records its calls. *)
Definition record (u : list (string * bool)) (i : Indicator) (dup : bool)
    : list (string * bool) * option string := ((u ++ [(IDomain i, dup)])%list, None).

Lemma parse_delivers_witness :
  let inds := delivered 2 csv_feed in
  let ds := IDomain <$> inds in
  ∃ st, parseIndicatorsWithLimit record 3 csv_feed 5 [] = Some (st, None)
    ∧ user st = run_calls record [] (flagged 5 [] inds)
    ∧ Valid (stats st) = Z.of_nat (length (retained 5 ds))
    ∧ (Valid (stats st) + Duplicates (stats st))%Z = Z.of_nat (length inds)
    ∧ TruncatedDomains (stats st) = Z.of_nat (unretained 5 ds).
Proof.
  apply (parse_delivers record 2 3 csv_feed 5 []); [done| |lia].
  split; [done|]. by intros [|[|j]] Hj; [| |lia].
Defined.

Lemma csv_returns_iff_eof_witness :
  let broken := mkSource "a,b" [] None (λ _, CsvError) in
  let p := mkP zero_stats (newBoundedSeenSet 5) [] in
  (∃ fuel r, parseCSVStream record fuel broken p = Some r) ↔ (∃ n, rows broken n = CsvEOF).
Proof. by apply csv_returns_iff_eof. Defined.
Example broken_never_returns fuel :
  parseCSVStream record fuel (mkSource "a,b" [] None (λ _, CsvError))
    (mkP zero_stats (newBoundedSeenSet 5) []) = None.
Proof.
  destruct (parseCSVStream _ _ _ _) as [r|] eqn:Hr; [|done].
  by apply (csv_loop_stops record) in Hr as (j & _ & Hj).
Qed.

Lemma admission_exact_witness :
  let inds := delivered 0 text_feed in
  let R := retained 10 (IDomain <$> inds) in
  ∃ plan, planAdmissionWithLimit 1 text_feed "corroborated-url-host-filter" 10 10 = Some (Ok plan)
    ∧ (∀ d, d ∈ Authoritative plan ↔ d ∈ R ∧ corroborating AdmissionFilter (evidence_of inds d))
    ∧ (∀ d, d ∈ Contextual plan ↔ d ∈ R ∧ ¬ corroborating AdmissionFilter (evidence_of inds d))
    ∧ Sorted str_le (Authoritative plan) ∧ NoDup (Authoritative plan)
    ∧ Sorted str_le (Contextual plan) ∧ NoDup (Contextual plan)
    ∧ UnclassifiableDomains plan =
      Z.of_nat (length (filter (λ d, d ∉ R) (IDomain <$> inds))).
Proof.
  apply (admission_exact 0 1 text_feed "corroborated-url-host-filter" AdmissionFilter 10 10);
    [done..|lia].
Defined.
Example admission_ex : ∃ plan,
  planAdmissionWithLimit 1 text_feed "corroborated-url-host-filter" 10 10 = Some (Ok plan)
  ∧ Authoritative plan = ["bad.example.com"; "cdn.example.net"]
  ∧ Contextual plan = ["one.example.org"].
Proof. eexists. by vm_compute. Qed.

Lemma ttl_bounds_witness :
  days_duration 3 = (3 * 86400000000000)%Z
  ∧ (0 < MemberTTL "a.example.com" (days_duration 3) (days_duration 2) <= days_duration 3)%Z
  ∧ (IsChurnProneTenant "a.example.com" = false →
     MemberTTL "a.example.com" (days_duration 3) (days_duration 2) = days_duration 3)
  ∧ (∃ overflowing, TTLFromDays 106752 = Ok overflowing ∧ (overflowing < 0)%Z
     ∧ MemberTTL "a.example.com" overflowing 0 = DefaultSyncTTL).
Proof. apply (ttl_bounds 3 (days_duration 2) "a.example.com" (days_duration 3)); [lia|done..]. Defined.
End Examples.
