(* ===== verification/FeedSync.v ===== *)
(** * Feed synchronisation: [internal/feed/sync.go], [status.go]

    [Sync] downloads a feed and writes its members, with their expiry, to a sorted
    set of Redis: into the live key, or for a replacing sync into a staging key that
    is then renamed over the live one.

    Redis is a service: its commands are the class [RedisServer], and what the code
    relies on of them is [RedisLaws].  Any command may fail, and a command that
    failed may nevertheless have been carried out ([RedisIO]); [World] keeps the
    states the server went through, which are what other processes can read.  The
    opened source (download, decompression, files), the clock and the staging key's
    suffix are inputs.  The wording of drift and empty-ingest reasons is left out. *)

From Stdlib Require Import ZArith Lia Ascii String SpecFloat.
From S2P Require Import Prelude GoStr Hostname NetIP GoFloat ClientIP Whitelist Brand Feed.

Definition DefaultThreatFeedKey : string := "safe-zone:threat:feed".
Definition DefaultMaxFeedBytes : Z := 50 * 1024 * 1024.
Definition defaultRedisBatchSize : nat := 1000.

Record SourceStatus := mkStatus {
  StSource : string; StSourceID : string; StFeedKey : string; Status : string;
  LastAttemptAt : string; LastSuccessAt : string; LastFailureAt : string; LastError : string;
  StStats : ParseStats; StWritten : Z; StReplace : bool; StFinishedAt : string;
  StParserDrift : bool; EmptyIngest : bool; StCacheInvalidated : bool; StFeedRevision : Z;
  StAdmission : option AdmissionStats; StShadow : option ShadowDiff; Stale : bool
}.

(** ** Redis *)

(** The commands the synchronisation and the matcher use.  [zset r k] is the sorted
    set at [k], empty when there is none. *)
Class RedisServer (R : Type) := {
  zset : R → string → gmap string Z;
  zadd : R → string → list (string * Z) → R * Z;
  zremrangebyscore : R → string → Z → R * Z;
  (** [None] is the error of a missing source key *)
  rename : R → string → string → option R;
  del : R → string → R;
  incr : R → string → R * Z;
  (** [GetInt64]; [None] is a value that is not an integer *)
  get_int : R → string → option Z;
  get_status : R → string → option SourceStatus;
  set_status : R → string → SourceStatus → R
}.

(** [Some (e, applied)]: the [n]-th command fails with [e], after the server carried
    it out or not. *)
Class RedisIO := { redis_fault : nat → option (string * bool) }.

Record World (R : Type) := mkWorld { server : R; tick : nat; visited : list R }.
Arguments mkWorld {R} _ _ _.
Arguments server {R} _.
Arguments tick {R} _.
Arguments visited {R} _.

Section Commands.
Context {R : Type} `{RedisServer R, RedisIO}.

Definition advance (w : World R) (r : R) : World R :=
  mkWorld r (S (tick w)) (visited w ++ [r])%list.
Definition command {A} (f : R → R * A) (w : World R) : World R * result A :=
  let '(r, a) := f (server w) in
  match redis_fault (tick w) with
  | None => (advance w r, Ok a)
  | Some (e, applied) => (advance w (if applied then r else server w), Err e)
  end.
(** [ZAdd] of [internal/cache/redis.go] *)
Definition ZAdd (key : string) (members : list (string * Z)) (w : World R) : World R * result Z :=
  match members with
  | [] => (w, Ok 0%Z)
  | _ => command (λ r, zadd r key members) w
  end.
Definition ZRemRangeByScore (key : string) (max : Z) : World R → World R * result Z :=
  command (λ r, zremrangebyscore r key max).
Definition Rename (from to : string) (w : World R) : World R * result unit :=
  let '(w, res) := command (λ r, match rename r from to with
                                 | Some r' => (r', None) | None => (r, Some "ERR no such key") end) w in
  (w, match res with Err e => Err e | Ok (Some e) => Err e | Ok None => Ok tt end).
Definition Delete (key : string) : World R → World R * result unit :=
  command (λ r, (del r key, tt)).
Definition Increment (key : string) : World R → World R * result Z := command (λ r, incr r key).
Definition GetInt64 (key : string) (w : World R) : World R * result Z :=
  let '(w, res) := command (λ r, (r, get_int r key)) w in
  (w, match res with
      | Err e => Err e | Ok None => Err "invalid syntax" | Ok (Some n) => Ok n
      end).
Definition GetStatus (key : string) : World R → World R * result (option SourceStatus) :=
  command (λ r, (r, get_status r key)).
Definition SetStatus (key : string) (st : SourceStatus) : World R → World R * result unit :=
  command (λ r, (set_status r key st, tt)).
End Commands.

(** ** Options and reports *)

Record SyncOptions := mkOptions {
  Source : string; MaxBytes : Z; RedisAddr : string; Key : string; DryRun : bool; Replace : bool;
  AllowInsecureHTTP : bool; ParserDriftInvalidRatio : float64; ParserDriftMinInvalid : Z;
  CacheInvalidationMinWrites : Z; TTL : Z; ChurnTTL : Z; OptAdmissionMode : string
}.
Record SyncReport := mkReport {
  RepSource : string; RepKey : string; RepDryRun : bool; RepReplace : bool; Stats : ParseStats;
  Written : Z; FinishedAt : string; ParserDrift : bool; CacheInvalidated : bool;
  FeedRevision : Z; Admission : option AdmissionStats; Shadow : option ShadowDiff;
  ChurnTTLDays : Z
}.

(** What the environment contributes to one synchronisation. *)
Record SyncEnv := mkEnv {
  (** the opened source or the error of opening it *)
  opened : result FeedSource;
  finished_at : string;
  (** [time.Now().UnixNano()] in the name of the staging key *)
  staging_nano : Z;
  (** [syncNow] in nanoseconds, and [time.Now().Unix()] of the clean-up *)
  sync_now : Z;
  cleanup_now : Z;
  (** the cap on distinct domains *)
  configured_cap : Z
}.

Definition cacheInvalidationMinWrites (value : Z) : Z := if (value <=? 0)%Z then 1%Z else value.

Definition fifth : float64 := f_div f_one (f_of_Z 5).
Definition parserDriftStatus (stats : ParseStats) (ratio : float64) (minInvalid : Z) : bool :=
  let ratio := if SFleb ratio f_zero then fifth else ratio in
  let minInvalid := if (minInvalid <=? 0)%Z then 25%Z else minInvalid in
  let totalCandidates := (Valid stats + Invalid stats)%Z in
  if (Invalid stats <? minInvalid)%Z || (totalCandidates =? 0)%Z then false
  else negb (f_lt (f_div (f_of_Z (Invalid stats)) (f_of_Z totalCandidates)) ratio).

Definition hex_byte (c : ascii) : list ascii :=
  [hex_char (byte_z c / 16); hex_char (byte_z c mod 16)].

Section Keys.
Context `{UnicodeTables, FeedLibs}.
Definition normalizedFeedKey (feedKey : string) : string :=
  let feedKey := TrimSpace feedKey in
  if String.eqb feedKey "" then DefaultThreatFeedKey else feedKey.
Definition RevisionKey (feedKey : string) : string := normalizedFeedKey feedKey ++ ":revision".
(** [hex.EncodeToString(sum[:8])] *)
Definition sourceID (feedKey source : string) : string :=
  string_of_list_ascii (concat (hex_byte <$> list_ascii_of_string
    (slice (sha256_sum (normalizedFeedKey feedKey ++ String (ascii_of_N 10) (TrimSpace source))) 0 8))).
Definition StatusKey (feedKey source : string) : string :=
  normalizedFeedKey feedKey ++ ":status:" ++ sourceID feedKey source.
Definition isPlainHTTPSource (source : string) : bool := HasPrefix (ToLower (TrimSpace source)) "http://".
End Keys.

(** ** Writing members *)

Record Queue (R : Type) := mkQueue {
  q_stats : ParseStats; q_batch : list (string * Z); q_written : Z; q_world : World R
}.
Arguments mkQueue {R} _ _ _ _.
Arguments q_stats {R} _.
Arguments q_batch {R} _.
Arguments q_written {R} _.
Arguments q_world {R} _.

Definition add_churn (s : ParseStats) : ParseStats :=
  mkStats (Valid s) (Invalid s) (Duplicates s) (Skipped s) (SkippedPublicSuffix s)
    (SkippedSharedHost s) (ChurnProneTenants s + 1) (TruncatedDomains s).
(** The parser and the callback count in one struct, in different fields. *)
Definition merge_stats (parser callback : ParseStats) : ParseStats :=
  mkStats (Valid parser) (Invalid parser) (Duplicates parser) (Skipped parser)
    (SkippedPublicSuffix callback) (SkippedSharedHost callback) (ChurnProneTenants callback)
    (TruncatedDomains parser).

(** [syncNow.Add(memberTTL).Unix()] *)
Definition member_score (syncNow memberTTL : Z) : Z := ((syncNow + memberTTL) / 1000000000)%Z.

Section Sync.
Context {R : Type} `{UnicodeTables, HostServices, FeedLibs, RedisServer R, RedisIO}.

Definition flush (targetKey : string) (q : Queue R) : Queue R * option string :=
  match q_batch q with
  | [] => (q, None)
  | batch =>
      let '(w, res) := ZAdd targetKey batch (q_world q) in
      match res with
      | Err e => (mkQueue (q_stats q) batch (q_written q) w, Some e)
      | Ok n => (mkQueue (q_stats q) [] (q_written q + n) w, None)
      end
  end.

Definition queueDomain (targetKey : string) (syncNow baseTTL churnTTL : Z) (q : Queue R)
    (domain : string) : Queue R * option string :=
  let '(stats, ok) := admitFeedDomain domain (q_stats q) in
  if negb ok then (mkQueue stats (q_batch q) (q_written q) (q_world q), None)
  else
    let memberTTL := MemberTTL domain baseTTL churnTTL in
    let stats := if (memberTTL <? baseTTL)%Z then add_churn stats else stats in
    let batch := (q_batch q ++ [(domain, member_score syncNow memberTTL)])%list in
    let q := mkQueue stats batch (q_written q) (q_world q) in
    if Nat.leb defaultRedisBatchSize (length batch) then flush targetKey q else (q, None).

(** The loop over the planned domains. *)
Fixpoint queue_all (targetKey : string) (syncNow baseTTL churnTTL : Z) (domains : list string)
    (q : Queue R) : Queue R * option string :=
  match domains with
  | [] => (q, None)
  | domain :: domains =>
      let '(q, err) := queueDomain targetKey syncNow baseTTL churnTTL q domain in
      match err with
      | Some e => (q, Some e)
      | None => queue_all targetKey syncNow baseTTL churnTTL domains q
      end
  end.

(** ** Recording the outcome *)

Definition zero_status (feedKey source : string) : SourceStatus :=
  mkStatus source (sourceID feedKey source) (normalizedFeedKey feedKey) "" "" "" "" "" zero_stats 0
    false "" false false false 0 None None false.
(** [now] is the formatted time of the attempt. *)
Definition recordSyncFailure (feedKey source syncErr now : string) (w : World R) : World R :=
  let '(w, res) := GetStatus (StatusKey feedKey source) w in
  let st := match res with Ok (Some st) => st | _ => zero_status feedKey source end in
  (SetStatus (StatusKey feedKey source)
     (mkStatus (StSource st) (StSourceID st) (StFeedKey st) "error" now (LastSuccessAt st) now
        syncErr (StStats st) (StWritten st) (StReplace st) now (StParserDrift st) (EmptyIngest st)
        (StCacheInvalidated st) (StFeedRevision st) (StAdmission st) (StShadow st) true) w).1.
Definition recordSyncSuccess (r : SyncReport) (w : World R) : World R * result unit :=
  SetStatus (StatusKey (RepKey r) (RepSource r))
    (mkStatus (RepSource r) (sourceID (RepKey r) (RepSource r)) (normalizedFeedKey (RepKey r)) "ok"
       (FinishedAt r) (FinishedAt r) "" "" (Stats r) (Written r) (RepReplace r) (FinishedAt r)
       (ParserDrift r) (Valid (Stats r) =? 0)%Z (CacheInvalidated r) (FeedRevision r) (Admission r)
       (Shadow r) false) w.

(** ** The synchronisation *)

(** [fail] once Redis is connected. *)
Definition fail (o : SyncOptions) (env : SyncEnv) (e : string) (w : World R)
    : World R * result SyncReport :=
  (recordSyncFailure (Key o) (Source o) e (finished_at env) w, Err e).
(** The staging key is removed before failing. *)
Definition fail_staging (o : SyncOptions) (env : SyncEnv) (stagingKey : option string) (e : string)
    (w : World R) : World R * result SyncReport :=
  fail o env e (match stagingKey with Some k => (Delete k w).1 | None => w end).

(** The admission plan of the two other modes: the statistics, the planned domains. *)
Definition sync_plan (fuel : nat) (o : SyncOptions) (env : SyncEnv) (mode : AdmissionMode)
    (src : FeedSource) : option (result (ParseStats * option AdmissionStats * option ShadowDiff * list string)) :=
  if bool_decide (mode = AdmissionLegacy) then Some (Ok (zero_stats, None, None, []))
  else
    let? planned := PlanAdmission fuel src
                      (if bool_decide (mode = AdmissionShadow) then "corroborated-url-host-shadow"
                       else "corroborated-url-host-filter") (configured_cap env) in
    Some (match planned with
          | Err e => Err e
          | Ok plan =>
              let shadow := bool_decide (mode = AdmissionShadow) in
              let '(stats, kept) := filterPublicSuffixMembers
                (Authoritative plan ++ if shadow then Contextual plan else [])%list
                (PlanParseStats plan) in
              Ok (stats, Some (PlanStats plan),
                  if shadow then Some (SummarizeShadowGap (Contextual plan)) else None, kept)
          end).

Definition report0 (o : SyncOptions) (env : SyncEnv) (stats : ParseStats)
    (admission : option AdmissionStats) (shadow : option ShadowDiff) : SyncReport :=
  mkReport (Source o) (Key o) (DryRun o) (Replace o) stats 0 (finished_at env) false false 0
    admission shadow 0.
Definition drift (o : SyncOptions) (stats : ParseStats) : bool :=
  parserDriftStatus stats (ParserDriftInvalidRatio o) (ParserDriftMinInvalid o).

(** The dry run: nothing is written. *)
Definition sync_dry (fuel : nat) (o : SyncOptions) (env : SyncEnv) (mode : AdmissionMode)
    (src : FeedSource) : option (result SyncReport) :=
  let? planned := sync_plan fuel o env mode src in
  match planned with
  | Err e => Some (Err e)
  | Ok (stats, admission, shadow, _) =>
      let with_drift stats :=
        let r := report0 o env stats admission shadow in
        mkReport (RepSource r) (RepKey r) (RepDryRun r) (RepReplace r) stats (Written r)
          (FinishedAt r) (drift o stats) false 0 admission shadow 0 in
      if negb (bool_decide (mode = AdmissionLegacy)) then Some (Ok (with_drift stats))
      else
        let? pe := ParseEach (λ st d, ((admitFeedDomain d st).1, None)) fuel src
                     (resolvedFeedDomainLimit (configured_cap env)) zero_stats in
        let '(p, err) := pe in
        Some (match err with
              | Some e => Err e
              | None => Ok (with_drift (merge_stats (Feed.stats p) (user p)))
              end)
  end.

(** Writing the members into [targetKey]: the queue after the last flush, with the
    merged statistics. *)
Definition sync_write (fuel : nat) (o : SyncOptions) (env : SyncEnv) (mode : AdmissionMode)
    (src : FeedSource) (stats : ParseStats) (planned : list string) (targetKey : string)
    (w : World R) : option (Queue R * option string) :=
  let baseTTL := if (TTL o <=? 0)%Z then DefaultSyncTTL else TTL o in
  let queue := queueDomain targetKey (sync_now env) baseTTL (ChurnTTL o) in
  let? qe :=
    (if bool_decide (mode = AdmissionLegacy) then
       let? pe := ParseEach queue fuel src (resolvedFeedDomainLimit (configured_cap env))
                    (mkQueue zero_stats [] 0 w) in
       let '(p, err) := pe in
       let q := user p in
       Some (mkQueue (merge_stats (Feed.stats p) (q_stats q)) (q_batch q) (q_written q) (q_world q), err)
     else
       Some (queue_all targetKey (sync_now env) baseTTL (ChurnTTL o) planned (mkQueue stats [] 0 w))) in
  let '(q, err) := qe in
  Some (match err with Some e => (q, Some e) | None => flush targetKey q end).

(** The revision and the report, once the members are in the live key. *)
Definition sync_finish (o : SyncOptions) (env : SyncEnv) (admission : option AdmissionStats)
    (shadow : option ShadowDiff) (q : Queue R) (w : World R) : World R * result SyncReport :=
  let written := q_written q in
  let invalidate := (cacheInvalidationMinWrites (CacheInvalidationMinWrites o) <=? written)%Z
                    || Replace o in
  let '(w, rev) := (if invalidate then Increment (RevisionKey (Key o)) w
                    else GetInt64 (RevisionKey (Key o)) w) in
  match rev, invalidate with
  | Err e, true => fail o env e w
  | _, _ =>
      let report := mkReport (Source o) (Key o) (DryRun o) (Replace o) (q_stats q) written
        (finished_at env) (drift o (q_stats q)) invalidate
        (match rev with Ok n => n | Err _ => 0%Z end) admission shadow
        (if (0 <? ChurnTTL o)%Z then (ChurnTTL o / (24 * hour))%Z else 0%Z) in
      let '(w, res) := recordSyncSuccess report w in
      match res with Err e => fail o env e w | Ok _ => (w, Ok report) end
  end.

Definition staging_key (o : SyncOptions) (env : SyncEnv) : string :=
  Key o ++ ":staging:" ++ dec_string (staging_nano env).

(** Clean-up, the generation switch and the report. *)
Definition sync_switch (o : SyncOptions) (env : SyncEnv) (admission : option AdmissionStats)
    (shadow : option ShadowDiff) (q : Queue R) : World R * result SyncReport :=
  let stagingKey := if Replace o then Some (staging_key o env) else None in
  let targetKey := default (Key o) stagingKey in
  let '(w, _) := ZRemRangeByScore targetKey (cleanup_now env) (q_world q) in
  match stagingKey with
  | None => sync_finish o env admission shadow q w
  | Some k =>
      if (Valid (q_stats q) =? 0)%Z
      then fail_staging o env stagingKey "refusing replace sync with zero valid domains" w
      else
        let '(w, res) := Rename k (Key o) w in
        match res with
        | Err e => fail_staging o env stagingKey e w
        | Ok _ => sync_finish o env admission shadow q w
        end
  end.

(** The part of [Sync] that writes. *)
Definition sync_run (fuel : nat) (o : SyncOptions) (env : SyncEnv) (mode : AdmissionMode)
    (src : FeedSource) (w : World R) : option (World R * result SyncReport) :=
  let stagingKey := if Replace o then Some (staging_key o env) else None in
  let? planned := sync_plan fuel o env mode src in
  match planned with
  | Err e => Some (fail o env e w)
  | Ok (stats, admission, shadow, domains) =>
      let? qe := sync_write fuel o env mode src stats domains (default (Key o) stagingKey) w in
      let '(q, err) := qe in
      Some (match err with
            | Some e => fail_staging o env stagingKey e (q_world q)
            | None => sync_switch o env admission shadow q
            end)
  end.

Definition with_defaults (o : SyncOptions) : SyncOptions :=
  mkOptions (Source o) (if (MaxBytes o <=? 0)%Z then DefaultMaxFeedBytes else MaxBytes o)
    (RedisAddr o) (if String.eqb (TrimSpace (Key o)) "" then DefaultThreatFeedKey else Key o)
    (DryRun o) (Replace o) (AllowInsecureHTTP o) (ParserDriftInvalidRatio o)
    (ParserDriftMinInvalid o) (CacheInvalidationMinWrites o) (TTL o) (ChurnTTL o)
    (OptAdmissionMode o).

Definition Sync (fuel : nat) (o : SyncOptions) (env : SyncEnv) (w : World R)
    : option (World R * result SyncReport) :=
  if String.eqb (TrimSpace (Source o)) "" then Some (w, Err "feed source is required")
  else if isPlainHTTPSource (Source o) && negb (AllowInsecureHTTP o)
  then Some (w, Err "refusing plain-HTTP feed source")
  else
    let o := with_defaults o in
    match NormalizeAdmissionMode (OptAdmissionMode o) with
    | Err e => Some (w, Err e)
    | Ok mode =>
        if bool_decide (mode = AdmissionFilter) && negb (DryRun o)
        then Some (w, Err "corroborated URL-host filter is evaluation-only")
        else
          let connected := negb (DryRun o) && negb (String.eqb (TrimSpace (RedisAddr o)) "") in
          let fail_early e := Some (if connected then fail o env e w else (w, Err e)) in
          match opened env with
          | Err e => fail_early e
          | Ok src =>
              if negb (DryRun o) && negb connected
              then fail_early "redis address is required unless dry-run is set"
              else if DryRun o
              then let? r := sync_dry fuel o env mode src in Some (w, r)
              else sync_run fuel o env mode src w
          end
    end.
End Sync.
