(* ===== verification/FeedSyncSpec.v ===== *)
(** * Properties of feed synchronisation

    A replacing sync writes a staging key and renames it: whatever command fails, and
    whether or not the server carried it out, the live key holds the old generation
    until one switch, and from then on the complete admissible content of the feed.
    [RedisLaws] is what of Redis this relies on. *)

From Stdlib Require Import ZArith Lia Ascii String SpecFloat.
From S2P Require Import Prelude GoStr Hostname NetIP GoFloat ClientIP Whitelist Brand Feed FeedSpec FeedSync.

(** ** Redis *)

(** A key that holds no members does not exist: it holds nothing else either. *)
Definition only_members {R} `{RedisServer R} (r : R) (k : string) : Prop :=
  zset r k = ∅ → ∀ b, rename r k b = None.
Definition insert_all (m : gmap string Z) (ms : list (string * Z)) : gmap string Z :=
  foldl (λ m x, <[x.1 := x.2]> m) m ms.

Class RedisLaws (R : Type) `{RedisServer R} := {
  zset_zadd r k ms k' :
    zset (zadd r k ms).1 k' = if decide (k' = k) then insert_all (zset r k) ms else zset r k';
  zset_zrem r k max k' :
    zset (zremrangebyscore r k max).1 k' =
    if decide (k' = k) then filter (λ x, (max < x.2)%Z) (zset r k) else zset r k';
  zset_rename r a b r' k :
    rename r a b = Some r' → a ≠ b →
    zset r' k = if decide (k = b) then zset r a else if decide (k = a) then ∅ else zset r k;
  zset_del r k k' : k' ≠ k → zset (del r k) k' = zset r k';
  zset_incr r k k' : zset (incr r k).1 k' = zset r k';
  zset_set_status r k st k' : k' ≠ k → zset (set_status r k st) k' = zset r k';
  (** a sorted set whose last member is removed is deleted *)
  only_members_zadd r k ms : only_members r k → only_members (zadd r k ms).1 k;
  only_members_zrem r k max : only_members r k → only_members (zremrangebyscore r k max).1 k
}.

(** ** Runs of commands *)

Section Steps.
Context {R : Type} `{RedisServer R, RedisIO}.

(** Every state on the way from [w] to [w'], and the one reached, satisfies [P]. *)
Definition steps (P : R → Prop) (w w' : World R) : Prop :=
  P (server w') ∧ ∃ l, visited w' = (visited w ++ l)%list ∧ Forall P l.

Lemma steps_refl P w : P (server w) → steps P w w.
Proof. intros Hw. split; [done|]. exists []. by rewrite app_nil_r. Qed.
Lemma steps_trans P w1 w2 w3 : steps P w1 w2 → steps P w2 w3 → steps P w1 w3.
Proof.
  intros [_ (l1 & H1 & Hl1)] [HP (l2 & H2 & Hl2)]. split; [done|]. exists (l1 ++ l2)%list.
  split; [by rewrite H2, H1, app_assoc|by apply Forall_app].
Qed.
Lemma steps_start P w w1 w2 : steps P w w1 → (P (server w1) → steps P w1 w2) → steps P w w2.
Proof. intros Hs Hn. eapply steps_trans; [done|]. by apply Hn, Hs. Qed.

Lemma command_steps {A} (P : R → Prop) (f : R → R * A) w :
  (∀ r, P r → P (f r).1) → P (server w) → steps P w (command f w).1.
Proof.
  intros Hf Hw. unfold command. pose proof (Hf _ Hw) as Hr. destruct (f (server w)) as [r a].
  assert (∀ r', P r' → steps P w (advance w r')) as Ha.
  { intros r' Hr'. split; [done|]. exists [r']. by rewrite Forall_singleton. }
  destruct (redis_fault _) as [[e []]|]; by apply Ha.
Qed.
Lemma command_ok {A} (f : R → R * A) w w' a :
  command f w = (w', Ok a) → f (server w) = (server w', a).
Proof.
  unfold command. destruct (f (server w)) as [r b].
  destruct (redis_fault _) as [[]|]; [done|]. by intros [= <- <-].
Qed.
End Steps.

Lemma append_ne (s t : string) : t ≠ "" → (s ++ t)%string ≠ s.
Proof. intros Ht. induction s as [|c s IH]; [done|]. cbn. by intros [= ?]. Qed.

Section Keys.
Context `{UnicodeTables, FeedLibs}.
Lemma status_key_ne key source : TrimSpace key = key → key ≠ "" → StatusKey key source ≠ key.
Proof.
  intros Ht Hk. unfold StatusKey, normalizedFeedKey. rewrite Ht.
  rewrite (proj2 (String.eqb_neq _ _) Hk). by apply append_ne.
Qed.
End Keys.
Lemma staging_key_ne o env : staging_key o env ≠ Key o.
Proof. by apply append_ne. Qed.

(** ** Commands that leave the live key alone *)

Section Live.
Context {R : Type} `{UnicodeTables, HostServices, FeedLibs, RedisServer R, RedisIO, !RedisLaws R}.
Context (live : string).
Definition holds (Q : gmap string Z → Prop) (r : R) : Prop := Q (zset r live).

Lemma zadd_steps Q k ms w : k ≠ live → holds Q (server w) → steps (holds Q) w (ZAdd k ms w).1.
Proof.
  intros Hk Hw. unfold ZAdd. destruct ms as [|x ms]; [by apply steps_refl|].
  apply command_steps; [|done]. intros r Hr. unfold holds. by rewrite zset_zadd, decide_False.
Qed.
Lemma zrem_steps Q k max w :
  k ≠ live → holds Q (server w) → steps (holds Q) w (ZRemRangeByScore k max w).1.
Proof.
  intros Hk Hw. apply command_steps; [|done]. intros r Hr. unfold holds.
  by rewrite zset_zrem, decide_False.
Qed.
Lemma del_steps Q k w : k ≠ live → holds Q (server w) → steps (holds Q) w (Delete k w).1.
Proof.
  intros Hk Hw. apply command_steps; [|done]. intros r Hr. unfold holds. cbn.
  by rewrite zset_del.
Qed.
Lemma incr_steps Q k w : holds Q (server w) → steps (holds Q) w (Increment k w).1.
Proof.
  intros Hw. apply command_steps; [|done]. intros r Hr. unfold holds. by rewrite zset_incr.
Qed.
Lemma set_status_steps Q k st w : k ≠ live → holds Q (server w) → steps (holds Q) w (SetStatus k st w).1.
Proof.
  intros Hk Hw. apply command_steps; [|done]. intros r Hr. unfold holds. cbn.
  by rewrite zset_set_status.
Qed.

Context (o : SyncOptions) (env : SyncEnv).
Context (Hkey : Key o = live) (Htrim : TrimSpace live = live) (Hne : live ≠ "").

Lemma fail_steps Q e w : holds Q (server w) → steps (holds Q) w (fail o env e w).1.
Proof.
  intros Hw. unfold fail, recordSyncFailure. cbn [fst].
  assert (steps (holds Q) w (GetStatus (StatusKey (Key o) (Source o)) w).1) as Hg
    by by apply command_steps.
  destruct (GetStatus _ w) as [w1 r]. eapply steps_start; [done|]. intros Hw1.
  apply set_status_steps; [|done]. rewrite Hkey. by apply status_key_ne.
Qed.
Lemma fail_staging_steps Q e w :
  holds Q (server w) → steps (holds Q) w (fail_staging o env (Some (staging_key o env)) e w).1.
Proof.
  intros Hw. unfold fail_staging. eapply steps_start; [apply del_steps, Hw|apply fail_steps].
  rewrite <-Hkey. apply staging_key_ne.
Qed.
Lemma finish_steps Q admission shadow q w :
  holds Q (server w) → steps (holds Q) w (sync_finish o env admission shadow q w).1.
Proof.
  intros Hw. unfold sync_finish. cbv zeta. set (inv := _ || _).
  set (wr := if inv then _ else _).
  assert (steps (holds Q) w wr.1) as Hs.
  { unfold wr. destruct inv; [by apply incr_steps|]. unfold GetInt64.
    assert (steps (holds Q) w (command (λ r, (r, get_int r (RevisionKey (Key o)))) w).1) as Hc
      by by apply command_steps.
    by destruct (command _ w). }
  clearbody wr. destruct wr as [w1 rev]. cbn [fst] in Hs. eapply steps_start; [done|]. intros Hw1.
  assert (∀ r, RepKey r = Key o → steps (holds Q) w1
    (let '(w, res) := recordSyncSuccess r w1 in
     match res with Err e => fail o env e w | Ok _ => (w, Ok r) end).1) as Hrec.
  { intros r Hr. assert (steps (holds Q) w1 (recordSyncSuccess r w1).1) as Hs1.
    { apply set_status_steps; [|done]. rewrite Hr, Hkey. by apply status_key_ne. }
    destruct (recordSyncSuccess r w1) as [w2 [[]|e]]; [done|].
    eapply steps_start; [done|]. apply fail_steps. }
  destruct rev, inv; try (by apply Hrec). by apply fail_steps.
Qed.
End Live.

(** ** The generation a sync writes *)

Section Generation.
Context `{UnicodeTables, HostServices, FeedLibs}.

Definition base_ttl (o : SyncOptions) : Z := if (TTL o <=? 0)%Z then DefaultSyncTTL else TTL o.
Definition score (o : SyncOptions) (env : SyncEnv) (d : string) : Z :=
  member_score (sync_now env) (MemberTTL d (base_ttl o) (ChurnTTL o)).
Definition members (o : SyncOptions) (env : SyncEnv) (ds : list string) : list (string * Z) :=
  (λ d, (d, score o env d)) <$> filter (λ d, IsAdmissibleDomain d = true) ds.
(** The admissible ones of [ds], each with its expiry. *)
Definition generation (o : SyncOptions) (env : SyncEnv) (ds : list string) : gmap string Z :=
  insert_all ∅ (members o env ds).

Lemma generation_snoc o env ds d :
  generation o env (ds ++ [d])%list =
  if IsAdmissibleDomain d then <[d := score o env d]> (generation o env ds)
  else generation o env ds.
Proof.
  unfold generation, members, insert_all. rewrite filter_app, fmap_app, foldl_app, filter_cons.
  by destruct (IsAdmissibleDomain d).
Qed.
Lemma generation_lookup o env ds d s :
  generation o env ds !! d = Some s ↔ d ∈ ds ∧ IsAdmissibleDomain d = true ∧ s = score o env d.
Proof.
  induction ds as [|x ds IH] using rev_ind; [by rewrite elem_of_nil; split; [|intros []]|].
  rewrite generation_snoc, elem_of_app, list_elem_of_singleton.
  destruct (decide (x = d)) as [->|Hd].
  - destruct (IsAdmissibleDomain d) eqn:Hx; [rewrite lookup_insert_eq|rewrite IH].
    + split; [intros [= <-]; auto|by intros (_ & _ & ->)].
    + by split; intros (? & ? & ?).
  - assert (∀ m : gmap string Z, (if IsAdmissibleDomain x then <[x:=score o env x]> m else m) !! d = m !! d)
      as -> by (intros m; destruct (IsAdmissibleDomain x); [by apply lookup_insert_ne|done]).
    rewrite IH. by split; [intros [? ?]; auto|intros [[?| ->] ?]].
Qed.
(** Only the set of domains matters, and the inadmissible ones do not. *)
Lemma generation_ext o env ds ds' :
  (∀ d, IsAdmissibleDomain d = true → d ∈ ds ↔ d ∈ ds') →
  generation o env ds = generation o env ds'.
Proof.
  intros Hd. apply map_eq. intros d. apply option_eq. intros s. rewrite !generation_lookup.
  split; intros (? & ? & ?); split_and!; try done; by apply Hd.
Qed.
Lemma insert_all_app m a b : insert_all m (a ++ b)%list = insert_all (insert_all m a) b.
Proof. apply foldl_app. Qed.
End Generation.

Section Write.
Context {R : Type} `{UnicodeTables, HostServices, FeedLibs, RedisServer R, RedisIO, !RedisLaws R}.
Context (live target : string) (Htarget : target ≠ live).
Context (o : SyncOptions) (env : SyncEnv).
Notation queue := (queueDomain target (sync_now env) (base_ttl o) (ChurnTTL o)).
Notation same Q q q' := (steps (holds live Q) (q_world q) (q_world q')).

(** What is written and what still waits make up the generation of [ds]. *)
Definition queued (ds : list string) (q : Queue R) : Prop :=
  insert_all (zset (server (q_world q)) target) (q_batch q) = generation o env ds
  ∧ only_members (server (q_world q)) target.

Lemma flush_steps Q (q : Queue R) :
  holds live Q (server (q_world q)) → same Q q (flush target q).1.
Proof.
  intros Hq. unfold flush. destruct (q_batch q) as [|x b] eqn:Hb; [by apply steps_refl|].
  pose proof (zadd_steps live Q target (x :: b) (q_world q) Htarget Hq) as Hz.
  by destruct (ZAdd _ _ _) as [w [n|e]].
Qed.
Lemma flush_ok ds (q q' : Queue R) :
  queued ds q → flush target q = (q', None) → queued ds q' ∧ q_batch q' = [].
Proof.
  intros [Hq Ho]. unfold flush. destruct (q_batch q) as [|x b] eqn:Hb.
  { intros [= <-]. by rewrite Hb; split; [split; rewrite ?Hb|]. }
  cbn [ZAdd]. destruct (command _ _) as [w [n|e]] eqn:Hc; [|done].
  intros [= <-]. apply command_ok in Hc. cbn.
  pose proof (zset_zadd (server (q_world q)) target (x :: b) target) as Hz.
  pose proof (only_members_zadd _ _ (x :: b) Ho) as Ho'. rewrite Hc, decide_True in Hz by done.
  rewrite Hc in Ho'. cbn [fst] in *. split; [|done]. split; [|done]. cbn. by rewrite Hz.
Qed.

Lemma admit_eq domain st :
  (admitFeedDomain domain st).2 = IsAdmissibleDomain domain.
Proof.
  unfold admitFeedDomain, IsAdmissibleDomain.
  by destruct (isPublicSuffixMember domain), (isSharedServingRefused domain).
Qed.
Lemma queue_steps Q (q : Queue R) d :
  holds live Q (server (q_world q)) → same Q q (queue q d).1.
Proof.
  intros Hq. unfold queueDomain. destruct (admitFeedDomain d _) as [st []]; cbn [negb]; cbv zeta.
  - destruct (Nat.leb _ _); [|by apply steps_refl]. by apply (flush_steps Q (mkQueue _ _ _ _)).
  - by apply steps_refl.
Qed.
Lemma queue_ok ds (q q' : Queue R) d :
  queued ds q → queue q d = (q', None) → queued (ds ++ [d])%list q'.
Proof.
  intros [Hq Ho]. unfold queueDomain. pose proof (admit_eq d (q_stats q)) as Ha.
  destruct (admitFeedDomain d _) as [st ok]. cbn [snd] in Ha. subst ok.
  assert (∀ q1 : Queue R, q_world q1 = q_world q →
    q_batch q1 = (q_batch q ++ if IsAdmissibleDomain d then [(d, score o env d)] else [])%list →
    queued (ds ++ [d])%list q1) as Hq1.
  { intros q1 Hw Hb. unfold queued. rewrite Hw, Hb, insert_all_app, generation_snoc, Hq.
    split; [|done]. by destruct (IsAdmissibleDomain d). }
  destruct (IsAdmissibleDomain d); cbn [negb]; cbv zeta.
  - destruct (Nat.leb _ _); [intros Hf; eapply flush_ok; [|done]|intros [= <-]]; by apply Hq1.
  - intros [= <-]. apply Hq1; [done|]. by rewrite app_nil_r.
Qed.

Lemma queue_all_steps Q ds (q : Queue R) :
  holds live Q (server (q_world q)) →
  same Q q (queue_all target (sync_now env) (base_ttl o) (ChurnTTL o) ds q).1.
Proof.
  revert q. induction ds as [|d ds IH]; intros q Hq; [by apply steps_refl|]. cbn [queue_all].
  pose proof (queue_steps Q q d Hq) as Hs. destruct (queue q d) as [q1 [e|]]; [done|].
  eapply steps_start; [done|]. apply IH.
Qed.
Lemma queue_all_ok ds ds' (q q' : Queue R) :
  queued ds q → queue_all target (sync_now env) (base_ttl o) (ChurnTTL o) ds' q = (q', None) →
  queued (ds ++ ds')%list q'.
Proof.
  revert ds q. induction ds' as [|d ds' IH]; intros ds q Hq; cbn [queue_all].
  { rewrite app_nil_r. by intros [= <-]. }
  destruct (queue q d) as [q1 [e|]] eqn:Hd; [done|]. rewrite (cons_middle d ds), app_assoc.
  intros Hq'. eapply IH; [|done]. by eapply queue_ok.
Qed.

(** The callback of [ParseEach]. *)
Lemma run_queue_ok ds calls (q q' : Queue R) :
  queued ds q →
  run_ok (λ u i (dup : bool), if dup then (u, None) else queue u (IDomain i)) q calls q' →
  queued (ds ++ (IDomain <$> (filter (λ c, c.2 = false) calls).*1))%list q'.
Proof.
  revert ds q. induction calls as [|[i []] calls IH]; intros ds q Hq; cbn [run_ok fst snd].
  - intros <-. by rewrite app_nil_r.
  - intros (u & [= <-] & Hr). rewrite filter_cons_False by done. exact (IH _ _ Hq Hr).
  - intros (u & Hu & Hr). rewrite filter_cons_True by done.
    pose proof (queue_ok ds q u (IDomain i) Hq Hu) as Hq1.
    specialize (IH _ _ Hq1 Hr). by rewrite <-app_assoc in IH.
Qed.
End Write.

(** ** The whole content, or nothing *)

Section Replace.
Context {R : Type} `{UnicodeTables, HostServices, FeedLibs, RedisServer R, RedisIO, !RedisLaws R}.

(** The domains a complete reading of the source retains. *)
Definition feed_domains (env : SyncEnv) (n : nat) (src : FeedSource) : list string :=
  retained (seen_limit (newBoundedSeenSet (resolvedFeedDomainLimit (configured_cap env))))
    (IDomain <$> delivered n src).
(** A generation of the complete source: all of it, or what the clean-up left of it. *)
Definition complete (o : SyncOptions) (env : SyncEnv) (src : FeedSource) (m : gmap string Z) : Prop :=
  m ≠ ∅ ∧ ∃ n, ends n src ∧ let g := generation o env (feed_domains env n src) in
    m = g ∨ m = filter (λ x, (cleanup_now env < x.2)%Z) g.

Context (live : string) (o : SyncOptions) (env : SyncEnv) (src : FeedSource).
Context (Hkey : Key o = live) (Htrim : TrimSpace live = live) (Hne : live ≠ "").
Context (Hrep : Replace o = true).

(** The states other processes can read on the way from [w] to [w']: the live key
    holds [old], until one switch to a complete generation.  Without the switch the
    outcome is an error. *)
Definition all_or_nothing (old : gmap string Z) (w w' : World R) (res : result SyncReport) : Prop :=
  ∃ before after new, visited w' = (visited w ++ before ++ after)%list
    ∧ Forall (λ r, zset r live = old) before ∧ Forall (λ r, zset r live = new) after
    ∧ ((after = [] ∧ zset (server w') live = old ∧ ∃ e, res = Err e)
       ∨ (complete o env src new ∧ zset (server w') live = new)).

Lemma nothing old w w' e : steps (holds live (.= old)) w w' → all_or_nothing old w w' (Err e).
Proof.
  intros [Hs (l & Hv & Hl)]. exists l, [], ∅. rewrite app_nil_r. split_and!; [done..|].
  left. eauto.
Qed.
Lemma switched old new w w1 r w' res :
  steps (holds live (.= old)) w w1 → complete o env src new → holds live (.= new) r →
  steps (holds live (.= new)) (advance w1 r) w' → all_or_nothing old w w' res.
Proof.
  intros [_ (l & Hv & Hl)] Hc Hr [Hs (l' & Hv' & Hl')]. exists l, (r :: l'), new.
  split_and!; [|done|by constructor|by right]. rewrite Hv'. cbn. by rewrite Hv, <-!app_assoc.
Qed.

Lemma rename_cases old k w w1 res :
  Rename k live w = (w1, res) → k ≠ live → holds live (.= old) (server w) → only_members (server w) k →
  (steps (holds live (.= old)) w w1 ∧ ∃ e, res = Err e)
  ∨ (zset (server w) k ≠ ∅ ∧ ∃ r, w1 = advance w r ∧ zset r live = zset (server w) k).
Proof.
  intros Hre Hk Hw Ho. unfold Rename, command in Hre.
  assert (∀ r, holds live (.= old) r → steps (holds live (.= old)) w (advance w r)) as Ha.
  { intros r Hr. split; [done|]. exists [r]. by rewrite Forall_singleton. }
  destruct (rename (server w) k live) as [r|] eqn:Hr.
  - assert (zset (server w) k ≠ ∅) as Hnz by (intros Hz; by rewrite (Ho Hz) in Hr).
    pose proof (zset_rename _ _ _ _ live Hr Hk) as Hl. rewrite decide_True in Hl by done.
    destruct (redis_fault _) as [[e []]|]; injection Hre as <- <-; eauto 10.
  - destruct (redis_fault _) as [[e []]|]; injection Hre as <- <-; left; eauto.
Qed.

Lemma command_server {A} (f : R → R * A) w :
  server (command f w).1 = server w ∨ server (command f w).1 = (f (server w)).1.
Proof.
  unfold command. destruct (f (server w)) as [r a].
  destruct (redis_fault _) as [[e []]|]; auto.
Qed.

Lemma switch_cases old n w (q : Queue R) admission shadow :
  let k := staging_key o env in
  ends n src → zset (server (q_world q)) k = generation o env (feed_domains env n src) →
  only_members (server (q_world q)) k → steps (holds live (.= old)) w (q_world q) →
  let '(w', res) := sync_switch o env admission shadow q in all_or_nothing old w w' res.
Proof.
  intros k Hn Hz Ho Hs. unfold sync_switch. rewrite Hrep. cbn [default]. fold k.
  assert (k ≠ live) as Hk by (rewrite <-Hkey; apply staging_key_ne).
  pose proof (zrem_steps live (.= old) k (cleanup_now env) (q_world q) Hk (proj1 Hs)) as Hs1.
  pose proof (command_server (λ r, zremrangebyscore r k (cleanup_now env)) (q_world q)) as Hsv.
  unfold ZRemRangeByScore in *. destruct (command _ (q_world q)) as [w1 r1]. cbn [fst] in Hs1, Hsv.
  assert (let g := generation o env (feed_domains env n src) in
    zset (server w1) k = g ∨ zset (server w1) k = filter (λ x, (cleanup_now env < x.2)%Z) g) as Hg.
  { destruct Hsv as [->| ->]; [by left|right]. by rewrite zset_zrem, decide_True, Hz. }
  assert (only_members (server w1) k) as Ho1.
  { destruct Hsv as [->| ->]; [done|by apply only_members_zrem]. }
  pose proof (steps_trans _ _ _ _ Hs Hs1) as Hs2. pose proof (proj1 Hs1) as Hw1.
  destruct (_ =? 0)%Z.
  { apply nothing. eapply steps_trans; [done|]. by apply fail_staging_steps. }
  rewrite Hkey. destruct (Rename k live w1) as [w2 rr] eqn:Hr.
  destruct (rename_cases old k w1 w2 rr Hr Hk Hw1 Ho1) as [[Hs3 [e ->]]|(Hnz & r & -> & Hl)].
  - apply nothing. eapply steps_trans; [done|]. eapply steps_start; [done|].
    by apply fail_staging_steps.
  - assert (complete o env src (zset (server w1) k)) as Hc by (split; [done|]; by exists n).
    destruct rr as [u|e].
    + pose proof (finish_steps live o env Hkey Htrim Hne (.= zset (server w1) k) admission shadow q
        (advance w1 r) Hl) as Hf.
      destruct (sync_finish _ _ _ _ _ _) as [w' res]. by eapply switched.
    + pose proof (fail_staging_steps live o env Hkey Htrim Hne (.= zset (server w1) k) e
        (advance w1 r) Hl) as Hf.
      by eapply switched.
Qed.
End Replace.

(** ** A replacing run *)

Section Run.
Context {R : Type} `{UnicodeTables, HostServices, FeedLibs, RedisServer R, RedisIO, !RedisLaws R}.
Context (live : string) (o : SyncOptions) (env : SyncEnv) (src : FeedSource).

Lemma write_steps fuel mode stats planned target Q (w : World R) q err :
  target ≠ live → holds live Q (server w) →
  sync_write fuel o env mode src stats planned target w = Some (q, err) →
  steps (holds live Q) w (q_world q).
Proof.
  intros Ht Hw. unfold sync_write. cbv zeta.
  set (start := λ st, mkQueue (R := R) st [] 0 w).
  assert (∀ (q : Queue R) e, steps (holds live Q) w (q_world q) →
    steps (holds live Q) w (q_world (match e : option string with
      Some e => (q, Some e) | None => flush target q end).1)) as Hflush.
  { intros q1 [e|] Hq; [done|]. eapply steps_start; [done|]. by apply flush_steps. }
  case_bool_decide.
  - destruct (ParseEach _ _ _ _ _) as [[p e]|] eqn:Hp; [|done]. intros [= Hq].
    apply (f_equal fst) in Hq. cbn [fst] in Hq. rewrite <-Hq. apply Hflush. cbn [q_world].
    unfold ParseEach in Hp. eapply (parse_inv _ (λ q, steps (holds live Q) w (q_world q))) in Hp;
      [done| |by apply steps_refl].
    intros u i [] Hu; [done|]. eapply steps_start; [done|]. by apply queue_steps.
  - pose proof (queue_all_steps live target Ht o env Q planned (start stats) Hw) as Hs.
    unfold start, base_ttl in Hs. destruct (queue_all _ _ _ _ _ _) as [q1 e]. intros [= Hq].
    apply (f_equal fst) in Hq. cbn [fst] in Hq. rewrite <-Hq. by apply Hflush.
Qed.

(** Of a plan all retained domains that are admissible are left. *)
Lemma plan_domains fuel mode stats adm sh ds :
  mode = AdmissionShadow → sync_plan fuel o env mode src = Some (Ok (stats, adm, sh, ds)) →
  ∃ n, ends n src ∧ generation o env ds = generation o env (feed_domains env n src).
Proof.
  intros ->. unfold sync_plan. rewrite bool_decide_false, bool_decide_true by done.
  destruct (PlanAdmission _ _ _ _) as [[plan|]|] eqn:Hp; [|done..]. cbv zeta.
  destruct (filterPublicSuffixMembers _ _) as [st kept] eqn:Hk. intros [= _ _ _ <-].
  pose proof (filter_members_spec (Authoritative plan ++ Contextual plan) (PlanParseStats plan))
    as (Hf & _). rewrite Hk in Hf. cbn [snd] in Hf. subst kept.
  unfold PlanAdmission in Hp. eapply plan_lists in Hp as (n & Hn & Hd);
    [|unfold NormalizeAdmissionMode; cbn; rewrite TrimSpace_id; done].
  exists n. split; [done|]. apply generation_ext. intros d Ha.
  rewrite list_elem_of_filter, Hd. by split; [intros []|].
Qed.

Lemma write_ok fuel mode stats adm sh planned target (w : World R) q :
  mode ≠ AdmissionFilter →
  sync_plan fuel o env mode src = Some (Ok (stats, adm, sh, planned)) →
  sync_write fuel o env mode src stats planned target w = Some (q, None) →
  zset (server w) target = ∅ → only_members (server w) target →
  ∃ n, ends n src ∧ zset (server (q_world q)) target = generation o env (feed_domains env n src)
    ∧ only_members (server (q_world q)) target.
Proof.
  intros Hm Hplan Hwr Hz Ho. unfold sync_write in Hwr. cbv zeta in Hwr.
  assert (∀ st, queued target o env [] (mkQueue (R := R) st [] 0 w)) as H0'.
  { intros st. split; [|done]. by cbn. }
  assert (∀ ds (q1 : Queue R), queued target o env ds q1 → flush target q1 = (q, None) →
    zset (server (q_world q)) target = generation o env ds
    ∧ only_members (server (q_world q)) target) as Hdone.
  { intros ds q1 Hq Hf. destruct (flush_ok target o env _ _ _ Hq Hf) as [[Hz' Ho'] Hb].
    by rewrite Hb in Hz'. }
  revert Hwr. case_bool_decide as Hl.
  - destruct (ParseEach _ _ _ _ _) as [[p e]|] eqn:Hp; [|done]. intros Hwr.
    injection Hwr as Hwr. destruct e as [e|]; [done|]. unfold ParseEach in Hp.
    apply parse_success in Hp as (n & Hn & Hr & _). exists n. split; [done|].
    eapply Hdone; [|done]. apply (run_queue_ok target o env []) in Hr; [|done].
    pose proof (flagged_fresh
      (seen_limit (newBoundedSeenSet (resolvedFeedDomainLimit (configured_cap env)))) []
      (delivered n src)) as Hff. unfold retained at 1 in Hff. cbn [firsts foldl] in Hff.
    rewrite take_nil in Hff. cbn [app] in Hff. unfold feed_domains. rewrite <-Hff.
    by destruct (_ <? 0)%Z.
  - assert (mode = AdmissionShadow) as Hs by by destruct mode.
    destruct (plan_domains _ _ _ _ _ _ Hs Hplan) as (n & Hn & Hg).
    pose proof (queue_all_ok target o env [] planned (mkQueue stats [] 0 w)) as Hqa.
    unfold base_ttl in Hqa. destruct (queue_all _ _ _ _ _ _) as [q1 e]. intros Hwr.
    injection Hwr as Hwr. destruct e as [e|]; [done|]. exists n. split; [done|].
    rewrite <-Hg. eapply Hdone; [|done]. by apply Hqa.
Qed.

Lemma run_all_or_nothing fuel mode (w : World R) w' res :
  Key o = live → TrimSpace live = live → live ≠ "" → Replace o = true →
  mode ≠ AdmissionFilter →
  zset (server w) (staging_key o env) = ∅ → only_members (server w) (staging_key o env) →
  sync_run fuel o env mode src w = Some (w', res) →
  all_or_nothing live o env src (zset (server w) live) w w' res.
Proof.
  intros Hkey Htrim Hne Hrep Hm Hz Ho. set (old := zset (server w) live).
  assert (holds live (.= old) (server w)) as Hw by done.
  assert (staging_key o env ≠ live) as Hk by (rewrite <-Hkey; apply staging_key_ne).
  unfold sync_run. rewrite Hrep. cbn [default].
  destruct (sync_plan _ _ _ _ _) as [[[[[stats adm] sh] ds]|e]|] eqn:Hp; [| |done].
  2:{ intros [= <- <-]. apply nothing. by apply (fail_steps live o env Hkey Htrim Hne). }
  destruct (sync_write _ _ _ _ _ _ _ _ _) as [[q err]|] eqn:Hwr; [|done].
  pose proof (write_steps _ _ _ _ _ _ _ _ _ Hk Hw Hwr) as Hs. destruct err as [e|].
  - intros [= <- <-]. apply nothing. eapply steps_start; [done|].
    by apply (fail_staging_steps live o env Hkey Htrim Hne).
  - destruct (write_ok _ _ _ _ _ _ _ _ _ Hm Hp Hwr Hz Ho) as (n & Hn & Hzq & Hoq).
    intros Hsw. injection Hsw as Hsw.
    pose proof (switch_cases live o env src Hkey Htrim Hne Hrep old n w q adm sh Hn Hzq Hoq Hs) as Hc.
    by rewrite Hsw in Hc.
Qed.
End Run.

(** A synchronisation changes nothing, or records a failure, or is a writing run. *)
Lemma sync_shape {R} `{UnicodeTables, HostServices, FeedLibs, RedisServer R, RedisIO}
    fuel o env (w w' : World R) res :
  let o' := with_defaults o in
  Sync fuel o env w = Some (w', res) →
  (w' = w ∧ (DryRun o = true ∨ ∃ e, res = Err e))
  ∨ (∃ e, fail o' env e w = (w', res))
  ∨ (DryRun o = false ∧ ∃ mode src, mode ≠ AdmissionFilter ∧ opened env = Ok src
     ∧ sync_run fuel o' env mode src w = Some (w', res)).
Proof.
  intros o'. unfold Sync. fold o'. replace (DryRun o') with (DryRun o) by done.
  destruct (String.eqb _ ""); [intros [= <- <-]; eauto|].
  destruct (_ && _); [intros [= <- <-]; eauto|].
  destruct (NormalizeAdmissionMode _) as [mode|e]; [|intros [= <- <-]; eauto].
  case_bool_decide as Hm; cbv zeta; destruct (DryRun o); cbn [negb andb].
  - destruct (opened env); [|intros [= <- <-]; eauto].
    destruct (sync_dry _ _ _ _ _); [|done]. intros [= <- <-]. eauto.
  - intros [= <- <-]; eauto.
  - destruct (opened env); [|intros [= <- <-]; eauto].
    destruct (sync_dry _ _ _ _ _); [|done]. intros [= <- <-]. eauto.
  - destruct (negb (String.eqb _ "")); cbn [negb].
    2:{ destruct (opened env); intros [= <- <-]; eauto. }
    destruct (opened env) as [src|e]; intros Hr; right; [right|left].
    + split; [done|]. by exists mode, src.
    + exists e. by apply (inj Some) in Hr.
Qed.

(** C17: a replacing synchronisation, run from a state where its staging key does not
    exist: after every command of the run, whichever commands fail and whether the
    server carried them out or not, a reader of the live key finds the members the
    feed had before, until one switch, and from then on a non-empty complete
    generation: exactly the admissible retained domains of the whole source, each
    with its expiry, but possibly for those already expired at the clean-up.  A run
    without the switch reports an error; a run that ends with the switch may too. *)
Theorem replace_all_or_nothing {R} `{UnicodeTables, HostServices, FeedLibs, RedisServer R,
    RedisIO, !RedisLaws R} fuel o env (w : World R) w' res :
  let o' := with_defaults o in
  let old := zset (server w) (Key o') in
  Replace o = true → DryRun o = false →
  TrimSpace (Key o') = Key o' →
  zset (server w) (staging_key o' env) = ∅ → only_members (server w) (staging_key o' env) →
  Sync fuel o env w = Some (w', res) →
  ∃ before after new, visited w' = (visited w ++ before ++ after)%list
    ∧ Forall (λ r, zset r (Key o') = old) before
    ∧ Forall (λ r, zset r (Key o') = new) after
    ∧ ((after = [] ∧ zset (server w') (Key o') = old ∧ ∃ e, res = Err e)
       ∨ ((∃ src, opened env = Ok src ∧ complete o' env src new)
          ∧ zset (server w') (Key o') = new)).
Proof.
  intros o' old Hrep Hdry Htrim Hz Ho Hs.
  assert (Key o' ≠ "") as Hne.
  { unfold o'. cbn. destruct (String.eqb (TrimSpace (Key o)) "") eqn:Hk; [done|].
    intros He. rewrite He in Hk. cbn in Hk. done. }
  assert (∀ w1 e, steps (holds (Key o') (.= old)) w w1 → w1 = w' → Err e = res →
    ∃ before after new, visited w' = (visited w ++ before ++ after)%list
    ∧ Forall (λ r, zset r (Key o') = old) before
    ∧ Forall (λ r, zset r (Key o') = new) after
    ∧ ((after = [] ∧ zset (server w') (Key o') = old ∧ ∃ e, res = Err e)
       ∨ ((∃ src, opened env = Ok src ∧ complete o' env src new)
          ∧ zset (server w') (Key o') = new))) as Hno.
  { intros w1 e [Hs1 (l & Hv & Hl)] -> <-. exists l, [], ∅. rewrite app_nil_r.
    split_and!; [done..|]. left. eauto. }
  destruct (sync_shape _ _ _ _ _ _ Hs) as [[-> [?|[e ->]]]|[[e He]|(_ & mode & src & Hm & Hsrc & Hr)]].
  - congruence.
  - eapply Hno; [|done..]. by apply steps_refl.
  - apply (Hno (fail o' env e w).1 e); [by apply (fail_steps (Key o') o' env)| |];
      fold o' in He; rewrite ?He; [done|]. by apply (f_equal snd) in He.
  - destruct (run_all_or_nothing (Key o') o' env src fuel mode w w' res)
      as (before & after & new & ? & ? & ? & Hc); [done..|].
    exists before, after, new. split_and!; [done..|]. destruct Hc as [?|[? ?]]; [by left|right; eauto].
Qed.

Module Examples.
Import FeedSpec.Examples.
#[local] Existing Instances ex_tables ex_services ex_feed_libs.
(** A server with sorted sets, counters and statuses. *)
Record db := mkDb {
  db_sets : gmap string (gmap string Z); db_ints : gmap string Z;
  db_statuses : gmap string SourceStatus
}.
Definition db_set (d : db) (k : string) : gmap string Z := default ∅ (db_sets d !! k).
Definition db_put (d : db) (k : string) (m : gmap string Z) : db :=
  mkDb (<[k := m]> (db_sets d)) (db_ints d) (db_statuses d).
#[local] Instance db_server : RedisServer db := {|
  zset := db_set;
  zadd d k ms := (db_put d k (insert_all (db_set d k) ms), Z.of_nat (length ms));
  zremrangebyscore d k max :=
    (db_put d k (filter (λ x, (max < x.2)%Z) (db_set d k)), 0%Z);
  rename d a b :=
    if bool_decide (db_set d a = ∅) then None else Some (db_put (db_put d a ∅) b (db_set d a));
  del d k := db_put d k ∅;
  incr d k :=
    let n := (default 0 (db_ints d !! k) + 1)%Z in
    (mkDb (db_sets d) (<[k := n]> (db_ints d)) (db_statuses d), n);
  get_int d k := Some (default 0%Z (db_ints d !! k));
  get_status d k := db_statuses d !! k;
  set_status d k st := mkDb (db_sets d) (db_ints d) (<[k := st]> (db_statuses d))
|}.
Lemma db_set_put d k m k' : db_set (db_put d k m) k' = if decide (k' = k) then m else db_set d k'.
Proof.
  unfold db_set, db_put. cbn. case_decide; subst; [by rewrite lookup_insert_eq|].
  by rewrite lookup_insert_ne.
Qed.
Lemma db_only_members (d : db) k : only_members d k.
Proof. intros Hz b. cbn in *. by rewrite bool_decide_true. Qed.
#[local] Instance db_laws : RedisLaws db.
Proof.
  split; intros; cbn in *; rewrite ?db_set_put; try done; try apply db_only_members.
  - case_bool_decide; [done|]. simplify_eq. rewrite !db_set_put. by repeat case_decide.
  - by rewrite decide_False.
Qed.

Definition ex_options : SyncOptions :=
  mkOptions "feed.txt" 0 "127.0.0.1:6379" "feed" false true false f_zero 0 0 0 0 "".
Definition ex_env : SyncEnv := mkEnv (Ok text_feed) "now" 7 0 0 0.
Definition ex_world : World db := mkWorld (mkDb {["feed" := {["old.example.com" := 5%Z]}]} ∅ ∅) 0 [].
(** The acknowledgement of the fourth command is lost. *)
#[local] Instance lost_ack : RedisIO := {| redis_fault n :=
  if Nat.eqb n 3 then Some ("i/o timeout", true) else None |}.
Definition ex_result : World db * result SyncReport :=
  Eval vm_compute in default (ex_world, Err "") (Sync 1 ex_options ex_env ex_world).

Lemma replace_all_or_nothing_witness :
  let key := Key (with_defaults ex_options) in
  let old := zset (server ex_world) key in
  let w' := ex_result.1 in
  let res := ex_result.2 in
  ∃ before after new, visited w' = (visited ex_world ++ before ++ after)%list
    ∧ Forall (λ r, zset r key = old) before ∧ Forall (λ r, zset r key = new) after
    ∧ ((after = [] ∧ zset (server w') key = old ∧ ∃ e, res = Err e)
       ∨ ((∃ src, opened ex_env = Ok src ∧ complete (with_defaults ex_options) ex_env src new)
          ∧ zset (server w') key = new)).
Proof.
  apply (replace_all_or_nothing 1 ex_options ex_env ex_world ex_result.1 ex_result.2);
    [reflexivity..|vm_compute; reflexivity|vm_cast_no_check (@eq_refl (gmap string Z) ∅)
    |apply db_only_members|vm_cast_no_check (eq_refl (Some (ex_result.1, ex_result.2)))].
Defined.
(** The revision is raised by the fourth command: the new generation is live, its
    revision is raised on the server, and yet an error is reported. *)
Example lost_acknowledgement :
  ex_result.2 = Err "i/o timeout"
  ∧ sort_strings (map_to_list (zset (server ex_result.1) "feed")).*1 =
    ["bad.example.com"; "cdn.example.net"; "one.example.org"]
  ∧ length (visited ex_result.1) = 6.
Proof. split_and!; vm_compute; reflexivity. Qed.
End Examples.
