(* ===== verification/FeedCycle.v ===== *)
(** * Feed synchronisation cycles: [internal/feedsync], [internal/feed/status.go]

    The settings of a run and their validation, one synchronisation per configured
    source, and the summary of the recorded statuses.

    Flag parsing, environment variables and the Redis password are outside: a run
    starts from the parsed values ([RawSettings]).  [time.Parse] of RFC 3339
    timestamps is a class; the texts of errors are shortened. *)

From Stdlib Require Import ZArith Lia Ascii String SpecFloat.
From S2P Require Import Prelude GoStr Hostname NetIP GoFloat ClientIP Whitelist Brand Feed FeedSync.

(** ** Sources *)

Definition source_separator (c : ascii) : bool :=
  Ascii.eqb c "," || Ascii.eqb c (ascii_of_N 10) || Ascii.eqb c (ascii_of_N 13).
(** [strings.FieldsFunc] *)
Fixpoint fields_func (f : ascii → bool) (s word : string) : list string :=
  let flush rest := if String.eqb word "" then rest else srev word :: rest in
  match s with
  | EmptyString => flush []
  | String c s => if f c then flush (fields_func f s "") else fields_func f s (String c word)
  end.

(** [None]: a value that names no zone of seconds, in nanoseconds since 1970 *)
Class TimeLib := { parse_rfc3339 : string → option Z }.

Definition ProductionFreePreset : string := "production-free".
Definition ProductionVNPreset : string := "production-vn".
Definition productionFreeSources : list string := [
  "https://urlhaus.abuse.ch/downloads/csv_recent/";
  "https://raw.githubusercontent.com/openphish/public_feed/refs/heads/main/feed.txt"].
Definition productionVNSources : list string := [
  "https://urlhaus.abuse.ch/downloads/csv_recent/";
  "https://raw.githubusercontent.com/openphish/public_feed/refs/heads/main/feed.txt";
  "https://raw.githubusercontent.com/phishdestroy/destroylist/main/rootlist/formats/primary_active/domains.txt";
  "https://raw.githubusercontent.com/Phishing-Database/Phishing.Database/master/phishing-domains-ACTIVE.txt"].

Section Sources.
Context `{UnicodeTables}.
Fixpoint dedup_sources (parts : list string) (seen : gset string) : list string :=
  match parts with
  | [] => []
  | part :: parts =>
      let part := TrimSpace part in
      if String.eqb part "" then dedup_sources parts seen
      else if bool_decide (part ∈ seen) then dedup_sources parts seen
      else part :: dedup_sources parts ({[part]} ∪ seen)
  end.
Definition ParseSources (raw : string) : list string :=
  dedup_sources (fields_func source_separator raw "") ∅.
Definition ResolveSources (rawSources preset : string) : result (list string) :=
  match ParseSources rawSources with
  | [] =>
      let preset := ToLower (TrimSpace preset) in
      if String.eqb preset "" then Ok []
      else if String.eqb preset ProductionFreePreset then Ok productionFreeSources
      else if String.eqb preset ProductionVNPreset then Ok productionVNSources
      else Err "unknown threat feed preset"
  | sources => Ok sources
  end.
End Sources.

(** ** Settings *)

Inductive SettingsMode := ModeOneShot | ModeDaemon.
#[export] Instance SettingsMode_eq_dec : EqDecision SettingsMode.
Proof. solve_decision. Defined.
(** The values of the flags after parsing. *)
Record RawSettings := mkRaw {
  raw_source : string; raw_addr : string; raw_key : string; raw_replace : bool;
  raw_insecure : bool; raw_admission : string; raw_ttl_days : Z; raw_churn_days : Z;
  raw_dry_run : bool; raw_once : bool; raw_interval : Z
}.
Record Settings := mkSettings {
  Sources : list string; SettingsSource : string; SettingsAddr : string; SettingsKey : string;
  SettingsReplace : bool; AllowInsecure : bool; SettingsDryRun : bool; Once : bool;
  Interval : Z; SettingsAdmission : AdmissionMode; SettingsTTL : Z; SettingsChurnTTL : Z
}.
(** What [BuildSyncOptionsForSource] reads from the environment. *)
Record SyncConfig := mkSyncConfig {
  cfg_max_bytes : Z; cfg_drift_ratio : float64; cfg_drift_min : Z; cfg_min_writes : Z
}.
Definition admission_string (mode : AdmissionMode) : string :=
  match mode with
  | AdmissionLegacy => "legacy"
  | AdmissionShadow => "corroborated-url-host-shadow"
  | AdmissionFilter => "corroborated-url-host-filter"
  end.

Section Settings.
Context `{UnicodeTables}.
Definition ParseSettings (mode : SettingsMode) (raw : RawSettings) : result Settings :=
  if bool_decide (mode = ModeDaemon) && (raw_interval raw <=? 0)%Z then Err "interval must be positive"
  else
    match TTLFromDays (raw_ttl_days raw) with
    | Err e => Err e
    | Ok feedTTL =>
        match ChurnTTLFromDays (raw_churn_days raw) with
        | Err e => Err e
        | Ok churnTTL =>
            match (if bool_decide (mode = ModeDaemon)
                   then CheckChurnTTLAgainstInterval churnTTL (raw_interval raw) else None) with
            | Some e => Err e
            | None =>
                match NormalizeAdmissionMode (raw_admission raw) with
                | Err e => Err e
                | Ok AdmissionFilter => Err "corroborated URL-host filter is evaluation-only"
                | Ok admission =>
                    match ParseSources (raw_source raw) with
                    | [] => Err "feed source is required"
                    | sources =>
                        if raw_replace raw && Nat.ltb 1 (length sources)
                        then Err "replace mode stages a single source"
                        else
                          let daemon := bool_decide (mode = ModeDaemon) in
                          Ok (mkSettings sources (Join sources ",") (raw_addr raw) (raw_key raw)
                            (raw_replace raw) (raw_insecure raw) (negb daemon && raw_dry_run raw)
                            (daemon && raw_once raw) (if daemon then raw_interval raw else 0%Z)
                            admission feedTTL churnTTL)
                    end
                end
            end
        end
    end.
End Settings.

Definition BuildSyncOptionsForSource (settings : Settings) (cfg : SyncConfig) (source : string)
    : SyncOptions :=
  mkOptions source (cfg_max_bytes cfg) (SettingsAddr settings) (SettingsKey settings)
    (SettingsDryRun settings) (SettingsReplace settings) (AllowInsecure settings)
    (cfg_drift_ratio cfg) (cfg_drift_min cfg) (cfg_min_writes cfg) (SettingsTTL settings)
    (SettingsChurnTTL settings) (admission_string (SettingsAdmission settings)).
Definition BuildSyncOptions (settings : Settings) (cfg : SyncConfig) : SyncOptions :=
  BuildSyncOptionsForSource settings cfg
    (match Sources settings with s :: _ => s | [] => SettingsSource settings end).

(** ** Cycles *)

Section Cycle.
Context {R : Type} `{UnicodeTables, HostServices, FeedLibs, RedisServer R, RedisIO}.

Definition RunCycle (fuel : nat) (settings : Settings) (cfg : SyncConfig) (env : SyncEnv) (w : World R)
    : option (World R * result SyncReport) := Sync fuel (BuildSyncOptions settings cfg) env w.

(** The loop over the sources, each with what its environment contributes. *)
Fixpoint run_sources (fuel : nat) (settings : Settings) (cfg : SyncConfig) (envs : string → SyncEnv)
    (sources : list string) (w : World R) : option (World R * list SyncReport * list string) :=
  match sources with
  | [] => Some (w, [], [])
  | source :: sources =>
      let? wr := Sync fuel (BuildSyncOptionsForSource settings cfg source) (envs source) w in
      let '(w, r) := wr in
      let? rest := run_sources fuel settings cfg envs sources w in
      let '(w, reports, failures) := rest in
      Some (match r with
            | Ok report => (w, report :: reports, failures)
            | Err e => (w, reports, ("sync " ++ source ++ ": " ++ e) :: failures)
            end)
  end.
(** The reports, and the joined errors when there are any. *)
Definition RunCycleAll (fuel : nat) (settings : Settings) (cfg : SyncConfig) (envs : string → SyncEnv)
    (w : World R) : option (World R * list SyncReport * list string) :=
  run_sources fuel settings cfg envs (Sources settings) w.
End Cycle.

(** ** The status summary *)

Definition defaultStaleAfter : Z := 36 * hour.
Record StatusSummary := mkSummary {
  Configured : bool; Preset : string; SumFeedKey : string; SumStatus : string; SumError : string;
  ActiveEntries : Z; SumStale : bool; SumParserDrift : bool; SumEmptyIngest : bool; Revision : Z;
  SumLastAttemptAt : string; SumLastSuccessAt : string; StatusSources : list SourceStatus
}.

Section Summary.
Context {R : Type} `{UnicodeTables, FeedLibs, TimeLib, RedisServer R, RedisIO}.

(** [time.Since] saturates. *)
Definition max_duration : Z := 2 ^ 63 - 1.
Definition since (now t : Z) : Z := (Z.max (- 2 ^ 63) (Z.min (now - t) max_duration))%Z.
Definition set_stale (st : SourceStatus) (stale : bool) : SourceStatus :=
  mkStatus (StSource st) (StSourceID st) (StFeedKey st) (Status st) (LastAttemptAt st)
    (LastSuccessAt st) (LastFailureAt st) (LastError st) (StStats st) (StWritten st) (StReplace st)
    (StFinishedAt st) (StParserDrift st) (EmptyIngest st) (StCacheInvalidated st)
    (StFeedRevision st) (StAdmission st) (StShadow st) stale.
Definition applyStaleness (now staleAfter : Z) (st : SourceStatus) : SourceStatus :=
  let staleAfter := if (staleAfter <=? 0)%Z then defaultStaleAfter else staleAfter in
  set_stale st
    (if String.eqb (TrimSpace (LastSuccessAt st)) "" then true
     else match parse_rfc3339 (LastSuccessAt st) with
          | None => true
          | Some lastSuccess => (staleAfter <? since now lastSuccess)%Z
          end).
Definition laterTimestamp (candidate current : string) : bool :=
  if String.eqb candidate "" then false
  else if String.eqb current "" then true
  else match parse_rfc3339 candidate, parse_rfc3339 current with
       | None, _ => false
       | Some _, None => true
       | Some a, Some b => (b <? a)%Z
       end.
Definition unsynced (feedKey source status lastError : string) : SourceStatus :=
  mkStatus source (sourceID feedKey source) feedKey status "" "" "" lastError zero_stats 0 false ""
    false false false 0 None None false.
Definition buildDefaultSourceStatuses (now : Z) (feedKey : string) (sources : list string)
    (staleAfter : Z) : list SourceStatus :=
  (λ source, applyStaleness now staleAfter
     (unsynced (normalizedFeedKey feedKey) source "never_synced" "")) <$> sources.

(** [ZCount] from [now] to infinity *)
Definition ZCountFrom (key : string) (now : Z) : World R → World R * result Z :=
  command (λ r, (r, Z.of_nat (size (filter (λ x, (now <= x.2)%Z) (zset r key))))).

(** The state of one source as the summary sees it: [GetJSON] into a prefilled
    record, which an error or a missing key leaves as it was. *)
Definition source_state (now staleAfter : Z) (feedKey source : string)
    (res : result (option SourceStatus)) : SourceStatus :=
  applyStaleness now staleAfter
    (match res with
     | Err e => unsynced feedKey source "error" e
     | Ok None => unsynced feedKey source "never_synced" ""
     | Ok (Some st) => st
     end).
(** The fields of the summary and [hasWarning]. *)
Record Tally := mkTally {
  t_stale : bool; t_drift : bool; t_empty : bool; t_warning : bool; t_attempt : string;
  t_success : string; t_states : list SourceStatus
}.
Definition tally_state (t : Tally) (st : SourceStatus) : Tally :=
  mkTally (t_stale t || Stale st) (t_drift t || StParserDrift st) (t_empty t || EmptyIngest st)
    (t_warning t || EmptyIngest st || String.eqb (Status st) "error" || StParserDrift st)
    (if laterTimestamp (LastAttemptAt st) (t_attempt t) then LastAttemptAt st else t_attempt t)
    (if laterTimestamp (LastSuccessAt st) (t_success t) then LastSuccessAt st else t_success t)
    (t_states t ++ [st])%list.
Fixpoint tally_sources (clock : nat → Z) (staleAfter : Z) (feedKey : string) (sources : list string)
    (t : Tally) (w : World R) : World R * Tally :=
  match sources with
  | [] => (w, t)
  | source :: sources =>
      let '(w, res) := GetStatus (StatusKey feedKey source) w in
      tally_sources clock staleAfter feedKey sources
        (tally_state t (source_state (clock (tick w)) staleAfter feedKey source res)) w
  end.
Definition summary_status (active revision : Z) (t : Tally) : string :=
  if (active =? 0)%Z && ((0 <? revision)%Z || negb (String.eqb (t_success t) "")) then "missing"
  else if t_stale t then "stale"
  else if t_warning t then "warning" else "ok".

(** [clock]: the time, in nanoseconds, after each command. *)
Definition ReadStatusSummary (enabled : bool) (clock : nat → Z) (feedKey preset : string)
    (sources : list string) (staleAfter : Z) (w : World R) : World R * StatusSummary :=
  let feedKey := normalizedFeedKey feedKey in
  let configured := negb (Nat.eqb (length sources) 0) in
  let staleAfter := if (staleAfter <=? 0)%Z then defaultStaleAfter else staleAfter in
  let base status err revision stale states :=
    mkSummary configured (TrimSpace preset) feedKey status err 0 stale false false revision "" ""
      states in
  let unavailable (w : World R) err revision :=
    (w, base "unavailable" err revision true
          (buildDefaultSourceStatuses (clock (tick w)) feedKey sources staleAfter)) in
  if negb configured then (w, base "disabled" "" 0%Z false [])
  else if negb enabled then unavailable w "redis cache disabled" 0%Z
  else
    let '(w, res) := GetInt64 (RevisionKey feedKey) w in
    match res with
    | Err e => unavailable w e 0%Z
    | Ok revision =>
        let '(w, res) := ZCountFrom feedKey (clock (tick w) / 1000000000)%Z w in
        match res with
        | Err e => unavailable w e revision
        | Ok active =>
            let '(w, t) := tally_sources clock staleAfter feedKey sources
                             (mkTally false false false false "" "" []) w in
            let status := summary_status active revision t in
            let missing := String.eqb status "missing" in
            (w, mkSummary configured (TrimSpace preset) feedKey status
                  (if missing then "threat feed has no active entries after a recorded successful sync"
                   else "") active (t_stale t || missing) (t_drift t) (t_empty t) revision
                  (t_attempt t) (t_success t) (t_states t))
        end
    end.
End Summary.
