(* ===== verification/FeedCycleSpec.v ===== *)
(** * Properties of feed synchronisation cycles

    Accepted settings exclude the combinations that lose members; an additive cycle,
    whatever fails in it, keeps every member that is not about to expire; the summary
    reports [ok] exactly when every source is healthy. *)

From Stdlib Require Import ZArith Lia Ascii String SpecFloat.
From S2P Require Import Prelude GoStr Hostname NetIP GoFloat ClientIP Whitelist Brand Feed FeedSpec FeedSync FeedSyncSpec FeedCycle.

(** ** Settings *)

Section Settings.
Context `{UnicodeTables}.
Lemma dedup_sources_spec parts seen :
  NoDup (dedup_sources parts seen)
  ∧ ∀ s, s ∈ dedup_sources parts seen ↔ s ∉ seen ∧ s ≠ "" ∧ ∃ p, p ∈ parts ∧ TrimSpace p = s.
Proof.
  revert seen. induction parts as [|p parts IH]; intros seen; cbn [dedup_sources].
  { split; [constructor|]. intros s. rewrite elem_of_nil. split; [done|].
    intros (_ & _ & q & Hq%elem_of_nil & _). done. }
  cbv zeta. setoid_rewrite elem_of_cons.
  assert (∀ s, TrimSpace p ≠ s →
    (∃ q, (q = p ∨ q ∈ parts) ∧ TrimSpace q = s) ↔ ∃ q, q ∈ parts ∧ TrimSpace q = s) as Hskip.
  { intros s Hs. split; intros (q & Hq & <-); [|eauto]. destruct Hq as [->|?]; [done|eauto]. }
  destruct (String.eqb_spec (TrimSpace p) "") as [He|He].
  { destruct (IH seen) as [Hn Hs]. split; [done|]. intros s. rewrite Hs.
    destruct (decide (s = "")) as [->|Hse]; [by split; intros (_ & ? & _)|].
    by rewrite Hskip by congruence. }
  case_bool_decide as Hin.
  { destruct (IH seen) as [Hn Hs]. split; [done|]. intros s. rewrite Hs.
    destruct (decide (s ∈ seen)) as [Hse|Hse]; [by split; intros (? & _)|].
    by rewrite Hskip by (intros <-; done). }
  destruct (IH ({[TrimSpace p]} ∪ seen)) as [Hn Hs]. split.
  - constructor; [|done]. rewrite Hs. intros (Hno & _). apply Hno. set_solver.
  - intros s. rewrite elem_of_cons, Hs. destruct (decide (s = TrimSpace p)) as [->|Hne].
    + split; [|auto]. intros _. split_and!; [done..|]. exists p. auto.
    + rewrite Hskip by congruence. rewrite not_elem_of_union, not_elem_of_singleton.
      split; [intros [?|([_ ?] & ? & ?)]; [done|auto]|intros (? & ? & ?); right; auto].
Qed.

(** Accepted settings name at least one source, each once; never the
    evaluation-only mode; a replacing run has a single source; a daemon has a
    positive interval that is shorter than every shortened expiry; and every
    synchronisation built from them runs in the configured admission mode. *)
Theorem settings_safe mode raw s cfg :
  ParseSettings mode raw = Ok s →
  Sources s ≠ [] ∧ NoDup (Sources s) ∧ Forall (λ x, x ≠ "") (Sources s)
  ∧ SettingsAdmission s ≠ AdmissionFilter
  ∧ (SettingsReplace s = true → length (Sources s) = 1)
  ∧ (mode = ModeDaemon → (0 < Interval s)%Z ∧ SettingsDryRun s = false
     ∧ ((0 < SettingsChurnTTL s)%Z → (Interval s < SettingsChurnTTL s)%Z))
  ∧ ∀ source, NormalizeAdmissionMode (OptAdmissionMode (BuildSyncOptionsForSource s cfg source))
      = Ok (SettingsAdmission s).
Proof.
  unfold ParseSettings. intros Hs.
  destruct (bool_decide (mode = ModeDaemon) && _) eqn:Hint; [done|].
  destruct (TTLFromDays _) as [ttl|]; [|done]. destruct (ChurnTTLFromDays _) as [churn|]; [|done].
  destruct (if bool_decide (mode = ModeDaemon) then _ else None) eqn:Hch; [done|].
  destruct (NormalizeAdmissionMode _) as [adm|]; [|done].
  assert (adm ≠ AdmissionFilter) as Hadm by by intros ->.
  assert (match ParseSources (raw_source raw) with
    | [] => Err "feed source is required"
    | sources => if raw_replace raw && Nat.ltb 1 (length sources)
                 then Err "replace mode stages a single source"
                 else Ok (mkSettings sources (Join sources ",") (raw_addr raw) (raw_key raw)
                   (raw_replace raw) (raw_insecure raw)
                   (negb (bool_decide (mode = ModeDaemon)) && raw_dry_run raw)
                   (bool_decide (mode = ModeDaemon) && raw_once raw)
                   (if bool_decide (mode = ModeDaemon) then raw_interval raw else 0%Z)
                   adm ttl churn) end = Ok s) as Hs' by by destruct adm.
  clear Hs. destruct (dedup_sources_spec (fields_func source_separator (raw_source raw) "") ∅)
    as [Hnd Hel]. fold (ParseSources (raw_source raw)) in Hnd, Hel.
  destruct (ParseSources (raw_source raw)) as [|x xs] eqn:Hps; [done|].
  cbv zeta in Hs'. destruct (raw_replace raw && _) eqn:Hrep; [done|]. injection Hs' as <-.
  cbn [Sources SettingsAdmission SettingsReplace Interval SettingsDryRun SettingsChurnTTL].
  split_and!; try done.
  - apply Forall_forall. intros y Hy. by apply Hel in Hy as (_ & ? & _).
  - intros Hr. rewrite Hr in Hrep. apply Nat.ltb_ge in Hrep. cbn in *. lia.
  - intros ->. cbn in Hint, Hch |- *. apply Z.leb_gt in Hint. split_and!; [done..|]. intros Hc.
    unfold CheckChurnTTLAgainstInterval in Hch. rewrite !(proj2 (Z.leb_gt _ _)) in Hch by lia.
    revert Hch. by destruct (Z.leb_spec churn (raw_interval raw)).
  - intros source. cbn. unfold NormalizeAdmissionMode. destruct adm; rewrite TrimSpace_id; done.
Qed.
End Settings.

(** ** Additive cycles *)

Section Additive.
Context {R : Type} `{UnicodeTables, HostServices, FeedLibs, RedisServer R, RedisIO, !RedisLaws R}.
Context (live : string) (horizon : Z) (old : gmap string Z).

(** The members of [old] that outlive [horizon] are still there, and outlive it. *)
Definition keeps (m : gmap string Z) : Prop :=
  ∀ d s, old !! d = Some s → (horizon < s)%Z → ∃ s', m !! d = Some s' ∧ (horizon < s')%Z.

Lemma keeps_insert m ms : Forall (λ x, (horizon < x.2)%Z) ms → keeps m → keeps (insert_all m ms).
Proof.
  intros Hms. revert m. induction Hms as [|[d s] ms Hs _ IH]; intros m Hm; [done|].
  apply IH. intros d' s' Hd' Hs'. cbn. destruct (decide (d = d')) as [->|Hne].
  - exists s. by rewrite lookup_insert_eq.
  - rewrite lookup_insert_ne by done. by eapply Hm.
Qed.
Lemma keeps_filter m max :
  (max <= horizon)%Z → keeps m → keeps (filter (λ x, (max < x.2)%Z) m).
Proof.
  intros Hmax Hm d s Hd Hs. destruct (Hm d s Hd Hs) as (s' & Hs' & Hlt). exists s'.
  split; [|done]. apply map_lookup_filter_Some. split; [done|]. cbn. lia.
Qed.

Context (o : SyncOptions) (env : SyncEnv).
Context (Hclean : (cleanup_now env <= horizon)%Z) (Hscore : ∀ d, (horizon < score o env d)%Z).
Notation queue := (queueDomain live (sync_now env) (base_ttl o) (ChurnTTL o)).

Definition kept (w : World R) (q : Queue R) : Prop :=
  steps (holds live keeps) w (q_world q) ∧ Forall (λ x, (horizon < x.2)%Z) (q_batch q).

Lemma kept_flush w (q : Queue R) : kept w q → kept w (flush live q).1.
Proof.
  intros [Hs Hb]. unfold flush. destruct (q_batch q) as [|x b] eqn:Hq; [by split; cbn [fst]; rewrite ?Hq|].
  cbn [ZAdd].
  assert (steps (holds live keeps) (q_world q)
    (command (λ r, zadd r live (x :: b)) (q_world q)).1) as Hc.
  { apply command_steps; [|apply Hs]. intros r Hr. unfold holds.
    rewrite zset_zadd, decide_True by done. by apply keeps_insert. }
  pose proof (steps_trans _ _ _ _ Hs Hc) as Hs1.
  by destruct (command _ (q_world q)) as [w1 [n|e]].
Qed.
Lemma kept_queue w (q : Queue R) d : kept w q → kept w (queue q d).1.
Proof.
  intros [Hs Hb]. unfold queueDomain. destruct (admitFeedDomain d _) as [st []]; cbn [negb]; [|done].
  cbv zeta. assert (∀ st, kept w (mkQueue st (q_batch q ++
    [(d, member_score (sync_now env) (MemberTTL d (base_ttl o) (ChurnTTL o)))])%list
    (q_written q) (q_world q))) as Hq.
  { intros st'. split; [done|]. apply Forall_app. split; [done|]. apply Forall_singleton, Hscore. }
  destruct (Nat.leb _ _); [by apply kept_flush|apply Hq].
Qed.
Lemma kept_queue_all w ds (q : Queue R) :
  kept w q → kept w (queue_all live (sync_now env) (base_ttl o) (ChurnTTL o) ds q).1.
Proof.
  revert q. induction ds as [|d ds IH]; intros q Hq; [done|]. cbn [queue_all].
  pose proof (kept_queue w q d Hq) as Hk. destruct (queue q d) as [q1 [e|]]; [done|]. by apply IH.
Qed.

Context (Hkey : Key o = live) (Htrim : TrimSpace live = live) (Hne : live ≠ "").
Context (Hadd : Replace o = false).

Lemma run_keeps fuel mode src (w w' : World R) res :
  keeps (zset (server w) live) → sync_run fuel o env mode src w = Some (w', res) →
  steps (holds live keeps) w w'.
Proof.
  intros Hw. unfold sync_run. rewrite Hadd. cbn [default].
  assert (∀ w1 e, steps (holds live keeps) w w1 → steps (holds live keeps) w (fail o env e w1).1)
    as Hfail.
  { intros w1 e Hs. eapply steps_start; [done|]. by apply (fail_steps live o env Hkey Htrim Hne). }
  assert (steps (holds live keeps) w w) as Hid by by apply steps_refl.
  destruct (sync_plan _ _ _ _ _) as [[[[[stats adm] sh] ds]|e]|]; [| |done].
  2:{ intros Hr. apply (inj Some), (f_equal fst) in Hr. cbn [fst] in Hr. rewrite <-Hr. by apply Hfail. }
  destruct (sync_write _ _ _ _ _ _ _ _ _) as [[q err]|] eqn:Hwr; [|done].
  assert (kept w q) as Hq.
  { unfold sync_write in Hwr. cbv zeta in Hwr. rewrite Hkey in Hwr. revert Hwr.
    assert (∀ st, kept w (mkQueue (R := R) st [] 0 w)) as H0' by by split.
    assert (∀ (q1 : Queue R) e, kept w q1 →
      kept w (match e : option string with Some e => (q1, Some e) | None => flush live q1 end).1)
      as Hfl by (intros q1 [] Hq1; [done|by apply kept_flush]).
    case_bool_decide.
    - destruct (ParseEach _ _ _ _ _) as [[p e]|] eqn:Hp; [|done]. intros [= Hq].
      apply (f_equal fst) in Hq. cbn [fst] in Hq. rewrite <-Hq. apply Hfl.
      unfold ParseEach in Hp. eapply (parse_inv _ (kept w)) in Hp; [done| |done].
      intros u i [] Hu; [done|]. by apply kept_queue.
    - pose proof (kept_queue_all w ds (mkQueue stats [] 0 w) (H0' _)) as Hk. unfold base_ttl in Hk.
      destruct (queue_all _ _ _ _ _ _) as [q1 e]. intros [= Hq].
      apply (f_equal fst) in Hq. cbn [fst] in Hq. rewrite <-Hq. by apply Hfl. }
  intros Hr. apply (inj Some) in Hr. destruct err as [e|].
  - apply (f_equal fst) in Hr. cbn [fst] in Hr. rewrite <-Hr. apply Hfail, Hq.
  - unfold sync_switch in Hr. rewrite Hadd, Hkey in Hr. cbn [default] in Hr.
    assert (steps (holds live keeps) (q_world q)
      (ZRemRangeByScore live (cleanup_now env) (q_world q)).1) as Hz.
    { apply command_steps; [|apply Hq]. intros r Hr'. unfold holds.
      rewrite zset_zrem, decide_True by done. by apply keeps_filter. }
    destruct (ZRemRangeByScore _ _ _) as [w1 r1]. apply (f_equal fst) in Hr. cbn [fst] in *.
    rewrite <-Hr. eapply steps_trans; [apply Hq|]. eapply steps_start; [done|].
    by apply (finish_steps live o env Hkey Htrim Hne).
Qed.
End Additive.

Section Cycle.
Context {R : Type} `{UnicodeTables, HostServices, FeedLibs, RedisServer R, RedisIO, !RedisLaws R}.

Lemma sync_keeps horizon old o env fuel (w w' : World R) res :
  let live := Key (with_defaults o) in
  Replace o = false → TrimSpace live = live →
  (cleanup_now env <= horizon)%Z → (∀ d, (horizon < score o env d)%Z) →
  keeps horizon old (zset (server w) live) → Sync fuel o env w = Some (w', res) →
  steps (holds live (keeps horizon old)) w w'.
Proof.
  intros live Hadd Htrim Hc Hsc Hw Hs.
  assert (live ≠ "") as Hne.
  { unfold live. cbn. destruct (String.eqb (TrimSpace (Key o)) "") eqn:Hk; [done|].
    intros He. rewrite He in Hk. by cbn in Hk. }
  destruct (sync_shape _ _ _ _ _ _ Hs) as [[-> _]|[[e He]|(_ & mode & src & _ & _ & Hr)]].
  - by apply steps_refl.
  - apply (f_equal fst) in He. cbn [fst] in He. rewrite <-He.
    by apply (fail_steps live (with_defaults o) env).
  - by eapply (run_keeps live horizon old (with_defaults o) env).
Qed.

Lemma run_sources_keeps horizon old fuel s cfg envs sources (w w' : World R) reports failures live :
  SettingsReplace s = false → live = Key (with_defaults (BuildSyncOptionsForSource s cfg "")) →
  TrimSpace live = live →
  (∀ x, x ∈ sources → (cleanup_now (envs x) <= horizon)%Z
     ∧ ∀ d, (horizon < score (BuildSyncOptionsForSource s cfg x) (envs x) d)%Z) →
  keeps horizon old (zset (server w) live) →
  run_sources fuel s cfg envs sources w = Some (w', reports, failures) →
  steps (holds live (keeps horizon old)) w w'
  ∧ (length reports + length failures = length sources)%nat.
Proof.
  intros Hadd -> Htrim. revert w w' reports failures.
  induction sources as [|x xs IH]; intros w w' reports failures Hx Hw; cbn [run_sources].
  { intros [= <- <- <-]. split; [by apply steps_refl|done]. }
  destruct (Sync _ _ _ _) as [[w1 r]|] eqn:Hs; [|done].
  destruct (run_sources _ _ _ _ xs w1) as [[[w2 reps] fails]|] eqn:Hrun; [|done]. intros Heq.
  destruct (Hx x (list_elem_of_here _ _)) as [Hc Hsc].
  pose proof (sync_keeps horizon old (BuildSyncOptionsForSource s cfg x) (envs x) fuel w w1 r
    Hadd Htrim Hc Hsc Hw Hs) as Hst.
  destruct (IH w1 w2 reps fails) as [Hst' Hl]; [by intros y Hy; apply Hx; right|apply Hst|done|].
  apply (inj Some) in Heq.
  assert (w2 = w' ∧ (length reports + length failures = S (length xs))%nat) as [<- Hlen].
  { destruct r; injection Heq as <- <- <-; cbn; split; (done || lia). }
  split; [by eapply steps_trans|done].
Qed.

(** An additive cycle over all its sources attempts every one of them, and in
    every state readers can see during it, whichever commands and whichever sources
    fail, each member the feed had whose expiry lies beyond [horizon] is still a
    member with an expiry beyond it, where [horizon] is a time not before the clean-ups
    of the cycle and before the expiry of the members it writes. *)
Theorem cycle_keeps_members fuel s cfg envs horizon (w w' : World R) reports failures :
  let live := Key (with_defaults (BuildSyncOptionsForSource s cfg "")) in
  SettingsReplace s = false → TrimSpace live = live →
  (∀ x, x ∈ Sources s → (cleanup_now (envs x) <= horizon)%Z
     ∧ ∀ d, (horizon < score (BuildSyncOptionsForSource s cfg x) (envs x) d)%Z) →
  RunCycleAll fuel s cfg envs w = Some (w', reports, failures) →
  (length reports + length failures = length (Sources s))%nat
  ∧ ∃ states, visited w' = (visited w ++ states)%list ∧
      ∀ r d score, r ∈ server w' :: states → zset (server w) live !! d = Some score →
        (horizon < score)%Z → ∃ score', zset r live !! d = Some score' ∧ (horizon < score')%Z.
Proof.
  intros live Hadd Htrim Hx Hrun.
  destruct (run_sources_keeps horizon (zset (server w) live) fuel s cfg envs (Sources s) w w'
    reports failures live) as [[Hw' (l & Hv & Hl)] Hlen]; [done..|by intros d sc Hd; eauto|done|].
  split; [done|]. exists l. split; [done|]. rewrite Forall_forall in Hl.
  intros r d sc [->|Hr]%elem_of_cons Hd Hlt; [by eapply Hw'|by eapply (Hl r)].
Qed.
End Cycle.

(** ** The status summary *)

Section Summary.
Context {R : Type} `{UnicodeTables, FeedLibs, TimeLib, RedisServer R, RedisIO}.
Context (now staleAfter : Z) (Hpos : (0 < staleAfter)%Z).

(** A recorded status an operator need not look at. *)
Definition healthy (st : SourceStatus) : Prop :=
  Status st ≠ "error" ∧ StParserDrift st = false ∧ EmptyIngest st = false
  ∧ TrimSpace (LastSuccessAt st) ≠ ""
  ∧ ∃ t, parse_rfc3339 (LastSuccessAt st) = Some t ∧ (since now t <= staleAfter)%Z.
Definition calm (st : SourceStatus) : Prop :=
  Stale st = false ∧ EmptyIngest st = false ∧ Status st ≠ "error" ∧ StParserDrift st = false.

Lemma source_state_calm feedKey source res :
  calm (source_state now staleAfter feedKey source res) ↔ ∃ st, res = Ok (Some st) ∧ healthy st.
Proof.
  assert (∀ st, calm (applyStaleness now staleAfter st) ↔ healthy st) as Hst.
  { intros st. unfold calm, healthy, applyStaleness. cbn.
    rewrite (proj2 (Z.leb_gt staleAfter 0)) by lia.
    destruct (String.eqb_spec (TrimSpace (LastSuccessAt st)) "") as [He|He].
    { split; [by intros [? _]|by intros (_ & _ & _ & ? & _)]. }
    destruct (parse_rfc3339 (LastSuccessAt st)) as [t|].
    - rewrite Z.ltb_ge. split; [intros (? & ? & ? & ?); eauto 10|].
      by intros (? & ? & ? & _ & t' & [= <-] & ?).
    - split; [by intros [? _]|]. by intros (_ & _ & _ & _ & t & ? & _). }
  assert (∀ status err, ¬ calm (applyStaleness now staleAfter (unsynced feedKey source status err))) as Hun.
  { intros status err Hc%Hst. by destruct Hc as (_ & _ & _ & Hc & _). }
  unfold source_state. destruct res as [[st|]|e].
  - rewrite Hst. split; [eauto|]. by intros (st' & [= <-] & ?).
  - split; [by intros ?%Hun|by intros (st' & ? & _)].
  - split; [by intros ?%Hun|by intros (st' & ? & _)].
Qed.

Lemma tally_stale t sts :
  t_stale (foldl tally_state t sts) || t_warning (foldl tally_state t sts) = false ↔
  t_stale t || t_warning t = false ∧ ∀ st, st ∈ sts → calm st.
Proof.
  revert t. induction sts as [|st sts IH]; intros t; cbn [foldl].
  { split; [|by intros []]. intros ?. split; [done|]. by intros st ?%elem_of_nil. }
  rewrite IH. unfold calm. setoid_rewrite elem_of_cons. cbn. rewrite !orb_false_iff, String.eqb_neq.
  split.
  - intros [[[? ?] [[[? ?] ?] ?]] Hs]. split; [done|]. intros st' [->|?]; auto.
  - intros [[? ?] Hs]. destruct (Hs st (or_introl eq_refl)) as (? & ? & ? & ?).
    split_and!; auto.
Qed.
Lemma tally_success t sts :
  t_success (foldl tally_state t sts) = "" ↔ t_success t = "" ∧ ∀ st, st ∈ sts → LastSuccessAt st = "".
Proof.
  revert t. induction sts as [|st sts IH]; intros t; cbn [foldl].
  { split; [|by intros []]. intros ?. split; [done|]. by intros st ?%elem_of_nil. }
  rewrite IH. setoid_rewrite elem_of_cons. cbn. unfold laterTimestamp.
  destruct (String.eqb_spec (LastSuccessAt st) "") as [He|He].
  - split; [|naive_solver]. intros [? Hs]. split; [done|]. intros st' [->|?]; auto.
  - destruct (String.eqb_spec (t_success t) "") as [Ht|Ht].
    + split; [by intros [? _]|]. intros [_ Hs]. by destruct He; apply Hs; left.
    + split; [|by intros [? _]]. intros [Hc _]. exfalso. revert Hc. by repeat case_match.
Qed.

(** The states the summary saw. *)
Lemma tally_sources_spec clock feedKey sources t (w w' : World R) t' :
  (∀ n, clock n = now) → tally_sources clock staleAfter feedKey sources t w = (w', t') →
  ∃ sts, t' = foldl tally_state t sts
    ∧ Forall2 (λ source st, ∃ res, st = source_state now staleAfter feedKey source res
        ∧ (∀ x, res = Ok x → x = get_status (server w) (StatusKey feedKey source))
        ∧ ((∀ n, redis_fault n = None) → ∃ x, res = Ok x)) sources sts.
Proof.
  intros Hclock. revert t w. induction sources as [|x xs IH]; intros t w; cbn [tally_sources].
  { intros [= _ <-]. exists []. by split. }
  destruct (GetStatus _ w) as [w1 res] eqn:Hg. rewrite Hclock. intros Hrest.
  assert (server w1 = server w ∧ (∀ y, res = Ok y → y = get_status (server w) (StatusKey feedKey x))
    ∧ ((∀ n, redis_fault n = None) → ∃ y, res = Ok y)) as (Hsv & Hok & Hno).
  { unfold GetStatus, command in Hg. destruct (redis_fault _) as [[e []]|] eqn:Hf;
      injection Hg as <- <-; split_and!; try done; intros; try (by eauto); by congruence. }
  apply IH in Hrest as (sts & -> & Hall). exists (source_state now staleAfter feedKey x res :: sts).
  split; [done|]. constructor; [by exists res|]. by rewrite Hsv in Hall.
Qed.
(** The verdict on what the summary saw. *)
Lemma summary_ok clock key sources active revision (w w1 : World R) :
  (∀ n, clock n = now) → sources ≠ [] →
  let well := active ≠ 0 ∧ ∀ source, source ∈ sources →
    ∃ st, get_status (server w) (StatusKey key source) = Some st ∧ healthy st in
  server w1 = server w →
  let '(w2, t) := tally_sources clock staleAfter key sources
    (mkTally false false false false "" "" []) w1 in
  (summary_status (Z.of_nat active) revision t = "ok" → well)
  ∧ ((∀ n, redis_fault n = None) → well → summary_status (Z.of_nat active) revision t = "ok").
Proof.
  intros Hclock Hne well Hw1. destruct (tally_sources _ _ _ _ _ w1) as [w2 t] eqn:Htl.
  apply (tally_sources_spec clock) in Htl as (sts & -> & Hall); [|done].
  rewrite Hw1 in Hall. set (t0 := mkTally _ _ _ _ _ _ _).
  pose proof (tally_stale t0 sts) as Hts. pose proof (tally_success t0 sts) as Htx.
  unfold summary_status. split.
  - intros Hok. destruct (t_stale (foldl tally_state t0 sts)) eqn:Es; [by case_match|].
    destruct (t_warning (foldl tally_state t0 sts)) eqn:Ew; [by case_match|].
    destruct (proj1 Hts eq_refl) as [_ Hcalm].
    assert (∀ source, source ∈ sources → ∃ st,
      get_status (server w) (StatusKey key source) = Some st ∧ healthy st) as Hh.
    { intros source (i & Hi)%list_elem_of_lookup.
      destruct (Forall2_lookup_l _ _ _ _ _ Hall Hi) as (st & Hst & res & -> & Hres & _).
      apply list_elem_of_lookup_2, Hcalm in Hst.
      apply source_state_calm in Hst as (st & -> & Hh).
      exists st. split; [|done]. symmetry. by apply Hres. }
    split; [|done]. intros Ha. rewrite Ha in Hok. cbn in Hok.
    destruct (t_success (foldl tally_state t0 sts)) as [|c x] eqn:Hx; [|by rewrite orb_true_r in Hok].
    destruct (proj1 Htx eq_refl) as [_ Hempty]. destruct sources as [|s ss]; [done|].
    inversion Hall as [|? st ? sts' (res & Hst & Hres & _)]; subst.
    assert (calm (source_state now staleAfter key s res)) as Hc by (apply Hcalm; by left).
    pose proof (Hempty _ (list_elem_of_here _ _)) as Hs.
    apply source_state_calm in Hc as (st & -> & Hc). cbn in Hs.
    destruct Hc as (_ & _ & _ & Hc & _). by rewrite Hs in Hc.
  - intros Hno [Ha Hh]. rewrite (proj2 (Z.eqb_neq (Z.of_nat active) 0)) by lia. cbn [andb].
    assert (∀ st, st ∈ sts → calm st) as Hcalm.
    { intros st (i & Hi)%list_elem_of_lookup.
      destruct (Forall2_lookup_r _ _ _ _ _ Hall Hi) as (source & Hs & res & -> & Hres & Hok).
      destruct (Hok Hno) as [x ->]. rewrite (Hres x eq_refl).
      destruct (Hh source) as (st & -> & Hst); [by eapply list_elem_of_lookup_2|].
      apply source_state_calm; eauto. }
    assert (t_stale (foldl tally_state t0 sts) || t_warning (foldl tally_state t0 sts) = false)
      as [-> ->]%orb_false_iff by by apply Hts.
    done.
Qed.
End Summary.

(** The summary of a configured feed reports [ok] only if the live key has
    unexpired members and every source has a recorded status that is no error, is
    fresh, and has neither drifted nor come up empty, even when reads fail; and when
    no read fails it does so whenever that is the case. *)
Theorem status_ok_exact {R} `{UnicodeTables, FeedLibs, TimeLib, RedisServer R, RedisIO}
    now feedKey preset sources staleAfter (w : World R) :
  let key := normalizedFeedKey feedKey in
  let stale := if (staleAfter <=? 0)%Z then defaultStaleAfter else staleAfter in
  let active := size (filter (λ x, (now / 1000000000 <= x.2)%Z) (zset (server w) key)) in
  let well := active ≠ 0 ∧ ∀ source, source ∈ sources →
    ∃ st, get_status (server w) (StatusKey key source) = Some st ∧ healthy now stale st in
  let summary := (ReadStatusSummary true (λ _, now) feedKey preset sources staleAfter w).2 in
  sources ≠ [] →
  (SumStatus summary = "ok" → well)
  ∧ ((∀ n, redis_fault n = None) → is_Some (get_int (server w) (RevisionKey key)) → well →
     SumStatus summary = "ok").
Proof.
  intros key stale active well summary Hne.
  assert (0 < stale)%Z as Hpos by (unfold stale; destruct (Z.leb_spec staleAfter 0); [done|lia]).
  pose proof (summary_ok now stale Hpos (λ _, now) key sources active) as Ht.
  unfold summary, ReadStatusSummary. cbv zeta. fold key stale.
  destruct (Nat.eqb_spec (length sources) 0) as [?%nil_length_inv|_]; [done|]. cbn [negb].
  unfold GetInt64, command. cbn [server].
  destruct (redis_fault (tick w)) as [[e b]|] eqn:Hf1.
  { cbn. split; [done|]. intros Hno. by rewrite Hno in Hf1. }
  destruct (get_int (server w) (RevisionKey key)) as [rev|] eqn:Hrev.
  2:{ cbn. split; [done|]. by intros _ [? ?]. }
  unfold ZCountFrom, command. cbn [server advance tick].
  destruct (redis_fault (S (tick w))) as [[e b]|] eqn:Hf2.
  { cbn. split; [done|]. intros Hno. by rewrite Hno in Hf2. }
  specialize (Ht rev w (advance (advance w (server w)) (server w)) (λ _, eq_refl) Hne eq_refl).
  cbv zeta in Ht. unfold advance in Ht |- *. cbn [server tick visited] in *.
  destruct (tally_sources _ _ _ _ _ _) as [w2 t]. cbn. destruct Ht as [Hto Hfrom].
  split; [exact Hto|]. intros Hno _. exact (Hfrom Hno).
Qed.

Module Examples.
Import FeedSpec.Examples FeedSyncSpec.Examples.
#[local] Existing Instances ex_tables ex_services ex_feed_libs db_server db_laws lost_ack.
(** Timestamps are single digits of seconds. *)
#[local] Instance ex_time : TimeLib := {| parse_rfc3339 s :=
  match s with
  | String c "" => Some ((byte_z c - 48) * 1000000000)%Z
  | _ => None
  end |}.

Definition ex_raw : RawSettings :=
  mkRaw "a.txt, b.txt,a.txt" "127.0.0.1:6379" "feed" false false "" 14 2 false false (24 * hour).
Definition ex_settings : Settings :=
  match ParseSettings ModeDaemon ex_raw with
  | Ok s => s
  | Err _ => mkSettings [] "" "" "" false false false false 0 AdmissionLegacy 0 0
  end.
Definition ex_config : SyncConfig := mkSyncConfig 0 f_zero 0 0.

Lemma settings_safe_witness :
  ParseSettings ModeDaemon ex_raw = Ok ex_settings
  ∧ Sources ex_settings ≠ [] ∧ NoDup (Sources ex_settings)
  ∧ Forall (λ x, x ≠ "") (Sources ex_settings)
  ∧ SettingsAdmission ex_settings ≠ AdmissionFilter
  ∧ (SettingsReplace ex_settings = true → length (Sources ex_settings) = 1)
  ∧ (ModeDaemon = ModeDaemon → (0 < Interval ex_settings)%Z ∧ SettingsDryRun ex_settings = false
     ∧ ((0 < SettingsChurnTTL ex_settings)%Z → (Interval ex_settings < SettingsChurnTTL ex_settings)%Z))
  ∧ ∀ source, NormalizeAdmissionMode (OptAdmissionMode
      (BuildSyncOptionsForSource ex_settings ex_config source)) = Ok (SettingsAdmission ex_settings).
Proof.
  split; [vm_compute; reflexivity|].
  apply (settings_safe ModeDaemon ex_raw ex_settings ex_config). vm_compute. reflexivity.
Defined.
Example replace_refused :
  ParseSettings ModeOneShot (mkRaw "a,b" "" "" true false "" 14 0 false false 0) =
  Err "replace mode stages a single source".
Proof. by vm_compute. Qed.

(** The first source cannot be opened. *)
Definition ex_envs (source : string) : SyncEnv :=
  if String.eqb source "a.txt" then mkEnv (Err "no such file") "now" 7 0 0 0 else ex_env.
Definition ex_members : World db :=
  mkWorld (mkDb {["feed" := {["old.example.com" := 500%Z; "gone.example.com" := 0%Z]}]} ∅ ∅) 0 [].
Definition ex_cycle : World db * list SyncReport * list string :=
  Eval vm_compute in
    default (ex_members, [], []) (RunCycleAll 1 ex_settings ex_config ex_envs ex_members).

Lemma cycle_keeps_members_witness :
  let live := Key (with_defaults (BuildSyncOptionsForSource ex_settings ex_config "")) in
  (length ex_cycle.1.2 + length ex_cycle.2 = length (Sources ex_settings))%nat
  ∧ ∃ states, visited ex_cycle.1.1 = (visited ex_members ++ states)%list ∧
      ∀ r d score, r ∈ server ex_cycle.1.1 :: states →
        zset (server ex_members) live !! d = Some score → (1 < score)%Z →
        ∃ score', zset r live !! d = Some score' ∧ (1 < score')%Z.
Proof.
  apply (cycle_keeps_members 1 ex_settings ex_config ex_envs 1 ex_members ex_cycle.1.1
    ex_cycle.1.2 ex_cycle.2); [reflexivity|vm_compute; reflexivity| |].
  - intros x _. unfold ex_envs. split; [by destruct (String.eqb x "a.txt")|]. intros d.
    unfold score. replace (sync_now _) with 0%Z by by destruct (String.eqb x "a.txt").
    unfold member_score, MemberTTL, base_ttl.
    replace (TTL _) with (14 * 24 * hour)%Z by (vm_compute; reflexivity).
    replace (ChurnTTL _) with (2 * 24 * hour)%Z by (vm_compute; reflexivity).
    destruct (IsChurnProneTenant d); by vm_compute.
  - vm_cast_no_check (eq_refl (Some (ex_cycle.1.1, ex_cycle.1.2, ex_cycle.2))).
Defined.
(** One source failed, the other delivered; the member past its expiry is gone. *)
Example cycle_outcome :
  (length ex_cycle.1.2, length ex_cycle.2) = (1, 1)
  ∧ sort_strings (map_to_list (zset (server ex_cycle.1.1) "feed")).*1 =
    ["bad.example.com"; "cdn.example.net"; "old.example.com"; "one.example.org"].
Proof. split; vm_compute; reflexivity. Qed.

Definition ok_status : SourceStatus :=
  mkStatus "a.txt" "" "feed" "ok" "3" "3" "" "" zero_stats 1 false "3" false false true 1 None None false.
Definition ok_world : World db :=
  mkWorld (mkDb {["feed" := {["old.example.com" := 500%Z]}]} {["feed:revision" := 1%Z]}
    {[StatusKey "feed" "a.txt" := ok_status]}) 10 [].
Lemma status_ok_exact_witness :
  let now := 5000000000%Z in
  let key := normalizedFeedKey "feed" in
  let stale := if (0 <=? 0)%Z then defaultStaleAfter else 0%Z in
  let active := size (filter (λ x, (now / 1000000000 <= x.2)%Z) (zset (server ok_world) key)) in
  let well := active ≠ 0 ∧ ∀ source, source ∈ ["a.txt"] →
    ∃ st, get_status (server ok_world) (StatusKey key source) = Some st ∧ healthy now stale st in
  let summary := (ReadStatusSummary true (λ _, now) "feed" "" ["a.txt"] 0 ok_world).2 in
  (SumStatus summary = "ok" → well)
  ∧ ((∀ n, redis_fault n = None) → is_Some (get_int (server ok_world) (RevisionKey key)) → well →
     SumStatus summary = "ok").
Proof. by apply (status_ok_exact 5000000000 "feed" "" ["a.txt"] 0 ok_world). Defined.
Example status_ok :
  SumStatus (ReadStatusSummary true (λ _, 5000000000%Z) "feed" "" ["a.txt"] 0 ok_world).2 = "ok"
  ∧ SumStatus (ReadStatusSummary true (λ _, 5000000000%Z) "feed" "" ["a.txt"; "b.txt"] 0 ok_world).2
    = "stale".
Proof. split; vm_compute; reflexivity. Qed.
End Examples.
