(* ===== verification/FeedMatch.v ===== *)
(** * Threat-feed matching: [internal/risk/feed.go], [feed_engine.go]

    The verdict of the feed about one name: the exact host first, then, unless a
    trusted suffix bypasses it, the nearest listed parent; roots of shared
    infrastructure are context, not grounds for a block.

    The sorted set each of the at most two lookups reads, or its failure, and the
    clock are inputs ([FeedCall]). *)

From Stdlib Require Import ZArith Lia Ascii String SpecFloat.
From S2P Require Import Prelude GoStr Hostname GoFloat Category Policy EditDist Brand.

(** [internal/whois/lookup.go] *)
Definition secondLevelSuffixes : list string :=
  ["com"; "gov"; "net"; "edu"; "org"; "co"; "ac"; "biz"; "info"; "pro"; "name"; "me"].

(** [ErrDisabled] or another error, or the scores of the whole set. *)
Inductive LookupReply := LookupDisabled | LookupFailed | LookupSet (m : gmap string Z).
Inductive Lookup := LookupErr (disabled : bool) | Matched (candidate : string).

(** The failure counters; the key and the Redis handle are in the replies. *)
Record FeedEngine := mkFeedEngine {
  feedLookupFailures : Z; feedConsecutiveFailures : Z; feedLastFailureUnix : Z
}.
Definition noteFeedLookupErr (now : Z) (e : FeedEngine) : FeedEngine :=
  mkFeedEngine (feedLookupFailures e + 1) (feedConsecutiveFailures e + 1) now.
Definition noteFeedLookupSuccess (e : FeedEngine) : FeedEngine :=
  mkFeedEngine (feedLookupFailures e) 0 (feedLastFailureUnix e).

(** The replies to the exact and to the parent lookup, the clock before each, and
    the clock when a failure is noted. *)
Record FeedCall := mkFeedCall {
  exact_reply : LookupReply; exact_now : Z; parent_reply : LookupReply; parent_now : Z;
  failed_now : Z
}.

Definition point6 : float64 := f_div (f_of_Z 3) (f_of_Z 5).
Definition sharedFeedApexReason : string :=
  "shared infrastructure host in threat feed (contextual, needs corroboration)".
Definition threatFeedHit (domain : string) : Result :=
  mkResult domain VerdictMalicious f_one 100 [threatFeedReason] "".
Definition sharedApexFeedHit (domain : string) : Result :=
  mkResult domain VerdictSuspicious point6 40 [threatFeedReason; sharedFeedApexReason] "".

Definition ThreatFeedCandidates (domain : string) : list string :=
  let parts := Split domain "." in
  filter (λ c, c ≠ "") ((λ i, Join (drop i parts) ".") <$> seq 0 (length parts)).

(** The cut of the loop of [feedMatchDepth]; each removes a byte, so the length is
    enough fuel. *)
Fixpoint match_depth (fuel : nat) (d candidate : string) (depth : Z) : Z :=
  match fuel with
  | 0 => depth
  | S fuel =>
      if String.eqb d candidate then depth
      else match IndexByte d "." with
           | None => depth
           | Some idx => match_depth fuel (slice d (Z.of_nat idx + 1) (Z.of_nat (slen d))) candidate
                           (depth + 1)
           end
  end.
Definition feedMatchDepth (domain candidate : string) : Z :=
  match_depth (S (slen domain)) domain candidate 0.

Fixpoint first_live (now : Z) (m : gmap string Z) (candidates : list string) : string :=
  match candidates with
  | [] => ""
  | c :: candidates =>
      match m !! c with
      | Some score => if (now <=? score)%Z then c else first_live now m candidates
      | None => first_live now m candidates
      end
  end.
Definition matchAnyThreatFeedCandidate (reply : LookupReply) (now : Z) (candidates : list string)
    : Lookup :=
  match reply with
  | LookupDisabled => LookupErr true
  | LookupFailed => LookupErr false
  | LookupSet m => Matched (first_live now m candidates)
  end.

Section FeedMatch.
Context `{UnicodeTables, RuneTables}.

Definition RegisteredDomain (domain : string) : string :=
  let domain := ToLower (TrimSuffix domain ".") in
  let parts := Split domain "." in
  let n := length parts in
  if Nat.ltb n 2 then ""
  else if Nat.leb 3 n && in_list (nth (n - 2) parts "") secondLevelSuffixes
  then Join (drop (n - 3) parts) "." else Join (drop (n - 2) parts) ".".

Definition isSharedFeedApex (host : string) : bool :=
  let h := ToLower (TrimSuffix (TrimSpace host) ".") in
  if String.eqb h "" then false
  else if IsSharedServingHost h then true
  else String.eqb h (RegisteredDomain h) && IsSharedHostingRoot h.

Definition matchExactThreatFeed (reply : LookupReply) (now : Z) (domain : string) : Lookup :=
  match ThreatFeedCandidates domain with
  | [] => Matched ""
  | c :: _ => matchAnyThreatFeedCandidate reply now [c]
  end.
Definition matchParentCandidate (reply : LookupReply) (now : Z) (domain : string) : Lookup :=
  match ThreatFeedCandidates domain with
  | [] | [_] => Matched ""
  | _ :: parents =>
      match filter (λ c, isSharedFeedApex c = false) parents with
      | [] => Matched ""
      | kept => matchAnyThreatFeedCandidate reply now kept
      end
  end.

Definition zero_scope : FeedScope := mkFeedScope false "" 0 false false.
Definition feed_failed (disabled : bool) (c : FeedCall) (e : FeedEngine)
    : FeedEngine * (Result * FeedScope) :=
  (if disabled then e else noteFeedLookupErr (failed_now c) e, (zero_result, zero_scope)).

Definition feedResult (c : FeedCall) (domain : string) (brands : list Brand) (e : FeedEngine)
    : FeedEngine * (Result * FeedScope) :=
  match matchExactThreatFeed (exact_reply c) (exact_now c) domain with
  | LookupErr disabled => feed_failed disabled c e
  | Matched matched =>
      let e := noteFeedLookupSuccess e in
      if negb (String.eqb matched "") then
        if isSharedFeedApex domain
        then (e, (sharedApexFeedHit domain, mkFeedScope true domain 0 false true))
        else (e, (threatFeedHit domain, mkFeedScope true domain 0 false false))
      else if IsTrustedBrandSuffix domain brands || IsTrustedInfraSuffix domain
      then (e, (zero_result, mkFeedScope false "" 0 true false))
      else
        match matchParentCandidate (parent_reply c) (parent_now c) domain with
        | LookupErr disabled => feed_failed disabled c e
        | Matched candidate =>
            let e := noteFeedLookupSuccess e in
            if String.eqb candidate "" then (e, (zero_result, zero_scope))
            else (e, (threatFeedHit domain,
                      mkFeedScope false candidate (feedMatchDepth domain candidate) false false))
        end
  end.
End FeedMatch.
