(* ===== verification/FeedMatchSpec.v ===== *)
(** * Properties of threat-feed matching

    The candidates of a name are the name and its parents, nearest first; the verdict
    of the feed is a function of which of them are live members; a failed lookup
    never blocks; and after a synchronisation the verdict is a function of the feed's
    source. *)

From Stdlib Require Import ZArith Lia Ascii String SpecFloat.
From stdpp Require Import sorting.
From S2P Require Import Prelude GoStr Hostname NetIP GoFloat ClientIP Whitelist Category Policy EditDist Brand Feed FeedSpec FeedSync FeedSyncSpec FeedMatch.

(** ** Candidates *)

(** [c] is a parent namespace of [d]. *)
Definition parent_of (c d : string) : Prop := c ≠ "" ∧ ∃ p, d = p ++ String "." c.
Definition live (now : Z) (m : gmap string Z) (c : string) : Prop := ∃ s, m !! c = Some s ∧ (now <= s)%Z.

Lemma label_suffix_length c d : label_suffix c d → slen c ≤ slen d.
Proof. intros [->|[p ->]]; [done|]. rewrite slen_app. cbn. lia. Qed.
Lemma parent_of_ne c d : parent_of c d → c ≠ d.
Proof. intros [_ [p ->]] E. apply (f_equal slen) in E. rewrite slen_app in E. cbn in E. lia. Qed.
Lemma parent_or_self c d : c ≠ "" → label_suffix c d ↔ c = d ∨ parent_of c d.
Proof.
  intros Hc. split; [intros [->|Hp]; [by left|by right]|intros [->|[_ Hp]]; [by left|by right]].
Qed.

Notation tail_of d i := (Join (drop i (Split d ".")) ".").
Lemma tail_suffix d i j :
  i ≤ j → j < length (Split d ".") → label_suffix (tail_of d j) (tail_of d i).
Proof.
  intros Hij Hj. rewrite <-(take_drop (j - i) (drop i (Split d "."))), drop_drop.
  replace (i + (j - i)) with j by lia. apply Join_app_suffix.
  intros E. apply (f_equal length) in E. rewrite length_drop in E. cbn in E. lia.
Qed.

Lemma tails_sorted d i n :
  i + n = length (Split d ".") →
  StronglySorted (λ x y, label_suffix y x) ((λ i, tail_of d i) <$> seq i n).
Proof.
  revert i. induction n as [|n IH]; intros i Hi; [constructor|]. cbn [seq].
  rewrite fmap_cons. constructor; [apply IH; lia|]. apply Forall_forall. intros y Hy.
  apply list_elem_of_fmap in Hy as (j & -> & Hj%elem_of_seq). apply tail_suffix; lia.
Qed.
Lemma filter_sorted {A} (R : relation A) (P : A → Prop) `{!∀ x, Decision (P x)} (l : list A) :
  StronglySorted R l → StronglySorted R (filter P l).
Proof.
  induction 1 as [|a l _ IH Hf]; [constructor|]. rewrite filter_cons.
  case_decide; [|done]. constructor; [done|]. rewrite Forall_forall in *.
  intros x [_ Hx]%list_elem_of_filter. by apply Hf.
Qed.

Lemma candidates_cons d :
  d ≠ "" → ∃ parents, ThreatFeedCandidates d = d :: parents
    ∧ StronglySorted (λ x y, label_suffix y x) parents ∧ ∀ c, c ∈ parents ↔ parent_of c d.
Proof.
  intros Hd. unfold ThreatFeedCandidates. cbv zeta.
  destruct (length (Split d ".")) as [|n] eqn:Hn; [by rewrite Split_length in Hn|].
  cbn [seq]. rewrite fmap_cons, drop_0, Join_Split, filter_cons_True by done. eexists.
  split; [done|]. split; [by apply filter_sorted, tails_sorted|].
  intros c. rewrite list_elem_of_filter, list_elem_of_fmap. unfold parent_of. f_equiv. split.
  - intros (i & -> & Hi%elem_of_seq). exists (Join (take i (Split d ".")) ".").
    rewrite <-Join_app; [by rewrite take_drop, Join_Split| |]; intros E;
      apply (f_equal length) in E; rewrite ?length_take, ?length_drop in E; cbn in E; lia.
  - intros [p ->]. exists (length (Split p ".")). rewrite Split_app, drop_app_length, Join_Split.
    split; [done|]. apply elem_of_seq. rewrite Split_app, length_app in Hn.
    pose proof (Split_length p "."). rewrite (Split_length c) in Hn. lia.
Qed.

Lemma first_live_none now m cs : "" ∉ cs → first_live now m cs = "" ↔ ∀ c, c ∈ cs → ¬ live now m c.
Proof.
  induction cs as [|c cs IH]; intros Hne; [by split; [intros _ c Hc%elem_of_nil|]|].
  apply not_elem_of_cons in Hne as [Hc Hne]. specialize (IH Hne). cbn [first_live].
  assert (live now m c ↔ ∃ s, m !! c = Some s ∧ (now <=? s)%Z = true) as Hl
    by (unfold live; by setoid_rewrite Z.leb_le).
  setoid_rewrite elem_of_cons. destruct (m !! c) as [s|] eqn:Hm; [destruct (now <=? s)%Z eqn:Hs|].
  - split; [done|]. intros Hno. exfalso. apply (Hno c); [by left|]. apply Hl. eauto.
  - rewrite IH. split; [|auto]. intros Hno c' [->|Hc']; [|auto].
    rewrite Hl. intros (s' & [= <-] & ?). congruence.
  - rewrite IH. split; [|auto]. intros Hno c' [->|Hc']; [|auto].
    rewrite Hl. by intros (s' & ? & ?).
Qed.
Lemma first_live_some now m cs c :
  first_live now m cs = c → c ≠ "" →
  live now m c ∧ ∃ near far, cs = (near ++ c :: far)%list ∧ ∀ c', c' ∈ near → ¬ live now m c'.
Proof.
  intros Hf Hc. induction cs as [|x cs IH]; cbn [first_live] in Hf; [by subst|].
  assert (∀ s, m !! x = Some s → (now <=? s)%Z = true → x = c → live now m c ∧
    ∃ near far, (x :: cs)%list = (near ++ c :: far)%list ∧ ∀ c', c' ∈ near → ¬ live now m c') as Hhit.
  { intros s Hs Hn ->. split; [exists s; split; [done|by apply Z.leb_le]|].
    exists [], cs. split; [done|]. by intros c' ?%elem_of_nil. }
  assert (¬ live now m x → first_live now m cs = c → live now m c ∧
    ∃ near far, (x :: cs)%list = (near ++ c :: far)%list ∧ ∀ c', c' ∈ near → ¬ live now m c') as Hmiss.
  { intros Hx (Hl & near & far & -> & Hn)%IH. split; [done|]. exists (x :: near), far.
    split; [done|]. intros c' [->|?]%elem_of_cons; auto. }
  destruct (m !! x) as [s|] eqn:Hm; [destruct (now <=? s)%Z eqn:Hs|].
  - by eapply Hhit.
  - apply Hmiss; [|done]. intros (s' & ? & ?%Z.leb_le). congruence.
  - apply Hmiss; [|done]. intros (s' & ? & ?). congruence.
Qed.

(** ** Depth *)

Lemma slice_tail a b :
  slice (a ++ String "." b) (Z.of_nat (slen a) + 1) (Z.of_nat (slen (a ++ String "." b))) = b.
Proof.
  unfold slice. rewrite slen_app. cbn [slen].
  replace (Z.to_nat (Z.of_nat (slen a) + 1)) with (slen (a ++ ".")) by (rewrite slen_app; cbn; lia).
  replace (Z.to_nat _) with (slen b) by lia.
  assert (a ++ String "." b = (a ++ ".") ++ b) as -> by by rewrite sapp_assoc.
  apply substring_tail_app.
Qed.
Lemma match_depth_spec fuel d c k :
  label_suffix c d → slen d < fuel →
  match_depth fuel d c k = (k + Z.of_nat (Count d ".") - Z.of_nat (Count c "."))%Z.
Proof.
  revert d k. induction fuel as [|fuel IH]; intros d k Hs Hf; [lia|]. cbn [match_depth].
  destruct (String.eqb_spec d c) as [->|Hne]; [lia|].
  destruct Hs as [->|[p Hp]]; [done|]. destruct (IndexByte d ".") as [idx|] eqn:Hi.
  - apply IndexByte_Some in Hi as (a & r & -> & <- & Ha). rewrite slice_tail, IH.
    + unfold Count. rewrite scount_app. cbn [scount].
      pose proof (Count_zero a "." Ha) as Hz. unfold Count in Hz. rewrite Hz. cbn. lia.
    + assert (label_suffix c (a ++ String "." r)) as Hs by (right; eauto).
      apply (label_suffix_cut a r c Ha) in Hs as [->|Hr]; [by destruct Hne|done].
    + rewrite slen_app in Hf. cbn in Hf. lia.
  - apply IndexByte_None in Hi. rewrite Hp, contains_byte_app, contains_byte_cons in Hi.
    by rewrite orb_true_r in Hi.
Qed.

(** ** The verdict *)

Section Verdict.
Context `{UnicodeTables, RuneTables}.

Definition trusted (d : string) (brands : list Brand) : bool :=
  IsTrustedBrandSuffix d brands || IsTrustedInfraSuffix d.

Lemma match_exact_spec reply now d :
  d ≠ "" → matchExactThreatFeed reply now d =
  match reply with
  | LookupDisabled => LookupErr true
  | LookupFailed => LookupErr false
  | LookupSet m => Matched (first_live now m [d])
  end.
Proof.
  intros Hd. unfold matchExactThreatFeed. destruct (candidates_cons d Hd) as (ps & -> & _).
  by destruct reply.
Qed.
Lemma match_exact_live m now d : d ≠ "" → first_live now m [d] ≠ "" ↔ live now m d.
Proof.
  intros Hd. assert ("" ∉ [d]) as Hne by by intros E%list_elem_of_singleton.
  rewrite first_live_none by done. split.
  - intros Hno. unfold live. destruct (m !! d) as [s|] eqn:Hm.
    + exists s. split; [done|]. apply Znot_gt_le. intros Hs. apply Hno.
      intros c ->%list_elem_of_singleton (s' & Hs' & Hle). by simplify_eq.
    + destruct Hno. intros c ->%list_elem_of_singleton (s & Hs & _). congruence.
  - intros Hl Hno. by apply (Hno d); [left|].
Qed.

(** The nearest live parent that is no shared root. *)
Definition live_parent (now : Z) (m : gmap string Z) (d c : string) : Prop :=
  parent_of c d ∧ isSharedFeedApex c = false ∧ live now m c.
Lemma match_parent_spec m now d :
  d ≠ "" → ∃ c, matchParentCandidate (LookupSet m) now d = Matched c
    ∧ (c = "" → ∀ c', ¬ live_parent now m d c')
    ∧ (c ≠ "" → live_parent now m d c ∧ ∀ c', live_parent now m d c' → label_suffix c' c).
Proof.
  intros Hd. unfold matchParentCandidate. destruct (candidates_cons d Hd) as (ps & -> & Hs & Hps).
  set (kept := filter (λ c, isSharedFeedApex c = false) ps).
  assert (∀ c', c' ∈ kept ↔ parent_of c' d ∧ isSharedFeedApex c' = false) as Hk.
  { intros c'. unfold kept. rewrite list_elem_of_filter, Hps. tauto. }
  assert ("" ∉ kept) as Hne by by intros [[? _] _]%Hk.
  exists (first_live now m kept). split.
  - unfold kept. destruct ps as [|p ps]; [done|]. by destruct (filter _ _).
  - split.
    + intros Hf c' (Hp & Ha & Hl). apply (proj1 (first_live_none now m kept Hne) Hf c'); [|done].
      by apply Hk.
    + intros Hf. destruct (first_live_some now m kept _ eq_refl Hf) as (Hl & near & far & Heq & Hn).
      set (c := first_live now m kept) in *.
      assert (c ∈ kept) as [Hcp Hca]%Hk by (rewrite Heq; set_solver). split; [done|].
      intros c' (Hp & Ha & Hl'). assert (c' ∈ kept) as Hin by by apply Hk.
      rewrite Heq in Hin. apply elem_of_app in Hin as [Hin|[->|Hin]%elem_of_cons]; [by destruct (Hn c')|done|].
      pose proof (filter_sorted _ (λ c, isSharedFeedApex c = false) _ Hs) as Hsk. fold kept in Hsk.
      rewrite Heq in Hsk. apply StronglySorted_app_1_r, StronglySorted_cons in Hsk as [Hsk _].
      rewrite Forall_forall in Hsk. by apply Hsk.
Qed.

(** When both lookups succeed, the feed's verdict on a non-empty name: a live
    exact member is malicious, unless it is a root of shared infrastructure, where it
    is suspicious; otherwise a trusted suffix bypasses the feed; otherwise the nearest
    live parent that is no shared root makes the name malicious, with the number of
    labels between them, and without one the feed says nothing.  Successful lookups
    end a run of failures. *)
Theorem feed_result_exact c d brands e m1 m2 :
  d ≠ "" → exact_reply c = LookupSet m1 → parent_reply c = LookupSet m2 →
  let '(e', (r, scope)) := feedResult c d brands e in
  e' = noteFeedLookupSuccess e
  ∧ (live (exact_now c) m1 d → isSharedFeedApex d = false →
     r = threatFeedHit d ∧ scope = mkFeedScope true d 0 false false)
  ∧ (live (exact_now c) m1 d → isSharedFeedApex d = true →
     r = sharedApexFeedHit d ∧ scope = mkFeedScope true d 0 false true)
  ∧ (¬ live (exact_now c) m1 d → trusted d brands = true →
     r = zero_result ∧ scope = mkFeedScope false "" 0 true false)
  ∧ (¬ live (exact_now c) m1 d → trusted d brands = false →
     ((∀ p, ¬ live_parent (parent_now c) m2 d p) ∧ r = zero_result ∧ scope = zero_scope)
     ∨ ∃ p, live_parent (parent_now c) m2 d p
       ∧ (∀ p', live_parent (parent_now c) m2 d p' → label_suffix p' p)
       ∧ r = threatFeedHit d
       ∧ scope = mkFeedScope false p (Z.of_nat (Count d ".") - Z.of_nat (Count p ".")) false false).
Proof.
  intros Hd H1 H2. unfold feedResult. rewrite match_exact_spec, H1, H2 by done.
  pose proof (match_exact_live m1 (exact_now c) d Hd) as Hex. fold (trusted d brands).
  destruct (String.eqb_spec (first_live (exact_now c) m1 [d]) "") as [Hf|Hf]; cbn [negb].
  2:{ assert (live (exact_now c) m1 d) as Hl by by apply Hex.
      destruct (isSharedFeedApex d); split_and!; done. }
  assert (¬ live (exact_now c) m1 d) as Hnl by (intros Hl; by apply Hex in Hl).
  destruct (trusted d brands); [split_and!; done|].
  destruct (match_parent_spec m2 (parent_now c) d Hd) as (p & -> & Hnone & Hsome).
  destruct (String.eqb_spec p "") as [Hp|Hp].
  - split_and!; try done. intros _ _. left. auto.
  - destruct (Hsome Hp) as [Hlp Hnear]. split_and!; try done. intros _ _. right.
    exists p. split_and!; [done..|]. f_equal. unfold feedMatchDepth. rewrite match_depth_spec; [lia| |lia].
    apply parent_or_self; [done|]. right. apply Hlp.
Qed.

(** A failed lookup never blocks: unless the exact lookup found the name a live
    member of the set it read, or the parent lookup succeeded, the feed says nothing;
    a failure is counted unless Redis is disabled. *)
Theorem feed_fails_open c d brands e :
  d ≠ "" →
  let '(e', (r, scope)) := feedResult c d brands e in
  (∀ m1, exact_reply c = LookupSet m1 → ¬ live (exact_now c) m1 d →
     (∀ m2, parent_reply c ≠ LookupSet m2) → r = zero_result)
  ∧ ((∀ m1, exact_reply c ≠ LookupSet m1) → r = zero_result ∧ scope = zero_scope)
  ∧ (exact_reply c = LookupFailed →
     e' = mkFeedEngine (feedLookupFailures e + 1) (feedConsecutiveFailures e + 1) (failed_now c))
  ∧ (exact_reply c = LookupDisabled → e' = e).
Proof.
  intros Hd. unfold feedResult. rewrite match_exact_spec by done.
  destruct (exact_reply c) as [| |m1].
  - cbn. split_and!; done.
  - cbn. split_and!; done.
  - pose proof (match_exact_live m1 (exact_now c) d Hd) as Hex.
    destruct (String.eqb_spec (first_live (exact_now c) m1 [d]) "") as [Hf|Hf]; cbn [negb].
    + destruct (_ || _); [split_and!; try done; intros Hno; by destruct (Hno m1)|].
      destruct (matchParentCandidate _ _ d) as [dis|p] eqn:Hp; cbn.
      { by split_and!. }
      destruct (String.eqb_spec p "") as [->|Hpe]; [by split_and!|].
      split_and!; try done; [|intros Hno; by destruct (Hno m1)].
      intros _ _ _ Hno. exfalso. revert Hp. unfold matchParentCandidate.
      destruct (parent_reply c) as [| |m2]; [..|by destruct (Hno m2)];
        (destruct (ThreatFeedCandidates d) as [|x [|y ps]]; [by intros [= <-]..|]);
        (destruct (filter _ _); [by intros [= <-]|done]).
    + apply Hex in Hf. destruct (isSharedFeedApex d); split_and!; try done;
        try (by intros Hno; destruct (Hno m1)); by intros m [= <-].
Qed.
End Verdict.

(** ** After a synchronisation *)

Section Synced.
Context `{UnicodeTables, RuneTables, HostServices, FeedLibs}.

(** An ASCII name in its normal form. *)
Definition canonical (d : string) : Prop :=
  d ≠ "" ∧ sforall host_byte d = true ∧ is_lower d = true ∧ HasSuffix d "." = false.

Lemma canonical_parent p d : canonical d → parent_of p d → canonical p.
Proof.
  intros (_ & Hb & Hl & Hd) [Hne [q ->]]. unfold is_lower in Hl.
  rewrite sforall_app in Hb, Hl. cbn [sforall] in Hb, Hl.
  split_and!; [done| | |].
  - by apply andb_true_iff in Hb as [_ [_ ?]%andb_true_iff].
  - by apply andb_true_iff in Hl as [_ [_ ?]%andb_true_iff].
  - apply not_true_is_false. intros [r ->]%HasSuffix_spec. apply not_true_iff_false in Hd.
    apply Hd, HasSuffix_spec. exists (q ++ String "." r). by rewrite sapp_assoc.
Qed.
Lemma canonical_fixed d : canonical d → ToLower (TrimSuffix (TrimSpace d) ".") = d.
Proof.
  intros (_ & Hb & Hl & Hd). assert (is_ascii d = true) as Ha.
  { eapply sforall_impl; [apply host_byte_ascii|exact Hb]. }
  rewrite TrimSpace_id; [|done|eapply sforall_impl; [apply host_byte_not_space|exact Hb]].
  unfold TrimSuffix. rewrite Hd, ToLower_ascii by done. by apply is_lower_fixed.
Qed.
(** What a synchronisation admits is no shared root. *)
Lemma admissible_no_apex d : canonical d → IsAdmissibleDomain d = true → isSharedFeedApex d = false.
Proof.
  intros Hd. unfold IsAdmissibleDomain, isSharedServingRefused, isSharedFeedApex.
  rewrite canonical_fixed by done. cbv zeta. destruct (String.eqb d ""); [done|].
  destruct (isPublicSuffixMember d), (IsSharedServingHost d), (IsSharedHostingRoot d); try done.
  by rewrite andb_false_r.
Qed.

(** [d] is listed by the source and not expired at [t]. *)
Definition listed (o : SyncOptions) (env : SyncEnv) (n : nat) (src : FeedSource) (t : Z) (d : string)
    : Prop :=
  d ∈ feed_domains env n src ∧ IsAdmissibleDomain d = true ∧ (t <= score o env d)%Z.

Lemma live_complete o env src n m t d :
  (cleanup_now env < t)%Z → let g := generation o env (feed_domains env n src) in
  m = g ∨ m = filter (λ x, (cleanup_now env < x.2)%Z) g → live t m d ↔ listed o env n src t d.
Proof.
  intros Ht g Hm. unfold live, listed. split.
  - intros (s & Hs & Hle). assert (g !! d = Some s) as Hg.
    { destruct Hm as [->| ->]; [done|]. by apply map_lookup_filter_Some in Hs as [? _]. }
    apply generation_lookup in Hg as (? & ? & ->). done.
  - intros (Hd & Ha & Hle). exists (score o env d). split; [|done].
    assert (g !! d = Some (score o env d)) as Hg by by apply generation_lookup.
    destruct Hm as [->| ->]; [done|]. apply map_lookup_filter_Some. split; [done|]. cbn. lia.
Qed.

(** C18: while the live key holds the generation a synchronisation completed, the
    feed's verdict on a name is a function of the source alone: malicious exactly
    when the source lists the name, or lists a parent of it and the name is under no
    trusted suffix, with an expiry not yet passed; never suspicious. *)
Theorem synced_verdict o env src m c d brands e t :
  complete o env src m → (cleanup_now env < t)%Z → canonical d →
  exact_reply c = LookupSet m → parent_reply c = LookupSet m → exact_now c = t → parent_now c = t →
  ∃ n, ends n src ∧
    let r := (feedResult c d brands e).2.1 in
    (RVerdict r = VerdictMalicious ↔
     listed o env n src t d
     ∨ (trusted d brands = false ∧ ∃ p, parent_of p d ∧ listed o env n src t p))
    ∧ RVerdict r ≠ VerdictSuspicious.
Proof.
  intros (_ & n & Hn & Hm) Ht Hd Hr1 Hr2 <- Hr4. exists n. split; [done|]. cbv zeta.
  pose proof (λ x, live_complete o env src n m (exact_now c) x Ht Hm) as Hl.
  assert (d ≠ "") as Hne by apply Hd. unfold feedResult.
  rewrite match_exact_spec, Hr1, Hr2, Hr4 by done.
  pose proof (match_exact_live m (exact_now c) d Hne) as Hex. rewrite Hl in Hex.
  fold (trusted d brands).
  destruct (String.eqb_spec (first_live (exact_now c) m [d]) "") as [Hf|Hf]; cbn [negb].
  2:{ apply Hex in Hf. rewrite admissible_no_apex by (done || apply Hf). cbn. split; [|done]. split; [by left|done]. }
  assert (¬ listed o env n src (exact_now c) d) as Hnl by (intros Hli; by apply Hex in Hli).
  destruct (trusted d brands).
  { cbn. split; [|done]. split; [done|]. by intros [?|[? _]]. }
  destruct (match_parent_spec m (exact_now c) d Hne) as (p & -> & Hnone & Hsome).
  assert (∀ p, parent_of p d → listed o env n src (exact_now c) p → live_parent (exact_now c) m d p)
    as Hlp.
  { intros p' Hp' Hli. split_and!; [done| |by apply Hl].
    apply admissible_no_apex; [by eapply canonical_parent|apply Hli]. }
  destruct (String.eqb_spec p "") as [Hp|Hp]; cbn.
  - split; [|done]. split; [done|]. intros [?|(_ & p' & Hp' & Hli)]; [done|].
    by destruct (Hnone Hp p'); auto.
  - destruct (Hsome Hp) as [(Hpo & _ & Hli%Hl) _]. split; [|done]. split; [|done]. eauto 10.
Qed.
End Synced.

Module Examples.
Import FeedSpec.Examples FeedSyncSpec.Examples.
#[local] Existing Instances ex_tables ex_services ex_feed_libs db_server.
#[local] Instance ex_runes : RuneTables := {| rune_lower r := r; rune_space _ := false |}.

Definition ex_set : gmap string Z := {["evil.example" := 50%Z; "github.com" := 50%Z]}.
Definition ex_call (now : Z) : FeedCall := mkFeedCall (LookupSet ex_set) now (LookupSet ex_set) now 0.
Definition ex_engine : FeedEngine := mkFeedEngine 3 2 40.

Lemma feed_result_exact_witness :
  let c := ex_call 10 in let d := "a.b.evil.example" in
  let '(e', (r, scope)) := feedResult c d [] ex_engine in
  e' = noteFeedLookupSuccess ex_engine
  ∧ (live (exact_now c) ex_set d → isSharedFeedApex d = false →
     r = threatFeedHit d ∧ scope = mkFeedScope true d 0 false false)
  ∧ (live (exact_now c) ex_set d → isSharedFeedApex d = true →
     r = sharedApexFeedHit d ∧ scope = mkFeedScope true d 0 false true)
  ∧ (¬ live (exact_now c) ex_set d → trusted d [] = true →
     r = zero_result ∧ scope = mkFeedScope false "" 0 true false)
  ∧ (¬ live (exact_now c) ex_set d → trusted d [] = false →
     ((∀ p, ¬ live_parent (parent_now c) ex_set d p) ∧ r = zero_result ∧ scope = zero_scope)
     ∨ ∃ p, live_parent (parent_now c) ex_set d p
       ∧ (∀ p', live_parent (parent_now c) ex_set d p' → label_suffix p' p)
       ∧ r = threatFeedHit d
       ∧ scope = mkFeedScope false p (Z.of_nat (Count d ".") - Z.of_nat (Count p ".")) false false).
Proof. by apply (feed_result_exact (ex_call 10) "a.b.evil.example" [] ex_engine ex_set ex_set). Defined.
Example parent_hit :
  (feedResult (ex_call 10) "a.b.evil.example" [] ex_engine).2.2 =
  mkFeedScope false "evil.example" 2 false false.
Proof. by vm_compute. Qed.
Example expired : (feedResult (ex_call 51) "evil.example" [] ex_engine).2.1 = zero_result.
Proof. by vm_compute. Qed.
(** A shared root is not blocked, nor what is beneath it. *)
Example shared_root :
  RVerdict (feedResult (ex_call 10) "github.com" [] ex_engine).2.1 = VerdictSuspicious
  ∧ (feedResult (ex_call 10) "user.github.com" [] ex_engine).2.1 = zero_result.
Proof. by vm_compute. Qed.

Lemma feed_fails_open_witness :
  let c := mkFeedCall LookupFailed 10 (LookupSet ex_set) 10 7 in
  let '(e', (r, scope)) := feedResult c "evil.example" [] ex_engine in
  (∀ m1, exact_reply c = LookupSet m1 → ¬ live (exact_now c) m1 "evil.example" →
     (∀ m2, parent_reply c ≠ LookupSet m2) → r = zero_result)
  ∧ ((∀ m1, exact_reply c ≠ LookupSet m1) → r = zero_result ∧ scope = zero_scope)
  ∧ (exact_reply c = LookupFailed →
     e' = mkFeedEngine (feedLookupFailures ex_engine + 1)
            (feedConsecutiveFailures ex_engine + 1) (failed_now c))
  ∧ (exact_reply c = LookupDisabled → e' = ex_engine).
Proof. by apply feed_fails_open. Defined.

Definition synced_set : gmap string Z :=
  zset (server ex_result.1) (Key (with_defaults ex_options)).
Lemma synced_complete : complete (with_defaults ex_options) ex_env text_feed synced_set.
Proof.
  split; [intros E; apply (f_equal size) in E; revert E; by vm_compute|]. exists 0. split; [done|]. left. vm_cast_no_check (eq_refl synced_set).
Qed.
Lemma synced_verdict_witness :
  let o := with_defaults ex_options in
  let c := mkFeedCall (LookupSet synced_set) 9 (LookupSet synced_set) 9 0 in
  ∃ n, ends n text_feed ∧
    let r := (feedResult c "x.cdn.example.net" [] ex_engine).2.1 in
    (RVerdict r = VerdictMalicious ↔
     listed o ex_env n text_feed 9 "x.cdn.example.net"
     ∨ (trusted "x.cdn.example.net" [] = false ∧
        ∃ p, parent_of p "x.cdn.example.net" ∧ listed o ex_env n text_feed 9 p))
    ∧ RVerdict r ≠ VerdictSuspicious.
Proof.
  apply (synced_verdict (with_defaults ex_options) ex_env text_feed synced_set
    (mkFeedCall (LookupSet synced_set) 9 (LookupSet synced_set) 9 0) "x.cdn.example.net" []
    ex_engine 9); [apply synced_complete|done| |done..].
  by split_and!.
Defined.
Example synced_blocks :
  RVerdict (feedResult (mkFeedCall (LookupSet synced_set) 9 (LookupSet synced_set) 9 0)
    "x.cdn.example.net" [] ex_engine).2.1 = VerdictMalicious.
Proof. vm_compute. reflexivity. Qed.
End Examples.
