(* ===== verification/DomainML.v ===== *)
(** * Domain classifier in the pipeline: [internal/risk/ml.go], [ml_canary.go]

    When the model's decision counts, the deterministic cohort of the canary, the
    counters and the latency percentile.  The model itself is the class
    [DomainClassifier]: a prediction that fails or panics is an error. *)

From Stdlib Require Import ZArith Lia Ascii String SpecFloat.
From S2P Require Import Prelude GoStr Hostname NetIP GoFloat Category Feed FeedSync.

Inductive MLMode := MLModeDisabled | MLModeShadow | MLModeEnforce.
#[export] Instance MLMode_eq_dec : EqDecision MLMode.
Proof. solve_decision. Defined.
Definition mode_string (m : MLMode) : string :=
  match m with
  | MLModeDisabled => "disabled" | MLModeShadow => "shadow" | MLModeEnforce => "enforce"
  end.
Definition MLActionAbstain : string := "abstain".
Definition MLActionPromoteMalicious : string := "promote_malicious".
Record MLDecision := mkMLDecision { Probability : float64; Action : string; ModelVersion : string }.

(** [internal/analysis/ml_classifier.go], through [classifyWithRecovery] *)
Class DomainClassifier := {
  classifier_enabled : bool; classifier_revision : string;
  classify : string → result MLDecision
}.

Definition mlClassifierReason : string := "ml_classifier_high_risk".
Definition mlLatencyBuckets : list Z := [100; 250; 500; 1000; 2000; 5000; 10000; 50000]%Z.
Definition probability_buckets : nat := 10.

(** ** Histograms *)

Fixpoint latency_slot (uppers : list Z) (micros : Z) : nat :=
  match uppers with
  | [] => 0
  | upper :: uppers => if (micros <=? upper)%Z then 0 else S (latency_slot uppers micros)
  end.
Definition bump (i : nat) (buckets : list Z) : list Z := alter (Z.add 1) i buckets.
Definition observeLatencyMicros (buckets : list Z) (micros : Z) : list Z :=
  bump (latency_slot mlLatencyBuckets micros) buckets.

Fixpoint p95_loop (uppers buckets : list Z) (cumulative target : Z) : option Z :=
  match uppers, buckets with
  | upper :: uppers, b :: buckets =>
      let cumulative := (cumulative + b)%Z in
      if (target <=? cumulative)%Z then Some upper else p95_loop uppers buckets cumulative target
  | _, _ => None
  end.
Definition latencyP95Micros (buckets : list Z) (total : Z) : Z :=
  if (total <=? 0)%Z then 0%Z
  else default 50000%Z (p95_loop mlLatencyBuckets buckets 0 ((total * 95 + 99) / 100)).

(** [None] is -1 *)
Definition probabilityBucketIndex (probability : float64) : option nat :=
  if negb (f_finite probability) || f_lt probability f_zero || f_lt f_one probability then None
  else
    let index := f_trunc (f_mul probability (f_of_Z 10)) in
    Some (if (Z.of_nat probability_buckets <=? index)%Z then probability_buckets - 1
          else Z.to_nat index).
Definition observeProbabilityMicros (buckets : list Z) (probability : float64) : list Z :=
  match probabilityBucketIndex probability with Some i => bump i buckets | None => buckets end.

(** ** Canary *)

Record MLCanaryConfig := mkCanary { Percent : Z; Seed : string }.
Definition mlCanarySelectorAlgorithm : string := "sha256_normalized_domain_v1".

(** [binary.BigEndian.Uint64] of the first eight bytes *)
Definition uint64_be (s : string) : Z :=
  fold_left (λ acc b, acc * 256 + b)%Z (bytes_of (String.substring 0 8 s)) 0%Z.
Definition newline : string := String (ascii_of_N 10) "".
Definition nul : string := String (ascii_of_N 0) "".
Definition hex_string (s : string) : string :=
  string_of_list_ascii (concat (hex_byte <$> list_ascii_of_string s)).

Section Canary.
Context `{UnicodeTables, HostServices, FeedLibs}.

Definition canary_validate (c : MLCanaryConfig) : option string :=
  if (Percent c <? 0)%Z || (100 <? Percent c)%Z then Some "ML canary percent must be between 0 and 100"
  else
    let seed := TrimSpace (Seed c) in
    if (0 <? Percent c)%Z && String.eqb seed ""
    then Some "ML canary seed is required when percent is greater than zero"
    else if Nat.ltb 128 (slen seed) then Some "ML canary seed must not exceed 128 bytes"
    else None.
Definition canary_enabled (c : MLCanaryConfig) : bool :=
  (0 <? Percent c)%Z && (Percent c <=? 100)%Z && negb (String.eqb (TrimSpace (Seed c)) "").
Definition Eligible (c : MLCanaryConfig) (domain : string) : bool :=
  if negb (canary_enabled c) then false
  else match NormalizeDomain domain with
       | Err _ => false
       | Ok normalized =>
           if (Percent c =? 100)%Z then true
           else (uint64_be (sha256_sum (TrimSpace (Seed c) ++ nul ++ normalized)) mod 10000
                 <? Percent c * 100)%Z
       end.
Definition canary_revision (c : MLCanaryConfig) : string :=
  if negb (canary_enabled c) then ""
  else hex_string (sha256_sum ("algorithm=" ++ mlCanarySelectorAlgorithm ++ newline ++ "percent="
         ++ dec_string (Percent c) ++ newline ++ "seed=" ++ TrimSpace (Seed c) ++ newline)).
End Canary.

(** ** The engine *)

Record mlTelemetry := mkMLTelemetry {
  predictionAttempts : Z; shadowWouldBlock : Z; shadowWouldPass : Z; enforcePromotions : Z;
  abstains : Z; errors : Z; skips : Z; fallbacks : Z; latencyCount : Z; latencyTotalMicros : Z;
  latencyBuckets : list Z; probabilityBuckets : list Z; canarySelected : Z; canaryExcluded : Z;
  canaryWouldBlock : Z; canaryWouldPass : Z; canarySuppressed : Z
}.
(** The counters one prediction adds, besides the histograms. *)
Record ml_counts := mkCounts {
  c_attempt : bool; c_shadow_block : bool; c_shadow_pass : bool; c_promote : bool; c_abstain : bool;
  c_error : bool; c_skip : bool; c_fallback : bool; c_selected : bool; c_excluded : bool;
  c_would_block : bool; c_would_pass : bool; c_suppressed : bool
}.
Definition no_counts : ml_counts :=
  mkCounts false false false false false false false false false false false false false.
Definition b2z (b : bool) : Z := if b then 1%Z else 0%Z.
Definition add_counts (c : ml_counts) (t : mlTelemetry) : mlTelemetry :=
  mkMLTelemetry (predictionAttempts t + b2z (c_attempt c)) (shadowWouldBlock t + b2z (c_shadow_block c))
    (shadowWouldPass t + b2z (c_shadow_pass c)) (enforcePromotions t + b2z (c_promote c))
    (abstains t + b2z (c_abstain c)) (errors t + b2z (c_error c)) (skips t + b2z (c_skip c))
    (fallbacks t + b2z (c_fallback c)) (latencyCount t) (latencyTotalMicros t) (latencyBuckets t)
    (probabilityBuckets t) (canarySelected t + b2z (c_selected c))
    (canaryExcluded t + b2z (c_excluded c)) (canaryWouldBlock t + b2z (c_would_block c))
    (canaryWouldPass t + b2z (c_would_pass c)) (canarySuppressed t + b2z (c_suppressed c)).
Definition observeLatency (micros : Z) (t : mlTelemetry) : mlTelemetry :=
  mkMLTelemetry (predictionAttempts t) (shadowWouldBlock t) (shadowWouldPass t)
    (enforcePromotions t) (abstains t) (errors t) (skips t) (fallbacks t) (latencyCount t + 1)
    (latencyTotalMicros t + micros) (observeLatencyMicros (latencyBuckets t) micros)
    (probabilityBuckets t) (canarySelected t) (canaryExcluded t) (canaryWouldBlock t)
    (canaryWouldPass t) (canarySuppressed t).
Definition observeProbability (p : float64) (t : mlTelemetry) : mlTelemetry :=
  mkMLTelemetry (predictionAttempts t) (shadowWouldBlock t) (shadowWouldPass t)
    (enforcePromotions t) (abstains t) (errors t) (skips t) (fallbacks t) (latencyCount t)
    (latencyTotalMicros t) (latencyBuckets t)
    (observeProbabilityMicros (probabilityBuckets t) p) (canarySelected t) (canaryExcluded t)
    (canaryWouldBlock t) (canaryWouldPass t) (canarySuppressed t).

Definition promoted_score (p : float64) : Z :=
  let score := f_round (f_mul p (f_of_Z 100)) in
  let score := if (score <? 70)%Z then 70%Z else score in
  if (100 <? score)%Z then 100%Z else score.
Definition promote (decision : MLDecision) (current : Result) : Result :=
  mkResult (RDomain current) VerdictMalicious (Probability decision)
    (promoted_score (Probability decision))
    (Reasons current ++ [mlClassifierReason] ++
       if String.eqb (ModelVersion decision) "" then []
       else [("ml_classifier_model_version:" ++ ModelVersion decision)%string])%list
    (if String.eqb (RCategory current) "phishing" || String.eqb (RCategory current) "malware"
     then RCategory current else "malware").

Section Engine.
Context `{UnicodeTables, HostServices, FeedLibs, DomainClassifier}.
(** [mlClassifier] is [None] when it is nil; the mode and the canary are fixed. *)
Context (mode : MLMode) (canary : MLCanaryConfig).

Definition currentMLPolicyRevision : string :=
  if negb classifier_enabled then ""
  else hex_string (sha256_sum ("model=" ++ classifier_revision ++ newline ++ "mode=" ++ mode_string mode
         ++ newline ++ "canary=" ++ canary_revision canary ++ newline)).

(** The decision on a prediction: the result, whether it was promoted, the counters. *)
Definition ml_decide (decision : MLDecision) (current : Result) : Result * bool * ml_counts :=
  let configured := canary_enabled canary in
  let selected := configured && Eligible canary (RDomain current) in
  let excluded := configured && negb selected in
  if String.eqb (Action decision) MLActionPromoteMalicious then
    if bool_decide (mode = MLModeShadow)
    then (current, false,
          mkCounts true true false false false false false false selected excluded selected false false)
    else if negb selected
    then (current, false,
          mkCounts true false false false false false false false selected excluded selected false true)
    else (promote decision current, true,
          mkCounts true false false true false false false false selected excluded selected false false)
  else if String.eqb (Action decision) MLActionAbstain
  then (current, false,
        mkCounts true false (bool_decide (mode = MLModeShadow)) false true false false false selected
          excluded false selected false)
  else (current, false,
        mkCounts true false false false false true false false selected excluded false false false).

Definition skip_counts : ml_counts :=
  mkCounts false false false false false false true false false false false false false.
Definition error_counts : ml_counts :=
  mkCounts true false false false false true false false false false false false false.
(** [micros]: how long the prediction took *)
Definition classifyML (micros : Z) (current : Result) (t : mlTelemetry)
    : mlTelemetry * (Result * bool) :=
  if bool_decide (mode = MLModeDisabled) || negb classifier_enabled
     || negb (bool_decide (RVerdict current = VerdictSuspicious))
  then (add_counts skip_counts t, (current, false))
  else
    match classify (RDomain current) with
    | Err _ => (observeLatency micros (add_counts error_counts t), (current, false))
    | Ok decision =>
        let '(r, promoted, c) := ml_decide decision current in
        (observeProbability (Probability decision) (observeLatency micros (add_counts c t)),
         (r, promoted))
    end.
End Engine.
