(* ===== verification/DomainMLSpec.v ===== *)
(** * Properties of the domain classifier's use

    The model's decision counts only under enforcement, for a suspicious name of the
    canary's cohort, and then makes the name malicious; cohorts are nested; the
    percentile of the latency histogram is the least sufficient boundary. *)

From Stdlib Require Import ZArith Lia Ascii String SpecFloat.
From S2P Require Import Prelude GoStr Hostname NetIP GoFloat Category Feed FeedSync DomainML.

Lemma promoted_score_bounds p : (70 <= promoted_score p <= 100)%Z.
Proof.
  unfold promoted_score. cbv zeta. destruct (Z.ltb_spec (f_round (f_mul p (f_of_Z 100))) 70);
    [done|]. case_match; bool_simpl; lia.
Qed.

Section Classify.
Context `{UnicodeTables, HostServices, FeedLibs, DomainClassifier}.
Context (mode : MLMode) (canary : MLCanaryConfig).

Lemma ml_decide_result decision current r b c :
  ml_decide mode canary decision current = (r, b, c) →
  (r, b) = if String.eqb (Action decision) MLActionPromoteMalicious
              && negb (bool_decide (mode = MLModeShadow))
              && (canary_enabled canary && Eligible canary (RDomain current))
           then (promote decision current, true) else (current, false).
Proof.
  unfold ml_decide. cbv zeta. set (sel := _ && Eligible _ _). clearbody sel.
  destruct (String.eqb _ MLActionPromoteMalicious), (bool_decide _), sel; cbn;
    try (by intros [= <- <- _]); by destruct (String.eqb _ _); intros [= <- <- _].
Qed.

(** When the model's decision counts. *)
Definition promotes (current : Result) (decision : MLDecision) : Prop :=
  mode = MLModeEnforce ∧ classifier_enabled = true ∧ RVerdict current = VerdictSuspicious
  ∧ classify (RDomain current) = Ok decision ∧ Action decision = MLActionPromoteMalicious
  ∧ Eligible canary (RDomain current) = true.

Lemma classifyML_cases micros current t :
  let '(_, (r, promoted)) := classifyML mode canary micros current t in
  (promoted = true ∧ ∃ decision, promotes current decision ∧ r = promote decision current)
  ∨ (promoted = false ∧ r = current ∧ ∀ decision, ¬ promotes current decision).
Proof.
  unfold classifyML, promotes. destruct (_ || _) eqn:Hskip.
  { right. split_and!; [done..|]. intros d (-> & He & Hv & _). rewrite He, Hv in Hskip. done. }
  apply orb_false_iff in Hskip as [[Hm He]%orb_false_iff Hv].
  apply bool_decide_eq_false in Hm. apply negb_false_iff in He, Hv. apply bool_decide_eq_true in Hv.
  destruct (classify (RDomain current)) as [d|e].
  2:{ right. split_and!; [done..|]. by intros d (_ & _ & _ & ? & _). }
  destruct (ml_decide mode canary d current) as [[r b] c] eqn:Hd.
  apply ml_decide_result in Hd.
  assert (canary_enabled canary = false → Eligible canary (RDomain current) = false) as Hen
    by (unfold Eligible; by intros ->).
  destruct (String.eqb_spec (Action d) MLActionPromoteMalicious) as [Ha|Ha];
    [|cbn in Hd; simplify_eq/=; right; split_and!; [done..|]; intros d' (_ & _ & _ & [= <-] & ? & _); done].
  case_bool_decide as Hs; cbn in Hd.
  { simplify_eq/=. right. split_and!; [done..|]. by intros d' (? & _). }
  destruct (Eligible canary (RDomain current)) eqn:Hel.
  - destruct (canary_enabled canary); [|by specialize (Hen eq_refl)]. simplify_eq/=. left.
    split; [done|]. exists d. split_and!; try done. by destruct mode.
  - rewrite andb_false_r in Hd. simplify_eq/=. right. split_and!; [done..|].
    by intros d' (_ & _ & _ & _ & _ & ?).
Qed.
End Classify.

(** The classifier changes a result exactly when it enforces, is enabled, the
    result is suspicious, the prediction succeeded and promotes, and the name is in
    the canary's cohort; the result is then malicious with a score from 70 to 100, the
    same name and the former reasons kept.  In shadow mode and without a canary
    nothing is ever changed. *)
Theorem classify_exact `{UnicodeTables, HostServices, FeedLibs, DomainClassifier}
    mode canary micros current t :
  let '(_, (r, promoted)) := classifyML mode canary micros current t in
  (promoted = true ↔ ∃ decision, promotes mode canary current decision)
  ∧ (promoted = false → r = current)
  ∧ (promoted = true → RVerdict r = VerdictMalicious ∧ (70 <= Score r <= 100)%Z
     ∧ RDomain r = RDomain current ∧ ∃ more, Reasons r = (Reasons current ++ more)%list)
  ∧ (mode = MLModeShadow ∨ canary_enabled canary = false → promoted = false).
Proof.
  pose proof (classifyML_cases mode canary micros current t) as Hc.
  destruct (classifyML _ _ _ _ _) as [t' [r b]].
  destruct Hc as [(-> & d & Hp & ->)|(-> & -> & Hno)].
  - split; [by split; eauto|]. split; [done|]. split.
    + intros _. split; [done|]. split; [apply promoted_score_bounds|]. cbn. eauto.
    + destruct Hp as (Hm & _ & _ & _ & _ & Hel). intros [?|Hce]; [congruence|].
      unfold Eligible in Hel. by rewrite Hce in Hel.
  - split; [split; [done|by intros [d ?%Hno]]|done].
Qed.

(** The cohorts of a canary with one seed grow with the percentage: a name
    selected at some percentage is selected at every larger one, and at a hundred
    percent every name that can be normalised is. *)
Theorem canary_nested `{UnicodeTables, HostServices, FeedLibs} seed p q domain :
  (p <= q <= 100)%Z → Eligible (mkCanary p seed) domain = true →
  Eligible (mkCanary q seed) domain = true
  ∧ Eligible (mkCanary 100 seed) domain = is_ok (NormalizeDomain domain).
Proof.
  intros Hpq. unfold Eligible, canary_enabled. cbn [Percent Seed].
  destruct (Z.ltb_spec 0 p); [|done]. destruct (Z.leb_spec p 100); [|done].
  rewrite (proj2 (Z.ltb_lt 0 q)), (proj2 (Z.leb_le q 100)) by lia.
  destruct (String.eqb (TrimSpace seed) ""); [done|]. cbn.
  destruct (NormalizeDomain domain); [|done]. split; [|done].
  destruct (Z.eqb_spec q 100); [done|]. destruct (Z.eqb_spec p 100); [lia|].
  match goal with H : (?x <? _)%Z = true |- _ => apply Z.ltb_lt in H; apply Z.ltb_lt end. lia.
Qed.

(** ** The percentile *)

(** Samples at or below a boundary, by the slots of the histogram. *)
Definition cumulative (buckets : list Z) (n : nat) : Z := fold_right Z.add 0%Z (take n buckets).

Lemma cumulative_S b bs n : cumulative (b :: bs) (S n) = (b + cumulative bs n)%Z.
Proof. done. Qed.
Lemma cumulative_0 bs : cumulative bs 0 = 0%Z.
Proof. done. Qed.
Lemma p95_loop_spec uppers buckets before target :
  length uppers ≤ length buckets →
  match p95_loop uppers buckets before target with
  | Some u => ∃ i, uppers !! i = Some u ∧ (target <= before + cumulative buckets (S i))%Z
              ∧ ∀ j, j < i → (before + cumulative buckets (S j) < target)%Z
  | None => ∀ j, j < length uppers → (before + cumulative buckets (S j) < target)%Z
  end.
Proof.
  revert buckets before. induction uppers as [|u us IH]; intros [|b bs] before Hl;
    cbn [p95_loop length] in Hl |- *; try (intros j Hj; lia); try lia.
  destruct (Z.leb_spec target (before + b)) as [Ht|Ht].
  - exists 0. rewrite cumulative_S, cumulative_0. split_and!; [done|lia|]. intros j Hj. lia.
  - specialize (IH bs (before + b)%Z ltac:(lia)).
    assert (∀ j, (before + cumulative (b :: bs) (S j) = before + b + cumulative bs j)%Z) as Hc
      by (intros j; rewrite cumulative_S; lia).
    destruct (p95_loop us bs (before + b) target) as [v|].
    + destruct IH as (i & Hi & Hle & Hlt). exists (S i). split_and!; [done|rewrite Hc; done|].
      intros [|j] Hj; rewrite Hc; [rewrite cumulative_0; lia|apply Hlt; lia].
    + intros [|j] Hj; rewrite Hc; [rewrite cumulative_0; lia|apply IH; lia].
Qed.

(** The reported latency percentile is the least boundary of the histogram below
    which at least 95 percent of the samples lie, and the last boundary when the
    samples above it are more than five percent. *)
Theorem latency_p95_least buckets total :
  length buckets = S (length mlLatencyBuckets) → (0 < total)%Z →
  let p95 := latencyP95Micros buckets total in
  (∃ i, mlLatencyBuckets !! i = Some p95
     ∧ (95 * total <= 100 * cumulative buckets (S i))%Z
     ∧ ∀ j, j < i → (100 * cumulative buckets (S j) < 95 * total)%Z)
  ∨ (p95 = 50000%Z ∧ ∀ j, j < length mlLatencyBuckets → (100 * cumulative buckets (S j) < 95 * total)%Z).
Proof.
  intros Hl Ht p95. unfold p95, latencyP95Micros. rewrite (proj2 (Z.leb_gt _ _)) by done.
  pose proof (p95_loop_spec mlLatencyBuckets buckets 0 ((total * 95 + 99) / 100) ltac:(lia)) as Hp.
  assert (∀ x, (total * 95 + 99) / 100 <= x ↔ 95 * total <= 100 * x)%Z as Hx.
  { intros x. pose proof (Z.div_mod (total * 95 + 99) 100 ltac:(lia)).
    pose proof (Z.mod_pos_bound (total * 95 + 99) 100 ltac:(lia)). lia. }
  destruct (p95_loop _ _ _ _) as [u|]; cbn [default].
  - left. destruct Hp as (i & Hi & Hle & Hlt). exists i. split_and!; [done|apply Hx; lia|].
    intros j Hj. specialize (Hlt j Hj). destruct (Z.le_gt_cases (95 * total) (100 * cumulative buckets (S j)))
      as [Hc%Hx|]; lia.
  - right. split; [done|]. intros j Hj. specialize (Hp j Hj).
    destruct (Z.le_gt_cases (95 * total) (100 * cumulative buckets (S j))) as [Hc%Hx|]; lia.
Qed.

Module Examples.
#[local] Instance ex_tables : UnicodeTables := ascii_tables.
#[local] Instance ex_services : HostServices := two_label_services.
#[local] Instance ex_feed_libs : FeedLibs := {|
  parse_url _ := None; sha256_sum s := s; public_suffix s := ""; unicode_fields _ := []
|}.
#[local] Instance ex_classifier : DomainClassifier := {|
  classifier_enabled := true; classifier_revision := "r1";
  classify d := Ok (mkMLDecision (f_div (f_of_Z 9) (f_of_Z 10)) MLActionPromoteMalicious "v1")
|}.
(** The digest starts with the seed, whose bytes decide the bucket. *)
Lemma canary_nested_witness :
  Eligible (mkCanary 90 "seed") "a.example" = true
  ∧ Eligible (mkCanary 100 "seed") "a.example" = is_ok (NormalizeDomain "a.example").
Proof. by apply (canary_nested "seed" 85 90 "a.example"). Defined.
Example not_selected : Eligible (mkCanary 5 "seed") "a.example" = false.
Proof. by vm_compute. Qed.
Example promoted :
  let current := mkResult "a.example" VerdictSuspicious f_zero 45 ["x"] "uncategorized" in
  let t := mkMLTelemetry 0 0 0 0 0 0 0 0 0 0 (replicate 9 0%Z) (replicate 10 0%Z) 0 0 0 0 0 in
  let '(t', (r, b)) := classifyML MLModeEnforce (mkCanary 100 "seed") 300 current t in
  b = true ∧ Score r = 90%Z ∧ RVerdict r = VerdictMalicious
  ∧ latencyBuckets t' = [0; 0; 1; 0; 0; 0; 0; 0; 0]%Z ∧ enforcePromotions t' = 1%Z.
Proof. by vm_compute. Qed.

Lemma latency_p95_least_witness :
  let buckets := [90; 4; 2; 0; 0; 0; 0; 0; 4]%Z in
  let p95 := latencyP95Micros buckets 100 in
  (∃ i, mlLatencyBuckets !! i = Some p95
     ∧ (95 * 100 <= 100 * cumulative buckets (S i))%Z
     ∧ ∀ j, j < i → (100 * cumulative buckets (S j) < 95 * 100)%Z)
  ∨ (p95 = 50000%Z ∧ ∀ j, j < length mlLatencyBuckets → (100 * cumulative buckets (S j) < 95 * 100)%Z).
Proof. by apply latency_p95_least. Defined.
Example p95_500 : latencyP95Micros [90; 4; 2; 0; 0; 0; 0; 0; 4]%Z 100 = 500%Z.
Proof. by vm_compute. Qed.
End Examples.
