(* ===== verification/Enrich.v ===== *)
(** * Enrichment signals: [internal/risk/enrichment.go], [internal/tlsinspect], [internal/whois]

    How the scores of a certificate, of a registration and of a name-server lookup
    change an assessment.  The handshake, the WHOIS query and the lookup are outside:
    a certificate is its names and dates, a registration its age and privacy flag. *)

From Stdlib Require Import ZArith Lia Ascii String SpecFloat.
From S2P Require Import Prelude GoStr Hostname GoFloat Category Policy EditDist Brand Lexical FeedMatch FeedCycle.

(** ** Certificates *)

Record Certificate := mkCert {
  IssuerName : string; SubjectName : string; SubjectCN : string; NotBefore : Z; NotAfter : Z;
  DNSNames : list string
}.
Record TLSResult := mkTLS {
  HasTLS : bool; TLSValid : bool; SelfSigned : bool; Expired : bool; SANMatch : bool;
  CertAgeDays : Z; IsWildcard : bool; TLSScore : Z; AdvisoryScore : Z; TLSReasons : list string
}.

(** [time.Duration.Hours] *)
Definition Hours (d : Z) : float64 :=
  f_add (f_of_Z (Z.quot d 3600000000000)) (f_div (f_of_Z (Z.rem d 3600000000000)) (f_of_Z 3600000000000)).

Definition matchHostname (pattern host : string) : bool :=
  if String.eqb pattern host then true
  else if negb (HasPrefix pattern "*.") then false
  else
    let suffix := slice pattern 1 (Z.of_nat (slen pattern)) in
    HasSuffix host suffix && Nat.eqb (Count host ".") (Count suffix ".").

Section Certificates.
Context `{UnicodeTables}.
Definition certMatchesDomain (cert : Certificate) (domain : string) : bool :=
  let domain := ToLower (TrimSuffix domain ".") in
  existsb (λ san, matchHostname (ToLower san) domain) (DNSNames cert)
  || matchHostname (ToLower (SubjectCN cert)) domain.

(** [now] in nanoseconds *)
Definition scoreResult (now : Z) (domain : string) (cert : Certificate) : TLSResult :=
  let expired := (NotAfter cert <? now)%Z in
  let selfSigned := String.eqb (IssuerName cert) (SubjectName cert) in
  let age := f_trunc (f_div (Hours (since now (NotBefore cert))) (f_of_Z 24)) in
  let fresh := (age <? 7)%Z && negb expired in
  let matched := certMatchesDomain cert domain in
  let score := ((if expired then 20 else 0) + (if selfSigned then 25 else 0)
                + (if fresh then 15 else 0) + (if matched then 0 else 30))%Z in
  mkTLS true (negb expired) selfSigned expired matched age
    (existsb (λ name, HasPrefix name "*.") (DNSNames cert) || HasPrefix (SubjectCN cert) "*.")
    (if (100 <? score)%Z then 100%Z else score)
    ((if fresh then 15 else 0) + (if matched then 0 else 30))
    ((if expired then ["tls: certificate expired"] else [])
     ++ (if selfSigned then ["tls: self-signed certificate"] else [])
     ++ (if fresh then ["tls: certificate issued < 7 days ago"] else [])
     ++ (if matched then [] else ["tls: certificate name does not match domain"]))%list.
End Certificates.
(** The result of an inspection that saw no certificate. *)
Definition no_tls (reasons : list string) : TLSResult :=
  mkTLS false false false false false 0 false 0 0 reasons.

(** ** Registrations *)

Record WhoisResult := mkWhois { WhoisScore : Z; WhoisReasons : list string }.
(** The scores at the end of [parseAndScore]; no creation date is no penalty. *)
Definition whois_score (age_days : option Z) (privacy : bool) : WhoisResult :=
  match age_days with
  | None => mkWhois 0 []
  | Some age =>
      let '(score, reasons) :=
        if (age <? 7)%Z then (25%Z, ["whois: domain registered < 7 days ago"])
        else if (age <? 30)%Z then (15%Z, ["whois: domain registered < 30 days ago"])
        else if (age <? 90)%Z then (5%Z, ["whois: domain registered < 90 days ago"])
        else (0%Z, []) in
      if privacy then mkWhois (score + 5) (reasons ++ ["whois: privacy guard enabled"])%list
      else mkWhois score reasons
  end.

(** ** Name servers *)

Inductive DNSOutcome :=
  DNSOutcomeOK | DNSOutcomeNXDOMAIN | DNSOutcomeNoData | DNSOutcomeTimeout | DNSOutcomeServerFailure
| DNSOutcomeCanceled | DNSOutcomeUnknownError.
#[export] Instance DNSOutcome_eq_dec : EqDecision DNSOutcome.
Proof. solve_decision. Defined.
(** [DNSOutcome.String] *)
Definition outcome_string (o : DNSOutcome) : string :=
  match o with
  | DNSOutcomeNXDOMAIN => "dns: apex has no NS records (authoritative NXDOMAIN)"
  | DNSOutcomeNoData => "dns: apex answered without usable NS records"
  | DNSOutcomeTimeout => "dns: apex NS lookup timed out"
  | DNSOutcomeServerFailure => "dns: apex NS lookup failed (server error)"
  | DNSOutcomeCanceled => "dns: apex NS lookup canceled"
  | DNSOutcomeUnknownError => "dns: apex NS lookup failed"
  | DNSOutcomeOK => "dns: apex NS lookup unavailable"
  end.
(** The kinds of error the lookup distinguishes. *)
Inductive ns_error := NSCanceled | NSDNSError (notFound timeout : bool) | NSOther (timeout : bool).
Definition classifyDNSLookupErr (err : option ns_error) : DNSOutcome :=
  match err with
  | None => DNSOutcomeOK
  | Some NSCanceled => DNSOutcomeCanceled
  | Some (NSDNSError notFound timeout) =>
      if notFound then DNSOutcomeNXDOMAIN
      else if timeout then DNSOutcomeTimeout else DNSOutcomeServerFailure
  | Some (NSOther timeout) => if timeout then DNSOutcomeTimeout else DNSOutcomeUnknownError
  end.

(** ** Signals *)

Record enrichmentSignals := mkSignals { SigDNS : DNSOutcome; SigTLS : TLSResult; SigWHOIS : WhoisResult }.

(** The outcome of the name-server lookup of [defaultEnrichmentLookup]: the number of
    servers or the error. *)
Definition dns_outcome (apex : string) (reply : nat + ns_error) : DNSOutcome :=
  if String.eqb apex "" then DNSOutcomeOK
  else match reply with
       | inr e => classifyDNSLookupErr (Some e)
       | inl n => if Nat.eqb n 0 then DNSOutcomeNoData else DNSOutcomeOK
       end.

Definition shouldEnqueueEnrichment (result : Result) : bool :=
  if String.eqb (RDomain result) "" || (Score result <? 20)%Z || (70 <=? Score result)%Z then false
  else negb (in_list sharedFeedApexReason (Reasons result)).

Definition maxTLSAdvisoryPromotion : Z := 10.
Definition minScoreForFullTLSWeight : Z := 40.

Section Signals.
Context `{UnicodeTables, RuneTables}.
Definition tls_points (score : Z) (domain : string) (tls : TLSResult) : Z :=
  let tlsScore := TLSScore tls in
  let isCDNOrTrustedInfra := IsCDNRoot (RegisteredDomain domain) || IsTrustedInfraSuffix domain in
  if (0 <? AdvisoryScore tls)%Z && ((score <? minScoreForFullTLSWeight)%Z || isCDNOrTrustedInfra)
  then
    let strong := (tlsScore - AdvisoryScore tls)%Z in
    let strong := if (strong <? 0)%Z then 0%Z else strong in
    if (strong + maxTLSAdvisoryPromotion <? tlsScore)%Z
    then (strong + maxTLSAdvisoryPromotion)%Z else tlsScore
  else tlsScore.
Definition applyEnrichmentSignals (result : Result) (signals : enrichmentSignals) : Result :=
  let reasons := if bool_decide (SigDNS signals = DNSOutcomeOK) then Reasons result
                 else (Reasons result ++ [outcome_string (SigDNS signals)])%list in
  let score := (Score result + (tls_points (Score result) (RDomain result) (SigTLS signals)
                                + WhoisScore (SigWHOIS signals)))%Z in
  let score := if (100 <? score)%Z then 100%Z else score in
  mkResult (RDomain result) (verdict_of_score score) (confidence_of score) score
    (reasons ++ TLSReasons (SigTLS signals) ++ WhoisReasons (SigWHOIS signals))%list
    (RCategory result).
End Signals.
