(* ===== verification/EnrichSpec.v ===== *)
(** * Properties of enrichment

    Enrichment only raises a score, by what certificate and registration are worth:
    name-server outcomes are worth nothing, and weak certificate metadata at most ten
    points on a name that is not already suspicious. *)

From Stdlib Require Import ZArith Lia Ascii String SpecFloat.
From S2P Require Import Prelude GoStr Hostname GoFloat Category Policy EditDist Brand Lexical LexicalSpec FeedMatch FeedCycle Enrich.

(** A result whose verdict is the one of its score. *)
Definition agrees (r : Result) : Prop :=
  (0 <= Score r <= 100)%Z ∧ RVerdict r = verdict_of_score (Score r).

Lemma verdict_malicious s : verdict_of_score s = VerdictMalicious ↔ (70 <= s)%Z.
Proof.
  unfold verdict_of_score. destruct (Z.leb_spec 70 s); [done|].
  split; [by case_match|lia].
Qed.
Lemma verdict_suspicious s : verdict_of_score s = VerdictSuspicious ↔ (40 <= s < 70)%Z.
Proof.
  unfold verdict_of_score. destruct (Z.leb_spec 70 s); [split; [done|lia]|].
  destruct (Z.leb_spec 40 s); split; (done || lia).
Qed.
(** Verdicts by severity. *)
Definition severity (v : Verdict) : Z :=
  match v with
  | VerdictInvalid => -1 | VerdictSafe => 0 | VerdictSuspicious => 1 | VerdictMalicious => 2
  end.
Lemma severity_mono a b : (a <= b)%Z → (severity (verdict_of_score a) <= severity (verdict_of_score b))%Z.
Proof.
  intros Hab. unfold verdict_of_score.
  destruct (Z.leb_spec 70 a), (Z.leb_spec 70 b), (Z.leb_spec 40 a), (Z.leb_spec 40 b); cbn; lia.
Qed.

Section Signals.
Context `{UnicodeTables, RuneTables}.

Definition signals_ok (s : enrichmentSignals) : Prop :=
  (0 <= TLSScore (SigTLS s))%Z ∧ (0 <= WhoisScore (SigWHOIS s))%Z.

Lemma tls_points_bounds score domain tls :
  (0 <= TLSScore tls)%Z → (0 <= tls_points score domain tls <= TLSScore tls)%Z.
Proof.
  intros H0'. unfold tls_points, maxTLSAdvisoryPromotion. cbv zeta.
  destruct (_ && _) eqn:Hg; [|lia]. apply andb_true_iff in Hg as [Ha%Z.ltb_lt _].
  destruct (Z.ltb_spec (TLSScore tls - AdvisoryScore tls) 0); case_match; bool_simpl; lia.
Qed.

Lemma apply_signals_agrees r s :
  agrees r → signals_ok s →
  agrees (applyEnrichmentSignals r s) ∧ (Score r <= Score (applyEnrichmentSignals r s))%Z.
Proof.
  intros [Hr _] [Ht Hw]. unfold agrees, applyEnrichmentSignals. cbn.
  pose proof (tls_points_bounds (Score r) (RDomain r) (SigTLS s) Ht) as Hp.
  destruct (Z.ltb_spec 100 (Score r + (tls_points (Score r) (RDomain r) (SigTLS s)
    + WhoisScore (SigWHOIS s)))); split_and!; done || lia.
Qed.

(** Enrichment never lowers a score or a verdict, keeps the verdict the one of
    the score, does not depend on the outcome of the name-server lookup but for the
    note it appends, and adds to a name below 40 points, or on a content network, at
    most ten points for a certificate that is neither expired nor self-signed: such
    a certificate alone never makes a name that was not suspicious malicious. *)
Theorem enrichment_bounded r s now name cert other :
  agrees r → signals_ok s → SigTLS s = scoreResult now name cert →
  let r' := applyEnrichmentSignals r s in
  agrees r' ∧ (Score r <= Score r')%Z ∧ (severity (RVerdict r) <= severity (RVerdict r'))%Z
  ∧ Score (applyEnrichmentSignals r (mkSignals other (SigTLS s) (SigWHOIS s))) = Score r'
  ∧ (Expired (SigTLS s) = false → SelfSigned (SigTLS s) = false → (Score r < 40)%Z →
     (Score r' <= Score r + 10 + WhoisScore (SigWHOIS s))%Z
     ∧ (WhoisScore (SigWHOIS s) = 0%Z → RVerdict r' ≠ VerdictMalicious)).
Proof.
  intros Ha Hs Htls r'. destruct (apply_signals_agrees r s Ha Hs) as [Ha' Hle]. fold r' in Ha', Hle.
  split_and!; [done..| |done|].
  { destruct Ha as [_ ->], Ha' as [_ ->]. by apply severity_mono. }
  intros Hex Hss Hlt.
  assert (Score r' <= Score r + 10 + WhoisScore (SigWHOIS s))%Z as Hb.
  { unfold r', applyEnrichmentSignals. cbn.
    assert (tls_points (Score r) (RDomain r) (SigTLS s) <= 10)%Z as Hp.
    { unfold tls_points, maxTLSAdvisoryPromotion, minScoreForFullTLSWeight.
      rewrite (proj2 (Z.ltb_lt (Score r) 40)) by done. cbn [orb]. rewrite andb_true_r.
      rewrite Htls in Hex, Hss |- *. unfold scoreResult in *. cbn in *. rewrite Hex, Hss. cbn.
      destruct ((_ <? 7)%Z && true), (certMatchesDomain cert name); by cbn. }
    destruct Hs as [_ Hw]. case_match; bool_simpl; lia. }
  split; [done|]. intros Hw. destruct Ha' as [_ ->]. rewrite verdict_malicious. lia.
Qed.
End Signals.

Module Examples.
#[local] Instance ex_tables : UnicodeTables := ascii_tables.
#[local] Instance ex_runes : RuneTables := {| rune_lower r := r; rune_space _ := false |}.
Definition ex_result : Result :=
  mkResult "shop.example.com" VerdictSafe (confidence_of 30) 30 ["x"] "uncategorized".
(** Issued a day ago for another name. *)
Definition ex_cert : Certificate :=
  mkCert "CN=ca" "CN=edge" "edge.cdn.example" 0 (365 * 86400000000000) ["*.cdn.example"].
Definition ex_signals : enrichmentSignals :=
  mkSignals DNSOutcomeTimeout (scoreResult 86400000000000 "shop.example.com" ex_cert)
    (whois_score (Some 20%Z) true).
Lemma enrichment_bounded_witness :
  let r' := applyEnrichmentSignals ex_result ex_signals in
  agrees r' ∧ (Score ex_result <= Score r')%Z
  ∧ (severity (RVerdict ex_result) <= severity (RVerdict r'))%Z
  ∧ Score (applyEnrichmentSignals ex_result
      (mkSignals DNSOutcomeOK (SigTLS ex_signals) (SigWHOIS ex_signals))) = Score r'
  ∧ (Expired (SigTLS ex_signals) = false → SelfSigned (SigTLS ex_signals) = false →
     (Score ex_result < 40)%Z →
     (Score r' <= Score ex_result + 10 + WhoisScore (SigWHOIS ex_signals))%Z
     ∧ (WhoisScore (SigWHOIS ex_signals) = 0%Z → RVerdict r' ≠ VerdictMalicious)).
Proof.
  apply (enrichment_bounded ex_result ex_signals 86400000000000 "shop.example.com" ex_cert DNSOutcomeOK).
  - split; [cbn; lia|vm_compute; reflexivity].
  - split; vm_compute; discriminate.
  - reflexivity.
Defined.
(** 30, ten of the 45 points of the certificate, 20 of the registration. *)
Example enriched :
  (TLSScore (SigTLS ex_signals), Score (applyEnrichmentSignals ex_result ex_signals)) = (45, 60)%Z.
Proof. by vm_compute. Qed.
End Examples.
