(* ===== verification/Assess.v ===== *)
(** * Threat assessment: [internal/risk/analysis_pipeline.go], [osint_ai.go], [enrichment.go]

    [Service.analyze]: the result cache with its epoch of revisions, the threat feed,
    the lexical analyser, the classifier, the AI and OSINT refinements, the cache
    write and the hand-over to background enrichment; and the enrichment worker.

    Between any two commands other processes may change Redis and other goroutines
    may reload the configuration: [interfere] and the [_at] functions of [AssessEnv]
    are indexed by the moment, which every command and every look at shared local
    state advances.  AI client, OSINT lookups and enrichment lookups are functions of
    the moment too.  Layer timings and logs are left out. *)

From Stdlib Require Import ZArith Lia Ascii String SpecFloat.
From S2P Require Import Prelude GoStr Hostname GoFloat Category Policy EditDist Brand Lexical Feed FeedSync FeedMatch FeedCycle DomainML Enrich.

Definition LayerResultCache : string := "result_cache".
Definition SkipAsync : string := "async_background".
Definition SkipOutOfRange : string := "score_out_of_range".
Definition SkipCacheOnly : string := "cache_only".
Definition brandRevisionKey : string := "safe-zone:analysis:trusted-brands:revision".
Definition analysisAlgorithmRevision : string := "2026-10-tr39-skeleton-v1".
Definition negativeCacheTTL : Z := 2 * 60 * 1000000000.
Definition ErrDisabled : string := "redis cache disabled".

(** ** Cache entries *)

Record analysisCacheEntry := mkCacheEntry {
  EntryResult : Result; FeedRevisionOf : string; BrandRevisionOf : string;
  AnalysisRevisionOf : string; ConfigRevisionOf : string; ModelRevisionOf : string;
  OSINTCheckedAt : string; EnrichedAt : string; AssessedAt : string
}.
Record enrichmentJob := mkJob {
  JobDomain : string; JobResult : Result; JobFeedRevision : string; JobBrandRevision : string;
  JobConfigRevision : string; JobModelRevision : string; QueuedAt : string
}.
Record cacheEpoch := mkEpoch {
  EpochAnalysis : string; EpochConfig : string; EpochModel : string; EpochFeed : string;
  FeedKnown : bool; EpochBrand : string; BrandKnown : bool
}.

Definition entryMatchesRevision (entry : analysisCacheEntry) (current : cacheEpoch) : bool :=
  if String.eqb (RDomain (EntryResult entry)) "" then false
  else if negb (String.eqb (AnalysisRevisionOf entry) (EpochAnalysis current))
          || negb (String.eqb (ConfigRevisionOf entry) (EpochConfig current))
          || negb (String.eqb (ModelRevisionOf entry) (EpochModel current)) then false
  else if negb (FeedKnown current) || negb (BrandKnown current) then false
  else String.eqb (FeedRevisionOf entry) (EpochFeed current)
       && String.eqb (BrandRevisionOf entry) (EpochBrand current).

(** Times are nanoseconds since 1970; the zero [time.Time] is before every one of
    them, and is [None]. *)
Definition time_after (a b : option Z) : bool :=
  match a, b with
  | Some a, Some b => (b <? a)%Z
  | Some _, None => true
  | None, _ => false
  end.
Definition newer_mark `{TimeLib} (newest : option Z) (raw : string) : option Z :=
  if String.eqb raw "" then newest
  else match parse_rfc3339 raw with
       | Some ts => if time_after (Some ts) newest then Some ts else newest
       | None => newest
       end.
Definition entryAssessedAt `{TimeLib} (entry : analysisCacheEntry) : option Z :=
  foldl newer_mark None [AssessedAt entry; EnrichedAt entry; OSINTCheckedAt entry].
Definition jobQueuedAt `{TimeLib} (raw : string) : option Z := parse_rfc3339 raw.

Definition analysisCacheKey (domain modelRevision : string) : string :=
  let base := "safe-zone:analysis:" ++ domain in
  if String.eqb modelRevision "" then base else base ++ ":model:" ++ modelRevision.

Definition cachedEntryNeedsEnrichment (entry : analysisCacheEntry) : bool :=
  String.eqb (EnrichedAt entry) "".

(** ** OSINT *)

Record OSINTEvidence := mkEvidence {
  EvDomain : string; SourceURL : string; SourceTitle : string; SourceType : string;
  EvConfidence : float64; MatchedTerms : list string; RetrievedAt : string
}.
Record OSINTReport := mkOSINT {
  ReportDomain : string; CheckedAt : string; ShouldBlock : bool; ReportEvidence : list OSINTEvidence
}.
Definition no_report : OSINTReport := mkOSINT "" "" false [].
Definition sensitiveDomainTerms : list string := [
  "dichvucong"; "congdichvu"; "nganhang"; "bank"; "thuethunhap"; "thue"; "baohiem"; "bhxh";
  "congan"; "police"; "dvc"; "vneid"; "govvn"].
Definition isGovVN (domain : string) : bool := at_or_beneath "gov.vn" domain.
Definition strongEvidence : float64 := f_div (f_of_Z 85) (f_of_Z 100).
Definition HasStrongWarning (evidence : list OSINTEvidence) : bool :=
  existsb (λ item, negb (f_lt (EvConfidence item) strongEvidence)
    && in_list (SourceType item)
         ["official_warning"; "trusted_news_warning"; "safe_browsing_match"]) evidence.
Definition public_warning : string :=
  "public warning evidence: official/trusted source reports phishing".
Definition point92 : float64 := f_div (f_of_Z 92) (f_of_Z 100).
(** [osint.Service.Apply] *)
Definition Apply (result : Result) (report : OSINTReport) : Result :=
  if negb (ShouldBlock report) then result
  else mkResult (RDomain result) VerdictMalicious
         (if f_lt (Confidence result) point92 then point92 else Confidence result)
         (if (Score result <? 90)%Z then 90%Z else Score result)
         (if existsb (λ r, Contains r "public warning evidence") (Reasons result) then Reasons result
          else (Reasons result ++ [public_warning])%list) "phishing".
Definition ShouldLookup `{UnicodeTables, HostServices} (domain : string) (result : Result) : bool :=
  match NormalizeDomain domain with
  | Err _ => false
  | Ok normalized =>
      if isGovVN normalized then false
      else existsb (Contains normalized) sensitiveDomainTerms
           || bool_decide (RVerdict result = VerdictSuspicious) || (35 <=? Score result)%Z
  end.

(** ** AI *)

(** What [refineWithAI] makes of the client's reply; [None] is no enabled client. *)
Definition refineWithAI (reply : option (result Result)) (current : Result) : Result :=
  if negb (bool_decide (RVerdict current = VerdictSuspicious)) then current
  else match reply with
  | None | Some (Err _) => current
  | Some (Ok ai) =>
      if bool_decide (RVerdict ai = VerdictMalicious)
      then mkResult (RDomain current) VerdictMalicious
             (if f_lt (Confidence current) (Confidence ai) then Confidence ai else Confidence current)
             (if (Score current <? Score ai)%Z then Score ai else Score current)
             (Reasons current ++ Reasons ai)%list (RCategory current)
      else mkResult (RDomain current) (RVerdict current) (Confidence current) (Score current)
             (Reasons current ++ Reasons ai)%list (RCategory current)
  end.

(** ** Redis and the environment *)

Class AnalysisCache (R : Type) := {
  (** [GetString]: a missing key is the empty string *)
  get_string : R → string → string;
  (** [GetJSON]; [Err] is a document that does not decode *)
  get_entry : R → string → result (option analysisCacheEntry);
  (** the second, unused, decoding of the same document *)
  get_legacy : R → string → result bool;
  set_entry : R → string → analysisCacheEntry → Z → R
}.
Class AssessEnv (R : Type) := {
  interfere : nat → R → R;
  config_revision_at : nat → string;
  lexical_at : nat → string → Result;
  brands_at : nat → list Brand;
  unix_at : nat → Z;
  stamp_at : nat → string;
  micros_at : nat → Z;
  ai_at : nat → Result → option (result Result);
  osint_cached_at : nat → string → option OSINTReport;
  osint_lookup_at : nat → string → bool → OSINTReport;
  signals_at : nat → string → enrichmentSignals;
  (** the hand-over of a job saw the request's context done *)
  done_at : nat → bool;
  (** the transaction was discarded because the key changed after it was read; what
      others do to other keys meanwhile is part of the next [interfere] *)
  watch_conflict : nat → bool
}.
Record AssessConfig := mkAssessConfig {
  redis_enabled : bool; threatFeedKey : string; feedRevisionKey : string; mlMode : MLMode;
  mlCanary : MLCanaryConfig; ttlBlocked : Z; ttlSuspicious : Z; ttlAllowed : Z;
  osint_enabled : bool; enrich_enabled : bool; queue_capacity : nat
}.
(** [enrichInFlight], [enrichQueue] and the evidence handed to the store. *)
Record Assessor (R : Type) := mkAssessor {
  world : World R; feedEngine : FeedEngine; mlTel : mlTelemetry; inFlight : gset string;
  enrichQueue : list enrichmentJob; evidence_log : list (string * list OSINTEvidence)
}.
Arguments mkAssessor {R} _ _ _ _ _ _.
Arguments world {R} _.
Arguments feedEngine {R} _.
Arguments mlTel {R} _.
Arguments inFlight {R} _.
Arguments enrichQueue {R} _.
Arguments evidence_log {R} _.

Section Assess.
Context {R : Type} `{UnicodeTables, HostServices, RuneTables, FeedLibs, TimeLib, DomainClassifier,
  RedisServer R, RedisIO, AnalysisCache R, AssessEnv R}.
Context (cfg : AssessConfig).

Definition set_world (w : World R) (s : Assessor R) : Assessor R :=
  mkAssessor w (feedEngine s) (mlTel s) (inFlight s) (enrichQueue s) (evidence_log s).

(** A look at shared local state. *)
Definition look {A} (f : nat → A) (w : World R) : World R * A :=
  (mkWorld (server w) (S (tick w)) (visited w), f (tick w)).
(** A command, after whatever others did to the server. *)
Definition racing {A} (f : R → R * A) (w : World R) : World R * result A :=
  if negb (redis_enabled cfg) then (w, Err ErrDisabled)
  else command f (mkWorld (interfere (tick w) (server w)) (tick w) (visited w)).
Definition GetString (key : string) : World R → World R * result string :=
  racing (λ r, (r, get_string r key)).
Definition GetEntry (key : string) (w : World R) : World R * result (option analysisCacheEntry) :=
  let '(w, res) := racing (λ r, (r, get_entry r key)) w in
  (w, match res with Err e => Err e | Ok (Err e) => Err e | Ok (Ok e) => Ok e end).
Definition GetLegacy (key : string) (w : World R) : World R * result bool :=
  let '(w, res) := racing (λ r, (r, get_legacy r key)) w in
  (w, match res with Err e => Err e | Ok (Err e) => Err e | Ok (Ok b) => Ok b end).
Definition SetEntry (key : string) (entry : analysisCacheEntry) (ttl : Z)
    : World R → World R * result unit := racing (λ r, (set_entry r key entry ttl, tt)).
Definition ReadSet (w : World R) : World R * LookupReply :=
  let '(w, res) := racing (λ r, (r, zset r (threatFeedKey cfg))) w in
  (w, match res with
      | Ok m => LookupSet m
      | Err _ => if redis_enabled cfg then LookupFailed else LookupDisabled
      end).

Definition revision_read (res : result string) : string * bool :=
  match res with Ok v => (v, true) | Err _ => ("", false) end.
Definition currentFeedRevision (w : World R) : World R * (string * bool) :=
  if String.eqb (feedRevisionKey cfg) "" then (w, ("", true))
  else let '(w, res) := GetString (feedRevisionKey cfg) w in (w, revision_read res).
Definition currentBrandRevision (w : World R) : World R * (string * bool) :=
  let '(w, res) := GetString brandRevisionKey w in (w, revision_read res).

Definition ttlFor (verdict : Verdict) : Z :=
  match verdict with
  | VerdictMalicious => ttlBlocked cfg | VerdictSuspicious => ttlSuspicious cfg | _ => ttlAllowed cfg
  end.
Definition modelRevision : string := currentMLPolicyRevision (mlMode cfg) (mlCanary cfg).

(** ** Enrichment hand-over *)

Definition enqueueEnrichment (job : enrichmentJob) (s : Assessor R) : Assessor R :=
  if negb (enrich_enabled cfg) then s
  else if bool_decide (JobDomain job ∈ inFlight s) then s
  else if Nat.ltb (length (enrichQueue s)) (queue_capacity cfg) && negb (done_at (tick (world s)))
  then mkAssessor (world s) (feedEngine s) (mlTel s) ({[JobDomain job]} ∪ inFlight s)
         (enrichQueue s ++ [job])%list (evidence_log s)
  else s.

(** ** OSINT in the pipeline *)

Definition lookupOSINT (domain : string) (result : Result) (mode : osintLookupMode) (force : bool)
    (s : Assessor R) : Assessor R * OSINTReport :=
  if negb (osint_enabled cfg) || negb force && negb (ShouldLookup domain result) then (s, no_report)
  else match mode with
  | osintLookupNone => (s, no_report)
  | osintLookupCachedOnly =>
      let '(w, report) := look (λ n, osint_cached_at n domain) (world s) in
      (set_world w s, default no_report report)
  | osintLookupOnDemand =>
      let '(w, report) := look (λ n, osint_lookup_at n domain force) (world s) in
      (mkAssessor w (feedEngine s) (mlTel s) (inFlight s) (enrichQueue s)
         (match ReportEvidence report with
          | [] => evidence_log s
          | items => (evidence_log s ++ [(ReportDomain report, items)])%list
          end), report)
  end.
Definition applyOSINT (domain : string) (result : Result) (report : OSINTReport)
    (feedRevision : string) (w : World R) : World R * Result :=
  if negb (osint_enabled cfg) || negb (ShouldBlock report) then (w, result)
  else
    let updated := Apply result report in
    if bool_decide (RVerdict updated = RVerdict result) && (Score updated =? Score result)%Z
    then (w, updated)
    else
      let '(w, (brandRevision, _)) := currentBrandRevision w in
      let '(w, configRevision) := look config_revision_at w in
      let '(w, stamp) := look stamp_at w in
      ((SetEntry (analysisCacheKey domain modelRevision)
          (mkCacheEntry updated feedRevision brandRevision analysisAlgorithmRevision configRevision
             modelRevision (CheckedAt report) "" stamp) (ttlFor (RVerdict updated)) w).1, updated).

(** ** The analysis *)

(** The cached entry that matches the epoch, if it can be read. *)
Definition read_cache (key : string) (epoch : cacheEpoch) (w : World R)
    : World R * option analysisCacheEntry :=
  if negb (redis_enabled cfg) then (w, None)
  else
    let '(w, res) := GetEntry key w in
    match res with
    | Ok (Some entry) =>
        if entryMatchesRevision entry epoch then (w, Some entry) else ((GetLegacy key w).1, None)
    | _ => ((GetLegacy key w).1, None)
    end.

Definition osint_note (mode : osintLookupMode) : Assessment → Assessment :=
  match mode with
  | osintLookupOnDemand => note [LayerOSINT] []
  | _ => note [] [skippedLayer LayerOSINT SkipCacheOnly]
  end.
Definition job_of (domain : string) (result : Result) (feedRev brandRev configRev modelRev stamp : string)
    : enrichmentJob := mkJob domain result feedRev brandRev configRev modelRev stamp.

Definition assess_cached (normalized : string) (entry : analysisCacheEntry) (feedRev : string)
    (mode : osintLookupMode) (force : bool) (s : Assessor R)
    : Assessor R * (Result * bool * list OSINTEvidence * Assessment) :=
  let assess := osint_note mode (note [LayerResultCache]
    [LayerThreatFeed; LayerLexical; LayerDomainML; LayerAIRefine] newDomainAssessment) in
  let '(s, report) := lookupOSINT normalized (EntryResult entry) mode force s in
  let '(w, updated) := applyOSINT normalized (EntryResult entry) report feedRev (world s) in
  let s := set_world w s in
  let s :=
    if shouldEnqueueEnrichment updated && cachedEntryNeedsEnrichment entry
    then let '(w, stamp) := look stamp_at (world s) in
         enqueueEnrichment (job_of normalized updated (FeedRevisionOf entry) (BrandRevisionOf entry)
           (ConfigRevisionOf entry) (ModelRevisionOf entry) stamp) (set_world w s)
    else s in
  (s, (updated, true, ReportEvidence report, assess)).

(** Threat feed, else the lexical analyser. *)
Definition assess_evidence (normalized : string) (s : Assessor R) : Assessor R * (Result * Assessment) :=
  let assess := note [LayerThreatFeed] [] newDomainAssessment in
  let '(w, brands) := look brands_at (world s) in
  let '(w, exact_now) := look unix_at w in
  let '(w, exact) := ReadSet w in
  let '(w, parent_now) := look unix_at w in
  let '(w, parents) := ReadSet w in
  let '(w, failed_now) := look unix_at w in
  let '(fe, (result, scope)) :=
    feedResult (mkFeedCall exact exact_now parents parent_now failed_now) normalized brands
      (feedEngine s) in
  let s := mkAssessor w fe (mlTel s) (inFlight s) (enrichQueue s) (evidence_log s) in
  let hit := negb (String.eqb (RDomain result) "") in
  let assess := if hit || TrustBypassed scope
                then mkAssess (Coverage assess) (Evaluated assess) (SkippedLayers assess) (Some scope)
                else assess in
  if hit then (s, (result, note [] [LayerLexical] assess))
  else
    let '(w, result) := look (λ n, lexical_at n normalized) (world s) in
    (set_world w s, (result, note [LayerLexical] [] assess)).

(** Classifier and AI; the flag says whether the AI contributed. *)
Definition assess_refine (result : Result) (assess : Assessment) (s : Assessor R)
    : Assessor R * (Result * Assessment * bool) :=
  if negb (bool_decide (RVerdict result = VerdictSuspicious))
  then (s, (result, note [] [LayerDomainML; LayerAIRefine] assess, false))
  else
    let '(w, micros) := look micros_at (world s) in
    let '(tel, (result, promoted)) :=
      classifyML (mlMode cfg) (mlCanary cfg) micros result (mlTel s) in
    let with_tel tel w :=
      mkAssessor w (feedEngine s) tel (inFlight s) (enrichQueue s) (evidence_log s) in
    if promoted then (with_tel tel w, (result, note [LayerDomainML] [] assess, false))
    else
      let '(w, reply) := look (λ n, ai_at n result) w in
      let refined := refineWithAI reply result in
      let contributed := negb (bool_decide (RVerdict refined = RVerdict result))
                         || Nat.ltb (length (Reasons result)) (length (Reasons refined)) in
      let tel := if negb (bool_decide (mlMode cfg = MLModeDisabled)) && classifier_enabled
                 then add_counts (mkCounts false false false false false false false true false false
                        false false false) tel else tel in
      (with_tel tel w, (refined, note [LayerDomainML; LayerAIRefine] [] assess, contributed)).

Definition assess_fresh (normalized : string) (epoch : cacheEpoch) (mode : osintLookupMode)
    (force : bool) (s : Assessor R)
    : Assessor R * (Result * bool * list OSINTEvidence * Assessment) :=
  let '(s, (result, assess)) := assess_evidence normalized s in
  let '(s, (result, assess, contributed)) := assess_refine result assess s in
  let assess := osint_note mode assess in
  let '(s, report) := lookupOSINT normalized result mode force s in
  let '(w, result) := applyOSINT normalized result report (EpochFeed epoch) (world s) in
  let ttl := if negb contributed && bool_decide (RVerdict result = VerdictSuspicious)
             then negativeCacheTTL else ttlFor (RVerdict result) in
  let w := (SetEntry (analysisCacheKey normalized (EpochModel epoch))
              (mkCacheEntry result (EpochFeed epoch) (EpochBrand epoch) analysisAlgorithmRevision
                 (EpochConfig epoch) (EpochModel epoch) "" "" "") ttl w).1 in
  let s := set_world w s in
  if shouldEnqueueEnrichment result
  then
    let '(w, stamp) := look stamp_at (world s) in
    (enqueueEnrichment (job_of normalized result (EpochFeed epoch) (EpochBrand epoch)
       (EpochConfig epoch) (EpochModel epoch) stamp) (set_world w s),
     (result, false, ReportEvidence report, note [] [skippedLayer LayerEnrichment SkipAsync] assess))
  else (s, (result, false, ReportEvidence report,
            note [] [skippedLayer LayerEnrichment SkipOutOfRange] assess)).

(** The revisions of now. *)
Definition read_epoch (w : World R) : World R * cacheEpoch :=
  let '(w, (feedRev, feedKnown)) := currentFeedRevision w in
  let '(w, (brandRev, brandKnown)) := currentBrandRevision w in
  let '(w, configRev) := look config_revision_at w in
  (w, mkEpoch analysisAlgorithmRevision configRev modelRevision feedRev feedKnown brandRev brandKnown).

Definition analyze (domain : string) (mode : osintLookupMode) (force : bool) (s : Assessor R)
    : Assessor R * (Result * bool * list OSINTEvidence * Assessment) :=
  match NormalizeDomain domain with
  | Err _ =>
      let '(w, result) := look (λ n, lexical_at n domain) (world s) in
      (set_world w s, (result, false, [], newDomainAssessment))
  | Ok normalized =>
      let '(w, epoch) := read_epoch (world s) in
      let '(w, cached) := read_cache (analysisCacheKey normalized modelRevision) epoch w in
      let s := set_world w s in
      match cached with
      | Some entry => assess_cached normalized entry (EpochFeed epoch) mode force s
      | None => assess_fresh normalized epoch mode force s
      end
  end.

(** ** The enrichment worker *)

(** The swap test: refuse when the entry was materialised after the snapshot. *)
Definition cas_approves (queuedAt : option Z) (current : result (option analysisCacheEntry))
    : result bool :=
  match current with
  | Err e => Err e
  | Ok None => Ok true
  | Ok (Some entry) =>
      Ok (negb (negb (String.eqb (RDomain (EntryResult entry)) "")
                && time_after (entryAssessedAt entry) queuedAt))
  end.
(** [CompareAndSwapJSON]: [None] is an exhausted conflict budget. *)
Fixpoint cas_loop (attempts : nat) (key : string) (queuedAt : option Z) (entry : analysisCacheEntry)
    (ttl : Z) (w : World R) : World R * result (option bool) :=
  match attempts with
  | 0 => (w, Ok None)
  | S attempts =>
      let '(w, current) := GetEntry key w in
      match cas_approves queuedAt current with
      | Err e => (w, Err e)
      | Ok false => (w, Ok (Some false))
      | Ok true =>
          if watch_conflict (tick w)
          then cas_loop attempts key queuedAt entry ttl
                 (mkWorld (interfere (tick w) (server w)) (S (tick w)) (visited w))
          else
            let '(w, res) := command (λ r, (set_entry r key entry ttl, tt)) w in
            (w, match res with Ok _ => Ok (Some true) | Err e => Err e end)
      end
  end.
Definition casMaxAttempts : nat := 5.

(** The early returns on a revision that is known to differ. *)
Definition job_outdated (known : bool) (current revision : string) : bool :=
  known && negb (String.eqb current "") && negb (String.eqb revision "")
  && negb (String.eqb current revision).
Definition processEnrichmentJob (job : enrichmentJob) (w : World R) : World R :=
  if negb (redis_enabled cfg) then w
  else
    let '(w, (feedRev, feedKnown)) := currentFeedRevision w in
    if job_outdated feedKnown feedRev (JobFeedRevision job) then w
    else
      let '(w, (brandRev, brandKnown)) := currentBrandRevision w in
      if job_outdated brandKnown brandRev (JobBrandRevision job) then w
      else
        let '(w, configRev) := look config_revision_at w in
        if negb (String.eqb configRev (JobConfigRevision job)) then w
        else if negb (String.eqb modelRevision (JobModelRevision job)) then w
        else
          let '(w, signals) := look (λ n, signals_at n (JobDomain job)) w in
          let enriched := applyEnrichmentSignals (JobResult job) signals in
          let '(w, stamp) := look stamp_at w in
          (cas_loop casMaxAttempts (analysisCacheKey (JobDomain job) (JobModelRevision job))
             (jobQueuedAt (QueuedAt job))
             (mkCacheEntry enriched (JobFeedRevision job) (JobBrandRevision job)
                analysisAlgorithmRevision (JobConfigRevision job) (JobModelRevision job) "" stamp stamp)
             (ttlFor (RVerdict enriched)) w).1.

(** One turn of a worker: the oldest job, which leaves the in-flight set at the end.
    The stop signal of the workers ends the loop between two turns. *)
Definition worker_take (s : Assessor R) : option (enrichmentJob * Assessor R) :=
  match enrichQueue s with
  | [] => None
  | job :: queue =>
      Some (job, mkAssessor (world s) (feedEngine s) (mlTel s) (inFlight s) queue (evidence_log s))
  end.
Definition worker_finish (job : enrichmentJob) (s : Assessor R) : Assessor R :=
  mkAssessor (processEnrichmentJob job (world s)) (feedEngine s) (mlTel s)
    (inFlight s ∖ {[JobDomain job]}) (enrichQueue s) (evidence_log s).
End Assess.
