(* ===== verification/AssessSpec.v ===== *)
(** * Properties of threat assessment

    The result cache: whatever other processes and goroutines do between two commands,
    an answer is one that a configuration in force during the request produces, even
    when the configuration is replaced while a request computes; when an old
    configuration comes back, it may also be one of the configuration in between.  Refinements never make an assessment milder. *)

From Stdlib Require Import ZArith Lia Ascii String SpecFloat.
From S2P Require Import Prelude GoStr Hostname GoFloat Category Policy EditDist Brand Lexical LexicalSpec Feed FeedSync FeedSyncSpec FeedMatch FeedCycle DomainML DomainMLSpec Enrich EnrichSpec Assess.

(** What reading the cache gives after a write: the written document or none, and at
    other keys what was there before, or none. *)
Class AnalysisCacheLaws (R : Type) `{AnalysisCache R} := {
  get_set_same r k e ttl e' : get_entry (set_entry r k e ttl) k = Ok (Some e') → e' = e;
  get_set_other r k e ttl k' e' :
    k' ≠ k → get_entry (set_entry r k e ttl) k' = Ok (Some e') → get_entry r k' = Ok (Some e')
}.

(** ** Keys *)

(** Decoding never passes over an ASCII byte. *)
Lemma decode_rune_skips b0 rest :
  Forall (λ b, 128 <= b)%Z (take ((decode_rune b0 rest).2 - 1) rest).
Proof.
  unfold decode_rune, cont. cbv zeta.
  repeat case_match; cbn [snd Nat.sub]; rewrite ?take_0; repeat constructor; bool_simpl;
    repeat case_match; lia.
Qed.
Lemma decode_rune_ascii b0 rest : (b0 < 128)%Z → decode_rune b0 rest = (b0, 1).
Proof. intros Hb. unfold decode_rune. by rewrite (proj2 (Z.ltb_lt _ _) Hb). Qed.
Lemma ascii_byte_in_runes fuel bs b :
  length bs ≤ fuel → b ∈ bs → (b < 128)%Z → b ∈ runes_fuel fuel bs.
Proof.
  revert bs. induction fuel as [|fuel IH]; intros [|b0 bs] Hlen Hin Hb; cbn in Hlen;
    [by apply not_elem_of_nil in Hin|lia|by apply not_elem_of_nil in Hin|].
  cbn [runes_fuel]. pose proof (decode_rune_skips b0 bs) as Hs.
  apply elem_of_cons in Hin as [<-|Hin]; [rewrite decode_rune_ascii by done; by left|].
  destruct (decode_rune b0 bs) as [r w]. right. cbn [snd] in Hs. apply IH; [|..|done].
  - rewrite length_drop. lia.
  - rewrite <-(take_drop (w - 1) bs), elem_of_app in Hin. destruct Hin as [Hin|]; [|done].
    rewrite Forall_forall in Hs. specialize (Hs _ Hin). cbn in Hs. lia.
Qed.
Lemma contains_byte_of c s : contains_byte c s = true → byte_z c ∈ bytes_of s.
Proof.
  induction s as [|d s IH]; [done|]. rewrite contains_byte_cons, bytes_of_cons, elem_of_cons.
  destruct (Ascii.eqb_spec c d) as [->|]; [by left|]. right. by apply IH.
Qed.
Lemma wf_no_colon `{UnicodeTables} d : well_formed d → contains_byte ":" d = false.
Proof.
  intros [_ _ _ Hr]. apply not_true_iff_false. intros Hc%contains_byte_of.
  apply forallb_forall with (x := byte_z ":") in Hr; [done|].
  apply list_elem_of_In, ascii_byte_in_runes; [|done..]. by rewrite length_bytes_of.
Qed.

(** The name is what precedes the first colon. *)
Lemma before_colon_inj d d' s s' :
  contains_byte ":" d = false → contains_byte ":" d' = false →
  match s with String c _ => c = ":"%char | _ => True end →
  match s' with String c _ => c = ":"%char | _ => True end →
  (d ++ s)%string = (d' ++ s')%string → d = d'.
Proof.
  intros Hd Hd' Hs Hs'. revert d' Hd' Hd. induction d as [|c d IH]; intros [|c' d'] Hd' Hd; cbn.
  - done.
  - intros ->. cbn in Hs. subst. by rewrite contains_byte_cons in Hd'.
  - intros <-. cbn in Hs'. subst. by rewrite contains_byte_cons in Hd.
  - rewrite !contains_byte_cons in Hd, Hd'. apply orb_false_iff in Hd as [_ Hd], Hd' as [_ Hd'].
    intros [= -> He]. by rewrite (IH d').
Qed.
Lemma cache_key_inj `{UnicodeTables} d m d' m' :
  well_formed d → well_formed d' → analysisCacheKey d m = analysisCacheKey d' m' → d = d'.
Proof.
  intros Hd%wf_no_colon Hd'%wf_no_colon. unfold analysisCacheKey. intros He.
  assert (∀ m d, ∃ s, match s with String c _ => c = ":"%char | _ => True end ∧
    (if String.eqb m "" then "safe-zone:analysis:" ++ d
     else ("safe-zone:analysis:" ++ d) ++ ":model:" ++ m)%string
    = ("safe-zone:analysis:" ++ (d ++ s))%string) as Hform.
  { intros m0 d0. destruct (String.eqb m0 "").
    - exists "". by rewrite sapp_nil_r.
    - exists (":model:" ++ m0)%string. split; [done|]. by rewrite sapp_assoc. }
  destruct (Hform m d) as (s & Hs & E), (Hform m' d') as (s' & Hs' & E').
  rewrite E, E' in He. cbn in He. simplify_eq He. intros ?.
  by apply (before_colon_inj d d' s s').
Qed.

(** ** What the configurations can produce *)

Section Coherence.
Context {R : Type} `{UnicodeTables, HostServices, RuneTables, FeedLibs, TimeLib, DomainClassifier,
  RedisServer R, RedisIO, !AnalysisCache R, !AssessEnv R}.
Context (cfg : AssessConfig).

(** [Derived c d r]: [r] is an assessment of [d] that involves no configuration but
    the one whose revision is [c]: that of the feed, or of the lexical analyser under
    that configuration, refined by the classifier, the AI, public warnings and
    enrichment.  A public warning makes an assessment of any configuration final. *)
Inductive Derived (c d : string) : Result → Prop :=
| derived_feed : Derived c d (threatFeedHit d)
| derived_shared : Derived c d (sharedApexFeedHit d)
| derived_lexical n : config_revision_at n = c → Derived c d (lexical_at n d)
| derived_model micros r t : Derived c d r →
    Derived c d (classifyML (mlMode cfg) (mlCanary cfg) micros r t).2.1
| derived_ai n r : Derived c d r → Derived c d (refineWithAI (ai_at n r) r)
| derived_enriched n r : Derived c d r → Derived c d (applyEnrichmentSignals r (signals_at n d))
| derived_warning c' r report : Derived c' d r → ShouldBlock report = true →
    Derived c d (Apply r report).

(** What may be kept at moment [n] under the revision [tag]: an assessment of that
    configuration, or of one that was in force after it. *)
Definition Good (n : nat) (d tag : string) (r : Result) : Prop :=
  ∃ c, Derived c d r
    ∧ (c = tag ∨ ∃ i m, i ≤ m ∧ m ≤ n ∧ tag = config_revision_at i ∧ c = config_revision_at m).
Definition Coherent (n : nat) (r : R) : Prop :=
  ∀ d m e, well_formed d → get_entry r (analysisCacheKey d m) = Ok (Some e) →
    Good n d (ConfigRevisionOf e) (EntryResult e).
Definition JobGood (n : nat) (job : enrichmentJob) : Prop :=
  well_formed (JobDomain job) ∧ Good n (JobDomain job) (JobConfigRevision job) (JobResult job).

Lemma good_mono n n' d tag r : n ≤ n' → Good n d tag r → Good n' d tag r.
Proof.
  intros Hn (c & Hd & Hc). exists c. split; [done|]. destruct Hc as [|(i & m & Hi & Hm & Hr)]; [by left|].
  right. exists i, m. split; [done|]. split; [lia|done].
Qed.
Lemma coherent_mono n n' r : n ≤ n' → Coherent n r → Coherent n' r.
Proof. intros Hn Hr d m e Hd He. eapply good_mono; [done|]. by eapply Hr. Qed.
Lemma good_derived n d tag r : Derived tag d r → Good n d tag r.
Proof. intros Hr. exists tag. eauto. Qed.
Lemma good_map n d tag r r' :
  (∀ c, Derived c d r → Derived c d r') → Good n d tag r → Good n d tag r'.
Proof. intros Hf (c & Hd & Hc). exists c. eauto. Qed.

(** No configuration comes back after another one was in force. *)
Definition no_return : Prop :=
  ∀ i j k, i ≤ j → j ≤ k → config_revision_at i = config_revision_at k →
    config_revision_at j = config_revision_at i.
(** Whatever the configuration becomes while an assessment is computed, the result
    may be kept under the revision read before. *)
Lemma good_since n m d r :
  n ≤ m → Derived (config_revision_at m) d r → Good m d (config_revision_at n) r.
Proof. intros Hnm Hd. exists (config_revision_at m). split; [done|]. right. by exists n, m. Qed.
(** Between the moments [lo] and [hi], [r] is current: of a configuration in force there. *)
Definition Current (lo hi : nat) (d : string) (r : Result) : Prop :=
  ∃ n, lo ≤ n ≤ hi ∧ Derived (config_revision_at n) d r.
(** [r] is of a configuration that was in force before, between two times at which the
    one in force now was. *)
Definition Returned (lo hi : nat) (d : string) (r : Result) : Prop :=
  ∃ i m n, i ≤ m ∧ m < n ∧ lo ≤ n ≤ hi ∧ config_revision_at i = config_revision_at n ∧
    config_revision_at m ≠ config_revision_at n ∧ Derived (config_revision_at m) d r.
Lemma never_returned lo hi d r : no_return → ¬ Returned lo hi d r.
Proof. intros Hret (i & m & n & Him & Hmn & _ & He & Hne & _). rewrite <- He in Hne. apply Hne, (Hret i m n); lia || done. Qed.
Lemma current_mono lo hi hi' d r : hi ≤ hi' → Current lo hi d r ∨ Returned lo hi d r → Current lo hi' d r ∨ Returned lo hi' d r.
Proof.
  intros Hhi [(n & ? & ?)|(i & m & n & ? & ? & ? & ? & ? & ?)]; [left; exists n|right; exists i, m, n];
    (split_and!; try done; lia).
Qed.
Lemma current_map lo hi d r r' :
  (∀ c, Derived c d r → Derived c d r') →
  Current lo hi d r ∨ Returned lo hi d r → Current lo hi d r' ∨ Returned lo hi d r'.
Proof.
  intros Hf [(n & ? & ?)|(i & m & n & ? & ? & ? & ? & ? & ?)]; [left; exists n; eauto|right; exists i, m, n].
  split_and!; eauto; lia.
Qed.

(** ** Runs that keep the cache coherent *)

Context `{!AnalysisCacheLaws R}.
(** What every other process and goroutine relies on and keeps. *)
Context (Hothers : ∀ n r, Coherent n r → Coherent n (interfere n r)).

Definition run (w w' : World R) : Prop :=
  tick w ≤ tick w' ∧ steps (Coherent (tick w')) w w'.
Definition coherent (w : World R) : Prop := Coherent (tick w) (server w).

Lemma run_end w w' : run w w' → coherent w'.
Proof. by intros [_ [? _]]. Qed.
Lemma run_refl w : coherent w → run w w.
Proof. intros Hw. split; [done|]. by apply steps_refl. Qed.
Lemma run_trans w1 w2 w3 : run w1 w2 → run w2 w3 → run w1 w3.
Proof.
  intros [H12 [Hc1 (l & Hl & Hall)]] [H23 Hs]. split; [lia|]. eapply steps_trans; [|done].
  split; [by eapply coherent_mono|]. exists l. split; [done|].
  eapply Forall_impl; [done|]. intros r. by apply coherent_mono.
Qed.
Lemma run_look {A} (f : nat → A) w : coherent w → run w (look f w).1.
Proof.
  intros Hw. split; [cbn; lia|]. split; [eapply coherent_mono, Hw; cbn; lia|].
  exists []. by rewrite app_nil_r.
Qed.
Lemma run_command {A} (f : R → R * A) w :
  (∀ r, Coherent (tick w) r → Coherent (tick w) (f r).1) → coherent w → run w (command f w).1.
Proof.
  intros Hf Hw. pose proof (command_steps (Coherent (tick w)) f w Hf Hw) as Hs.
  assert (tick (command f w).1 = S (tick w)) as Ht.
  { unfold command. destruct (f _). by destruct (redis_fault _) as [[? []]|]. }
  split; [lia|]. destruct Hs as [Hc (l & Hl & Hall)]. rewrite Ht.
  split; [eapply coherent_mono; [|done]; lia|]. exists l. split; [done|].
  eapply Forall_impl; [done|]. intros r. apply coherent_mono. lia.
Qed.
Lemma run_racing {A} (f : R → R * A) w :
  (∀ r, Coherent (tick w) r → Coherent (tick w) (f r).1) → coherent w → run w (racing cfg f w).1.
Proof.
  intros Hf Hw. unfold racing. destruct (negb _); [by apply run_refl|].
  exact (run_command f (mkWorld (interfere (tick w) (server w)) (tick w) (visited w)) Hf
    (Hothers _ _ Hw)).
Qed.

(** Readers; what reading an entry tells. *)
Lemma run_read {A} (f : R → A) w : coherent w → run w (racing cfg (λ r, (r, f r)) w).1.
Proof. by apply run_racing. Qed.
Lemma run_GetString k w : coherent w → run w (GetString cfg k w).1.
Proof. apply run_read. Qed.
Lemma run_GetLegacy k w : coherent w → run w (GetLegacy cfg k w).1.
Proof.
  intros Hw. pose proof (run_read (λ r, get_legacy r k) w Hw) as Hr. unfold GetLegacy.
  by destruct (racing _ _ _).
Qed.
Lemma run_ReadSet w : coherent w → run w (ReadSet cfg w).1.
Proof.
  intros Hw. pose proof (run_read (λ r, zset r (threatFeedKey cfg)) w Hw) as Hr. unfold ReadSet.
  by destruct (racing _ _ _).
Qed.
Lemma run_GetEntry d m w :
  coherent w → well_formed d →
  let '(w', res) := GetEntry cfg (analysisCacheKey d m) w in
  run w w' ∧ ∀ e, res = Ok (Some e) → tick w < tick w'
    ∧ Good (tick w) d (ConfigRevisionOf e) (EntryResult e).
Proof.
  intros Hw Hd. unfold GetEntry.
  pose proof (run_read (λ r, get_entry r (analysisCacheKey d m)) w Hw) as Hr.
  unfold racing in *. destruct (negb _); [done|].
  unfold command in *. cbn [tick server] in *. pose proof (Hothers _ _ Hw) as Hc.
  destruct (redis_fault (tick w)) as [[e applied]|]; (split; [done|]); [done|].
  intros e He. cbn. split; [lia|]. apply (Hc d m e Hd).
  by destruct (get_entry (interfere _ _) _).
Qed.
Lemma run_SetEntry d m e ttl w :
  coherent w → well_formed d → Good (tick w) d (ConfigRevisionOf e) (EntryResult e) →
  run w (SetEntry cfg (analysisCacheKey d m) e ttl w).1.
Proof.
  intros Hw Hd He. apply run_racing; [|done]. intros r Hr d' m' e' Hd' He'. cbn in He'.
  destruct (decide (analysisCacheKey d' m' = analysisCacheKey d m)) as [Hk|Hk].
  - rewrite Hk in He'. apply get_set_same in He' as ->. by rewrite (cache_key_inj d' m' d m).
  - apply get_set_other in He'; [|done]. by eapply Hr.
Qed.
Lemma run_feed_revision w : coherent w → run w (currentFeedRevision cfg w).1.
Proof.
  intros Hw. unfold currentFeedRevision. destruct (String.eqb _ _); [by apply run_refl|].
  pose proof (run_GetString (feedRevisionKey cfg) w Hw). by destruct (GetString _ _ _).
Qed.
Lemma run_brand_revision w : coherent w → run w (currentBrandRevision cfg w).1.
Proof.
  intros Hw. unfold currentBrandRevision.
  pose proof (run_GetString brandRevisionKey w Hw). by destruct (GetString _ _ _).
Qed.

Ltac chain_runs := first [done | eapply run_trans; [eassumption|]; chain_runs].

(** ** The layers *)

Lemma feed_result_shape c d brands e :
  let '(_, (r, _)) := feedResult c d brands e in
  r = zero_result ∨ r = threatFeedHit d ∨ r = sharedApexFeedHit d.
Proof.
  unfold feedResult, feed_failed. repeat case_match; simplify_eq; eauto.
Qed.
(** What the unrefined assessment is made of. *)
Definition Fed (d : string) (r : Result) : Prop := r = threatFeedHit d ∨ r = sharedApexFeedHit d.
Lemma fed_derived d r c : Fed d r → Derived c d r.
Proof. intros [-> | ->]; constructor. Qed.

Lemma evidence_spec d s :
  coherent (world s) →
  let '(s', (r, _)) := assess_evidence cfg d s in
  run (world s) (world s') ∧ enrichQueue s' = enrichQueue s
  ∧ (Fed d r ∨ ∃ n, tick (world s) ≤ n < tick (world s') ∧ r = lexical_at n d).
Proof.
  intros Hw. unfold assess_evidence. cbv zeta.
  pose proof (run_look brands_at (world s) Hw) as H1'.
  destruct (look brands_at _) as [w1 brands]. cbn [fst] in H1'.
  pose proof (run_look unix_at w1 (run_end _ _ H1')) as H2'.
  destruct (look unix_at w1) as [w2 t2]. cbn [fst] in H2'.
  pose proof (run_ReadSet w2 (run_end _ _ H2')) as H3'.
  destruct (ReadSet cfg w2) as [w3 l3]. cbn [fst] in H3'.
  pose proof (run_look unix_at w3 (run_end _ _ H3')) as H4'.
  destruct (look unix_at w3) as [w4 t4]. cbn [fst] in H4'.
  pose proof (run_ReadSet w4 (run_end _ _ H4')) as H5'.
  destruct (ReadSet cfg w4) as [w5 l5]. cbn [fst] in H5'.
  pose proof (run_look unix_at w5 (run_end _ _ H5')) as H6'.
  destruct (look unix_at w5) as [w6 t6]. cbn [fst] in H6'.
  assert (run (world s) w6) as Hrun by chain_runs.
  pose proof (feed_result_shape (mkFeedCall l3 t2 l5 t4 t6) d brands (feedEngine s)) as Hf.
  destruct (feedResult _ _ _ _) as [fe [r scope]].
  destruct (String.eqb_spec (RDomain r) "") as [Hz|Hz]; cbn [negb].
  - pose proof (run_look (λ n, lexical_at n d) w6 (run_end _ _ Hrun)) as H7'.
    cbn in *. split; [by eapply run_trans|]. split; [done|]. right. exists (tick w6).
    destruct Hrun. split; [lia|done].
  - split; [done|]. split; [done|]. left. unfold Fed.
    destruct Hf as [-> | ?]; [by destruct Hz|done].
Qed.

Lemma refine_spec r assess s :
  coherent (world s) →
  let '(s', (r', _, _)) := assess_refine cfg r assess s in
  run (world s) (world s') ∧ enrichQueue s' = enrichQueue s
  ∧ ∀ c d, Derived c d r → Derived c d r'.
Proof.
  intros Hw. unfold assess_refine. case_bool_decide; cbn [negb]; [|split_and!; [by apply run_refl|done..]].
  pose proof (run_look micros_at (world s) Hw) as H1'.
  destruct (look micros_at _) as [w1 micros]. cbn [fst] in H1'.
  assert (∀ c d, Derived c d r →
    Derived c d (classifyML (mlMode cfg) (mlCanary cfg) micros r (mlTel s)).2.1) as Hml
    by (intros; by constructor).
  destruct (classifyML _ _ _ _ _) as [tel [r1 promoted]]. cbn [fst snd] in Hml.
  destruct promoted; [by split_and!|].
  pose proof (run_look (λ n, ai_at n r1) w1 (run_end _ _ H1')) as H2'. cbn in *.
  split; [by eapply run_trans|]. split; [done|]. intros c d Hd. apply derived_ai. by apply Hml.
Qed.
Lemma lookup_spec d r mode force s :
  coherent (world s) →
  let '(s', _) := lookupOSINT cfg d r mode force s in
  run (world s) (world s') ∧ enrichQueue s' = enrichQueue s.
Proof.
  intros Hw. unfold lookupOSINT. destruct (_ || _); [by split; [apply run_refl|]|].
  destruct mode; [by split; [apply run_refl|]| |].
  - by split; [apply (run_look (λ n, osint_cached_at n d))|].
  - by split; [apply (run_look (λ n, osint_lookup_at n d force))|].
Qed.
Lemma warning_spec d r report feedRev w :
  coherent w → well_formed d → (∃ c, Derived c d r) →
  let '(w', r') := applyOSINT cfg d r report feedRev w in
  run w w' ∧ (r' = r ∨ ∀ c, Derived c d r').
Proof.
  intros Hw Hd [c0 Hr]. unfold applyOSINT. destruct (_ || _) eqn:Hg.
  { split; [by apply run_refl|by left]. }
  apply orb_false_iff in Hg as [_ Hb%negb_false_iff]. cbv zeta.
  assert (∀ c, Derived c d (Apply r report)) as Hall by (intros c; by eapply derived_warning).
  destruct (_ && _); [split; [by apply run_refl|by right]|].
  pose proof (run_brand_revision w Hw) as H1'.
  destruct (currentBrandRevision cfg w) as [w1 [brandRev known]]. cbn [fst] in H1'.
  pose proof (run_look config_revision_at w1 (run_end _ _ H1')) as H2'.
  destruct (look config_revision_at w1) as [w2 configRev]. cbn [fst] in H2'.
  pose proof (run_look stamp_at w2 (run_end _ _ H2')) as H3'.
  destruct (look stamp_at w2) as [w3 stamp]. cbn [fst] in H3'.
  split; [|by right]. assert (run w w3) as Hrun by chain_runs. eapply run_trans; [done|].
  apply run_SetEntry; [by eapply run_end|done|]. by apply good_derived.
Qed.
Lemma enqueue_spec job s :
  coherent (world s) → Forall (JobGood (tick (world s))) (enrichQueue s) →
  JobGood (tick (world s)) job →
  let s' := enqueueEnrichment cfg job s in
  world s' = world s ∧ Forall (JobGood (tick (world s))) (enrichQueue s').
Proof.
  intros Hw Hq Hj. unfold enqueueEnrichment. repeat case_match; try done. cbn.
  split; [done|]. apply Forall_app_2; [done|by apply Forall_singleton].
Qed.
Lemma read_epoch_spec w :
  coherent w →
  let '(w', epoch) := read_epoch cfg w in
  run w w' ∧ ∃ n, tick w ≤ n < tick w' ∧ EpochConfig epoch = config_revision_at n.
Proof.
  intros Hw. unfold read_epoch.
  pose proof (run_feed_revision w Hw) as H1'.
  destruct (currentFeedRevision cfg w) as [w1 [f fk]]. cbn [fst] in H1'.
  pose proof (run_brand_revision w1 (run_end _ _ H1')) as H2'.
  destruct (currentBrandRevision cfg w1) as [w2 [b bk]]. cbn [fst] in H2'.
  pose proof (run_look config_revision_at w2 (run_end _ _ H2')) as H3'. cbn in *.
  split; [chain_runs|]. exists (tick w2).
  destruct H1', H2'. split; [lia|done].
Qed.
Lemma read_cache_spec d m epoch w :
  coherent w → well_formed d →
  let '(w', cached) := read_cache cfg (analysisCacheKey d m) epoch w in
  run w w' ∧ ∀ e, cached = Some e → tick w < tick w' ∧ ConfigRevisionOf e = EpochConfig epoch
    ∧ Good (tick w) d (ConfigRevisionOf e) (EntryResult e).
Proof.
  intros Hw Hd. unfold read_cache. destruct (negb _); [by split; [apply run_refl|]|].
  pose proof (run_GetEntry d m w Hw Hd) as Hg. destruct (GetEntry _ _ _) as [w1 res].
  destruct Hg as [Hrun He].
  pose proof (run_GetLegacy (analysisCacheKey d m) w1 (run_end _ _ Hrun)) as Hl.
  destruct res as [[e|]|]; [|by split; [eapply run_trans|]..].
  destruct (entryMatchesRevision e epoch) eqn:Hm; [|by split; [eapply run_trans|]].
  split; [done|]. intros e' [= <-]. destruct (He e eq_refl) as [Ht Hgood].
  split_and!; [done| |done]. unfold entryMatchesRevision in Hm.
  destruct (String.eqb _ ""); [done|].
  destruct (String.eqb_spec (ConfigRevisionOf e) (EpochConfig epoch)) as [He'|]; [done|].
  by rewrite orb_true_r in Hm.
Qed.

(** ** The analysis *)

(** What holds of the whole between requests. *)
Definition assessor_inv (s : Assessor R) : Prop :=
  coherent (world s) ∧ Forall (JobGood (tick (world s))) (enrichQueue s).
(** An answer some configuration in force in the meantime produces. *)
Definition current_between (w w' : World R) (d : string) (r : Result) : Prop :=
  ∃ n, tick w ≤ n < tick w' ∧ Derived (config_revision_at n) d r.
Lemma jobs_later n n' q : n ≤ n' → Forall (JobGood n) q → Forall (JobGood n') q.
Proof.
  intros Hn Hq. eapply Forall_impl; [done|]. intros j [Hd Hg]. split; [done|].
  by eapply good_mono.
Qed.
Lemma stamp_and_enqueue job s w :
  run (world s) w → Forall (JobGood (tick (world s))) (enrichQueue s) →
  (∀ stamp, JobGood (tick w) (job stamp)) →
  let '(w', stamp) := look stamp_at w in
  let s' := enqueueEnrichment cfg (job stamp) (set_world w' s) in
  assessor_inv s' ∧ run (world s) (world s').
Proof.
  intros Hrun Hq Hj. pose proof (run_look stamp_at w (run_end _ _ Hrun)) as Hl.
  destruct (look stamp_at w) as [w' stamp]. cbn [fst] in Hl. cbv zeta.
  assert (run (world s) w') as Hrun' by by eapply run_trans.
  destruct (enqueue_spec (job stamp) (set_world w' s)) as [Hw' Hq'].
  - by eapply run_end.
  - eapply jobs_later; [|done]. by destruct Hrun'.
  - destruct (Hj stamp). split; [done|]. eapply good_mono; [|done]. by destruct Hl.
  - unfold assessor_inv. rewrite Hw'. split; [|done]. split; [by eapply run_end|done].
Qed.

Lemma good_read n0 lo n d tag r :
  Good n d tag r → tag = config_revision_at n0 → lo ≤ n0 ≤ n → Current lo n d r ∨ Returned lo n d r.
Proof.
  intros (c & Hd & Hc) -> Hn.
  destruct Hc as [->|(i & m & Hi & Hm & He & ->)]; [left; by exists n0|].
  destruct (decide (n0 ≤ m)) as [|Hlt]; [left; exists m; split; [lia|done]|].
  destruct (decide (config_revision_at m = config_revision_at n0)) as [Hmn|Hmn].
  - left. exists n0. rewrite <- Hmn. split; [lia|done].
  - right. exists i, m, n0. split_and!; try done; lia.
Qed.
Lemma warned_inv s w :
  assessor_inv s → run (world s) w → assessor_inv (set_world w s).
Proof.
  intros [_ Hq] Hrun. split; [by eapply run_end|]. eapply jobs_later; [|done]. by destruct Hrun.
Qed.

(** Looking for public warnings and applying them. *)
Lemma osint_spec d r mode force feedRev s :
  assessor_inv s → well_formed d → (∃ c, Derived c d r) →
  let '(s1, report) := lookupOSINT cfg d r mode force s in
  let '(w, r') := applyOSINT cfg d r report feedRev (world s1) in
  run (world s) w ∧ Forall (JobGood (tick (world s))) (enrichQueue s1)
  ∧ (r' = r ∨ ∀ c, Derived c d r').
Proof.
  intros [Hw Hq] Hd Hr. pose proof (lookup_spec d r mode force s Hw) as Hl.
  destruct (lookupOSINT cfg d r mode force s) as [s1 report]. destruct Hl as [H1' Hq'].
  pose proof (warning_spec d r report feedRev (world s1) (run_end _ _ H1') Hd Hr) as Ha.
  destruct (applyOSINT _ _ _ _ _ _) as [w r']. destruct Ha as [H2' Hr'].
  split; [by chain_runs|]. by rewrite Hq'.
Qed.

Lemma cached_spec d e feedRev mode force s n :
  assessor_inv s → well_formed d → n ≤ tick (world s) →
  Good n d (ConfigRevisionOf e) (EntryResult e) →
  let '(s', (r, _, _, _)) := assess_cached cfg d e feedRev mode force s in
  assessor_inv s' ∧ run (world s) (world s')
  ∧ ∀ c, Derived c d (EntryResult e) → Derived c d r.
Proof.
  intros Hs Hd Hn Hg. unfold assess_cached. cbv zeta.
  pose proof (osint_spec d (EntryResult e) mode force feedRev s Hs Hd) as Ho.
  destruct (lookupOSINT cfg d _ mode force s) as [s1 report].
  destruct (applyOSINT _ _ _ _ _ _) as [w r].
  destruct Ho as (Hrun & Hq & Hr); [destruct Hg as (c & ? & _); by exists c|].
  assert (∀ c, Derived c d (EntryResult e) → Derived c d r) as Hder by (by destruct Hr as [->|]).
  destruct (_ && _).
  - assert (∀ stamp, JobGood (tick w) (job_of d r (FeedRevisionOf e) (BrandRevisionOf e)
      (ConfigRevisionOf e) (ModelRevisionOf e) stamp)) as Hj.
    { intros stamp. split; [done|]. cbn. eapply good_map; [done|].
      eapply good_mono; [|done]. destruct Hrun. lia. }
    pose proof (stamp_and_enqueue _ (mkAssessor (world s) (feedEngine s1) (mlTel s1) (inFlight s1)
      (enrichQueue s1) (evidence_log s1)) w Hrun Hq Hj) as He.
    cbn [set_world world] in *. destruct (look stamp_at w) as [w2 stamp]. cbn in He |- *.
    by destruct He.
  - cbn [world set_world]. split; [|done]. split; [by eapply run_end|].
    eapply jobs_later; [|done]. by destruct Hrun.
Qed.

Lemma fresh_spec d epoch mode force s n0 :
  assessor_inv s → well_formed d → n0 ≤ tick (world s) →
  EpochConfig epoch = config_revision_at n0 →
  let '(s', (r, _, _, _)) := assess_fresh cfg d epoch mode force s in
  assessor_inv s' ∧ run (world s) (world s')
  ∧ ∃ n, n0 ≤ n < S (tick (world s')) ∧ Derived (config_revision_at n) d r.
Proof.
  intros [Hw Hq] Hd Hn0 He. pose proof Hn0 as Hstart. unfold assess_fresh. cbv zeta.
  pose proof (evidence_spec d s Hw) as Hev.
  destruct (assess_evidence cfg d s) as [s1 [r1 a1]]. destruct Hev as (H1' & Hq1 & Hr1).
  pose proof (refine_spec r1 a1 s1 (run_end _ _ H1')) as Href.
  destruct (assess_refine cfg r1 a1 s1) as [s2 [[r2 a2] contributed]].
  destruct Href as (H2' & Hq2 & Hr2).
  assert (run (world s) (world s2)) as Hrun2 by chain_runs.
  assert (∃ n, n0 ≤ n ≤ tick (world s2) ∧ Derived (config_revision_at n) d r2) as (n & Hn & Hder).
  { destruct H1' as [Ht1 _], H2' as [Ht2 _]. destruct Hr1 as [Hf|(n & Hn & ->)].
    - exists n0. split; [lia|]. by apply Hr2, fed_derived.
    - exists n. split; [lia|]. apply Hr2. by eapply derived_lexical. }
  assert (assessor_inv s2) as Hinv2.
  { split; [by eapply run_end|]. rewrite Hq2, Hq1. eapply jobs_later; [|done]. by destruct Hrun2. }
  pose proof (osint_spec d r2 mode force (EpochFeed epoch) s2 Hinv2 Hd ltac:(by eexists)) as Ho.
  destruct (lookupOSINT cfg d _ mode force s2) as [s3 report].
  destruct (applyOSINT _ _ _ _ _ _) as [w r]. destruct Ho as (H3' & Hq3 & Hr).
  assert (Derived (config_revision_at n) d r) as Hfinal by (by destruct Hr as [->|]).
  assert (Good (tick w) d (config_revision_at n0) r) as Hgood.
  { destruct H3' as [Ht3 _]. eapply (good_mono n); [lia|]. apply good_since; [lia|done]. }
  match goal with |- context [SetEntry cfg _ ?e ?ttl _] =>
    pose proof (run_SetEntry d (EpochModel epoch) e ttl w (run_end _ _ H3') Hd) as H4'
  end. cbn in H4'. rewrite He in H4'. specialize (H4' Hgood).
  unfold set_world. cbn [world]. rewrite He.
  destruct (SetEntry cfg _ _ _ _) as [w4 res]. cbn [fst] in H4' |- *.
  assert (run (world s2) w4) as Hrun4 by chain_runs. assert (n < S (tick w4)) as Hn4
    by (destruct Hrun4 as [? _]; lia).
  destruct (shouldEnqueueEnrichment r).
  - pose proof (stamp_and_enqueue (job_of d r (EpochFeed epoch) (EpochBrand epoch)
      (config_revision_at n0) (EpochModel epoch)) (mkAssessor (world s2) (feedEngine s3) (mlTel s3)
      (inFlight s3) (enrichQueue s3) (evidence_log s3)) w4 Hrun4 Hq3) as Hen.
    cbn in Hen |- *. destruct Hen as [Hinv Hrun5].
    { intros stamp. split; [done|]. eapply good_mono; [|done]. by destruct H4'. }
    split; [done|]. split; [by chain_runs|]. exists n.
    split; [|done]. split; [lia|]. apply Nat.lt_succ_r.
    eapply Nat.le_trans; [|apply Hrun5]. lia.
  - cbn. split; [split; [by eapply run_end|]; eapply jobs_later; [|done]; by destruct Hrun4|].
    split; [by chain_runs|]. exists n. split; [lia|done].
Qed.

Lemma analyze_spec domain mode force s :
  assessor_inv s →
  let '(s', (r, _, _, _)) := analyze cfg domain mode force s in
  assessor_inv s' ∧ run (world s) (world s')
  ∧ match NormalizeDomain domain with
    | Ok d => Current (tick (world s)) (tick (world s')) d r ∨ Returned (tick (world s)) (tick (world s')) d r
    | Err _ => ∃ n, tick (world s) ≤ n ≤ tick (world s') ∧ r = lexical_at n domain
    end.
Proof.
  intros Hs. pose proof Hs as [Hw Hq]. unfold analyze. destruct (NormalizeDomain domain) as [d|] eqn:Hd.
  2:{ pose proof (run_look (λ n, lexical_at n domain) _ Hw) as Hl. split; [by apply warned_inv|].
      split; [done|]. exists (tick (world s)). split; [cbn; lia|done]. }
  apply normalize_wf_aux in Hd.
  pose proof (read_epoch_spec (world s) Hw) as He.
  destruct (read_epoch cfg (world s)) as [w1 epoch]. destruct He as (H1' & n0 & Hn0 & He).
  pose proof (read_cache_spec d (modelRevision cfg) epoch w1 (run_end _ _ H1') Hd) as Hc.
  destruct (read_cache _ _ _ _) as [w2 cached]. destruct Hc as (H2' & Hc).
  assert (run (world s) w2) as Hrun2 by chain_runs.
  assert (assessor_inv (set_world w2 s)) as Hs2 by by apply warned_inv.
  destruct cached as [e|].
  - destruct (Hc e eq_refl) as (Ht & Htag & Hgood).
    pose proof (cached_spec d e (EpochFeed epoch) mode force (set_world w2 s) (tick w1) Hs2 Hd) as Hsp.
    cbn [world set_world] in Hsp. specialize (Hsp ltac:(lia) Hgood).
    assert (Current (tick (world s)) (tick w1) d (EntryResult e) ∨ Returned (tick (world s)) (tick w1) d (EntryResult e))
      as Hcur by (apply (good_read n0 _ _ _ _ _ Hgood); [congruence|lia]).
    destruct (assess_cached _ _ _ _ _ _ _) as [s' [[[r hit] ev] a]].
    destruct Hsp as (Hinv & Hrun & Hr). split; [done|]. split; [by chain_runs|].
    eapply current_map; [done|]. eapply current_mono; [|done]. destruct Hrun as [? _]. lia.
  - pose proof (fresh_spec d epoch mode force (set_world w2 s) n0 Hs2 Hd) as Hsp.
    cbn [world set_world] in Hsp. destruct H2' as [Ht2 Hst2]. specialize (Hsp ltac:(lia) He).
    destruct (assess_fresh _ _ _ _ _ _) as [s' [[[r hit] ev] a]].
    destruct Hsp as (Hinv & Hrun & m & Hm & Hder). split; [done|]. split; [by chain_runs|].
    left. exists m. split; [lia|done].
Qed.

(** The worker: a job's result may be kept under the job's configuration for good. *)
Lemma cas_run attempts d m queuedAt e ttl w :
  coherent w → well_formed d → Good (tick w) d (ConfigRevisionOf e) (EntryResult e) →
  run w (cas_loop cfg attempts (analysisCacheKey d m) queuedAt e ttl w).1.
Proof.
  revert w. induction attempts as [|attempts IH]; intros w Hw Hd Hg; cbn [cas_loop];
    [by apply run_refl|].
  pose proof (run_GetEntry d m w Hw Hd) as Hr. destruct (GetEntry _ _ w) as [w1 current].
  destruct Hr as [H1' _]. destruct (cas_approves _ _) as [[]|]; [|done..].
  pose proof H1' as [Ht1 _]. assert (Good (tick w1) d (ConfigRevisionOf e) (EntryResult e)) as Hg1
    by by eapply good_mono.
  destruct (watch_conflict _).
  - set (w2 := mkWorld (interfere (tick w1) (server w1)) (S (tick w1)) (visited w1)).
    assert (run w1 w2) as H2'.
    { split; [cbn; lia|]. split; [|exists []; by rewrite app_nil_r].
      eapply coherent_mono; [|apply Hothers; by eapply run_end]. cbn. lia. }
    eapply run_trans; [by eapply run_trans|]. apply IH; [by eapply run_end|done|].
    eapply good_mono; [|done]. cbn. lia.
  - assert (run w1 (command (λ r, (set_entry r (analysisCacheKey d m) e ttl, tt)) w1).1) as H2'.
    { apply run_command; [|by eapply run_end]. intros r Hr d' m' e' Hd' He'. cbn in He'.
      destruct (decide (analysisCacheKey d' m' = analysisCacheKey d m)) as [Hk|Hk].
      - rewrite Hk in He'. apply get_set_same in He' as ->. by rewrite (cache_key_inj d' m' d m).
      - apply get_set_other in He'; [|done]. by eapply Hr. }
    destruct (command _ w1). cbn [fst] in *. by eapply run_trans.
Qed.
Lemma worker_spec job w :
  coherent w → JobGood (tick w) job → run w (processEnrichmentJob cfg job w).
Proof.
  intros Hw [Hd Hg]. unfold processEnrichmentJob. destruct (negb _); [by apply run_refl|].
  pose proof (run_feed_revision w Hw) as H1'.
  destruct (currentFeedRevision cfg w) as [w1 [f fk]]. cbn [fst] in H1'.
  destruct (job_outdated _ _ _); [done|].
  pose proof (run_brand_revision w1 (run_end _ _ H1')) as H2'.
  destruct (currentBrandRevision cfg w1) as [w2 [b bk]]. cbn [fst] in H2'.
  destruct (job_outdated _ _ _); [by chain_runs|].
  pose proof (run_look config_revision_at w2 (run_end _ _ H2')) as H3'.
  destruct (look config_revision_at w2) as [w3 configRev]. cbn [fst] in H3'.
  destruct (negb _); [by chain_runs|]. destruct (negb _); [by chain_runs|].
  pose proof (run_look (λ n, signals_at n (JobDomain job)) w3 (run_end _ _ H3')) as H4'.
  unfold look in *. cbn [fst server tick visited] in *.
  set (w4 := mkWorld (server w3) (S (tick w3)) (visited w3)) in *.
  pose proof (run_look stamp_at w4 (run_end _ _ H4')) as H5'. cbn [fst look] in H5'.
  assert (run w w4) as Hrun4 by chain_runs. eapply run_trans; [by eapply run_trans|].
  apply cas_run; [by eapply run_end|done|]. cbn. eapply good_map; [|eapply good_mono; [|done]].
  - intros c Hc. by apply derived_enriched.
  - destruct Hrun4, H5'. cbn in *. lia.
Qed.
End Coherence.

(** ** Requests, workers and the others together *)

Section System.
Context {R : Type} `{UnicodeTables, HostServices, RuneTables, FeedLibs, TimeLib, DomainClassifier,
  RedisServer R, RedisIO, !AnalysisCache R, !AssessEnv R}.
Context (cfg : AssessConfig).

(** The assessor and the jobs the workers are at. *)
Definition system : Type := Assessor R * list enrichmentJob.
Inductive worker_step : system → system → Prop :=
| w_take job s s' running :
    worker_take s = Some (job, s') → worker_step (s, running) (s', job :: running)
| w_finish job s l1 l2 :
    worker_step (s, (l1 ++ job :: l2)%list) (worker_finish cfg job s, (l1 ++ l2)%list).
Inductive sstep : system → system → Prop :=
| s_request domain mode force s running :
    sstep (s, running) ((analyze cfg domain mode force s).1, running)
| s_worker x y : worker_step x y → sstep x y.

Definition system_inv (x : system) : Prop :=
  assessor_inv cfg x.1 ∧ Forall (JobGood cfg (tick (world x.1))) x.2.
Lemma sstep_inv `{!AnalysisCacheLaws R} x y :
  (∀ n r, Coherent cfg n r → Coherent cfg n (interfere n r)) →
  sstep x y → system_inv x → system_inv y ∧ run cfg (world x.1) (world y.1).
Proof.
  intros Hothers [domain mode force s running|? ? [job s s' running Ht|job s l1 l2]] [Hs Hr];
    cbn [fst snd] in *.
  - pose proof (analyze_spec cfg Hothers domain mode force s Hs) as Ha.
    destruct (analyze cfg domain mode force s) as [s' [[[r hit] ev] a]].
    destruct Ha as (Hs' & Hrun & _). split; [split; [done|]|done]. cbn.
    eapply jobs_later; [|done]. by destruct Hrun.
  - unfold worker_take in Ht. destruct Hs as [Hw Hq]. destruct (enrichQueue s) as [|j q] eqn:Eq; [done|].
    injection Ht as [= -> <-]. apply Forall_cons in Hq as [Hj Hq].
    split; [|by apply run_refl]. split; [by split|]. by apply Forall_cons.
  - apply Forall_app in Hr as [Hr1 [Hj Hr2]%Forall_cons]. destruct Hs as [Hw Hq].
    pose proof (worker_spec cfg Hothers job (world s) Hw Hj) as Hrun. pose proof Hrun as [Ht _].
    split; [|done]. split.
    + split; [by eapply run_end|]. by eapply jobs_later.
    + cbn. by eapply jobs_later, Forall_app_2.
Qed.

Lemma system_run `{!AnalysisCacheLaws R} x y :
  (∀ n r, Coherent cfg n r → Coherent cfg n (interfere n r)) →
  rtc sstep x y → system_inv x → system_inv y ∧ run cfg (world x.1) (world y.1).
Proof.
  intros Hothers. induction 1 as [x|x y z Hxy _ IH]; intros Hx.
  - split; [done|]. apply run_refl, Hx.
  - destruct (sstep_inv x y Hothers Hxy Hx) as [Hy H1']. destruct (IH Hy) as [Hz H2'].
    split; [done|]. by eapply run_trans.
Qed.


(** ** One enrichment per name *)

Definition same_queue (s s' : Assessor R) : Prop :=
  enrichQueue s' = enrichQueue s ∧ inFlight s' = inFlight s.
Lemma evidence_same_queue d s : same_queue s (assess_evidence cfg d s).1.
Proof.
  unfold assess_evidence. repeat (destruct (look _ _)). destruct (ReadSet cfg _). 
  repeat (destruct (look _ _)). destruct (ReadSet cfg _).
  repeat (destruct (look _ _)). destruct (feedResult _ _ _ _) as [? [? ?]].
  cbv zeta. destruct (negb (String.eqb _ _)); by repeat (destruct (look _ _)).
Qed.
Lemma refine_same_queue r a s : same_queue s (assess_refine cfg r a s).1.
Proof.
  unfold assess_refine. destruct (negb _); [done|]. destruct (look _ _).
  destruct (classifyML _ _ _ _ _) as [? [? []]]; [done|]. by destruct (look _ _).
Qed.
Lemma lookup_same_queue d r mode force s : same_queue s (lookupOSINT cfg d r mode force s).1.
Proof.
  unfold lookupOSINT. destruct (_ || _); [done|]. by destruct mode; try destruct (look _ _).
Qed.
(** A request enqueues at most one job, for its name. *)
Definition enqueues (s s' : Assessor R) : Prop :=
  same_queue s s' ∨ ∃ job s1, same_queue s s1 ∧ s' = enqueueEnrichment cfg job s1.
Lemma same_queue_trans s1 s2 s3 : same_queue s1 s2 → same_queue s2 s3 → same_queue s1 s3.
Proof. unfold same_queue. intuition congruence. Qed.
Lemma analyze_enqueues domain mode force s : enqueues s (analyze cfg domain mode force s).1.
Proof.
  unfold analyze. destruct (NormalizeDomain domain) as [d|]; [|by left].
  destruct (read_epoch cfg _) as [w1 epoch]. destruct (read_cache _ _ _ _) as [w2 [e|]].
  - unfold assess_cached. cbv zeta.
    pose proof (lookup_same_queue d (EntryResult e) mode force (set_world w2 s)) as Hl.
    destruct (lookupOSINT _ _ _ _ _ _) as [s1 report]. destruct (applyOSINT _ _ _ _ _ _) as [w3 r].
    destruct (_ && _); [|by left]. destruct (look stamp_at _) as [w4 stamp].
    right. eexists _, _. split; [|reflexivity]. exact Hl.
  - unfold assess_fresh. cbv zeta. pose proof (evidence_same_queue d (set_world w2 s)) as He.
    destruct (assess_evidence cfg d _) as [s1 [r1 a1]].
    pose proof (refine_same_queue r1 a1 s1) as Hr.
    destruct (assess_refine cfg r1 a1 s1) as [s2 [[r2 a2] c]].
    pose proof (lookup_same_queue d r2 mode force s2) as Hl.
    destruct (lookupOSINT _ _ _ _ _ _) as [s3 report]. destruct (applyOSINT _ _ _ _ _ _) as [w3 r].
    pose proof (same_queue_trans _ _ _ He (same_queue_trans _ _ _ Hr Hl)) as Hs.
    destruct (shouldEnqueueEnrichment r); [|by left]. destruct (look stamp_at _) as [w4 stamp].
    right. eexists _, _. split; [|reflexivity]. exact Hs.
Qed.

Definition pending (x : system) : list string := JobDomain <$> (enrichQueue x.1 ++ x.2)%list.
Record single_flight (x : system) : Prop := {
  one_per_name : NoDup (pending x);
  in_flight : ∀ d, d ∈ inFlight x.1 ↔ d ∈ pending x;
  queue_bound : length (enrichQueue x.1) ≤ queue_capacity cfg
}.
Lemma pending_app s running : pending (s, running) = ((JobDomain <$> enrichQueue s) ++ (JobDomain <$> running))%list.
Proof. apply fmap_app. Qed.
Lemma enqueue_single_flight job s running :
  single_flight (s, running) → single_flight (enqueueEnrichment cfg job s, running).
Proof.
  intros [Hn Hi Hq]. rewrite pending_app in *. unfold enqueueEnrichment.
  destruct (negb (enrich_enabled cfg)); [by split; rewrite ?pending_app|].
  case_bool_decide as Hin; [by split; rewrite ?pending_app|].
  destruct (_ && _) eqn:Hg; [|by split; rewrite ?pending_app].
  apply andb_true_iff in Hg as [Hlen%Nat.ltb_lt _].
  assert (pending (mkAssessor (world s) (feedEngine s) (mlTel s) ({[JobDomain job]} ∪ inFlight s)
    (enrichQueue s ++ [job])%list (evidence_log s), running) ≡ₚ
    JobDomain job :: ((JobDomain <$> enrichQueue s) ++ (JobDomain <$> running))%list) as Hp.
  { rewrite pending_app. cbn. rewrite fmap_app. cbn. rewrite <-app_assoc. cbn.
    by rewrite Permutation_middle. }
  split.
  - rewrite Hp. apply NoDup_cons. split; [|done]. by rewrite <-Hi.
  - intros d. rewrite Hp, elem_of_cons, <-Hi. cbn. set_solver.
  - cbn. rewrite length_app. cbn. lia.
Qed.
Lemma same_queue_single_flight s s' running :
  same_queue s s' → single_flight (s, running) → single_flight (s', running).
Proof.
  intros [Hq Hf] [Hn Hi Hl]. unfold pending in *. cbn in *.
  split; unfold pending; cbn; by rewrite ?Hq, ?Hf.
Qed.
Lemma sstep_single_flight x y : sstep x y → single_flight x → single_flight y.
Proof.
  intros [domain mode force s running|? ? [job s s' running Ht|job s l1 l2]] Hx.
  - destruct (analyze_enqueues domain mode force s) as [Hs|(job & s1 & Hs & ->)].
    + by eapply same_queue_single_flight.
    + apply enqueue_single_flight. by eapply same_queue_single_flight.
  - unfold worker_take in Ht. destruct (enrichQueue s) as [|j q] eqn:Eq; [done|].
    injection Ht as [= -> <-]. destruct Hx as [Hn Hi Hl]. unfold pending in *. cbn in *.
    rewrite Eq in *. cbn in *.
    assert (JobDomain <$> (q ++ job :: running)%list ≡ₚ JobDomain job :: (JobDomain <$> (q ++ running)%list)) as Hp.
    { rewrite !fmap_app. cbn. by rewrite Permutation_middle. }
    split; unfold pending; cbn; [by rewrite Hp|intros d; by rewrite Hp|lia].
  - destruct Hx as [Hn Hi Hl]. unfold pending in *. cbn in *.
    assert (JobDomain <$> (enrichQueue s ++ l1 ++ job :: l2)%list ≡ₚ
      JobDomain job :: (JobDomain <$> (enrichQueue s ++ l1 ++ l2)%list)) as Hp.
    { rewrite !fmap_app. cbn. rewrite !app_assoc. by rewrite Permutation_middle. }
    rewrite Hp in Hn. apply NoDup_cons in Hn as [Hnin Hn].
    split; unfold pending; cbn; [done| |done].
    intros d. rewrite elem_of_difference, Hi, Hp, elem_of_cons, elem_of_singleton.
    split; [intros [[|] ?]; done|]. intros Hd. split; [by right|]. by intros ->.
Qed.

(** The turns the workers have left. *)
Definition load (x : system) : nat := 2 * length (enrichQueue x.1) + length x.2.

(** C20: whatever requests arrive and however many workers there are, no name is
    queued or worked on twice, the in-flight set holds exactly the names queued or
    worked on, and the queue never exceeds its capacity.  The workers come to an end:
    each of their turns makes the load smaller, and they have no turn left exactly
    when nothing is in flight, so no name stays barred from enrichment. *)
Theorem enrichment_single_flight (w : World R) fe tel x :
  rtc sstep (mkAssessor w fe tel ∅ [] [], []) x →
  single_flight x
  ∧ (∀ y, worker_step x y → load y < load x)
  ∧ ((∀ y, ¬ worker_step x y) ↔ inFlight x.1 = ∅).
Proof.
  intros Hx. assert (single_flight x) as Hsf.
  { remember (mkAssessor w fe tel ∅ [] [], []) as x0. assert (single_flight x0) as Hx0.
    { subst. split; [constructor|intros d; set_solver|cbn; lia]. }
    clear Heqx0. induction Hx; [done|]. by eauto using sstep_single_flight. }
  clear Hx. split; [done|]. split.
  - intros y [job s s' running Ht|job s l1 l2]; unfold load; cbn.
    + unfold worker_take in Ht. destruct (enrichQueue s); [done|]. injection Ht as [= _ <-]. cbn. lia.
    + rewrite !length_app. cbn. lia.
  - destruct x as [s running]. destruct Hsf as [_ Hi _]. cbn in *. split.
    + intros Hno. assert (enrichQueue s = []) as Hq.
      { destruct (enrichQueue s) as [|j q] eqn:Eq; [done|]. exfalso.
        eapply Hno, w_take. unfold worker_take. by rewrite Eq. }
      assert (running = []) as ->.
      { destruct running as [|j l]; [done|]. exfalso. by eapply Hno, (w_finish j s [] l). }
      apply set_eq. intros d. rewrite Hi. unfold pending. cbn. rewrite Hq. set_solver.
    + intros He y Hy. assert (∀ d, d ∉ pending (s, running)) as Hnone.
      { intros d. rewrite <-Hi, He. set_solver. }
      inversion Hy as [job ? s' ? Ht|job ? l1 l2]; subst.
      * unfold worker_take in Ht. destruct (enrichQueue s) as [|j q] eqn:Eq; [done|].
        apply (Hnone (JobDomain j)). unfold pending. cbn. rewrite Eq. by left.
      * apply (Hnone (JobDomain job)). unfold pending. cbn. rewrite !fmap_app. cbn. set_solver.
Qed.
End System.

(** ** Refinements *)

(** [extends r r']: the same name, no milder, the former reasons kept; and the score of
    a result that agrees with its verdict does not fall. *)
Record extends (r r' : Result) : Prop := {
  ext_domain : RDomain r' = RDomain r;
  ext_severity : (severity (RVerdict r) <= severity (RVerdict r'))%Z;
  ext_reasons : ∃ more, Reasons r' = (Reasons r ++ more)%list;
  ext_agrees : agrees r → agrees r' ∧ (Score r <= Score r')%Z
}.
Lemma extends_refl r : extends r r.
Proof. split; [done|lia|exists []; by rewrite app_nil_r|by split]. Qed.
Lemma extends_trans r1 r2 r3 : extends r1 r2 → extends r2 r3 → extends r1 r3.
Proof.
  intros [D1 S1 [m1 M1] A1] [D2 S2 [m2 M2] A2]. split; [congruence|lia| |].
  - exists (m1 ++ m2)%list. by rewrite M2, M1, app_assoc.
  - intros [A1' ?]%A1. destruct (A2 A1'). split; [done|lia].
Qed.
Lemma severity_top v : (severity v <= severity VerdictMalicious)%Z.
Proof. by destruct v. Qed.
Lemma agrees_malicious r : agrees r → RVerdict r = VerdictMalicious ↔ (70 <= Score r)%Z.
Proof. intros [_ ->]. apply verdict_malicious. Qed.
Lemma agrees_suspicious r : agrees r → RVerdict r = VerdictSuspicious ↔ (40 <= Score r < 70)%Z.
Proof. intros [_ ->]. apply verdict_suspicious. Qed.
Lemma agrees_intro_malicious r :
  RVerdict r = VerdictMalicious → (70 <= Score r <= 100)%Z → agrees r.
Proof. intros Hv Hs. split; [lia|]. rewrite Hv. symmetry. apply verdict_malicious. lia. Qed.

Lemma promote_extends decision r : RVerdict r = VerdictSuspicious → extends r (promote decision r).
Proof.
  intros Hv. split; [done|apply severity_top|by eexists|]. intros Ha.
  pose proof (promoted_score_bounds (Probability decision)). apply agrees_suspicious in Hv; [|done].
  split; [by apply agrees_intro_malicious|cbn; lia].
Qed.
(** A reply that says malicious has a score that says so. *)
Definition reply_ok (reply : option (result Result)) : Prop :=
  ∀ ai, reply = Some (Ok ai) → RVerdict ai = VerdictMalicious → (70 <= Score ai <= 100)%Z.
Lemma ai_extends reply r : reply_ok reply → extends r (refineWithAI reply r).
Proof.
  intros Hok. unfold refineWithAI. case_bool_decide as Hv; cbn [negb]; [|apply extends_refl].
  destruct reply as [[ai|e]|]; [|apply extends_refl..]. case_bool_decide as Hm.
  - specialize (Hok ai eq_refl Hm). split; [done|apply severity_top|by eexists|]. intros Ha.
    apply agrees_suspicious in Hv; [|done].
    split; [apply agrees_intro_malicious; [done|]|]; cbn; destruct (Z.ltb_spec (Score r) (Score ai)); lia.
  - split; [done|cbn; lia|by eexists|]. intros [? ?]. by split.
Qed.
Lemma warning_extends r report : extends r (Apply r report).
Proof.
  unfold Apply. destruct (ShouldBlock report); cbn [negb]; [|apply extends_refl].
  split; [done|apply severity_top| |].
  - cbn. destruct (existsb _ _); [exists []; by rewrite app_nil_r|by eexists].
  - intros [? ?]. split; [apply agrees_intro_malicious; [done|]|]; cbn;
      destruct (Z.ltb_spec (Score r) 90); lia.
Qed.

Section Refinements.
Context {R : Type} `{UnicodeTables, HostServices, RuneTables, FeedLibs, TimeLib, DomainClassifier,
  RedisServer R, RedisIO, !AnalysisCache R, !AssessEnv R}.
Context (cfg : AssessConfig).

(** Why a refined assessment may be more severe than the unrefined one. *)
Definition ai_escalates (r : Result) : Prop :=
  RVerdict r = VerdictSuspicious ∧
  ∃ n ai, ai_at (R := R) n r = Some (Ok ai) ∧ RVerdict ai = VerdictMalicious.
Definition model_escalates (r : Result) : Prop :=
  ∃ decision, promotes (mlMode cfg) (mlCanary cfg) r decision.
Definition warned (d : string) (mode : osintLookupMode) (force : bool) (report : OSINTReport) : Prop :=
  ShouldBlock report = true ∧
  match mode with
  | osintLookupNone => False
  | osintLookupCachedOnly => ∃ n, osint_cached_at (R := R) n d = Some report
  | osintLookupOnDemand => ∃ n, osint_lookup_at (R := R) n d force = report
  end.

Lemma refine_justified r a s :
  (∀ n r, reply_ok (ai_at (R := R) n r)) →
  let '(s', (r', _, _)) := assess_refine cfg r a s in
  extends r r' ∧ evidence_log s' = evidence_log s
  ∧ (RVerdict r' = RVerdict r
     ∨ RVerdict r' = VerdictMalicious ∧ (model_escalates r ∨ ai_escalates r)).
Proof.
  intros Hok. unfold assess_refine. case_bool_decide as Hv; cbn [negb];
    [|split_and!; [apply extends_refl|done|by left]].
  destruct (look micros_at _) as [w1 micros].
  pose proof (classifyML_cases (mlMode cfg) (mlCanary cfg) micros r (mlTel s)) as Hc.
  destruct (classifyML _ _ _ _ _) as [tel [r1 promoted]].
  destruct Hc as [(-> & decision & Hp & ->)|(-> & -> & _)].
  - split_and!; [by apply promote_extends|done|]. right. split; [done|]. left. by exists decision.
  - cbn. split_and!; [by apply ai_extends|done|]. unfold refineWithAI.
    rewrite (bool_decide_eq_true_2 _ Hv). cbn [negb].
    destruct (ai_at (tick w1) r) as [[ai|]|] eqn:Ha; [|by left..].
    case_bool_decide as Hm; [|by left]. right. split; [done|]. right. split; [done|]. by exists (tick w1), ai.
Qed.
Lemma osint_justified d r mode force feedRev s :
  let '(s1, report) := lookupOSINT cfg d r mode force s in
  let '(_, r') := applyOSINT cfg d r report feedRev (world s1) in
  extends r r' ∧ (mode ≠ osintLookupOnDemand → evidence_log s1 = evidence_log s)
  ∧ (RVerdict r' = RVerdict r ∨ RVerdict r' = VerdictMalicious ∧ ∃ report, warned d mode force report).
Proof.
  assert (∀ report w, (applyOSINT cfg d r report feedRev w).2 = r
    ∨ ShouldBlock report = true ∧ (applyOSINT cfg d r report feedRev w).2 = Apply r report) as Ha.
  { intros report w. unfold applyOSINT. destruct (_ || _) eqn:Hg; [by left|].
    apply orb_false_iff in Hg as [_ Hb%negb_false_iff]. right. split; [done|]. cbv zeta.
    destruct (_ && _); [done|]. destruct (currentBrandRevision cfg w) as [w1 [? ?]].
    by repeat destruct (look _ _). }
  assert (∀ report, ShouldBlock report = true → RVerdict (Apply r report) = VerdictMalicious) as Hm
    by (intros report Hb; unfold Apply; by rewrite Hb).
  assert (∀ s1 report, (ShouldBlock report = true → warned d mode force report) →
    (mode ≠ osintLookupOnDemand → evidence_log s1 = evidence_log s) →
    let '(_, r') := applyOSINT cfg d r report feedRev (world s1) in
    extends r r' ∧ (mode ≠ osintLookupOnDemand → evidence_log s1 = evidence_log s)
    ∧ (RVerdict r' = RVerdict r
       ∨ RVerdict r' = VerdictMalicious ∧ ∃ report, warned d mode force report)) as Hgoal.
  { intros s1 report Hw Hlog. specialize (Ha report (world s1)).
    destruct (applyOSINT _ _ _ _ _ _) as [w r']. cbn [snd] in Ha.
    destruct Ha as [->|[Hb ->]]; [split_and!; [apply extends_refl|done|by left]|].
    split_and!; [apply warning_extends|done|]. right. split; [by apply Hm|]. exists report. by apply Hw. }
  unfold lookupOSINT. destruct (_ || _); [by apply Hgoal|]. unfold warned in *.
  destruct mode; [by apply Hgoal| |].
  - apply Hgoal; [|done]. intros Hb. split; [done|]. exists (tick (world s)).
    by destruct (osint_cached_at _ _).
  - apply Hgoal; [|done]. intros Hb. split; [done|]. by exists (tick (world s)).
Qed.

(** C21: refining an assessment never makes it milder: the name and the reasons found
    are kept, the verdict and, where it was the one of its score, the score do not
    fall and still agree.  A verdict becomes malicious only for a stated cause: an
    enforced promotion by the classifier or a malicious reply of the AI, each of a
    suspicious name only, or a public warning found in the way the mode allows; a
    resolver's request, which must not wait, records no evidence of its own. *)
Theorem escalation_justified d epoch mode force (s : Assessor R) :
  (∀ n r, reply_ok (ai_at (R := R) n r)) →
  let '(_, (r1, _)) := assess_evidence cfg d s in
  let '(s', (r, _, _, _)) := assess_fresh cfg d epoch mode force s in
  extends r1 r
  ∧ (RVerdict r = RVerdict r1
     ∨ RVerdict r = VerdictMalicious
       ∧ (model_escalates r1 ∨ ai_escalates r1 ∨ ∃ report, warned d mode force report))
  ∧ (mode ≠ osintLookupOnDemand → evidence_log s' = evidence_log s).
Proof.
  intros Hok. unfold assess_fresh. cbv zeta.
  assert (evidence_log (assess_evidence cfg d s).1 = evidence_log s) as Hlog1.
  { unfold assess_evidence. repeat (destruct (look _ _)). destruct (ReadSet cfg _).
    repeat (destruct (look _ _)). destruct (ReadSet cfg _).
    repeat (destruct (look _ _)). destruct (feedResult _ _ _ _) as [? [? ?]].
    cbv zeta. destruct (negb (String.eqb _ _)); by repeat (destruct (look _ _)). }
  destruct (assess_evidence cfg d s) as [s1 [r1 a1]]. cbn [fst] in Hlog1.
  pose proof (refine_justified r1 a1 s1 Hok) as Hr.
  destruct (assess_refine cfg r1 a1 s1) as [s2 [[r2 a2] contributed]].
  destruct Hr as (Hext & Hlog2 & Hv).
  pose proof (osint_justified d r2 mode force (EpochFeed epoch) s2) as Ho.
  destruct (lookupOSINT _ _ _ _ _ _) as [s3 report]. destruct (applyOSINT _ _ _ _ _ _) as [w r].
  destruct Ho as (Hext' & Hlog3 & Hv').
  assert (∀ job s4, evidence_log (enqueueEnrichment cfg job s4) = evidence_log s4) as Henq
    by (intros; unfold enqueueEnrichment; by repeat case_match).
  destruct (shouldEnqueueEnrichment r); [destruct (look stamp_at _)|];
    (split; [by eapply extends_trans|]; split;
      [destruct Hv' as [->|[-> ?]]; [|by eauto]; destruct Hv as [->|[-> [?|?]]]; by eauto|]);
    intros Hmode; rewrite ?Henq; cbn; rewrite Hlog3 by done; congruence.
Qed.
End Refinements.

(** ** What a worker writes *)

Section Worker.
Context {R : Type} `{UnicodeTables, HostServices, RuneTables, FeedLibs, TimeLib, DomainClassifier,
  RedisServer R, RedisIO, !AnalysisCache R, !AssessEnv R}.
Context (cfg : AssessConfig).

(** Changes by others only. *)
Definition others : R → R → Prop := rtc (λ r r', ∃ n, r' = interfere n r).

Lemma read_others {A} (f : R → A) w :
  let '(w', res) := racing cfg (λ r, (r, f r)) w in
  others (server w) (server w') ∧ ∀ a, res = Ok a → a = f (server w').
Proof.
  unfold racing. destruct (negb _); [done|]. unfold command. cbn [server tick].
  assert (others (server w) (interfere (tick w) (server w))) as Ho by (apply rtc_once; by eexists).
  destruct (redis_fault _) as [[e []]|]; (split; [done|]); [done..|]. by intros a [= <-].
Qed.
Lemma GetString_others k w :
  let '(w', res) := GetString cfg k w in
  others (server w) (server w') ∧ ∀ a, res = Ok a → a = get_string (server w') k.
Proof. apply read_others. Qed.
Lemma GetEntry_others k w :
  let '(w', res) := GetEntry cfg k w in
  others (server w) (server w') ∧ ∀ e, res = Ok e → get_entry (server w') k = Ok e.
Proof.
  unfold GetEntry. pose proof (read_others (λ r, get_entry r k) w) as Hr.
  destruct (racing _ _ _) as [w' [[e|]|]]; destruct Hr as [Ho Hr]; (split; [done|]); [|done..].
  intros e' [= <-]. symmetry. by apply Hr.
Qed.

(** The one write of a worker: over nothing, or over an entry whose latest mark is not
    after the moment the job was queued. *)
Definition swaps (key : string) (queuedAt : option Z) (e : analysisCacheEntry) (ttl : Z) (r r' : R) : Prop :=
  r' = set_entry r key e ttl ∧
  (get_entry r key = Ok None ∨
   ∃ old, get_entry r key = Ok (Some old) ∧
     (RDomain (EntryResult old) = "" ∨ time_after (entryAssessedAt old) queuedAt = false)).
Lemma cas_approves_spec queuedAt r key current :
  (∀ e, current = Ok e → get_entry r key = Ok e) → cas_approves queuedAt current = Ok true →
  get_entry r key = Ok None ∨ ∃ old, get_entry r key = Ok (Some old) ∧
    (RDomain (EntryResult old) = "" ∨ time_after (entryAssessedAt old) queuedAt = false).
Proof.
  intros Hc. destruct current as [[old|]|]; cbn; [|intros _; left; by apply Hc|done].
  intros [= Hb]. right. exists old. split; [by apply Hc|].
  destruct (String.eqb_spec (RDomain (EntryResult old)) ""); [by left|]. right.
  by destruct (time_after _ _).
Qed.
Lemma cas_writes attempts key queuedAt e ttl w :
  let '(w', res) := cas_loop cfg attempts key queuedAt e ttl w in
  ∃ r, others (server w) r ∧
    (server w' = r ∧ res ≠ Ok (Some true) ∨ swaps key queuedAt e ttl r (server w')).
Proof.
  revert w. induction attempts as [|attempts IH]; intros w; cbn [cas_loop].
  { exists (server w). split; [done|]. by left. }
  pose proof (GetEntry_others key w) as Hg. destruct (GetEntry cfg key w) as [w1 current].
  destruct Hg as [Ho Hc]. destruct (cas_approves queuedAt current) as [[]|] eqn:Happ;
    [|by (exists (server w1); split; [done|]; left)..].
  apply (cas_approves_spec _ (server w1) key) in Happ; [|done].
  destruct (watch_conflict _).
  - specialize (IH (mkWorld (interfere (tick w1) (server w1)) (S (tick w1)) (visited w1))).
    destruct (cas_loop _ _ _ _ _ _ _) as [w' res]. destruct IH as (r & Hr & Hcase).
    exists r. split; [|done]. etrans; [done|]. eapply rtc_l; [|done]. by eexists.
  - unfold command. destruct (redis_fault _) as [[err []]|]; cbn;
      exists (server w1); (split; [done|]); [by right|by left|by right].
Qed.

(** The job's revision against one that was read: they differ only when one is empty. *)
Definition agree (current revision : string) : Prop :=
  current ≠ "" → revision ≠ "" → current = revision.
Lemma not_outdated current revision : job_outdated true current revision = false → agree current revision.
Proof.
  unfold job_outdated. intros Hj Hc Hr. apply String.eqb_neq in Hc, Hr. rewrite Hc, Hr in Hj.
  cbn in Hj. apply negb_false_iff in Hj. by apply String.eqb_eq.
Qed.
Lemma revision_others key w :
  redis_enabled cfg = true → let '(w', res) := GetString cfg key w in
  others (server w) (server w')
  ∧ ∀ job, job_outdated (revision_read res).2 (revision_read res).1 job = false →
      (∀ n, redis_fault n = None) → agree (get_string (server w') key) job.
Proof.
  intros Hen. pose proof (GetString_others key w) as Hg. destruct (GetString cfg key w) as [w' res] eqn:E.
  destruct Hg as [Ho Hr]. split; [done|]. intros job Hj Hf. destruct res as [v|e].
  - rewrite <-(Hr v eq_refl). by apply not_outdated.
  - unfold GetString, racing, command in E. rewrite Hen in E. cbn in E. by rewrite Hf in E.
Qed.

(** An enrichment worker writes at most once, and only the enriched result of its
    job, under the job's revisions; over nothing or over an entry with no mark later
    than the job, whatever conflicts and failures it meets; after it saw the
    configuration and the model of the job in force and, unless a command failed, the
    job's feed and brand revisions.  Everything else that happened to the server is
    the work of others. *)
Theorem worker_write_guarded job w :
  let w' := processEnrichmentJob cfg job w in
  ∃ r, others (server w) r ∧
  (server w' = r ∨
   ∃ n stamp, let enriched := applyEnrichmentSignals (JobResult job) (signals_at (R := R) n (JobDomain job)) in
     swaps (analysisCacheKey (JobDomain job) (JobModelRevision job)) (jobQueuedAt (QueuedAt job))
       (mkCacheEntry enriched (JobFeedRevision job) (JobBrandRevision job) analysisAlgorithmRevision
          (JobConfigRevision job) (JobModelRevision job) "" stamp stamp)
       (ttlFor cfg (RVerdict enriched)) r (server w')
     ∧ (∃ m, m < n ∧ config_revision_at (R := R) m = JobConfigRevision job)
     ∧ modelRevision cfg = JobModelRevision job
     ∧ ((∀ n, redis_fault n = None) → ∃ r1 r2, others (server w) r1 ∧ others r1 r2 ∧ others r2 r
        ∧ (feedRevisionKey cfg ≠ "" → agree (get_string r1 (feedRevisionKey cfg)) (JobFeedRevision job))
        ∧ agree (get_string r2 brandRevisionKey) (JobBrandRevision job))).
Proof.
  cbv zeta. unfold processEnrichmentJob. destruct (redis_enabled cfg) eqn:Hen; cbn [negb];
    [|by (exists (server w); split; [done|]; left)].
  assert (let '(w1, (f, known)) := currentFeedRevision cfg w in
    others (server w) (server w1) ∧ (job_outdated known f (JobFeedRevision job) = false →
      (∀ n, redis_fault n = None) → feedRevisionKey cfg ≠ "" →
      agree (get_string (server w1) (feedRevisionKey cfg)) (JobFeedRevision job))) as Hfeed.
  { unfold currentFeedRevision. destruct (String.eqb_spec (feedRevisionKey cfg) ""); [by split|].
    pose proof (revision_others (feedRevisionKey cfg) w Hen) as Hg.
    destruct (GetString _ _ _) as [w1 res]. destruct Hg as [Ho Hr].
    destruct (revision_read res) eqn:E. cbn in Hr. split; [done|]. intros; by apply Hr. }
  destruct (currentFeedRevision cfg w) as [w1 [f fk]]. destruct Hfeed as [Ho1 Hfeed].
  destruct (job_outdated fk f _); [by (exists (server w1); split; [done|]; left)|].
  pose proof (revision_others brandRevisionKey w1 Hen) as Hbrand. unfold currentBrandRevision.
  destruct (GetString cfg brandRevisionKey w1) as [w2 res]. destruct Hbrand as [Ho2 Hbrand].
  destruct (revision_read res) as [b bk]. cbn [fst snd] in Hbrand.
  assert (others (server w) (server w2)) as Ho12 by by etrans.
  destruct (job_outdated bk b _) eqn:Hb; [by (exists (server w2); split; [done|]; left)|].
  unfold look. cbn [tick server visited].
  destruct (String.eqb_spec (config_revision_at (tick w2)) (JobConfigRevision job)) as [Hc|]; cbn [negb];
    [|by (exists (server w2); split; [done|]; left)].
  destruct (String.eqb_spec (modelRevision cfg) (JobModelRevision job)) as [Hm|]; cbn [negb];
    [|by (exists (server w2); split; [done|]; left)].
  match goal with |- context [cas_loop cfg ?a ?k ?q ?e ?t ?w0] =>
    pose proof (cas_writes a k q e t w0) as Hcas; destruct (cas_loop cfg a k q e t w0) as [w' out] end.
  cbn [fst server] in *. destruct Hcas as (r & Hr & Hcase). exists r. split; [by etrans|].
  destruct Hcase as [[? _]|Hswap]; [by left|]. right.
  exists (S (tick w2)), (stamp_at (R := R) (S (S (tick w2)))). split; [done|].
  split; [exists (tick w2); split; [lia|done]|]. split; [done|]. intros Hnf.
  exists (server w1), (server w2). split_and!; [done..| |]; intros; [by apply Hfeed|by apply Hbrand].
Qed.
End Worker.

Module Examples.
Import FeedSpec.Examples.
#[local] Existing Instances ex_tables ex_services ex_feed_libs.
#[local] Instance ex_runes : RuneTables := {| rune_lower r := r; rune_space _ := false |}.
(** Stamps are as many bytes long as they are late. *)
#[local] Instance ex_time : TimeLib := {| parse_rfc3339 s := Some (Z.of_nat (slen s)) |}.
#[local] Instance ex_classifier : DomainClassifier := {|
  classifier_enabled := true; classifier_revision := "r1";
  classify d := Ok (mkMLDecision f_zero MLActionAbstain "v1")
|}.

(** Documents only; one command times out although it was carried out, and once the
    documents expire. *)
Definition docs : Type := gmap string analysisCacheEntry.
#[local] Instance docs_server : RedisServer docs := {|
  zset _ _ := ∅; zadd r _ _ := (r, 0%Z); zremrangebyscore r _ _ := (r, 0%Z); rename _ _ _ := None;
  del r k := delete k r; incr r _ := (r, 0%Z); get_int _ _ := None; get_status _ _ := None;
  set_status r _ _ := r
|}.
#[local] Instance docs_io : RedisIO := {|
  redis_fault n := if n =? 30 then Some ("timeout", true) else None |}.
#[local] Instance docs_cache : AnalysisCache docs := {|
  get_string _ k := "7"; get_entry r k := Ok (r !! k); get_legacy r k := Ok (bool_decide (is_Some (r !! k)));
  set_entry r k e _ := <[k := e]> r
|}.
#[local] Instance docs_laws : AnalysisCacheLaws docs.
Proof.
  split.
  - intros r k e ttl e' [= He]. apply (inj Some). rewrite <-He.
    apply (lookup_insert_eq (r : gmap string analysisCacheEntry)).
  - intros r k e ttl k' e' Hk [= He]. cbn. f_equal. rewrite <-He. symmetry.
    by apply (lookup_insert_ne (r : gmap string analysisCacheEntry)).
Qed.
(** The configuration changes at moment 8, during the first request. *)
#[local] Instance docs_env : AssessEnv docs := {|
  interfere n r := if n =? 4 then ∅ else r;
  config_revision_at n := if n <? 8 then "A" else "B";
  lexical_at n d := if n <? 8
    then mkResult d VerdictSuspicious (confidence_of 50) 50 ["config A"] "uncategorized"
    else mkResult d VerdictSuspicious (confidence_of 60) 60 ["config B"] "uncategorized";
  brands_at _ := []; unix_at _ := 9%Z; stamp_at _ := "now"; micros_at _ := 5%Z;
  ai_at n r := Some (Ok (mkResult (RDomain r) VerdictMalicious f_one 85 ["ai"] ""));
  osint_cached_at _ _ := None; osint_lookup_at _ _ _ := no_report;
  signals_at _ _ := mkSignals DNSOutcomeOK (no_tls []) (mkWhois 5 []);
  done_at _ := false; watch_conflict n := n =? 100
|}.
Definition ex_cfg : AssessConfig :=
  mkAssessConfig true "feed" "feed:revision" MLModeShadow (mkCanary 0 "") 1 2 3 true true 16.
Definition ex_tel : mlTelemetry :=
  mkMLTelemetry 0 0 0 0 0 0 0 0 0 0 (replicate 9 0%Z) (replicate 10 0%Z) 0 0 0 0 0.
Definition ex_world : World docs := mkWorld ∅ 0 [].
Definition ex_start : Assessor docs := mkAssessor ex_world (mkFeedEngine 0 0 0) ex_tel ∅ [] [].
Definition ask (s : Assessor docs) : Assessor docs * (Result * bool * list OSINTEvidence * Assessment) :=
  analyze ex_cfg "a.example" osintLookupCachedOnly false s.

(** The first answer is of configuration B, filed under A, and never served under B. *)
Example filed_under_old :
  let s1 := (ask ex_start).1 in
  (Reasons (ask ex_start).2.1.1.1, Reasons (ask s1).2.1.1.1, (ask s1).2.1.1.2,
   (ask (ask s1).1).2.1.1.2) = (["config B"; "ai"], ["config B"; "ai"], false, true).
Proof. vm_compute. reflexivity. Qed.

Lemma empty_coherent n : Coherent ex_cfg n (∅ : docs).
Proof. intros d m e _ He. change (Ok (None : option analysisCacheEntry) = Ok (Some e)) in He. done. Qed.
Lemma docs_others n (r : docs) : Coherent ex_cfg n r → Coherent ex_cfg n (interfere n r).
Proof. intros Hr. cbn. destruct (n =? 4); [apply empty_coherent|done]. Qed.
Lemma ex_requested : rtc (sstep ex_cfg) (ex_start, []) ((ask ex_start).1, []).
Proof. apply rtc_once. apply (s_request ex_cfg "a.example" osintLookupCachedOnly false ex_start []). Qed.

(** A name of 50 points is taken up and becomes free again. *)
Definition quiet_cfg : AssessConfig :=
  mkAssessConfig true "feed" "feed:revision" MLModeShadow (mkCanary 0 "") 1 2 3 true true 1.
Definition ex_job : enrichmentJob :=
  mkJob "a.example" (mkResult "a.example" VerdictSuspicious (confidence_of 50) 50 ["config A"] "") "7" "7"
    "A" (modelRevision quiet_cfg) "now".
Definition one_job : Assessor docs := enqueueEnrichment quiet_cfg ex_job ex_start.
Example barred_then_free :
  (enrichQueue (enqueueEnrichment quiet_cfg ex_job one_job) = [ex_job])
  ∧ match worker_take one_job with
    | Some (job, s) => inFlight (worker_finish quiet_cfg job s) = ∅
        ∧ enrichQueue (enqueueEnrichment quiet_cfg ex_job s) = []
    | None => False
    end.
Proof. split; [vm_compute; reflexivity|]. split; vm_compute; reflexivity. Qed.
Lemma enrichment_single_flight_witness :
  let x : system := ((ask ex_start).1, []) in
  single_flight ex_cfg x ∧ (∀ y, worker_step ex_cfg x y → load y < load x)
  ∧ ((∀ y, ¬ worker_step ex_cfg x y) ↔ inFlight x.1 = ∅).
Proof.
  apply (enrichment_single_flight ex_cfg ex_world (mkFeedEngine 0 0 0) ex_tel ((ask ex_start).1, [])).
  apply ex_requested.
Defined.

Lemma escalation_justified_witness :
  let epoch := mkEpoch analysisAlgorithmRevision "A" "" "7" true "7" true in
  let '(_, (r1, _)) := assess_evidence ex_cfg "a.example" ex_start in
  let '(s', (r, _, _, _)) := assess_fresh ex_cfg "a.example" epoch osintLookupCachedOnly false ex_start in
  extends r1 r
  ∧ (RVerdict r = RVerdict r1
     ∨ RVerdict r = VerdictMalicious
       ∧ (model_escalates ex_cfg r1 ∨ ai_escalates (R := docs) r1
          ∨ ∃ report, warned (R := docs) "a.example" osintLookupCachedOnly false report))
  ∧ (osintLookupCachedOnly ≠ osintLookupOnDemand → evidence_log s' = evidence_log ex_start).
Proof.
  apply escalation_justified. intros n r ai [= <-] _. cbn. lia.
Defined.

(** The worker finds its entry in place, older than the job. *)
Example worker_writes :
  let w := mkWorld {[analysisCacheKey "a.example" (modelRevision quiet_cfg) :=
    mkCacheEntry (JobResult ex_job) "7" "7" analysisAlgorithmRevision "A" (modelRevision quiet_cfg) "" "" ""]}
    5 [] in
  match server (processEnrichmentJob quiet_cfg ex_job w)
          !! analysisCacheKey "a.example" (modelRevision quiet_cfg) with
  | Some e => (Score (EntryResult e), EnrichedAt e) = (55%Z, "now")
  | None => False
  end.
Proof. vm_compute. reflexivity. Qed.
(** An entry written by an assessment carries no mark, so it is replaced however much
    later than the job it was assessed. *)
Example unmarked_replaced :
  cas_approves (Some 1%Z) (Ok (Some (mkCacheEntry (JobResult ex_job) "8" "8"
    analysisAlgorithmRevision "A" "" "" "" ""))) = Ok true.
Proof. vm_compute. reflexivity. Qed.
End Examples.

(** A configuration that comes back: A, then B during the first request, then A again.
    The first answer is of B and filed under A; once A is back it is served from the
    cache, until the entry expires. *)
Module ComesBack.
Import Examples.
#[local] Existing Instances FeedSpec.Examples.ex_tables FeedSpec.Examples.ex_services FeedSpec.Examples.ex_feed_libs.
#[local] Existing Instances ex_runes ex_time ex_classifier docs_server docs_io docs_cache.
Definition first_in_force (n : nat) : bool := (n <? 8) || (14 <? n).
#[local] Instance back_env : AssessEnv docs := {|
  interfere n r := r;
  config_revision_at n := if first_in_force n then "A" else "B";
  lexical_at n d := if first_in_force n
    then mkResult d VerdictSuspicious (confidence_of 50) 50 ["config A"] "uncategorized"
    else mkResult d VerdictSuspicious (confidence_of 60) 60 ["config B"] "uncategorized";
  brands_at _ := []; unix_at _ := 9%Z; stamp_at _ := "now"; micros_at _ := 5%Z;
  ai_at n r := Some (Ok (mkResult (RDomain r) VerdictMalicious f_one 85 ["ai"] ""));
  osint_cached_at _ _ := None; osint_lookup_at _ _ _ := no_report;
  signals_at _ _ := mkSignals DNSOutcomeOK (no_tls []) (mkWhois 5 []);
  done_at _ := false; watch_conflict _ := false
|}.
Definition asked (s : Assessor docs) : Assessor docs * (Result * bool * list OSINTEvidence * Assessment) :=
  analyze ex_cfg "a.example" osintLookupCachedOnly false s.
Example served_after_return :
  let s1 := (asked ex_start).1 in
  (first_in_force (tick (world s1)), Reasons (asked s1).2.1.1.1, (asked s1).2.1.1.2) = (true, ["config B"; "ai"], true).
Proof. vm_compute. reflexivity. Qed.
End ComesBack.
