(* ===== verification/NetGuard.v ===== *)
(** * Outbound address guard: [internal/netguard/http.go]

    Which addresses a fetch may connect to, the guarded dialer and the redirect
    policies.  Resolver replies and parsed URLs are inputs; the address predicates of
    Go's [net] package are translated from its documentation of ranges. *)

From Stdlib Require Import ZArith Lia Ascii String.
From S2P Require Import Prelude GoStr NetIP.

Definition ErrBlockedAddress (host : string) : string := "blocked private or local address: " ++ host.

(** ** Predicates of package [net] *)

Definition byte_at (ip : IP) (i : nat) : Z := nth i ip 0%Z.
Definition ip_test (v4 : IP → bool) (v6 : IP → bool) (ip : IP) : bool :=
  match To4 ip with Some q => v4 q | None => Nat.eqb (length ip) 16 && v6 ip end.
Definition IPv6loopback : IP := (replicate 15 0%Z ++ [1%Z])%list.
Definition IsUnspecified : IP → bool :=
  ip_test (λ q, bool_decide (q = [0; 0; 0; 0]%Z)) (λ ip, bool_decide (ip = IPv6zero)).
Definition IsLoopback : IP → bool :=
  ip_test (λ q, byte_at q 0 =? 127)%Z (λ ip, bool_decide (ip = IPv6loopback)).
Definition IsPrivate : IP → bool :=
  ip_test (λ q, (byte_at q 0 =? 10) || ((byte_at q 0 =? 172) && (Z.land (byte_at q 1) 240 =? 16))
                || ((byte_at q 0 =? 192) && (byte_at q 1 =? 168)))%Z
    (λ ip, Z.land (byte_at ip 0) 254 =? 252)%Z.
Definition IsMulticast : IP → bool :=
  ip_test (λ q, Z.land (byte_at q 0) 240 =? 224)%Z (λ ip, byte_at ip 0 =? 255)%Z.
Definition IsLinkLocalMulticast : IP → bool :=
  ip_test (λ q, (byte_at q 0 =? 224) && (byte_at q 1 =? 0) && (byte_at q 2 =? 0))%Z
    (λ ip, (byte_at ip 0 =? 255) && (Z.land (byte_at ip 1) 15 =? 2))%Z.
Definition IsLinkLocalUnicast : IP → bool :=
  ip_test (λ q, (byte_at q 0 =? 169) && (byte_at q 1 =? 254))%Z
    (λ ip, (byte_at ip 0 =? 254) && (Z.land (byte_at ip 1) 192 =? 128))%Z.

(** ** The rule *)

(** A malformed literal panics in the source; the lists hold none
    ([NetGuardSpec.literals_parse]). *)
Definition mustParseCIDRs (cidrs : list string) : list IPNet :=
  omap (λ cidr, snd <$> ParseCIDR cidr) cidrs.
Definition nonRoutableV4 : list string := ["0.0.0.0/8"; "192.0.0.0/24"; "198.18.0.0/15"; "240.0.0.0/4"].
Definition nonRoutableV6 : list string := ["::/96"; "64:ff9b::/96"; "2001::/32"; "2002::/16"].

Definition IsCGNAT (ip : IP) : bool :=
  match To4 ip with
  | Some q => (byte_at q 0 =? 100) && (64 <=? byte_at q 1) && (byte_at q 1 <=? 127)
  | None => false
  end%Z.
(** A nil address is the empty list. *)
Definition IsBlockedIP (ip : IP) : bool :=
  match ip with
  | [] => true
  | _ =>
      if IsLoopback ip || IsPrivate ip || IsLinkLocalUnicast ip || IsLinkLocalMulticast ip
         || IsMulticast ip || IsUnspecified ip || IsCGNAT ip then true
      else match To4 ip with
           | Some q => existsb (λ n, NetContains n q) (mustParseCIDRs nonRoutableV4)
           | None => existsb (λ n, NetContains n ip) (mustParseCIDRs nonRoutableV6)
           end
  end.

(** ** Hosts and URLs *)

(** What the checks read of a parsed URL. *)
Record OutURL := mkOutURL { UScheme : string; UHostname : string }.

Section Guard.
Context `{UnicodeTables}.

Definition bracket (c : ascii) : bool := Ascii.eqb c "[" || Ascii.eqb c "]".
Definition normalizeHost (host : string) : string :=
  trim_right bracket (trim_left bracket (TrimSuffix (TrimSpace (ToLower host)) ".")).
Definition isLocalHostname (host : string) : bool :=
  String.eqb host "localhost" || HasSuffix host ".localhost".

Definition ValidateParsedURL (u : option OutURL) (allowPrivate : bool) : option string :=
  match u with
  | None => Some "missing url"
  | Some u =>
      if negb (String.eqb (UScheme u) "http") && negb (String.eqb (UScheme u) "https")
      then Some ("unsupported url scheme " ++ UScheme u)
      else
        let host := normalizeHost (UHostname u) in
        if String.eqb host "" then Some "missing url host"
        else if allowPrivate then None
        else if isLocalHostname host then Some (ErrBlockedAddress host)
        else match ParseIP host with
             | Some ip => if IsBlockedIP ip then Some (ErrBlockedAddress host) else None
             | None => None
             end
  end.
(** [parse] is [url.Parse] *)
Definition ValidateURL (parse : string → result OutURL) (raw : string) (allowPrivate : bool)
    : result OutURL :=
  match parse (TrimSpace raw) with
  | Err e => Err ("parse url: " ++ e)
  | Ok u => match ValidateParsedURL (Some u) allowPrivate with Some e => Err e | None => Ok u end
  end.

(** [lookup]: the resolver's reply about the normalised host *)
Definition ResolveAllowedIPs (lookup : string → result (list IP)) (host : string) (allowPrivate : bool)
    : result (list IP) :=
  let host := normalizeHost host in
  if String.eqb host "" then Err "missing host"
  else match ParseIP host with
  | Some ip => if negb allowPrivate && IsBlockedIP ip then Err (ErrBlockedAddress host) else Ok [ip]
  | None =>
      if negb allowPrivate && isLocalHostname host then Err (ErrBlockedAddress host)
      else match lookup host with
      | Err e => Err ("resolve host " ++ host ++ ": " ++ e)
      | Ok [] => Err ("resolve host " ++ host ++ ": no addresses")
      | Ok ips => if negb allowPrivate && existsb IsBlockedIP ips then Err (ErrBlockedAddress host)
                  else Ok ips
      end
  end.

(** ** Dialing *)

Definition JoinHostPort (host port : string) : string :=
  if contains_byte ":" host || contains_byte "%" host then "[" ++ host ++ "]:" ++ port
  else host ++ ":" ++ port.
(** The [DialContext] of [GuardedTransport]: what the base dialer is asked for. *)
Definition guarded_dial (lookup : string → result (list IP)) (allowPrivate : bool) (address : string)
    : result string :=
  match SplitHostPort address with
  | None => Err ("split host port " ++ address)
  | Some (host, port) =>
      match ResolveAllowedIPs lookup host allowPrivate with
      | Err e => Err e
      | Ok [] => Err "index out of range"
      | Ok (ip :: _) => Ok (JoinHostPort (IPString ip) port)
      end
  end.

(** ** Redirects *)

Definition RedirectPolicy (lookup : string → result (list IP)) (allowPrivate : bool) (u : OutURL)
    (via : nat) : option string :=
  if Nat.leb 10 via then Some "stopped after 10 redirects"
  else match ValidateParsedURL (Some u) allowPrivate with
  | Some e => Some ("blocked redirect: " ++ e)
  | None => match ResolveAllowedIPs lookup (UHostname u) allowPrivate with
            | Err e => Some ("blocked redirect: " ++ e)
            | Ok _ => None
            end
  end.
Definition CheckRedirect (lookup : string → result (list IP)) : OutURL → nat → option string :=
  RedirectPolicy lookup false.
Definition RedirectPolicyHTTPS (lookup : string → result (list IP)) (allowPrivate : bool) (u : OutURL)
    (via : nat) : option string :=
  if negb (EqualFold (UScheme u) "https")
  then Some "blocked redirect: https-only fetch must not downgrade"
  else RedirectPolicy lookup allowPrivate u via.

(** ** Proxies *)

(** The proxy a guarded transport keeps, [proxyBypassWarned], and whether it warns. *)
Definition guardedProxy {P : Type} (opted_in : bool) (inherited : option P) (fromEnvironment : P)
    (warned : bool) : option P * bool * bool :=
  if negb opted_in then (None, false, false)
  else (Some (default fromEnvironment inherited), true, negb warned).

(** ** A fetch *)

(** One request of a fetch: its URL, the address the transport dials for it, and the
    resolver's replies at the redirect check and at the dial. *)
Record Hop := mkHop {
  HopURL : OutURL; HopAddress : string;
  at_check : string → result (list IP); at_dial : string → result (list IP)
}.
Inductive RedirectKind := KindCheckRedirect | KindRedirect (allowPrivate : bool) | KindHTTPS (allowPrivate : bool).
Definition redirect_check (p : RedirectKind) (h : Hop) (via : nat) : option string :=
  match p with
  | KindCheckRedirect => CheckRedirect (at_check h) (HopURL h) via
  | KindRedirect allow => RedirectPolicy (at_check h) allow (HopURL h) via
  | KindHTTPS allow => RedirectPolicyHTTPS (at_check h) allow (HopURL h) via
  end.
(** [http.Client] over a guarded transport follows the redirects [hops]: the
    addresses it connected to, in order, until an error or the last response.  [proxy]
    is the address of the proxy the transport kept. *)
Fixpoint follow (p : RedirectKind) (allowPrivate : bool) (proxy : option string) (via : nat) (hops : list Hop)
    : list (Hop * string) :=
  match hops with
  | [] => []
  | h :: hops =>
      match (if Nat.eqb via 0 then None else redirect_check p h via) with
      | Some _ => []
      | None =>
          match guarded_dial (at_dial h) allowPrivate (default (HopAddress h) proxy) with
          | Err _ => []
          | Ok a => (h, a) :: follow p allowPrivate proxy (S via) hops
          end
      end
  end.
End Guard.
