(* ===== verification/NetGuardSpec.v ===== *)
(** * Properties of the outbound address guard

    The blocked addresses are exactly a table of ranges, in whichever form an address
    is written; whatever names resolve to, and however often they are resolved, a
    guarded fetch connects to public addresses only. *)

From Stdlib Require Import ZArith Lia ZifyBool Ascii String.
From S2P Require Import Prelude GoStr NetIP NetGuard.

(** ** Bytes *)

Definition byte (b : Z) : Prop := (0 <= b < 256)%Z.
Lemma byte_cases (P : Z → bool) :
  forallb P (Z.of_nat <$> seq 0 256) = true → ∀ b, byte b → P b = true.
Proof.
  intros Hall b Hb. rewrite forallb_forall in Hall. apply Hall, list_elem_of_In.
  apply list_elem_of_fmap. exists (Z.to_nat b). unfold byte in Hb. split; [lia|].
  apply elem_of_seq. lia.
Qed.
(** Masking a byte as a test of ranges. *)
Lemma mask_range m v lo hi :
  forallb (λ b, eqb (Z.land b m =? v) ((lo <=? b) && (b <=? hi)))%Z (Z.of_nat <$> seq 0 256) = true →
  ∀ b, byte b → (Z.land b m =? v)%Z = ((lo <=? b) && (b <=? hi))%Z.
Proof. intros Hall b Hb. by apply eqb_prop, (byte_cases _ Hall). Qed.
Definition mask_240_224 := mask_range 240 224 224 239 eq_refl.
Definition mask_240_16 := mask_range 240 16 16 31 eq_refl.
Definition mask_240_240 := mask_range 240 240 240 255 eq_refl.
Definition mask_254_252 := mask_range 254 252 252 253 eq_refl.
Definition mask_254_18 := mask_range 254 18 18 19 eq_refl.
Definition mask_192_128 := mask_range 192 128 128 191 eq_refl.
Lemma land_255 b : byte b → Z.land b 255 = b.
Proof. intros Hb. change 255%Z with (Z.ones 8). rewrite Z.land_ones by lia. apply Z.mod_small. unfold byte in Hb. lia. Qed.

(** ** The table *)

Definition v4_value (q : IP) : Z := fold_left (λ acc b, acc * 256 + b)%Z q 0%Z.
Definition quad (a b c d : Z) : Z := v4_value [a; b; c; d].
(** First and last address of each range: this network, 10/8, shared (CGNAT),
    loopback, link-local, 172.16/12, IETF protocols, 192.168/16, benchmarking,
    multicast, reserved and broadcast. *)
Definition special_v4 : list (Z * Z) := [
  (quad 0 0 0 0, quad 0 255 255 255); (quad 10 0 0 0, quad 10 255 255 255);
  (quad 100 64 0 0, quad 100 127 255 255); (quad 127 0 0 0, quad 127 255 255 255);
  (quad 169 254 0 0, quad 169 254 255 255); (quad 172 16 0 0, quad 172 31 255 255);
  (quad 192 0 0 0, quad 192 0 0 255); (quad 192 168 0 0, quad 192 168 255 255);
  (quad 198 18 0 0, quad 198 19 255 255); (quad 224 0 0 0, quad 239 255 255 255);
  (quad 240 0 0 0, quad 255 255 255 255)].
Definition is_special_v4 (q : IP) : bool :=
  existsb (λ r, (r.1 <=? v4_value q) && (v4_value q <=? r.2))%Z special_v4.
(** Loopback, unspecified and IPv4-compatible; NAT64; Teredo; 6to4; unique-local;
    link-local; multicast. *)
Definition is_special_v6 (ip : IP) : bool :=
  bool_decide (take 12 ip = replicate 12 0%Z)
  || bool_decide (take 12 ip = [0; 100; 255; 155; 0; 0; 0; 0; 0; 0; 0; 0]%Z)
  || bool_decide (take 4 ip = [32; 1; 0; 0]%Z) || bool_decide (take 2 ip = [32; 2]%Z)
  || ((252 <=? byte_at ip 0) && (byte_at ip 0 <=? 253))%Z
  || ((byte_at ip 0 =? 254) && ((128 <=? byte_at ip 1) && (byte_at ip 1 <=? 191)))%Z
  || (byte_at ip 0 =? 255)%Z.
(** An IPv4 address and its mapped form are one address. *)
Definition special (ip : IP) : bool :=
  match To4 ip with Some q => is_special_v4 q | None => is_special_v6 ip end.

Definition address (ip : IP) : Prop := (length ip = 4 ∨ length ip = 16) ∧ Forall byte ip.

Lemma nets_v4 : mustParseCIDRs nonRoutableV4 = [
  mkNet [0; 0; 0; 0]%Z [255; 0; 0; 0]%Z; mkNet [192; 0; 0; 0]%Z [255; 255; 255; 0]%Z;
  mkNet [198; 18; 0; 0]%Z [255; 254; 0; 0]%Z; mkNet [240; 0; 0; 0]%Z [240; 0; 0; 0]%Z].
Proof. vm_compute. reflexivity. Qed.
Definition zeros (n : nat) : list Z := replicate n 0%Z.
Definition ones (n : nat) : list Z := replicate n 255%Z.
Lemma nets_v6 : mustParseCIDRs nonRoutableV6 = [
  mkNet (zeros 16) (ones 12 ++ zeros 4)%list; mkNet ([0; 100; 255; 155]%Z ++ zeros 12)%list (ones 12 ++ zeros 4)%list;
  mkNet ([32; 1]%Z ++ zeros 14)%list (ones 4 ++ zeros 12)%list; mkNet ([32; 2]%Z ++ zeros 14)%list (ones 2 ++ zeros 14)%list].
Proof. vm_compute. reflexivity. Qed.

Lemma quad_decide (l l' : list Z) (b : bool) : (l = l' ↔ b = true) → bool_decide (l = l') = b.
Proof. intros Hb. apply eq_true_iff_eq. by rewrite bool_decide_eq_true. Qed.
Lemma list4_eq (a b c d a' b' c' d' : Z) :
  bool_decide ([a; b; c; d] = [a'; b'; c'; d']) = ((a =? a') && (b =? b') && (c =? c') && (d =? d'))%Z.
Proof.
  apply quad_decide. rewrite !andb_true_iff, !Z.eqb_eq. split; [by intros [= -> -> -> ->]|].
  by intros [[[-> ->] ->] ->].
Qed.

Lemma contains_v4 p1 p2 p3 p4 m1 m2 m3 m4 a b c d :
  NetContains (mkNet [p1; p2; p3; p4]%Z [m1; m2; m3; m4]%Z) [a; b; c; d]%Z =
  ((Z.land p1 m1 =? Z.land a m1) && (Z.land p2 m2 =? Z.land b m2)
   && (Z.land p3 m3 =? Z.land c m3) && (Z.land p4 m4 =? Z.land d m4))%Z.
Proof. unfold NetContains, and_bytes. cbn -[Z.land Z.eqb bool_decide]. by rewrite list4_eq. Qed.
Ltac bool_props :=
  rewrite ?orb_true_iff, ?andb_true_iff, ?Z.leb_le, ?Z.eqb_eq.
(** A disjunct that holds. *)
Ltac pick := first [left; pick | right; pick | lia].
Lemma blocked_v4 q : length q = 4 → Forall byte q → IsBlockedIP q = is_special_v4 q.
Proof.
  destruct q as [|a [|b [|c [|d [|]]]]]; intros [=] Hb.
  repeat (apply Forall_cons in Hb as [? Hb]).
  unfold IsBlockedIP, IsLoopback, IsPrivate, IsLinkLocalUnicast, IsLinkLocalMulticast, IsMulticast,
    IsUnspecified, IsCGNAT, ip_test. rewrite nets_v4. unfold byte_at.
  cbn -[Z.land Z.leb Z.eqb bool_decide is_special_v4 NetContains].
  rewrite !contains_v4, list4_eq.
  rewrite ?(land_255 a), ?(land_255 b), ?(land_255 c), ?(land_255 d), ?Z.land_0_r by done.
  change (Z.land 0 255) with 0%Z. change (Z.land 192 255) with 192%Z. change (Z.land 198 255) with 198%Z.
  change (Z.land 18 254) with 18%Z. change (Z.land 240 240) with 240%Z.
  rewrite (Z.eqb_sym 18), (Z.eqb_sym 240), mask_240_224, mask_240_16, mask_254_18, mask_240_240 by done.
  unfold is_special_v4, special_v4, quad, v4_value. cbn [existsb fst snd fold_left]. unfold byte in *.
  match goal with |- (if ?x then true else ?y) = ?z => cut ((x || y) = z); [done|] end.
  apply eq_true_iff_eq. bool_props. split; intros Hc; destruct_or! Hc; try done; pick.
Qed.

Lemma and_prefix n k ip :
  length ip = n + k → Forall byte ip → and_bytes ip (ones n ++ zeros k)%list = (take n ip ++ zeros k)%list.
Proof.
  revert ip. induction n as [|n IH]; intros ip Hl Hb; unfold ones, zeros in *; cbn.
  - rewrite take_0. cbn. revert ip Hl Hb. induction k as [|k IHk]; intros [|b ip]; cbn; try lia; [done|].
    intros [= Hl] [_ Hb]%Forall_cons. rewrite Z.land_0_r. f_equal. by apply IHk.
  - destruct ip as [|b ip]; [cbn in Hl; lia|]. apply Forall_cons in Hb as [Hbb Hb]. cbn in Hl. cbn.
    rewrite land_255 by done. f_equal. apply IH; [lia|done].
Qed.
Lemma contains_v6 n k p ip :
  n + k = 16 → length p = 16 → length ip = 16 → Forall byte p → Forall byte ip →
  To4 p = None → To4 ip = None →
  NetContains (mkNet p (ones n ++ zeros k)%list) ip = bool_decide (take n ip = take n p).
Proof.
  intros Hnk Hp Hi Hbp Hbi H4p H4i. unfold NetContains, networkNumberAndMask. cbn [NetAddr NetMask].
  rewrite H4p, H4i, Hp, length_app. unfold ones, zeros. rewrite !length_replicate, Hnk. cbn [Nat.eqb andb default].
  rewrite Hi, Hp. cbn [Nat.eqb]. fold (ones n) (zeros k). rewrite !and_prefix by (done || lia).
  apply bool_decide_ext. split; [intros He; by apply app_inj_2 in He as [? _]|by intros ->].
Qed.
Lemma blocked_v6 ip : length ip = 16 → Forall byte ip → To4 ip = None → IsBlockedIP ip = is_special_v6 ip.
Proof.
  intros Hl Hb H4. destruct ip as [|x [|y r]]; [done..|].
  pose proof Hb as [Hx [Hy _]%Forall_cons]%Forall_cons. unfold IsBlockedIP.
  remember (x :: y :: r) as q eqn:Eq.
  unfold IsLoopback, IsPrivate, IsLinkLocalUnicast, IsLinkLocalMulticast, IsMulticast, IsUnspecified,
    IsCGNAT, ip_test. rewrite H4, Hl, nets_v6. cbn [Nat.eqb andb existsb].
  rewrite !contains_v6 by (try done; repeat constructor; unfold byte; lia).
  unfold is_special_v6. replace (byte_at q 0) with x by by rewrite Eq.
  replace (byte_at q 1) with y by by rewrite Eq.
  rewrite mask_254_252, mask_192_128 by done. clear Eq H4 Hl Hb.
  match goal with |- (if ?x then true else ?y) = ?z => cut ((x || y) = z); [done|] end.
  change (take 12 (zeros 16)) with (replicate 12 0%Z).
  change (take 12 ([0; 100; 255; 155]%Z ++ zeros 12)%list) with [0; 100; 255; 155; 0; 0; 0; 0; 0; 0; 0; 0]%Z.
  change (take 4 ([32; 1]%Z ++ zeros 14)%list) with [32; 1; 0; 0]%Z.
  change (take 2 ([32; 2]%Z ++ zeros 14)%list) with [32; 2]%Z.
  apply eq_true_iff_eq. rewrite !orb_true_iff, !andb_true_iff, !bool_decide_eq_true, !Z.leb_le, !Z.eqb_eq.
  split; intros Hc; destruct_or! Hc; try done; try (subst q; do 6 left; done); tauto.
Qed.

Lemma to4_shape ip q : To4 ip = Some q → length ip = 4 ∧ q = ip ∨ ip = (v4InV6Prefix ++ q)%list ∧ length ip = 16.
Proof.
  unfold To4. destruct (Nat.eqb_spec (length ip) 4); [intros [= <-]; by left|].
  destruct (Nat.eqb_spec (length ip) 16) as [Hl|]; [|done]. case_bool_decide as Ht; [|done].
  intros [= <-]. right. split; [|done]. rewrite <-Ht. by rewrite take_drop.
Qed.
Lemma blocked_mapped q : length q = 4 → IsBlockedIP (v4InV6Prefix ++ q)%list = IsBlockedIP q.
Proof. by destruct q as [|a [|b [|c [|d [|]]]]]. Qed.

(** An address is refused exactly when it lies in one of the special ranges: an
    IPv4 address, also in its mapped form, by its number in the table of this-network,
    private, shared, loopback, link-local, protocol, benchmarking, multicast and
    reserved ranges; an IPv6 address when it is loopback, unspecified, unique-local,
    link-local or multicast, or wraps an IPv4 address (compatible, NAT64, Teredo, 6to4). *)
Theorem blocked_exact ip : address ip → IsBlockedIP ip = special ip.
Proof.
  intros [Hl Hb]. unfold special. destruct (To4 ip) as [q|] eqn:E.
  - apply to4_shape in E as [[Hl4 ->]|[-> Hl16]]; [by apply blocked_v4|].
    rewrite length_app in Hl16. cbn in Hl16. apply Forall_app in Hb as [_ Hb].
    rewrite blocked_mapped by lia. apply blocked_v4; [lia|done].
  - destruct Hl as [Hl|Hl]; [|by apply blocked_v6]. unfold To4 in E. by rewrite Hl in E.
Qed.

(** ** Connections *)

Section Guard.
Context `{UnicodeTables}.

Lemma resolve_public lookup host ips :
  ResolveAllowedIPs lookup host false = Ok ips →
  ips ≠ [] ∧ Forall (λ ip, IsBlockedIP ip = false) ips
  ∧ match ParseIP (normalizeHost host) with
    | Some ip => ips = [ip] | None => lookup (normalizeHost host) = Ok ips
    end.
Proof.
  unfold ResolveAllowedIPs. cbv zeta. destruct (String.eqb _ ""); [done|].
  destruct (ParseIP _) as [ip|].
  - destruct (IsBlockedIP ip) eqn:Hb; [done|]. intros [= <-]. split_and!; [done| |done].
    by apply Forall_singleton.
  - destruct (isLocalHostname _); [done|]. destruct (lookup _) as [[|ip ips']|]; [done| |done].
    cbn [negb andb]. destruct (existsb IsBlockedIP (ip :: ips')) eqn:Hb; [done|]. intros [= <-].
    split_and!; [done| |done]. apply Forall_forall. intros a Ha.
    destruct (IsBlockedIP a) eqn:E; [|done]. rewrite <-Hb. symmetry. apply existsb_exists.
    exists a. by rewrite <-list_elem_of_In.
Qed.
(** The address a guarded transport connects to is the text of an address it checked. *)
Definition public (a : string) : Prop :=
  ∃ ip port, a = JoinHostPort (IPString ip) port ∧ IsBlockedIP ip = false.
Lemma dial_public lookup address a : guarded_dial lookup false address = Ok a → public a.
Proof.
  unfold guarded_dial. destruct (SplitHostPort address) as [[host port]|]; [|done].
  destruct (ResolveAllowedIPs lookup host false) as [ips|] eqn:Hr; [|done].
  apply resolve_public in Hr as (Hne & Hall & _). destruct ips as [|ip ips]; [done|].
  apply Forall_cons in Hall as [Hip _]. intros [= <-]. by exists ip, port.
Qed.
Lemma validate_scheme u allow :
  ValidateParsedURL (Some u) allow = None → UScheme u = "http" ∨ UScheme u = "https".
Proof.
  unfold ValidateParsedURL. destruct (String.eqb_spec (UScheme u) "http"); [by left|].
  destruct (String.eqb_spec (UScheme u) "https"); [by right|done].
Qed.
Lemma redirect_accepts lookup allow u via :
  RedirectPolicy lookup allow u via = None →
  via < 10 ∧ (UScheme u = "http" ∨ UScheme u = "https")
  ∧ is_ok (ResolveAllowedIPs lookup (UHostname u) allow) = true.
Proof.
  unfold RedirectPolicy. destruct (Nat.leb_spec 10 via); [done|].
  destruct (ValidateParsedURL (Some u) allow) eqn:Hv; [done|]. apply validate_scheme in Hv.
  by destruct (ResolveAllowedIPs lookup (UHostname u) allow).
Qed.
Lemma redirect_check_accepts kind h via :
  redirect_check kind h via = None →
  via < 10 ∧ (UScheme (HopURL h) = "http" ∨ UScheme (HopURL h) = "https")
  ∧ (∀ allow, kind = KindHTTPS allow → EqualFold (UScheme (HopURL h)) "https" = true).
Proof.
  destruct kind as [|allow|allow]; unfold redirect_check, CheckRedirect, RedirectPolicyHTTPS.
  - by intros (? & ? & _)%redirect_accepts.
  - by intros (? & ? & _)%redirect_accepts.
  - destruct (EqualFold _ _) eqn:E; cbn [negb]; [|done]. by intros (? & ? & _)%redirect_accepts.
Qed.
Lemma follow_spec kind via hops :
  let conns := follow kind false None via hops in
  (∀ h a, (h, a) ∈ conns → public a) ∧ (fst <$> conns) `prefix_of` hops ∧ via + length conns ≤ Nat.max via 10
  ∧ (∀ i h a, conns !! i = Some (h, a) → via + i ≠ 0 → redirect_check kind h (via + i) = None).
Proof.
  revert via. induction hops as [|h hops IH]; intros via; cbv zeta in *; cbn [follow default].
  { split_and!; [by intros h a ?%not_elem_of_nil|done|cbn; lia|done]. }
  assert (∀ via, (∀ h a, (h, a) ∈ @nil (Hop * string) → public a)
    ∧ (fst <$> @nil (Hop * string)) `prefix_of` (h :: hops) ∧ via + length (@nil (Hop * string)) ≤ Nat.max via 10
    ∧ (∀ i h a, @nil (Hop * string) !! i = Some (h, a) → via + i ≠ 0 → redirect_check kind h (via + i) = None)) as Hnil.
  { intros v. split_and!; [by intros ? ? ?%not_elem_of_nil|apply prefix_nil|cbn; lia|done]. }
  assert (∀ x, (if Nat.eqb via 0 then None else redirect_check kind h via) = x → x = None →
    via ≠ 0 → redirect_check kind h via = None ∧ via < 10) as Hchk.
  { intros x <-. destruct (Nat.eqb_spec via 0); [done|]. intros Hc _. split; [done|].
    by apply redirect_check_accepts in Hc as [? _]. }
  specialize (Hchk _ eq_refl). destruct (if Nat.eqb via 0 then _ else _); [apply Hnil|]. specialize (Hchk eq_refl).
  destruct (guarded_dial (at_dial h) false (HopAddress h)) as [a|] eqn:Hd; [|apply Hnil].
  destruct (IH (S via)) as (Hp & Hpre & Hlen & Hr). split_and!.
  - intros h' a' [Heq|Hin]%elem_of_cons; [|by eapply Hp]. injection Heq as [= -> ->]. by eapply dial_public.
  - cbn. by apply prefix_cons.
  - cbn. destruct (decide (via = 0)); [lia|]. destruct Hchk; [done|]. lia.
  - intros [|i] h' a' Hi Hne; cbn in Hi.
    + injection Hi as [= -> ->]. rewrite Nat.add_0_r in *. by apply Hchk.
    + rewrite <-Nat.add_succ_comm. apply (Hr i h' a' Hi). lia.
Qed.

(** C22: without the opt-in to a proxy, and with private sources not allowed, a guarded
    fetch connects only to the texts of addresses it checked, for the first request
    and every redirect, whatever the resolver replies and however its replies change
    between the check and the dial; a redirect is followed only to http or https, an
    https-only fetch never leaves https, and ten requests are the most. *)
Theorem fetch_public kind hops inherited env warned :
  let proxy := (guardedProxy (P := string) false inherited env warned).1.1 in
  let conns := follow kind false proxy 0 hops in
  (∀ h a, (h, a) ∈ conns → public a)
  ∧ (fst <$> conns) `prefix_of` hops
  ∧ length conns ≤ 10
  ∧ (∀ i h a, conns !! S i = Some (h, a) → UScheme (HopURL h) = "http" ∨ UScheme (HopURL h) = "https")
  ∧ (∀ allow i h a, kind = KindHTTPS allow → conns !! S i = Some (h, a) →
     EqualFold (UScheme (HopURL h)) "https" = true).
Proof.
  cbv zeta. cbn [guardedProxy negb fst].
  destruct (follow_spec kind 0 hops) as (Hp & Hpre & Hlen & Hr). split; [done|]. split; [done|].
  split; [lia|]. split; intros; edestruct redirect_check_accepts as (_ & ? & ?); eauto.
Qed.
End Guard.

Module Examples.
#[local] Instance ex_tables : UnicodeTables := ascii_tables.
(** A name that resolves to a public address when the redirect is checked and to the
    metadata endpoint when it is dialed. *)
Definition public_reply : string → result (list IP) := λ _, Ok [[1; 1; 1; 1]%Z].
Definition rebound_reply : string → result (list IP) := λ _, Ok [[169; 254; 169; 254]%Z].
Definition hop (scheme host : string) (dial : string → result (list IP)) : Hop :=
  mkHop (mkOutURL scheme host) (host ++ ":443") public_reply dial.
Example rebinding_refused :
  (snd <$> follow KindCheckRedirect false None 0
    [hop "https" "feed.example" public_reply; hop "https" "cdn.example" public_reply;
     hop "https" "evil.example" rebound_reply]) = ["1.1.1.1:443"; "1.1.1.1:443"].
Proof. vm_compute. reflexivity. Qed.
(** Private sources allowed, nothing is refused, the metadata endpoint neither. *)
Example metadata_allowed :
  RedirectPolicy rebound_reply true (mkOutURL "http" "169.254.169.254") 1 = None
  ∧ guarded_dial rebound_reply true "metadata.internal:80" = Ok "169.254.169.254:80".
Proof. by vm_compute. Qed.
Example forms_of_loopback :
  (λ s, IsBlockedIP <$> ParseIP s) <$> ["127.0.0.1"; "::ffff:127.0.0.1"; "2002:7f00:1::1"; "64:ff9b::7f00:1";
    "::7f00:1"; "0.0.0.1"; "100.64.0.1"; "8.8.8.8"; "2606:4700:4700::1111"]
  = [Some true; Some true; Some true; Some true; Some true; Some true; Some true; Some false; Some false].
Proof. vm_compute. reflexivity. Qed.
Lemma blocked_exact_witness : IsBlockedIP [100; 64; 0; 1]%Z = special [100; 64; 0; 1]%Z.
Proof. apply blocked_exact. split; [by left|]. repeat constructor; unfold byte; lia. Defined.
End Examples.
