(* ===== verification/ConfigReload.v ===== *)
(** * Configuration reload: [internal/risk/config_reload.go]

    The analysis configuration, the allow list and the client mappings live in the
    store; a process learns of a change by a message or by polling, compares revisions
    and rebuilds.  Replies of the store and of Redis, decoded messages and the clock
    are inputs; logs are left out. *)

From Stdlib Require Import ZArith Lia Ascii String SpecFloat.
From S2P Require Import Prelude GoStr Hostname NetIP GoFloat ClientIP Whitelist Groups Brand Lexical Feed FeedSync DomainML.

Definition defaultAnalysisConfigReloadChannel : string := "safe-zone:config:analysis:updated".
Definition defaultAnalysisConfigReloadPollInterval : Z := 30 * 1000000000.
Definition analysisConfigReloadBackoffFloor : Z := 250 * 1000000.
Definition analysisConfigReloadBackoffCap : Z := 5 * 1000000000.
Definition analysisConfigReloadEventType : string := "analysis_config_updated".
Definition whitelistConfigReloadEventType : string := "whitelist_updated".
Definition clientMappingsReloadEventType : string := "client_mappings_updated".
Definition configReloadSourceStartup : string := "startup".
Definition configReloadSourceLocalWrite : string := "local_write".
Definition configReloadSourcePubSub : string := "pubsub".
Definition configReloadSourceReconcile : string := "reconcile".
Definition StoreDisabled : string := "store disabled".

Record analysisConfigReloadEvent := mkEvent {
  EventType : string; EventRevision : string; UpdatedAt : string; EventSource : string
}.

(** [encoding/json] on configurations and events. *)
Class ConfigJSON := {
  encode_config : AnalysisConfig → result string;
  decode_config : string → result AnalysisConfig;
  decode_event : string → result analysisConfigReloadEvent
}.

Definition configDuration (value fallback : Z) : Z := if (value <=? 0)%Z then fallback else value.

(** ** Delays *)

(** A [time.Duration] is a signed 64-bit count of nanoseconds. *)
Definition nextConfigReloadBackoff (current maxBackoff : Z) : Z :=
  if (current <=? 0)%Z then maxBackoff
  else
    let next := wrap64 (current * 2) in
    if (next <? current)%Z || (maxBackoff <? next)%Z then maxBackoff else next.

(** One turn of [runConfigReloadSubscriber]: subscribing failed, or the messages until
    the subscription closed. *)
Inductive attempt := SubscribeFailed | Consumed (messages : list string).
(** The delays waited after each turn; the loop ends when the process does. *)
Fixpoint subscriber_delays (floor maxBackoff backoff : Z) (attempts : list attempt) : list Z :=
  match attempts with
  | [] => []
  | SubscribeFailed :: attempts =>
      backoff :: subscriber_delays floor maxBackoff (nextConfigReloadBackoff backoff maxBackoff) attempts
  | Consumed _ :: attempts =>
      floor :: subscriber_delays floor maxBackoff (nextConfigReloadBackoff floor maxBackoff) attempts
  end.
Definition runConfigReloadSubscriber (backoffMin backoffMax : Z) (attempts : list attempt) : list Z :=
  let backoff := configDuration backoffMin analysisConfigReloadBackoffFloor in
  let maxBackoff := configDuration backoffMax analysisConfigReloadBackoffCap in
  let maxBackoff := if (maxBackoff <? backoff)%Z then backoff else maxBackoff in
  subscriber_delays backoff maxBackoff backoff attempts.

(** [strconv.ParseInt(s, 10, 64)] *)
Definition ParseInt64 (s : string) : option Z :=
  let '(neg, body) :=
    match s with
    | String c r => if Ascii.eqb c "-" then (true, r) else if Ascii.eqb c "+" then (false, r) else (false, s)
    | EmptyString => (false, s)
    end in
  if String.eqb body "" then None
  else
    let? v := dec_val body 0 in
    let v := if (neg : bool) then (- v)%Z else v in
    if (- 2 ^ 63 <=? v)%Z && (v <? 2 ^ 63)%Z then Some v else None.

(** ** A process *)

(** [analysisConfig] with the analyzer built from it, [configRevision], the last reload;
    the allow list and the CIDR index of the process. *)
Record ReloadNode := mkReloadNode {
  NConfig : AnalysisConfig; NRevision : string; LastReloadSource : string; LastReloadTime : Z;
  NWhitelist : option Whitelist; NCidr : DB
}.
Definition set_whitelist (w : Whitelist) (n : ReloadNode) : ReloadNode :=
  mkReloadNode (NConfig n) (NRevision n) (LastReloadSource n) (LastReloadTime n) (Some w) (NCidr n).
Definition set_cidr (db : DB) (n : ReloadNode) : ReloadNode :=
  mkReloadNode (NConfig n) (NRevision n) (LastReloadSource n) (LastReloadTime n) (NWhitelist n) db.

(** The options that decide which loops run. *)
Record ReloadOptions := mkReloadOptions {
  configReloadOn : bool; configReloadChan : string; configReloadPoll : Z; can_subscribe : bool;
  redisEnabled : bool; storeEnabled : bool; nodeRole : string
}.
Definition shouldRunConfigReloadSubscriber (o : ReloadOptions) : bool :=
  if negb (configReloadOn o) || String.eqb (configReloadChan o) "" || negb (can_subscribe o) then false
  else if negb (redisEnabled o) then false else storeEnabled o.
Definition shouldRunConfigReloadReconciler (o : ReloadOptions) : bool :=
  if negb (configReloadOn o) then false
  else if negb (storeEnabled o) then false
  else (0 <? configDuration (configReloadPoll o) defaultAnalysisConfigReloadPollInterval)%Z.

(** What the store answers during one reload, and the clock. *)
Record ReloadEnv := mkReloadEnv {
  config_reply : result string; whitelist_revision_reply : result Z; whitelist_reads : DBReads;
  mappings_revision_reply : result Z; at_check : Tables; at_revision : Tables; at_rows : Tables;
  reload_now : Z
}.

Section Reload.
Context `{UnicodeTables, HostServices, FeedLibs, FloatMath, StoreIO, SortSlice, ConfigJSON}.

Definition analysisConfigRevision (cfg : AnalysisConfig) : string :=
  hex_string (String.substring 0 8 (sha256_sum (match encode_config cfg with Ok s => s | Err _ => "" end))).
Definition applyAnalysisConfig (cfg : AnalysisConfig) (source : string) (now : Z) (n : ReloadNode) : ReloadNode :=
  mkReloadNode cfg (analysisConfigRevision cfg) source now (NWhitelist n) (NCidr n).

(** [store.GetAnalysisConfig] and [SetAnalysisConfig], on the value of the
    configuration table. *)
Definition GetAnalysisConfig (reply : result string) : result (option AnalysisConfig) :=
  match reply with
  | Err e => Err e
  | Ok value =>
      if String.eqb value "" then Ok None
      else match decode_config value with
      | Err e => Err ("decode analysis config: " ++ e)
      | Ok cfg => match Validate cfg with
                  | Some e => Err ("validate stored analysis config: " ++ e)
                  | None => Ok (Some cfg)
                  end
      end
  end.
Definition SetAnalysisConfig (cfg : AnalysisConfig) : result string :=
  match Validate cfg with
  | Some e => Err e
  | None => match encode_config cfg with Err e => Err ("encode analysis config: " ++ e) | Ok s => Ok s end
  end.

Definition reloadAnalysisConfigFromStore (o : ReloadOptions) (env : ReloadEnv) (source : string) (n : ReloadNode)
    : ReloadNode * result (string * string * bool) :=
  if negb (storeEnabled o) then (n, Err StoreDisabled)
  else match GetAnalysisConfig (config_reply env) with
  | Err e => (n, Err e)
  | Ok None => (n, Ok (NRevision n, NRevision n, false))
  | Ok (Some cfg) =>
      let nextRevision := analysisConfigRevision cfg in
      if String.eqb nextRevision (NRevision n) then (n, Ok (NRevision n, nextRevision, false))
      else
        let n' := applyAnalysisConfig cfg source (reload_now env) n in
        (n', Ok (NRevision n, NRevision n', true))
  end.

Definition reloadWhitelistFromStore (o : ReloadOptions) (env : ReloadEnv) (n : ReloadNode)
    : ReloadNode * result (Z * Z * bool) :=
  if negb (storeEnabled o) then (n, Err StoreDisabled)
  else match NWhitelist n with
  | None => (n, Err "whitelist is not configured")
  | Some w =>
      match whitelist_revision_reply env with
      | Err e => (n, Err e)
      | Ok revision =>
          let current := Whitelist.revision w in
          if (revision =? current)%Z then (n, Ok (current, revision, false))
          else match LoadFromDB (Some (whitelist_reads env)) w with
          | (w, Some e) => (set_whitelist w n, Err e)
          | (w, None) => (set_whitelist w n, Ok (current, Whitelist.revision w, true))
          end
      end
  end.

Definition reloadClientMappingsFromStore (o : ReloadOptions) (env : ReloadEnv) (n : ReloadNode)
    : ReloadNode * result (Z * Z * bool) :=
  if negb (storeEnabled o) then (n, Err StoreDisabled)
  else
    let current := cidrRevision (NCidr n) in
    match mappings_revision_reply env with
    | Err e => (n, Err e)
    | Ok revision =>
        if (revision =? current)%Z then (n, Ok (current, revision, false))
        else match ReconcileCIDRMappings (at_check env) (at_revision env) (at_rows env) (NCidr n) with
        | (db, Err e) => (set_cidr db n, Err e)
        | (db, Ok _) => (set_cidr db n, Ok (current, cidrRevision db, true))
        end
    end.

(** ** Messages *)

Definition handleAnalysisConfigReloadEvent (o : ReloadOptions) (env : ReloadEnv)
    (event : analysisConfigReloadEvent) (n : ReloadNode) : ReloadNode :=
  if String.eqb (EventRevision event) "" then n
  else if String.eqb (EventRevision event) (NRevision n) then n
  else (reloadAnalysisConfigFromStore o env configReloadSourcePubSub n).1.
Definition event_revision (event : analysisConfigReloadEvent) : option Z :=
  match ParseInt64 (TrimSpace (EventRevision event)) with
  | Some r => if (r <=? 0)%Z then None else Some r
  | None => None
  end.
Definition handleWhitelistConfigReloadEvent (o : ReloadOptions) (env : ReloadEnv)
    (event : analysisConfigReloadEvent) (n : ReloadNode) : ReloadNode :=
  match event_revision event with
  | None => n
  | Some revision =>
      let current := match NWhitelist n with Some w => Whitelist.revision w | None => 0%Z end in
      if (revision =? current)%Z then n else (reloadWhitelistFromStore o env n).1
  end.
Definition handleClientMappingsReloadEvent (o : ReloadOptions) (env : ReloadEnv)
    (event : analysisConfigReloadEvent) (n : ReloadNode) : ReloadNode :=
  match event_revision event with
  | None => n
  | Some revision =>
      if negb (storeEnabled o) then n
      else if (revision =? cidrRevision (NCidr n))%Z then n else (reloadClientMappingsFromStore o env n).1
  end.
Definition handleConfigReloadMessage (o : ReloadOptions) (env : ReloadEnv) (raw : string) (n : ReloadNode) : ReloadNode :=
  match decode_event raw with
  | Err _ => n
  | Ok event =>
      if String.eqb (EventType event) analysisConfigReloadEventType
      then handleAnalysisConfigReloadEvent o env event n
      else if String.eqb (EventType event) whitelistConfigReloadEventType
      then handleWhitelistConfigReloadEvent o env event n
      else if String.eqb (EventType event) clientMappingsReloadEventType
      then handleClientMappingsReloadEvent o env event n else n
  end.
(** The messages of one subscription, each with what the store answers meanwhile. *)
Definition consumeConfigReloadMessages (o : ReloadOptions) (messages : list (string * ReloadEnv)) (n : ReloadNode)
    : ReloadNode := foldl (λ n m, handleConfigReloadMessage o m.2 m.1 n) n messages.

(** A turn of [runConfigReloadReconciler]. *)
Definition reconcileAnalysisConfig (o : ReloadOptions) (env : ReloadEnv) (n : ReloadNode) : ReloadNode :=
  (reloadAnalysisConfigFromStore o env configReloadSourceReconcile n).1.
Definition reconcileWhitelist (o : ReloadOptions) (env : ReloadEnv) (n : ReloadNode) : ReloadNode :=
  (reloadWhitelistFromStore o env n).1.
Definition reconcileClientMappings (o : ReloadOptions) (env : ReloadEnv) (n : ReloadNode) : ReloadNode :=
  (reloadClientMappingsFromStore o env n).1.
Definition reconcile_turn (o : ReloadOptions) (env : ReloadEnv) (n : ReloadNode) : ReloadNode :=
  reconcileClientMappings o env (reconcileWhitelist o env (reconcileAnalysisConfig o env n)).

(** ** Writes *)

Definition reload_channel (o : ReloadOptions) : string :=
  if String.eqb (configReloadChan o) "" then defaultAnalysisConfigReloadChannel else configReloadChan o.
Definition event_source (o : ReloadOptions) : string :=
  if String.eqb (nodeRole o) "" then configReloadSourceLocalWrite else nodeRole o.
(** What is handed to [PublishJSON]; [None] when nothing is. *)
Definition publishAnalysisConfigReloadEvent (o : ReloadOptions) (revision stamp : string)
    : option (string * analysisConfigReloadEvent) :=
  if String.eqb revision "" then None
  else if negb (redisEnabled o) then None
  else Some (reload_channel o, mkEvent analysisConfigReloadEventType revision stamp (event_source o)).
(** [PublishWhitelistReload] and [PublishClientMappingsReload]: the message and whether
    it was published; [failure] is the error of the command. *)
Definition publish_revision (type : string) (o : ReloadOptions) (revision : Z) (stamp : string)
    (failure : option string) : option (string * analysisConfigReloadEvent) * result bool :=
  if (revision <=? 0)%Z then (None, Ok false)
  else if negb (redisEnabled o) then (None, Ok false)
  else (Some (reload_channel o, mkEvent type (dec_string revision) stamp (event_source o)),
        match failure with Some e => Err e | None => Ok true end).
Definition PublishWhitelistReload := publish_revision whitelistConfigReloadEventType.
Definition PublishClientMappingsReload := publish_revision clientMappingsReloadEventType.

(** [UpdateAnalysisConfig]: the process, the value written to the store, the message
    and the error; [write_error] is that of the statement. *)
Definition UpdateAnalysisConfig (o : ReloadOptions) (cfg : AnalysisConfig) (write_error : option string)
    (now : Z) (stamp : string) (n : ReloadNode)
    : ReloadNode * option string * option (string * analysisConfigReloadEvent) * option string :=
  match Validate cfg with
  | Some e => (n, None, None, Some e)
  | None =>
      if negb (storeEnabled o) then (n, None, None, Some StoreDisabled)
      else match SetAnalysisConfig cfg with
      | Err e => (n, None, None, Some e)
      | Ok value =>
          match write_error with
          | Some e => (n, None, None, Some e)
          | None =>
              let n := applyAnalysisConfig cfg configReloadSourceLocalWrite now n in
              (n, Some value, publishAnalysisConfigReloadEvent o (NRevision n) stamp, None)
          end
      end
  end.
Definition ResetAnalysisConfig (o : ReloadOptions) (write_error : option string) (now : Z) (stamp : string)
    (n : ReloadNode) : ReloadNode * option string * option (string * analysisConfigReloadEvent) * option string :=
  UpdateAnalysisConfig o DefaultAnalysisConfig write_error now stamp n.
End Reload.
