(* ===== verification/ConfigReloadSpec.v ===== *)
(** * Properties of configuration reload

    A process's revision is always the one of its configuration; however reads,
    comparisons, applications and writes of several processes interleave, one reload
    begun after the last write brings a process to the stored configuration; the
    delays between subscriptions double up to their bound and never overflow. *)

From Stdlib Require Import ZArith Lia Ascii String SpecFloat.
From S2P Require Import Prelude GoStr Hostname NetIP GoFloat ClientIP Whitelist Groups Brand Lexical Feed FeedSync FeedSpec DomainML ConfigReload.

(** ** Delays *)

Definition int64 (z : Z) : Prop := (- 2 ^ 63 <= z < 2 ^ 63)%Z.
Lemma wrap64_id z : int64 z → wrap64 z = z.
Proof. unfold int64, wrap64. intros. rewrite Z.mod_small; lia. Qed.
Lemma backoff_doubles current maxBackoff :
  (0 < current)%Z → int64 current → int64 maxBackoff → (current <= maxBackoff)%Z →
  nextConfigReloadBackoff current maxBackoff = Z.min (2 * current) maxBackoff.
Proof.
  intros Hc Hic Him Hle. unfold nextConfigReloadBackoff. destruct (Z.leb_spec current 0); [lia|].
  unfold int64 in *. destruct (Z.lt_ge_cases (current * 2) (2 ^ 63)) as [Hs|Hb].
  - rewrite wrap64_id by (unfold int64; lia). destruct (Z.ltb_spec (current * 2) current); [lia|].
    destruct (Z.ltb_spec maxBackoff (current * 2)); cbn; lia.
  - assert (wrap64 (current * 2) = current * 2 - 2 ^ 64)%Z as ->.
    { unfold wrap64. rewrite <-(Z.mod_unique_pos (current * 2 + 2 ^ 63) (2 ^ 64) 1 (current * 2 + 2 ^ 63 - 2 ^ 64)); lia. }
    destruct (Z.ltb_spec (current * 2 - 2 ^ 64) current); [|lia]. cbn. lia.
Qed.
Section Delays.
Context (floor maxBackoff : Z).
Context (Hfloor : (0 < floor)%Z) (Hmax : int64 maxBackoff) (Hle : (floor <= maxBackoff)%Z).

Lemma delays_bounded attempts backoff :
  (floor <= backoff <= maxBackoff)%Z →
  Forall (λ d, floor <= d <= maxBackoff)%Z (subscriber_delays floor maxBackoff backoff attempts).
Proof.
  assert (∀ b, floor <= b <= maxBackoff →
    floor <= nextConfigReloadBackoff b maxBackoff <= maxBackoff)%Z as Hnext.
  { intros b Hb. unfold int64 in *. rewrite backoff_doubles by (unfold int64; lia). lia. }
  revert backoff. induction attempts as [|[|ms] attempts IH]; intros b Hb; cbn; constructor;
    [done|by apply IH, Hnext|lia|apply IH, Hnext; lia].
Qed.
Lemma delays_double k backoff i attempts :
  (floor <= backoff <= maxBackoff)%Z → i < k →
  subscriber_delays floor maxBackoff backoff (replicate k SubscribeFailed ++ attempts)%list !! i
  = Some (Z.min (backoff * 2 ^ Z.of_nat i) maxBackoff).
Proof.
  unfold int64 in *. revert backoff i. induction k as [|k IH]; intros b i Hb Hi; [lia|].
  destruct i as [|i]; cbn [replicate app subscriber_delays lookup list_lookup].
  - f_equal. rewrite Z.pow_0_r. lia.
  - rewrite backoff_doubles by (unfold int64; lia). rewrite IH by lia. f_equal.
    replace (b * 2 ^ Z.of_nat (S i))%Z with (2 * b * 2 ^ Z.of_nat i)%Z
      by (rewrite Nat2Z.inj_succ, Z.pow_succ_r by lia; ring).
    destruct (Z.le_gt_cases (2 * b) maxBackoff).
    + by rewrite (Z.min_l (2 * b)).
    + rewrite (Z.min_r (2 * b)) by lia. pose proof (Z.pow_pos_nonneg 2 (Z.of_nat i) ltac:(lia) ltac:(lia)).
      rewrite !Z.min_r; nia.
Qed.
End Delays.

(** The delays of the subscriber lie between the floor and the bound, whatever
    happens; the [i]-th consecutive failure from the start waits the floor times [2^i],
    capped, and no delay overflows, for every configured pair of durations. *)
Theorem subscriber_backoff backoffMin backoffMax attempts :
  int64 backoffMin → int64 backoffMax →
  let floor := configDuration backoffMin analysisConfigReloadBackoffFloor in
  let top := Z.max floor (configDuration backoffMax analysisConfigReloadBackoffCap) in
  let delays := runConfigReloadSubscriber backoffMin backoffMax attempts in
  (0 < floor)%Z ∧ length delays = length attempts ∧ Forall (λ d, floor <= d <= top)%Z delays
  ∧ (∀ k i rest, attempts = (replicate k SubscribeFailed ++ rest)%list → i < k →
     delays !! i = Some (Z.min (floor * 2 ^ Z.of_nat i) top)).
Proof.
  intros Hmin Hmax floor top delays.
  assert (0 < floor)%Z as Hf.
  { unfold floor, configDuration. destruct (Z.leb_spec backoffMin 0); [done|lia]. }
  assert (delays = subscriber_delays floor top floor attempts) as Hd.
  { unfold delays, runConfigReloadSubscriber. fold floor. f_equal. unfold top.
    destruct (Z.ltb_spec (configDuration backoffMax analysisConfigReloadBackoffCap) floor); lia. }
  assert (int64 top) as Ht.
  { unfold top, floor, configDuration, analysisConfigReloadBackoffCap, analysisConfigReloadBackoffFloor, int64 in *.
    repeat case_match; lia. }
  split; [done|]. rewrite Hd. split_and!.
  - generalize floor at 2. clear. induction attempts as [|[|ms] attempts IH]; intros b; cbn; auto.
  - apply delays_bounded; (done || lia).
  - intros k i rest -> Hi. apply delays_double; (done || lia).
Qed.

(** ** Processes that share a store *)

Section System.
Context `{UnicodeTables, HostServices, FeedLibs, FloatMath, StoreIO, SortSlice, ConfigJSON}.

(** A process never works under another revision than that of its configuration. *)
Definition node_ok (n : ReloadNode) : Prop := NRevision n = analysisConfigRevision (NConfig n).
Lemma apply_ok cfg source now n : node_ok (applyAnalysisConfig cfg source now n).
Proof. done. Qed.

(** What a thread of a process is in the middle of: it has read a configuration and not
    compared it; it found it different and is about to apply it; it has written one to
    the store and is about to apply it. *)
Inductive pending := PRead (cfg : AnalysisConfig) | PApply (cfg : AnalysisConfig) | PWritten (cfg : AnalysisConfig).
Record proc := mkProc { node : ReloadNode; pend : list pending }.
(** [reloadAnalysisConfigFromStore] and [UpdateAnalysisConfig] in the steps between
    which other threads run. *)
Inductive local_step : proc → proc → Prop :=
| l_same cfg n l1 l2 :
    String.eqb (analysisConfigRevision cfg) (NRevision n) = true →
    local_step (mkProc n (l1 ++ PRead cfg :: l2)) (mkProc n (l1 ++ l2))
| l_differs cfg n l1 l2 :
    String.eqb (analysisConfigRevision cfg) (NRevision n) = false →
    local_step (mkProc n (l1 ++ PRead cfg :: l2)) (mkProc n (l1 ++ PApply cfg :: l2))
| l_apply cfg source now n l1 l2 :
    local_step (mkProc n (l1 ++ PApply cfg :: l2)) (mkProc (applyAnalysisConfig cfg source now n) (l1 ++ l2))
| l_written cfg now n l1 l2 :
    local_step (mkProc n (l1 ++ PWritten cfg :: l2))
      (mkProc (applyAnalysisConfig cfg configReloadSourceLocalWrite now n) (l1 ++ l2)).
(** The value in the store and the processes. *)
Definition world : Type := string * list proc.
Definition read_of (stored : string) (p p' : proc) : Prop :=
  ∃ cfg, GetAnalysisConfig (Ok stored) = Ok (Some cfg) ∧ p' = mkProc (node p) (PRead cfg :: pend p).
Inductive quiet_step : world → world → Prop :=
| q_local stored ps i p p' :
    ps !! i = Some p → local_step p p' → quiet_step (stored, ps) (stored, <[i := p']> ps)
| q_read stored ps i p p' :
    ps !! i = Some p → read_of stored p p' → quiet_step (stored, ps) (stored, <[i := p']> ps).
Inductive world_step : world → world → Prop :=
| w_quiet w w' : quiet_step w w' → world_step w w'
| w_write stored stored' ps i p cfg :
    ps !! i = Some p → SetAnalysisConfig cfg = Ok stored' →
    world_step (stored, ps) (stored', <[i := mkProc (node p) (PWritten cfg :: pend p)]> ps).

(** The sequential reload is a read, a comparison and an application. *)
Lemma reload_steps o env source n :
  storeEnabled o = true →
  let '(n', res) := reloadAnalysisConfigFromStore o env source n in
  match config_reply env with
  | Ok stored => ∀ q, (∃ cfg, GetAnalysisConfig (Ok stored) = Ok (Some cfg)) →
      ∃ p, read_of stored (mkProc n q) p ∧ rtc local_step p (mkProc n' q)
  | Err _ => n' = n
  end.
Proof.
  intros Ho. unfold reloadAnalysisConfigFromStore. rewrite Ho. cbn [negb].
  destruct (config_reply env) as [stored|e]; [|done].
  destruct (GetAnalysisConfig (Ok stored)) as [[cfg|]|] eqn:Hg; [|by intros q (? & [=])..].
  destruct (String.eqb _ _) eqn:He; intros q _;
    (exists (mkProc n (PRead cfg :: q)); split; [exists cfg; by split|]).
  - apply rtc_once. by apply (l_same cfg n [] q).
  - eapply rtc_l; [by apply (l_differs cfg n [] q)|]. apply rtc_once.
    apply (l_apply cfg source (reload_now env) n [] q).
Qed.

Definition config_of (x : pending) : AnalysisConfig :=
  match x with PRead cfg | PApply cfg | PWritten cfg => cfg end.
Lemma local_ok p p' : local_step p p' → node_ok (node p) → node_ok (node p').
Proof. by intros []. Qed.
Lemma world_nodes_ok w w' :
  world_step w w' → Forall (λ p, node_ok (node p)) w.2 → Forall (λ p, node_ok (node p)) w'.2.
Proof.
  intros [? ? [stored ps i p p' Hp Hl|stored ps i p p' Hp Hl]|stored stored' ps i p cfg Hp _] Hw; cbn in *;
    apply Forall_insert; try done; rewrite Forall_forall in Hw;
    specialize (Hw p ltac:(by eapply list_elem_of_lookup_2)); [by eapply local_ok|by destruct Hl as (? & _ & ->)|done].
Qed.

(** ** Convergence *)

Context (cfg : AnalysisConfig).
(** Nothing but the stored configuration is under way. *)
Definition only_stored (p : proc) : Prop :=
  Forall (λ x, config_of x = cfg) (pend p).
(** A reload is under way or done. *)
Definition settling (p : proc) : Prop :=
  only_stored p ∧ (pend p = [] → NRevision (node p) = analysisConfigRevision cfg).
Lemma local_only p p' : local_step p p' → only_stored p → only_stored p'.
Proof.
  unfold only_stored.
  intros [c n l1 l2 _|c n l1 l2 _|c source now n l1 l2|c now n l1 l2]; cbn;
    rewrite ?Forall_app, ?Forall_cons; tauto.
Qed.
Lemma local_settling p p' : local_step p p' → settling p → settling p'.
Proof.
  intros Hl [Ho Hn]. split; [by eapply local_only|]. unfold only_stored in Ho.
  destruct Hl as [c n l1 l2 He|c n l1 l2 He|c source now n l1 l2|c now n l1 l2]; cbn in *;
    apply Forall_app in Ho as [_ [Hc _]%Forall_cons]; cbn in Hc; subst c; intros Hnil.
  - apply String.eqb_eq in He. done.
  - by destruct l1.
  - done.
  - done.
Qed.
Lemma read_settling stored p p' :
  GetAnalysisConfig (Ok stored) = Ok (Some cfg) → only_stored p → read_of stored p p' → settling p'.
Proof.
  intros Hs Ho (c & Hc & ->). rewrite Hs in Hc. injection Hc as [= <-].
  split; [|done]. by apply Forall_cons.
Qed.
Definition at_proc (P : proc → Prop) (i : nat) (w : world) : Prop := ∃ p, w.2 !! i = Some p ∧ P p.
Lemma quiet_stored w w' : rtc quiet_step w w' → w'.1 = w.1.
Proof. induction 1 as [|w1 w2 w3 Hs _ IH]; [done|]. rewrite IH. by destruct Hs. Qed.
Lemma quiet_keeps (P : proc → Prop) i w w' :
  (∀ p p', local_step p p' → P p → P p') → (∀ p p', read_of w.1 p p' → P p → P p') →
  rtc quiet_step w w' → at_proc P i w → at_proc P i w'.
Proof.
  intros Hl Hr. induction 1 as [|w1 w2 w3 Hs _ IH]; [done|]. intros (p & Hp & HP). apply IH.
  - intros q q'. by destruct Hs; cbn in *; eauto.
  - assert (∀ stored ps j q q', ps !! j = Some q → (P q → P q') → ps !! i = Some p → P p →
      at_proc P i (stored, <[j := q']> ps)) as Hset.
    { intros stored ps j q q' Hq Hqq Hi HPp. destruct (decide (i = j)) as [<-|Hne].
      - exists q'. split; [apply list_lookup_insert_eq; by eapply lookup_lt_Some|]. apply Hqq.
        by simplify_eq.
      - exists p. split; [cbn; by rewrite list_lookup_insert_ne|done]. }
    destruct Hs as [stored ps j q q' Hq Hst|stored ps j q q' Hq Hst]; cbn in *; eauto.
Qed.

(** The turns a process has left before its threads are done. *)
Definition weight (x : pending) : nat := match x with PRead _ => 2 | _ => 1 end.
Definition left_to_do (p : proc) : nat := sum_list_with weight (pend p).
Lemma local_decreases p p' : local_step p p' → left_to_do p' < left_to_do p.
Proof.
  intros []; unfold left_to_do; cbn; rewrite !sum_list_with_app; cbn; lia.
Qed.
Lemma local_progress p : pend p ≠ [] → ∃ p', local_step p p'.
Proof.
  destruct p as [n [|[c|c|c] l]]; [done|..]; intros _.
  - destruct (String.eqb (analysisConfigRevision c) (NRevision n)) eqn:E.
    + eexists. by apply (l_same c n [] l).
    + eexists. by apply (l_differs c n [] l).
  - eexists. by apply (l_apply c "" 0 n [] l).
  - eexists. by apply (l_written c 0 n [] l).
Qed.
End System.

(** C23: in whatever way the reads, comparisons, applications and writes of any number
    of processes interleave, the revision of a process is the one of its configuration.
    Once nothing is written any more, a process none of whose threads holds another
    configuration is, after one more reload begun at any time, under the stored
    configuration's revision as soon as its threads are done, and stays so; the
    threads come to an end, each turn leaving less to do. *)
Theorem reload_converges `{UnicodeTables, HostServices, FeedLibs, ConfigJSON}
    cfg w0 w1 w2 i p1 p1' p2 :
  Forall (λ p, node_ok (node p)) w0.2 → rtc world_step w0 w1 →
  GetAnalysisConfig (Ok w1.1) = Ok (Some cfg) →
  w1.2 !! i = Some p1 → only_stored cfg p1 → read_of w1.1 p1 p1' →
  rtc quiet_step (w1.1, <[i := p1']> w1.2) w2 → w2.2 !! i = Some p2 →
  Forall (λ p, node_ok (node p)) w2.2
  ∧ (pend p2 = [] → NRevision (node p2) = analysisConfigRevision cfg)
  ∧ (pend p2 ≠ [] → ∃ p3, local_step p2 p3) ∧ (∀ p3, local_step p2 p3 → left_to_do p3 < left_to_do p2).
Proof.
  intros Hok H01 Hcfg Hp1 Honly Hread H12 Hp2.
  assert (Forall (λ p, node_ok (node p)) w1.2) as Hok1.
  { clear -Hok H01. revert Hok. induction H01 as [|x y z Hs _ IH]; [done|]. intros Hx. apply IH. apply (world_nodes_ok x y Hs Hx). }
  split; [|split; [|split; [apply local_progress|apply local_decreases]]].
  - assert (Forall (λ p, node_ok (node p)) (w1.1, <[i := p1']> w1.2).2) as Hok2.
    { apply Forall_insert; [done|]. rewrite Forall_forall in Hok1.
      destruct Hread as (c & _ & ->). apply (Hok1 p1). by eapply list_elem_of_lookup_2. }
    clear -Hok2 H12. revert Hok2. induction H12 as [|x y z Hs _ IH]; [done|]. intros Hx.
    by apply IH, (world_nodes_ok x); [apply w_quiet|].
  - destruct (quiet_keeps (settling cfg) i (w1.1, <[i := p1']> w1.2) w2) as (p & Hp & Hs).
    + by apply local_settling.
    + intros q q' Hq [Ho _]. by eapply read_settling.
    + done.
    + exists p1'. split; [apply list_lookup_insert_eq; by eapply lookup_lt_Some|]. by eapply read_settling.
    + simplify_eq. apply Hs.
Qed.

(** ** The sequential operations *)

Section Operations.
Context `{UnicodeTables, HostServices, FeedLibs, FloatMath, StoreIO, SortSlice, ConfigJSON}.

Lemma reload_config_ok o env source n : node_ok n → node_ok (reloadAnalysisConfigFromStore o env source n).1.
Proof. intros Hn. unfold reloadAnalysisConfigFromStore. repeat case_match; done. Qed.
Lemma reload_whitelist_config o env n :
  NRevision (reloadWhitelistFromStore o env n).1 = NRevision n
  ∧ NConfig (reloadWhitelistFromStore o env n).1 = NConfig n.
Proof. unfold reloadWhitelistFromStore. repeat case_match; done. Qed.
Lemma reload_mappings_config o env n :
  NRevision (reloadClientMappingsFromStore o env n).1 = NRevision n
  ∧ NConfig (reloadClientMappingsFromStore o env n).1 = NConfig n.
Proof. unfold reloadClientMappingsFromStore. cbv zeta. repeat case_match; done. Qed.
Lemma message_ok o env raw n : node_ok n → node_ok (handleConfigReloadMessage o env raw n).
Proof.
  intros Hn. unfold handleConfigReloadMessage, handleAnalysisConfigReloadEvent,
    handleWhitelistConfigReloadEvent, handleClientMappingsReloadEvent, node_ok.
  destruct (decode_event raw) as [event|]; [|done]. cbv zeta.
  destruct (String.eqb (EventType event) _).
  { repeat case_match; try done. by apply reload_config_ok. }
  destruct (reload_whitelist_config o env n) as [Hw1 Hw2], (reload_mappings_config o env n) as [Hm1 Hm2].
  repeat case_match; try done; by rewrite ?Hw1, ?Hw2, ?Hm1, ?Hm2.
Qed.
End Operations.

Module Examples.
Import FeedSpec.Examples.
#[local] Existing Instances ex_tables ex_services ex_feed_libs.
(** A configuration is its first field, in decimal. *)
Definition with_punycode (v : Z) : AnalysisConfig :=
  mkConfig v 24 15 3 10 quarter 10 25 ["login"] 15 10 10 50 (f_of_Z 3) 35.
#[local] Instance ex_json : ConfigJSON := {|
  encode_config c := Ok (dec_string (PunycodeScore c));
  decode_config s := match ParseInt64 s with Some v => Ok (with_punycode v) | None => Err "syntax" end;
  decode_event s := Ok (mkEvent analysisConfigReloadEventType s "" "")
|}.

Lemma subscriber_backoff_witness :
  let delays := runConfigReloadSubscriber 0 0 (replicate 7 SubscribeFailed ++ [Consumed []])%list in
  (0 < 250000000)%Z ∧ length delays = 8
  ∧ Forall (λ d, 250000000 <= d <= 5000000000)%Z delays
  ∧ (∀ k i rest, (replicate 7 SubscribeFailed ++ [Consumed []])%list = (replicate k SubscribeFailed ++ rest)%list →
     i < k → delays !! i = Some (Z.min (250000000 * 2 ^ Z.of_nat i) 5000000000)).
Proof. apply (subscriber_backoff 0 0 (replicate 7 SubscribeFailed ++ [Consumed []])%list); by vm_compute. Defined.

Example delays_of_failures :
  runConfigReloadSubscriber 0 0 (replicate 7 SubscribeFailed ++ [Consumed []; SubscribeFailed])%list
  = Z.mul 1000000 <$> [250; 500; 1000; 2000; 4000; 5000; 5000; 250; 500]%Z.
Proof. vm_compute. reflexivity. Qed.

Definition c35 : AnalysisConfig := with_punycode 35.
Definition c50 : AnalysisConfig := with_punycode 50.
Definition node_of (c : AnalysisConfig) : ReloadNode :=
  applyAnalysisConfig c configReloadSourceStartup 0 (mkReloadNode c "" "" 0 None (mkDB [] 0)).
(** A thread read 35 before 50 was written. *)
Definition behind : proc := mkProc (node_of c35) [].
Lemma reload_converges_witness :
  let w2 : world := ("50", [mkProc (node_of c35) [PRead c50]]) in
  Forall (λ p, node_ok (node p)) w2.2
  ∧ ([PRead c50] = [] → NRevision (node_of c35) = analysisConfigRevision c50)
  ∧ (pend (mkProc (node_of c35) [PRead c50]) ≠ [] → ∃ p3, local_step (mkProc (node_of c35) [PRead c50]) p3)
  ∧ (∀ p3, local_step (mkProc (node_of c35) [PRead c50]) p3 →
     left_to_do p3 < left_to_do (mkProc (node_of c35) [PRead c50])).
Proof.
  apply (reload_converges c50 ("50", [behind]) ("50", [behind]) ("50", [mkProc (node_of c35) [PRead c50]]) 0
    behind (mkProc (node_of c35) [PRead c50]) (mkProc (node_of c35) [PRead c50])).
  - by repeat constructor.
  - done.
  - by vm_compute.
  - done.
  - constructor.
  - exists c50. split; [by vm_compute|done].
  - done.
  - done.
Defined.
Lemma one_local stored p p' : local_step p p' → world_step (stored, [p]) (stored, [p']).
Proof. intros Hl. by apply w_quiet, (q_local stored [p] 0 p p'). Qed.
Lemma one_read stored p p' : read_of stored p p' → world_step (stored, [p]) (stored, [p']).
Proof. intros Hl. by apply w_quiet, (q_read stored [p] 0 p p'). Qed.
Lemma one_write stored stored' c p :
  SetAnalysisConfig c = Ok stored' →
  world_step (stored, [p]) (stored', [mkProc (node p) (PWritten c :: pend p)]).
Proof. by apply (w_write stored stored' [p] 0 p c). Qed.
(** A reload that read the store before a write applies the older configuration after
    it; nothing is under way, and no message corrects it. *)
Example stale_reload :
  ∃ n, rtc world_step ("35", [behind]) ("50", [mkProc n []])
    ∧ NRevision n = analysisConfigRevision c35 ∧ NRevision n ≠ analysisConfigRevision c50.
Proof.
  set (n1 := applyAnalysisConfig c50 configReloadSourceLocalWrite 1 (node_of c35)).
  exists (applyAnalysisConfig c35 configReloadSourceReconcile 2 n1). split; [|by split].
  eapply rtc_l; [apply (one_read _ _ (mkProc (node_of c35) [PRead c35])); exists c35; by vm_compute|].
  eapply rtc_l; [apply (one_write _ "50" c50); by vm_compute|].
  eapply rtc_l; [apply one_local, (l_written c50 1 (node_of c35) [] [PRead c35])|].
  eapply rtc_l; [apply one_local; by apply (l_differs c35 n1 [] [])|].
  apply rtc_once, one_local, (l_apply c35 configReloadSourceReconcile 2 n1 [] []).
Qed.
End Examples.
