(* ===== verification/Session.v ===== *)
(** * Credentials: [internal/auth/auth.go], [bearer.go] and [internal/store/admin_sessions.go]

    Signed session tokens, the administrator's API key, roles, password hashes and the
    table of revocable sessions.  HMAC, SHA-256, bcrypt and JSON are classes; raw
    URL-safe base64 is translated. *)

From Stdlib Require Import ZArith Lia Ascii String.
From S2P Require Import Prelude GoStr NetIP GoFloat ClientIP Feed FeedSync DomainML.

Definition ErrInvalidToken : string := "invalid session token".
Definition ErrExpiredToken : string := "session token expired".
Definition RoleAdmin : string := "admin".
Definition RoleGuest : string := "guest".
Definition bearerPrefix : string := "Bearer ".

Record SessionClaims := mkClaims { ClaimUsername : string; ClaimRole : string; SessionID : string; ExpiresAt : Z }.

(** [crypto/hmac] over SHA-256, [crypto/sha256], and bcrypt with the salt it draws. *)
Class Crypto := {
  hmac_sha256 : string → string → string;
  sha256 : string → string;
  bcrypt_generate : string → string → result string;
  bcrypt_compare : string → string → bool
}.
(** [encoding/json] on claims. *)
Class ClaimsJSON := {
  encode_claims : SessionClaims → result string;
  decode_claims : string → option SessionClaims
}.

(** ** Raw URL-safe base64 *)

Definition base64_alphabet : string := "ABCDEFGHIJKLMNOPQRSTUVWXYZabcdefghijklmnopqrstuvwxyz0123456789-_".
Definition base64_char (v : Z) : ascii := default "A"%char (String.get (Z.to_nat v) base64_alphabet).
Definition base64_val (c : ascii) : option Z := Z.of_nat <$> IndexByte base64_alphabet c.
Fixpoint base64_encode (s : string) : string :=
  match s with
  | String a (String b (String c r)) =>
      let '(a, b, c) := (byte_z a, byte_z b, byte_z c) in
      String (base64_char (a / 4)) (String (base64_char (a mod 4 * 16 + b / 16))
        (String (base64_char (b mod 16 * 4 + c / 64)) (String (base64_char (c mod 64)) (base64_encode r))))
  | String a (String b EmptyString) =>
      let '(a, b) := (byte_z a, byte_z b) in
      String (base64_char (a / 4)) (String (base64_char (a mod 4 * 16 + b / 16))
        (String (base64_char (b mod 16 * 4)) ""))
  | String a EmptyString =>
      String (base64_char (byte_z a / 4)) (String (base64_char (byte_z a mod 4 * 16)) "")
  | EmptyString => ""
  end%Z.
(** The decoder skips line ends and ignores the unused bits of the last digit. *)
Definition line_end (c : ascii) : bool := Ascii.eqb c (ascii_of_N 10) || Ascii.eqb c (ascii_of_N 13).
Definition byte_of (v : Z) : ascii := ascii_of_N (Z.to_N v).
Fixpoint base64_quanta (vs : list Z) : option string :=
  match vs with
  | v1 :: v2 :: v3 :: v4 :: vs =>
      let? r := base64_quanta vs in
      Some (String (byte_of (v1 * 4 + v2 / 16)) (String (byte_of (v2 mod 16 * 16 + v3 / 4))
        (String (byte_of (v3 mod 4 * 64 + v4)) r)))
  | [v1; v2; v3] =>
      Some (String (byte_of (v1 * 4 + v2 / 16)) (String (byte_of (v2 mod 16 * 16 + v3 / 4)) ""))
  | [v1; v2] => Some (String (byte_of (v1 * 4 + v2 / 16)) "")
  | [_] => None
  | [] => Some ""
  end%Z.
Definition base64_decode (s : string) : option string :=
  let? vs := mapM base64_val (filter (λ c, line_end c = false) (list_ascii_of_string s)) in base64_quanta vs.

Section Credentials.
Context `{UnicodeTables, Crypto, ClaimsJSON}.

(** ** Tokens *)

(** [random] is what [crypto/rand] delivers. *)
Definition GenerateSecureRandomString (random : result string) : result string :=
  match random with Err e => Err ("failed to generate random bytes: " ++ e) | Ok bytes => Ok (hex_string bytes) end.
Definition SignToken (data secret : string) : string := base64_encode (hmac_sha256 secret data).
Definition VerifyToken (data signature secret : string) : bool := String.eqb signature (SignToken data secret).
Definition SessionFingerprint (sessionID : string) : string := hex_string (sha256 sessionID).

Definition NormalizeRole (username role : string) : string :=
  let role := TrimSpace (ToLower role) in
  if String.eqb role RoleAdmin || String.eqb role RoleGuest then role
  else
    let username := TrimSpace (ToLower username) in
    if String.eqb username RoleGuest then RoleGuest else RoleGuest.

(** Times are nanoseconds; [Unix] drops the fraction of the second. *)
Definition unix (t : Z) : Z := (t / 1000000000)%Z.
Definition GenerateSessionCookieValueForRole (username role sessionID : string) (duration : Z) (secret : string)
    (now : Z) : result string :=
  match encode_claims (mkClaims username (NormalizeRole username role) sessionID (unix (now + duration))) with
  | Err e => Err ("failed to marshal session claims: " ++ e)
  | Ok claimsJSON =>
      let payload := base64_encode claimsJSON in
      Ok (payload ++ "." ++ SignToken payload secret)
  end.
Definition VerifySessionClaims (cookieVal secret : string) (now : Z) : result SessionClaims :=
  match Split cookieVal "." with
  | [payload; signature] =>
      if negb (VerifyToken payload signature secret) then Err ErrInvalidToken
      else match base64_decode payload with
      | None => Err ErrInvalidToken
      | Some claimsBytes =>
          match decode_claims claimsBytes with
          | None => Err ErrInvalidToken
          | Some claims =>
              if (ExpiresAt claims <? unix now)%Z then Err ErrExpiredToken
              else Ok (mkClaims (ClaimUsername claims) (NormalizeRole (ClaimUsername claims) (ClaimRole claims))
                         (SessionID claims) (ExpiresAt claims))
          end
      end
  | _ => Err ErrInvalidToken
  end.
Definition VerifySessionCookieValue (cookieVal secret : string) (now : Z) : result string :=
  match VerifySessionClaims cookieVal secret now with Err e => Err e | Ok claims => Ok (ClaimUsername claims) end.

(** ** Passwords and the API key *)

Definition HashPassword (salt password : string) : result string :=
  match bcrypt_generate salt password with Err e => Err ("hash password: " ++ e) | Ok h => Ok h end.
Definition VerifyPasswordHash (hash password : string) : bool := bcrypt_compare hash password.

Definition HasBearerPrefix (header : string) : bool := HasPrefix header bearerPrefix.
Definition MatchesBearer (header configuredKey : string) : bool :=
  if String.eqb configuredKey "" then false
  else if negb (HasBearerPrefix header) then false
  else
    let token := TrimPrefix header bearerPrefix in
    if String.eqb token "" then false else String.eqb (sha256 token) (sha256 configuredKey).
End Credentials.

(** ** The session table *)

(** Rows in the order of their row identifiers.  The timestamps have a resolution of a
    second and their texts are ordered like the seconds. *)
Record SessionRow := mkRow {
  Fingerprint : string; RowUsername : string; CreatedAt : Z; RowExpiresAt : Z; RevokedAt : option Z
}.
Definition Sessions : Type := list SessionRow.

(** [datetime('now')] is an argument. *)
Definition CreateAdminSession (sql_now : Z) (fingerprint username : string) (expiresAt : Z) (t : Sessions)
    : result Sessions :=
  if existsb (λ r, String.eqb (Fingerprint r) fingerprint) t
  then Err "create admin session: UNIQUE constraint failed: admin_sessions.session_fingerprint"
  else Ok (t ++ [mkRow fingerprint username sql_now (unix expiresAt) None])%list.
Definition row_active (sql_now : Z) (fingerprint : string) (r : SessionRow) : bool :=
  String.eqb (Fingerprint r) fingerprint && bool_decide (RevokedAt r = None) && (sql_now <? RowExpiresAt r)%Z.
Definition AdminSessionActive (sql_now : Z) (fingerprint : string) (t : Sessions) : bool :=
  existsb (row_active sql_now fingerprint) t.
Definition revoke_row (sql_now : Z) (fingerprint : string) (r : SessionRow) : SessionRow :=
  if String.eqb (Fingerprint r) fingerprint && bool_decide (RevokedAt r = None)
  then mkRow (Fingerprint r) (RowUsername r) (CreatedAt r) (RowExpiresAt r) (Some sql_now) else r.
Definition RevokeAdminSession (sql_now : Z) (fingerprint : string) (t : Sessions) : Sessions :=
  revoke_row sql_now fingerprint <$> t.
Definition row_outdated (sql_now : Z) (r : SessionRow) : bool :=
  let day_ago := (sql_now - 86400)%Z in
  (RowExpiresAt r <=? day_ago)%Z || match RevokedAt r with Some t => (t <=? day_ago)%Z | None => false end.
(** At most [limit] of the outdated rows go, in the order of the rows. *)
Fixpoint cleanup_rows (sql_now : Z) (limit : nat) (t : Sessions) : Sessions :=
  match t, limit with
  | r :: t, S l => if row_outdated sql_now r then cleanup_rows sql_now l t else r :: cleanup_rows sql_now limit t
  | _, _ => t
  end.
Definition CleanupExpiredAdminSessions (sql_now : Z) (t : Sessions) : Sessions * Z :=
  let t' := cleanup_rows sql_now 500 t in (t', Z.of_nat (length t - length t')).
