(* ===== verification/SessionSpec.v ===== *)
(** * Theorems about [Session]: tokens and the session table *)

From Stdlib Require Import ZArith Lia Ascii String.
From S2P Require Import Prelude GoStr NetIP GoFloat ClientIP Feed FeedSync DomainML Session.

(** ** Base64 *)

Lemma base64_char_ok v :
  (0 <= v < 64)%Z →
  base64_val (base64_char v) = Some v ∧ line_end (base64_char v) = false
  ∧ Ascii.eqb "." (base64_char v) = false.
Proof.
  intros Hv.
  assert (forallb (λ n, bool_decide (base64_val (base64_char (Z.of_nat n)) = Some (Z.of_nat n))
                        && negb (line_end (base64_char (Z.of_nat n)))
                        && negb (Ascii.eqb "." (base64_char (Z.of_nat n)))) (seq 0 64) = true) as Hall
    by by vm_compute.
  rewrite forallb_forall in Hall. specialize (Hall (Z.to_nat v) ltac:(apply in_seq; lia)).
  rewrite Z2Nat.id in Hall by lia. bool_simpl. by rewrite H1.
Qed.

(** The digits of an encoding. *)
Fixpoint quanta (s : string) : list Z :=
  match s with
  | String a (String b (String c r)) =>
      let '(a, b, c) := (byte_z a, byte_z b, byte_z c) in
      a / 4 :: a mod 4 * 16 + b / 16 :: b mod 16 * 4 + c / 64 :: c mod 64 :: quanta r
  | String a (String b EmptyString) =>
      let '(a, b) := (byte_z a, byte_z b) in [a / 4; a mod 4 * 16 + b / 16; b mod 16 * 4]
  | String a EmptyString => [byte_z a / 4; byte_z a mod 4 * 16]
  | EmptyString => []
  end%Z.

Lemma string_ind3 (P : string → Prop) :
  P "" → (∀ a, P (String a "")) → (∀ a b, P (String a (String b ""))) →
  (∀ a b c r, P r → P (String a (String b (String c r)))) → ∀ s, P s.
Proof.
  intros H0 H1 H2 H3. fix IH 1. intros [|a [|b [|c r]]]; [done|done|done|]. apply H3, IH.
Qed.
Lemma byte_z_range c : (0 <= byte_z c < 256)%Z.
Proof. unfold byte_z. pose proof (N_ascii_bounded c). lia. Qed.
Lemma byte_of_byte_z c : byte_of (byte_z c) = c.
Proof. unfold byte_of, byte_z. by rewrite N2Z.id, ascii_N_embedding. Qed.

Ltac byte_bounds :=
  repeat match goal with
  | a : ascii |- _ =>
      lazymatch goal with
      | _ : (0 <= byte_z a < 256)%Z |- _ => fail
      | _ => pose proof (byte_z_range a)
      end
  end.
Ltac digit := byte_bounds; Z.div_mod_to_equations; lia.

Lemma quanta_range s : Forall (λ v, 0 <= v < 64)%Z (quanta s).
Proof.
  induction s as [|a|a b|a b c r IH] using string_ind3; cbn [quanta];
    repeat (apply Forall_cons; split); try done; digit.
Qed.
Lemma encode_digits s : list_ascii_of_string (base64_encode s) = base64_char <$> quanta s.
Proof.
  induction s as [|a|a b|a b c r IH] using string_ind3; cbn [quanta base64_encode list_ascii_of_string fmap list_fmap];
    [done..|]. by rewrite IH.
Qed.
Lemma quanta_decode s : base64_quanta (quanta s) = Some s.
Proof.
  induction s as [|a|a b|a b c r IH] using string_ind3; cbn [quanta base64_quanta].
  - done.
  - replace (byte_z a / 4 * 4 + byte_z a mod 4 * 16 / 16)%Z with (byte_z a) by digit. by rewrite byte_of_byte_z.
  - replace (byte_z a / 4 * 4 + (byte_z a mod 4 * 16 + byte_z b / 16) / 16)%Z with (byte_z a) by digit.
    replace ((byte_z a mod 4 * 16 + byte_z b / 16) mod 16 * 16 + byte_z b mod 16 * 4 / 4)%Z with (byte_z b) by digit.
    by rewrite !byte_of_byte_z.
  - rewrite IH. cbn.
    replace (byte_z a / 4 * 4 + (byte_z a mod 4 * 16 + byte_z b / 16) / 16)%Z with (byte_z a) by digit.
    replace ((byte_z a mod 4 * 16 + byte_z b / 16) mod 16 * 16 + (byte_z b mod 16 * 4 + byte_z c / 64) / 4)%Z
      with (byte_z b) by digit.
    replace ((byte_z b mod 16 * 4 + byte_z c / 64) mod 4 * 64 + byte_z c mod 64)%Z with (byte_z c) by digit.
    by rewrite !byte_of_byte_z.
Qed.
Lemma digits_decode vs :
  Forall (λ v, 0 <= v < 64)%Z vs →
  mapM base64_val (filter (λ c, line_end c = false) (base64_char <$> vs)) = Some vs.
Proof.
  induction 1 as [|v vs Hv _ IH]; [done|]. destruct (base64_char_ok v Hv) as (Hval & Hle & _).
  rewrite fmap_cons, filter_cons_True by done. cbn -[base64_val base64_char]. by rewrite Hval, IH.
Qed.
Theorem base64_roundtrip s : base64_decode (base64_encode s) = Some s.
Proof.
  unfold base64_decode. rewrite encode_digits, digits_decode by apply quanta_range. apply quanta_decode.
Qed.
Lemma contains_byte_list c s :
  contains_byte c s = existsb (Ascii.eqb c) (list_ascii_of_string s).
Proof. induction s as [|d s IH]; [done|]. cbn [list_ascii_of_string existsb]. by rewrite contains_byte_cons, IH. Qed.
Lemma encode_no_dot s : contains_byte "." (base64_encode s) = false.
Proof.
  rewrite contains_byte_list, encode_digits. pose proof (quanta_range s) as Hq.
  induction Hq as [|v vs Hv _ IH]; [done|]. rewrite fmap_cons. cbn [existsb].
  destruct (base64_char_ok v Hv) as (_ & _ & ->). done.
Qed.

Lemma hex_ascii s : is_ascii (hex_string s) = true.
Proof.
  unfold hex_string. induction s as [|c s IH]; [done|]. cbn [list_ascii_of_string fmap list_fmap concat].
  unfold is_ascii in *. cbn -[hex_byte is_ascii_byte].
  assert (∀ l l', sforall is_ascii_byte (string_of_list_ascii (l ++ l')%list)
                  = forallb is_ascii_byte l && sforall is_ascii_byte (string_of_list_ascii l')) as Happ.
  { intros l l'. induction l as [|d l IHl]; [done|]. cbn. by rewrite IHl, andb_assoc. }
  rewrite Happ. apply andb_true_iff. split; [|done].
  by destruct c as [[] [] [] [] [] [] [] []].
Qed.

(** ** Tokens *)

(** What the JSON encoding of claims promises about ASCII texts. *)
Class ClaimsLaws `{ClaimsJSON} := {
  claims_roundtrip c :
    is_ascii (ClaimUsername c) = true → is_ascii (ClaimRole c) = true → is_ascii (SessionID c) = true →
    ∃ s, encode_claims c = Ok s ∧ decode_claims s = Some c
}.

Section Tokens.
Context `{UnicodeTables, Crypto, ClaimsJSON}.

Lemma normalize_role_or u r : NormalizeRole u r = RoleAdmin ∨ NormalizeRole u r = RoleGuest.
Proof.
  unfold NormalizeRole. cbv zeta. destruct (String.eqb (TrimSpace (ToLower r)) RoleAdmin) eqn:E1;
    [apply String.eqb_eq in E1; rewrite E1; by left|].
  destruct (String.eqb (TrimSpace (ToLower r)) RoleGuest) eqn:E2;
    [apply String.eqb_eq in E2; rewrite E2; by right|]. cbn. right. by case_match.
Qed.
Lemma normalize_role_fixed u u' r : NormalizeRole u' (NormalizeRole u r) = NormalizeRole u r.
Proof. by destruct (normalize_role_or u r) as [-> | ->]. Qed.

(** The two parts of a token. *)
Lemma split_token payload data secret :
  contains_byte "." payload = false → Split (payload ++ "." ++ SignToken data secret) "." = [payload; SignToken data secret].
Proof.
  intros Hp. cbn [append]. rewrite Split_app, !Split_no_sep; [done|apply encode_no_dot|done].
Qed.
Lemma split_two s c a b : Split s c = [a; b] → s = a ++ String c b.
Proof. intros Hs. rewrite <- (Join_Split s c), Hs. done. Qed.

(** A verified cookie is a payload with its signature, and not expired. *)
Lemma verify_signed cookie secret now claims :
  VerifySessionClaims cookie secret now = Ok claims →
  (∃ payload, cookie = payload ++ "." ++ SignToken payload secret)
  ∧ (unix now <= ExpiresAt claims)%Z
  ∧ NormalizeRole (ClaimUsername claims) (ClaimRole claims) = ClaimRole claims.
Proof.
  unfold VerifySessionClaims, VerifyToken. destruct (Split cookie ".") as [|payload [|signature [|]]] eqn:Hs; try done.
  destruct (String.eqb signature (SignToken payload secret)) eqn:He; [|done]. cbn [negb].
  destruct (base64_decode payload); [|done]. destruct (decode_claims s) as [c|]; [|done].
  destruct (ExpiresAt c <? unix now)%Z eqn:Hx; [done|]. intros [= <-]. cbn.
  apply String.eqb_eq in He as ->. apply Z.ltb_ge in Hx. split; [|split; [done|apply normalize_role_fixed]].
  exists payload. by apply split_two.
Qed.
Lemma verify_generated `{!ClaimsLaws} username role sid duration secret now now' token :
  is_ascii username = true → is_ascii sid = true →
  GenerateSessionCookieValueForRole username role sid duration secret now = Ok token →
  VerifySessionClaims token secret now'
  = if (unix (now + duration) <? unix now')%Z then Err ErrExpiredToken
    else Ok (mkClaims username (NormalizeRole username role) sid (unix (now + duration))).
Proof.
  intros Hu Hs. unfold GenerateSessionCookieValueForRole.
  set (c := mkClaims username (NormalizeRole username role) sid (unix (now + duration))).
  destruct (claims_roundtrip c) as (s & He & Hd); [done| |done|].
  { cbn. by destruct (normalize_role_or username role) as [-> | ->]. }
  rewrite He. cbv zeta. intros Ht.
  assert (token = base64_encode s ++ "." ++ SignToken (base64_encode s) secret) as -> by congruence.
  unfold VerifySessionClaims. rewrite split_token by apply encode_no_dot.
  unfold VerifyToken. rewrite String.eqb_refl. cbn [negb]. rewrite base64_roundtrip, Hd. cbn -[NormalizeRole].
  by rewrite normalize_role_fixed.
Qed.

Lemma matches_bearer header key :
  MatchesBearer header key = true ↔
  ∃ token, header = bearerPrefix ++ token ∧ token ≠ "" ∧ key ≠ "" ∧ sha256 token = sha256 key.
Proof.
  unfold MatchesBearer, HasBearerPrefix.
  destruct (String.eqb_spec key "") as [->|Hk]; [split; [done|by intros (? & _ & _ & ? & _)]|].
  destruct (HasPrefix header bearerPrefix) eqn:Hp; cbn [negb].
  - apply HasPrefix_spec in Hp as [token ->]. rewrite TrimPrefix_app.
    destruct (String.eqb_spec token "") as [->|Ht].
    + split; [done|]. intros (t & Heq & Ht & _). by apply sapp_inj_l in Heq as <-.
    + rewrite String.eqb_eq. split; [intros He; by exists token|].
      intros (t & Heq & _ & _ & He). by apply sapp_inj_l in Heq as <-.
  - split; [done|]. intros (t & -> & _). by rewrite (proj2 (HasPrefix_spec _ _)) in Hp by by exists t.
Qed.
End Tokens.

(** ** The session table *)

(** The active rows decide; revocation takes them away, insertion adds one, cleaning
    keeps all rows that expire less than a day ago and are not revoked. *)
Lemma active_iff now fp t :
  AdminSessionActive now fp t = true ↔
  ∃ r, r ∈ t ∧ Fingerprint r = fp ∧ RevokedAt r = None ∧ (now < RowExpiresAt r)%Z.
Proof.
  unfold AdminSessionActive. rewrite existsb_exists. setoid_rewrite <- list_elem_of_In. unfold row_active.
  split; intros (r & Hr & Ha); exists r; (split; [done|]).
  - bool_simpl. done.
  - destruct Ha as (-> & -> & Hlt). rewrite String.eqb_refl. cbn. by apply Z.ltb_lt.
Qed.
Lemma elem_revoke now fp t r :
  r ∈ RevokeAdminSession now fp t → RevokedAt r = None → r ∈ t ∧ Fingerprint r ≠ fp.
Proof.
  intros (r0 & -> & Hr0)%list_elem_of_fmap. unfold revoke_row.
  destruct (String.eqb_spec (Fingerprint r0) fp) as [He|He]; cbn.
  - case_bool_decide; [done|]. done.
  - done.
Qed.
Lemma revoke_keeps now fp t r : r ∈ t → Fingerprint r ≠ fp → r ∈ RevokeAdminSession now fp t.
Proof.
  intros Hr Hne. apply list_elem_of_fmap. exists r. split; [|done]. unfold revoke_row.
  destruct (String.eqb_spec (Fingerprint r) fp); done.
Qed.
Lemma create_rows now fp user e t t' :
  CreateAdminSession now fp user e t = Ok t' → t' = (t ++ [mkRow fp user now (unix e) None])%list.
Proof. unfold CreateAdminSession. case_match; [done|]. by intros [= <-]. Qed.
Lemma cleanup_subset now limit t r : r ∈ cleanup_rows now limit t → r ∈ t.
Proof.
  revert limit. induction t as [|r0 t IH]; intros [|limit]; cbn; try done.
  case_match; rewrite ?elem_of_cons; naive_solver.
Qed.
Lemma cleanup_keeps now limit t r : r ∈ t → row_outdated now r = false → r ∈ cleanup_rows now limit t.
Proof.
  intros Hr Ho. revert limit. induction t as [|r0 t IH]; intros [|limit]; cbn; try done.
  apply elem_of_cons in Hr as [->|Hr].
  - rewrite Ho. apply list_elem_of_here.
  - case_match; [by apply IH|]. apply list_elem_of_further. by apply IH.
Qed.
Lemma row_not_outdated now r :
  RevokedAt r = None → (now < RowExpiresAt r + 86400)%Z → row_outdated now r = false.
Proof. intros Hr Hlt. unfold row_outdated. rewrite Hr. cbv zeta. rewrite orb_false_r. apply Z.leb_gt. lia. Qed.
