(* ===== verification/AuthAPI.v ===== *)
(** * Authentication of the API: [internal/api/handlers/auth.go], [auth_context.go],
    [auth_middleware.go], [access.go] and the route table [internal/api/server/routes.go]

    A wrapped handler is a function of two continuations: the handler behind the
    middleware, given the identity of the request's context, and the reply that ends
    the request.  Clocks, random bytes, failing statements and parsed bodies are
    inputs; logs are left out. *)

From Stdlib Require Import ZArith Lia Ascii String.
From S2P Require Import Prelude GoStr NetIP ClientIP NetGuard Session.

Record loginRequest := mkLogin { LoginUsername : string; LoginPassword : string }.
Record guestAccessConfig := mkGuest { Enabled : bool; PasswordHash : string }.
Record guestAccessRequest := mkGuestRequest { ReqEnabled : option bool; ReqPassword : string }.
Record authIdentity := mkIdentity { IdUsername : string; IdRole : string; AuthMethod : string }.
Record authSessionResponse := mkSession {
  SUsername : string; SRole : string; ReadOnly : bool; CanMutate : bool; CanViewSettings : bool; GuestMessage : string
}.
Record guestAccessStatusResponse := mkGuestStatus { GUsername : string; GExists : bool; GEnabled : bool }.

(** [encoding/json] on bodies, of which the decoder is given the first [limit] bytes,
    and on the stored guest configuration; [url.Parse], of which the host is read. *)
Class Bodies := {
  decode_login : nat → string → option loginRequest;
  decode_guest_request : nat → string → option guestAccessRequest;
  decode_guest_config : string → option guestAccessConfig;
  encode_guest_config : guestAccessConfig → result string;
  parsed_host : string → option string
}.

(** ** Requests, responses, state *)

Record HTTPRequest := mkHTTP {
  ReqPath : string; Method : string; Authorization : string; SessionCookie : option string;
  Origin : string; Referer : string; Host : string; OverTLS : bool; XForwardedProto : string;
  Remote : string; Body : string
}.
Inductive Payload :=
| PError (message : string) | PStatus (status : string)
| PSession (s : authSessionResponse) | PGuest (g : guestAccessStatusResponse) | POther (body : string).
(** The [admin_session] cookie of a response; path, [HttpOnly] and [SameSite] are fixed. *)
Record Cookie := mkCookie { CookieValue : string; MaxAge : Z; Secure : bool }.
Record Response := mkResponse { Status : Z; RPayload : Payload; SetCookie : option Cookie }.
Definition WriteError (status : Z) (message : string) : Response := mkResponse status (PError message) None.
Definition with_cookie (c : Cookie) (r : Response) : Response := mkResponse (Status r) (RPayload r) (Some c).

(** [handlers.Config], the environment variables it is completed with, and the proxies
    of the rate limiter. *)
Record AuthConfig := mkAuthConfig {
  SessionSecret : string; AdminUsername : string; AdminPasswordHash : string; AdminAPIKey : string;
  PublicHost : string; EnvPublicHost : string; ForceSecureRaw : string; Production : bool;
  Proxies : list IPNet
}.
Inductive StoreError := ErrDisabled | StoreFailed (message : string).
Inductive Statement :=
  GetSystemConfig | SetSystemConfig | CreateSession | SessionActive | RevokeSession | CleanupSessions.
Record AuthEnv := mkAuthEnv {
  verify_now : Z; session_now : Z; claims_now : Z; sql_now : Z; store_enabled : bool;
  statement_error : Statement → option string; session_random : result string; password_salt : string
}.
(** The session table and the value of [dashboard_guest_access]. *)
Record AuthDB := mkAuthDB { sessions : Sessions; guest_raw : string }.
Definition set_sessions (t : Sessions) (db : AuthDB) : AuthDB := mkAuthDB t (guest_raw db).
Definition set_guest (raw : string) (db : AuthDB) : AuthDB := mkAuthDB (sessions db) raw.

Definition adminSessionTTL : Z := 12 * 3600 * 1000000000.
Definition guestReadOnlyMessage : string := "Khách không được quyền thay đổi hoặc áp dụng các chính sách mới vào hệ thống, nếu muốn hãy liên hệ với quản trị viên của Safe Zone DNS tại contact@quorix.io.vn.".
Definition minGuestPasswordLength : nat := 10.
Definition isAdmin (id : authIdentity) : bool := String.eqb (IdRole id) RoleAdmin.
(** [config.Bool] *)
Definition Bool (value : string) (fallback : bool) : bool :=
  if existsb (String.eqb value) ["1"; "true"; "yes"; "on"] then true
  else if existsb (String.eqb value) ["0"; "false"; "no"; "off"] then false else fallback.
Definition isStateChangingMethod (method : string) : bool :=
  existsb (String.eqb method) ["POST"; "PUT"; "PATCH"; "DELETE"].
Definition StoreErrorResponse (e : StoreError) (publicMessage : string) : Response :=
  WriteError (match e with ErrDisabled => 503 | StoreFailed _ => 500 end) publicMessage.

Section API.
Context `{UnicodeTables, Crypto, ClaimsJSON, Bodies}.

(** ** Cookies *)

Definition forceSecureCookies (h : AuthConfig) : bool := Bool (ForceSecureRaw h) (Production h).
Definition requestFromTrustedProxy (h : AuthConfig) (r : HTTPRequest) : bool :=
  let host := match SplitHostPort (Remote r) with Some (host, _) => host | None => Remote r end in
  match ParseIP (trim_brackets host) with
  | None => false
  | Some ip => existsb (λ network, NetContains network ip) (Proxies h)
  end.
Definition isHTTPS (h : AuthConfig) (r : HTTPRequest) : bool :=
  if OverTLS r then true
  else
    let forwarded := TrimSpace (XForwardedProto r) in
    if negb (String.eqb forwarded "") && requestFromTrustedProxy h r && EqualFold forwarded "https" then true
    else forceSecureCookies h.
Definition clearSessionCookie (h : AuthConfig) (r : HTTPRequest) : Response → Response :=
  with_cookie (mkCookie "" (-1) (isHTTPS h r)).

(** ** Guest access *)

Definition Exists (cfg : guestAccessConfig) : bool := negb (String.eqb (TrimSpace (PasswordHash cfg)) "").
Definition loadGuestAccessConfig (env : AuthEnv) (db : AuthDB) : StoreError + guestAccessConfig :=
  if negb (store_enabled env) then inl ErrDisabled
  else match statement_error env GetSystemConfig with
  | Some e => inl (StoreFailed ("load guest access config: " ++ e))
  | None =>
      if String.eqb (TrimSpace (guest_raw db)) "" then inr (mkGuest false "")
      else match decode_guest_config (guest_raw db) with
      | None => inl (StoreFailed "decode guest access config")
      | Some cfg => inr (mkGuest (Enabled cfg) (TrimSpace (PasswordHash cfg)))
      end
  end.
Definition set_guest_config (env : AuthEnv) (raw : string) (db : AuthDB) : AuthDB * option StoreError :=
  match statement_error env SetSystemConfig with
  | Some e => (db, Some (StoreFailed ("set system config: " ++ e)))
  | None => (set_guest raw db, None)
  end.
Definition saveGuestAccessConfig (env : AuthEnv) (cfg : guestAccessConfig) (db : AuthDB) : AuthDB * option StoreError :=
  if negb (store_enabled env) then (db, Some ErrDisabled)
  else match encode_guest_config cfg with
  | Err e => (db, Some (StoreFailed ("encode guest access config: " ++ e)))
  | Ok encoded => set_guest_config env encoded db
  end.
Definition clearGuestAccessConfig (env : AuthEnv) (db : AuthDB) : AuthDB * option StoreError :=
  if negb (store_enabled env) then (db, Some ErrDisabled) else set_guest_config env "" db.
Definition validateGuestAccessPassword (password : string) : option string :=
  if Nat.ltb (slen password) minGuestPasswordLength then Some "password must be at least 10 characters" else None.
(** [None]: active; [Some None]: [errGuestAccessRevoked]. *)
Definition ensureGuestSessionActive (env : AuthEnv) (db : AuthDB) (claims : SessionClaims)
    : option (option StoreError) :=
  if negb (String.eqb (NormalizeRole (ClaimUsername claims) (ClaimRole claims)) RoleGuest) then None
  else match loadGuestAccessConfig env db with
  | inl e => Some (Some e)
  | inr cfg => if negb (Exists cfg) || negb (Enabled cfg) then Some None else None
  end.
Definition guestAccessStatus (cfg : guestAccessConfig) : guestAccessStatusResponse :=
  mkGuestStatus RoleGuest (Exists cfg) (Enabled cfg && Exists cfg).

(** ** Cross-site requests *)

Definition canonicalRequestHost (value : string) : string :=
  let value := TrimSpace (ToLower value) in
  if String.eqb value "" then ""
  else
    let value := if Contains value "://" then default value (parsed_host value) else value in
    let value := TrimSuffix value "/" in
    match SplitHostPort value with
    | Some (host, port) =>
        if String.eqb port "80" || String.eqb port "443" then host else JoinHostPort host port
    | None => value
    end.
Definition ValidCSRFSources (h : AuthConfig) (r : HTTPRequest) : bool :=
  let source := TrimSpace (Origin r) in
  let source := if String.eqb source "" then TrimSpace (Referer r) else source in
  if String.eqb source "" then false
  else match parsed_host source with
  | None => false
  | Some host =>
      if String.eqb host "" then false
      else existsb (λ allowed, String.eqb (canonicalRequestHost host) (canonicalRequestHost allowed))
             [Host r; PublicHost h; EnvPublicHost h]
  end.
Definition VerifyCSRF (h : AuthConfig) (r : HTTPRequest) : option string :=
  if negb (ValidCSRFSources h r) then Some "invalid csrf origin or referer" else None.

(** ** Identities *)

Definition adminUsername (h : AuthConfig) : string :=
  let username := TrimSpace (ToLower (AdminUsername h)) in
  if String.eqb username "" || String.eqb username RoleGuest then RoleAdmin else username.
Definition adminPasswordMatches (h : AuthConfig) (password : string) : bool :=
  if String.eqb (AdminPasswordHash h) "" then false else VerifyPasswordHash (AdminPasswordHash h) password.
Definition bearerMatches (h : AuthConfig) (r : HTTPRequest) : bool :=
  MatchesBearer (Authorization r) (AdminAPIKey h).
Definition bearer_identity (h : AuthConfig) : authIdentity := mkIdentity (adminUsername h) RoleAdmin "bearer".
Definition cookie_identity (claims : SessionClaims) : authIdentity :=
  mkIdentity (ClaimUsername claims) (ClaimRole claims) "cookie".
Definition session_active (env : AuthEnv) (db : AuthDB) (claims : SessionClaims) : StoreError + bool :=
  if negb (store_enabled env) then inl ErrDisabled
  else match statement_error env SessionActive with
  | Some e => inl (StoreFailed ("check admin session: " ++ e))
  | None => inr (AdminSessionActive (sql_now env) (SessionFingerprint (SessionID claims)) (sessions db))
  end.
Definition authSessionFromIdentity (id : authIdentity) : authSessionResponse :=
  mkSession (IdUsername id) (IdRole id) (negb (isAdmin id)) (isAdmin id) (isAdmin id)
    (if isAdmin id then "" else guestReadOnlyMessage).

Section Middleware.
Context {T : Type} (h : AuthConfig) (env : AuthEnv) (db : AuthDB) (r : HTTPRequest).
Context (next : option authIdentity → T) (reply : Response → T).

(** The part of [RequireAuthFunc] behind a valid cookie. *)
Definition require_claims (claims : SessionClaims) : T :=
  let guest_and_csrf :=
    match ensureGuestSessionActive env db claims with
    | Some None => reply (clearSessionCookie h r (WriteError 401 "unauthorized"))
    | Some (Some _) => reply (WriteError 503 "guest access validation unavailable")
    | None =>
        match (if isStateChangingMethod (Method r) then VerifyCSRF h r else None) with
        | Some e => reply (WriteError 403 ("CSRF verification failed: " ++ e))
        | None => next (Some (cookie_identity claims))
        end
    end in
  if String.eqb (ClaimRole claims) RoleAdmin then
    if String.eqb (SessionID claims) "" then reply (clearSessionCookie h r (WriteError 401 "unauthorized"))
    else match session_active env db claims with
    | inl _ => reply (WriteError 503 "session validation unavailable")
    | inr false => reply (clearSessionCookie h r (WriteError 401 "unauthorized"))
    | inr true => guest_and_csrf
    end
  else guest_and_csrf.
Definition RequireAuthFunc : T :=
  if bearerMatches h r then next (Some (bearer_identity h))
  else match SessionCookie r with
  | Some cookie =>
      if String.eqb cookie "" then reply (WriteError 401 "unauthorized")
      else match VerifySessionClaims cookie (SessionSecret h) (verify_now env) with
      | Ok claims => require_claims claims
      | Err _ => reply (WriteError 401 "unauthorized")
      end
  | None => reply (WriteError 401 "unauthorized")
  end.
Definition tryAuthIdentity : option authIdentity :=
  if HasBearerPrefix (Authorization r) then
    if negb (bearerMatches h r) then None else Some (bearer_identity h)
  else match SessionCookie r with
  | None => None
  | Some cookie =>
      if String.eqb cookie "" then None
      else match VerifySessionClaims cookie (SessionSecret h) (verify_now env) with
      | Err _ => None
      | Ok claims =>
          if String.eqb (ClaimRole claims) RoleAdmin
             && (String.eqb (SessionID claims) ""
                 || match session_active env db claims with inr true => false | _ => true end) then None
          else match ensureGuestSessionActive env db claims with
          | Some _ => None
          | None => Some (cookie_identity claims)
          end
      end
  end.
Definition AttachAuthIdentityFunc : T := next tryAuthIdentity.
End Middleware.

Definition RequireAdminFunc {T} h env db r (next : option authIdentity → T) (reply : Response → T) : T :=
  RequireAuthFunc h env db r (λ identity,
    match identity with
    | None => reply (WriteError 401 "unauthorized")
    | Some id => if negb (isAdmin id) then reply (WriteError 403 guestReadOnlyMessage) else next identity
    end) reply.
Definition RequireAdminForMutationFunc {T} h env db r (next : option authIdentity → T) (reply : Response → T) : T :=
  RequireAuthFunc h env db r (λ identity,
    match identity with
    | None => reply (WriteError 401 "unauthorized")
    | Some id =>
        if negb (isAdmin id) && isStateChangingMethod (Method r) then reply (WriteError 403 guestReadOnlyMessage)
        else next identity
    end) reply.

(** ** Handlers *)

(** The role a login earns: [inl] is the reply of a failing store. *)
Definition login_role (h : AuthConfig) (env : AuthEnv) (db : AuthDB) (req : loginRequest) : Response + string :=
  let username := TrimSpace (ToLower (LoginUsername req)) in
  if String.eqb username (adminUsername h)
  then inr (if adminPasswordMatches h (LoginPassword req) then RoleAdmin else "")
  else if String.eqb username RoleGuest then
    match loadGuestAccessConfig env db with
    | inl _ => inl (WriteError 503 "authentication store unavailable")
    | inr cfg => inr (if Exists cfg && Enabled cfg && VerifyPasswordHash (PasswordHash cfg) (LoginPassword req)
                      then RoleGuest else "")
    end
  else inr "".
(** The persisted part of an administrator's session: its identifier. *)
Definition persist_session (env : AuthEnv) (username : string) (db : AuthDB) : AuthDB * (Response + string) :=
  if negb (store_enabled env) then (db, inl (WriteError 503 "session store unavailable"))
  else match GenerateSecureRandomString (session_random env) with
  | Err _ => (db, inl (WriteError 500 "failed to generate session"))
  | Ok sessionID =>
      match statement_error env CreateSession with
      | Some _ => (db, inl (WriteError 503 "session store unavailable"))
      | None =>
          match CreateAdminSession (sql_now env) (SessionFingerprint sessionID) username
                  (session_now env + adminSessionTTL) (sessions db) with
          | Err _ => (db, inl (WriteError 503 "session store unavailable"))
          | Ok t =>
              let t := match statement_error env CleanupSessions with
                       | Some _ => t | None => (CleanupExpiredAdminSessions (sql_now env) t).1 end in
              (set_sessions t db, inr sessionID)
          end
      end
  end.
(** The second half of a login: the session of the earned role and its cookie. *)
Definition issue_session (h : AuthConfig) (env : AuthEnv) (r : HTTPRequest) (username role : string) (db : AuthDB)
    : Response * AuthDB :=
  if String.eqb role "" then (WriteError 401 "invalid username or password", db)
  else
    let '(db, session) :=
      if String.eqb role RoleAdmin then persist_session env username db else (db, inr "") in
    match session with
    | inl resp => (resp, db)
    | inr sessionID =>
        match GenerateSessionCookieValueForRole username role sessionID adminSessionTTL (SessionSecret h)
                (claims_now env) with
        | Err _ => (WriteError 500 "failed to generate session", db)
        | Ok token => (mkResponse 200 (PStatus "ok") (Some (mkCookie token 43200 (isHTTPS h r))), db)
        end
    end.
Definition AuthLoginHandler (h : AuthConfig) (env : AuthEnv) (r : HTTPRequest) (db : AuthDB) : Response * AuthDB :=
  if negb (String.eqb (Method r) "POST") then (WriteError 405 "method not allowed", db)
  else match decode_login 4096 (Body r) with
  | None => (WriteError 400 "invalid JSON body", db)
  | Some req =>
      match login_role h env db req with
      | inl resp => (resp, db)
      | inr role => issue_session h env r (TrimSpace (ToLower (LoginUsername req))) role db
      end
  end.

(** What a logout revokes: [inl] is the reply of a failing store. *)
Definition logout_revoke (h : AuthConfig) (env : AuthEnv) (r : HTTPRequest) (db : AuthDB) : Response + AuthDB :=
  match SessionCookie r with
  | None => inr db
  | Some cookie =>
      if String.eqb cookie "" then inr db
      else match VerifySessionClaims cookie (SessionSecret h) (verify_now env) with
      | Err _ => inr db
      | Ok claims =>
          if String.eqb (ClaimRole claims) RoleAdmin && negb (String.eqb (SessionID claims) "") then
            if negb (store_enabled env) then inl (WriteError 503 "session store unavailable")
            else match statement_error env RevokeSession with
            | Some _ => inl (WriteError 503 "session store unavailable")
            | None => inr (set_sessions (RevokeAdminSession (sql_now env) (SessionFingerprint (SessionID claims))
                                           (sessions db)) db)
            end
          else inr db
      end
  end.
Definition AuthLogoutHandler (h : AuthConfig) (env : AuthEnv) (r : HTTPRequest) (db : AuthDB) : Response * AuthDB :=
  if negb (String.eqb (Method r) "POST") then (WriteError 405 "method not allowed", db)
  else match logout_revoke h env r db with
  | inl resp => (resp, db)
  | inr db => (clearSessionCookie h r (mkResponse 200 (PStatus "ok") None), db)
  end.
Definition AuthSessionHandler (identity : option authIdentity) (r : HTTPRequest) : Response :=
  if negb (String.eqb (Method r) "GET") then WriteError 405 "method not allowed"
  else match identity with
  | None => WriteError 401 "unauthorized"
  | Some id => mkResponse 200 (PSession (authSessionFromIdentity id)) None
  end.

Definition save_and_report (env : AuthEnv) (cfg : guestAccessConfig) (db : AuthDB) : Response * AuthDB :=
  match saveGuestAccessConfig env cfg db with
  | (db, Some e) => (StoreErrorResponse e "failed to save the guest account", db)
  | (db, None) => (mkResponse 200 (PGuest (guestAccessStatus cfg)) None, db)
  end.
(** A new password of the guest: its hash or the reply that refuses it. *)
Definition new_password (env : AuthEnv) (password : string) : Response + string :=
  match validateGuestAccessPassword password with
  | Some e => inl (WriteError 400 e)
  | None => match HashPassword (password_salt env) password with
            | Err _ => inl (WriteError 500 "failed to set the guest password")
            | Ok hash => inr hash
            end
  end.
Definition GuestAccessHandler (env : AuthEnv) (r : HTTPRequest) (db : AuthDB) : Response * AuthDB :=
  if String.eqb (Method r) "GET" then
    match loadGuestAccessConfig env db with
    | inl e => (StoreErrorResponse e "database not available", db)
    | inr cfg => (mkResponse 200 (PGuest (guestAccessStatus cfg)) None, db)
    end
  else if String.eqb (Method r) "POST" then
    match decode_guest_request 8192 (Body r) with
    | None => (WriteError 400 "invalid JSON body", db)
    | Some req =>
        let password := TrimSpace (ReqPassword req) in
        if String.eqb password "" then (WriteError 400 "password is required", db)
        else match new_password env password with
        | inl resp => (resp, db)
        | inr hash => save_and_report env (mkGuest (default true (ReqEnabled req)) hash) db
        end
    end
  else if String.eqb (Method r) "PUT" then
    match loadGuestAccessConfig env db with
    | inl e => (StoreErrorResponse e "database not available", db)
    | inr cfg =>
        if negb (Exists cfg) then (WriteError 404 "guest account does not exist", db)
        else match decode_guest_request 8192 (Body r) with
        | None => (WriteError 400 "invalid JSON body", db)
        | Some req =>
            let enabled := default (Enabled cfg) (ReqEnabled req) in
            let password := TrimSpace (ReqPassword req) in
            if String.eqb password "" then save_and_report env (mkGuest enabled (PasswordHash cfg)) db
            else match new_password env password with
            | inl resp => (resp, db)
            | inr hash => save_and_report env (mkGuest enabled hash) db
            end
        end
    end
  else if String.eqb (Method r) "DELETE" then
    match clearGuestAccessConfig env db with
    | (db, Some e) => (StoreErrorResponse e "failed to delete the guest account", db)
    | (db, None) => (mkResponse 200 (PStatus "deleted") None, db)
    end
  else (WriteError 405 "method not allowed", db).
End API.
