(* ===== verification/Routes.v ===== *)
(** * Routes: [internal/api/server/routes.go]

    The route table, the middleware each label stands for, and the handlers of the
    authentication routes behind it.  The other handlers are a parameter: they read and
    write nothing of the session table or of the guest account. *)

From Stdlib Require Import ZArith Lia Ascii String.
From S2P Require Import Prelude GoStr NetIP ClientIP NetGuard Session AuthAPI.

Inductive RouteAuth := AuthPublic | AuthAttachIdentity | AuthAny | AuthAdmin | AuthAdminMutation.
#[export] Instance RouteAuth_eq_dec : EqDecision RouteAuth.
Proof. solve_decision. Defined.
Record RouteSpec := mkRoute { Path : string; Methods : list string; Auth : RouteAuth }.

Definition apiRoutes : list RouteSpec := [
    mkRoute "/v1/status" ["GET"] AuthAny;
    mkRoute "/healthz" ["GET"] AuthPublic;
    mkRoute "/readyz" ["GET"] AuthPublic;
    mkRoute "/v1/version" ["GET"] AuthPublic;
    mkRoute "/metrics" ["GET"] AuthAdmin;
    mkRoute "/metrics/prometheus" ["GET"] AuthAdmin;
    mkRoute "/v1/cache/flush" ["POST"] AuthAdminMutation;
    mkRoute "/v1/logs/export" ["GET"] AuthAdmin;
    mkRoute "/block" ["GET"] AuthPublic;
    mkRoute "/block/report" ["POST"] AuthPublic;
    mkRoute "/v1/auth/login" ["POST"] AuthPublic;
    mkRoute "/v1/auth/logout" ["POST"] AuthAny;
    mkRoute "/v1/auth/session" ["GET"] AuthAny;
    mkRoute "/v1/analyze" ["GET"; "POST"] AuthAttachIdentity;
    mkRoute "/v1/url-ml/feedback" ["POST"] AuthAny;
    mkRoute "/v1/analyze/raw" ["GET"] AuthAny;
    mkRoute "/v1/osint/evidence" ["GET"] AuthAny;
    mkRoute "/v1/analysis/recent" ["GET"] AuthAny;
    mkRoute "/v1/overrides" ["GET"; "POST"; "DELETE"] AuthAdminMutation;
    mkRoute "/v1/overrides/review-false-positive" ["POST"] AuthAdmin;
    mkRoute "/v1/reports" ["GET"] AuthAdmin;
    mkRoute "/v1/reports/status" ["POST"] AuthAdmin;
    mkRoute "/v1/brands" ["GET"; "POST"; "PUT"; "DELETE"] AuthAdminMutation;
    mkRoute "/v1/telemetry/recent" ["GET"] AuthAny;
    mkRoute "/v1/telemetry/stats" ["GET"] AuthAny;
    mkRoute "/v1/agent/status" ["GET"] AuthAny;
    mkRoute "/v1/agent/trigger" ["POST"] AuthAdmin;
    mkRoute "/v1/agent/proposals" ["GET"; "POST"] AuthAdminMutation;
    mkRoute "/v1/whitelist/snapshots" ["GET"] AuthAdmin;
    mkRoute "/v1/whitelist/rollback" ["POST"] AuthAdmin;
    mkRoute "/v1/groups" ["GET"; "POST"; "PUT"; "DELETE"] AuthAdminMutation;
    mkRoute "/v1/mappings" ["GET"; "POST"; "DELETE"] AuthAdminMutation;
    mkRoute "/v1/group-overrides" ["GET"; "POST"; "PUT"; "DELETE"] AuthAdminMutation;
    mkRoute "/v1/settings" ["GET"; "POST"] AuthAdmin;
    mkRoute "/v1/settings/bundle" ["GET"] AuthAdmin;
    mkRoute "/v1/settings/test-ai" ["POST"] AuthAdmin;
    mkRoute "/v1/settings/test-alert" ["POST"] AuthAdmin;
    mkRoute "/v1/settings/guest-access" ["GET"; "POST"; "PUT"; "DELETE"] AuthAdmin;
    mkRoute "/v1/config/analysis" ["GET"; "PUT"] AuthAdmin;
    mkRoute "/v1/config/analysis/reset" ["POST"] AuthAdmin
  ].

Section Routes.
Context `{UnicodeTables, Crypto, ClaimsJSON, Bodies}.

Definition applyRouteAuth {T} (h : AuthConfig) (env : AuthEnv) (db : AuthDB) (r : HTTPRequest) (auth : RouteAuth)
    (handler : option authIdentity → T) (reply : Response → T) : T :=
  match auth with
  | AuthPublic => handler None
  | AuthAttachIdentity => AttachAuthIdentityFunc h env db r handler
  | AuthAny => RequireAuthFunc h env db r handler reply
  | AuthAdmin => RequireAdminFunc h env db r handler reply
  | AuthAdminMutation => RequireAdminForMutationFunc h env db r handler reply
  end.

(** The handlers outside this file. *)
Context (other : option authIdentity → HTTPRequest → Response).

Definition apiHandlers (h : AuthConfig) (env : AuthEnv) (db : AuthDB) (r : HTTPRequest) (path : string)
    (identity : option authIdentity) : Response * AuthDB :=
  if String.eqb path "/v1/auth/login" then AuthLoginHandler h env r db
  else if String.eqb path "/v1/auth/logout" then AuthLogoutHandler h env r db
  else if String.eqb path "/v1/auth/session" then (AuthSessionHandler identity r, db)
  else if String.eqb path "/v1/settings/guest-access" then GuestAccessHandler env r db
  else (other identity r, db).
Definition find_route (path : string) : option RouteSpec := find (λ rt, String.eqb (Path rt) path) apiRoutes.
(** One request to an API route; other paths are served by other handlers of the mux. *)
Definition serve (h : AuthConfig) (env : AuthEnv) (r : HTTPRequest) (db : AuthDB) : Response * AuthDB :=
  match find_route (ReqPath r) with
  | None => (other None r, db)
  | Some route =>
      applyRouteAuth h env db r (Auth route) (apiHandlers h env db r (Path route)) (λ resp, (resp, db))
  end.
End Routes.
