(* ===== verification/AuthSpec.v ===== *)
(** * Theorems about the authentication of the API

    Who reaches a handler: the holder of the API key, or of a session that a password
    opened and no logout closed, through every history of requests; that such a session
    works until then; and how the two middlewares agree. *)

From Stdlib Require Import ZArith Lia Ascii String.
From S2P Require Import Prelude GoStr NetIP GoFloat ClientIP NetGuard Feed FeedSync DomainML Session SessionSpec AuthAPI Routes.

(** Replies by which the middleware ends a request. *)
Definition refusal (resp : Response) : Prop :=
  Status resp = 401%Z ∨ Status resp = 403%Z ∨ Status resp = 503%Z.

Section Middleware.
Context `{UnicodeTables, Crypto, ClaimsJSON, Bodies}.

(** The decision of a middleware, apart from what is behind it. *)
Definition gate (h : AuthConfig) (env : AuthEnv) (db : AuthDB) (r : HTTPRequest) (a : RouteAuth)
    : Response + option authIdentity := applyRouteAuth h env db r a inr inl.

Ltac cases := repeat (case_match; try done).
Lemma require_natural {T} h env db r (next : option authIdentity → T) reply :
  RequireAuthFunc h env db r next reply
  = match RequireAuthFunc h env db r inr inl with inl resp => reply resp | inr id => next id end.
Proof. unfold RequireAuthFunc, require_claims. cbv zeta. cases. Qed.
Lemma gate_natural {T} h env db r a (next : option authIdentity → T) reply :
  applyRouteAuth h env db r a next reply = match gate h env db r a with inl resp => reply resp | inr id => next id end.
Proof.
  unfold gate. destruct a; cbn [applyRouteAuth]; try done.
  - apply require_natural.
  - unfold RequireAdminFunc. rewrite require_natural. symmetry. rewrite require_natural.
    destruct (RequireAuthFunc h env db r inr inl) as [resp|[id|]]; [done| |done]. by destruct (negb (isAdmin id)).
  - unfold RequireAdminForMutationFunc. rewrite require_natural. symmetry. rewrite require_natural.
    destruct (RequireAuthFunc h env db r inr inl) as [resp|[id|]]; [done| |done].
    by destruct (negb (isAdmin id) && isStateChangingMethod (Method r)).
Qed.

(** A cookie the middleware accepts. *)
Definition good_cookie (h : AuthConfig) (env : AuthEnv) (db : AuthDB) (r : HTTPRequest) (claims : SessionClaims)
    : Prop :=
  (∃ cookie, SessionCookie r = Some cookie ∧ cookie ≠ ""
             ∧ VerifySessionClaims cookie (SessionSecret h) (verify_now env) = Ok claims)
  ∧ (ClaimRole claims = RoleAdmin → SessionID claims ≠ "" ∧ session_active env db claims = inr true)
  ∧ ensureGuestSessionActive env db claims = None.
Definition csrf_ok (h : AuthConfig) (r : HTTPRequest) : Prop :=
  isStateChangingMethod (Method r) = true → ValidCSRFSources h r = true.

(** The checks that guests and administrators share. *)
Definition guest_tail (h : AuthConfig) (env : AuthEnv) (db : AuthDB) (r : HTTPRequest) (claims : SessionClaims)
    : Response + option authIdentity :=
  match ensureGuestSessionActive env db claims with
  | Some None => inl (clearSessionCookie h r (WriteError 401 "unauthorized"))
  | Some (Some _) => inl (WriteError 503 "guest access validation unavailable")
  | None => match (if isStateChangingMethod (Method r) then VerifyCSRF h r else None) with
            | Some e => inl (WriteError 403 ("CSRF verification failed: " ++ e))
            | None => inr (Some (cookie_identity claims))
            end
  end.
Lemma tail_spec h env db r claims :
  match guest_tail h env db r claims with
  | inl resp => refusal resp ∧ ¬ (ensureGuestSessionActive env db claims = None ∧ csrf_ok h r)
  | inr id => id = Some (cookie_identity claims) ∧ ensureGuestSessionActive env db claims = None ∧ csrf_ok h r
  end.
Proof.
  unfold guest_tail. destruct (ensureGuestSessionActive env db claims) as [[e|]|] eqn:Hg.
  1, 2: split; [unfold refusal; cbn; tauto|by intros [? _]].
  unfold csrf_ok, VerifyCSRF. destruct (isStateChangingMethod (Method r)) eqn:Hm; [|done].
  destruct (ValidCSRFSources h r) eqn:Hs; cbn [negb]; [done|].
  split; [unfold refusal; cbn; tauto|]. intros [_ Hx]. by specialize (Hx eq_refl).
Qed.
Lemma require_claims_tail h env db r claims :
  require_claims h env db r inr inl claims
  = if String.eqb (ClaimRole claims) RoleAdmin then
      if String.eqb (SessionID claims) "" then inl (clearSessionCookie h r (WriteError 401 "unauthorized"))
      else match session_active env db claims with
      | inl _ => inl (WriteError 503 "session validation unavailable")
      | inr false => inl (clearSessionCookie h r (WriteError 401 "unauthorized"))
      | inr true => guest_tail h env db r claims
      end
    else guest_tail h env db r claims.
Proof. done. Qed.
Lemma require_claims_spec h env db r claims cookie :
  SessionCookie r = Some cookie → cookie ≠ "" →
  VerifySessionClaims cookie (SessionSecret h) (verify_now env) = Ok claims →
  match require_claims h env db r inr inl claims with
  | inl resp => refusal resp ∧ ¬ (good_cookie h env db r claims ∧ csrf_ok h r)
  | inr id => id = Some (cookie_identity claims) ∧ good_cookie h env db r claims ∧ csrf_ok h r
  end.
Proof.
  intros Hc Hne Hv. rewrite require_claims_tail.
  pose proof (tail_spec h env db r claims) as Htail. set (tail := guest_tail h env db r claims) in *.
  unfold good_cookie. destruct (String.eqb_spec (ClaimRole claims) RoleAdmin) as [Hr|Hr].
  - destruct (String.eqb_spec (SessionID claims) "") as [Hi|Hi].
    { split; [unfold refusal; cbn; tauto|]. intros [(_ & Ha & _) _]. by apply Ha in Hr as [? _]. }
    destruct (session_active env db claims) as [e|[]] eqn:Hs.
    2: { destruct tail; [split; [apply Htail|]; intros [(_ & _ & Hg) Hx]; by apply Htail|]. naive_solver. }
    all: split; [unfold refusal; cbn; tauto|]; intros [(_ & Ha & _) _]; by apply Ha in Hr as [_ ?].
  - destruct tail.
    + split; [apply Htail|]. intros [(_ & _ & Hg) Hx]. by apply Htail.
    + split; [apply Htail|]. split; [|apply Htail]. split; [by exists cookie|]. split; [done|apply Htail].
Qed.
(** What [RequireAuthFunc] lets through and what it answers otherwise. *)
Lemma require_spec h env db r :
  match RequireAuthFunc h env db r inr inl with
  | inl resp => refusal resp ∧ bearerMatches h r = false
                ∧ ∀ claims, ¬ (good_cookie h env db r claims ∧ csrf_ok h r)
  | inr id => (bearerMatches h r = true ∧ id = Some (bearer_identity h))
              ∨ bearerMatches h r = false
                ∧ ∃ claims, id = Some (cookie_identity claims) ∧ good_cookie h env db r claims ∧ csrf_ok h r
  end.
Proof.
  unfold RequireAuthFunc. destruct (bearerMatches h r) eqn:Hb; [by left|].
  assert (refusal (WriteError 401 "unauthorized")) as H401 by (unfold refusal; cbn; tauto).
  destruct (SessionCookie r) as [cookie|] eqn:Hc.
  2: { split; [done|]. split; [done|]. intros claims [((? & ? & _) & _) _]. congruence. }
  destruct (String.eqb_spec cookie "") as [->|Hne].
  { split; [done|]. split; [done|]. intros claims [((? & ? & ? & _) & _) _]. congruence. }
  destruct (VerifySessionClaims cookie (SessionSecret h) (verify_now env)) as [claims|e] eqn:Hv.
  2: { split; [done|]. split; [done|]. intros claims [((? & ? & _ & ?) & _) _]. congruence. }
  pose proof (require_claims_spec h env db r claims cookie Hc Hne Hv) as Hspec.
  destruct (require_claims _ _ _ _ _ _ _) as [resp|id].
  - split; [apply Hspec|]. split; [done|]. intros claims' [Hg Hx]. apply Hspec. split; [|done].
    assert (claims' = claims) as -> by (destruct Hg as ((? & ? & _ & ?) & _); congruence). done.
  - right. split; [done|]. exists claims. apply Hspec.
Qed.
End Middleware.

(** ** Histories *)

Inductive Event :=
| Exchanged (conf : AuthConfig) (env : AuthEnv) (req : HTTPRequest) (resp : Response)
| Cleaned (sql_now : Z).

Section Histories.
Context `{UnicodeTables, Crypto, ClaimsJSON, Bodies}.

(** Requests to API routes under any configuration, and the periodic cleaning of the
    session table.  The newest event comes first. *)
Definition AuthState : Type := list Event * AuthDB.
Inductive step : AuthState → AuthState → Prop :=
| step_serve other conf env req resp hist db db' :
    serve other conf env req db = (resp, db') →
    step (hist, db) (Exchanged conf env req resp :: hist, db')
| step_clean sql_now hist db :
    step (hist, db)
      (Cleaned sql_now :: hist, set_sessions (CleanupExpiredAdminSessions sql_now (sessions db)).1 db).
(** A new installation: no session, any guest account. *)
Definition fresh (s : AuthState) : Prop := s.1 = [] ∧ sessions s.2 = [].

(** A login with the administrator's name and password, the session identifier it drew
    and the second its session expires. *)
Definition admin_login (e : Event) (fp : string) (expires : Z) : Prop :=
  match e with
  | Exchanged conf env req _ =>
      ReqPath req = "/v1/auth/login" ∧ Method req = "POST"
      ∧ (∃ body, decode_login 4096 (Body req) = Some body
                 ∧ TrimSpace (ToLower (LoginUsername body)) = adminUsername conf
                 ∧ AdminPasswordHash conf ≠ ""
                 ∧ VerifyPasswordHash (AdminPasswordHash conf) (LoginPassword body) = true)
      ∧ (∃ bytes, session_random env = Ok bytes ∧ fp = SessionFingerprint (hex_string bytes))
      ∧ expires = unix (session_now env + adminSessionTTL)
  | Cleaned _ => False
  end.
(** A logout that reported success, with a cookie of the session. *)
Definition logged_out (e : Event) (fp : string) : Prop :=
  match e with
  | Exchanged conf env req resp =>
      ReqPath req = "/v1/auth/logout" ∧ Status resp = 200%Z
      ∧ ∃ cookie claims, SessionCookie req = Some cookie ∧ cookie ≠ ""
          ∧ VerifySessionClaims cookie (SessionSecret conf) (verify_now env) = Ok claims
          ∧ ClaimRole claims = RoleAdmin ∧ SessionID claims ≠ ""
          ∧ SessionFingerprint (SessionID claims) = fp
  | Cleaned _ => False
  end.
(** The session was opened by a password and no logout reported it closed since. *)
Definition live (hist : list Event) (fp : string) (expires : Z) : Prop :=
  ∃ later login earlier, hist = (later ++ login :: earlier)%list
    ∧ admin_login login fp expires ∧ Forall (λ e, ¬ logged_out e fp) later.
Lemma live_cons e hist fp expires : live hist fp expires → ¬ logged_out e fp → live (e :: hist) fp expires.
Proof.
  intros (later & login & earlier & -> & Hl & Hf) He. exists (e :: later), login, earlier.
  split; [done|]. split; [done|]. by apply Forall_cons.
Qed.

(** *** What a request changes *)

Lemma find_route_some path route : find_route path = Some route → route ∈ apiRoutes ∧ Path route = path.
Proof. intros [Hin He]%find_some. split; [by apply list_elem_of_In|by apply String.eqb_eq]. Qed.
Lemma guest_sessions env r db : sessions (GuestAccessHandler env r db).2 = sessions db.
Proof.
  unfold GuestAccessHandler, save_and_report, saveGuestAccessConfig, clearGuestAccessConfig, set_guest_config.
  repeat (case_match; simplify_eq/=; try done).
Qed.
Lemma serve_gate other h env r db :
  serve other h env r db
  = match find_route (ReqPath r) with
    | None => (other None r, db)
    | Some route =>
        match gate h env db r (Auth route) with
        | inl resp => (resp, db)
        | inr id => apiHandlers other h env db r (Path route) id
        end
    end.
Proof. unfold serve. destruct (find_route (ReqPath r)); [|done]. by rewrite gate_natural. Qed.
Lemma refused_status h env db r a resp : gate h env db r a = inl resp → refusal resp.
Proof.
  unfold gate. intros Hg. pose proof (require_spec h env db r) as Hspec.
  assert (∀ x, WriteError 403 x = resp → refusal resp) as H403 by (intros x <-; unfold refusal; cbn; tauto).
  destruct a; cbn [applyRouteAuth] in Hg; try done.
  - rewrite Hg in Hspec. apply Hspec.
  - unfold RequireAdminFunc in Hg. rewrite require_natural in Hg.
    destruct (RequireAuthFunc h env db r inr inl) as [resp'|[id|]]; [injection Hg as <-; apply Hspec| |naive_solver].
    destruct (negb (isAdmin id)); [|done]. injection Hg. apply H403.
  - unfold RequireAdminForMutationFunc in Hg. rewrite require_natural in Hg.
    destruct (RequireAuthFunc h env db r inr inl) as [resp'|[id|]]; [injection Hg as <-; apply Hspec| |naive_solver].
    destruct (negb (isAdmin id) && _); [|done]. injection Hg. apply H403.
Qed.
(** Only logins and logouts touch the table. *)
Lemma serve_elsewhere other h env r db resp db' :
  serve other h env r db = (resp, db') →
  ReqPath r ≠ "/v1/auth/login" → ReqPath r ≠ "/v1/auth/logout" → sessions db' = sessions db.
Proof.
  rewrite serve_gate. destruct (find_route (ReqPath r)) as [route|] eqn:Hf; [|by intros [= _ <-]].
  apply find_route_some in Hf as [_ <-]. intros Hs Hin Hout.
  destruct (gate h env db r (Auth route)) as [resp'|id]; [by injection Hs as _ <-|].
  unfold apiHandlers in Hs. apply String.eqb_neq in Hin, Hout. rewrite Hin, Hout in Hs.
  destruct (String.eqb (Path route) "/v1/auth/session"); [by injection Hs as _ <-|].
  destruct (String.eqb (Path route) "/v1/settings/guest-access"); [|by injection Hs as _ <-].
  pose proof (guest_sessions env r db) as Hg. by rewrite Hs in Hg.
Qed.

(** The row a login inserts. *)
Definition login_row (env : AuthEnv) (username bytes : string) : SessionRow :=
  mkRow (SessionFingerprint (hex_string bytes)) username (sql_now env) (unix (session_now env + adminSessionTTL)) None.
Lemma persist_cases env username db db' session :
  persist_session env username db = (db', session) →
  (db' = db ∧ ∃ resp, session = inl resp ∧ SetCookie resp = None) ∨
  ∃ bytes, session_random env = Ok bytes ∧ session = inr (hex_string bytes)
    ∧ (sessions db' = (sessions db ++ [login_row env username bytes])%list
       ∨ sessions db' = cleanup_rows (sql_now env) 500 (sessions db ++ [login_row env username bytes])%list).
Proof.
  unfold persist_session. destruct (negb (store_enabled env)); [intros [= <- <-]; by eauto|].
  destruct (GenerateSecureRandomString (session_random env)) as [sid|] eqn:Hr; [|intros [= <- <-]; by eauto].
  destruct (statement_error env CreateSession); [intros [= <- <-]; by eauto|].
  destruct (CreateAdminSession _ _ _ _ _) as [t|] eqn:Hc; [|intros [= <- <-]; by eauto].
  apply create_rows in Hc. unfold GenerateSecureRandomString in Hr.
  destruct (session_random env) as [bytes|]; [|done]. injection Hr as <-. cbv zeta. intros [= <- <-]. right.
  exists bytes. split; [done|]. split; [done|]. cbn [sessions set_sessions]. subst t. unfold login_row.
  destruct (statement_error env CleanupSessions); [by left|by right].
Qed.
Lemma issue_guest h env r username role db : role ≠ RoleAdmin → (issue_session h env r username role db).2 = db.
Proof. intros Hr%String.eqb_neq. unfold issue_session. rewrite Hr. by repeat case_match. Qed.
Lemma issue_admin h env r username db resp db' :
  issue_session h env r username RoleAdmin db = (resp, db') →
  ∃ session, persist_session env username db = (db', session)
    ∧ match session with
      | inl resp' => resp = resp'
      | inr sid => match GenerateSessionCookieValueForRole username RoleAdmin sid adminSessionTTL (SessionSecret h)
                           (claims_now env) with
                   | Err _ => Status resp = 500%Z
                   | Ok token => SetCookie resp = Some (mkCookie token 43200 (isHTTPS h r)) ∧ Status resp = 200%Z
                   end
      end.
Proof.
  unfold issue_session. change (String.eqb RoleAdmin "") with false. change (String.eqb RoleAdmin RoleAdmin) with true.
  cbv iota. destruct (persist_session env username db) as [db1 [resp'|sid]].
  - intros [= <- <-]. by eexists.
  - destruct (GenerateSessionCookieValueForRole _ _ _ _ _ _) eqn:Hg; intros [= <- <-]; eexists; (split; [done|]); cbv beta iota; by rewrite ?Hg.
Qed.
Lemma login_role_admin h env db body role :
  login_role h env db body = inr role → role = RoleAdmin →
  TrimSpace (ToLower (LoginUsername body)) = adminUsername h ∧ AdminPasswordHash h ≠ ""
  ∧ VerifyPasswordHash (AdminPasswordHash h) (LoginPassword body) = true.
Proof.
  unfold login_role, adminPasswordMatches. cbv zeta.
  destruct (String.eqb_spec (TrimSpace (ToLower (LoginUsername body))) (adminUsername h)) as [Hu|Hu].
  - intros [= <-]. destruct (String.eqb_spec (AdminPasswordHash h) ""); [done|].
    by destruct (VerifyPasswordHash _ _).
  - repeat case_match; intros [= <-]; done.
Qed.
Lemma login_cases other h env r db resp db' :
  serve other h env r db = (resp, db') → ReqPath r = "/v1/auth/login" →
  db' = db ∨
  ∃ body bytes,
    admin_login (Exchanged h env r resp) (SessionFingerprint (hex_string bytes))
      (unix (session_now env + adminSessionTTL))
    ∧ issue_session h env r (TrimSpace (ToLower (LoginUsername body))) RoleAdmin db = (resp, db')
    ∧ session_random env = Ok bytes
    ∧ (let row := login_row env (TrimSpace (ToLower (LoginUsername body))) bytes in
       sessions db' = (sessions db ++ [row])%list
       ∨ sessions db' = cleanup_rows (sql_now env) 500 (sessions db ++ [row])%list).
Proof.
  intros Hs Hp. rewrite serve_gate, Hp in Hs.
  change (AuthLoginHandler h env r db = (resp, db')) in Hs. unfold AuthLoginHandler in Hs.
  destruct (String.eqb_spec (Method r) "POST") as [Hm|_]; [|injection Hs as _ <-; by left]. cbn [negb] in Hs.
  destruct (decode_login 4096 (Body r)) as [body|] eqn:Hd; [|injection Hs as _ <-; by left].
  destruct (login_role h env db body) as [|role] eqn:Hrole; [injection Hs as _ <-; by left|].
  destruct (decide (role = RoleAdmin)) as [->|Hne].
  2: { left. pose proof (issue_guest h env r (TrimSpace (ToLower (LoginUsername body))) role db Hne) as Hg.
       by rewrite Hs in Hg. }
  destruct (login_role_admin h env db body RoleAdmin Hrole eq_refl) as (Hu & He & Hv).
  destruct (issue_admin _ _ _ _ _ _ _ Hs) as (session & Hpers & _).
  destruct (persist_cases _ _ _ _ _ Hpers) as [[-> _]|(bytes & Hb & _ & Hrow)]; [by left|].
  right. exists body, bytes. split; [|done]. split; [done|]. split; [done|]. split; [by exists body|].
  split; [by exists bytes|done].
Qed.
Lemma logout_cases other h env r db resp db' :
  serve other h env r db = (resp, db') → ReqPath r = "/v1/auth/logout" →
  (sessions db' = sessions db ∧ ∀ fp, ¬ logged_out (Exchanged h env r resp) fp) ∨
  ∃ fp, logged_out (Exchanged h env r resp) fp ∧ sessions db' = RevokeAdminSession (sql_now env) fp (sessions db)
        ∧ ∀ fp', logged_out (Exchanged h env r resp) fp' → fp' = fp.
Proof.
  intros Hs Hp. rewrite serve_gate, Hp in Hs.
  change (match gate h env db r AuthAny with
          | inl resp => (resp, db) | inr id => AuthLogoutHandler h env r db end = (resp, db')) in Hs.
  destruct (gate h env db r AuthAny) as [resp'|id] eqn:Hg.
  { injection Hs as -> <-. apply refused_status in Hg. left. split; [done|]. intros fp (_ & H200 & _).
    unfold refusal in Hg. lia. }
  unfold AuthLogoutHandler, logout_revoke in Hs.
  destruct (String.eqb (Method r) "POST"); cbn [negb] in Hs.
  2: { injection Hs as <- <-. left. split; [done|]. by intros fp (_ & [=] & _). }
  assert (∀ x, (∀ fp, ¬ logged_out (Exchanged h env r x) fp) → sessions db' = sessions db → x = resp →
    (sessions db' = sessions db ∧ ∀ fp, ¬ logged_out (Exchanged h env r resp) fp)) as Hleft by by intros x ? ? <-.
  destruct (SessionCookie r) as [cookie|] eqn:Hc.
  2: { injection Hs as <- <-. left. split; [done|]. intros fp (_ & _ & ? & ? & ? & _). congruence. }
  destruct (String.eqb_spec cookie "") as [->|Hne].
  { injection Hs as <- <-. left. split; [done|]. intros fp (_ & _ & ? & ? & ? & ? & _). congruence. }
  destruct (VerifySessionClaims cookie (SessionSecret h) (verify_now env)) as [claims|] eqn:Hv.
  2: { injection Hs as <- <-. left. split; [done|]. intros fp (_ & _ & ? & ? & ? & _ & ? & _). congruence. }
  destruct (String.eqb_spec (ClaimRole claims) RoleAdmin) as [Hr|Hr]; cbn [andb] in Hs.
  2: { injection Hs as <- <-. left. split; [done|]. intros fp (_ & _ & ? & c & ? & _ & ? & ? & _).
       assert (c = claims) by congruence. congruence. }
  destruct (String.eqb_spec (SessionID claims) "") as [Hi|Hi]; cbn [negb andb] in Hs.
  { injection Hs as <- <-. left. split; [done|]. intros fp (_ & _ & ? & c & ? & _ & ? & _ & ? & _).
    assert (c = claims) by congruence. congruence. }
  destruct (negb (store_enabled env)).
  { injection Hs as <- <-. left. split; [done|]. by intros fp (_ & [=] & _). }
  destruct (statement_error env RevokeSession).
  { injection Hs as <- <-. left. split; [done|]. by intros fp (_ & [=] & _). }
  injection Hs as <- <-. right. exists (SessionFingerprint (SessionID claims)).
  split; [|split; [done|]].
  - split; [done|]. split; [done|]. by exists cookie, claims.
  - intros fp' (_ & _ & ? & c & ? & _ & ? & _ & _ & <-). assert (c = claims) as -> by congruence. done.
Qed.
End Histories.

Section Authority.
Context `{UnicodeTables, Crypto, ClaimsJSON, Bodies}.

Definition sql_time (e : Event) : Z :=
  match e with Exchanged _ env _ _ => sql_now env | Cleaned t => t end.

(** An unrevoked row was there before or a login inserted it, and was not logged out. *)
Lemma row_origin e hist db db' row :
  step (hist, db) (e :: hist, db') → row ∈ sessions db' → RevokedAt row = None →
  ((row ∈ sessions db ∧ ¬ logged_out e (Fingerprint row)) ∨ admin_login e (Fingerprint row) (RowExpiresAt row)).
Proof.
  intros Hstep Hrow Hr. inversion Hstep as [other conf env req resp ? ? ? Hs|now]; subst.
  2: { left. split; [exact (cleanup_subset _ _ _ _ Hrow)|by intros []]. }
  destruct (decide (ReqPath req = "/v1/auth/login")) as [Hin|Hin].
  { destruct (login_cases _ _ _ _ _ _ _ Hs Hin) as [->|(body & bytes & Hl & _ & Hb & Hdb)].
    - left. split; [done|]. intros [Hp _]. congruence.
    - assert (row ∈ (sessions db ++ [login_row env (TrimSpace (ToLower (LoginUsername body))) bytes])%list) as Hel.
      { destruct Hdb as [Hdb|Hdb]; rewrite Hdb in Hrow; [done|by eapply cleanup_subset]. }
      apply elem_of_app in Hel as [Hel|Hel%list_elem_of_singleton]; [left|right; by subst row].
      split; [done|]. intros [Hp _]. congruence. }
  destruct (decide (ReqPath req = "/v1/auth/logout")) as [Hout|Hout].
  { destruct (logout_cases _ _ _ _ _ _ _ Hs Hout) as [[Heq Hno]|(fp & Hl & Heq & Huniq)];
      rewrite Heq in Hrow; left; [by split|].
    destruct (elem_revoke _ _ _ _ Hrow Hr) as [Hel Hne]. split; [done|]. by intros Hx%Huniq. }
  left. rewrite (serve_elsewhere _ _ _ _ _ _ _ Hs Hin Hout) in Hrow. split; [done|]. by intros [? _].
Qed.
(** A row stays until it is logged out or outdated. *)
Lemma row_kept e hist db db' row :
  step (hist, db) (e :: hist, db') → row ∈ sessions db → RevokedAt row = None →
  ¬ logged_out e (Fingerprint row) → (sql_time e < RowExpiresAt row + 86400)%Z → row ∈ sessions db'.
Proof.
  intros Hstep Hrow Hr Hno Ht. inversion Hstep as [other conf env req resp ? ? ? Hs|now]; subst; cbn in Ht.
  2: { exact (cleanup_keeps now 500 _ row Hrow (row_not_outdated now row Hr Ht)). }
  destruct (decide (ReqPath req = "/v1/auth/login")) as [Hin|Hin].
  { destruct (login_cases _ _ _ _ _ _ _ Hs Hin) as [->|(body & bytes & _ & _ & _ & Hdb)]; [done|].
    destruct Hdb as [->| ->]; [|apply cleanup_keeps; [|by apply row_not_outdated]]; apply elem_of_app; by left. }
  destruct (decide (ReqPath req = "/v1/auth/logout")) as [Hout|Hout].
  { destruct (logout_cases _ _ _ _ _ _ _ Hs Hout) as [[-> _]|(fp & Hl & -> & _)]; [done|].
    apply revoke_keeps; [done|]. by intros <-. }
  by rewrite (serve_elsewhere _ _ _ _ _ _ _ Hs Hin Hout).
Qed.
Lemma step_event s s' : step s s' → ∃ e, s'.1 = e :: s.1.
Proof. intros []; by eexists. Qed.

(** Every unrevoked row belongs to a live session. *)
Definition rows_live (s : AuthState) : Prop :=
  ∀ row, row ∈ sessions s.2 → RevokedAt row = None → live s.1 (Fingerprint row) (RowExpiresAt row).
Lemma rows_live_step s s' : step s s' → rows_live s → rows_live s'.
Proof.
  intros Hstep Hs row Hrow Hr. destruct s as [hist db], s' as [hist' db'].
  destruct (step_event _ _ Hstep) as [e He]. cbn in *. subst hist'.
  destruct (row_origin _ _ _ _ _ Hstep Hrow Hr) as [[Hel Hno]|Hl].
  - by apply live_cons; [apply Hs|].
  - exists [], e, hist. split; [done|]. by split.
Qed.
Lemma rows_live_run s0 s : fresh s0 → rtc step s0 s → rows_live s.
Proof.
  intros [_ Hfresh] Hrun. assert (rows_live s0) as Hs.
  { intros row Hrow. rewrite Hfresh in Hrow. by apply elem_of_nil in Hrow. }
  clear Hfresh. induction Hrun as [|s1 s2 s3 H12 _ IH]; [done|]. apply IH. by apply (rows_live_step s1).
Qed.

(** The holder of the API key. *)
Definition api_key (h : AuthConfig) (r : HTTPRequest) : Prop :=
  ∃ token, Authorization r = bearerPrefix ++ token ∧ token ≠ "" ∧ AdminAPIKey h ≠ ""
           ∧ sha256 token = sha256 (AdminAPIKey h).
(** The holder of a signed cookie of a live session, on a working store, from the
    service's own site. *)
Definition live_cookie (hist : list Event) (h : AuthConfig) (env : AuthEnv) (r : HTTPRequest) : Prop :=
  ∃ payload claims expires,
    SessionCookie r = Some (payload ++ "." ++ SignToken payload (SessionSecret h))
    ∧ VerifySessionClaims (payload ++ "." ++ SignToken payload (SessionSecret h)) (SessionSecret h) (verify_now env)
      = Ok claims
    ∧ SessionID claims ≠ "" ∧ (unix (verify_now env) <= ExpiresAt claims)%Z
    ∧ live hist (SessionFingerprint (SessionID claims)) expires ∧ (sql_now env < expires)%Z
    ∧ store_enabled env = true ∧ statement_error env SessionActive = None
    ∧ (isStateChangingMethod (Method r) = true → ValidCSRFSources h r = true).

Lemma session_active_true env db claims :
  session_active env db claims = inr true ↔
  store_enabled env = true ∧ statement_error env SessionActive = None
  ∧ AdminSessionActive (sql_now env) (SessionFingerprint (SessionID claims)) (sessions db) = true.
Proof.
  unfold session_active. destruct (store_enabled env); cbn [negb]; [|naive_solver].
  destruct (statement_error env SessionActive); [naive_solver|]. split; [intros [= ?]; done|by intros (_ & _ & ->)].
Qed.
Lemma admin_passes hist db h env r id :
  rows_live (hist, db) → RequireAuthFunc h env db r inr inl = inr (Some id) → isAdmin id = true →
  api_key h r ∨ live_cookie hist h env r.
Proof.
  intros Hlive Hreq Ha. pose proof (require_spec h env db r) as Hspec. rewrite Hreq in Hspec.
  destruct Hspec as [[Hb _]|(_ & claims & [= ->] & ((cookie & Hc & _ & Hv) & Hadm & _) & Hx)].
  - left. by apply matches_bearer.
  - right. apply String.eqb_eq in Ha. destruct (Hadm Ha) as [Hi (Hst & Herr & Hact)%session_active_true].
    apply active_iff in Hact as (row & Hrow & Hfp & Hr & Hexp).
    destruct (verify_signed _ _ _ _ Hv) as ([payload ->] & Hex & _).
    exists payload, claims, (RowExpiresAt row). rewrite <- Hfp. pose proof (Hlive row Hrow Hr). done.
Qed.

(** The routes on which a guest, or anybody, may change something. *)
Definition open_mutations : list string :=
  ["/block/report"; "/v1/auth/login"; "/v1/auth/logout"; "/v1/analyze"; "/v1/url-ml/feedback"].

(** C32: in a service whose session table started empty, after any history of requests,
    clock readings, failing statements, logins, logouts and cleanings, a request that
    reaches a handler restricted to administrators carries the API key, or a cookie
    signed with the service's secret, not expired, of a session that a login with the
    administrator's name and password opened and no logout has reported closed since,
    checked against a working store, and from the service's own site when it changes
    state; and every request of a changing method that a route lists reaches its handler
    only so, except on five routes open to guests or to everybody. *)
Theorem admin_authority s0 hist db h env r route id :
  fresh s0 → rtc step s0 (hist, db) → route ∈ apiRoutes →
  gate h env db r (Auth route) = inr id →
  Auth route = AuthAdmin ∨ isStateChangingMethod (Method r) = true →
  ((api_key h r ∨ live_cookie hist h env r) ∧ ∃ a, id = Some a ∧ isAdmin a = true)
  ∨ Auth route ≠ AuthAdmin ∧ (Method r ∉ Methods route ∨ Path route ∈ open_mutations).
Proof.
  intros Hfresh Hrun Hroute Hg Hm. pose proof (rows_live_run _ _ Hfresh Hrun) as Hlive.
  assert (∀ a, RequireAuthFunc h env db r inr inl = inr (Some a) → isAdmin a = true → id = Some a →
    ((api_key h r ∨ live_cookie hist h env r) ∧ ∃ a, id = Some a ∧ isAdmin a = true)) as Hadmin.
  { intros a Ha Hisa ->. split; [by eapply admin_passes|by exists a]. }
  destruct (Auth route) eqn:Ha.
  4: { unfold gate in Hg. cbn [applyRouteAuth] in Hg. unfold RequireAdminFunc in Hg. rewrite require_natural in Hg.
       destruct (RequireAuthFunc h env db r inr inl) as [|[a|]] eqn:Hq; [done| |done].
       destruct (isAdmin a) eqn:Hisa; [|done]. injection Hg as <-. left. by apply (Hadmin a). }
  4: { destruct Hm as [?|Hm]; [done|]. unfold gate in Hg. cbn [applyRouteAuth] in Hg.
       unfold RequireAdminForMutationFunc in Hg. rewrite require_natural, Hm in Hg.
       destruct (RequireAuthFunc h env db r inr inl) as [|[a|]] eqn:Hq; [done| |done].
       destruct (isAdmin a) eqn:Hisa; [|done]. injection Hg as <-. left. by apply (Hadmin a). }
  all: destruct Hm as [?|Hm]; [done|]; right; split; [done|].
  all: assert (forallb (λ rt, match Auth rt with AuthAdmin | AuthAdminMutation => true | _ => false end
                 || forallb (λ m, negb (isStateChangingMethod m)) (Methods rt)
                 || bool_decide (Path rt ∈ open_mutations)) apiRoutes = true) as Htab by by vm_compute.
  all: rewrite forallb_forall in Htab; specialize (Htab route ltac:(by apply list_elem_of_In)).
  all: rewrite Ha in Htab; cbn [orb] in Htab; apply orb_prop in Htab as [Htab|Htab];
    [left|right; by apply bool_decide_eq_true in Htab].
  all: intros Hin; rewrite forallb_forall in Htab; specialize (Htab (Method r) ltac:(by apply list_elem_of_In)).
  all: by rewrite Hm in Htab.
Qed.
End Authority.

Section Usable.
Context `{UnicodeTables, Crypto, ClaimsJSON, Bodies, !ClaimsLaws}.

Lemma run_grows s s' : rtc step s s' → ∃ later, s'.1 = (later ++ s.1)%list.
Proof.
  induction 1 as [s|s1 s2 s3 Hstep _ [later IH]]; [by exists []|]. destruct (step_event _ _ Hstep) as [e He].
  exists (later ++ [e])%list. by rewrite IH, He, <- app_assoc.
Qed.
(** The fingerprint's row outlives what follows. *)
Definition harmless (fp : string) (expires : Z) (e : Event) : Prop :=
  ¬ logged_out e fp ∧ (sql_time e < expires + 86400)%Z.
Lemma row_kept_run s s' later row :
  rtc step s s' → s'.1 = (later ++ s.1)%list → Forall (harmless (Fingerprint row) (RowExpiresAt row)) later →
  RevokedAt row = None → row ∈ sessions s.2 → row ∈ sessions s'.2.
Proof.
  intros Hrun. revert later. induction Hrun as [s|s1 s2 s3 Hstep Hrest IH]; intros later Heq Hall Hr Hrow; [done|].
  destruct (step_event _ _ Hstep) as [e He], (run_grows _ _ Hrest) as [later' Hl].
  assert (later = later' ++ [e])%list as ->.
  { apply (app_inv_tail s1.1). rewrite <- app_assoc. cbn. by rewrite <- He, <- Heq, <- Hl. }
  apply Forall_app in Hall as [Hl' [[Hno Ht] _]%Forall_cons]. apply (IH later'); [done|done|done|].
  destruct s1 as [hist db], s2 as [hist' db']. cbn in *. subst hist'. by apply (row_kept e hist db).
Qed.

(** What a successful login of the administrator leaves: a row and a token of it. *)
Lemma login_creates other h env r db resp db' body c :
  serve other h env r db = (resp, db') → ReqPath r = "/v1/auth/login" → Method r = "POST" →
  decode_login 4096 (Body r) = Some body → TrimSpace (ToLower (LoginUsername body)) = adminUsername h →
  adminPasswordMatches h (LoginPassword body) = true → SetCookie resp = Some c →
  (sql_now env < unix (session_now env + adminSessionTTL) + 86400)%Z →
  ∃ bytes, session_random env = Ok bytes
    ∧ login_row env (adminUsername h) bytes ∈ sessions db'
    ∧ GenerateSessionCookieValueForRole (adminUsername h) RoleAdmin (hex_string bytes) adminSessionTTL
        (SessionSecret h) (claims_now env) = Ok (CookieValue c).
Proof.
  intros Hs Hp Hm Hd Hu Hpw Hc Ht. rewrite serve_gate, Hp in Hs.
  change (AuthLoginHandler h env r db = (resp, db')) in Hs. unfold AuthLoginHandler in Hs.
  rewrite Hm, Hd in Hs. cbn [negb String.eqb Ascii.eqb Bool.eqb] in Hs. unfold login_role in Hs.
  rewrite Hu, Hpw, String.eqb_refl in Hs. cbv zeta iota in Hs.
  destruct (issue_admin _ _ _ _ _ _ _ Hs) as (session & Hpers & Hres).
  destruct (persist_cases _ _ _ _ _ Hpers) as [[-> (resp' & -> & Hnone)]|(bytes & Hb & -> & Hrow)];
    [congruence|].
  exists bytes. split; [done|]. split.
  - destruct Hrow as [->| ->]; [|apply cleanup_keeps; [|by apply row_not_outdated]]; apply elem_of_app; right;
      by apply list_elem_of_singleton.
  - destruct (GenerateSessionCookieValueForRole _ _ _ _ _ _) as [token|] eqn:Hg.
    + destruct Hres as [Hc' _]. rewrite Hc in Hc'. by injection Hc' as ->.
    + exfalso. revert Hs. unfold issue_session. change (String.eqb RoleAdmin "") with false.
      change (String.eqb RoleAdmin RoleAdmin) with true. cbv iota. rewrite Hpers, Hg. by intros [= <-].
Qed.

Lemma admin_role_fixed u : NormalizeRole u RoleAdmin = RoleAdmin.
Proof. done. Qed.
Lemma hex_nonempty s : s ≠ "" → hex_string s ≠ "".
Proof. by destruct s as [|[[] [] [] [] [] [] [] []] s]. Qed.

(** A session works until it expires or is logged out: the cookie of a successful
    login of the administrator is accepted as the administrator's on every route
    restricted to administrators, whatever requests, other logins and logouts and
    cleanings happen in between, as long as no logout of this session is reported, the
    store answers, and a changing request comes from the service's own site. *)
Theorem session_usable other h env r hist db resp db1 body c later db2 h2 env2 r2 :
  let expires := unix (session_now env + adminSessionTTL) in
  let login := Exchanged h env r resp in
  serve other h env r db = (resp, db1) → ReqPath r = "/v1/auth/login" → Method r = "POST" →
  decode_login 4096 (Body r) = Some body → TrimSpace (ToLower (LoginUsername body)) = adminUsername h →
  adminPasswordMatches h (LoginPassword body) = true → SetCookie resp = Some c →
  is_ascii (adminUsername h) = true → (∀ bytes, session_random env = Ok bytes → bytes ≠ "") →
  (sql_now env < expires + 86400)%Z →
  rtc step (login :: hist, db1) ((later ++ login :: hist)%list, db2) →
  (∀ bytes, session_random env = Ok bytes → Forall (harmless (SessionFingerprint (hex_string bytes)) expires) later) →
  SessionCookie r2 = Some (CookieValue c) → SessionSecret h2 = SessionSecret h →
  (unix (verify_now env2) <= unix (claims_now env + adminSessionTTL))%Z → (sql_now env2 < expires)%Z →
  store_enabled env2 = true → statement_error env2 SessionActive = None → csrf_ok h2 r2 →
  ∃ a, gate h2 env2 db2 r2 AuthAdmin = inr (Some a) ∧ isAdmin a = true.
Proof.
  intros expires login Hs Hp Hm Hd Hu Hpw Hc Hasc Hne Ht Hrun Hlater Hc2 Hsec Hv Hsql Hst Herr Hx.
  destruct (login_creates _ _ _ _ _ _ _ _ _ Hs Hp Hm Hd Hu Hpw Hc Ht) as (bytes & Hb & Hrow & Hg).
  assert (login_row env (adminUsername h) bytes ∈ sessions db2) as Hrow2.
  { apply (row_kept_run _ _ later _ Hrun); [done| |done|done]. by apply Hlater. }
  assert (RequireAuthFunc h2 env2 db2 r2 inr inl = inr (Some (bearer_identity h2))
          ∨ ∃ claims, RequireAuthFunc h2 env2 db2 r2 inr inl = inr (Some (cookie_identity claims))
                      ∧ ClaimRole claims = RoleAdmin) as Hreq.
  { pose proof (require_spec h2 env2 db2 r2) as Hspec.
    pose proof (verify_generated _ _ _ _ _ _ (verify_now env2) _ Hasc (hex_ascii bytes) Hg) as Hver.
    rewrite (proj2 (Z.ltb_ge _ _)) in Hver by lia. rewrite admin_role_fixed in Hver.
    set (claims := mkClaims _ _ _ _) in Hver.
    assert (good_cookie h2 env2 db2 r2 claims) as Hgood.
    { split; [exists (CookieValue c); rewrite Hsec; split; [done|split; [|done]]|split; [|done]].
      - intros Hemp. rewrite Hemp in Hver. done.
      - intros _. split; [by apply hex_nonempty, Hne|]. apply session_active_true. split; [done|]. split; [done|].
        apply active_iff. by exists (login_row env (adminUsername h) bytes). }
    destruct (RequireAuthFunc h2 env2 db2 r2 inr inl) as [resp'|id].
    - by destruct Hspec as (_ & _ & Hno); destruct (Hno claims).
    - destruct Hspec as [[_ ->]|(_ & claims' & -> & ((k & Hk & _ & Hv') & _) & _)]; [by left|right].
      exists claims'. split; [done|]. rewrite Hc2 in Hk. injection Hk as <-. rewrite Hsec, Hver in Hv'.
      by injection Hv' as <-. }
  unfold gate. cbn [applyRouteAuth]. unfold RequireAdminFunc. rewrite require_natural.
  destruct Hreq as [->|(claims & -> & Hr)].
  - by exists (bearer_identity h2).
  - exists (cookie_identity claims).
    assert (isAdmin (cookie_identity claims) = true) as Ha by by apply String.eqb_eq.
    by rewrite Ha.
Qed.
End Usable.

(** ** The two middlewares *)

Section Agreement.
Context `{UnicodeTables, Crypto, ClaimsJSON, Bodies}.

Definition with_method (m : string) (r : HTTPRequest) : HTTPRequest :=
  mkHTTP (ReqPath r) m (Authorization r) (SessionCookie r) (Origin r) (Referer r) (Host r) (OverTLS r)
    (XForwardedProto r) (Remote r) (Body r).
(** The identity of a reading request. *)
Definition authenticated (h : AuthConfig) (env : AuthEnv) (db : AuthDB) (r : HTTPRequest) : option authIdentity :=
  RequireAuthFunc h env db (with_method "GET" r) (λ id, id) (λ _, None).
Definition stale_bearer (h : AuthConfig) (r : HTTPRequest) : bool :=
  HasBearerPrefix (Authorization r) && negb (bearerMatches h r).
Lemma matches_has_prefix h r : bearerMatches h r = true → HasBearerPrefix (Authorization r) = true.
Proof. intros (token & Hr & _)%matches_bearer. apply HasPrefix_spec. by exists token. Qed.

(** The annotating middleware sees the identity the enforcing one would let a
    reading request pass with, except that it ignores the cookie beside an invalid
    bearer token, which the enforcing one does not; the enforcing one refuses a known
    identity only when the request would change state on a cookie's authority from
    another site. *)
Theorem attach_agrees h env db r :
  tryAuthIdentity h env db r = (if stale_bearer h r then None else authenticated h env db r)
  ∧ RequireAuthFunc h env db r inr inl
    = match authenticated h env db r with
      | Some id =>
          if String.eqb (AuthMethod id) "cookie" && isStateChangingMethod (Method r)
             && negb (ValidCSRFSources h r)
          then inl (WriteError 403 "CSRF verification failed: invalid csrf origin or referer")
          else inr (Some id)
      | None => RequireAuthFunc h env db (with_method "GET" r) inr inl
      end.
Proof.
  unfold tryAuthIdentity, stale_bearer, authenticated, RequireAuthFunc.
  change (bearerMatches h (with_method "GET" r)) with (bearerMatches h r). cbn [SessionCookie with_method].
  destruct (bearerMatches h r) eqn:Hb; [rewrite (matches_has_prefix h r Hb); by split|]. cbn [negb].
  rewrite andb_true_r.
  destruct (SessionCookie r) as [cookie|]; [|by destruct (HasBearerPrefix _)].
  destruct (String.eqb cookie ""); [by destruct (HasBearerPrefix _)|].
  destruct (VerifySessionClaims cookie (SessionSecret h) (verify_now env)) as [claims|];
    [|by destruct (HasBearerPrefix _)].
  unfold require_claims. cbv zeta. cbn [Method with_method].
  change (isStateChangingMethod "GET") with false. cbv iota. unfold VerifyCSRF.
  destruct (HasBearerPrefix (Authorization r)), (String.eqb (ClaimRole claims) RoleAdmin), (String.eqb (SessionID claims) "");
    cbn [andb orb]; try destruct (session_active env db claims) as [|[]]; cbn [andb orb];
    destruct (ensureGuestSessionActive env db claims) as [[|]|]; try done;
    destruct (isStateChangingMethod (Method r)), (ValidCSRFSources h r); done.
Qed.
End Agreement.

(** ** Cross-site requests *)

Section SameSite.
Context `{UnicodeTables, Crypto, ClaimsJSON, Bodies}.

Definition host_char (c : ascii) : bool := ascii_letter c || ascii_digit c || Ascii.eqb c "." || Ascii.eqb c "-".
Definition plain_host (s : string) : Prop := s ≠ "" ∧ sforall host_char s = true.
Definition plain_port (port : option string) : Prop :=
  match port with Some p => p ≠ "" ∧ sforall ascii_digit p = true | None => True end.
(** A name and, possibly, a port. *)
Definition authority (host : string) (port : option string) : string :=
  match port with Some p => host ++ String ":" p | None => host end.
(** The port that is not implied by a web scheme. *)
Definition explicit_port (port : option string) : option string :=
  match port with
  | Some p => if String.eqb p "80" || String.eqb p "443" then None else Some p
  | None => None
  end.

Lemma host_char_facts c :
  host_char c = true → is_ascii_byte c = true ∧ ascii_space c = false ∧ c ≠ ":"%char ∧ c ≠ "["%char ∧ c ≠ "]"%char
    ∧ c ≠ "/"%char ∧ c ≠ "%"%char ∧ host_char (lower_byte c) = true.
Proof. destruct c as [[] [] [] [] [] [] [] []]; vm_compute; intros Hc; repeat split; congruence. Qed.
Lemma digit_host c : ascii_digit c = true → host_char c = true ∧ lower_byte c = c.
Proof. destruct c as [[] [] [] [] [] [] [] []]; vm_compute; intros Hc; repeat split; congruence. Qed.
Lemma host_no_byte c s : host_char c = false → sforall host_char s = true → contains_byte c s = false.
Proof. apply sforall_no_byte. Qed.
Lemma host_ascii s : sforall host_char s = true → is_ascii s = true.
Proof. apply sforall_impl. intros c Hc. by apply host_char_facts. Qed.
Lemma digits_host p : sforall ascii_digit p = true → sforall host_char p = true ∧ smap lower_byte p = p.
Proof.
  induction p as [|c p IH]; [done|]. cbn. intros [Hc Hp]%andb_true_iff. destruct (digit_host c Hc) as [-> ->], (IH Hp) as [-> ->].
  done.
Qed.
Lemma lower_host s : sforall host_char s = true → sforall host_char (smap lower_byte s) = true.
Proof. rewrite sforall_smap. apply sforall_impl. intros c Hc. by apply host_char_facts. Qed.

Lemma split_first c s :
  c ≠ "["%char →
  SplitHostPort (String c s)
  = let hp := String c s in
    let i := LastIndexByte hp ":" in
    if (i <? 0)%Z then None
    else
      let host := String.substring 0 (Z.to_nat i) hp in
      if contains_byte ":" host then None
      else if contains_byte "[" hp then None
      else if contains_byte "]" hp then None
      else Some (host, String.substring (Z.to_nat (i + 1)) (slen hp - Z.to_nat (i + 1)) hp).
Proof.
  intros Hc. unfold SplitHostPort. cbv zeta. destruct (LastIndexByte (String c s) ":" <? 0)%Z; [done|].
  destruct c as [[] [] [] [] [] [] [] []]; try reflexivity. by destruct Hc.
Qed.
Lemma split_no_port s : plain_host s → SplitHostPort s = None.
Proof.
  intros [_ Hs]. unfold SplitHostPort. rewrite LastIndexByte_none by by apply (host_no_byte ":" s). done.
Qed.
Lemma split_port s p :
  plain_host s → sforall ascii_digit p = true → SplitHostPort (s ++ String ":" p) = Some (s, p).
Proof.
  intros [Hne Hs] [Hp _]%digits_host. destruct s as [|c s]; [done|]. cbn [append].
  rewrite split_first by (cbn in Hs; apply andb_true_iff in Hs as [Hc _]; apply host_char_facts in Hc; tauto). cbv zeta.
  change (String c (s ++ String ":" p)) with (String c s ++ String ":" p).
  rewrite LastIndexByte_app by by apply (host_no_byte ":" p).
  rewrite (proj2 (Z.ltb_ge _ _)) by lia. rewrite Nat2Z.id, substring_0_app.
  assert (∀ x, host_char x = false → x ≠ ":"%char → contains_byte x (String c s ++ String ":" p) = false) as Hno.
  { intros x Hx Hcol. rewrite contains_byte_app, (host_no_byte x (String c s)) by done.
    rewrite contains_byte_cons, host_no_byte by done. rewrite orb_false_r. by apply Ascii.eqb_neq. }
  rewrite !Hno, host_no_byte by done. f_equal. f_equal.
  replace (Z.to_nat (Z.of_nat (slen (String c s)) + 1)) with (slen (String c s ++ ":")) by (rewrite slen_app; cbn [slen]; lia).
  change (String c s ++ String ":" p) with (String c s ++ ":" ++ p). rewrite <- sapp_assoc.
  rewrite slen_app with (a := (String c s ++ ":")).
  replace (slen (String c s ++ ":") + slen p - slen (String c s ++ ":")) with (slen p) by lia.
  apply substring_tail_app.
Qed.

(** The canonical form of an authority: lower case, without an implied port. *)
Lemma canonical_authority host port :
  plain_host host → plain_port port →
  canonicalRequestHost (authority host port) = authority (smap lower_byte host) (explicit_port port).
Proof.
  intros [Hne Hh] Hport. unfold canonicalRequestHost.
  assert (is_ascii (authority host port) = true ∧ smap lower_byte (authority host port) = authority (smap lower_byte host) port
          ∧ sforall (λ c, negb (ascii_space c)) (authority (smap lower_byte host) port) = true
          ∧ contains_byte "/" (authority (smap lower_byte host) port) = false
          ∧ authority (smap lower_byte host) port ≠ "") as (Hasc & Hlow & Hsp & Hsl & Hnil).
  { pose proof (lower_host host Hh) as Hlh.
    assert (∀ s, sforall host_char s = true → sforall (λ c, negb (ascii_space c)) s = true) as Hspace.
    { intros s. apply sforall_impl. intros c Hc. apply host_char_facts in Hc as (_ & -> & _). done. }
    assert (smap lower_byte host ≠ "") as Hl by by destruct host.
    destruct port as [p|]; cbn [authority].
    - destruct Hport as [_ Hp]. apply digits_host in Hp as [Hp Hlp]. unfold is_ascii.
      rewrite !sforall_app, smap_app, contains_byte_app, contains_byte_cons. cbn [sforall smap].
      rewrite Hlp, !host_no_byte, !Hspace by done. pose proof (host_ascii host Hh) as Hah. pose proof (host_ascii p Hp) as Hap.
      unfold is_ascii in Hah, Hap. rewrite Hah, Hap. repeat split; try done. by destruct (smap lower_byte host).
    - rewrite host_no_byte, Hspace, host_ascii by done. done. }
  rewrite ToLower_ascii, Hlow, TrimSpace_id; [|by rewrite <- Hlow, is_ascii_lower|done|done].
  cbv zeta. rewrite (proj2 (String.eqb_neq _ _) Hnil), (Contains_needs_byte "/") by done. cbv zeta iota.
  assert (TrimSuffix (authority (smap lower_byte host) port) "/" = authority (smap lower_byte host) port) as ->.
  { unfold TrimSuffix. destruct (HasSuffix _ "/") eqn:E; [|done]. apply HasSuffix_spec in E as [r Hr].
    rewrite Hr, contains_byte_app, contains_byte_cons in Hsl. cbn in Hsl. by rewrite orb_true_r in Hsl. }
  assert (plain_host (smap lower_byte host)) as Hlh by (split; [by destruct host|by apply lower_host]).
  destruct port as [p|]; cbn [authority explicit_port].
  - destruct Hport as [_ Hp]. rewrite split_port by done.
    destruct (String.eqb p "80" || String.eqb p "443"); [done|]. cbn [authority]. unfold JoinHostPort.
    rewrite !host_no_byte by (done || apply Hlh). done.
  - by rewrite split_no_port.
Qed.
Lemma authority_inj host port host' port' :
  plain_host host → plain_host host' → authority host port = authority host' port' → host = host' ∧ port = port'.
Proof.
  intros [_ Hh] [_ Hh'] Heq.
  assert (∀ s p t q, contains_byte ":" s = false → contains_byte ":" t = false →
    s ++ String ":" p = t ++ String ":" q → s = t ∧ p = q) as Hinj.
  { induction s as [|c s IH]; intros p [|d t] q; cbn [append].
    - by intros _ _ [= ->].
    - intros _ Ht [= <- _]. cbn in Ht. done.
    - intros Ht _ [= -> _]. cbn in Ht. done.
    - rewrite !contains_byte_cons. intros [_ Hs]%orb_false_iff [_ Ht]%orb_false_iff [= -> Hst].
      by destruct (IH p t q Hs Ht Hst) as [-> ->]. }
  pose proof (host_no_byte ":" host eq_refl Hh) as Hc. pose proof (host_no_byte ":" host' eq_refl Hh') as Hc'.
  destruct port as [p|], port' as [q|]; cbn [authority] in Heq.
  - destruct (Hinj _ _ _ _ Hc Hc' Heq) as [-> ->]. done.
  - rewrite <- Heq, contains_byte_app, contains_byte_cons in Hc'. cbn in Hc'. by rewrite orb_true_r in Hc'.
  - rewrite Heq, contains_byte_app, contains_byte_cons in Hc. cbn in Hc. by rewrite orb_true_r in Hc.
  - done.
Qed.

(** The site a request says it comes from. *)
Definition claimed_source (r : HTTPRequest) : string :=
  if String.eqb (TrimSpace (Origin r)) "" then TrimSpace (Referer r) else TrimSpace (Origin r).
Definition own_hosts (h : AuthConfig) (r : HTTPRequest) : list string := [Host r; PublicHost h; EnvPublicHost h].
Definition named (a host : string) (port : option string) : Prop :=
  a = authority host port ∧ plain_host host ∧ plain_port port.

(** A request that names no source, or one that is no URL, is not from the own
    site; and a source at a named host is, exactly when its host is, up to letter case,
    one of the names the service goes by, and its port the same, the ports of http and
    https counting as none.  No other host passes. *)
Theorem csrf_same_site h r :
  (claimed_source r = "" ∨ parsed_host (claimed_source r) = None → ValidCSRFSources h r = false)
  ∧ (∀ a host port,
      claimed_source r ≠ "" → parsed_host (claimed_source r) = Some a → named a host port →
      (∀ own, own ∈ own_hosts h r → own = "" ∨ ∃ host' port', named own host' port') →
      ValidCSRFSources h r = true ↔
      ∃ own host' port', own ∈ own_hosts h r ∧ named own host' port'
        ∧ smap lower_byte host = smap lower_byte host' ∧ explicit_port port = explicit_port port').
Proof.
  unfold ValidCSRFSources. cbv zeta. fold (claimed_source r). split.
  { intros [->| Hnone]; [done|]. destruct (String.eqb (claimed_source r) ""); [done|]. by rewrite Hnone. }
  intros a host port Hne Ha (-> & Hh & Hp) Hown.
  rewrite (proj2 (String.eqb_neq _ _) Hne), Ha.
  assert (authority host port ≠ "") as Hna.
  { destruct Hh as [Hh _]. by destruct host, port. }
  rewrite (proj2 (String.eqb_neq _ _) Hna). rewrite existsb_exists. setoid_rewrite <- list_elem_of_In.
  setoid_rewrite String.eqb_eq. rewrite canonical_authority by done.
  assert (plain_host (smap lower_byte host)) as Hlh by (split; [by destruct host as [|c ?], Hh|by apply lower_host, Hh]).
  split.
  - intros (own & Hin & Heq). destruct (Hown own Hin) as [->|(host' & port' & Hn)].
    + change (canonicalRequestHost "") with "" in Heq. exfalso. destruct Hlh as [Hl _].
      by destruct (smap lower_byte host), (explicit_port port).
    + exists own, host', port'. split; [done|]. split; [done|]. destruct Hn as (-> & Hh' & Hp').
      rewrite canonical_authority in Heq by done. apply authority_inj in Heq; [done|done|].
      split; [by destruct host' as [|c ?], Hh'|by apply lower_host, Hh'].
  - intros (own & host' & port' & Hin & (-> & Hh' & Hp') & Hhost & Hport). exists (authority host' port').
    split; [done|]. by rewrite canonical_authority, Hhost, Hport.
Qed.
End SameSite.

(** ** Instances *)

Module Examples.
(** Claims are four texts separated by a byte outside ASCII, the time in binary. *)
Definition sep : ascii := ascii_of_N 200.
Fixpoint pos_text (p : positive) : string :=
  match p with xH => "" | xO p => String "0" (pos_text p) | xI p => String "1" (pos_text p) end.
Fixpoint text_pos (s : string) : positive :=
  match s with "" => xH | String c s => if Ascii.eqb c "0" then xO (text_pos s) else xI (text_pos s) end.
Definition z_text (z : Z) : string :=
  match z with Z0 => "z" | Zpos p => String "p" (pos_text p) | Zneg p => String "n" (pos_text p) end.
Definition text_z (s : string) : Z :=
  match s with
  | "" => 0 | String c s => if Ascii.eqb c "p" then Zpos (text_pos s) else if Ascii.eqb c "n" then Zneg (text_pos s) else 0
  end%Z.
Lemma text_z_text z : text_z (z_text z) = z.
Proof.
  assert (∀ p, text_pos (pos_text p) = p) as Hp by (induction p as [p IH|p IH|]; cbn; by rewrite ?IH).
  destruct z; cbn; by rewrite ?Hp.
Qed.
Lemma z_text_ascii z : is_ascii (z_text z) = true.
Proof.
  assert (∀ p, is_ascii (pos_text p) = true) as Hp.
  { unfold is_ascii. induction p as [p IH|p IH|]; cbn; by rewrite ?IH. }
  unfold is_ascii in *. by destruct z; cbn; rewrite ?Hp.
Qed.
#[export] Instance ex_claims : ClaimsJSON := {|
  encode_claims c := Ok (Join [ClaimUsername c; ClaimRole c; SessionID c; z_text (ExpiresAt c)] sep);
  decode_claims s := match Split s sep with
                     | [u; r; i; t] => Some (mkClaims u r i (text_z t)) | _ => None end
|}.
#[export] Instance ex_claims_laws : ClaimsLaws.
Proof.
  split. intros [u r i t] Hu Hr Hi. cbn in Hu, Hr, Hi. eexists. split; [done|]. cbn [decode_claims ex_claims ClaimUsername ClaimRole SessionID ExpiresAt].
  assert (∀ s, is_ascii s = true → contains_byte sep s = false) as Hs by (intros s; by apply sforall_no_byte).
  rewrite Split_Join; [by rewrite text_z_text|done|].
  repeat (apply Forall_cons; split); try done; apply Hs; [done..|apply z_text_ascii].
Qed.
#[export] Instance ex_crypto : Crypto := {|
  hmac_sha256 k d := k ++ "/" ++ d; sha256 s := "#" ++ s;
  bcrypt_generate salt p := Ok (salt ++ p); bcrypt_compare hash p := String.eqb hash ("$" ++ p)
|}.
#[export] Instance ex_bodies : Bodies := {|
  decode_login _ s := match Split s ":" with [u; p] => Some (mkLogin u p) | _ => None end;
  decode_guest_request _ s := Some (mkGuestRequest None s);
  decode_guest_config s := Some (mkGuest true s); encode_guest_config c := Ok (PasswordHash c);
  parsed_host s := if HasPrefix s "https://" then Some (TrimPrefix s "https://") else None
|}.
#[export] Instance ex_unicode : UnicodeTables := ascii_tables.

Definition conf : AuthConfig := mkAuthConfig "secret" "" "$right" "key" "" "" "" false [].
Definition at_second (t : Z) : AuthEnv :=
  mkAuthEnv (t * 1000000000) (t * 1000000000) (t * 1000000000) t true (λ _, None) (Ok "0123456789abcdef0123456789abcdef") "$".
Definition request (path method : string) (cookie : option string) (origin body : string) : HTTPRequest :=
  mkHTTP path method "" cookie origin "" "dns.example" true "" "192.0.2.1:5" body.
Definition login : HTTPRequest := request "/v1/auth/login" "POST" None "" "Admin:right".
Definition no_other (id : option authIdentity) (r : HTTPRequest) : Response := mkResponse 200 (POther "") None.
Definition empty_db : AuthDB := mkAuthDB [] "".
Definition logged_in : Response * AuthDB := Eval vm_compute in serve no_other conf (at_second 1000) login empty_db.
Definition token : string := Eval vm_compute in match SetCookie logged_in.1 with Some c => CookieValue c | None => "" end.
Definition flush_request (origin : string) : HTTPRequest := request "/v1/cache/flush" "POST" (Some token) origin "".
Definition logout : HTTPRequest := request "/v1/auth/logout" "POST" (Some token) "https://dns.example" "".
Definition logged_out_db : AuthDB := Eval vm_compute in (serve no_other conf (at_second 2000) logout logged_in.2).2.

Definition status_after (db : AuthDB) (t : Z) (r : HTTPRequest) : Z :=
  Status (serve no_other conf (at_second t) r db).1.
(** Another site, an expired cookie, a logout, a wrong password, an unknown name. *)
Example statuses :
  (status_after logged_in.2 3000 (flush_request "https://dns.example:443"), status_after logged_in.2 3000 (flush_request "https://evil.example"),
   status_after logged_in.2 44201 (flush_request "https://dns.example"), status_after logged_out_db 3000 (flush_request "https://dns.example"),
   status_after empty_db 0 (request "/v1/auth/login" "POST" None "" "admin:wrong"),
   status_after empty_db 0 (request "/v1/auth/login" "POST" None "" "root:right"))
  = (200, 403, 401, 401, 401, 401)%Z.
Proof. vm_compute. reflexivity. Qed.
(** A wrong bearer token beside a valid cookie: the enforcing middleware accepts it. *)
Definition with_bearer (r : HTTPRequest) : HTTPRequest :=
  mkHTTP (ReqPath r) (Method r) "Bearer wrong" (SessionCookie r) (Origin r) (Referer r) (Host r) (OverTLS r)
    (XForwardedProto r) (Remote r) (Body r).
Example stale_bearer_passes :
  status_after logged_in.2 3000 (with_bearer (flush_request "https://dns.example")) = 200%Z
  ∧ tryAuthIdentity conf (at_second 3000) logged_in.2 (with_bearer (flush_request "https://dns.example")) = None.
Proof. by vm_compute. Qed.
(** A source without a name, but with a port, passes when the public host is not set. *)
Example empty_host_passes : status_after logged_in.2 3000 (flush_request "https://:443") = 200%Z.
Proof. by vm_compute. Qed.

Definition history : list Event := [Exchanged conf (at_second 1000) login logged_in.1].
Lemma login_step : step ([], empty_db) (history, logged_in.2).
Proof. apply (step_serve no_other). by vm_compute. Qed.

Definition admin_route : RouteSpec := mkRoute "/v1/cache/flush" ["POST"] AuthAdminMutation.
Definition admin_id : authIdentity := mkIdentity "admin" "admin" "cookie".
Lemma admin_authority_witness :
  ((api_key conf (flush_request "https://dns.example") ∨ live_cookie history conf (at_second 3000) (flush_request "https://dns.example"))
   ∧ ∃ a, Some admin_id = Some a ∧ isAdmin a = true)
  ∨ Auth admin_route ≠ AuthAdmin
    ∧ (Method (flush_request "https://dns.example") ∉ Methods admin_route ∨ Path admin_route ∈ open_mutations).
Proof.
  apply (admin_authority ([], empty_db) history logged_in.2 conf (at_second 3000) (flush_request "https://dns.example") admin_route
    (Some admin_id)).
  - done.
  - apply rtc_once, login_step.
  - apply list_elem_of_In. cbn. tauto.
  - by vm_compute.
  - by right.
Defined.

Definition other_login : Response * AuthDB := Eval vm_compute in
  serve no_other conf (at_second 1500) (request "/v1/auth/session" "GET" (Some token) "" "") logged_in.2.
Definition cookie_of_login : Cookie := mkCookie token 43200 true.
Lemma session_usable_witness :
  ∃ a, gate conf (at_second 3000) (set_sessions (CleanupExpiredAdminSessions 2500 (sessions other_login.2)).1 other_login.2)
         (flush_request "https://dns.example") AuthAdmin = inr (Some a) ∧ isAdmin a = true.
Proof.
  refine (session_usable no_other conf (at_second 1000) login [] empty_db logged_in.1 logged_in.2
    (mkLogin "Admin" "right") cookie_of_login
    [Cleaned 2500; Exchanged conf (at_second 1500) (request "/v1/auth/session" "GET" (Some token) "" "") other_login.1]
    _ conf (at_second 3000) (flush_request "https://dns.example") _ _ _ _ _ _ _ _ _ _ _ _ _ _ _ _ _ _ _).
  1, 4, 5, 6, 7, 8: by vm_compute.
  1, 2, 7, 8, 11, 12: done.
  - by intros bytes [= <-].
  - by vm_compute.
  - eapply rtc_l; [|apply rtc_once, step_clean]. apply (step_serve no_other). by vm_compute.
  - intros bytes _. apply Forall_cons. split; [split; [by intros []|by vm_compute]|]. apply Forall_cons.
    split; [split; [|by vm_compute]|by apply Forall_nil]. intros [Hp _]. by vm_compute in Hp.
  - by vm_compute.
  - by vm_compute.
  - intros _. by vm_compute.
Defined.

Lemma csrf_same_site_witness :
  ValidCSRFSources conf (flush_request "https://DNS.example:443") = true ↔
  ∃ own host' port', own ∈ own_hosts conf (flush_request "https://DNS.example:443") ∧ named own host' port'
    ∧ smap lower_byte "DNS.example" = smap lower_byte host' ∧ explicit_port (Some "443") = explicit_port port'.
Proof.
  apply (proj2 (csrf_same_site conf (flush_request "https://DNS.example:443")) "DNS.example:443").
  - done.
  - by vm_compute.
  - repeat split; done.
  - intros own Hown. repeat (apply elem_of_cons in Hown as [->|Hown]); [right|by left..|by apply elem_of_nil in Hown].
    exists "dns.example", None. repeat split; done.
Defined.
End Examples.
