(* ===== verification/AdblockLists.v ===== *)
(** * Adblock lists: the parser and cache files of [internal/risk/adblock_io.go] and the
    source policies of [internal/risk/adblock_source_policy.go]

    Host lists become typed rules in a staging trie that is merged into the destination
    only when the whole stream was read.  A stream is its bytes and the error of the
    reader behind them. *)

From Stdlib Require Import ZArith Lia Ascii String.
From stdpp Require Import sorting.
From S2P Require Import Prelude GoStr Hostname Trie NetIP GoFloat Whitelist Groups Exceptions Feed FeedSync DomainML.

(** ** Streams and lines *)

Record Stream := mkStream { content : string; read_error : option string }.
Definition linefeed : ascii := ascii_of_N 10.
Definition carriage_return : string := String (ascii_of_N 13) "".
(** [bufio.ScanLines]: the last line counts only when it is not empty. *)
Definition raw_lines (s : string) : list string :=
  let parts := Split s linefeed in
  match rev parts with
  | "" :: rest => rev rest
  | _ => parts
  end.
Definition scan_lines (s : string) : list string := (λ l, TrimSuffix l carriage_return) <$> raw_lines s.
Definition adblockMaxToken : Z := 10 * 1024 * 1024.
(** The lines a [bufio.Scanner] with that buffer delivers and its error; the lines after
    one that is too long are not reached, but no caller uses lines beside an error. *)
Definition scan (s : Stream) : list string * option string :=
  (scan_lines (content s),
   if forallb (λ l, Z.of_nat (slen l) <? adblockMaxToken)%Z (raw_lines (content s)) then read_error s
   else Some "bufio.Scanner: token too long").

(** ** Source policies *)

Definition adblockMatchModeExact : string := "exact".
Record adblockSourcePolicy := mkPolicy { PolicyCategory : string; PolicyScope : string }.
Definition adblockSourcePolicySet : Type := gmap string adblockSourcePolicy.

(** What [url.Parse] tells of a source, and [URL.String] with another scheme and host. *)
Record SourceURL := mkSourceURL {
  SrcScheme : string; SrcHost : string; SrcHostname : string; SrcPort : string; render : string → string → string
}.
(** [encoding/json] on policy documents: [None] is its error, [Some None] is null. *)
Class PolicyLibs := {
  parse_source : string → option SourceURL;
  decode_policies : string → option (option adblockSourcePolicySet)
}.

Section Policies.
Context `{UnicodeTables, FeedLibs, PolicyLibs}.

Definition canonicalSourceKey (trimmed : string) : string :=
  if negb (Contains trimmed "://") then trimmed
  else match parse_source trimmed with
  | None => trimmed
  | Some u =>
      if String.eqb (SrcScheme u) "" || String.eqb (SrcHost u) "" then trimmed
      else
        let hostname := ToLower (SrcHostname u) in
        if String.eqb hostname "" then trimmed
        else
          let host :=
            if negb (String.eqb (SrcPort u) "") then
              if Contains hostname ":" then "[" ++ hostname ++ "]:" ++ SrcPort u else hostname ++ ":" ++ SrcPort u
            else if HasPrefix (SrcHost u) "[" then "[" ++ hostname ++ "]" else hostname in
          render u (ToLower (SrcScheme u)) host
  end.
Definition canonicalSourceID (source : string) : string :=
  hex_string (String.substring 0 16 (sha256_sum (canonicalSourceKey (TrimSpace source)))).

Definition parseAdblockMatchMode (raw : string) : string :=
  let value := ToLower (TrimSpace raw) in
  if String.eqb value "" || String.eqb value adblockMatchModeSuffix then adblockMatchModeSuffix
  else if String.eqb value adblockMatchModeExact then adblockMatchModeExact else adblockMatchModeSuffix.

(** The keys of a document in order. *)
Definition sorted_sources (decoded : adblockSourcePolicySet) : list string :=
  sort_strings (map_to_list decoded).*1.
Definition parseAdblockSourcePolicies (raw : string) : adblockSourcePolicySet :=
  let trimmed := TrimSpace raw in
  if String.eqb trimmed "" then ∅
  else match decode_policies trimmed with
  | None | Some None => ∅
  | Some (Some decoded) =>
      foldl (λ policies source,
               <[canonicalSourceKey (TrimSpace source) := default (mkPolicy "" "") (decoded !! source)]> policies)
        ∅ (sorted_sources decoded)
  end.

(** Two keys of one source: the first pair in order. *)
Fixpoint find_collision (seen : gmap string string) (sources : list string) : option (string * string) :=
  match sources with
  | [] => None
  | source :: sources =>
      let key := canonicalSourceKey (TrimSpace source) in
      match seen !! key with
      | Some previous => Some (previous, source)
      | None => find_collision (<[key := source]> seen) sources
      end
  end.
Definition check_policy (source : string) (policy : adblockSourcePolicy) : option string :=
  if String.eqb (TrimSpace source) "" then Some "a source key is empty"
  else
    let category := ToLower (TrimSpace (PolicyCategory policy)) in
    if negb (String.eqb category "") && negb (IsValidRuleCategory category)
    then Some ("source " ++ source ++ " has unknown category " ++ PolicyCategory policy)
    else
      let scope := ToLower (TrimSpace (PolicyScope policy)) in
      if negb (String.eqb scope "") && negb (String.eqb scope adblockMatchModeSuffix)
         && negb (String.eqb scope adblockMatchModeExact)
      then Some ("source " ++ source ++ " has unknown scope " ++ PolicyScope policy) else None.
Fixpoint check_policies (decoded : adblockSourcePolicySet) (sources : list string) : option string :=
  match sources with
  | [] => None
  | source :: sources =>
      match check_policy source (default (mkPolicy "" "") (decoded !! source)) with
      | Some e => Some e
      | None => check_policies decoded sources
      end
  end.
Definition validateAdblockSourcePoliciesJSON (raw : string) : option string :=
  let trimmed := TrimSpace raw in
  if String.eqb trimmed "" then None
  else match decode_policies trimmed with
  | None => Some "not a JSON object of source policies"
  | Some None => Some "expected a JSON object, got null"
  | Some (Some decoded) =>
      let sources := sorted_sources decoded in
      match find_collision ∅ sources with
      | Some (previous, source) => Some ("sources " ++ previous ++ " and " ++ source ++ " are the same source")
      | None => check_policies decoded sources
      end
  end.

(** The category, scope and origin of a source's rules under a match mode and a set;
    [None] is an engine that never published one. *)
Definition resolveAdblockSourcePolicy (matchMode : string) (policies : option adblockSourcePolicySet)
    (source : string) : string * RuleScope * ScopeOrigin :=
  let category := DefaultRuleCategory in
  let scope := if String.eqb matchMode adblockMatchModeExact then RuleScopeExact else RuleScopeSuffix in
  match policies ≫= (λ set, set !! canonicalSourceKey (TrimSpace source)) with
  | None => (category, scope, OriginGlobalDefault)
  | Some policy =>
      let cat := ToLower (TrimSpace (PolicyCategory policy)) in
      let category := if negb (String.eqb cat "") && IsValidRuleCategory cat then cat else category in
      let sc := ToLower (TrimSpace (PolicyScope policy)) in
      if String.eqb sc adblockMatchModeExact then (category, RuleScopeExact, OriginSourcePolicyExact)
      else if String.eqb sc adblockMatchModeSuffix then (category, RuleScopeSuffix, OriginSourcePolicySuffix)
      else (category, scope, OriginGlobalDefault)
  end.

(** What the fingerprint digests, and the fingerprint. *)
Definition nul_byte : string := String (ascii_of_N 0) "".
Definition fingerprint_entry (set : adblockSourcePolicySet) (source : string) : string :=
  let policy := default (mkPolicy "" "") (set !! source) in
  canonicalSourceKey source ++ nul_byte ++ ToLower (TrimSpace (PolicyCategory policy)) ++ nul_byte
  ++ ToLower (TrimSpace (PolicyScope policy)) ++ String linefeed "".
Definition fingerprint_text (set : adblockSourcePolicySet) : string :=
  String.concat "" (fingerprint_entry set <$> sorted_sources set).
Definition adblockSourcePoliciesFingerprint (set : adblockSourcePolicySet) : string :=
  hex_string (String.substring 0 8 (sha256_sum (fingerprint_text set))).
End Policies.

(** ** Parsing a list *)

Definition adblockSectionCategories : list (string * string) :=
  [("adaway.org", "tracking"); ("hostsVN", "ads"); ("minecraft-hosts", "tracking")].

Section Parse.
Context `{UnicodeTables, HostServices, FeedLibs}.

Definition parseAdblockSectionMarker (raw : string) : string * bool :=
  let line := TrimSpace raw in
  if negb (HasPrefix line "#") then ("", false)
  else match Fields (TrimSpace (TrimPrefix line "#")) with
  | [] => ("", false)
  | first :: rest =>
      if String.eqb first "Start" then match rest with [name] => (name, false) | _ => ("", false) end
      else if String.eqb first "End" then ("", true) else ("", false)
  end.
(** The category of a source's rules inside a section. *)
Definition section_category (category section : string) : string :=
  if String.eqb section "" then category
  else match find (λ p, String.eqb p.1 section) adblockSectionCategories with Some p => p.2 | None => category end.
Definition cut_comment (line : string) : string :=
  match IndexByte line "#" with Some i => TrimSpace (String.substring 0 i line) | None => line end.
Definition skipped_host (domain : string) : bool :=
  existsb (String.eqb domain) [""; "localhost"; "local"; "broadcasthost"].
(** The rules of one line that is no marker. *)
Definition line_rules (sourceID category : string) (scope : RuleScope) (origin : ScopeOrigin) (raw : string)
    : list Rule :=
  let line := cut_comment (TrimSpace raw) in
  if String.eqb line "" then []
  else
    let parts := Fields line in
    let hosts := match parts with p :: rest => if ParseIP p then rest else parts | [] => [] end in
    (λ domain, mkRule domain scope sourceID category RuleActionBlock origin)
      <$> filter (λ d, skipped_host d = false) (ToLower <$> hosts).
(** One line: the section after it and its rules. *)
Definition source_line (sourceID category : string) (scope : RuleScope) (origin : ScopeOrigin)
    (st : string * list Rule) (raw : string) : string * list Rule :=
  let '(section, rules) := st in
  let '(name, end_) := parseAdblockSectionMarker raw in
  if negb (String.eqb name "") || end_ then (if end_ then "" else name, rules)
  else (section, rules ++ line_rules sourceID (section_category category section) scope origin raw)%list.
(** The rules handed to [AddRule], in order. *)
Definition source_rules (sourceID category : string) (scope : RuleScope) (origin : ScopeOrigin)
    (lines : list string) : list Rule :=
  (foldl (source_line sourceID category scope origin) ("", []) lines).2.
Definition add_rules (t : Trie) (rules : list Rule) : Trie := foldl (λ t r, (AddRule t r).1) t rules.

(** [parseAdblockSourceInto]: the staging trie and the error. *)
Definition parseAdblockSourceInto (reader : Stream) (staging : Trie) (sourceID category : string)
    (scope : RuleScope) (origin : ScopeOrigin) : Trie * option string :=
  let '(lines, err) := scan reader in
  (add_rules staging (source_rules sourceID category scope origin lines), err).
(** [parseAdblockSource], on a destination that exists *)
Definition parseAdblockSource (reader : Stream) (trie : Trie) (sourceID category : string)
    (scope : RuleScope) (origin : ScopeOrigin) : Trie * option string :=
  match parseAdblockSourceInto reader NewTrie sourceID category scope origin with
  | (_, Some e) => (trie, Some e)
  | (staging, None) => ((MergeFrom trie staging).1, None)
  end.

(** ** The cache of all rules *)

Definition trim_returns (l : string) : string := trim_right (Ascii.eqb (ascii_of_N 13)) l.
Definition legacy_rule (line : string) : Rule :=
  mkRule (TrimSpace line) RuleScopeSuffix CacheV2LegacySourceID DefaultRuleCategory RuleActionBlock OriginLegacyCache.
(** The rules of a cache file, malformed records left out. *)
Definition cache_rules (lines : list string) : list Rule :=
  let lines := trim_returns <$> lines in
  let '(v2, records) :=
    match lines with
    | first :: rest => if HasPrefix first CacheV2Header then (true, rest) else (false, lines)
    | [] => (false, [])
    end in
  let records := filter (λ l, TrimSpace l ≠ "") records in
  if v2 then omap ParseCacheV2Line records else legacy_rule <$> records.
(** [parseAdblockCache]: the destination and whether it was filled. *)
Definition parseAdblockCache (reader : Stream) (trie : Trie) : Trie * bool :=
  let '(lines, err) := scan reader in
  let staging := add_rules NewTrie (cache_rules lines) in
  match err with
  | Some _ => (trie, false)
  | None => if (TrieCount staging =? 0)%Z then (trie, false) else ((MergeFrom trie staging).1, true)
  end.
End Parse.
