(* ===== verification/AdblockSync.v ===== *)
(** * Adblock synchronisation and control: [internal/risk/adblock_sync.go],
    [adblock_control.go] and the files of [adblock_io.go]

    Replies of the sources, failing file operations, the store and the clock are inputs;
    the files of the data root are a map from paths to contents.  Log lines are left
    out. *)

From Stdlib Require Import ZArith Lia Ascii String.
From S2P Require Import Prelude GoStr Hostname Trie NetIP GoFloat Whitelist Groups Exceptions Feed FeedSync DomainML AdblockLists.

(** ** Files *)

(** The failing operations of one write of a file. *)
Record SaveIO := mkSaveIO {
  dir_error : option string; create_error : option string; write_error : option string;
  sync_error : option string; close_error : option string; remove_error : option string; rename_error : option string
}.
Definition no_errors : SaveIO := mkSaveIO None None None None None None None.
Definition Files : Type := gmap string string.
Definition first_error (errors : list (option string)) : option string :=
  match omap (λ e, e) errors with e :: _ => Some e | [] => None end.

(** The final path is removed before the temporary file takes its place. *)
Definition replaceFile (io : SaveIO) (tmp finalPath : string) (files : Files) : Files * option string :=
  match remove_error io with
  | Some e => (files, Some e)
  | None =>
      match rename_error io with
      | Some e => (delete finalPath files, Some e)
      | None => (<[finalPath := tmp]> files, None)
      end
  end.

(** One read: [false] is a failing open. *)
Record FileRead := mkRead { opens : bool; failing : option string }.
Definition read_file (rd : FileRead) (path : string) (files : Files) : option Stream :=
  if opens rd then (λ s, mkStream s (failing rd)) <$> files !! path else None.

Record adblockSourceMeta := mkMeta { ETag : string; LastModified : string }.
Definition no_meta : adblockSourceMeta := mkMeta "" "".
(** [encoding/json] on the metadata; decoding keeps what it could read. *)
Class MetaJSON := {
  encode_meta : gmap string adblockSourceMeta → result string;
  decode_meta : string → gmap string adblockSourceMeta
}.

(** ** Replies of a source *)

(** A reply has no body when it is 304. *)
Record Response := mkReply { StatusCode : Z; Reader : option Stream; Header : adblockSourceMeta }.
(** One source during one synchronisation: a local open, the replies to the first and
    the second request by their conditional headers, and what its files do. *)
Record SourceEnv := mkSource {
  local_open : result Stream; first_reply : adblockSourceMeta → result Response; second_reply : result Response;
  save_io : SaveIO; unchanged_read : FileRead; fallback_read : FileRead
}.
Record SyncEnv := mkSyncEnv {
  sources_raw : string; source_env : nat → SourceEnv; meta_read : FileRead; meta_io : SaveIO;
  cache_read : FileRead; cache_io : SaveIO; sync_now : Z
}.

Definition isRemoteAdblockSource (source : string) : bool :=
  HasPrefix source "http://" || HasPrefix source "https://".

(** ** The engine *)

Record ListEngine := mkLists {
  engine : AdblockEngine; sourcePolicies : option adblockSourcePolicySet; resync : bool;
  lastSync : option Z; lastSyncOK : bool; srcCount : Z; okCount : Z; files : Files
}.
Definition set_trie (t : Trie) (e : AdblockEngine) : AdblockEngine :=
  mkEngine (policySemantics e) (adblockMatchMode e) (Some t) (adblockEnabled e)
    (adblockShadowExactEnabled e) (adblockShadow e) (adblockExceptionsFile e) (adblockExceptionsPinned e)
    (adblockExceptions e) (adblockExc e).
Definition set_mode (m : string) (e : AdblockEngine) : AdblockEngine :=
  mkEngine (policySemantics e) m (adblockTrie e) (adblockEnabled e)
    (adblockShadowExactEnabled e) (adblockShadow e) (adblockExceptionsFile e) (adblockExceptionsPinned e)
    (adblockExceptions e) (adblockExc e).
Definition set_enabled (b : bool) (e : AdblockEngine) : AdblockEngine :=
  mkEngine (policySemantics e) (adblockMatchMode e) (adblockTrie e) b
    (adblockShadowExactEnabled e) (adblockShadow e) (adblockExceptionsFile e) (adblockExceptionsPinned e)
    (adblockExceptions e) (adblockExc e).
Definition on_engine (f : AdblockEngine → AdblockEngine) (l : ListEngine) : ListEngine :=
  mkLists (f (engine l)) (sourcePolicies l) (resync l) (lastSync l) (lastSyncOK l) (srcCount l) (okCount l) (files l).
Definition set_policies (p : adblockSourcePolicySet) (l : ListEngine) : ListEngine :=
  mkLists (engine l) (Some p) (resync l) (lastSync l) (lastSyncOK l) (srcCount l) (okCount l) (files l).
Definition set_resync (b : bool) (l : ListEngine) : ListEngine :=
  mkLists (engine l) (sourcePolicies l) b (lastSync l) (lastSyncOK l) (srcCount l) (okCount l) (files l).
Definition set_outcome (now : Z) (ok : bool) (count : Z) (fs : Files) (l : ListEngine) : ListEngine :=
  mkLists (engine l) (sourcePolicies l) (resync l) (Some now) ok (srcCount l) count fs.
Definition set_sources (n : Z) (l : ListEngine) : ListEngine :=
  mkLists (engine l) (sourcePolicies l) (resync l) (lastSync l) (lastSyncOK l) n (okCount l) (files l).
Definition trie_of (e : AdblockEngine) : Trie := default NewTrie (adblockTrie e).
Definition currentAdblockMatchMode (e : AdblockEngine) : string :=
  if String.eqb (adblockMatchMode e) "" then adblockMatchModeSuffix else adblockMatchMode e.
(** The one-slot channel. *)
Definition RequestAdblockResync (l : ListEngine) : ListEngine := set_resync true l.

Section Sync.
Context `{UnicodeTables, HostServices, FeedLibs, PolicyLibs, MetaJSON}.

Definition splitAdblockSources (sources : string) : list string :=
  filter (λ s, s ≠ "") (TrimSpace <$> Split sources ",").
Definition adblockMetaPath : string := "adblock_meta.json".
Definition adblockCachePath : string := "adblock_cache.txt".
Definition adblockSourceCachePath (source : string) : string :=
  "adblock_sources/" ++ hex_string (sha256_sum (canonicalSourceKey (TrimSpace source))) ++ ".txt".

Definition loadAdblockMeta (rd : FileRead) (files : Files) : gmap string adblockSourceMeta :=
  match read_file rd adblockMetaPath files with
  | Some s => match read_error s with Some _ => ∅ | None => decode_meta (content s) end
  | None => ∅
  end.
Definition saveAdblockMeta (io : SaveIO) (meta : gmap string adblockSourceMeta) (files : Files) : Files :=
  match encode_meta meta with
  | Err _ => files
  | Ok encoded =>
      match first_error [dir_error io; create_error io; write_error io; sync_error io; close_error io] with
      | Some _ => files
      | None => (replaceFile io encoded adblockMetaPath files).1
      end
  end.
(** The text [WriteToV2] writes into a file. *)
Definition text_writer : writer string := λ line s, (s ++ line, (Z.of_nat (slen line), None)).
Definition saveAdblockCache (io : SaveIO) (trie : Trie) (files : Files) : Files :=
  match first_error [dir_error io; create_error io; write_error io; sync_error io] with
  | Some _ => files
  | None => (replaceFile io (wr (WriteToV2 text_writer trie "")) adblockCachePath files).1
  end.
Definition loadAdblockCache (rd : FileRead) (files : Files) (trie : Trie) : Trie * bool :=
  match read_file rd adblockCachePath files with
  | None => (trie, false)
  | Some reader => parseAdblockCache reader trie
  end.

(** The body of a source goes to the parser and to a temporary file; its rules are
    merged when the file has taken the place of the old one. *)
Definition saveAdblockSourceCache (io : SaveIO) (source : string) (reader : Stream) (files : Files) (trie : Trie)
    (sourceID category : string) (scope : RuleScope) (origin : ScopeOrigin) : Files * Trie * option string :=
  match first_error [dir_error io; create_error io] with
  | Some e => (files, trie, Some e)
  | None =>
      let '(staging, parseErr) := parseAdblockSourceInto reader NewTrie sourceID category scope origin in
      match first_error [parseErr; write_error io; close_error io; sync_error io] with
      | Some e => (files, trie, Some e)
      | None =>
          match replaceFile io (content reader) (adblockSourceCachePath source) files with
          | (files, Some e) => (files, trie, Some e)
          | (files, None) => (files, (MergeFrom trie staging).1, None)
          end
      end
  end.
Definition loadAdblockSourceCache (rd : FileRead) (source : string) (files : Files) (trie : Trie)
    (sourceID category : string) (scope : RuleScope) (origin : ScopeOrigin) : Trie * bool :=
  match read_file rd (adblockSourceCachePath source) files with
  | None => (trie, false)
  | Some reader =>
      match parseAdblockSource reader trie sourceID category scope origin with
      | (trie, Some _) => (trie, false)
      | (trie, None) => (trie, true)
      end
  end.

(** ** One synchronisation *)

(** What the loop over the sources accumulates. *)
Record SyncAcc := mkAcc {
  newTrie : Trie; successCount : Z; networkCount : Z; cachedCount : Z;
  nextMeta : gmap string adblockSourceMeta; accFiles : Files
}.
Definition acc_success (t : Trie) (fs : Files) (net cached : Z) (meta : option (string * adblockSourceMeta))
    (a : SyncAcc) : SyncAcc :=
  mkAcc t (successCount a + 1) (networkCount a + net) (cachedCount a + cached)
    (match meta with Some (k, m) => <[k := m]> (nextMeta a) | None => nextMeta a end) fs.
Definition acc_files (fs : Files) (a : SyncAcc) : SyncAcc :=
  mkAcc (newTrie a) (successCount a) (networkCount a) (cachedCount a) (nextMeta a) fs.

Definition sync_local (env : SourceEnv) (source sourceID category : string) (scope : RuleScope)
    (origin : ScopeOrigin) (a : SyncAcc) : SyncAcc :=
  match local_open env with
  | Err _ => a
  | Ok reader =>
      match parseAdblockSource reader (newTrie a) sourceID category scope origin with
      | (_, Some _) => a
      | (t, None) => acc_success t (accFiles a) 0 0 None a
      end
  end.
(** The end of a remote source: the body or, without one, the old cache file. *)
Definition sync_reply (env : SourceEnv) (meta : adblockSourceMeta) (source sourceID category : string)
    (scope : RuleScope) (origin : ScopeOrigin) (reply : result Response) (a : SyncAcc) : SyncAcc :=
  let from_cache :=
    match loadAdblockSourceCache (fallback_read env) source (accFiles a) (newTrie a) sourceID category scope origin with
    | (t, true) => acc_success t (accFiles a) 0 1 (Some (source, meta)) a
    | (_, false) => a
    end in
  match reply with
  | Ok response =>
      match Reader response with
      | Some reader =>
          match saveAdblockSourceCache (save_io env) source reader (accFiles a) (newTrie a) sourceID category scope
                  origin with
          | (fs, _, Some _) => acc_files fs a
          | (fs, t, None) => acc_success t fs 1 0 (Some (source, Header response)) a
          end
      | None => from_cache
      end
  | Err _ => from_cache
  end.
Definition sync_remote (env : SourceEnv) (meta : adblockSourceMeta) (source sourceID category : string)
    (scope : RuleScope) (origin : ScopeOrigin) (a : SyncAcc) : SyncAcc :=
  match first_reply env meta with
  | Ok response =>
      if (StatusCode response =? 304)%Z then
        match loadAdblockSourceCache (unchanged_read env) source (accFiles a) (newTrie a) sourceID category scope
                origin with
        | (t, true) => acc_success t (accFiles a) 0 1 (Some (source, meta)) a
        | (_, false) => sync_reply env meta source sourceID category scope origin (second_reply env) a
        end
      else sync_reply env meta source sourceID category scope origin (Ok response) a
  | Err e => sync_reply env meta source sourceID category scope origin (Err e) a
  end.
Definition sync_source (currentMeta : gmap string adblockSourceMeta) (env : SourceEnv) (matchMode : string)
    (policies : option adblockSourcePolicySet) (source : string) (a : SyncAcc) : SyncAcc :=
  let sourceID := canonicalSourceID source in
  let '(category, scope, origin) := resolveAdblockSourcePolicy matchMode policies source in
  if negb (isRemoteAdblockSource source) then sync_local env source sourceID category scope origin a
  else sync_remote env (default no_meta (currentMeta !! source)) source sourceID category scope origin a.
(** The switches are read anew for every source. *)
Fixpoint sync_sources (currentMeta : gmap string adblockSourceMeta) (env : nat → SourceEnv)
    (switches : nat → string * option adblockSourcePolicySet) (i : nat) (sources : list string) (a : SyncAcc)
    : SyncAcc :=
  match sources with
  | [] => a
  | source :: sources =>
      sync_sources currentMeta env switches (S i) sources
        (sync_source currentMeta (env i) (switches i).1 (switches i).2 source a)
  end.
(** What follows the loop: publish, or keep, or fall back to the cache of all rules. *)
Definition finish_sync (env : SyncEnv) (currentCount : Z) (a : SyncAcc) (l : ListEngine) : ListEngine :=
  if (0 <? successCount a)%Z then
    let fs := saveAdblockMeta (meta_io env) (nextMeta a) (saveAdblockCache (cache_io env) (newTrie a) (accFiles a)) in
    set_outcome (sync_now env) true (successCount a) fs (on_engine (set_trie (newTrie a)) l)
  else if (currentCount =? 0)%Z then
    match loadAdblockCache (cache_read env) (accFiles a) (newTrie a) with
    | (t, true) => set_outcome (sync_now env) true 0 (accFiles a) (on_engine (set_trie t) l)
    | (_, false) => set_outcome (sync_now env) false 0 (accFiles a) l
    end
  else set_outcome (sync_now env) false 0 (accFiles a) l.
Definition syncAdblockLists (env : SyncEnv) (switches : nat → string * option adblockSourcePolicySet)
    (l : ListEngine) : ListEngine :=
  let sources := splitAdblockSources (sources_raw env) in
  match sources with
  | [] => l
  | _ =>
      let l := set_sources (Z.of_nat (length sources)) l in
      let currentMeta := loadAdblockMeta (meta_read env) (files l) in
      let a := sync_sources currentMeta (source_env env) switches 0 sources (mkAcc NewTrie 0 0 0 ∅ (files l)) in
      finish_sync env (TrieCount (trie_of (engine l))) a l
  end.
(** The switches when nobody changes them meanwhile. *)
Definition switches_of (l : ListEngine) : nat → string * option adblockSourcePolicySet :=
  λ _, (adblockMatchMode (engine l), sourcePolicies l).
Definition rebuildAdblockRules (env : SyncEnv) (l : ListEngine) : ListEngine :=
  if negb (adblockEnabled (engine l)) then on_engine (set_trie NewTrie) l
  else syncAdblockLists env (switches_of l) l.

(** ** Switches *)

(** [config.Bool] *)
Definition env_bool (value : string) (fallback : bool) : bool :=
  if existsb (String.eqb value) ["1"; "true"; "yes"; "on"] then true
  else if existsb (String.eqb value) ["0"; "false"; "no"; "off"] then false else fallback.
(** The store: disabled, or the reply about one key. *)
Definition StoreReply : Type := option (result string).
Definition store_disabled : string := "sqlite store disabled".

Definition refreshAdblockEnabled (env : string) (st : StoreReply) (l : ListEngine) : ListEngine :=
  match st with
  | None => on_engine (set_enabled (env_bool env true)) l
  | Some (Err _) => l
  | Some (Ok val) =>
      if String.eqb val "" then on_engine (set_enabled (env_bool env true)) l
      else on_engine (set_enabled (String.eqb val "true" || String.eqb val "1")) l
  end.
Definition refreshAdblockMatchMode (env : string) (st : StoreReply) (l : ListEngine) : ListEngine :=
  match st with
  | Some (Err _) => l
  | _ =>
      let next := match st with
                  | Some (Ok val) => if String.eqb val "" then parseAdblockMatchMode env else parseAdblockMatchMode val
                  | _ => parseAdblockMatchMode env
                  end in
      if String.eqb next (adblockMatchMode (engine l)) then l
      else RequestAdblockResync (on_engine (set_mode next) l)
  end.
Definition SetAdblockSourcePolicies (policies : adblockSourcePolicySet) (l : ListEngine) : ListEngine :=
  if String.eqb (adblockSourcePoliciesFingerprint (default ∅ (sourcePolicies l)))
       (adblockSourcePoliciesFingerprint policies) then l
  else RequestAdblockResync (set_policies policies l).
Definition refreshAdblockSourcePolicies (env : string) (st : StoreReply) (l : ListEngine) : ListEngine :=
  match st with
  | None => SetAdblockSourcePolicies (parseAdblockSourcePolicies env) l
  | Some (Err _) => l
  | Some (Ok raw) =>
      if String.eqb (TrimSpace raw) "" then SetAdblockSourcePolicies (parseAdblockSourcePolicies env) l
      else SetAdblockSourcePolicies (parseAdblockSourcePolicies raw) l
  end.

(** The writes: what is stored, and the error; [write] is the outcome of the statement,
    [None] a disabled store. *)
Definition SetAdblockEnabled (write : option (result unit)) (enabled : bool) (l : ListEngine)
    : ListEngine * option string * option string :=
  match write with
  | None => (l, None, Some store_disabled)
  | Some (Err e) => (l, None, Some ("persist adblock_enabled: " ++ e))
  | Some (Ok _) => (on_engine (set_enabled enabled) l, Some (if enabled then "true" else "false"), None)
  end.
Definition SetAdblockMatchMode (write : option (result unit)) (mode : string) (l : ListEngine)
    : ListEngine * option string * option string :=
  let normalized := ToLower (TrimSpace mode) in
  if negb (String.eqb normalized adblockMatchModeSuffix) && negb (String.eqb normalized adblockMatchModeExact)
  then (l, None, Some ("adblock match mode must be suffix or exact: got " ++ mode))
  else match write with
  | Some (Err e) => (l, None, Some ("persist adblock_match_mode: " ++ e))
  | Some (Ok _) => (RequestAdblockResync (on_engine (set_mode normalized) l), Some normalized, None)
  | None => (RequestAdblockResync (on_engine (set_mode normalized) l), None, None)
  end.
Definition SetAdblockSourcePoliciesJSON (env : string) (write : option (result unit)) (raw : string)
    (l : ListEngine) : ListEngine * option string * option string :=
  let trimmed := TrimSpace raw in
  match (if String.eqb trimmed "" then None else validateAdblockSourcePoliciesJSON trimmed) with
  | Some e => (l, None, Some e)
  | None =>
      match write with
      | None => (l, None, Some store_disabled)
      | Some (Err e) => (l, None, Some ("persist adblock_source_policies: " ++ e))
      | Some (Ok _) =>
          (SetAdblockSourcePolicies
             (parseAdblockSourcePolicies (if String.eqb trimmed "" then env else trimmed)) l, Some trimmed, None)
      end
  end.

(** ** Loops *)

(** A tick of [runAdblockConfigSync], the exceptions apart, which have their own. *)
Record ConfigTick := mkTick {
  env_enabled : string; env_mode : string; env_policies : string;
  enabled_reply : StoreReply; mode_reply : StoreReply; policies_reply : StoreReply
}.
Definition config_tick (t : ConfigTick) (l : ListEngine) : ListEngine :=
  refreshAdblockSourcePolicies (env_policies t) (policies_reply t)
    (refreshAdblockMatchMode (env_mode t) (mode_reply t) (refreshAdblockEnabled (env_enabled t) (enabled_reply t) l)).
(** The turns of [runAdblockSync]: a request is taken from the channel, a tick is not. *)
Definition take_resync (env : SyncEnv) (l : ListEngine) : option ListEngine :=
  if resync l then Some (rebuildAdblockRules env (set_resync false l)) else None.
Definition initial_sync (env : SyncEnv) (l : ListEngine) : ListEngine :=
  if adblockEnabled (engine l) then syncAdblockLists env (switches_of l) l else l.
End Sync.
