(* ===== verification/AdblockSyncSpec.v ===== *)
(** * Theorems about adblock lists, their synchronisation and control *)

From Stdlib Require Import ZArith Lia Ascii String.
From stdpp Require Import sorting.
From S2P Require Import Prelude GoStr Hostname Trie TrieSpec NetIP GoFloat Whitelist Groups Exceptions Feed FeedSpec FeedSync DomainML AdblockLists AdblockSync.

(** ** Tries of rule lists *)

Section Tries.
Context `{UnicodeTables, HostServices}.

Definition spec_union (a b : spec) : spec := mkSpec (sp_exact a ∪ sp_exact b) (sp_suffix a ∪ sp_suffix b).
Lemma spec_fold_lookup rs ls :
  sp_exact (foldl (λ s r, (spec_add s r).1) spec_empty rs) !! ls
  = List.find (λ r, bool_decide (Scope r = RuleScopeExact ∧ TrieSpec.rule_key r = ls)) rs
  ∧ sp_suffix (foldl (λ s r, (spec_add s r).1) spec_empty rs) !! ls
    = List.find (λ r, bool_decide (Scope r ≠ RuleScopeExact ∧ TrieSpec.rule_key r = ls)) rs.
Proof.
  destruct (spec_add_fold_lookup rs spec_empty ls) as [-> ->]. cbn. by rewrite !lookup_empty.
Qed.
Lemma spec_fold_union rs sp :
  foldl (λ s r, (spec_add s r).1) sp rs
  = spec_union sp (foldl (λ s r, (spec_add s r).1) spec_empty rs).
Proof.
  pose proof (spec_add_fold_lookup rs sp) as Hf. cbv zeta in Hf.
  destruct (foldl _ sp rs) as [e s]. unfold spec_union. cbn in Hf. f_equal; apply map_eq; intros ls;
    rewrite lookup_union; destruct (Hf ls) as [He Hs], (spec_fold_lookup rs ls) as [Fe Fs]; rewrite ?He, ?Hs, ?Fe, ?Fs.
  - destruct (sp_exact sp !! ls); [by rewrite union_Some_l|symmetry; apply (left_id_L None (∪))].
  - destruct (sp_suffix sp !! ls); [by rewrite union_Some_l|symmetry; apply (left_id_L None (∪))].
Qed.
Lemma spec_of_app rs1 rs2 : spec_of (rs1 ++ rs2)%list = spec_union (spec_of rs1) (spec_of rs2).
Proof. unfold spec_of. rewrite omap_app, foldl_app. apply spec_fold_union. Qed.

(** A rule whose stored form is stored unchanged. *)
Definition stable (rule : Rule) : Prop := ∀ r, prepare_rule rule = Some r → canonical r.
Lemma built_canonical rules : Forall stable rules → Forall canonical (rules_of (root (built rules))).
Proof.
  intros Hst. destruct (built_ok rules) as [Hr Hw]. apply Forall_forall. intros r Hin.
  apply (elem_of_rules_of _ _ (tr_wf _ _ Hr)) in Hin as [ls Hls].
  assert (r ∈ omap prepare_rule rules) as Hel.
  { unfold spec_of in Hr. destruct (spec_fold_lookup (omap prepare_rule rules) ls) as [He Hs].
    rewrite (tr_exact _ _ Hr), (tr_suffix _ _ Hr), He, Hs in Hls.
    destruct Hls as [Hls|Hls]; apply find_some in Hls as [Hls _]; by apply list_elem_of_In. }
  apply list_elem_of_omap in Hel as (rule & Hrule & Hp). rewrite Forall_forall in Hst. by apply (Hst rule).
Qed.
Lemma add_rules_built rules : add_rules NewTrie rules = built rules.
Proof. done. Qed.
(** The rules of a text as its staging trie stores them, in the order in which they are
    merged.  Merging adds them a second time, and they are normalised a second time. *)
Definition stored_rules (rules : list Rule) : list Rule := rules_of (root (built rules)).
Lemma merge_added rs t k sp :
  trie_refines t sp →
  trie_refines (fold_stop merge_visit rs ((t, k), false)).1.1
    (foldl (λ s r, (spec_add s r).1) sp (omap prepare_rule rs)).
Proof.
  revert t k sp. induction rs as [|r rs IH]; intros t k sp Ht; [done|].
  cbn [fold_stop omap list_omap snd fst merge_visit].
  destruct (AddRule t r) as [t1 ok] eqn:Ea. destruct (prepare_rule r) as [r'|] eqn:Ep.
  - destruct (add_rule_refines_aux t sp r r' Ht Ep) as [Ht1 _]. rewrite Ea in Ht1. by apply IH.
  - unfold AddRule in Ea. rewrite Ep in Ea. injection Ea as <- <-. by apply IH.
Qed.
(** Merging the trie of a list of rules is adding its stored rules at the end. *)
Lemma merge_built t rs1 rs2 :
  trie_refines t (spec_of rs1) →
  trie_refines (MergeFrom t (built rs2)).1 (spec_of (rs1 ++ stored_rules rs2)%list).
Proof.
  intros Ht. unfold MergeFrom, ForEach. rewrite foreach_node_spec.
  unfold spec_of. rewrite omap_app, foldl_app. by apply merge_added.
Qed.
(** Rules that are stored unchanged: what is merged is what the text says. *)
Lemma stored_stable rules : Forall stable rules → spec_of (stored_rules rules) = spec_of rules.
Proof.
  intros Hst. destruct (built_ok rules) as [Hr Hw].
  pose proof (merge_first_wins NewTrie (built rules) spec_empty (spec_of rules) trie_refines_new Hr Hw
    (built_canonical rules Hst)) as Hm.
  assert (∀ r, r ∈ stored_rules rules → prepare_rule r = Some r) as Hc
    by (apply Forall_forall, built_canonical, Hst). clear Hm.
  assert (omap prepare_rule (stored_rules rules) = stored_rules rules) as Ho.
  { revert Hc. generalize (stored_rules rules) as rs. induction rs as [|r rs IH]; intros Hc; [done|].
    cbn [omap list_omap]. rewrite (Hc r) by by left. f_equal. apply IH. intros r' Hr'. apply Hc. by right. }
  unfold spec_of at 1. rewrite Ho. clear Hc Ho.
  set (sp := foldl _ _ (stored_rules rules)). destruct sp as [e x] eqn:E, (spec_of rules) as [e' x'] eqn:E'.
  f_equal; apply map_eq; intros ls; destruct (spec_fold_lookup (stored_rules rules) ls) as [He Hs],
    (find_stored (built rules) _ ls Hr Hw) as [Fe Fs]; fold sp in He, Hs; rewrite E in He, Hs; cbn in *.
  - by rewrite He, <- Fe.
  - by rewrite Hs, <- Fs.
Qed.
Lemma refines_match t rules domain :
  trie_refines t (spec_of rules) →
  MatchRuleDetail t domain =
  let q := normalizeDomain domain in
  if String.eqb q "" then no_match else to_detail q (spec_match (spec_of rules) (walk_labels q)).
Proof. apply match_refines_aux. Qed.
Lemma refines_count t sp :
  trie_refines t sp → TrieCount t = Z.of_nat (size (sp_exact sp) + size (sp_suffix sp)).
Proof. intros Hr. unfold TrieCount. rewrite (tr_exact_count _ _ Hr), (tr_suffix_count _ _ Hr). lia. Qed.
End Tries.

(** ** What a synchronisation reads *)

Section Contributions.
Context `{UnicodeTables, HostServices, FeedLibs, PolicyLibs, MetaJSON}.

(** The text of a stream that was read to its end. *)
Definition whole (s : Stream) : option string := match (scan s).2 with None => Some (content s) | Some _ => None end.
Definition cached_text (rd : FileRead) (source : string) (fs : Files) : option string :=
  read_file rd (adblockSourceCachePath source) fs ≫= whole.
(** The rules a source's text gives under its policy. *)
Definition text_rules (mode : string) (policies : option adblockSourcePolicySet) (source text : string) : list Rule :=
  let '(category, scope, origin) := resolveAdblockSourcePolicy mode policies source in
  source_rules (canonicalSourceID source) category scope origin (scan_lines text).

(** The reply that counts: after an unchanged reply whose cache file is unreadable the
    source is asked again. *)
Definition settled_reply (env : SourceEnv) (meta : adblockSourceMeta) : result Response :=
  match first_reply env meta with
  | Ok response => if (StatusCode response =? 304)%Z then second_reply env else Ok response
  | Err e => Err e
  end.
Definition unchanged (env : SourceEnv) (meta : adblockSourceMeta) : bool :=
  match first_reply env meta with Ok response => (StatusCode response =? 304)%Z | Err _ => false end.
(** Whether the temporary file of a body could be completed. *)
Definition save_fails (io : SaveIO) : bool :=
  match first_error [dir_error io; create_error io; write_error io; close_error io; sync_error io] with
  | Some _ => true | None => false
  end.
(** The text a source contributes, if any, and the files afterwards. *)
Definition contribution (env : SourceEnv) (meta : adblockSourceMeta) (source : string) (fs : Files)
    : option string * Files :=
  if negb (isRemoteAdblockSource source) then
    (match local_open env with Ok s => whole s | Err _ => None end, fs)
  else match (if unchanged env meta then cached_text (unchanged_read env) source fs else None) with
  | Some text => (Some text, fs)
  | None =>
      match settled_reply env meta with
      | Ok (mkReply _ (Some body) _) =>
          match whole body with
          | Some text =>
              if save_fails (save_io env) then (None, fs)
              else
                let '(fs, err) := replaceFile (save_io env) text (adblockSourceCachePath source) fs in
                (match err with Some _ => None | None => Some text end, fs)
          | None => (None, fs)
          end
      | _ => (cached_text (fallback_read env) source fs, fs)
      end
  end.
(** All sources in order: the contributed texts, each with the source's number. *)
Fixpoint contributions (meta : gmap string adblockSourceMeta) (env : nat → SourceEnv) (i : nat) (sources : list string)
    (fs : Files) : list (nat * string * string) * Files :=
  match sources with
  | [] => ([], fs)
  | source :: sources =>
      let '(text, fs) := contribution (env i) (default no_meta (meta !! source)) source fs in
      let '(rest, fs) := contributions meta env (S i) sources fs in
      ((match text with Some t => (i, source, t) :: rest | None => rest end), fs)
  end.
Definition contributed_rules (switches : nat → string * option adblockSourcePolicySet)
    (cs : list (nat * string * string)) : list Rule :=
  concat ((λ c, stored_rules (text_rules (switches c.1.1).1 (switches c.1.1).2 c.1.2 c.2)) <$> cs).
(** The same, as the texts spell them. *)
Definition spelled_rules (switches : nat → string * option adblockSourcePolicySet)
    (cs : list (nat * string * string)) : list Rule :=
  concat ((λ c, text_rules (switches c.1.1).1 (switches c.1.1).2 c.1.2 c.2) <$> cs).
Lemma spelled_stable switches cs :
  Forall stable (spelled_rules switches cs) →
  spec_of (contributed_rules switches cs) = spec_of (spelled_rules switches cs).
Proof.
  unfold spelled_rules, contributed_rules. induction cs as [|c cs IH]; [done|].
  cbn [fmap list_fmap concat]. intros [Hc Hcs]%Forall_app.
  by rewrite !spec_of_app, IH, stored_stable.
Qed.

Lemma first_error_none es : first_error es = None ↔ Forall (λ e, e = None) es.
Proof.
  unfold first_error. induction es as [|[e|] es IH]; cbn.
  - done.
  - split; [done|]. by intros [? _]%Forall_cons.
  - rewrite Forall_cons, IH. naive_solver.
Qed.
Lemma parse_source_whole reader t sid category scope origin :
  parseAdblockSource reader t sid category scope origin
  = match whole reader with
    | Some text => ((MergeFrom t (built (source_rules sid category scope origin (scan_lines text)))).1, None)
    | None => (t, (scan reader).2)
    end.
Proof. unfold parseAdblockSource, parseAdblockSourceInto, whole, scan. cbn. by case_match. Qed.
Lemma load_cache_whole rd source fs t sid category scope origin :
  loadAdblockSourceCache rd source fs t sid category scope origin
  = match cached_text rd source fs with
    | Some text => ((MergeFrom t (built (source_rules sid category scope origin (scan_lines text)))).1, true)
    | None => (t, false)
    end.
Proof.
  unfold loadAdblockSourceCache, cached_text. destruct (read_file _ _ _) as [reader|]; cbn -[parseAdblockSource whole]; [|done].
  rewrite parse_source_whole. unfold whole. by destruct (scan reader) as [? [|]].
Qed.
Lemma save_cache_whole io source reader fs t sid category scope origin :
  saveAdblockSourceCache io source reader fs t sid category scope origin
  = match whole reader with
    | Some text =>
        if save_fails io then (fs, t, first_error [dir_error io; create_error io; write_error io; close_error io; sync_error io])
        else match replaceFile io text (adblockSourceCachePath source) fs with
             | (fs, Some e) => (fs, t, Some e)
             | (fs, None) => (fs, (MergeFrom t (built (source_rules sid category scope origin (scan_lines text)))).1, None)
             end
    | None => (fs, t, first_error [dir_error io; create_error io; (scan reader).2])
    end.
Proof.
  unfold saveAdblockSourceCache, save_fails, whole, parseAdblockSourceInto, scan. cbn [fst snd].
  unfold first_error. destruct (dir_error io), (create_error io); cbn; try (by case_match).
  destruct (if forallb _ _ then _ else _); cbn; [done|].
  by destruct (write_error io), (close_error io), (sync_error io).
Qed.
End Contributions.

Section Synchronise.
Context `{UnicodeTables, HostServices, FeedLibs, PolicyLibs, MetaJSON}.

(** One source changes the accumulator by its contribution and by nothing else. *)
Definition adds (mode : string) (policies : option adblockSourcePolicySet) (source : string)
    (c : option string * Files) (a a' : SyncAcc) : Prop :=
  accFiles a' = c.2 ∧
  match c.1 with
  | None => newTrie a' = newTrie a ∧ successCount a' = successCount a
  | Some text => newTrie a' = (MergeFrom (newTrie a) (built (text_rules mode policies source text))).1
                 ∧ successCount a' = (successCount a + 1)%Z
  end.
Lemma sync_reply_adds env meta mode policies source reply a :
  let '(category, scope, origin) := resolveAdblockSourcePolicy mode policies source in
  adds mode policies source
    (match reply with
     | Ok (mkReply _ (Some body) _) =>
         match whole body with
         | Some text =>
             if save_fails (save_io env) then (None, accFiles a)
             else
               let '(fs, err) := replaceFile (save_io env) text (adblockSourceCachePath source) (accFiles a) in
               (match err with Some _ => None | None => Some text end, fs)
         | None => (None, accFiles a)
         end
     | _ => (cached_text (fallback_read env) source (accFiles a), accFiles a)
     end) a (sync_reply env meta source (canonicalSourceID source) category scope origin reply a).
Proof.
  unfold adds, text_rules, sync_reply. destruct (resolveAdblockSourcePolicy mode policies source) as [[category scope] origin].
  rewrite load_cache_whole. destruct reply as [[status [body|] header]|e]; cbn [Reader Header].
  2, 3: by destruct (cached_text _ _ _).
  rewrite save_cache_whole. destruct (whole body) as [text|] eqn:Hw.
  - destruct (save_fails (save_io env)) eqn:Hf.
    + unfold save_fails in Hf. destruct (first_error _); [done|done].
    + destruct (replaceFile _ _ _ _) as [fs [e|]]; done.
  - assert (∃ e, first_error [dir_error (save_io env); create_error (save_io env); (scan body).2] = Some e) as [e ->]; [|done].
    unfold whole in Hw. unfold first_error. destruct (dir_error _), (create_error _), ((scan body).2); cbn; eauto; done.
Qed.
Lemma sync_source_adds currentMeta env mode policies source a :
  adds mode policies source (contribution env (default no_meta (currentMeta !! source)) source (accFiles a)) a
    (sync_source currentMeta env mode policies source a).
Proof.
  unfold sync_source, contribution. set (meta := default no_meta (currentMeta !! source)).
  pose proof (sync_reply_adds env meta mode policies source) as Hreply.
  destruct (resolveAdblockSourcePolicy mode policies source) as [[category scope] origin] eqn:Hres.
  destruct (isRemoteAdblockSource source); cbn [negb].
  - unfold sync_remote, unchanged, settled_reply. destruct (first_reply env meta) as [response|e]; [|apply Hreply].
    destruct (StatusCode response =? 304)%Z; [|apply Hreply].
    rewrite load_cache_whole. destruct (cached_text (unchanged_read env) source (accFiles a)) as [text|]; [|apply Hreply].
    unfold adds, text_rules. cbn. by rewrite Hres.
  - unfold sync_local, adds, text_rules. destruct (local_open env) as [s|]; [|done].
    rewrite parse_source_whole. cbn [fst snd]. rewrite Hres. unfold whole. destruct (scan s) as [lines [e|]]; done.
Qed.
Lemma sync_sources_adds currentMeta env switches sources i a rules :
  trie_refines (newTrie a) (spec_of rules) →
  let '(cs, fs) := contributions currentMeta env i sources (accFiles a) in
  let a' := sync_sources currentMeta env switches i sources a in
  trie_refines (newTrie a') (spec_of (rules ++ contributed_rules switches cs)%list)
  ∧ successCount a' = (successCount a + Z.of_nat (length cs))%Z ∧ accFiles a' = fs
  ∧ (cs = [] → newTrie a' = newTrie a).
Proof.
  revert i a rules. induction sources as [|source sources IH]; intros i a rules Ht; cbn [contributions sync_sources].
  { cbv zeta. unfold contributed_rules. cbn. rewrite app_nil_r. split; [done|]. split; [lia|done]. }
  pose proof (sync_source_adds currentMeta (env i) (switches i).1 (switches i).2 source a) as [Hfs Hadd].
  set (a1 := sync_source _ _ _ _ _ _) in *.
  destruct (contribution _ _ _ _) as [[text|] fs1]; cbn [fst snd] in Hfs, Hadd; rewrite <- Hfs.
  - destruct Hadd as [Htrie Hcount].
    specialize (IH (S i) a1 (rules ++ stored_rules (text_rules (switches i).1 (switches i).2 source text))%list).
    destruct (contributions _ _ _ _ _) as [cs fs]. unfold contributed_rules in *. cbn [fmap list_fmap concat fst snd].
    destruct IH as (Hr & Hc & Hf & _).
    { rewrite Htrie. by apply merge_built. }
    rewrite <- app_assoc in Hr. split; [done|]. split; [cbn [length]; lia|]. split; [done|]. by intros [=].
  - destruct Hadd as [Htrie Hcount]. specialize (IH (S i) a1 rules). rewrite Htrie in IH. specialize (IH Ht).
    destruct (contributions _ _ _ _ _) as [cs fs]. destruct IH as (Hr & Hc & Hf & Hnil).
    split; [done|]. split; [lia|]. by split.
Qed.

(** The contributions of a synchronisation of an engine. *)
Definition sync_contributions (env : SyncEnv) (l : ListEngine) : list (nat * string * string) * Files :=
  contributions (loadAdblockMeta (meta_read env) (files l)) (source_env env) 0 (splitAdblockSources (sources_raw env))
    (files l).
(** The text of the cache of all rules, when it can be read. *)
Definition cache_text (env : SyncEnv) (fs : Files) : option string := read_file (cache_read env) adblockCachePath fs ≫= whole.
Lemma load_adblock_cache_whole env fs t :
  loadAdblockCache (cache_read env) fs t
  = match cache_text env fs with
    | Some text =>
        if (TrieCount (built (cache_rules (scan_lines text))) =? 0)%Z then (t, false)
        else ((MergeFrom t (built (cache_rules (scan_lines text)))).1, true)
    | None => (t, false)
    end.
Proof.
  unfold loadAdblockCache, cache_text. destruct (read_file _ _ _) as [reader|]; [|done]. cbn -[parseAdblockCache whole].
  unfold parseAdblockCache, whole, scan. cbn -[TrieCount]. by case_match.
Qed.

Lemma sync_refines_aux env switches l :
  splitAdblockSources (sources_raw env) ≠ [] →
  let '(cs, fs) := sync_contributions env l in
  let rules := contributed_rules switches cs in
  let cached := default [] ((λ t, cache_rules (scan_lines t)) <$> cache_text env fs) in
  let l' := syncAdblockLists env switches l in
  let old := trie_of (engine l) in
  okCount l' = Z.of_nat (length cs) ∧ lastSync l' = Some (sync_now env) ∧
  if bool_decide (cs ≠ []) then
    lastSyncOK l' = true ∧ trie_refines (trie_of (engine l')) (spec_of rules)
    ∧ (∀ domain, MatchRuleDetail (trie_of (engine l')) domain
                 = let q := normalizeDomain domain in
                   if String.eqb q "" then no_match else to_detail q (spec_match (spec_of rules) (walk_labels q)))
    ∧ (Forall stable (spelled_rules switches cs) → spec_of rules = spec_of (spelled_rules switches cs))
  else if negb (TrieCount old =? 0)%Z || (TrieCount (built cached) =? 0)%Z then
    lastSyncOK l' = false ∧ engine l' = engine l
  else lastSyncOK l' = true ∧ trie_refines (trie_of (engine l')) (spec_of (stored_rules cached)).
Proof.
  intros Hne. unfold sync_contributions, syncAdblockLists.
  destruct (splitAdblockSources (sources_raw env)) as [|s0 ss] eqn:Hs; [done|]. clear Hne.
  set (l1 := set_sources _ l). set (meta := loadAdblockMeta _ _). set (a0 := mkAcc NewTrie 0 0 0 ∅ (files l1)).
  pose proof (sync_sources_adds meta (source_env env) switches (s0 :: ss) 0 a0 [] trie_refines_new) as Hsync.
  change (accFiles a0) with (files l) in Hsync.
  destruct (contributions meta (source_env env) 0 (s0 :: ss) (files l)) as [cs fs].
  destruct Hsync as (Hr & Hc & Hf & Hnil). cbv zeta. set (a := sync_sources _ _ _ _ _ _) in *. clearbody a.
  cbn [app] in Hr. unfold finish_sync. rewrite Hf. change (engine l1) with (engine l). cbn in Hc.
  destruct cs as [|c cs].
  - rewrite bool_decide_false by naive_solver. rewrite Hc. cbn [length]. change (0 <? 0)%Z with false. cbv iota.
    destruct (TrieCount (trie_of (engine l)) =? 0)%Z; cbn [negb orb]; [|done].
    rewrite load_adblock_cache_whole. destruct (cache_text env fs) as [text|]; cbn [fmap option_fmap option_map default id].
    2: { change (TrieCount (built []) =? 0)%Z with true. done. }
    destruct (TrieCount (built (cache_rules (scan_lines text))) =? 0)%Z; [done|].
    split; [done|]. split; [done|]. split; [done|]. cbn -[built]. rewrite Hnil by done.
    apply (merge_built NewTrie [] (cache_rules (scan_lines text))), trie_refines_new.
  - rewrite bool_decide_true by done. rewrite Hc. cbn [length].
    rewrite (proj2 (Z.ltb_lt _ _)) by lia. split; [cbn; lia|]. split; [done|]. split; [done|]. split; [done|].
    split; [intros domain; by apply refines_match|apply spelled_stable].
Qed.

(** What a synchronisation makes of the trie in force: the rules contributed, or without
    any, the trie there was or the cache of all rules. *)
Definition published (env : SyncEnv) (switches : nat → string * option adblockSourcePolicySet) (l : ListEngine)
    (t : Trie) : Prop :=
  let '(cs, fs) := sync_contributions env l in
  if bool_decide (cs ≠ []) then trie_refines t (spec_of (contributed_rules switches cs))
  else t = trie_of (engine l) ∨
    (TrieCount (trie_of (engine l)) = 0%Z ∧ ∃ text, cache_text env fs = Some text ∧
     trie_refines t (spec_of (stored_rules (cache_rules (scan_lines text))))).
Lemma sync_published env switches l :
  published env switches l (trie_of (engine (syncAdblockLists env switches l))).
Proof.
  unfold published. destruct (decide (splitAdblockSources (sources_raw env) = [])) as [Hn|Hne].
  { unfold sync_contributions, syncAdblockLists. rewrite Hn. cbn. by left. }
  pose proof (sync_refines_aux env switches l Hne) as Hs.
  destruct (sync_contributions env l) as [cs fs]. destruct Hs as (_ & _ & Hs).
  destruct (bool_decide (cs ≠ [])); [by destruct Hs as (_ & ? & _)|].
  destruct (TrieCount (trie_of (engine l)) =? 0)%Z eqn:Hc; cbn [negb orb] in Hs; [|left; by destruct Hs as [_ ->]].
  destruct (cache_text env fs) as [text|]; cbn [fmap option_fmap option_map default id] in Hs.
  2: { left. change (TrieCount (built []) =? 0)%Z with true in Hs. by destruct Hs as [_ ->]. }
  destruct (TrieCount (built (cache_rules (scan_lines text))) =? 0)%Z; [left; by destruct Hs as [_ ->]|].
  right. split; [by apply Z.eqb_eq|]. exists text. by destruct Hs.
Qed.

(** C14: one synchronisation publishes exactly the rules of the texts it could read.
    Every source contributes one text: its download once that is read to the end and
    stored, its stored text when the source is unchanged or unreachable, or nothing.  If
    anything was contributed, the trie in force is the first-wins union of the
    contributed rules in the order of the sources, under each source's policy, for every
    lookup and in its size; otherwise a trie with rules stays as it is, and an empty one
    is replaced by the cache of all rules when that has any.  The rules of a text are
    those its staging trie stores, which the merge normalises once more; where that
    changes none of them the union is that of the rules as the texts spell them.  A
    half-read text, or a download that cannot be stored, contributes nothing, not even
    its stored text, and the success count counts the contributions. *)
Theorem sync_refines env switches l :
  splitAdblockSources (sources_raw env) ≠ [] →
  let '(cs, fs) := sync_contributions env l in
  let rules := contributed_rules switches cs in
  let cached := default [] ((λ t, cache_rules (scan_lines t)) <$> cache_text env fs) in
  let l' := syncAdblockLists env switches l in
  let old := trie_of (engine l) in
  okCount l' = Z.of_nat (length cs) ∧ lastSync l' = Some (sync_now env) ∧
  if bool_decide (cs ≠ []) then
    lastSyncOK l' = true ∧ trie_refines (trie_of (engine l')) (spec_of rules)
    ∧ (∀ domain, MatchRuleDetail (trie_of (engine l')) domain
                 = let q := normalizeDomain domain in
                   if String.eqb q "" then no_match else to_detail q (spec_match (spec_of rules) (walk_labels q)))
    ∧ (Forall stable (spelled_rules switches cs) → spec_of rules = spec_of (spelled_rules switches cs))
  else if negb (TrieCount old =? 0)%Z || (TrieCount (built cached) =? 0)%Z then
    lastSyncOK l' = false ∧ engine l' = engine l
  else lastSyncOK l' = true ∧ trie_refines (trie_of (engine l')) (spec_of (stored_rules cached)).
Proof. apply sync_refines_aux. Qed.
End Synchronise.

(** ** The cache of all rules *)

Section Reload.
Context `{UnicodeTables, HostServices, FeedLibs, PolicyLibs, MetaJSON}.

(** A stored rule that the cache file can carry. *)
Definition restorable (r : Rule) : Prop :=
  storable r ∧ canonical (reloaded r) ∧ is_ascii (rule_line r) = true
  ∧ contains_byte (ascii_of_N 13) (rule_line r) = false ∧ (Z.of_nat (slen (rule_line r)) < adblockMaxToken)%Z.

Lemma no_return_line l :
  contains_byte (ascii_of_N 13) l = false → TrimSuffix l carriage_return = l ∧ trim_returns l = l.
Proof.
  intros Hl. split.
  - unfold TrimSuffix. destruct (HasSuffix l carriage_return) eqn:E; [|done]. apply HasSuffix_spec in E as [r ->].
    rewrite contains_byte_app, orb_false_iff in Hl. by destruct Hl as [_ Hl].
  - apply trim_right_id. revert Hl. induction l as [|c l IH]; [done|]. rewrite contains_byte_cons, orb_false_iff.
    intros [Hc Hl]. cbn [sforall]. rewrite Hc. by apply IH.
Qed.
Lemma trim_keeps_byte (p : ascii → bool) c s : p c = false → contains_byte c s = true → contains_byte c (trim_left p s) = true.
Proof.
  intros Hp. induction s as [|d s IH]; [done|]. rewrite contains_byte_cons. cbn [trim_left].
  destruct (p d) eqn:Hd; [|by rewrite contains_byte_cons]. intros [Hc|Hc]%orb_prop; [|by apply IH].
  apply Ascii.eqb_eq in Hc as <-. congruence.
Qed.
Lemma contains_byte_srev c s : contains_byte c (srev s) = contains_byte c s.
Proof.
  induction s as [|d s IH]; [done|].
  rewrite srev_cons, contains_byte_app, !contains_byte_cons, IH. cbn. rewrite orb_false_r. apply orb_comm.
Qed.
Lemma rule_line_visible r : storable r → is_ascii (rule_line r) = true → TrimSpace (rule_line r) ≠ "".
Proof.
  intros (_ & _ & _ & Ha & _) Hasc Hnil. unfold TrimSpace in Hnil. rewrite Hasc in Hnil.
  assert (contains_byte "k" (rule_line r) = true) as Hk.
  { unfold rule_line, rule_fields. rewrite Ha. cbn [Join]. rewrite !contains_byte_app, !contains_byte_cons, !contains_byte_app,
      !contains_byte_cons, !contains_byte_app. cbn. by rewrite !orb_true_r. }
  apply (trim_keeps_byte ascii_space) in Hk; [|done].
  assert (contains_byte "k" (trim_right ascii_space (trim_left ascii_space (rule_line r))) = true) as Hk2.
  { unfold trim_right. rewrite contains_byte_srev. apply trim_keeps_byte; [done|]. by rewrite contains_byte_srev. }
  by rewrite Hnil in Hk2.
Qed.
Lemma header_line : TrimSuffix CacheV2Header carriage_return = CacheV2Header ∧ trim_returns CacheV2Header = CacheV2Header.
Proof. by vm_compute. Qed.

Lemma saved_lines t :
  Forall restorable (rules_of (root t)) →
  raw_lines (wr (WriteToV2 text_writer t "")) = (CacheV2Header :: (rule_line <$> rules_of (root t)))%list.
Proof.
  intros Hall. unfold raw_lines. change linefeed with newline_byte. change text_writer with buf_writer.
  rewrite write_v2_lines by (eapply Forall_impl; [exact Hall|]; by intros r [? _]).
  change (CacheV2Header :: ?l ++ [""])%list with ((CacheV2Header :: l) ++ [""])%list. rewrite rev_app_distr.
  cbn [rev app]. by rewrite rev_app_distr, rev_involutive.
Qed.
Lemma saved_rules t :
  Forall restorable (rules_of (root t)) →
  cache_rules (scan_lines (wr (WriteToV2 text_writer t ""))) = reloaded <$> rules_of (root t)
  ∧ whole (mkStream (wr (WriteToV2 text_writer t "")) None) = Some (wr (WriteToV2 text_writer t "")).
Proof.
  intros Hall. pose proof (saved_lines t Hall) as Hlines. split.
  - unfold cache_rules, scan_lines. rewrite Hlines, <- list_fmap_compose, fmap_cons. cbn [compose].
    rewrite (proj1 header_line), (proj2 header_line).
    change (HasPrefix CacheV2Header CacheV2Header) with true. cbv iota. clear Hlines.
    induction Hall as [|r rs (Hst & Hcan & Hasc & Hret & _) Hrs IH]; [done|].
    rewrite !fmap_cons. unfold compose at 1. destruct (no_return_line _ Hret) as [-> ->].
    rewrite filter_cons_True by by apply rule_line_visible. cbn [omap list_omap]. rewrite parse_rule_line by done.
    by f_equal.
  - unfold whole, scan. cbn [snd content read_error]. rewrite Hlines.
    assert (forallb (λ l, Z.of_nat (slen l) <? adblockMaxToken)%Z (CacheV2Header :: (rule_line <$> rules_of (root t)))%list
            = true) as ->; [|done].
    apply forallb_forall. intros l [<-|Hin]; [by vm_compute|]. apply list_elem_of_In, list_elem_of_fmap in Hin as (r & -> & Hr).
    rewrite Forall_forall in Hall. apply Z.ltb_lt. by apply (Hall r Hr).
Qed.

Definition reloaded_match (m : MatchDetail) : MatchDetail :=
  if Matched m then mkMatch (reloaded (MRule m)) (Query m) true else m.
Lemma omap_canonical rs : Forall canonical rs → omap prepare_rule rs = rs.
Proof. induction 1 as [|r rs Hr _ IH]; [done|]. cbn. rewrite Hr. by f_equal. Qed.
Lemma find_reloaded (P : Rule → bool) rs :
  (∀ r, P (reloaded r) = P r) → List.find P (reloaded <$> rs) = reloaded <$> List.find P rs.
Proof. intros HP. induction rs as [|r rs IH]; [done|]. cbn. rewrite HP. by destruct (P r). Qed.
Lemma spec_reloaded t sp ls :
  trie_refines t sp → spec_wf sp → Forall restorable (rules_of (root t)) →
  sp_exact (spec_of (reloaded <$> rules_of (root t))) !! ls = reloaded <$> sp_exact sp !! ls
  ∧ sp_suffix (spec_of (reloaded <$> rules_of (root t))) !! ls = reloaded <$> sp_suffix sp !! ls.
Proof.
  intros Hr Hw Hall. unfold spec_of. rewrite omap_canonical.
  2: { apply Forall_fmap. eapply Forall_impl; [exact Hall|]. by intros r (_ & ? & _). }
  destruct (spec_fold_lookup (reloaded <$> rules_of (root t)) ls) as [-> ->].
  rewrite !find_reloaded by done. destruct (find_stored t sp ls Hr Hw) as [<- <-]. done.
Qed.
Lemma longest_reloaded (m m' : list string → option Rule) ls k :
  (∀ p, m' p = reloaded <$> m p) → longest m' ls k = reloaded <$> longest m ls k.
Proof. intros Hm. induction k as [|k IH]; [done|]. cbn [longest]. rewrite Hm. by destruct (m (take (S k) ls)). Qed.

(** C16: the cache of all rules restores the enforcement of the rules it can carry.  Let a
    trie, such as the one a synchronisation publishes, hold at least one rule, and let
    every rule it holds be stored unchanged when it is added again and give a line of
    ASCII characters without a carriage return, shorter than the limit of the scanner.
    After the trie was saved, a process that starts without rules and reads the file
    answers every lookup with the same rule, domain, scope, category and source
    included, only the observation of where the scope came from being lost; and holds
    as many rules. *)
Theorem cache_restores_matching t rules fs :
  trie_refines t (spec_of rules) →
  let fs' := saveAdblockCache no_errors t fs in
  Forall restorable (rules_of (root t)) → TrieCount t ≠ 0%Z →
  ∃ t', loadAdblockCache (mkRead true None) fs' NewTrie = (t', true)
    ∧ TrieCount t' = TrieCount t
    ∧ ∀ domain, MatchRuleDetail t' domain = reloaded_match (MatchRuleDetail t domain).
Proof.
  intros Hr fs' Hall Hcount. destruct (built_ok rules) as [_ Hw].
  destruct (saved_rules t Hall) as [Hrules Hwhole].
  set (text := wr (WriteToV2 text_writer t "")) in *.
  assert (loadAdblockCache (mkRead true None) fs' NewTrie
          = parseAdblockCache (mkStream text None) NewTrie) as ->.
  { assert (fs' = <[adblockCachePath := text]> fs) as -> by done. unfold loadAdblockCache, read_file.
    pose proof (lookup_insert_eq (M:=gmap string) fs adblockCachePath text) as Hlk.
    unfold Files in *. cbn [opens cache_read failing]. by rewrite Hlk. }
  set (rs := reloaded <$> rules_of (root t)) in *.
  assert (Forall stable rs) as Hst.
  { apply Forall_fmap. eapply Forall_impl; [exact Hall|]. intros r (_ & Hcan & _) r' Hr'. unfold canonical in Hcan.
    cbn in Hr'. rewrite Hcan in Hr'. by injection Hr' as <-. }
  destruct (built_ok rs) as [Hb Hbw]. pose proof (merge_built NewTrie [] rs trie_refines_new) as Hm. cbn [app] in Hm.
  rewrite (stored_stable rs Hst) in Hm.
  assert (sp_exact (spec_of rs) = reloaded <$> sp_exact (spec_of rules)
          ∧ sp_suffix (spec_of rs) = reloaded <$> sp_suffix (spec_of rules)) as [He Hs].
  { split; apply map_eq; intros ls; rewrite lookup_fmap; by apply (spec_reloaded t (spec_of rules) ls Hr Hw Hall). }
  assert (∀ t', trie_refines t' (spec_of rs) → TrieCount t' = TrieCount t) as Hsize.
  { intros t' Ht'. rewrite (refines_count _ _ Ht'), (refines_count _ _ Hr), He, Hs. by rewrite !map_size_fmap. }
  exists (MergeFrom NewTrie (built rs)).1. split; [|split].
  - unfold parseAdblockCache. unfold whole in Hwhole. destruct (scan (mkStream text None)) as [lines err] eqn:Hscan.
    cbn [snd] in Hwhole. destruct err; [done|]. unfold scan in Hscan. injection Hscan as <- _. cbn [content].
    rewrite Hrules, add_rules_built, (Hsize _ Hb). by rewrite (proj2 (Z.eqb_neq _ _) Hcount).
  - by apply Hsize.
  - intros domain. rewrite (refines_match _ rs domain Hm), (refines_match t rules domain Hr). cbv zeta.
    destruct (String.eqb (normalizeDomain domain) ""); [done|]. unfold spec_match. rewrite He, lookup_fmap.
    destruct (sp_exact (spec_of rules) !! _); [done|]. cbn [fmap option_fmap option_map].
    rewrite (longest_reloaded (λ p, sp_suffix (spec_of rules) !! p)); [|intros p; by rewrite Hs, lookup_fmap].
    by destruct (longest _ _ _).
Qed.
End Reload.

(** ** Source policies *)

Section Policies.
Context `{UnicodeTables, FeedLibs, PolicyLibs}.

Definition source_key (source : string) : string := canonicalSourceKey (TrimSpace source).
Definition policy_of (decoded : adblockSourcePolicySet) (source : string) : adblockSourcePolicy :=
  default (mkPolicy "" "") (decoded !! source).
Lemma sources_elem decoded source : source ∈ sorted_sources decoded ↔ is_Some (decoded !! source).
Proof.
  unfold sorted_sources, sort_strings. rewrite merge_sort_Permutation, list_elem_of_fmap. split.
  - intros ([k p] & -> & Hin). apply elem_of_map_to_list in Hin. by exists p.
  - intros [p Hp]. exists (source, p). split; [done|]. by apply elem_of_map_to_list.
Qed.
Lemma sources_length decoded : length (sorted_sources decoded) = size decoded.
Proof.
  unfold sorted_sources, sort_strings. rewrite merge_sort_Permutation. rewrite length_fmap. apply length_map_to_list.
Qed.
Lemma collision_free seen sources :
  find_collision seen sources = None →
  NoDup (source_key <$> sources) ∧ (∀ s, s ∈ sources → seen !! source_key s = None).
Proof.
  revert seen. induction sources as [|s sources IH]; intros seen; cbn [find_collision].
  { intros _. split; [constructor|]. intros s Hs. by apply elem_of_nil in Hs. }
  fold (source_key s). destruct (seen !! source_key s) eqn:Hs; [done|]. intros Hc. apply IH in Hc as [Hnd Hno]. split.
  - rewrite fmap_cons. constructor; [|done]. intros (s' & He & Hin)%list_elem_of_fmap. specialize (Hno s' Hin).
    rewrite <- He, lookup_insert_eq in Hno. done.
  - intros s' [->|Hin]%elem_of_cons; [done|]. specialize (Hno s' Hin). apply lookup_insert_None in Hno. apply Hno.
Qed.
(** The fold over the keys, when they are different sources. *)
Lemma policies_fold (decoded : adblockSourcePolicySet) (sources : list string) (set : adblockSourcePolicySet) :
  NoDup (source_key <$> sources) → (∀ s, s ∈ sources → set !! source_key s = None) →
  let set' := foldl (λ (policies : adblockSourcePolicySet) source, <[source_key source := policy_of decoded source]> policies)
                set sources in
  (∀ s, s ∈ sources → set' !! source_key s = Some (policy_of decoded s))
  ∧ (∀ k, (∀ s, s ∈ sources → source_key s ≠ k) → set' !! k = set !! k)
  ∧ size set' = size set + length sources.
Proof.
  unfold adblockSourcePolicySet in *. cbv zeta. revert set. induction sources as [|s sources IH]; intros set Hnd Hno; cbn [foldl length].
  { split; [intros s Hs; by apply elem_of_nil in Hs|]. split; [done|lia]. }
  rewrite fmap_cons in Hnd. inversion Hnd as [|? ? Hnin Hnd']; subst.
  destruct (IH (<[source_key s := policy_of decoded s]> set) Hnd') as (Hin & Hout & Hsize).
  { intros s' Hs'. rewrite lookup_insert_ne; [apply Hno; by apply list_elem_of_further|].
    intros He. apply Hnin, list_elem_of_fmap. by exists s'. }
  assert (∀ s', s' ∈ sources → source_key s' ≠ source_key s) as Hne.
  { intros s' Hs' He. apply Hnin, list_elem_of_fmap. by exists s'. }
  split; [|split].
  - intros s' [->|Hs']%elem_of_cons; [|by apply Hin]. rewrite Hout by done. apply lookup_insert_eq.
  - intros k Hk. rewrite Hout by (intros s' Hs'; apply Hk; by apply list_elem_of_further).
    apply lookup_insert_ne, Hk, list_elem_of_here.
  - rewrite Hsize, map_size_insert_None by (apply Hno, list_elem_of_here). lia.
Qed.
Lemma checked_policies decoded sources source :
  check_policies decoded sources = None → source ∈ sources → check_policy source (policy_of decoded source) = None.
Proof.
  induction sources as [|s sources IH]; [intros _ Hs; by apply elem_of_nil in Hs|]. cbn [check_policies].
  fold (policy_of decoded s). destruct (check_policy s (policy_of decoded s)) eqn:E; [done|].
  intros Hc [->|Hs]%elem_of_cons; [done|]. by apply IH.
Qed.

(** What a policy says, as written. *)
Definition written_category (policy : adblockSourcePolicy) : string :=
  let c := ToLower (TrimSpace (PolicyCategory policy)) in if String.eqb c "" then DefaultRuleCategory else c.
Definition written_scope (mode : string) (policy : adblockSourcePolicy) : RuleScope * ScopeOrigin :=
  let s := ToLower (TrimSpace (PolicyScope policy)) in
  if String.eqb s "" then
    (if String.eqb mode adblockMatchModeExact then RuleScopeExact else RuleScopeSuffix, OriginGlobalDefault)
  else if String.eqb s adblockMatchModeExact then (RuleScopeExact, OriginSourcePolicyExact)
  else (RuleScopeSuffix, OriginSourcePolicySuffix).

(** A policy document that passes the check of the save path is in force exactly as
    written, although the runtime repairs documents silently: every source of it, in
    every spelling of its scheme and host, gets its own category and scope, nothing is
    merged, dropped or replaced by a default, and all other sources keep the defaults. *)
Theorem validated_policies_in_force raw decoded mode :
  TrimSpace raw ≠ "" → decode_policies (TrimSpace raw) = Some (Some decoded) →
  validateAdblockSourcePoliciesJSON raw = None →
  let set := parseAdblockSourcePolicies raw in
  size set = size decoded
  ∧ (∀ source policy spelled, decoded !! source = Some policy → source_key spelled = source_key source →
      resolveAdblockSourcePolicy mode (Some set) spelled
      = (written_category policy, (written_scope mode policy).1, (written_scope mode policy).2)
      ∧ IsValidRuleCategory (written_category policy) = true)
  ∧ (∀ source, (∀ s, is_Some (decoded !! s) → source_key s ≠ source_key source) →
      resolveAdblockSourcePolicy mode (Some set) source
      = (DefaultRuleCategory, if String.eqb mode adblockMatchModeExact then RuleScopeExact else RuleScopeSuffix,
         OriginGlobalDefault)).
Proof.
  intros Hne Hd. unfold validateAdblockSourcePoliciesJSON, parseAdblockSourcePolicies. cbv zeta.
  rewrite (proj2 (String.eqb_neq _ _) Hne), Hd.
  destruct (find_collision ∅ (sorted_sources decoded)) as [[? ?]|] eqn:Hcol; [done|]. intros Hcheck.
  destruct (collision_free _ _ Hcol) as [Hnd Hno].
  destruct (policies_fold decoded (sorted_sources decoded) ∅ Hnd (λ s _, lookup_empty (source_key s))) as (Hin & Hout & Hsize).
  set (set := foldl _ _ _). change (foldl _ _ _) with set in Hin, Hout, Hsize.
  split; [by rewrite Hsize, sources_length|]. split.
  - intros source policy spelled Hp Hkey.
    assert (source ∈ sorted_sources decoded) as Hel by (apply sources_elem; by eexists).
    assert (policy_of decoded source = policy) as Hpol by (unfold policy_of; by rewrite Hp).
    pose proof (checked_policies _ _ _ Hcheck Hel) as Hck. rewrite Hpol in Hck.
    pose proof (Hin source Hel) as Hlk. rewrite Hpol in Hlk.
    unfold resolveAdblockSourcePolicy. cbn [mbind option_bind]. fold (source_key spelled). rewrite Hkey, Hlk.
    revert Hck. unfold check_policy, written_category, written_scope. cbv zeta.
    destruct (String.eqb (TrimSpace source) ""); [done|].
    set (c := ToLower (TrimSpace (PolicyCategory policy))). set (s := ToLower (TrimSpace (PolicyScope policy))).
    destruct (String.eqb c "") eqn:Ec, (IsValidRuleCategory c) eqn:Ev; cbn [negb andb]; try done;
      (destruct (String.eqb_spec s "") as [->|Hs]; [done|]; cbn [negb andb];
       destruct (String.eqb s adblockMatchModeSuffix) eqn:Es, (String.eqb s adblockMatchModeExact); cbn [negb andb fst snd]; done).
  - intros source Hs. unfold resolveAdblockSourcePolicy. cbn [mbind option_bind]. fold (source_key source).
    rewrite Hout; [done|]. intros s Hel. apply Hs. by apply sources_elem.
Qed.
End Policies.

(** ** Witnesses *)

Module Examples.
#[local] Existing Instance FeedSpec.Examples.ex_feed_libs.
#[export] Instance ex_tables : UnicodeTables := ascii_tables.
#[export] Instance ex_services : HostServices := two_label_services.
(** URLs of a scheme, a host without port, and a path. *)
Definition ex_source (s : string) : option SourceURL :=
  match String.index 0 "://" s with
  | None => None
  | Some n =>
      let rest := String.substring (n + 3) (String.length s) s in
      let m := default (String.length rest) (String.index 0 "/" rest) in
      let host := String.substring 0 m rest in
      let path := String.substring m (String.length rest) rest in
      Some (mkSourceURL (String.substring 0 n s) host host "" (λ scheme host, scheme ++ "://" ++ host ++ path))
  end.
(** Documents that list sources as [source category scope], one after another. *)
Fixpoint ex_policies (parts : list string) : option adblockSourcePolicySet :=
  match parts with
  | [] => Some ∅
  | source :: category :: scope :: parts => (λ set, <[source := mkPolicy category scope]> set) <$> ex_policies parts
  | _ => None
  end.
#[export] Instance ex_policy_libs : PolicyLibs := {|
  parse_source := ex_source;
  decode_policies s := if String.eqb s "null" then Some None else Some <$> ex_policies (Split s " ")
|}.
#[export] Instance ex_meta : MetaJSON := {| encode_meta _ := Ok "{}"; decode_meta _ := ∅ |}.

Definition newline : string := String (ascii_of_N 10) "".
Definition read_all_texts : FileRead := mkRead true None.
Definition plain_source : SourceEnv :=
  mkSource (Err "no such file") (λ _, Err "unreachable") (Err "unreachable") no_errors read_all_texts read_all_texts.
Definition with_local (text : string) : SourceEnv :=
  mkSource (Ok (mkStream text None)) (λ _, Err "unreachable") (Err "unreachable") no_errors read_all_texts read_all_texts.
Definition with_body (io : SaveIO) (body : Stream) : SourceEnv :=
  mkSource (Err "no such file") (λ _, Ok (mkReply 200 (Some body) (mkMeta "tag" ""))) (Err "unreachable") io read_all_texts
    read_all_texts.
Definition ex_sync (sources : string) (env : nat → SourceEnv) : SyncEnv :=
  mkSyncEnv sources env read_all_texts no_errors (mkRead false None) no_errors 100.
Definition ex_engine : AdblockEngine :=
  mkEngine PolicySemanticsSeparated "suffix" None true false (mkShadow 0 0 0 0 0) "" false None
    (mkExcStatus true None true "" 1 0 0).
Definition ex_lists : ListEngine := mkLists ex_engine None false None false 0 0 ∅.

Definition local_text : string := "# comment" ++ newline ++ "0.0.0.0 ads.example.com # one" ++ newline ++ "bad.example.net".
Definition remote_text : string :=
  "# Start hostsVN" ++ newline ++ "127.0.0.1 localhost ads.example.com" ++ newline ++ "# End hostsVN" ++ newline
  ++ "track.example.org" ++ newline.
(** A local list, a download, and a source that cannot be reached. *)
Definition ex_env : SyncEnv :=
  ex_sync "lists/hosts.txt, https://lists.example.net/hosts,https://down.example.net/x"
    (λ i, match i with 0 => with_local local_text | 1 => with_body no_errors (mkStream remote_text None) | _ => plain_source end).
Definition ex_contributions : list (nat * string * string) :=
  [(0, "lists/hosts.txt", local_text); (1, "https://lists.example.net/hosts", remote_text)].

Lemma sync_refines_witness :
  let l' := syncAdblockLists ex_env (switches_of ex_lists) ex_lists in
  okCount l' = 2%Z ∧ lastSyncOK l' = true
  ∧ MatchRuleDetail (trie_of (engine l')) "x.ads.example.com"
    = mkMatch (mkRule "ads.example.com" RuleScopeSuffix (canonicalSourceID "lists/hosts.txt") "unknown" "block"
                 OriginGlobalDefault) "x.ads.example.com" true.
Proof.
  pose proof (sync_refines ex_env (switches_of ex_lists) ex_lists) as Hs. cbv zeta.
  assert ((sync_contributions ex_env ex_lists).1 = ex_contributions) as Hc by (vm_compute; reflexivity).
  destruct (sync_contributions ex_env ex_lists) as [cs fs]. cbn [fst] in Hc. subst cs.
  destruct Hs as (Hok & _ & Hrest); [by vm_compute|].
  rewrite bool_decide_true in Hrest by done. destruct Hrest as (Hres & _ & Hm & _).
  split; [exact Hok|]. split; [exact Hres|]. rewrite Hm. vm_compute. reflexivity.
Defined.

Definition saved_rules_of : list Rule :=
  [mkRule "ads.example.com" RuleScopeExact "src1" "ads" "block" OriginGlobalDefault;
   mkRule "*.Tracker.example.net" RuleScopeExact "src2" "tracking" "" OriginGlobalDefault].
Lemma cache_restores_matching_witness :
  let t := built saved_rules_of in
  ∃ t', loadAdblockCache (mkRead true None) (saveAdblockCache no_errors t ∅) NewTrie = (t', true)
    ∧ TrieCount t' = TrieCount t
    ∧ ∀ domain, MatchRuleDetail t' domain = reloaded_match (MatchRuleDetail t domain).
Proof.
  refine (cache_restores_matching (built saved_rules_of) saved_rules_of ∅ (proj1 (built_ok saved_rules_of)) _ _).
  - assert (rules_of (root (built saved_rules_of)) = [mkRule "ads.example.com" RuleScopeExact "src1" "ads" "block" OriginGlobalDefault;
      mkRule "tracker.example.net" RuleScopeSuffix "src2" "tracking" "block" OriginWildcard]) as -> by (vm_compute; reflexivity).
    repeat (apply List.Forall_cons;
      [split; [repeat split; first [done|by left|by right]|split_and!; vm_compute; reflexivity]|]).
    apply List.Forall_nil.
  - vm_compute. discriminate.
Defined.
(** A rule that is not stored unchanged when it is added again: with the registered name
    in Unicode behind a wildcard, the trie holds the Unicode spelling, which no lookup
    reaches; the reloaded one holds the punycode, and the lookup matches. *)
Example wildcard_returns_punycode :
  let t := @built ascii_tables idn_services [mkRule "*.bücher.de" RuleScopeSuffix "src" "ads" "block" OriginGlobalDefault] in
  let '(t', ok) := @loadAdblockCache ascii_tables idn_services (mkRead true None) (saveAdblockCache no_errors t ∅) NewTrie in
  ok = true ∧ Matched (@MatchRuleDetail ascii_tables idn_services t "bücher.de") = false
  ∧ Matched (@MatchRuleDetail ascii_tables idn_services t' "bücher.de") = true.
Proof. vm_compute. done. Qed.

Definition ex_document : string := "https://A.example.net/list Ads EXACT lists/hosts.txt tracking -".
Definition good_document : string := "HTTPS://A.example.net/list Ads EXACT lists/hosts.txt  suffix".
Definition ex_decoded : adblockSourcePolicySet := default ∅ (ex_policies (Split good_document " ")).
Lemma validated_policies_in_force_witness :
  let set := parseAdblockSourcePolicies good_document in
  size set = 2 ∧
  resolveAdblockSourcePolicy "suffix" (Some set) "https://a.EXAMPLE.net/list" = ("ads", RuleScopeExact, OriginSourcePolicyExact).
Proof.
  pose proof (validated_policies_in_force good_document ex_decoded "suffix") as Hv. cbv zeta in Hv |- *.
  destruct Hv as (Hsize & Hin & _); [done| |by vm_compute|].
  { exact eq_refl. }
  split.
  - rewrite Hsize. vm_compute. reflexivity.
  - destruct (Hin "HTTPS://A.example.net/list" (mkPolicy "Ads" "EXACT") "https://a.EXAMPLE.net/list") as [-> _]; by vm_compute.
Defined.
(** The same document with a scope that means nothing is refused by the save path, while
    the runtime would take it with the default scope. *)
Example invalid_scope_refused :
  is_Some (validateAdblockSourcePoliciesJSON ex_document)
  ∧ resolveAdblockSourcePolicy "suffix" (Some (parseAdblockSourcePolicies ex_document)) "lists/hosts.txt"
    = ("tracking", RuleScopeSuffix, OriginGlobalDefault).
Proof. split; [eexists|]; vm_compute; reflexivity. Qed.

(** Adblock switched off, a rebuild, and switched on again: the rules are gone and no
    rebuild is asked for, so nothing is blocked until the next tick. *)
Example reenabled_empty :
  let l := syncAdblockLists ex_env (switches_of ex_lists) ex_lists in
  let off := (SetAdblockEnabled (Some (Ok tt)) false l).1.1 in
  let on := (SetAdblockEnabled (Some (Ok tt)) true (rebuildAdblockRules ex_env off)).1.1 in
  Matched (MatchRuleDetail (trie_of (engine l)) "ads.example.com") = true
  ∧ adblockEnabled (engine on) = true ∧ resync on = false
  ∧ Matched (MatchRuleDetail (trie_of (engine on)) "ads.example.com") = false.
Proof. vm_compute. done. Qed.

(** A download that breaks off leaves the stored text unused, while a source that cannot
    be reached at all is served from it. *)
Definition remote : string := "https://lists.example.net/hosts".
Definition stored_files : Files := <[adblockSourceCachePath remote := remote_text]> ∅.
Example broken_download_drops_source :
  (contribution (with_body no_errors (mkStream remote_text (Some "unexpected EOF"))) no_meta remote stored_files).1 = None
  ∧ (contribution plain_source no_meta remote stored_files).1 = Some remote_text.
Proof. split; vm_compute; reflexivity. Qed.
End Examples.
