(* ===== verification/AdblockLoop.v ===== *)
(** * The loop of adblock synchronisation: switches changed while it runs

    [runAdblockSync] of [internal/risk/adblock_sync.go] beside the setters of
    [adblock_control.go] and the periodic refresh, as interleaved steps: a setter stores
    its switch and only then asks for a rebuild, and the loop reads the switches source
    by source. *)

From Stdlib Require Import ZArith Lia Ascii String.
From S2P Require Import Prelude GoStr Hostname Trie NetIP GoFloat Whitelist Groups Exceptions Feed FeedSync DomainML AdblockLists AdblockSync AdblockSyncSpec.

Section Loop.
Context `{UnicodeTables, HostServices, FeedLibs, PolicyLibs, MetaJSON}.
(** The configured sources, which a process reads from its environment. *)
Variable configured : string.

Definition Switches : Type := string * option adblockSourcePolicySet.
(** Where the loop is: before its first synchronisation, waiting, woken, or reading a
    source, with the switches read for the sources so far and the match mode already
    read for the next one. *)
Inductive LoopPhase :=
  | Starting
  | Waiting
  | Woken
  | Reading (env : SyncEnv) (used : list Switches) (half : option string).
(** [unsent] counts the setters that stored a switch and have not yet asked for the
    rebuild; [last_run] records the last rebuild: none emptied the trie. *)
Record LoopState := mkLoop {
  lists : ListEngine; phase : LoopPhase; unsent : nat; last_run : option (SyncEnv * list Switches * ListEngine)
}.
Definition current (l : ListEngine) : Switches := (adblockMatchMode (engine l), sourcePolicies l).
Definition source_count : nat := length (splitAdblockSources configured).
Definition used_switches (used : list Switches) : nat → Switches := λ i, nth i used ("", None).

(** The steps of the loop itself and of setters that finish. *)
Inductive work_step : LoopState → LoopState → Prop :=
  | w_send l p n r : work_step (mkLoop l p (S n) r) (mkLoop (RequestAdblockResync l) p n r)
  | w_skip l n r : adblockEnabled (engine l) = false → work_step (mkLoop l Starting n r) (mkLoop l Waiting n r)
  | w_first env l n r : adblockEnabled (engine l) = true → sources_raw env = configured →
      work_step (mkLoop l Starting n r) (mkLoop l (Reading env [] None) n r)
  | w_take l n r : resync l = true → work_step (mkLoop l Waiting n r) (mkLoop (set_resync false l) Woken n r)
  | w_empty l n r : adblockEnabled (engine l) = false →
      work_step (mkLoop l Woken n r) (mkLoop (on_engine (set_trie NewTrie) l) Waiting n None)
  | w_begin env l n r : adblockEnabled (engine l) = true → sources_raw env = configured →
      work_step (mkLoop l Woken n r) (mkLoop l (Reading env [] None) n r)
  | w_mode env used l n r : length used < source_count →
      work_step (mkLoop l (Reading env used None) n r)
        (mkLoop l (Reading env used (Some (adblockMatchMode (engine l)))) n r)
  | w_policies env used mode l n r :
      work_step (mkLoop l (Reading env used (Some mode)) n r)
        (mkLoop l (Reading env (used ++ [(mode, sourcePolicies l)])%list None) n r)
  | w_finish env used l n r : length used = source_count →
      work_step (mkLoop l (Reading env used None) n r)
        (mkLoop (syncAdblockLists env (used_switches used) l) Waiting n (Some (env, used, l))).
(** And what happens from outside: the tick, setters and the refresh. *)
Inductive loop_step : LoopState → LoopState → Prop :=
  | l_work s s' : work_step s s' → loop_step s s'
  | l_tick l n r : loop_step (mkLoop l Waiting n r) (mkLoop l Woken n r)
  | l_mode m l p n r : loop_step (mkLoop l p n r) (mkLoop (on_engine (set_mode m) l) p (S n) r)
  | l_policies set l p n r : loop_step (mkLoop l p n r) (mkLoop (set_policies set l) p (S n) r)
  | l_enabled b l p n r : loop_step (mkLoop l p n r) (mkLoop (on_engine (set_enabled b) l) p n r).
Definition loop_started (s : LoopState) : Prop :=
  phase s = Starting ∧ unsent s = 0 ∧ last_run s = None ∧ trie_of (engine (lists s)) = NewTrie.
(** Nothing is under way and nothing is asked for. *)
Definition settled (s : LoopState) : Prop := phase s = Waiting ∧ resync (lists s) = false ∧ unsent s = 0.
(** The steps left until then. *)
Definition work_left (s : LoopState) : nat :=
  unsent s * (2 * source_count + 6) + (if resync (lists s) then 2 * source_count + 5 else 0)
  + match phase s with
    | Waiting => 0
    | Starting | Woken => 2 * source_count + 3
    | Reading _ used None => 2 * (source_count - length used) + 1
    | Reading _ used (Some _) => 2 * (source_count - length used)
    end.

(** ** The invariant *)

Definition run_trie (r : option (SyncEnv * list Switches * ListEngine)) : Trie :=
  match r with
  | None => NewTrie
  | Some (env, used, l) => trie_of (engine (syncAdblockLists env (used_switches used) l))
  end.
Definition up_to_date (s : LoopState) : Prop :=
  match phase s with
  | Starting | Woken => True
  | Waiting =>
      match last_run s with
      | None => True
      | Some (env, used, _) =>
          sources_raw env = configured ∧ length used = source_count ∧ Forall (λ u, u = current (lists s)) used
      end
  | Reading env used half =>
      Forall (λ u, u = current (lists s)) used
      ∧ match half with Some mode => mode = adblockMatchMode (engine (lists s)) | None => True end
  end.
Definition reading_ok (s : LoopState) : Prop :=
  match phase s with
  | Reading env used half =>
      sources_raw env = configured
      ∧ match half with Some _ => length used < source_count | None => length used ≤ source_count end
  | Starting => last_run s = None
  | Waiting | Woken => True
  end.
Record loop_ok (s : LoopState) : Prop := {
  ok_trie : trie_of (engine (lists s)) = run_trie (last_run s);
  ok_reading : reading_ok s;
  ok_current : resync (lists s) = true ∨ 0 < unsent s ∨ up_to_date s
}.
Lemma sync_sources_ext meta env sw sw' i sources a :
  (∀ j, i ≤ j < i + length sources → sw j = sw' j) →
  sync_sources meta env sw i sources a = sync_sources meta env sw' i sources a.
Proof.
  revert i a. induction sources as [|s sources IH]; intros i a He; [done|]. cbn [sync_sources length] in *.
  rewrite (He i) by lia. apply IH. intros j Hj. apply He. lia.
Qed.
Lemma sync_lists_ext env sw sw' l :
  (∀ j, j < length (splitAdblockSources (sources_raw env)) → sw j = sw' j) →
  syncAdblockLists env sw l = syncAdblockLists env sw' l.
Proof.
  intros He. unfold syncAdblockLists. destruct (splitAdblockSources (sources_raw env)) as [|s ss]; [done|].
  by rewrite (sync_sources_ext _ _ sw sw') by (intros j Hj; apply He; lia).
Qed.
(** A synchronisation leaves the switches and the requests alone. *)
Lemma sync_keeps_switches env sw l :
  current (syncAdblockLists env sw l) = current l ∧ resync (syncAdblockLists env sw l) = resync l.
Proof.
  unfold syncAdblockLists. destruct (splitAdblockSources _) as [|s ss]; [done|]. unfold finish_sync.
  destruct (0 <? successCount _)%Z; [done|]. destruct (TrieCount _ =? 0)%Z; [|done].
  by destruct (loadAdblockCache _ _ _) as [t [|]].
Qed.
Lemma work_keeps s s' : work_step s s' → current (lists s') = current (lists s).
Proof. destruct 1; try done. apply sync_keeps_switches. Qed.
Lemma started_ok s : loop_started s → loop_ok s.
Proof.
  destruct s as [l p n r]. intros (Hp & Hn & Hr & Ht). cbn in *. subst. split; [done|done|]. by do 2 right.
Qed.
(** Any change of the engine that keeps the trie, when it asks for a rebuild. *)
Lemma asked_ok s l n :
  loop_ok s → trie_of (engine l) = trie_of (engine (lists s)) → resync l = true ∨ 0 < n →
  loop_ok (mkLoop l (phase s) n (last_run s)).
Proof. intros [Ht Hr Hc] He Ha. split; [by cbn; rewrite He|done|]. cbn. tauto. Qed.
(** A step that leaves requests and switches alone, when what it reaches is current. *)
Lemma moved_ok l p n r l' p' r' :
  loop_ok (mkLoop l p n r) → trie_of (engine l') = run_trie r' → reading_ok (mkLoop l' p' n r') →
  (resync l = true → resync l' = true) → (up_to_date (mkLoop l p n r) → up_to_date (mkLoop l' p' n r')) →
  loop_ok (mkLoop l' p' n r').
Proof. intros [_ _ Hc] Ht Hr Hs Hu. split; [done|done|]. cbn in *. tauto. Qed.
Lemma work_ok s s' : loop_ok s → work_step s s' → loop_ok s'.
Proof.
  intros Hok Hstep. destruct Hok as [Ht Hr Hc] eqn:E. clear E. destruct Hstep; unfold reading_ok in Hr; cbn in Hr, Ht.
  - apply (asked_ok _ (RequestAdblockResync l) n Hok); [done|by left].
  - eapply moved_ok; [exact Hok|done|done|done|]. unfold up_to_date. cbn. by rewrite Hr.
  - eapply moved_ok; [exact Hok|done| |done|by repeat constructor]. unfold reading_ok. cbn. split; [done|lia].
  - split; [done|done|by do 2 right].
  - eapply moved_ok; [exact Hok|done|done|done|done].
  - eapply moved_ok; [exact Hok|done| |done|by repeat constructor]. unfold reading_ok. cbn. split; [done|lia].
  - eapply moved_ok; [exact Hok|done| |done|]; unfold reading_ok, up_to_date; cbn; naive_solver.
  - eapply moved_ok; [exact Hok|done| |done|]; unfold reading_ok, up_to_date; cbn.
    + rewrite length_app. cbn. split; [naive_solver|lia].
    + intros [Hu ->]. split; [|done]. apply Forall_app. split; [done|]. by repeat constructor.
  - destruct (sync_keeps_switches env (used_switches used) l) as [Hcur Hres].
    eapply moved_ok; [exact Hok|done|done|by rewrite Hres|]. unfold up_to_date. cbn. rewrite Hcur. naive_solver.
Qed.
Lemma loop_step_ok s s' : loop_ok s → loop_step s s' → loop_ok s'.
Proof.
  intros Hok Hs. destruct Hs as [? ? Hw|l n r|m l p n r|set l p n r|b l p n r]; [by apply (work_ok _ _ Hok)| | | |].
  - split; [by apply Hok|done|by do 2 right].
  - apply (asked_ok _ (on_engine (set_mode m) l) (S n) Hok); [done|right; lia].
  - apply (asked_ok _ (set_policies set l) (S n) Hok); [done|right; lia].
  - eapply moved_ok; [exact Hok|by apply Hok|by apply Hok|done|done].
Qed.
Lemma reachable_ok s0 s : loop_started s0 → rtc loop_step s0 s → loop_ok s.
Proof. intros Hs0 Hrun. apply started_ok in Hs0. induction Hrun; [done|]. eauto using loop_step_ok. Qed.
(** A rebuild whose sources were all read under the switches in force. *)
Lemma current_run env used l l' :
  sources_raw env = configured → length used = source_count → Forall (λ u, u = current l') used →
  syncAdblockLists env (used_switches used) l = syncAdblockLists env (switches_of l') l.
Proof.
  intros Hs Hlen Hall. apply sync_lists_ext. intros j Hj. rewrite Hs in Hj. fold source_count in Hj. unfold used_switches, switches_of.
  rewrite Forall_forall in Hall. rewrite (Hall (nth j used ("", None))); [done|].
  apply list_elem_of_In, nth_In. lia.
Qed.

(** C15: a changed switch reaches the rules.  However setters, the refresh, ticks and the
    loop interleave, whenever no rebuild is asked for or under way the rules in force are
    what the last rebuild made under the switches now stored, even if a switch changed
    between two sources of a running one: the rules its sources contributed, each built
    under these switches; or, when no source contributed, the rules there were before it
    or, if there were none, those of the cache of all rules, which keep the switches they
    were built under; or no rules, when adblock was disabled at the last rebuild or since
    the start (enabling it asks for no rebuild).  Until then some step is possible, every
    step of the loop or of a finishing setter brings that state nearer, and none changes
    a switch. *)
Theorem switches_reach_rules s0 s :
  loop_started s0 → rtc loop_step s0 s →
  (settled s →
     trie_of (engine (lists s))
     = match last_run s with
       | None => NewTrie
       | Some (env, _, l0) => trie_of (engine (syncAdblockLists env (switches_of (lists s)) l0))
       end
     ∧ match last_run s with
       | None => TrieCount (trie_of (engine (lists s))) = 0%Z
       | Some (env, _, l0) => published env (switches_of (lists s)) l0 (trie_of (engine (lists s)))
       end)
  ∧ ((∃ env, sources_raw env = configured) → ¬ settled s → ∃ s', work_step s s')
  ∧ ∀ s', work_step s s' → work_left s' < work_left s ∧ current (lists s') = current (lists s).
Proof.
  intros Hs0 Hrun. destruct (reachable_ok s0 s Hs0 Hrun) as [Ht Hr Hc]. split; [|split].
  - intros (Hp & Hres & Hn). rewrite Ht. unfold up_to_date in Hc. rewrite Hp, Hres, Hn in Hc.
    destruct (last_run s) as [[[env used] l0]|]; [|done]. cbn [run_trie].
    destruct Hc as [|[|(Hs & Hlen & Hall)]]; [done|lia|]. rewrite (current_run _ _ _ (lists s)) by done.
    split; [done|apply sync_published].
  - intros [env Henv] Hns. destruct s as [l p [|n] r]; [|eexists; constructor].
    destruct p as [| | |env' used [mode|]].
    + destruct (adblockEnabled (engine l)) eqn:E; eexists; [by apply (w_first env)|by apply w_skip].
    + destruct (resync l) eqn:E; [eexists; by apply w_take|]. by destruct Hns.
    + destruct (adblockEnabled (engine l)) eqn:E; eexists; [by apply (w_begin env)|by apply w_empty].
    + eexists. apply w_policies.
    + unfold reading_ok in Hr. cbn in Hr. destruct (decide (length used = source_count)); eexists;
        [by apply w_finish|apply w_mode; lia].
  - intros s' Hw. split; [|by apply work_keeps]. unfold reading_ok in Hr.
    destruct Hw; unfold work_left; cbn in *; rewrite ?length_app; cbn; try (rewrite (proj2 (sync_keeps_switches _ _ _))); destruct (resync l); lia || done.
Qed.
End Loop.

(** ** Witness *)

(** The match mode changes after the only source was read for it: the first run publishes
    the old scope, and the request that follows replaces it. *)
Module Examples.
Import AdblockSyncSpec.Examples.
#[local] Existing Instance FeedSpec.Examples.ex_feed_libs.
Definition one_source : string := "lists/hosts.txt".
Definition one_env : SyncEnv := ex_sync one_source (λ _, with_local "ads.example.com").
Definition begun : LoopState := mkLoop ex_lists Starting 0 None.
Definition changed : ListEngine := on_engine (set_mode "exact") ex_lists.
Definition old_used : list Switches := [("suffix", None)].
Definition new_used : list Switches := [("exact", None)].
Definition after_first : ListEngine := syncAdblockLists one_env (used_switches old_used) changed.
Definition asked : ListEngine := set_resync false (RequestAdblockResync after_first).
Definition after_second : ListEngine := syncAdblockLists one_env (used_switches new_used) asked.
Definition ended : LoopState := mkLoop after_second Waiting 0 (Some (one_env, new_used, asked)).
Ltac do_step rule := eapply rtc_l; [apply l_work, rule; vm_compute; first [done|lia]|].
Lemma switches_reach_rules_witness :
  settled ended
  ∧ Matched (MatchRuleDetail (trie_of (engine after_first)) "x.ads.example.com") = true
  ∧ trie_of (engine after_second) = trie_of (engine (syncAdblockLists one_env (switches_of after_second) asked))
  ∧ Matched (MatchRuleDetail (trie_of (engine after_second)) "x.ads.example.com") = false.
Proof.
  assert (settled ended) as Hs by (vm_compute; done).
  assert (rtc (loop_step one_source) begun ended) as Hrun.
  { do_step (w_first one_source one_env ex_lists 0 None). do_step (w_mode one_source one_env []).
    do_step (w_policies one_source one_env []). eapply rtc_l; [apply (l_mode one_source "exact")|].
    do_step (w_finish one_source one_env old_used changed 1 None). do_step (w_send one_source after_first Waiting 0).
    do_step (w_take one_source (RequestAdblockResync after_first) 0).
    do_step (w_begin one_source one_env asked 0). do_step (w_mode one_source one_env [] asked 0).
    do_step (w_policies one_source one_env [] "exact" asked 0).
    apply rtc_once, l_work. apply (w_finish one_source one_env new_used asked 0). done. }
  split; [done|]. split; [vm_compute; reflexivity|]. split; [|vm_compute; reflexivity].
  by apply (switches_reach_rules one_source begun ended).
Defined.
End Examples.
