(* ===== verification/Upstream.v ===== *)
(** * The upstream resolvers: [internal/dns/doh/upstream.go] and [client.go]

    The pool of endpoints with its order and marks, and one exchange with an endpoint
    over the guarded client of [NetGuard].  The replies of resolvers and servers, the
    elapsed times and the marks of other goroutines are inputs. *)

From Stdlib Require Import ZArith Lia Ascii String.
From S2P Require Import Prelude GoStr NetIP NetGuard.

Definition ContentTypeDNSMessage : string := "application/dns-message".
Definition MaxDNSMessageSize : Z := 65535.
Definition zlen (s : string) : Z := Z.of_nat (slen s).
Definition defaultUpstreamURL : string := "https://cloudflare-dns.com/dns-query".

(** [url.Parse] for the guard, and the media type [mime.ParseMediaType] returns without
    an error. *)
Class WebLibs := { parse_out_url : string → result OutURL; media_type : string → option string }.

(** ** One exchange *)

Record HTTPReply := mkHTTPReply {
  StatusCode : Z; ContentTypeHeader : string; BodyBytes : string; BodyError : option string
}.
(** The resolver's reply at validation, the error of building the request, the request
    with its redirects, and the last server's reply. *)
Record ExchangeEnv := mkExchange {
  resolved : string → result (list IP); request_error : option string; hops : list Hop; reply : result HTTPReply
}.
(** A guarded client and the proxy its transport kept. *)
Record Client := mkHTTPClient { client_proxy : option string }.

Section Exchange.
Context `{UnicodeTables, WebLibs}.

Definition connections (env : ExchangeEnv) (client : Client) : list (Hop * string) :=
  follow KindCheckRedirect false (client_proxy client) 0 (hops env).
(** [guarded.Do]: the reply arrives when every hop was allowed. *)
Definition do_request (env : ExchangeEnv) (client : Client) : result HTTPReply :=
  if Nat.eqb (length (connections env client)) (length (hops env)) then reply env else Err "blocked address or redirect".
(** [io.ReadAll] over a limit of one byte more than a message may have. *)
Definition read_limited (r : HTTPReply) : result string :=
  if (zlen (BodyBytes r) <? MaxDNSMessageSize + 1)%Z then
    match BodyError r with Some e => Err e | None => Ok (BodyBytes r) end
  else Ok (String.substring 0 (Z.to_nat (MaxDNSMessageSize + 1)) (BodyBytes r)).
Definition read_reply (r : HTTPReply) : result string :=
  if (StatusCode r <? 200)%Z || (300 <=? StatusCode r)%Z then Err ("upstream returned HTTP " ++ dec_string (StatusCode r))
  else if negb (bool_decide (media_type (ContentTypeHeader r) = Some ContentTypeDNSMessage))
  then Err ("upstream returned unexpected Content-Type " ++ ContentTypeHeader r)
  else match read_limited r with
  | Err e => Err e
  | Ok response =>
      if String.eqb response "" then Err "upstream returned an empty DNS message"
      else if (MaxDNSMessageSize <? zlen response)%Z then Err "upstream DNS message exceeds 65535 bytes"
      else Ok response
  end.
Definition Exchange (env : ExchangeEnv) (client : option Client) (upstreamURL : string) : result string :=
  match ValidateURL parse_out_url upstreamURL false with
  | Err e => Err ("blocked upstream DoH URL: " ++ e)
  | Ok parsed =>
      match ResolveAllowedIPs (resolved env) (UHostname parsed) false with
      | Err e => Err ("blocked upstream DoH host: " ++ e)
      | Ok _ =>
          match client with
          | None => Err "nil upstream client would bypass the guarded dial path"
          | Some client =>
              match request_error env with
              | Some e => Err e
              | None => match do_request env client with Err e => Err e | Ok r => read_reply r end
              end
          end
      end
  end.
End Exchange.

(** ** The pool *)

(** [latency] is in nanoseconds. *)
Record UpstreamEndpoint := mkEndpoint {
  URL : string; Healthy : bool; LatencyMS : Z; Failures : Z; LastError : string; latency : Z
}.
Record UpstreamResolver := mkPool { endpoints : list UpstreamEndpoint; client : option Client }.

Section Pool.
Context `{UnicodeTables, WebLibs}.

Fixpoint first_urls (seen : gset string) (parts : list string) : list string :=
  match parts with
  | [] => []
  | part :: parts =>
      let value := TrimSpace part in
      if String.eqb value "" then first_urls seen parts
      else if bool_decide (value ∈ seen) then first_urls seen parts
      else value :: first_urls ({[value]} ∪ seen) parts
  end.
Definition parseUpstreamURLs (raw : string) : list string := first_urls ∅ (Split raw ",").
Definition NewUpstreamResolver (raw : string) (client : option Client) : UpstreamResolver :=
  let urls := match parseUpstreamURLs raw with [] => [defaultUpstreamURL] | urls => urls end in
  mkPool ((λ u, mkEndpoint u true 0 0 "" 0) <$> urls) client.

(** [sort.SliceStable] *)
Fixpoint insert_stable {A} (less : A → A → bool) (x : A) (l : list A) : list A :=
  match l with
  | [] => [x]
  | y :: l' => if less y x then y :: insert_stable less x l' else x :: l
  end.
Definition slice_stable {A} (less : A → A → bool) (l : list A) : list A := foldr (insert_stable less) [] l.
Definition endpoint_less (a b : UpstreamEndpoint) : bool :=
  if negb (Bool.eqb (Healthy a) (Healthy b)) then Healthy a
  else if (latency a =? 0)%Z then false
  else if (latency b =? 0)%Z then true
  else (latency a <? latency b)%Z.
Definition orderedEndpoints (u : UpstreamResolver) : list UpstreamEndpoint := slice_stable endpoint_less (endpoints u).
(** The part of [Status] that [PrimaryURL] reads, and the latencies it shows. *)
Definition Status (u : UpstreamResolver) : string * list UpstreamEndpoint :=
  let es := orderedEndpoints u in
  (match es with e :: _ => URL e | [] => "" end,
   (λ e, mkEndpoint (URL e) (Healthy e) (Z.quot (latency e) 1000000) (Failures e) (LastError e) (latency e)) <$> es).
Definition PrimaryURL (u : UpstreamResolver) : string :=
  let active := (Status u).1 in if String.eqb active "" then defaultUpstreamURL else active.

(** The first endpoint with the address. *)
Fixpoint update_first (f : UpstreamEndpoint → UpstreamEndpoint) (url : string) (es : list UpstreamEndpoint)
    : list UpstreamEndpoint :=
  match es with
  | [] => []
  | e :: es => if String.eqb (URL e) url then f e :: es else e :: update_first f url es
  end.
Definition markSuccess (url : string) (elapsed : Z) (u : UpstreamResolver) : UpstreamResolver :=
  mkPool (update_first (λ e, mkEndpoint (URL e) true (Z.quot elapsed 1000000) 0 "" elapsed) url (endpoints u)) (client u).
Definition markFailure (url : string) (err : string) (u : UpstreamResolver) : UpstreamResolver :=
  mkPool (update_first (λ e, mkEndpoint (URL e) false (LatencyMS e) (Failures e + 1) err (latency e)) url (endpoints u))
    (client u).

(** What other goroutines do to the pool. *)
Inductive Mark := MSuccess (url : string) (elapsed : Z) | MFailure (url err : string).
Definition apply_mark (u : UpstreamResolver) (m : Mark) : UpstreamResolver :=
  match m with MSuccess url d => markSuccess url d u | MFailure url e => markFailure url e u end.
(** One attempt: the marks of others before its own, the exchange, the elapsed time. *)
Record Attempt := mkAttempt { others : list Mark; exchange_env : ExchangeEnv; elapsed : Z }.

(** The loop over the snapshot; [lastErr] as the source keeps it. *)
Fixpoint forward_loop (env : nat → Attempt) (i : nat) (lastErr : option string) (snapshot : list UpstreamEndpoint)
    (u : UpstreamResolver) : UpstreamResolver * result (string * string) :=
  match snapshot with
  | [] => (u, Err (default "no upstream DoH resolvers configured" lastErr))
  | endpoint :: snapshot =>
      let u := foldl apply_mark u (others (env i)) in
      match Exchange (exchange_env (env i)) (client u) (URL endpoint) with
      | Ok response => (markSuccess (URL endpoint) (elapsed (env i)) u, Ok (response, URL endpoint))
      | Err e => forward_loop env (S i) (Some e) snapshot (markFailure (URL endpoint) e u)
      end
  end.
Definition Forward (env : nat → Attempt) (u : UpstreamResolver) : UpstreamResolver * result (string * string) :=
  forward_loop env 0 None (orderedEndpoints u) u.
Definition ForwardDoH (env : nat → Attempt) (u : UpstreamResolver) : UpstreamResolver * result string :=
  match Forward env u with (u, Ok (response, _)) => (u, Ok response) | (u, Err e) => (u, Err e) end.

Fixpoint probe_loop (env : nat → Attempt) (i : nat) (snapshot : list UpstreamEndpoint) (u : UpstreamResolver)
    : UpstreamResolver :=
  match snapshot with
  | [] => u
  | endpoint :: snapshot =>
      let u := foldl apply_mark u (others (env i)) in
      probe_loop env (S i) snapshot
        (match Exchange (exchange_env (env i)) (client u) (URL endpoint) with
         | Ok _ => markSuccess (URL endpoint) (elapsed (env i)) u
         | Err e => markFailure (URL endpoint) e u
         end)
  end.
(** [packed]: whether the probe message could be packed *)
Definition probeAll (packed : bool) (env : nat → Attempt) (u : UpstreamResolver) : UpstreamResolver :=
  if packed then probe_loop env 0 (orderedEndpoints u) u else u.
End Pool.
