(* ===== verification/UpstreamSpec.v ===== *)
(** * Theorems about the upstream pool *)

From Stdlib Require Import ZArith Lia Ascii String.
From stdpp Require Import sorting.
From S2P Require Import Prelude GoStr NetIP NetGuard NetGuardSpec Upstream.

(** ** Stable sorting *)

Section Stable.
Context {A R : Type} (less : A → A → bool) (rank : A → R) (lt : R → R → Prop).
Hypothesis less_rank : ∀ a b, less a b = true ↔ lt (rank a) (rank b).
Hypothesis lt_irrefl : ∀ r, ¬ lt r r.
Hypothesis lt_trans : ∀ r s t, lt r s → lt s t → lt r t.
(** Not being less is transitive: incomparable ranks are alike. *)
Hypothesis ge_trans : ∀ r s t, ¬ lt s r → ¬ lt t s → ¬ lt t r.

Definition not_after (a b : A) : Prop := less b a = false.
Lemma not_after_rank a b : not_after a b ↔ ¬ lt (rank b) (rank a).
Proof. unfold not_after. rewrite <- less_rank. by destruct (less b a). Qed.
Lemma insert_stable_perm x l : insert_stable less x l ≡ₚ x :: l.
Proof.
  induction l as [|y l IH]; [done|]. cbn. destruct (less y x); [|done]. rewrite IH. apply Permutation_swap.
Qed.
Lemma insert_stable_sorted x l :
  StronglySorted not_after l → StronglySorted not_after (insert_stable less x l).
Proof.
  induction 1 as [|y l Hl IH Hy]; [by repeat constructor|]. cbn. destruct (less y x) eqn:E.
  - constructor; [done|]. rewrite insert_stable_perm. constructor; [|done].
    apply not_after_rank. intros Hxy. apply less_rank in E. by apply (lt_irrefl (rank x)), (lt_trans _ (rank y)).
  - constructor; [by constructor|]. constructor; [done|]. eapply Forall_impl; [exact Hy|]. intros z Hz.
    apply not_after_rank. apply not_after_rank in Hz. apply ge_trans with (rank y); [|done]. by apply not_after_rank.
Qed.
Lemma insert_stable_class `{!EqDecision R} r x l :
  filter (λ a, rank a = r) (insert_stable less x l) = filter (λ a, rank a = r) (x :: l).
Proof.
  induction l as [|y l IH]; [done|]. cbn [insert_stable]. destruct (less y x) eqn:E; [|done].
  apply less_rank in E. destruct (decide (rank y = r)) as [Hy|Hy].
  - assert (rank x ≠ r) as Hx by (intros Hx; rewrite Hy, Hx in E; by apply lt_irrefl in E).
    rewrite (filter_cons_False _ x) by done. rewrite filter_cons_True, IH, filter_cons_False, filter_cons_True by done. done.
  - rewrite (filter_cons_False _ y), IH by done. destruct (decide (rank x = r)).
    + rewrite !filter_cons_True, filter_cons_False by done. done.
    + by rewrite !filter_cons_False.
Qed.
Lemma slice_stable_spec `{!EqDecision R} l :
  slice_stable less l ≡ₚ l ∧ StronglySorted not_after (slice_stable less l)
  ∧ ∀ r, filter (λ a, rank a = r) (slice_stable less l) = filter (λ a, rank a = r) l.
Proof.
  unfold slice_stable. induction l as [|x l (IHp & IHs & IHf)]; [by repeat constructor|]. cbn [foldr].
  split; [by rewrite insert_stable_perm, IHp|]. split; [by apply insert_stable_sorted|].
  intros r. rewrite insert_stable_class. destruct (decide (rank x = r)).
  - rewrite !filter_cons_True by done. by rewrite IHf.
  - rewrite !filter_cons_False by done. apply IHf.
Qed.
End Stable.

(** ** The order of the endpoints *)

(** Healthy first, then those measured by their latency, the unmeasured last. *)
Definition endpoint_rank (e : UpstreamEndpoint) : bool * Z := (Healthy e, latency e).
Definition rank_lt (r s : bool * Z) : Prop :=
  (r.1 = true ∧ s.1 = false) ∨ (r.1 = s.1 ∧ r.2 ≠ 0%Z ∧ (s.2 = 0%Z ∨ (r.2 < s.2)%Z)).
Lemma endpoint_less_rank a b : endpoint_less a b = true ↔ rank_lt (endpoint_rank a) (endpoint_rank b).
Proof.
  unfold endpoint_less, rank_lt, endpoint_rank. cbn [fst snd].
  destruct (Healthy a), (Healthy b); cbn [Bool.eqb negb];
    destruct (Z.eqb_spec (latency a) 0), (Z.eqb_spec (latency b) 0), (Z.ltb_spec (latency a) (latency b)); naive_solver lia.
Qed.
Definition order_spec (u : UpstreamResolver) (order : list UpstreamEndpoint) : Prop :=
  order ≡ₚ endpoints u
  ∧ StronglySorted (λ a b, ¬ rank_lt (endpoint_rank b) (endpoint_rank a)) order
  ∧ ∀ r, filter (λ e, endpoint_rank e = r) order = filter (λ e, endpoint_rank e = r) (endpoints u).
Lemma ordered_spec u : order_spec u (orderedEndpoints u).
Proof.
  assert (∀ r, ¬ rank_lt r r) as Hirr by (unfold rank_lt; intros [[] z]; cbn; naive_solver lia).
  assert (∀ r s t, rank_lt r s → rank_lt s t → rank_lt r t) as Htr.
  { unfold rank_lt. intros [[] ?] [[] ?] [[] ?]; cbn; naive_solver lia. }
  assert (∀ r s t, ¬ rank_lt s r → ¬ rank_lt t s → ¬ rank_lt t r) as Hge.
  { unfold rank_lt. intros [[] x] [[] y] [[] z]; cbn; intros ? ? ?; destruct (decide (y = 0%Z)); naive_solver lia. }
  destruct (slice_stable_spec endpoint_less endpoint_rank rank_lt endpoint_less_rank Hirr Htr Hge (endpoints u))
    as (Hp & Hs & Hf).
  split; [done|]. split; [|done]. unfold orderedEndpoints. clear -Hs. induction Hs as [|a l _ IH Ha]; constructor; [done|].
  eapply Forall_impl; [exact Ha|]. intros b Hab. by apply (not_after_rank _ _ _ endpoint_less_rank).
Qed.

(** ** Exchanges *)

Section Forwarding.
Context `{UnicodeTables, WebLibs}.

(** What an answer of an exchange without a proxy can be. *)
Definition fetched_publicly (env : ExchangeEnv) (client : Client) : Prop :=
  length (connections env client) = length (hops env) ∧ ∀ h a, (h, a) ∈ connections env client → public a.
Lemma read_reply_bounds r response : read_reply r = Ok response → (0 < zlen response <= MaxDNSMessageSize)%Z.
Proof.
  unfold read_reply. destruct (_ || _); [done|]. destruct (negb _); [done|]. destruct (read_limited r) as [s|]; [|done].
  destruct (String.eqb_spec s ""); [done|]. destruct (Z.ltb_spec MaxDNSMessageSize (zlen s)); [done|]. intros [= <-].
  split; [|done]. unfold zlen. destruct s; [done|cbn; lia].
Qed.
Lemma exchange_ok env client url response :
  Exchange env client url = Ok response →
  (0 < zlen response <= MaxDNSMessageSize)%Z
  ∧ ∃ c, client = Some c ∧ (client_proxy c = None → fetched_publicly env c).
Proof.
  unfold Exchange. destruct (ValidateURL _ _ _) as [parsed|]; [|done]. destruct (ResolveAllowedIPs _ _ _); [|done].
  destruct client as [c|]; [|done]. destruct (request_error env); [done|]. unfold do_request.
  destruct (Nat.eqb_spec (length (connections env c)) (length (hops env))) as [Hl|]; [|done].
  destruct (reply env) as [r|]; [|done]. intros Hr. split; [by apply (read_reply_bounds r)|]. exists c. split; [done|].
  intros Hp. split; [done|]. unfold connections. rewrite Hp. by destruct (follow_spec KindCheckRedirect 0 (hops env)).
Qed.

(** ** Marks *)

Lemma update_first_urls f url es : (∀ e, URL (f e) = URL e) → URL <$> update_first f url es = URL <$> es.
Proof.
  intros Hf. induction es as [|e es IH]; [done|]. cbn [update_first]. destruct (String.eqb _ _); rewrite !fmap_cons, ?Hf; congruence.
Qed.
Lemma apply_mark_urls u m : URL <$> endpoints (apply_mark u m) = URL <$> endpoints u ∧ client (apply_mark u m) = client u.
Proof. destruct m; split; try done; by apply update_first_urls. Qed.
Lemma marks_urls ms u :
  URL <$> endpoints (foldl apply_mark u ms) = URL <$> endpoints u ∧ client (foldl apply_mark u ms) = client u.
Proof.
  revert u. induction ms as [|m ms IH]; intros u; [done|]. cbn [foldl]. destruct (IH (apply_mark u m)) as [-> ->].
  apply apply_mark_urls.
Qed.
(** Health and failures agree, and the shown latency is the measured one. *)
Definition endpoint_ok (e : UpstreamEndpoint) : Prop :=
  Healthy e = (Failures e =? 0)%Z ∧ (0 <= Failures e)%Z ∧ LatencyMS e = Z.quot (latency e) 1000000
  ∧ (Healthy e = true → LastError e = "").
Lemma update_first_ok f url es :
  (∀ e, endpoint_ok e → endpoint_ok (f e)) → Forall endpoint_ok es → Forall endpoint_ok (update_first f url es).
Proof.
  intros Hf. induction 1 as [|e es He Hes IH]; [done|]. cbn [update_first]. destruct (String.eqb _ _); constructor; auto.
Qed.
Lemma apply_mark_ok u m : Forall endpoint_ok (endpoints u) → Forall endpoint_ok (endpoints (apply_mark u m)).
Proof.
  destruct m; apply update_first_ok; intros e (Hh & Hf & Hl & He); unfold endpoint_ok; cbn; [done|].
  split; [|split; [lia|done]]. symmetry. apply Z.eqb_neq. lia.
Qed.
Lemma marks_ok ms u : Forall endpoint_ok (endpoints u) → Forall endpoint_ok (endpoints (foldl apply_mark u ms)).
Proof. revert u. induction ms; intros u Hu; [done|]. cbn. auto using apply_mark_ok. Qed.

(** ** Forwarding *)

Definition attempt (env : nat → Attempt) (u : UpstreamResolver) (i : nat) (e : UpstreamEndpoint) : result string :=
  Exchange (exchange_env (env i)) (client u) (URL e).
Lemma forward_loop_spec env snapshot i lastErr u :
  let '(u', r) := forward_loop env i lastErr snapshot u in
  (∃ ms, u' = foldl apply_mark u ms) ∧
  match r with
  | Ok (response, url) =>
      ∃ k e, snapshot !! k = Some e ∧ url = URL e ∧ attempt env u (i + k) e = Ok response
        ∧ ∀ j e', j < k → snapshot !! j = Some e' → is_ok (attempt env u (i + j) e') = false
  | Err err =>
      (∀ j e', snapshot !! j = Some e' → is_ok (attempt env u (i + j) e') = false)
      ∧ match last snapshot with
        | Some e => attempt env u (i + length snapshot - 1) e = Err err
        | None => err = default "no upstream DoH resolvers configured" lastErr
        end
  end.
Proof.
  revert i lastErr u. induction snapshot as [|e snapshot IH]; intros i lastErr u; cbn [forward_loop].
  { split; [by exists []|done]. }
  set (u1 := foldl apply_mark u (others (env i))). destruct (marks_urls (others (env i)) u) as [_ Hcl]. fold u1 in Hcl.
  assert (Exchange (exchange_env (env i)) (client u1) (URL e) = attempt env u i e) as -> by (unfold attempt; by rewrite Hcl).
  destruct (attempt env u i e) as [response|err] eqn:Ha.
  - split; [exists (others (env i) ++ [MSuccess (URL e) (elapsed (env i))])%list; by rewrite foldl_app|].
    exists 0, e. rewrite Nat.add_0_r. split; [done|]. split; [done|]. split; [done|]. intros; lia.
  - specialize (IH (S i) (Some err) (markFailure (URL e) err u1)).
    destruct (forward_loop _ _ _ _ _) as [u' r]. destruct IH as [[ms ->] IH]. split.
    { exists (others (env i) ++ MFailure (URL e) err :: ms)%list. by rewrite foldl_app. }
    assert (∀ j e', attempt env (markFailure (URL e) err u1) (S i + j) e' = attempt env u (i + S j) e') as Hat.
    { intros j e'. unfold attempt. cbn [markFailure client]. rewrite Hcl. by rewrite Nat.add_succ_r. }
    assert (∀ j e', snapshot !! j = Some e' → is_ok (attempt env (markFailure (URL e) err u1) (S i + j) e') = false →
              is_ok (attempt env u (i + S j) e') = false) as Hmove by (intros j e' _; by rewrite Hat).
    destruct r as [[response url]|err'].
    + destruct IH as (k & e1 & Hk & -> & Hok & Hbefore). exists (S k), e1. rewrite <- Hat. split; [done|]. split; [done|].
      split; [done|]. intros [|j] e' Hj Hlk; [cbn in Hlk; injection Hlk as <-; rewrite Nat.add_0_r; by rewrite Ha|].
      apply Hmove; [done|]. apply (Hbefore j); [lia|done].
    + destruct IH as [Hall Hlast]. split.
      * intros [|j] e' Hlk; [cbn in Hlk; injection Hlk as <-; rewrite Nat.add_0_r; by rewrite Ha|].
        apply Hmove; [done|]. by apply Hall.
      * rewrite last_cons. destruct (last snapshot) as [el|] eqn:El.
        -- rewrite <- Hlast. unfold attempt. cbn [markFailure client]. rewrite Hcl.
           replace (i + length (e :: snapshot) - 1) with (S i + length snapshot - 1) by (cbn; lia). done.
        -- subst err'. apply last_None in El as ->. cbn. replace (i + 1 - 1) with i by lia. by rewrite Ha.
Qed.

(** [Forward] answers exactly when some endpoint does.  It asks the endpoints in the
    stable order healthy before failed, then by measured latency, each once; it returns
    the answer of the first that gives one, or the error of the last.  An answer is a
    non-empty message within the size limit and, when the client keeps no proxy, came
    over checked public addresses only, redirects included.  What other goroutines do to
    the pool meanwhile has no influence. *)
Theorem forward_exact env u :
  let order := orderedEndpoints u in
  order_spec u order ∧
  match (Forward env u).2 with
  | Ok (response, url) =>
      (0 < zlen response <= MaxDNSMessageSize)%Z
      ∧ ∃ k e c, order !! k = Some e ∧ url = URL e ∧ attempt env u k e = Ok response
        ∧ (∀ j e', j < k → order !! j = Some e' → is_ok (attempt env u j e') = false)
        ∧ client u = Some c ∧ (client_proxy c = None → fetched_publicly (exchange_env (env k)) c)
  | Err err =>
      (∀ j e', order !! j = Some e' → is_ok (attempt env u j e') = false)
      ∧ match last order with
        | Some e => attempt env u (length order - 1) e = Err err
        | None => err = "no upstream DoH resolvers configured"
        end
  end.
Proof.
  cbv zeta. split; [apply ordered_spec|]. unfold Forward.
  pose proof (forward_loop_spec env (orderedEndpoints u) 0 None u) as Hf.
  destruct (forward_loop _ _ _ _ _) as [u' [[response url]|err]]; destruct Hf as [_ Hf]; [|done].
  destruct Hf as (k & e & Hk & -> & Ha & Hb). cbn [snd]. destruct (exchange_ok _ _ _ _ Ha) as (Hlen & c & Hc & Hp).
  split; [done|]. exists k, e, c. by split_and!.
Qed.

(** ** Probing *)

Definition health_of (url : string) (u : UpstreamResolver) : option bool :=
  Healthy <$> List.find (λ e, String.eqb (URL e) url) (endpoints u).
Lemma find_update_first f url url' es :
  (∀ e, URL (f e) = URL e) →
  List.find (λ e, String.eqb (URL e) url') (update_first f url es)
  = if String.eqb url url' then f <$> List.find (λ e, String.eqb (URL e) url) es
    else List.find (λ e, String.eqb (URL e) url') es.
Proof.
  intros Hf. induction es as [|e es IH]; cbn [update_first List.find]; [by destruct (String.eqb _ _)|].
  destruct (String.eqb_spec (URL e) url) as [<-|Hne]; cbn [List.find].
  - rewrite Hf. by destruct (String.eqb (URL e) url').
  - destruct (String.eqb_spec (URL e) url') as [<-|Hne']; [|done]. by destruct (String.eqb_spec url (URL e)) as [->|].
Qed.
Lemma health_update f url url' b u :
  (∀ e, URL (f e) = URL e) → (∀ e, Healthy (f e) = b) →
  health_of url' (mkPool (update_first f url (endpoints u)) (client u))
  = if String.eqb url url' then (λ _, b) <$> health_of url u else health_of url' u.
Proof.
  intros Hu Hb. unfold health_of. cbn [endpoints]. rewrite find_update_first by done. destruct (String.eqb url url'); [|done].
  destruct (List.find _ _); [|done]. cbn. by rewrite Hb.
Qed.
Lemma health_known url u : url ∈ URL <$> endpoints u → is_Some (health_of url u).
Proof.
  unfold health_of. intros (e & -> & He)%list_elem_of_fmap. destruct (List.find _ _) as [e'|] eqn:Hf; [by eexists|].
  apply list_elem_of_In in He. pose proof (find_none _ _ Hf e He) as Hn. cbn in Hn. by rewrite String.eqb_refl in Hn.
Qed.
Lemma probe_loop_marks env i snapshot u : ∃ ms, probe_loop env i snapshot u = foldl apply_mark u ms.
Proof.
  revert i u. induction snapshot as [|e snapshot IH]; intros i u; [by exists []|]. cbn [probe_loop].
  set (u1 := foldl apply_mark u (others (env i))). destruct (Exchange _ _ _) as [response|err].
  - destruct (IH (S i) (markSuccess (URL e) (elapsed (env i)) u1)) as [ms ->].
    exists (others (env i) ++ MSuccess (URL e) (elapsed (env i)) :: ms)%list. by rewrite foldl_app.
  - destruct (IH (S i) (markFailure (URL e) err u1)) as [ms ->].
    exists (others (env i) ++ MFailure (URL e) err :: ms)%list. by rewrite foldl_app.
Qed.
Lemma probe_loop_health env i snapshot u url :
  (∀ j, others (env j) = []) → NoDup (URL <$> snapshot) → url ∈ URL <$> endpoints u →
  (url ∉ URL <$> snapshot → health_of url (probe_loop env i snapshot u) = health_of url u)
  ∧ ∀ j e, snapshot !! j = Some e → URL e = url →
      health_of url (probe_loop env i snapshot u) = Some (is_ok (attempt env u (i + j) e)).
Proof.
  intros Hno. revert i u. induction snapshot as [|e snapshot IH]; intros i u Hnd Hin; [done|].
  rewrite fmap_cons in Hnd. inversion Hnd as [|? ? Hnin Hnd']; subst. cbn [probe_loop]. rewrite Hno. cbn [foldl].
  change (Exchange (exchange_env (env i)) (client u) (URL e)) with (attempt env u i e).
  set (u1 := match attempt env u i e with Ok _ => _ | Err _ => _ end).
  assert (client u1 = client u) as Hcl by (unfold u1; by destruct (attempt env u i e)).
  assert (∀ url', health_of url' u1 = if String.eqb (URL e) url' then (λ _, is_ok (attempt env u i e)) <$> health_of (URL e) u
                                      else health_of url' u) as Hhealth.
  { intros url'. unfold u1. destruct (attempt env u i e); by apply health_update. }
  assert (URL <$> endpoints u1 = URL <$> endpoints u) as Hurls.
  { unfold u1. destruct (attempt env u i e); [by apply (apply_mark_urls u (MSuccess _ _))|by apply (apply_mark_urls u (MFailure _ _))]. }
  assert (∀ j e', attempt env u1 (S i + j) e' = attempt env u (i + S j) e') as Hat.
  { intros j e'. unfold attempt. rewrite Hcl. by rewrite Nat.add_succ_r. }
  rewrite <- Hurls in Hin. destruct (IH (S i) u1 Hnd' Hin) as [Hout Hins]. rewrite Hurls in Hin. split.
  - rewrite fmap_cons, not_elem_of_cons. intros [Hne Hni]. rewrite Hout, Hhealth by done.
    by destruct (String.eqb_spec (URL e) url) as [<-|].
  - intros [|j] e' Hlk He; cbn in Hlk.
    + injection Hlk as <-. subst url. rewrite Hout, Hhealth, String.eqb_refl, Nat.add_0_r by done.
      by destruct (health_known _ _ Hin) as [b ->].
    + rewrite (Hins j e' Hlk He). by rewrite Hat.
Qed.

(** ** The configured endpoints *)

Lemma first_urls_spec seen parts :
  NoDup (first_urls seen parts) ∧ Forall (λ v, v ∉ seen ∧ v ≠ "") (first_urls seen parts).
Proof.
  revert seen. induction parts as [|part parts IH]; intros seen; cbn [first_urls]; [by repeat constructor|].
  destruct (String.eqb_spec (TrimSpace part) ""); [apply IH|]. destruct (bool_decide_reflect (TrimSpace part ∈ seen)); [apply IH|].
  destruct (IH ({[TrimSpace part]} ∪ seen)) as [Hnd Hall]. split.
  - constructor; [|done]. intros Hin. rewrite Forall_forall in Hall. apply Hall in Hin. set_solver.
  - constructor; [done|]. eapply Forall_impl; [exact Hall|]. set_solver.
Qed.
Definition configured_urls (raw : string) : list string :=
  match parseUpstreamURLs raw with [] => [defaultUpstreamURL] | urls => urls end.
Lemma configured_ok raw : NoDup (configured_urls raw) ∧ Forall (λ v, v ≠ "") (configured_urls raw).
Proof.
  unfold configured_urls, parseUpstreamURLs. destruct (first_urls_spec ∅ (Split raw ",")) as [Hnd Hall].
  destruct (first_urls _ _); [by repeat (constructor; try set_solver)|]. split; [done|].
  eapply Forall_impl; [exact Hall|]. by intros v [_ ?].
Qed.
Lemma new_pool raw cl :
  URL <$> endpoints (NewUpstreamResolver raw cl) = configured_urls raw
  ∧ Forall endpoint_ok (endpoints (NewUpstreamResolver raw cl)).
Proof.
  unfold NewUpstreamResolver, configured_urls. cbn [endpoints]. split; [|by apply Forall_fmap, Forall_true].
  rewrite <- list_fmap_compose. apply list_fmap_id.
Qed.

(** Through every history of requests and probes the pool holds exactly the
    configured endpoints, each once, and never none; an endpoint is healthy exactly when
    no failure follows its last success.  Requests and probes change the pool by such
    marks only, and an undisturbed round of probes leaves every endpoint healthy exactly
    when its own probe succeeded, so failed endpoints recover. *)
Theorem pool_invariant raw cl ms :
  let u := foldl apply_mark (NewUpstreamResolver raw cl) ms in
  URL <$> endpoints u = configured_urls raw ∧ NoDup (configured_urls raw) ∧ endpoints u ≠ []
  ∧ Forall endpoint_ok (endpoints u)
  ∧ (∀ env, ∃ ms', (Forward env u).1 = foldl apply_mark u ms')
  ∧ (∀ packed env, ∃ ms', probeAll packed env u = foldl apply_mark u ms')
  ∧ ∀ env i e, (∀ j, others (env j) = []) → orderedEndpoints u !! i = Some e →
      health_of (URL e) (probeAll true env u) = Some (is_ok (attempt env u i e)).
Proof.
  intros u. destruct (new_pool raw cl) as [Hurls Hok]. destruct (configured_ok raw) as [Hnd _].
  assert (URL <$> endpoints u = configured_urls raw) as Hu by (unfold u; by rewrite (proj1 (marks_urls _ _))).
  split; [done|]. split; [done|]. split.
  { intros He. rewrite He in Hu. unfold configured_urls in Hu. by destruct (parseUpstreamURLs raw). }
  split; [by apply marks_ok|]. split; [|split].
  - intros env. pose proof (forward_loop_spec env (orderedEndpoints u) 0 None u) as Hf. unfold Forward.
    by destruct (forward_loop _ _ _ _ _) as [u' r]; destruct Hf as [? _].
  - intros [|] env; [apply probe_loop_marks|by exists []].
  - intros env i e Hno Hlk. destruct (ordered_spec u) as (Hp & _ & _).
    assert (URL <$> orderedEndpoints u ≡ₚ configured_urls raw) as Hpu by by rewrite Hp, Hu.
    destruct (probe_loop_health env 0 (orderedEndpoints u) u (URL e)) as [_ Hins]; [done|by rewrite Hpu| |by apply Hins].
    rewrite Hu, <- Hpu. apply list_elem_of_fmap. exists e. split; [done|]. by apply list_elem_of_lookup_2 in Hlk.
Qed.
End Forwarding.
