(* ===== verification/DoH.v ===== *)
(** * The transports: DNS over HTTPS and TLS

    The RFC 8484 endpoint ([internal/dns/doh/server.go], [cache.go]), the DNS-over-TLS
    handler ([internal/dns/resolver/dot.go]) and the router of the DNS service
    ([internal/dns/server/routes.go]) over the interface [QueryBackend]; and the resolver
    with its upstream pool as one backend. *)

From Stdlib Require Import ZArith Lia Ascii String.
From S2P Require Import Prelude GoStr NetIP DnsMsg RespCache Resolver GoFloat Limiter ClientIP NetGuard Upstream Session.

(** ** The query backend *)

Class QueryBackend (B : Type) := { resolve_query : B → Msg → ClientInfo → B * result Msg }.

(** ** Requests and replies *)

(** A body: the bytes until its end or the error of reading on. *)
Record RequestBody := mkBody { sent : string; broken : option string }.
(** What the endpoint reads of a request; [Peer] is what the client address is derived
    from, with the path. *)
Record DoHRequest := mkDoHRequest {
  RequestMethod : string; DNSParam : string; ClientIDParam : string; MediaHeader : string; AuthHeader : string;
  Incoming : RequestBody; Peer : Request
}.
Record DoHReply := mkDoHReply {
  ReplyCode : Z; ReplyType : string; CacheControl : string; AllowHeader : string; ReplyBody : string
}.
Record protoError := mkProtoError { status : Z; reason : string }.

(** [http.Error] *)
Definition http_error (allow : string) (code : Z) (text : string) : DoHReply :=
  mkDoHReply code "text/plain; charset=utf-8" "" allow (text ++ String (ascii_of_N 10) "").
Definition writeProtoError (e : protoError) : DoHReply :=
  http_error (if (status e =? 405)%Z then "GET, POST" else "") (status e) (reason e).

(** ** Freshness *)

Definition minUint32 (a b : Z) : Z := if (b <? a)%Z then b else a.
(** The loop over the answers; [None] before the first. *)
Definition smallest_ttl (rrs : list RR) : Z :=
  default 0%Z (foldl (λ acc rr, Some (match acc with
                                      | None => rr_ttl rr
                                      | Some f => if (rr_ttl rr <? f)%Z then rr_ttl rr else f
                                      end)) None rrs).
Fixpoint negative_ttl (rrs : list RR) : Z :=
  match rrs with
  | [] => 0%Z
  | rr :: rrs => match Data rr with SOA minttl => minUint32 (rr_ttl rr) minttl | _ => negative_ttl rrs end
  end.
Definition CacheFreshnessLifetime (response : option Msg) : Z :=
  match response with
  | None => 0%Z
  | Some m => match Answer m with [] => negative_ttl (Ns m) | _ => smallest_ttl (Answer m) end
  end.

(** ** The endpoint *)

Section Endpoint.
Context `{UnicodeTables, DnsLib, WebLibs} {B : Type} `{!QueryBackend B}.

(** [http.MaxBytesReader]: [None] is its own error. *)
Definition read_all (body : RequestBody) : option (result string) :=
  if (MaxDNSMessageSize <? zlen (sent body))%Z then None
  else Some (match broken body with Some e => Err e | None => Ok (sent body) end).
Definition readRequestMessage (req : DoHRequest) : protoError + string :=
  if String.eqb (RequestMethod req) "GET" then
    if String.eqb (DNSParam req) "" then inl (mkProtoError 400 "missing dns query parameter")
    else match base64_decode (DNSParam req) with
    | None => inl (mkProtoError 400 "malformed base64url dns parameter")
    | Some wire =>
        if String.eqb wire "" || (MaxDNSMessageSize <? zlen wire)%Z
        then inl (mkProtoError 400 "dns message out of size bounds") else inr wire
    end
  else if String.eqb (RequestMethod req) "POST" then
    if negb (bool_decide (media_type (MediaHeader req) = Some ContentTypeDNSMessage))
    then inl (mkProtoError 415 "Content-Type must be application/dns-message")
    else match read_all (Incoming req) with
    | None => inl (mkProtoError 413 "DNS message exceeds 65535 bytes")
    | Some (Err _) => inl (mkProtoError 400 "could not read request body")
    | Some (Ok wire) => if String.eqb wire "" then inl (mkProtoError 400 "empty request body") else inr wire
    end
  else inl (mkProtoError 405 "method not allowed").

(** [strings.Trim(path, "/")] *)
Definition trim_slashes (s : string) : string := trim_right (Ascii.eqb "/") (trim_left (Ascii.eqb "/") s).
Definition extractClientInfo (proxies : list IPNet) (req : DoHRequest) : Resolver.ClientInfo :=
  let clientID :=
    if String.eqb (ClientIDParam req) "" then
      match Split (trim_slashes (URLPath (Peer req))) "/" with
      | first :: second :: _ => if String.eqb first "dns-query" then second else ""
      | _ => ""
      end
    else ClientIDParam req in
  mkClient (ClientIP proxies (Peer req)) clientID.

Definition writeDNSResponse (response : Msg) : DoHReply :=
  match msg_pack response with
  | Err _ => http_error "" 500 "could not pack DNS response"
  | Ok wire =>
      mkDoHReply 200 ContentTypeDNSMessage
        ("private, max-age=" ++ dec_string (CacheFreshnessLifetime (Some response))) "" wire
  end.
Definition ServeHTTP (proxies : list IPNet) (req : DoHRequest) (b : B) : B * DoHReply :=
  match readRequestMessage req with
  | inl e => (b, writeProtoError e)
  | inr wire =>
      match msg_unpack wire with
      | Err _ => (b, writeProtoError (mkProtoError 400 "invalid DNS message"))
      | Ok query =>
          match Questions query with
          | [] => (b, writeProtoError (mkProtoError 400 "DNS message has no question"))
          | _ =>
              match resolve_query b query (extractClientInfo proxies req) with
              | (b, Err _) => (b, writeDNSResponse (SendServfail query))
              | (b, Ok response) => (b, writeDNSResponse response)
              end
          end
      end
  end.

(** ** DNS over TLS *)

Definition RcodeFormatError : Z := 1.
Definition dot_client (remote : string) : string :=
  trim_brackets (match SplitHostPort remote with Some (host, _) => host | None => remote end).
(** The limiter, the backend and the message written; [remote] is the peer's address. *)
Definition DoTHandler (remote : string) (now : Z) (req : Msg) (limiter : option Limiter) (b : B)
    : option Limiter * B * Msg :=
  let clientIP := dot_client remote in
  let '(limiter, ok) := Allow clientIP now limiter in
  if negb ok then (limiter, b, set_rcode RcodeRefused (set_reply req))
  else match Questions req with
  | [] => (limiter, b, set_rcode RcodeFormatError (set_reply req))
  | _ =>
      match resolve_query b req (mkClient clientIP "") with
      | (b, Err _) => (limiter, b, SendServfail req)
      | (b, Ok response) => (limiter, b, response)
      end
  end.
End Endpoint.

(** ** The resolver as a backend *)

(** The inputs of one query: the clock and what an exchange with each endpoint would give. *)
Record ProcessEnv := mkProcessEnv {
  e_get : Z; e_should : Z; e_stale : Z; e_put : Z; e_attempts : nat → Attempt
}.
Record Process (S : Type) := mkProcess {
  p_cfg : Config; p_state : State S; p_pool : UpstreamResolver; p_env : nat → ProcessEnv; p_calls : nat
}.
Arguments mkProcess {S} _ _ _ _ _.
Arguments p_cfg {S} _.
Arguments p_state {S} _.
Arguments p_pool {S} _.
Arguments p_env {S} _ _.
Arguments p_calls {S} _.

Section Backend.
Context `{UnicodeTables, DnsLib, WebLibs} {S : Type} `{!PolicyService S}.

(** Whether [ResolveQuery] comes to [ForwardDoH]. *)
Definition asks_upstream (cfg : Config) (query : Msg) (client : ClientInfo) (env : Env) (st : State S) : bool :=
  let st := set_inflight (inflight st + 1) st in
  if (effective_limit cfg <? inflight st)%Z then false
  else match Questions query with
  | [] => false
  | question :: _ =>
      let '(st, p) := eval_policy (TrimSuffix (QName question) ".") client st in
      if String.eqb p "block" then false
      else match lookupCache query env st with
      | (_, Some _) => false
      | (_, None) => is_ok (msg_pack query)
      end
  end.
Definition process_env (p : Process S) : Env :=
  let e := p_env p (p_calls p) in
  mkEnv (e_get e) (e_should e) (e_stale e) (e_put e) (ForwardDoH (e_attempts e) (p_pool p)).2.
#[export] Instance resolver_backend : QueryBackend (Process S) := {|
  resolve_query p query client :=
    let env := process_env p in
    let '(st, r) := ResolveQuery (p_cfg p) query client env (p_state p) in
    let pool :=
      if asks_upstream (p_cfg p) query client env (p_state p)
      then (ForwardDoH (e_attempts (p_env p (p_calls p))) (p_pool p)).1 else p_pool p in
    (mkProcess (p_cfg p) st pool (p_env p) (Datatypes.S (p_calls p)), r)
|}.
End Backend.

(** ** The router *)

Inductive RouteAuth := AuthPublic | AuthBearerAdmin.
Record RouteSpec := mkRoute { Path : string; Methods : list string; Auth : RouteAuth }.
Definition apiRoutes : list RouteSpec := [
  mkRoute "/" ["GET"] AuthPublic;
  mkRoute "/healthz" ["GET"] AuthPublic;
  mkRoute "/readyz" ["GET"] AuthPublic;
  mkRoute "/v1/version" ["GET"] AuthPublic;
  mkRoute "/metrics" ["GET"] AuthBearerAdmin;
  mkRoute "/v1/policy" ["GET"] AuthPublic;
  mkRoute "/dns-query" ["GET"; "POST"] AuthPublic].
(** [http.ServeMux] on a clean path: no pattern of the table but ["/"] is a subtree. *)
Definition mux_route (path : string) : RouteSpec :=
  match List.find (λ r, String.eqb (Path r) path) apiRoutes with
  | Some r => r
  | None => mkRoute "/" ["GET"] AuthPublic
  end.
(** What a page shows besides DNS answers: an error, the decision about a name, or the
    status page of a path. *)
Inductive Page :=
  | DNSPage (r : DoHReply) | ErrorPage (code : Z) (message : string) | PolicyPage (action : string)
  | StatusPage (path : string).

Section Router.
Context `{UnicodeTables, DnsLib, WebLibs, Crypto} {S : Type} `{!PolicyService S}.

(** [httputil.ExtractClientInfo] *)
Definition ExtractClientInfo (proxies : list IPNet) (req : DoHRequest) : Resolver.ClientInfo :=
  let clientID :=
    if String.eqb (ClientIDParam req) "" then
      match Split (trim_slashes (URLPath (Peer req))) "/" with
      | first :: second :: _ => if String.eqb first "dns-query" then second else ""
      | [first] => if negb (String.eqb first "") && negb (String.eqb first "dns-query") then first else ""
      | [] => ""
      end
    else ClientIDParam req in
  mkClient (ClientIP proxies (Peer req)) clientID.
Definition get_only (req : DoHRequest) (page : Page) : Page :=
  if String.eqb (RequestMethod req) "GET" then page else ErrorPage 405 "method not allowed".
(** [domain] is the query parameter. *)
Definition PolicyHandler (proxies : list IPNet) (req : DoHRequest) (domain : string) (p : Process S)
    : Process S * Page :=
  if String.eqb (RequestMethod req) "GET" then
    let '(st, action) := eval_policy domain (ExtractClientInfo proxies req) (p_state p) in
    (mkProcess (p_cfg p) st (p_pool p) (p_env p) (p_calls p), PolicyPage action)
  else (p, ErrorPage 405 "method not allowed").
Definition StatusHandler (req : DoHRequest) : Page :=
  if negb (String.eqb (URLPath (Peer req)) "/") then ErrorPage 404 "404 page not found"
  else get_only req (StatusPage "/").
(** The handlers of the table; the bodies of the status pages are left out. *)
Definition handle (proxies : list IPNet) (path : string) (req : DoHRequest) (domain : string) (p : Process S)
    : Process S * Page :=
  if String.eqb path "/dns-query" then let '(p, r) := ServeHTTP proxies req p in (p, DNSPage r)
  else if String.eqb path "/v1/policy" then PolicyHandler proxies req domain p
  else if String.eqb path "/" then (p, StatusHandler req)
  else if String.eqb path "/metrics" || String.eqb path "/v1/version" then (p, get_only req (StatusPage path))
  else (p, StatusPage path).
Definition RequireBearer (key : string) (req : DoHRequest) : option Page :=
  if MatchesBearer (AuthHeader req) key then None else Some (ErrorPage 401 "unauthorized").
Definition NewRouter (proxies : list IPNet) (adminAPIKey : string) (req : DoHRequest) (domain : string) (p : Process S)
    : Process S * Page :=
  let route := mux_route (URLPath (Peer req)) in
  match Auth route with
  | AuthPublic => handle proxies (Path route) req domain p
  | AuthBearerAdmin =>
      match RequireBearer adminAPIKey req with
      | Some refused => (p, refused)
      | None => handle proxies (Path route) req domain p
      end
  end.
End Router.
