(* ===== verification/TransportSpec.v ===== *)
(** * Theorems about the transports *)

From Stdlib Require Import ZArith Lia Ascii String.
From S2P Require Import Prelude GoStr Hostname NetIP DnsMsg RespCache RespCacheSpec Trie GoFloat Whitelist Groups GroupsSpec Exceptions Category Resolver ResolverSpec Policy PolicySpec EndToEnd Limiter ClientIP NetGuard Upstream Session SessionSpec DoH.

(** ** Requests *)

Section Wire.
Context `{UnicodeTables, DnsLib, WebLibs} {B : Type} `{!QueryBackend B}.

Definition plain_text : string := "text/plain; charset=utf-8".
(** The decision the endpoint took for a request. *)
Inductive served (proxies : list IPNet) (b : B) (req : DoHRequest) : B → DoHReply → Prop :=
  | served_refused e : (status e = 400 ∨ status e = 405 ∨ status e = 413 ∨ status e = 415)%Z →
      served proxies b req b (writeProtoError e)
  | served_failed wire query b' e :
      readRequestMessage req = inr wire → msg_unpack wire = Ok query → Questions query ≠ [] →
      resolve_query b query (extractClientInfo proxies req) = (b', Err e) →
      served proxies b req b' (writeDNSResponse (SendServfail query))
  | served_answer wire query b' m :
      readRequestMessage req = inr wire → msg_unpack wire = Ok query → Questions query ≠ [] →
      resolve_query b query (extractClientInfo proxies req) = (b', Ok m) →
      served proxies b req b' (writeDNSResponse m).
Lemma read_refused req e :
  readRequestMessage req = inl e → (status e = 400 ∨ status e = 405 ∨ status e = 413 ∨ status e = 415)%Z.
Proof.
  unfold readRequestMessage.
  destruct (String.eqb _ "GET"); [|destruct (String.eqb _ "POST")].
  - destruct (String.eqb _ ""); [intros [= <-]; by left|]. destruct (base64_decode _); [|intros [= <-]; by left].
    destruct (_ || _); [intros [= <-]; by left|done].
  - destruct (negb _); [intros [= <-]; by do 3 right|]. destruct (read_all _) as [[s|]|].
    + destruct (String.eqb s ""); [intros [= <-]; by left|done].
    + intros [= <-]; by left.
    + intros [= <-]; right; right; by left.
  - intros [= <-]. right. by left.
Qed.
Lemma read_accepted req wire : readRequestMessage req = inr wire → (0 < zlen wire <= MaxDNSMessageSize)%Z.
Proof.
  assert (∀ w, w ≠ "" → (0 < zlen w)%Z) as Hpos by (unfold zlen; intros [|? ?]; [done|cbn; lia]).
  unfold readRequestMessage, read_all.
  destruct (String.eqb _ "GET"); [|destruct (String.eqb _ "POST"); [|done]].
  - destruct (String.eqb _ ""); [done|]. destruct (base64_decode _) as [w|]; [|done].
    destruct (String.eqb_spec w ""); [done|]. cbn [orb]. destruct (Z.ltb_spec MaxDNSMessageSize (zlen w)); [done|].
    intros [= <-]. split; [by apply Hpos|done].
  - destruct (negb _); [done|]. destruct (Z.ltb_spec MaxDNSMessageSize (zlen (sent (Incoming req)))); [done|].
    destruct (broken _); [done|]. destruct (String.eqb_spec (sent (Incoming req)) ""); [done|].
    intros [= <-]. split; [by apply Hpos|done].
Qed.
Lemma serve_served proxies req b b' r : ServeHTTP proxies req b = (b', r) → served proxies b req b' r.
Proof.
  unfold ServeHTTP. destruct (readRequestMessage req) as [e|wire] eqn:Hr.
  { intros [= <- <-]. apply served_refused. by eapply read_refused. }
  destruct (msg_unpack wire) as [query|] eqn:Hu; [|intros [= <- <-]; apply served_refused; by left].
  destruct (Questions query) as [|q0 qs] eqn:Hq; [intros [= <- <-]; apply served_refused; by left|].
  destruct (resolve_query _ _ _) as [b1 [m|e]] eqn:Hres; intros [= <- <-];
    [eapply served_answer|eapply served_failed]; eauto; by rewrite Hq.
Qed.
(** A packed answer, or the failure to pack it. *)
Lemma write_dns m :
  (ReplyCode (writeDNSResponse m) = 200%Z ∧ ReplyType (writeDNSResponse m) = ContentTypeDNSMessage
   ∧ msg_pack m = Ok (ReplyBody (writeDNSResponse m)))
  ∨ (ReplyCode (writeDNSResponse m) = 500%Z ∧ ReplyType (writeDNSResponse m) = plain_text).
Proof. unfold writeDNSResponse. destruct (msg_pack m); [by left|by right]. Qed.
End Wire.

(** ** What may leave *)

Section Leaving.
Context `{UnicodeTables, HostServices, DnsLib, !DnsLaws, WebLibs} {E : Type} `{!Engine E}.
Implicit Types (c : Resolver.ClientInfo) (l : list (Running E * string * string)) (st : State (Running E)).

(** While a call runs, the other calls, the refreshes and the operator may do anything to
    the resolver, its cache and the configuration, as long as the store answers. *)
Definition store_answers (st st' : State (Running E)) : Prop := undisturbed (schedule (svc st')).

(** The transports over [ResolveQuery] as one of many: what it returns for a query and a
    client is what some call came to, interleaved with the others. *)
Definition Oracle : Type := Msg → Resolver.ClientInfo → result Msg.
#[local] Instance oracle_backend : QueryBackend Oracle := {| resolve_query o q c := (o, o q c) |}.
Definition of_calls cfg (o : Oracle) : Prop := ∀ q c m, o q c = Ok m → ∃ env st0 l st,
  undisturbed (schedule (svc st0)) ∧ interleaved store_answers cfg q c env st0 l (CDone (Ok m)) st.

(** The name was admissible under the configuration of the moment it was evaluated. *)
Definition admitted c (v : Running E * string * string) : Prop :=
  let '(r, d, _) := v in admissible (service r) c d.
(** What a call may return: the blocked message after a block; an answer whose question and
    targets the operator admits; or a stale copy, whose question the operator admits and
    which the others put into the cache after this call had found nothing to serve. *)
Definition vetted_reply cfg c q m : Prop := ∃ env st0 l st,
  interleaved store_answers cfg q c env st0 l (CDone (Ok m)) st ∧
  ((m = BlockedDNSMessage cfg q ∧ was_blocked q l) ∨
   (Forall (admitted c) l ∧ names l = questionDomain q :: cname_targets m) ∨
   (Forall (admitted c) l ∧ names l = [questionDomain q] ∧
    stale_source store_answers cfg q c env st0 m)).
(** An error message without records. *)
Definition error_reply (m : Msg) : Prop :=
  Answer m = [] ∧ Ns m = [] ∧ Extra m = []
  ∧ (Rcode m = RcodeFormatError ∨ Rcode m = RcodeServerFailure ∨ Rcode m = RcodeRefused).
Lemma error_rcode q rc auth ra :
  (rc = RcodeFormatError ∨ rc = RcodeServerFailure ∨ rc = RcodeRefused) →
  error_reply (set_rcode rc (set_reply q)) ∧ error_reply (set_flags auth ra (set_rcode rc (set_reply q))).
Proof. intros Hrc. destruct (set_reply_empty q) as (? & ? & ?). by split; split_and!. Qed.

Lemma eval_schedule (r : Running E) d c :
  schedule (policy_eval r d c).1 = schedule r.
Proof. cbn. by destruct (Policy d c _ (service r)). Qed.

Lemma passed_admitted c l :
  truthful c l → passed l → Forall (λ '(r, _, _), undisturbed (schedule r)) l →
  Forall (admitted c) l.
Proof.
  unfold truthful, passed. rewrite !Forall_forall. intros Ht Hp Hu [[r d] v] Hin.
  specialize (Ht _ Hin). specialize (Hp _ Hin). specialize (Hu _ Hin). cbn beta iota in *.
  destruct (eval_admits r (policy_eval r d c).1 d c v Hu) as (_ & _ & Ha); [|by apply Ha].
  by rewrite <- Ht, <- surjective_pairing.
Qed.

Lemma oracle_vetted cfg o q c m : of_calls cfg o → o q c = Ok m → vetted_reply cfg c q m.
Proof.
  intros Ho (env & st0 & l & st & Hu & Hr)%Ho. exists env, st0, l, st. split; [done|].
  pose proof (run_truthful _ _ _ _ _ _ _ _ _ Hr) as Ht.
  assert (Forall (λ '(r, _, _), undisturbed (schedule r)) l) as Hm.
  { eapply (run_moments store_answers cfg q c env st0 (λ r, undisturbed (schedule r)));
      [done| |done|exact Hr]. intros r d Hs. by rewrite eval_schedule. }
  apply run_inv in Hr as [_ [Hb|[(Hn & Hp & _)|(Hn & Hp & _ & Hs)]]]; [by left|right; left|do 2 right];
    split_and!; try done; by apply passed_admitted.
Qed.


(** The process of [DoH.v], with its upstream pool, is such a source of answers. *)
Lemma process_of_calls (p : Process (Running E)) :
  undisturbed (schedule (svc (p_state p))) → of_calls (p_cfg p) (λ q c, (resolve_query p q c).2).
Proof.
  intros Hu q c m. cbn [resolve_query resolver_backend].
  set (env := process_env p).
  destruct (call_alone (p_cfg p) q c env (p_state p)) as [l Hl].
  destruct (ResolveQuery (p_cfg p) q c env (p_state p)) as [st r]. cbn [fst snd] in *. intros ->.
  exists env, (p_state p), l, st. split; [done|]. by eapply il_mono; [|exact Hl].
Qed.
End Leaving.

(** ** The same question over every transport *)

Section Agree.
Context `{UnicodeTables, DnsLib, WebLibs} {B : Type} `{!QueryBackend B}.

(** C39: the transports agree: a message within the size limit gets the same reply in a
    GET, base64url-encoded, and in a POST, whatever else the requests carry, and leaves
    the resolver in the same state; and a client that the TLS listener admits gets the
    message there whose packed form it gets over HTTPS when it names no client
    identifier. *)
Theorem transports_agree proxies peer id auth auth' wire media media' param body (b : B) :
  (0 < zlen wire <= MaxDNSMessageSize)%Z → media_type media = Some ContentTypeDNSMessage →
  let get := mkDoHRequest "GET" (base64_encode wire) id media' auth body peer in
  let post := mkDoHRequest "POST" param id media auth' (mkBody wire None) peer in
  ServeHTTP proxies get b = ServeHTTP proxies post b
  ∧ ∀ q remote now limiter limiter',
      msg_unpack wire = Ok q → Questions q ≠ [] → Allow (dot_client remote) now limiter = (limiter', true) →
      extractClientInfo proxies post = mkClient (dot_client remote) "" →
      ∃ b' m, DoTHandler remote now q limiter b = (limiter', b', m)
              ∧ ServeHTTP proxies post b = (b', writeDNSResponse m).
Proof.
  intros Hlen Hmedia. cbv zeta.
  assert (String.eqb wire "" = false) as Hne by (destruct wire; [unfold zlen in Hlen; cbn in Hlen; lia|done]).
  assert ((MaxDNSMessageSize <? zlen wire)%Z = false) as Hmax by (apply Z.ltb_ge; lia).
  assert (String.eqb (base64_encode wire) "" = false) as Henc.
  { apply String.eqb_neq. intros He. pose proof (base64_roundtrip wire) as Hrt. rewrite He in Hrt.
    injection Hrt as <-. unfold zlen in Hlen. cbn in Hlen. lia. }
  assert (readRequestMessage (mkDoHRequest "POST" param id media auth' (mkBody wire None) peer) = inr wire) as Hpost.
  { unfold readRequestMessage, read_all. cbn -[MaxDNSMessageSize zlen]. rewrite Hmedia, bool_decide_true by done.
    cbn -[MaxDNSMessageSize zlen]. by rewrite Hmax, Hne. }
  split.
  - unfold ServeHTTP. rewrite Hpost. unfold readRequestMessage.
    cbn -[MaxDNSMessageSize zlen base64_decode base64_encode]. by rewrite Henc, base64_roundtrip, Hne, Hmax.
  - intros q remote now limiter limiter' Hu Hq Hal Hc. unfold DoTHandler, ServeHTTP. rewrite Hpost, Hu, Hal, Hc. cbn [negb].
    destruct (Questions q) as [|q0 qs]; [done|]. destruct (resolve_query b q _) as [b' [m|e]]; by eexists _, _.
Qed.
End Agree.

(** ** Freshness *)

Section Freshness.
Context `{UnicodeTables, DnsLib}.

Lemma smallest_fold rrs acc n :
  foldl (λ acc rr, Some (match acc with
                         | None => rr_ttl rr
                         | Some f => if (rr_ttl rr <? f)%Z then rr_ttl rr else f
                         end)) (Some acc) rrs = Some n →
  (n <= acc)%Z ∧ (∀ rr, rr ∈ rrs → (n <= rr_ttl rr)%Z) ∧ (n = acc ∨ ∃ rr, rr ∈ rrs ∧ n = rr_ttl rr).
Proof.
  revert acc. induction rrs as [|rr rrs IH]; intros acc; cbn [foldl].
  { intros [= <-]. split; [done|]. split; [by intros ? ?%elem_of_nil|by left]. }
  intros Hf. apply IH in Hf as (Hle & Hall & Hin). destruct (Z.ltb_spec (rr_ttl rr) acc).
  - split; [lia|]. split; [intros rr' [->|Hr]%elem_of_cons; [lia|auto]|]. right.
    destruct Hin as [->|(rr' & Hr & ->)]; [exists rr|exists rr']; (split; [set_solver|done]).
  - split; [lia|]. split; [intros rr' [->|Hr]%elem_of_cons; [lia|auto]|].
    destruct Hin as [->|(rr' & Hr & ->)]; [by left|right; exists rr'; split; [set_solver|done]].
Qed.
Lemma smallest_fold_some rrs acc :
  ∃ n, foldl (λ acc rr, Some (match acc with
                              | None => rr_ttl rr
                              | Some f => if (rr_ttl rr <? f)%Z then rr_ttl rr else f
                              end)) (Some acc) rrs = Some n.
Proof. revert acc. induction rrs as [|rr rrs IH]; intros acc; [by eexists|apply IH]. Qed.
Lemma smallest_ttl_spec rrs :
  rrs ≠ [] → (∀ rr, rr ∈ rrs → (smallest_ttl rrs <= rr_ttl rr)%Z) ∧ ∃ rr, rr ∈ rrs ∧ smallest_ttl rrs = rr_ttl rr.
Proof.
  destruct rrs as [|rr rrs]; [done|]. intros _. unfold smallest_ttl. cbn [foldl].
  destruct (smallest_fold_some rrs (rr_ttl rr)) as [n Hn]. rewrite Hn. cbn [default].
  destruct (smallest_fold _ _ _ Hn) as (Hle & Hall & Hin). split.
  - intros rr' [->|Hr]%elem_of_cons; [done|by apply Hall].
  - destruct Hin as [->|(rr' & Hr & ->)]; [exists rr|exists rr']; (split; [set_solver|done]).
Qed.
Lemma negative_ttl_spec rrs :
  (∀ before rr minttl after, rrs = (before ++ rr :: after)%list → Data rr = SOA minttl →
     (∀ rr' mn, rr' ∈ before → Data rr' ≠ SOA mn) → negative_ttl rrs = Z.min (rr_ttl rr) minttl)
  ∧ ((∀ rr mn, rr ∈ rrs → Data rr ≠ SOA mn) → negative_ttl rrs = 0%Z).
Proof.
  induction rrs as [|rr rrs [IH1 IH2]]; cbn [negative_ttl].
  { split; [by intros [|? ?]|done]. }
  split.
  - intros [|b before] rr' mn after [= -> ->] Hd Hb.
    + rewrite Hd. unfold minUint32. destruct (Z.ltb_spec mn (rr_ttl rr')); lia.
    + specialize (IH1 before rr' mn after eq_refl Hd). destruct (Data b) eqn:Eb;
        try (by apply IH1; intros; apply Hb; set_solver). exfalso. eapply Hb; [by left|done].
  - intros Hall. destruct (Data rr) eqn:Er; try (by apply IH2; intros; apply Hall; set_solver).
    exfalso. eapply Hall; [by left|done].
Qed.

Lemma negative_ttl_bound rrs k :
  (0 <= k)%Z → (∀ rr mn, rr ∈ rrs → Data rr = SOA mn → (rr_ttl rr <= k)%Z) → (negative_ttl rrs <= k)%Z.
Proof.
  intros Hk. induction rrs as [|rr rrs IH]; intros Hall; cbn [negative_ttl]; [done|].
  destruct (Data rr) eqn:Er; try (apply IH; intros; eapply Hall; [by right|done]).
  assert (rr_ttl rr <= k)%Z by (by eapply Hall; [left|]). unfold minUint32. destruct (Z.ltb_spec minttl (rr_ttl rr)); lia.
Qed.

(** C40: the lifetime a reply gives to HTTP caches is exact and never too long: the
    smallest TTL of its answers; without answers what the first SOA record allows; zero
    otherwise, so failures are never cached; and for an answer of the resolver's own
    cache it is at most what is left of the entry's lifetime, unless its answer section
    holds OPT or TSIG records and nothing else: the TTL field of those is not a lifetime,
    the cache does not age it, and the endpoint reads it. *)
Theorem http_lifetime m :
  let n := CacheFreshnessLifetime (Some m) in
  (∀ wire, msg_pack m = Ok wire → CacheControl (writeDNSResponse m) = "private, max-age=" ++ dec_string n)
  ∧ (Answer m ≠ [] → (∀ rr, rr ∈ Answer m → (n <= rr_ttl rr)%Z) ∧ ∃ rr, rr ∈ Answer m ∧ n = rr_ttl rr)
  ∧ (Answer m = [] →
      (∀ before soa minttl after, Ns m = (before ++ soa :: after)%list → Data soa = SOA minttl →
         (∀ rr mn, rr ∈ before → Data rr ≠ SOA mn) → n = Z.min (rr_ttl soa) minttl)
      ∧ ((∀ rr mn, rr ∈ Ns m → Data rr ≠ SOA mn) → n = 0%Z))
  ∧ ∀ c q now c', cache_ok c → Get (Some c) (Some q) now = (c', Some m) →
      ∃ key e, responseCacheKeyFor (Some q) = Some key ∧ entries c !! key = Some e ∧
        ((n <= ttl e - entry_age e now / second)%Z
         ∨ Answer m ≠ [] ∧ Forall (λ rr, pseudo_record rr = true) (Answer m)).
Proof.
  cbv zeta. split; [intros wire Hp; unfold writeDNSResponse; by rewrite Hp|].
  assert (Answer m ≠ [] → (∀ rr, rr ∈ Answer m → (CacheFreshnessLifetime (Some m) <= rr_ttl rr)%Z)
          ∧ ∃ rr, rr ∈ Answer m ∧ CacheFreshnessLifetime (Some m) = rr_ttl rr) as Hans.
  { intros Hne. cbn [CacheFreshnessLifetime]. destruct (Answer m) as [|a l] eqn:Ea; [done|]. rewrite <- Ea in *.
    by apply smallest_ttl_spec. }
  assert (Answer m = [] → CacheFreshnessLifetime (Some m) = negative_ttl (Ns m)) as Hneg.
  { intros He. cbn. by rewrite He. }
  split; [done|]. split.
  { intros He. rewrite (Hneg He). apply negative_ttl_spec. }
  intros c q now c' Hc Hg. destruct (hit_within_lifetime c q now c' m Hc Hg) as (key & e & Hk & He & Hage & _ & Hall).
  exists key, e. split; [done|]. split; [done|].
  destruct (decide (Answer m = [])) as [Hnil|Hne].
  { left. rewrite (Hneg Hnil). apply negative_ttl_bound.
    - destruct (co_entries _ Hc _ _ He) as [Ht _ _ _ _]. destruct (age_seconds_small e now Ht Hage). lia.
    - intros rr mn Hin Hd. apply (Hall rr); [unfold all_records; set_solver|]. unfold pseudo_record. by rewrite Hd. }
  destruct (decide (Forall (λ rr, pseudo_record rr = true) (Answer m))) as [?|Hps]; [by right|left].
  apply not_Forall_Exists, Exists_exists in Hps as (rr & Hin & Hps%not_true_is_false); [|apply _].
  destruct (Hans Hne) as [Hle _]. specialize (Hle rr Hin).
  assert (rr ∈ all_records m) as Hel by (unfold all_records; apply elem_of_app; by left).
  destruct (Hall rr Hel Hps) as [_ ?]. lia.
Qed.
End Freshness.

(** ** Witnesses *)

Module Examples.
Import EndToEnd.Examples.
#[local] Instance ex_tables : UnicodeTables := ascii_tables.
#[local] Instance ex_services : HostServices := two_label_services.
#[local] Existing Instance EndToEnd.Examples.ex_engine.
#[local] Existing Instance EndToEnd.Examples.ex_libs.
#[local] Existing Instance GroupsSpec.Examples.ex_sort.
(** The packet [query] is the question of the client, every other one the upstream's
    answer. *)
#[local] Instance wire_dns : DnsLib :=
  let lib := rfc_dns reply in {|
    is_tsig := @is_tsig lib; msg_len := @msg_len lib; fqdn := @fqdn lib; opt_version := @opt_version lib;
    opt_do := @opt_do lib; set_reply := @set_reply lib; msg_pack := @msg_pack lib;
    msg_unpack w := if String.eqb w "query" then Ok q else Ok reply |}.
#[local] Instance wire_laws : DnsLaws.
Proof. by split. Qed.
#[local] Instance ex_web : WebLibs := {|
  parse_out_url _ := Ok (mkOutURL "https" "dns.example.net"); media_type s := Some s |}.

Definition public_reply : string → result (list IP) := λ _, Ok [[1; 1; 1; 1]%Z].
Definition good_exchange : ExchangeEnv :=
  mkExchange public_reply None [mkHop (mkOutURL "https" "dns.example.net") "dns.example.net:443" public_reply public_reply]
    (Ok (mkHTTPReply 200 ContentTypeDNSMessage "wire" None)).
Definition process0 : Process (Running nat) :=
  mkProcess cfg st0 (NewUpstreamResolver " https://dns.example.net/dns-query,," (Some (mkHTTPClient None)))
    (λ _, mkProcessEnv 0 0 0 0 (λ _, mkAttempt [] good_exchange 7)) 0.
(** A client of the default group, whose operator allows the alias target. *)
Definition adult_peer : Request := mkReq "10.2.0.1:5353" "" "" "/dns-query".
Definition post_request : DoHRequest :=
  mkDoHRequest "POST" "" "" ContentTypeDNSMessage "" (mkBody "query" None) adult_peer.

(** The answers of [process0] as what its calls return. *)
Definition answers0 : Oracle := λ q c, (resolve_query process0 q c).2.
#[local] Existing Instance oracle_backend.

(** An answer section with an OPT record alone: its flags field 32768 is the lifetime given
    to HTTP caches, although the entry lives for sixty seconds. *)
Definition opt_only : Msg :=
  mkMsg 9 true 0 false false true true false false 0 [mkQ "www.shop.org." TypeA 1]
    [mkRR (mkHdr "." 41 1232 32768) (OPT [])] [mkRR (mkHdr "shop.org." 6 1 60) (OtherData "ns")] [].
Definition opt_cache : option ResponseCache := (Put (NewResponseCache 4) (Some q) (Some opt_only) 0).1.
Example pseudo_outlives :
  (ttl <$> (snd <$> map_to_list (default ∅ (entries <$> opt_cache)))) = [60%Z]
  ∧ CacheFreshnessLifetime (Get opt_cache (Some q) 0).2 = 32768%Z.
Proof. by vm_compute. Qed.

(** A backend that counts its queries and echoes them. *)
#[local] Instance echo : QueryBackend nat := {| resolve_query n m _ := (S n, Ok m) |}.
Lemma transports_agree_witness :
  let get := mkDoHRequest "GET" (base64_encode "query") "" "" "" (mkBody "" None) adult_peer in
  let post := mkDoHRequest "POST" "" "" ContentTypeDNSMessage "" (mkBody "query" None) adult_peer in
  ServeHTTP [] get 0 = ServeHTTP [] post 0
  ∧ ∃ b' m, DoTHandler "10.2.0.1:5353" 0 q None 0 = (None, b', m)
            ∧ ServeHTTP [] post 0 = (b', writeDNSResponse m).
Proof.
  destruct (transports_agree [] adult_peer "" "" "" "query" ContentTypeDNSMessage "" "" (mkBody "" None) 0) as [Hget Hdot];
    [by vm_compute|reflexivity|]. split; [exact Hget|].
  apply (Hdot q "10.2.0.1:5353" 0%Z None None); [vm_compute; reflexivity|done|vm_compute; reflexivity|vm_compute; reflexivity].
Defined.

(** The documented path form of the client identifier is not routed to the endpoint. *)
Example path_identifier_unrouted :
  Path (mux_route "/dns-query/kids") = "/"
  ∧ StatusHandler (mkDoHRequest "POST" "" "" ContentTypeDNSMessage "" (mkBody "query" None)
                     (mkReq "10.2.0.1:5353" "" "" "/dns-query/kids")) = ErrorPage 404 "404 page not found"
  ∧ ClientID (extractClientInfo [] (mkDoHRequest "POST" "" "" "" "" (mkBody "" None)
                                      (mkReq "10.2.0.1:5353" "" "" "/dns-query/kids"))) = "kids".
Proof. by vm_compute. Qed.
End Examples.
