(* ===== verification/URLFeedback.v ===== *)
(** * Feedback on URL observations: [internal/risk/url_feedback.go],
    [url_feedback_durable.go], [internal/store/url_feedback.go] and the handler of
    [internal/api/handlers/url_feedback.go]

    Two backends correlate labels with earlier observations by keyed fingerprints: a ring
    buffer in memory, and a table with bounded retention.  Which statements fail and the
    clock are inputs. *)

From Stdlib Require Import ZArith Lia Ascii String SpecFloat.
From S2P Require Import Prelude GoStr Hostname NetIP GoFloat Groups Feed DomainML Session.

(** ** The contract *)

Definition unknown_event : string := "unknown_event".
Definition already_labeled : string := "already_labeled".
Definition invalid_label : string := "invalid_label".
Definition persistence_error : string := "persistence_error".

(** -1 is unknown *)
Definition feedback_bucket (probability : float64) : Z :=
  if SFleb f_zero probability && SFleb probability f_one then
    let bucket := f_trunc (f_mul probability (f_of_Z 10)) in if (9 <? bucket)%Z then 9%Z else bucket
  else (-1)%Z.

Record URLMLFeedbackStatus := mkFeedbackStatus {
  Supported : bool; Persistence : string; RecordedEvents : Z; LabelledEvents : Z; ConfirmedMalicious : Z;
  ReportedBenignFalsePositive : Z; WouldPromoteLabelled : Z; LabelledFalsePositiveRate : float64;
  Capacity : Z; KeyVersion : Z; PreviousKeyVersion : Z; RetentionHours : Z; MaxRows : Z;
  PersistenceErrors : Z; Degraded : bool; Note : string
}.
(** Zero, which the encoder leaves out, when no promotion was labelled. *)
Definition labelled_rate (falsePos promoted : Z) : float64 :=
  if (0 <? promoted)%Z then f_div (f_of_Z falsePos) (f_of_Z promoted) else f_zero.
Definition unsupported_status : URLMLFeedbackStatus :=
  mkFeedbackStatus false "" 0 0 0 0 0 f_zero 0 0 0 0 0 0 false "".

(** ** The ring buffer *)

Record urlFeedbackEntry := mkEntry {
  ekey : string; probabilityPct : Z; wouldPromote : bool; labeled : bool; labelMalicious : bool
}.
Record urlFeedbackStore := mkMemory {
  salt : string; capacity : nat; nextSlot : nat; entries : list urlFeedbackEntry; index : gmap string nat;
  recorded : Z; labelled : Z; confirmed : Z; falsePos : Z; promoted : Z
}.
Definition default_capacity : nat := N.to_nat 8192.
Definition fallback_salt : string := string_of_list_ascii ((λ i, ascii_of_nat (i * 7 mod 256)) <$> seq 0 32).
(** [random]: what [crypto/rand] delivers *)
Definition newURLFeedbackStore (random : option string) (capacity : Z) : urlFeedbackStore :=
  mkMemory (default fallback_salt random) (if (capacity <=? 0)%Z then default_capacity else Z.to_nat capacity)
    0 [] ∅ 0 0 0 0 0.

(** An observation of an entry that is there, and a new one. *)
Definition refresh_entry (bucket : Z) (would : bool) (e : urlFeedbackEntry) : urlFeedbackEntry :=
  mkEntry (ekey e) bucket would (labeled e) (labelMalicious e).
Definition new_entry (key : string) (bucket : Z) (would : bool) : urlFeedbackEntry := mkEntry key bucket would false false.
Definition set_entries (es : list urlFeedbackEntry) (s : urlFeedbackStore) : urlFeedbackStore :=
  mkMemory (salt s) (capacity s) (nextSlot s) es (index s) (recorded s) (labelled s) (confirmed s) (falsePos s)
    (promoted s).
Definition record_key (key : string) (bucket : Z) (would : bool) (s : urlFeedbackStore) : urlFeedbackStore :=
  match index s !! key with
  | Some slot => set_entries (alter (refresh_entry bucket would) slot (entries s)) s
  | None =>
      let '(es, ix) :=
        if Nat.ltb (length (entries s)) (capacity s) then ((entries s ++ [new_entry key bucket would])%list, index s)
        else (<[nextSlot s := new_entry key bucket would]> (entries s),
              match entries s !! nextSlot s with Some evicted => delete (ekey evicted) (index s) | None => index s end) in
      mkMemory (salt s) (capacity s) ((nextSlot s + 1) mod capacity s) es (<[key := nextSlot s]> ix) (recorded s + 1)
        (labelled s) (confirmed s) (falsePos s) (promoted s)
  end.
(** The entry labelled, and the counters; [None] is a label that means nothing. *)
Definition label_entry (label : string) (e : urlFeedbackEntry) : option urlFeedbackEntry :=
  if String.eqb label "malicious" then Some (mkEntry (ekey e) (probabilityPct e) (wouldPromote e) true true)
  else if String.eqb label "benign" then Some (mkEntry (ekey e) (probabilityPct e) (wouldPromote e) true false)
  else None.
Definition count_label (e : urlFeedbackEntry) (s : urlFeedbackStore) : urlFeedbackStore :=
  mkMemory (salt s) (capacity s) (nextSlot s) (entries s) (index s) (recorded s) (labelled s + 1)
    (confirmed s + b2z (labelMalicious e)) (falsePos s + b2z (wouldPromote e && negb (labelMalicious e)))
    (promoted s + b2z (wouldPromote e)).
Definition apply_key (key label : string) (s : urlFeedbackStore) : urlFeedbackStore * (bool * string) :=
  match index s !! key ≫= λ slot, (slot,.) <$> entries s !! slot with
  | None => (s, (false, unknown_event))
  | Some (slot, entry) =>
      if labeled entry then (s, (false, already_labeled))
      else match label_entry label entry with
      | Some entry => (count_label entry (set_entries (<[slot := entry]> (entries s)) s), (true, ""))
      | None => (s, (false, invalid_label))
      end
  end.
Definition memory_status (s : urlFeedbackStore) : URLMLFeedbackStatus :=
  mkFeedbackStatus true "memory" (recorded s) (labelled s) (confirmed s) (falsePos s) (promoted s)
    (labelled_rate (falsePos s) (promoted s)) (Z.of_nat (capacity s)) 0 0 0 0 0 false
    "opaque HMAC fingerprints only; ephemeral in-memory buffer, labels do not survive restarts".

Section Memory.
Context `{Crypto}.

Definition fingerprint (s : urlFeedbackStore) (eventID : string) : string :=
  String.substring 0 16 (hmac_sha256 (salt s) eventID).
Definition memory_record (eventID : string) (probability : float64) (would : bool) (s : urlFeedbackStore)
    : urlFeedbackStore :=
  if String.eqb eventID "" then s else record_key (fingerprint s eventID) (feedback_bucket probability) would s.
Definition memory_apply (eventID label : string) (s : urlFeedbackStore) : urlFeedbackStore * (bool * string) :=
  if String.eqb eventID "" then (s, (false, unknown_event)) else apply_key (fingerprint s eventID) label s.
End Memory.

(** ** The table *)

(** [RFC3339Nano] of a time in nanoseconds: the text of its second, then the fraction
    without trailing zeros. *)
Class CivilTime := { civil_text : Z → string }.
Fixpoint drop_zeros (digits : list ascii) : list ascii :=
  match digits with c :: digits => if Ascii.eqb c "0" then drop_zeros digits else c :: digits | [] => [] end.
Fixpoint fixed_digits (n : nat) (z : Z) : list ascii :=
  match n with
  | 0 => []
  | S n => ascii_of_nat (Z.to_nat (z mod 10) + 48) :: fixed_digits n (z / 10)
  end.
(** The digits from the last one up. *)
Definition fraction_text (nanos : Z) : string :=
  match drop_zeros (fixed_digits 9 nanos) with
  | [] => ""
  | digits => String "." (string_of_list_ascii (rev digits))
  end.
Definition second_ns : Z := 1000000000.
Definition time_text `{CivilTime} (t : Z) : string :=
  civil_text (t / second_ns) ++ fraction_text (t mod second_ns) ++ "Z".

Record URLFeedbackRow := mkRow {
  Fingerprint : string; RowKeyVersion : Z; ProbabilityBucket : Z; RowWouldPromote : bool; Labeled : bool;
  LabelMalicious : bool; RecordedAt : string; LabeledAt : string
}.
Definition Rows : Type := gmap string URLFeedbackRow.
Record URLFeedbackStats := mkFeedbackStats {
  StatRows : Z; StatLabeled : Z; StatConfirmed : Z; StatBenignFP : Z; StatPromoteLabelled : Z
}.
Inductive FeedbackError := Unavailable (message : string) | AlreadyLabelled | NoRows.
(** The failing steps of one operation: the statement, counting its rows, the query. *)
Record FeedbackIO := mkFeedbackIO { exec_error : option string; affected_error : option string; query_error : option string }.
Definition db_disabled : string := "".

Definition UpsertURLFeedback (enabled : bool) (io : FeedbackIO) (row : URLFeedbackRow) (t : Rows)
    : Rows * option FeedbackError :=
  if negb enabled then (t, Some (Unavailable db_disabled))
  else match exec_error io with
  | Some e => (t, Some (Unavailable e))
  | None =>
      (match t !! Fingerprint row with
       | Some old =>
           <[Fingerprint row := mkRow (Fingerprint old) (RowKeyVersion old) (ProbabilityBucket row) (RowWouldPromote row)
                                  (Labeled old) (LabelMalicious old) (RecordedAt old) (LabeledAt old)]> t
       | None => <[Fingerprint row := row]> t
       end, None)
  end.
Definition ApplyURLFeedbackLabel (enabled : bool) (io : FeedbackIO) (now : string) (fp : string) (malicious : bool)
    (t : Rows) : Rows * option FeedbackError :=
  if negb enabled then (t, Some (Unavailable db_disabled))
  else match exec_error io with
  | Some e => (t, Some (Unavailable e))
  | None =>
      let '(t, affected) :=
        match t !! fp with
        | Some row =>
            if Labeled row then (t, false)
            else (<[fp := mkRow (Fingerprint row) (RowKeyVersion row) (ProbabilityBucket row) (RowWouldPromote row) true
                            malicious (RecordedAt row) now]> t, true)
        | None => (t, false)
        end in
      match affected_error io with
      | Some e => (t, Some (Unavailable e))
      | None =>
          if affected then (t, None)
          else match query_error io with
          | Some e => (t, Some (Unavailable e))
          | None =>
              match t !! fp with
              | Some row => (t, Some (if Labeled row then AlreadyLabelled else NoRows))
              | None => (t, Some NoRows)
              end
          end
      end
  end.
Definition count_rows (f : URLFeedbackRow → bool) (t : Rows) : Z :=
  Z.of_nat (length (List.filter f (map_to_list t).*2)).
Definition URLFeedbackStats_ (enabled : bool) (io : FeedbackIO) (t : Rows) : result URLFeedbackStats :=
  if negb enabled then Err db_disabled
  else match query_error io with
  | Some e => Err e
  | None =>
      Ok (mkFeedbackStats (count_rows (λ _, true) t) (count_rows Labeled t)
            (count_rows (λ r, Labeled r && LabelMalicious r) t)
            (count_rows (λ r, Labeled r && negb (LabelMalicious r) && RowWouldPromote r) t)
            (count_rows (λ r, Labeled r && RowWouldPromote r) t))
  end.
(** The rows in some order of their times. *)
Definition oldest_first `{SortSlice} (t : Rows) : list string :=
  fst <$> sort_slice (λ a b, String.ltb (RecordedAt a.2) (RecordedAt b.2)) (map_to_list t).
(** Pruning is up to three statements: deleting before the cutoff, counting what is over
    the cap, deleting that many of the oldest.  Others may run between them. *)
Definition prune_expire (io : FeedbackIO) (cutoff : string) (t : Rows) : Rows * option string :=
  match exec_error io with
  | Some e => (t, Some e)
  | None => (filter (λ p, String.ltb (RecordedAt p.2) cutoff = false) t, None)
  end.
Definition prune_count (io : FeedbackIO) (maxRows : Z) (t : Rows) : result Z :=
  match query_error io with Some e => Err e | None => Ok (Z.of_nat (size t) - maxRows)%Z end.
Definition prune_excess `{SortSlice} (io : FeedbackIO) (excess : Z) (t : Rows) : Rows * option string :=
  match exec_error io with
  | Some e => (t, Some e)
  | None => (foldl (λ t fp, delete fp t) t (take (Z.to_nat excess) (oldest_first t)), None)
  end.
(** [io], by statement *)
Definition PruneURLFeedback `{SortSlice} (enabled : bool) (io : nat → FeedbackIO) (cutoff : string) (maxRows : Z) (t : Rows)
    : Rows * option string :=
  if negb enabled then (t, Some db_disabled)
  else match prune_expire (io 0) cutoff t with
  | (t, Some e) => (t, Some e)
  | (t, None) =>
      if (0 <? maxRows)%Z then
        match prune_count (io 1) maxRows t with
        | Err e => (t, Some e)
        | Ok excess => if (0 <? excess)%Z then prune_excess (io 2) excess t else (t, None)
        end
      else (t, None)
  end.
Definition URLFeedbackRowCount (enabled : bool) (io : FeedbackIO) (t : Rows) : result Z :=
  if negb enabled then Err db_disabled
  else match query_error io with Some e => Err e | None => Ok (count_rows (λ _, true) t) end.

(** ** The durable backend *)

Record URLMLFeedbackConfig := mkFeedbackConfig {
  Secret : string; CfgKeyVersion : Z; PreviousSecret : string; CfgPreviousKeyVersion : Z; Retention : Z; CfgMaxRows : Z
}.
Definition hour_ns : Z := 3600 * second_ns.
Definition defaultURLFeedbackRetentionHours : Z := 168.
Definition defaultURLFeedbackMaxRows : Z := 65536.
Definition maxURLFeedbackRetentionHours : Z := 8760.
Definition maxURLFeedbackRows : Z := 1000000.
Definition urlFeedbackPruneInterval : Z := 600 * second_ns.
Definition validate (c : URLMLFeedbackConfig) : result unit :=
  if (CfgKeyVersion c <? 1)%Z || (1000000 <? CfgKeyVersion c)%Z then
    Err "URL ML feedback key version must be between 1 and 1000000"
  else if (Retention c <=? 0)%Z || (maxURLFeedbackRetentionHours * hour_ns <? Retention c)%Z then
    Err "URL ML feedback retention hours must be between 1 and 8760"
  else if (CfgMaxRows c <? 100)%Z || (maxURLFeedbackRows <? CfgMaxRows c)%Z then
    Err "URL ML feedback max rows must be between 100 and 1000000"
  else if negb (String.eqb (PreviousSecret c) "")
          && ((CfgPreviousKeyVersion c <? 1)%Z || (1000000 <? CfgPreviousKeyVersion c)%Z) then
    Err "URL ML feedback previous key version must be between 1 and 1000000"
  else if negb (String.eqb (PreviousSecret c) "") && (CfgPreviousKeyVersion c =? CfgKeyVersion c)%Z then
    Err "URL ML feedback previous key version must differ from the active version"
  else Ok tt.

Record feedbackHMACKey := mkHMACKey { version : Z; secret : string }.
(** Where a prune in flight stands. *)
Inductive PruneJob := PruneExpire (now : Z) | PruneCount | PruneExcess (excess : Z).
(** [db_enabled]: a store is there; [shut]: the service is closing *)
Record durableURLFeedbackStore := mkDurable {
  db_enabled : bool; rows : Rows; currentKey : feedbackHMACKey; previousKey : option feedbackHMACKey; retention : Z;
  maxRows : Z; lastPrune : Z; startupPruned : bool; persistenceErrors : Z; shut : bool; pruneInflight : option PruneJob
}.
Definition newDurableURLFeedbackStore (enabled : bool) (t : Rows) (cfg : URLMLFeedbackConfig) : durableURLFeedbackStore :=
  mkDurable enabled t (mkHMACKey (CfgKeyVersion cfg) (Secret cfg))
    (if String.eqb (PreviousSecret cfg) "" then None else Some (mkHMACKey (CfgPreviousKeyVersion cfg) (PreviousSecret cfg)))
    (Retention cfg) (CfgMaxRows cfg) 0 false 0 false None.
Definition set_rows (t : Rows) (s : durableURLFeedbackStore) : durableURLFeedbackStore :=
  mkDurable (db_enabled s) t (currentKey s) (previousKey s) (retention s) (maxRows s) (lastPrune s) (startupPruned s)
    (persistenceErrors s) (shut s) (pruneInflight s).
Definition count_error (s : durableURLFeedbackStore) : durableURLFeedbackStore :=
  mkDurable (db_enabled s) (rows s) (currentKey s) (previousKey s) (retention s) (maxRows s) (lastPrune s)
    (startupPruned s) (persistenceErrors s + 1) (shut s) (pruneInflight s).
Definition set_job (job : option PruneJob) (s : durableURLFeedbackStore) : durableURLFeedbackStore :=
  mkDurable (db_enabled s) (rows s) (currentKey s) (previousKey s) (retention s) (maxRows s) (lastPrune s)
    (startupPruned s) (persistenceErrors s) (shut s) job.
(** One call: the time, whether the caller has gone, and its statements. *)
Record FeedbackCall := mkCall { call_now : Z; call_gone : bool; call_io : nat → FeedbackIO }.

Definition backgroundPrune (call : FeedbackCall) (s : durableURLFeedbackStore) : durableURLFeedbackStore :=
  if shut s || call_gone call then s
  else match pruneInflight s with
  | Some _ => s
  | None =>
      mkDurable (db_enabled s) (rows s) (currentKey s) (previousKey s) (retention s) (maxRows s) (call_now call) true
        (persistenceErrors s) (shut s) (Some (PruneExpire (call_now call)))
  end.
Definition maybePrune (call : FeedbackCall) (s : durableURLFeedbackStore) : durableURLFeedbackStore :=
  if negb (startupPruned s) || (urlFeedbackPruneInterval <=? call_now call - lastPrune s)%Z then backgroundPrune call s
  else s.

Section Durable.
Context `{Crypto, CivilTime, SortSlice}.

Definition key_fingerprint (eventID : string) (key : feedbackHMACKey) : string :=
  hex_string (String.substring 0 16 (hmac_sha256 (secret key) eventID)).
Definition observed_row (call : FeedbackCall) (eventID : string) (probability : float64) (would : bool)
    (s : durableURLFeedbackStore) : URLFeedbackRow :=
  mkRow (key_fingerprint eventID (currentKey s)) (version (currentKey s)) (feedback_bucket probability) would false false
    (time_text (call_now call)) "".
Definition durable_record (call : FeedbackCall) (eventID : string) (probability : float64) (would : bool)
    (s : durableURLFeedbackStore) : durableURLFeedbackStore :=
  if String.eqb eventID "" then s
  else match UpsertURLFeedback (db_enabled s) (call_io call 0) (observed_row call eventID probability would s) (rows s) with
  | (_, Some _) => count_error s
  | (t, None) => maybePrune call (set_rows t s)
  end.
(** The keys in turn: the next one is tried when there is no row to label. *)
Fixpoint apply_keys (call : FeedbackCall) (n : nat) (eventID : string) (malicious : bool) (keys : list feedbackHMACKey)
    (s : durableURLFeedbackStore) : durableURLFeedbackStore * (bool * string) :=
  match keys with
  | [] => (s, (false, unknown_event))
  | key :: keys =>
      match ApplyURLFeedbackLabel (db_enabled s) (call_io call n) (time_text (call_now call)) (key_fingerprint eventID key)
              malicious (rows s) with
      | (t, None) => (set_rows t s, (true, ""))
      | (t, Some AlreadyLabelled) => (set_rows t s, (false, already_labeled))
      | (t, Some NoRows) => apply_keys call (S n) eventID malicious keys (set_rows t s)
      | (t, Some (Unavailable _)) => (count_error (set_rows t s), (false, persistence_error))
      end
  end.
Definition label_of (label : string) : option bool :=
  if String.eqb label "malicious" then Some true else if String.eqb label "benign" then Some false else None.
Definition durable_apply (call : FeedbackCall) (eventID label : string) (s : durableURLFeedbackStore)
    : durableURLFeedbackStore * (bool * string) :=
  if String.eqb eventID "" then (s, (false, persistence_error))
  else match label_of label with
  | None => (s, (false, invalid_label))
  | Some malicious =>
      apply_keys call 0 eventID malicious
        (currentKey s :: match previousKey s with Some key => [key] | None => [] end) s
  end.
Definition durable_status (call : FeedbackCall) (s : durableURLFeedbackStore) : URLMLFeedbackStatus :=
  let status recorded labelled confirmed falsePos promoted degraded :=
    mkFeedbackStatus true "sqlite" recorded labelled confirmed falsePos promoted (labelled_rate falsePos promoted) 0
      (version (currentKey s)) (match previousKey s with Some key => version key | None => 0%Z end)
      (Z.quot (retention s) hour_ns) (maxRows s) (persistenceErrors s) degraded
      "opaque HMAC fingerprints only; durable bounded SQLite retention" in
  match URLFeedbackStats_ (db_enabled s) (call_io call 0) (rows s) with
  | Err _ => status 0%Z 0%Z 0%Z 0%Z 0%Z true
  | Ok stats =>
      status (StatRows stats) (StatLabeled stats) (StatConfirmed stats) (StatBenignFP stats) (StatPromoteLabelled stats) false
  end.

(** One statement of the prune in flight. *)
Definition prune_step (io : FeedbackIO) (s : durableURLFeedbackStore) : durableURLFeedbackStore :=
  match pruneInflight s with
  | None => s
  | Some job =>
      if negb (db_enabled s) then set_job None (count_error s)
      else match job with
      | PruneExpire now =>
          match prune_expire io (time_text (now - retention s)) (rows s) with
          | (_, Some _) => set_job None (count_error s)
          | (t, None) => set_job (if (0 <? maxRows s)%Z then Some PruneCount else None) (set_rows t s)
          end
      | PruneCount =>
          match prune_count io (maxRows s) (rows s) with
          | Err _ => set_job None (count_error s)
          | Ok excess => set_job (if (0 <? excess)%Z then Some (PruneExcess excess) else None) s
          end
      | PruneExcess excess =>
          match prune_excess io excess (rows s) with
          | (_, Some _) => set_job None (count_error s)
          | (t, None) => set_job None (set_rows t s)
          end
      end
  end.
(** [prune], when nothing runs between its statements. *)
Definition prune (io : nat → FeedbackIO) (now : Z) (s : durableURLFeedbackStore) : durableURLFeedbackStore :=
  match PruneURLFeedback (db_enabled s) io (time_text (now - retention s)) (maxRows s) (rows s) with
  | (t, Some _) => count_error (set_rows t s)
  | (t, None) => set_rows t s
  end.
End Durable.

(** ** The contract of the backends, its two implementations, and the one a service takes *)

Class FeedbackBackend (S : Type) := {
  backend_record : FeedbackCall → string → float64 → bool → S → S;
  backend_apply : FeedbackCall → string → string → S → S * (bool * string);
  backend_status : FeedbackCall → S → URLMLFeedbackStatus
}.
#[export] Instance memory_backend `{Crypto} : FeedbackBackend urlFeedbackStore := {
  backend_record _ := memory_record; backend_apply _ := memory_apply; backend_status _ := memory_status
}.
#[export] Instance durable_backend `{Crypto, CivilTime, SortSlice} : FeedbackBackend durableURLFeedbackStore := {
  backend_record := durable_record; backend_apply := durable_apply; backend_status := durable_status
}.
Definition selected_config (c : URLMLFeedbackConfig) : URLMLFeedbackConfig :=
  mkFeedbackConfig (Secret c) (if (CfgKeyVersion c =? 0)%Z then 1%Z else CfgKeyVersion c) (PreviousSecret c)
    (CfgPreviousKeyVersion c)
    (if (Retention c =? 0)%Z then (defaultURLFeedbackRetentionHours * hour_ns)%Z else Retention c)
    (if (CfgMaxRows c =? 0)%Z then defaultURLFeedbackMaxRows else CfgMaxRows c).
Definition closed_config : URLMLFeedbackConfig :=
  mkFeedbackConfig "" 1 "" 0 (defaultURLFeedbackRetentionHours * hour_ns) defaultURLFeedbackMaxRows.
Definition new_backend (random : option string) (enabled : bool) (t : Rows) (c : URLMLFeedbackConfig)
    : urlFeedbackStore + durableURLFeedbackStore :=
  if String.eqb (Secret c) "" then inl (newURLFeedbackStore random 8192)
  else match validate (selected_config c) with
  | Err _ => inr (newDurableURLFeedbackStore false ∅ closed_config)
  | Ok _ => inr (newDurableURLFeedbackStore enabled t (selected_config c))
  end.

Section Client.
Context `{UnicodeTables} {S : Type} `{FeedbackBackend S}.

Definition RecordURLFeedback (call : FeedbackCall) (eventID label : string) (s : option S) : option S * (bool * string) :=
  match s with
  | None => (None, (false, "unsupported"))
  | Some s => let '(s, reply) := backend_apply call eventID label s in (Some s, reply)
  end.
Inductive FeedbackResponse := FeedbackError_ (status : Z) (message : string)
  | FeedbackJSON (status : Z) (recorded : bool) (reason : string).
(** [decoded]: the two fields of the body, when it is JSON *)
Definition URLMLFeedbackHandler (call : FeedbackCall) (method : string) (decoded : option (string * string)) (s : option S)
    : option S * FeedbackResponse :=
  if negb (String.eqb method "POST") then (s, FeedbackError_ 405 "method not allowed")
  else match decoded with
  | None => (s, FeedbackError_ 400 "invalid JSON body")
  | Some (id, label) =>
      let '(eventID, label) := (TrimSpace id, ToLower (TrimSpace label)) in
      if String.eqb eventID "" || Nat.ltb 256 (String.length eventID) then (s, FeedbackError_ 400 "event_id is required")
      else if negb (String.eqb label "benign") && negb (String.eqb label "malicious") then
        (s, FeedbackError_ 400 "label must be benign or malicious")
      else
        let '(s, (recorded, reason)) := RecordURLFeedback call eventID label s in
        (s, FeedbackJSON (if String.eqb reason "unsupported" then 501 else if String.eqb reason persistence_error then 503
                          else 200) recorded reason)
  end.
End Client.
