(* ===== verification/URLFeedbackSpec.v ===== *)
(** * Theorems about [URLFeedback]: the ring buffer is a bounded queue, the table keeps its
    labels and its bounds, and the two backends answer alike *)

From Stdlib Require Import ZArith Lia Ascii String SpecFloat.
From S2P Require Import Prelude GoStr Hostname NetIP GoFloat Groups Feed DomainML Session URLFeedback.

(** ** The ring buffer as a queue *)

(** What the buffer stands for: the retained observations, oldest first, how many were
    ever taken in, and the labels accepted, each as (would promote, malicious). *)
Record EventQueue := mkQueue { queued : list urlFeedbackEntry; taken : nat; outcomes : list (bool * bool) }.

Definition has_key (key : string) (e : urlFeedbackEntry) : bool := String.eqb (ekey e) key.
Definition update_key (key : string) (f : urlFeedbackEntry → urlFeedbackEntry) (es : list urlFeedbackEntry) :=
  (λ e, if has_key key e then f e else e) <$> es.
Definition find_key (key : string) (es : list urlFeedbackEntry) : option urlFeedbackEntry := List.find (has_key key) es.
(** The last [n]. *)
Definition newest {A} (n : nat) (l : list A) : list A := drop (length l - n) l.

Definition queue_record (capacity : nat) (key : string) (bucket : Z) (would : bool) (q : EventQueue) : EventQueue :=
  match find_key key (queued q) with
  | Some _ => mkQueue (update_key key (refresh_entry bucket would) (queued q)) (taken q) (outcomes q)
  | None =>
      mkQueue (newest capacity (queued q ++ [new_entry key bucket would])%list) (Datatypes.S (taken q)) (outcomes q)
  end.
Definition marked (malicious : bool) (e : urlFeedbackEntry) : urlFeedbackEntry :=
  mkEntry (ekey e) (probabilityPct e) (wouldPromote e) true malicious.
Definition queue_apply (key label : string) (q : EventQueue) : EventQueue * (bool * string) :=
  match find_key key (queued q) with
  | None => (q, (false, unknown_event))
  | Some e =>
      if labeled e then (q, (false, already_labeled))
      else match label_of label with
      | None => (q, (false, invalid_label))
      | Some malicious =>
          (mkQueue (update_key key (marked malicious) (queued q))
             (taken q) (outcomes q ++ [(wouldPromote e, malicious)])%list, (true, ""))
      end
  end.
Definition tally {A} (f : A → bool) (l : list A) : Z := Z.of_nat (length (List.filter f l)).
Definition queue_status (capacity : nat) (q : EventQueue) : URLMLFeedbackStatus :=
  let falsePos := tally (λ o, o.1 && negb o.2) (outcomes q) in
  let promoted := tally fst (outcomes q) in
  mkFeedbackStatus true "memory" (Z.of_nat (taken q)) (Z.of_nat (length (outcomes q))) (tally snd (outcomes q)) falsePos
    promoted (labelled_rate falsePos promoted) (Z.of_nat capacity) 0 0 0 0 0 false
    "opaque HMAC fingerprints only; ephemeral in-memory buffer, labels do not survive restarts".

Lemma tally_app {A} f (l : list A) a : tally f (l ++ [a]) = (tally f l + b2z (f a))%Z.
Proof. unfold tally. rewrite List.filter_app, length_app. simpl. unfold b2z. destruct (f a); simpl; lia. Qed.

(** The slots in the order of the queue, the keys of the slots, and the counters. *)
Record ring_repr (s : urlFeedbackStore) (q : EventQueue) : Prop := {
  ring_slots : ∃ fresh old, entries s = (fresh ++ old)%list ∧ nextSlot s = length fresh
                 ∧ queued q = (old ++ fresh)%list ∧ (length (entries s) = capacity s ∨ old = []);
  ring_next : nextSlot s < capacity s;
  ring_index key slot : index s !! key = Some slot ↔ ∃ e, entries s !! slot = Some e ∧ ekey e = key;
  ring_recorded : recorded s = Z.of_nat (taken q);
  ring_labelled : labelled s = Z.of_nat (length (outcomes q));
  ring_confirmed : confirmed s = tally snd (outcomes q);
  ring_false : falsePos s = tally (λ o, o.1 && negb o.2) (outcomes q);
  ring_promoted : promoted s = tally fst (outcomes q)
}.

Lemma find_key_some key es e : find_key key es = Some e → e ∈ es ∧ ekey e = key.
Proof.
  unfold find_key. intros [Hin Hk]%List.find_some. split; [by apply list_elem_of_In|].
  by apply String.eqb_eq in Hk.
Qed.
Lemma find_key_none key es : find_key key es = None ↔ ∀ e, e ∈ es → ekey e ≠ key.
Proof.
  unfold find_key. split.
  - intros Hf e He Hk. apply list_elem_of_In in He. pose proof (List.find_none _ _ Hf _ He) as Hn.
    unfold has_key in Hn. by apply String.eqb_neq in Hn.
  - intros Hn. destruct (List.find _ _) as [e|] eqn:He; [|done].
    destruct (find_key_some key es e He) as [Hin Hk]. by destruct (Hn e Hin).
Qed.
Definition unique_keys (es : list urlFeedbackEntry) : Prop := NoDup (ekey <$> es).
Lemma unique_slot es i j a b :
  unique_keys es → es !! i = Some a → es !! j = Some b → ekey a = ekey b → i = j.
Proof.
  intros Hnd Hi Hj Hk. eapply (NoDup_lookup (ekey <$> es)); [done| |];
    rewrite list_lookup_fmap; [by rewrite Hi|by rewrite Hj, Hk].
Qed.
Lemma alter_update es slot e f :
  unique_keys es → es !! slot = Some e → alter f slot es = update_key (ekey e) f es.
Proof.
  intros Hnd He. apply list_eq. intros j. unfold update_key. rewrite list_lookup_fmap.
  destruct (decide (j = slot)) as [->|Hne].
  - rewrite list_lookup_alter_eq, He. simpl. unfold has_key. by rewrite String.eqb_refl.
  - rewrite list_lookup_alter_ne by done. destruct (es !! j) as [a|] eqn:Ha; [|done]. simpl. unfold has_key.
    destruct (String.eqb_spec (ekey a) (ekey e)) as [Hk|]; [|done].
    destruct Hne. by apply (unique_slot es j slot a e).
Qed.
Lemma update_key_keys key f es : (∀ e, ekey (f e) = ekey e) → ekey <$> update_key key f es = ekey <$> es.
Proof. intros Hf. unfold update_key. rewrite <- list_fmap_compose. apply list_fmap_ext. intros _ e _. simpl. by destruct (has_key _ _). Qed.
Lemma unique_entry es a b : unique_keys es → a ∈ es → b ∈ es → ekey a = ekey b → a = b.
Proof.
  intros Hnd [i Hi]%list_elem_of_lookup [j Hj]%list_elem_of_lookup Hk.
  assert (i = j) as -> by by apply (unique_slot es i j a b). congruence.
Qed.
Lemma find_unique es e : unique_keys es → e ∈ es → find_key (ekey e) es = Some e.
Proof.
  intros Hnd He. destruct (find_key (ekey e) es) as [a|] eqn:Ha.
  - apply find_key_some in Ha as [Hin Hk]. f_equal. by apply (unique_entry es).
  - rewrite find_key_none in Ha. by destruct (Ha e He).
Qed.
Lemma alter_known {A} (f : A → A) i (l : list A) a : l !! i = Some a → <[i := f a]> l = alter f i l.
Proof.
  intros Ha. apply list_eq. intros j. destruct (decide (j = i)) as [->|Hne].
  - rewrite list_lookup_insert_eq by (by eapply lookup_lt_Some). by rewrite list_lookup_alter_eq, Ha.
  - by rewrite list_lookup_insert_ne, list_lookup_alter_ne by done.
Qed.
Lemma newest_all {A} n (l : list A) : length l ≤ n → newest n l = l.
Proof. intros Hl. unfold newest. by replace (length l - n) with 0 by lia. Qed.
Lemma newest_tail {A} n a (l : list A) : length l = n → newest n (a :: l) = l.
Proof. intros Hl. unfold newest. simpl. replace (Datatypes.S (length l) - n) with 1 by lia. done. Qed.

Section Ring.
Context (s : urlFeedbackStore) (q : EventQueue) (Hr : ring_repr s q).

Lemma ring_unique : unique_keys (entries s).
Proof.
  apply NoDup_alt. intros i j k Hi Hj. rewrite list_lookup_fmap in Hi, Hj.
  destruct (entries s !! i) as [a|] eqn:Ha; [|done]. destruct (entries s !! j) as [b|] eqn:Hb; [|done].
  simplify_eq/=.
  assert (index s !! ekey a = Some i) by (apply (ring_index s q Hr); by exists a).
  assert (index s !! ekey a = Some j) by (apply (ring_index s q Hr); exists b; split; congruence). congruence.
Qed.
Lemma ring_perm : entries s ≡ₚ queued q.
Proof. destruct (ring_slots s q Hr) as (fresh & old & -> & _ & -> & _). by rewrite (comm (++)%list). Qed.
Lemma queue_unique : unique_keys (queued q).
Proof. unfold unique_keys. rewrite <- ring_perm. apply ring_unique. Qed.
Lemma ring_find key slot e :
  index s !! key = Some slot → entries s !! slot = Some e → find_key key (queued q) = Some e.
Proof.
  intros Hi He. apply (ring_index s q Hr) in Hi as (a & Ha & <-). assert (a = e) as -> by congruence.
  apply find_unique; [apply queue_unique|]. rewrite <- ring_perm. by eapply list_elem_of_lookup_2.
Qed.
Lemma ring_absent key : index s !! key = None → find_key key (queued q) = None.
Proof.
  intros Hi. apply find_key_none. intros e He Hk. rewrite <- ring_perm in He.
  apply list_elem_of_lookup in He as [slot He].
  assert (index s !! key = Some slot) by (apply (ring_index s q Hr); by exists e). congruence.
Qed.
Lemma ring_present key slot : index s !! key = Some slot → ∃ e, entries s !! slot = Some e ∧ ekey e = key.
Proof. apply (ring_index s q Hr). Qed.

(** Changing one entry in its place, its key kept. *)
Lemma ring_update slot e f :
  entries s !! slot = Some e → (∀ e, ekey (f e) = ekey e) →
  ring_repr (set_entries (alter f slot (entries s)) s)
    (mkQueue (update_key (ekey e) f (queued q)) (taken q) (outcomes q)).
Proof.
  intros He Hf. destruct (ring_slots s q Hr) as (fresh & old & Hes & Hn & Hq & Hfull).
  split; simpl; try apply Hr.
  - exists (update_key (ekey e) f fresh), (update_key (ekey e) f old).
    rewrite (alter_update _ _ e) by (done || apply ring_unique). rewrite Hes, Hq.
    unfold update_key. rewrite !fmap_app, !length_fmap, length_app, !length_fmap.
    split_and!; [done..|]. rewrite Hes, length_app in Hfull. destruct Hfull as [?| ->]; auto.
  - intros key j. rewrite (ring_index s q Hr). destruct (decide (j = slot)) as [->|Hne].
    + rewrite list_lookup_alter_eq, He. simpl. split.
      * intros (a & ? & <-). simplify_eq. exists (f a). by rewrite Hf.
      * intros (a & ? & <-). simplify_eq. exists e. by rewrite Hf.
    + by rewrite list_lookup_alter_ne.
Qed.
Lemma ring_new_key key slot e : index s !! key = None → entries s !! slot = Some e → ekey e ≠ key.
Proof.
  intros Hi He Hk. assert (index s !! key = Some slot) by (apply (ring_index s q Hr); by exists e). congruence.
Qed.
(** A new key while there is room, and when the oldest entry has to go. *)
Lemma ring_record_room key bucket would :
  index s !! key = None → length (entries s) < capacity s →
  ring_repr (record_key key bucket would s) (queue_record (capacity s) key bucket would q).
Proof.
  intros Hi Hlt. unfold record_key, queue_record. rewrite Hi, ring_absent by done.
  destruct (Nat.ltb_spec (length (entries s)) (capacity s)) as [_|?]; [|lia].
  pose proof (ring_next s q Hr) as Hnext. pose proof (λ slot e, ring_new_key key slot e Hi) as Hnew.
  destruct (ring_slots s q Hr) as (fresh & old & Hes & Hn & Hq & Hfull).
  destruct Hfull as [?| ->]; [lia|]. rewrite app_nil_r in Hes. simpl in Hq.
  split; simpl; try apply Hr; [| | |by rewrite (ring_recorded s q Hr); lia].
  - rewrite Hq, Hes, newest_all by (rewrite length_app; simpl; rewrite <- Hes; lia).
    rewrite Hes in Hlt. destruct (decide (length fresh + 1 = capacity s)) as [Hc|Hc].
    + exists [], (fresh ++ [new_entry key bucket would])%list. rewrite Hn, Hc, Nat.Div0.mod_same, app_nil_r, length_app. simpl.
      split_and!; auto.
    + exists (fresh ++ [new_entry key bucket would])%list, []. rewrite Hn, Nat.mod_small, app_nil_r, length_app by lia. auto.
  - apply Nat.mod_upper_bound. lia.
  - intros k slot. rewrite lookup_insert_Some, (ring_index s q Hr). split.
    + intros [[<- <-]|[Hk (e & He & Hek)]].
      * exists (new_entry key bucket would). split; [|done]. rewrite Hn, Hes. by apply list_lookup_middle.
      * exists e. split; [by apply lookup_app_l_Some|done].
    + intros (e & He & <-). apply lookup_app_Some in He as [He|[Hge He]].
      * right. split; [|by exists e]. intros Hk. by apply (Hnew slot e He).
      * apply list_lookup_singleton_Some in He as [Hs <-]. left. rewrite Hn, <- Hes. split; [done|]. lia.
Qed.
Lemma ring_record_evict key bucket would :
  index s !! key = None → capacity s ≤ length (entries s) →
  ring_repr (record_key key bucket would s) (queue_record (capacity s) key bucket would q).
Proof.
  intros Hi Hge. unfold record_key, queue_record. rewrite Hi, ring_absent by done.
  destruct (Nat.ltb_spec (length (entries s)) (capacity s)) as [?|_]; [lia|].
  pose proof (ring_next s q Hr) as Hnext. pose proof (λ slot e, ring_new_key key slot e Hi) as Hnew.
  destruct (ring_slots s q Hr) as (fresh & old & Hes & Hn & Hq & Hfull).
  destruct (old) as [|ev old']. { rewrite app_nil_r in Hes. rewrite Hes in Hge. lia. }
  assert (entries s !! nextSlot s = Some ev) as Hev by (rewrite Hes, Hn; by apply list_lookup_middle).
  rewrite Hev. rewrite Hes, length_app in Hge. simpl in Hge.
  assert (length fresh + Datatypes.S (length old') = capacity s) as Hcap.
  { destruct Hfull as [Hc|?]; [|done]. rewrite Hes, length_app in Hc. done. }
  assert (<[nextSlot s:=new_entry key bucket would]> (entries s) = (fresh ++ new_entry key bucket would :: old')%list) as Hins.
  { rewrite Hes, Hn. rewrite insert_app_r_alt by lia. by rewrite Nat.sub_diag. }
  split; simpl; try apply Hr; [| | |by rewrite (ring_recorded s q Hr); lia].
  - rewrite Hq, Hins. simpl. rewrite newest_tail by (rewrite !length_app; simpl; lia).
    destruct old' as [|ev' old''].
    + exists [], (fresh ++ [new_entry key bucket would])%list. simpl in Hcap.
      rewrite Hn, Hcap, Nat.Div0.mod_same, app_nil_r, length_app. simpl. split_and!; auto.
    + exists (fresh ++ [new_entry key bucket would])%list, (ev' :: old'').
      simpl in *. rewrite Hn, Nat.mod_small, length_app, <- app_assoc by lia. simpl. split_and!; [done|done|by rewrite <- app_assoc|].
      left. rewrite length_app. simpl. lia.
  - apply Nat.mod_upper_bound. lia.
  - intros k slot. rewrite lookup_insert_Some, lookup_delete_Some, (ring_index s q Hr).
    destruct (decide (slot = nextSlot s)) as [->|Hslot].
    + rewrite list_lookup_insert_eq by (by eapply lookup_lt_Some). split.
      * intros [[<- _]|[Hk [Hk' (e & He & <-)]]]; [by eexists|]. congruence.
      * intros (e & ? & <-). simplify_eq. by left.
    + rewrite list_lookup_insert_ne by done. split; [intros [[_ <-]|(_ & _ & He)]; done|].
      intros (e & He & <-). right. split_and!; [intros Hk; by apply (Hnew slot e He)| |by exists e].
      intros Hk. apply Hslot. by eapply (unique_slot (entries s)); [apply ring_unique|..].
Qed.
Lemma ring_record key bucket would :
  ring_repr (record_key key bucket would s) (queue_record (capacity s) key bucket would q).
Proof.
  destruct (index s !! key) as [slot|] eqn:Hi.
  - destruct (ring_present key slot Hi) as (e & He & <-). unfold record_key, queue_record.
    rewrite Hi, (ring_find (ekey e) slot e) by done. by apply ring_update.
  - destruct (decide (length (entries s) < capacity s)); [by apply ring_record_room|apply ring_record_evict; [done|lia]].
Qed.
Lemma ring_label key slot e malicious :
  index s !! key = Some slot → entries s !! slot = Some e →
  let e' := marked malicious e in
  ring_repr (count_label e' (set_entries (<[slot := e']> (entries s)) s))
    (mkQueue (update_key key (marked malicious) (queued q))
       (taken q) (outcomes q ++ [(wouldPromote e, malicious)])%list).
Proof.
  intros Hi He e'. destruct (ring_present key slot Hi) as (a & Ha & <-). simplify_eq.
  pose proof (ring_update slot e (marked malicious) He
    ltac:(done)) as Hu.
  rewrite <- (alter_known (marked malicious) slot (entries s) e He) in Hu.
  destruct Hu; simpl in *.
  split; simpl; [done..| | | | |]; rewrite ?tally_app, ?length_app; simpl; rewrite ?ring_labelled0, ?ring_confirmed0, ?ring_false0, ?ring_promoted0; lia || done.
Qed.
Lemma ring_apply key label :
  ring_repr (apply_key key label s).1 (queue_apply key label q).1 ∧ (apply_key key label s).2 = (queue_apply key label q).2.
Proof.
  unfold apply_key, queue_apply. destruct (index s !! key) as [slot|] eqn:Hi; simpl; [|by rewrite ring_absent].
  destruct (ring_present key slot Hi) as (e & He & <-). rewrite He. simpl. rewrite (ring_find (ekey e) slot e) by done.
  destruct (labeled e); [done|]. unfold label_entry, label_of.
  repeat case_match; try done; simplify_eq; (split; [by apply ring_label|done]).
Qed.
End Ring.

(** Calls in the order the buffer takes them, and their replies. *)
Inductive FeedbackOp :=
  | OpRecord (eventID : string) (probability : float64) (would : bool)
  | OpApply (eventID label : string).
Definition backend_op {S} `{FeedbackBackend S} (call : FeedbackCall) (op : FeedbackOp) (s : S) : S * list (bool * string) :=
  match op with
  | OpRecord id p would => (backend_record call id p would s, [])
  | OpApply id label => let '(s, reply) := backend_apply call id label s in (s, [reply])
  end.
Fixpoint backend_run {S} `{FeedbackBackend S} (calls : list (FeedbackCall * FeedbackOp)) (s : S)
    : S * list (bool * string) :=
  match calls with
  | [] => (s, [])
  | (call, op) :: calls =>
      let '(s, now) := backend_op call op s in
      let '(s, later) := backend_run calls s in (s, (now ++ later)%list)
  end.
(** The same on the queue, under a way to name events. *)
Definition queue_op (capacity : nat) (name : string → string) (op : FeedbackOp) (q : EventQueue) : EventQueue * list (bool * string) :=
  match op with
  | OpRecord id p would =>
      (if String.eqb id "" then q else queue_record capacity (name id) (feedback_bucket p) would q, [])
  | OpApply id label =>
      let '(q, reply) := if String.eqb id "" then (q, (false, unknown_event)) else queue_apply (name id) label q in
      (q, [reply])
  end.
Fixpoint queue_run (capacity : nat) (name : string → string) (ops : list FeedbackOp) (q : EventQueue)
    : EventQueue * list (bool * string) :=
  match ops with
  | [] => (q, [])
  | op :: ops =>
      let '(q, now) := queue_op capacity name op q in
      let '(q, later) := queue_run capacity name ops q in (q, (now ++ later)%list)
  end.

Section RingRun.
Context `{Crypto}.

Lemma record_key_fixed key bucket would s :
  salt (record_key key bucket would s) = salt s ∧ capacity (record_key key bucket would s) = capacity s.
Proof. unfold record_key. repeat case_match; simplify_eq/=; done. Qed.
Lemma apply_key_fixed key label s :
  salt (apply_key key label s).1 = salt s ∧ capacity (apply_key key label s).1 = capacity s.
Proof. unfold apply_key. repeat case_match; simplify_eq/=; done. Qed.

Lemma ring_op call op s q :
  ring_repr s q →
  let r := backend_op call op s in let r' := queue_op (capacity s) (fingerprint s) op q in
  ring_repr r.1 r'.1 ∧ r.2 = r'.2 ∧ salt r.1 = salt s ∧ capacity r.1 = capacity s.
Proof.
  intros Hr. destruct op as [id p would|id label]; simpl.
  - unfold memory_record. destruct (String.eqb id ""); [done|].
    destruct (record_key_fixed (fingerprint s id) (feedback_bucket p) would s) as [-> ->].
    split_and!; [by apply ring_record|done..].
  - unfold memory_apply. destruct (String.eqb id ""); [done|].
    destruct (ring_apply s q Hr (fingerprint s id) label) as [Ha Hreply].
    destruct (apply_key_fixed (fingerprint s id) label s) as [Hs Hc].
    destruct (apply_key _ _ s), (queue_apply _ _ q). simpl in *. by subst.
Qed.
Lemma ring_run calls s q :
  ring_repr s q →
  let r := backend_run calls s in let r' := queue_run (capacity s) (fingerprint s) calls.*2 q in
  ring_repr r.1 r'.1 ∧ r.2 = r'.2 ∧ capacity r.1 = capacity s.
Proof.
  revert s q. induction calls as [|[call op] calls IH]; intros s q Hr; [done|].
  pose proof (ring_op call op s q Hr) as Hop. cbn [backend_run queue_run fmap list_fmap]. simpl fst in *. simpl snd in *.
  destruct (backend_op call op s) as [s1 now], (queue_op _ _ op q) as [q1 now']. simpl in Hop.
  destruct Hop as (Hr1 & -> & Hs & Hc). specialize (IH s1 q1 Hr1).
  replace (fingerprint s1) with (fingerprint s) in IH by (unfold fingerprint; by rewrite Hs). rewrite Hc in IH.
  cbn zeta in IH. destruct (backend_run calls s1) as [s2 later], (queue_run _ _ _ q1) as [q2 later']. simpl in *.
  destruct IH as (? & -> & ?). done.
Qed.
Lemma ring_start random cap : ring_repr (newURLFeedbackStore random cap) (mkQueue [] 0 []).
Proof.
  split; simpl; try done.
  - by exists [], []; auto.
  - destruct (Z.leb_spec cap 0); [|lia]. unfold default_capacity. lia.
  - intros key slot. rewrite lookup_empty. split; [done|]. by intros (e & ? & _).
Qed.
End RingRun.

(** *** What the queue keeps *)

Definition waiting (es : list urlFeedbackEntry) : nat := length (List.filter (λ e, negb (labeled e)) es).
Lemma waiting_cons e es : waiting (e :: es) = (if labeled e then 0 else 1) + waiting es.
Proof. unfold waiting. simpl. by destruct (labeled e). Qed.
Lemma waiting_app es es' : waiting (es ++ es') = waiting es + waiting es'.
Proof. unfold waiting. by rewrite List.filter_app, length_app. Qed.
Lemma update_key_cons key f e es :
  update_key key f (e :: es) = (if has_key key e then f e else e) :: update_key key f es.
Proof. done. Qed.
Lemma waiting_update key f es :
  (∀ e, labeled (f e) = labeled e) → waiting (update_key key f es) = waiting es.
Proof.
  intros Hf. induction es as [|e es IH]; [done|]. rewrite update_key_cons, !waiting_cons, IH.
  by destruct (has_key key e); rewrite ?Hf.
Qed.
Lemma waiting_marked_le key m es : waiting (update_key key (marked m) es) ≤ waiting es.
Proof.
  induction es as [|e es IH]; [done|]. rewrite update_key_cons, !waiting_cons.
  destruct (has_key key e); simpl; destruct (labeled e); lia.
Qed.
Lemma waiting_marked key m es e :
  find_key key es = Some e → labeled e = false → waiting (update_key key (marked m) es) < waiting es.
Proof.
  unfold find_key. intros Hf Hl. induction es as [|a es IH]; [done|]. simpl in Hf.
  pose proof (waiting_marked_le key m es) as Hle. rewrite update_key_cons, !waiting_cons.
  destruct (has_key key a); [simplify_eq; rewrite Hl; simpl; lia|]. specialize (IH Hf). lia.
Qed.
Lemma waiting_drop n es : waiting (drop n es) ≤ waiting es.
Proof. rewrite <- (take_drop n es) at 2. rewrite waiting_app. lia. Qed.

Record queue_ok (capacity : nat) (q : EventQueue) : Prop := {
  queue_length : length (queued q) = Nat.min (taken q) capacity;
  queue_labels : length (outcomes q) + waiting (queued q) ≤ taken q
}.
Lemma queue_record_ok c key bucket would q : queue_ok c q → queue_ok c (queue_record c key bucket would q).
Proof.
  intros [Hlen Hlab]. unfold queue_record. destruct (find_key _ _).
  - split; simpl; unfold update_key; rewrite ?length_fmap; [done|]. fold (update_key key (refresh_entry bucket would) (queued q)).
    by rewrite waiting_update.
  - split; cbn [queued taken outcomes].
    + unfold newest. rewrite length_drop, !length_app. cbn [length]. destruct c; lia.
    + unfold newest. etrans; [apply Nat.add_le_mono_l, waiting_drop|].
      rewrite waiting_app, waiting_cons. cbn [labeled new_entry]. unfold waiting at 2. cbn. lia.
Qed.
Lemma queue_apply_ok c key label q : queue_ok c q → queue_ok c (queue_apply key label q).1.
Proof.
  intros [Hlen Hlab]. unfold queue_apply. destruct (find_key _ _) as [e|] eqn:He; [|done].
  destruct (labeled e) eqn:Hl; [done|]. destruct (label_of label) as [m|]; [|done].
  pose proof (waiting_marked key m (queued q) e He Hl).
  split; simpl; [unfold update_key; by rewrite length_fmap|]. rewrite length_app. simpl. lia.
Qed.
Lemma queue_run_ok c name ops q : queue_ok c q → queue_ok c (queue_run c name ops q).1.
Proof.
  revert q. induction ops as [|op ops IH]; intros q Hq; [done|]. cbn [queue_run].
  assert (queue_ok c (queue_op c name op q).1) as Hop.
  { destruct op as [id p would|id label]; simpl.
    - destruct (String.eqb id ""); [done|]. by apply queue_record_ok.
    - destruct (String.eqb id ""); [done|]. pose proof (queue_apply_ok c (name id) label q Hq) as Ha.
      by destruct (queue_apply _ _ q). }
  destruct (queue_op c name op q) as [q1 now]. simpl in Hop. specialize (IH q1 Hop).
  by destruct (queue_run c name ops q1).
Qed.

Lemma tally_cons {A} (f : A → bool) a l : tally f (a :: l) = (b2z (f a) + tally f l)%Z.
Proof. unfold tally. cbn [List.filter]. destruct (f a); cbn [length b2z]; lia. Qed.
Lemma tally_sub {A} (f g : A → bool) l : (∀ a, f a = true → g a = true) → (tally f l <= tally g l)%Z.
Proof.
  intros Hfg. induction l as [|a l IH]; [done|]. rewrite !tally_cons. pose proof (Hfg a).
  destruct (f a), (g a); cbn [b2z]; try lia; naive_solver.
Qed.
Lemma tally_split {A} (f g : A → bool) l : (tally f l + tally (λ a, g a && negb (f a)) l <= Z.of_nat (length l))%Z.
Proof.
  induction l as [|a l IH]; [done|]. rewrite !tally_cons. cbn [length]. destruct (f a), (g a); cbn [negb andb b2z] in *; lia.
Qed.
Lemma tally_length {A} (f : A → bool) l : (0 <= tally f l <= Z.of_nat (length l))%Z.
Proof. induction l as [|a l IH]; [done|]. rewrite !tally_cons. cbn [length]. destruct (f a); cbn [b2z]; lia. Qed.

(** [urlFeedbackStore], over any calls from its creation: the ring buffer is a first-in
    first-out queue of the last [capacity] observations, at most one of an event.  It gives
    every reply the queue gives: a label is accepted for a retained observation once, and
    turned away as unknown, repeated or meaningless otherwise; observing an event again
    changes its bucket and action, never its place or its label.  Its status is the count
    of what was taken in and of the labels accepted, each with the action the
    observation had then; so the false positives are among the labelled promotions, and the
    labels among the observations. *)
Theorem ring_refines `{Crypto} random cap calls :
  let s0 := newURLFeedbackStore random cap in
  let r := backend_run calls s0 in
  let r' := queue_run (capacity s0) (fingerprint s0) calls.*2 (mkQueue [] 0 []) in
  r.2 = r'.2 ∧ memory_status r.1 = queue_status (capacity s0) r'.1
  ∧ length (queued r'.1) = Nat.min (taken r'.1) (capacity s0) ∧ NoDup (ekey <$> queued r'.1)
  ∧ let status := memory_status r.1 in
    (0 <= ReportedBenignFalsePositive status <= WouldPromoteLabelled status)%Z
    ∧ (WouldPromoteLabelled status <= LabelledEvents status <= RecordedEvents status)%Z
    ∧ (ConfirmedMalicious status + ReportedBenignFalsePositive status <= LabelledEvents status)%Z.
Proof.
  intros s0 r r'. destruct (ring_run calls s0 _ (ring_start random cap)) as (Hr & Hreplies & Hcap).
  fold r in Hr, Hreplies, Hcap. fold r' in Hr, Hreplies.
  assert (queue_ok (capacity s0) r'.1) as [Hlen Hlab] by by apply queue_run_ok.
  assert (memory_status r.1 = queue_status (capacity s0) r'.1) as Hst.
  { unfold memory_status, queue_status. by rewrite Hcap, !(ring_recorded _ _ Hr), !(ring_labelled _ _ Hr),
      !(ring_confirmed _ _ Hr), !(ring_false _ _ Hr), !(ring_promoted _ _ Hr). }
  split_and!; [done|done|done|by eapply queue_unique|]. cbn zeta. rewrite Hst. simpl.
  pose proof (tally_sub (λ o, o.1 && negb o.2) fst (outcomes r'.1) ltac:(by intros [[] []])).
  pose proof (tally_split snd fst (outcomes r'.1)).
  pose proof (tally_length fst (outcomes r'.1)). pose proof (tally_length (λ o, o.1 && negb o.2) (outcomes r'.1)).
  lia.
Qed.
