(* ===== verification/URLTableSpec.v ===== *)
(** * Theorems about the durable feedback of [URLFeedback]: retention, labels, and the
    agreement of the two backends *)

From Stdlib Require Import ZArith Lia Ascii String SpecFloat OrdersEx Sorting.Sorted.
From stdpp Require Import sorting.
From S2P Require Import Prelude GoStr Hostname NetIP GoFloat Groups GroupsSpec Feed DomainML Session URLFeedback URLFeedbackSpec.

(** ** The order of texts *)

Lemma compare_order a b : String.compare a b = String_as_OT.compare a b.
Proof. revert b. induction a as [|c a IH]; intros [|d b]; simpl; done || by rewrite IH. Qed.
Lemma ltb_lt a b : String.ltb a b = true ↔ String_as_OT.lt a b.
Proof. unfold String.ltb, String_as_OT.lt. rewrite compare_order. destruct (String_as_OT.compare a b); split; congruence. Qed.
Lemma ltb_irrefl a : String.ltb a a = false.
Proof.
  destruct (String.ltb a a) eqn:Ha; [|done]. apply ltb_lt in Ha. destruct String_as_OT.lt_strorder as [Hirr _].
  by destruct (Hirr a).
Qed.
Lemma ltb_ge a b : String.ltb b a = false ↔ a = b ∨ String.ltb a b = true.
Proof.
  split.
  - unfold String.ltb. rewrite (String.compare_antisym b a). pose proof (String.compare_eq_iff a b).
    destruct (String.compare a b); simpl; auto.
  - intros [->|Hab]; [apply ltb_irrefl|]. destruct (String.ltb b a) eqn:Hba; [|done].
    rewrite <- (ltb_irrefl a). symmetry. apply ltb_lt. apply ltb_lt in Hab, Hba.
    destruct String_as_OT.lt_strorder as [_ Ht]. by apply (Ht a b a).
Qed.
Lemma ltb_trans a b c : String.ltb a b = true → String.ltb b c = true → String.ltb a c = true.
Proof. rewrite !ltb_lt. destruct String_as_OT.lt_strorder as [_ Ht]. apply Ht. Qed.
Definition recorded_less (a b : string * URLFeedbackRow) : bool := String.ltb (RecordedAt a.2) (RecordedAt b.2).
#[local] Instance recorded_trans : Transitive (λ a b, recorded_less b a = false).
Proof.
  intros a b c. unfold recorded_less. rewrite !ltb_ge. intros [->|H1]; [done|]. intros [<-|H2]; [by right|].
  right. by eapply ltb_trans.
Qed.
#[local] Instance recorded_total : Total (λ a b, recorded_less b a = false).
Proof.
  intros a b. unfold recorded_less. destruct (String.ltb (RecordedAt b.2) (RecordedAt a.2)) eqn:Hb; [right|by left].
  apply ltb_ge. by right.
Qed.

(** Texts of one length decide alone. *)
Lemma ltb_app a b x y : String.length a = String.length b → String.ltb a b = true → String.ltb (a ++ x) (b ++ y) = true.
Proof.
  unfold String.ltb. revert b. induction a as [|c a IH]; intros [|d b]; try done. simpl. intros [= Hl].
  destruct (Ascii.compare c d) eqn:Hc; [|done..]. by apply IH.
Qed.

(** ** Retention *)

(** Texts of whole seconds have one length and are in the order of the seconds, for the
    seconds of the years the format writes with four digits. *)
Class CivilLaws `{CivilTime} := {
  civil_order a b : (0 <= a < b)%Z → (b < 253402300800)%Z →
    String.length (civil_text a) = String.length (civil_text b) ∧ String.ltb (civil_text a) (civil_text b) = true
}.
(** The order of the texts is that of the times, up to one second. *)
Lemma time_text_order `{CivilLaws} a b :
  (0 <= a)%Z → (a / second_ns < b / second_ns)%Z → (b / second_ns < 253402300800)%Z →
  String.ltb (time_text a) (time_text b) = true.
Proof.
  intros Ha Hab Hb. destruct (civil_order (a / second_ns) (b / second_ns)) as [Hl Ho]; [|done|].
  - split; [apply Z.div_pos; unfold second_ns; lia|done].
  - unfold time_text. by apply ltb_app.
Qed.
(** Not within one: half a second past is before the second itself. *)
Example texts_out_of_order `{CivilTime} :
  String.length (civil_text 1) = 19 → String.ltb (time_text 1500000000) (time_text 1000000000) = true.
Proof.
  intros Hl. unfold time_text. change (1500000000 / second_ns)%Z with 1%Z. change (1000000000 / second_ns)%Z with 1%Z.
  change (fraction_text (1500000000 mod second_ns)) with ".5". change (fraction_text (1000000000 mod second_ns)) with "".
  clear Hl. unfold String.ltb. induction (civil_text 1) as [|c s IH]; [done|]. simpl.
  assert (Ascii.compare c c = Eq) as -> by (unfold Ascii.compare; apply N.compare_refl). apply IH.
Qed.

Lemma delete_all_lookup (ks : list string) (t : Rows) fp row :
  foldl (λ t fp, delete fp t) t ks !! fp = Some row ↔ t !! fp = Some row ∧ fp ∉ ks.
Proof.
  unfold Rows in *. revert t. induction ks as [|k ks IH]; intros t; simpl.
  - split; [intros ->; split; [done|]|naive_solver]. apply not_elem_of_nil.
  - rewrite IH, lookup_delete_Some, not_elem_of_cons. naive_solver.
Qed.
Lemma delete_all_size (ks : list string) (t : Rows) :
  NoDup ks → (∀ k, k ∈ ks → is_Some (t !! k)) → size (foldl (λ t fp, delete fp t) t ks) = size t - length ks.
Proof.
  unfold Rows in *. revert t. induction ks as [|k ks IH]; intros t Hnd Hin; simpl; [lia|].
  apply NoDup_cons in Hnd as [Hk Hnd]. rewrite IH; [| done |].
  - rewrite map_size_delete. destruct (Hin k) as [r ->]; [apply list_elem_of_here|]. simpl. lia.
  - intros k' Hk'. rewrite lookup_delete_ne; [apply Hin; by apply list_elem_of_further|]. by intros ->.
Qed.

Section Retention.
Context `{SortSlice}.

Lemma oldest_nodup (t : Rows) : NoDup (oldest_first t).
Proof. unfold oldest_first. rewrite sort_slice_perm. apply NoDup_fst_map_to_list. Qed.
Lemma oldest_elem (t : Rows) fp : fp ∈ oldest_first t ↔ is_Some (t !! fp).
Proof.
  unfold oldest_first. rewrite sort_slice_perm, list_elem_of_fmap. split.
  - intros ([k r] & -> & Hin). apply elem_of_map_to_list in Hin. by exists r.
  - intros [r Hr]. exists (fp, r). split; [done|]. by apply elem_of_map_to_list.
Qed.
Lemma sorted_split {A} (R : A → A → Prop) (l : list A) n a b :
  StronglySorted R l → a ∈ take n l → b ∈ drop n l → R a b.
Proof.
  intros Hs. rewrite <- (take_drop n l) in Hs. intros Ha Hb. by eapply StronglySorted_app_1_elem_of.
Qed.
(** What goes is not younger than what stays. *)
Lemma excess_oldest (t : Rows) n fp row fp' row' :
  t !! fp = Some row → fp ∈ take n (oldest_first t) → t !! fp' = Some row' → fp' ∉ take n (oldest_first t) →
  String.ltb (RecordedAt row') (RecordedAt row) = false.
Proof.
  intros Hr Hin Hr' Hout.
  assert (fp' ∈ drop n (oldest_first t)) as Hin'.
  { assert (fp' ∈ oldest_first t) as He by (apply oldest_elem; by eexists).
    rewrite <- (take_drop n (oldest_first t)), elem_of_app in He. by destruct He. }
  change (oldest_first t) with (fst <$> sort_slice recorded_less (map_to_list t)) in *. rewrite <- fmap_take in Hin. rewrite <- fmap_drop in Hin'.
  apply list_elem_of_fmap in Hin as ([k r] & -> & Hin), Hin' as ([k' r'] & -> & Hin'). simpl in *.
  pose proof (take_drop n (sort_slice recorded_less (map_to_list t))) as Hsplit.
  assert (∀ p, p ∈ sort_slice recorded_less (map_to_list t) → t !! p.1 = Some p.2) as Hall.
  { intros p Hp. apply elem_of_map_to_list'. by rewrite sort_slice_perm in Hp. }
  pose proof (Hall (k, r)) as Hk. pose proof (Hall (k', r')) as Hk'. rewrite <- Hsplit, !elem_of_app in Hk, Hk'.
  specialize (Hk (or_introl Hin)). specialize (Hk' (or_intror Hin')). simpl in Hk, Hk'.
  simplify_eq. pose proof (sort_slice_sorted recorded_less (map_to_list t) recorded_trans recorded_total) as Hs.
  exact (sorted_split _ _ n _ _ Hs Hin Hin').
Qed.
Lemma excess_size (t : Rows) n : n ≤ size t → size (foldl (λ t fp, delete fp t) t (take n (oldest_first t))) = size t - n.
Proof.
  intros Hn. rewrite delete_all_size.
  - rewrite length_take. enough (length (oldest_first t) = size t) by lia.
    unfold oldest_first. rewrite length_fmap, sort_slice_perm. apply length_map_to_list.
  - eapply sublist_NoDup; [apply oldest_nodup|]. apply sublist_take.
  - intros k Hk. apply oldest_elem. rewrite <- (take_drop n (oldest_first t)), elem_of_app. by left.
Qed.
End Retention.

(** No statement fails. *)
Definition quiet : FeedbackIO := mkFeedbackIO None None None.

Section Prune.
Context `{CivilTime, SortSlice}.

Lemma expire_lookup cutoff (t : Rows) fp row :
  (prune_expire quiet cutoff t).1 !! fp = Some row ↔ t !! fp = Some row ∧ String.ltb (RecordedAt row) cutoff = false.
Proof. unfold Rows in *. simpl. by rewrite map_lookup_filter_Some. Qed.
(** The rows of a pruned table. *)
Definition pruned (cutoff : string) (maxRows : Z) (t : Rows) : Rows := (PruneURLFeedback true (λ _, quiet) cutoff maxRows t).1.
Lemma pruned_cases cutoff maxRows t :
  (0 < maxRows)%Z →
  let t1 := (prune_expire quiet cutoff t).1 in let over := (Z.of_nat (size t1) - maxRows)%Z in
  PruneURLFeedback true (λ _, quiet) cutoff maxRows t
  = ((if (0 <? over)%Z then foldl (λ t fp, delete fp t) t1 (take (Z.to_nat over) (oldest_first t1)) else t1), None).
Proof.
  intros Hm. unfold PruneURLFeedback, prune_count, prune_excess, prune_expire. cbn [negb exec_error query_error quiet fst].
  destruct (Z.ltb_spec 0 maxRows); [|lia]. by destruct (0 <? _)%Z.
Qed.
Lemma pruned_size cutoff maxRows t : (0 < maxRows)%Z → (Z.of_nat (size (pruned cutoff maxRows t)) <= maxRows)%Z.
Proof.
  intros Hm. unfold pruned. rewrite pruned_cases by done. cbn [fst]. destruct (Z.ltb_spec 0 (Z.of_nat (size (prune_expire quiet cutoff t).1) - maxRows)).
  - rewrite excess_size by lia. lia.
  - lia.
Qed.
Lemma pruned_kept cutoff maxRows t fp row :
  (0 < maxRows)%Z → pruned cutoff maxRows t !! fp = Some row →
  t !! fp = Some row ∧ String.ltb (RecordedAt row) cutoff = false.
Proof.
  intros Hm. unfold pruned. rewrite pruned_cases by done. cbn [fst]. rewrite <- expire_lookup.
  destruct (0 <? _)%Z; [|done]. rewrite delete_all_lookup. by intros [? _].
Qed.
Lemma pruned_gone cutoff maxRows t fp row :
  (0 < maxRows)%Z → t !! fp = Some row → pruned cutoff maxRows t !! fp = None →
  String.ltb (RecordedAt row) cutoff = true
  ∨ (Z.of_nat (size (pruned cutoff maxRows t)) = maxRows
     ∧ ∀ fp' row', pruned cutoff maxRows t !! fp' = Some row' → String.ltb (RecordedAt row') (RecordedAt row) = false).
Proof.
  intros Hm Hr Hgone. destruct (String.ltb (RecordedAt row) cutoff) eqn:Hc; [by left|]. right.
  assert ((prune_expire quiet cutoff t).1 !! fp = Some row) as Hrow by by rewrite expire_lookup.
  revert Hgone. unfold pruned. rewrite pruned_cases by done. cbn [fst].
  destruct (Z.ltb_spec 0 (Z.of_nat (size (prune_expire quiet cutoff t).1) - maxRows)); [|by rewrite Hrow].
  set (n := Z.to_nat _). intros Hgone. split; [rewrite excess_size by lia; lia|].
  intros fp' row' [Hr' Hout]%delete_all_lookup. eapply excess_oldest; [done| |done|done].
  destruct (decide (fp ∈ take n (oldest_first (prune_expire quiet cutoff t).1))) as [|Hn]; [done|].
  assert (foldl (λ t fp, delete fp t) (prune_expire quiet cutoff t).1
            (take n (oldest_first (prune_expire quiet cutoff t).1)) !! fp = Some row) by by rewrite delete_all_lookup.
  congruence.
Qed.
Lemma prune_rows now s :
  db_enabled s = true → (0 < maxRows s)%Z →
  prune (λ _, quiet) now s = set_rows (pruned (time_text (now - retention s)) (maxRows s) (rows s)) s.
Proof. intros He Hm. unfold prune, pruned. rewrite He, pruned_cases by done. done. Qed.
(** The statements of a prune in flight, nothing between them, are the prune. *)
Lemma prune_steps now s :
  db_enabled s = true → (0 < maxRows s)%Z →
  Nat.iter 3 (prune_step quiet) (set_job (Some (PruneExpire now)) s) = set_job None (prune (λ _, quiet) now s).
Proof.
  intros He Hm. rewrite prune_rows by done. unfold pruned. rewrite pruned_cases by done.
  destruct s; simpl in *; subst. unfold prune_step at 3. cbn -[Z.ltb prune_expire prune_count prune_excess].
  destruct (Z.ltb_spec 0 maxRows); [|lia]. unfold prune_step at 2. cbn -[Z.ltb prune_excess].
  destruct (0 <? _)%Z; unfold prune_step; cbn; done.
Qed.
End Prune.

(** ** Labels *)

Section Labels.
Context `{Crypto, CivilTime, SortSlice}.

(** Requests, the statements of a prune, and the closing of the service, in any order. *)
Inductive durable_step (s : durableURLFeedbackStore) : durableURLFeedbackStore → Prop :=
  | step_record call id p would : durable_step s (durable_record call id p would s)
  | step_apply call id label : durable_step s (durable_apply call id label s).1
  | step_prune io : durable_step s (prune_step io s)
  | step_close :
      durable_step s (mkDurable (db_enabled s) (rows s) (currentKey s) (previousKey s) (retention s) (maxRows s)
                        (lastPrune s) (startupPruned s) (persistenceErrors s) true (pruneInflight s)).

(** What a row keeps while it is there. *)
Definition row_le (r r' : URLFeedbackRow) : Prop :=
  Fingerprint r' = Fingerprint r ∧ RowKeyVersion r' = RowKeyVersion r ∧ RecordedAt r' = RecordedAt r
  ∧ (Labeled r = true → Labeled r' = true ∧ LabelMalicious r' = LabelMalicious r ∧ LabeledAt r' = LabeledAt r).
Definition row_ok (r : URLFeedbackRow) : Prop := Labeled r = false → LabelMalicious r = false ∧ LabeledAt r = "".
#[local] Instance row_le_preorder : PreOrder row_le.
Proof. split; [by intros r; split_and!|]. intros a b c (?&?&?&?) (?&?&?&?). split_and!; [congruence..|]. naive_solver congruence. Qed.

(** How the table may move: rows go, rows move on, new rows are unlabelled. *)
Definition rows_le (t t' : Rows) : Prop :=
  (∀ fp r r', t !! fp = Some r → t' !! fp = Some r' → row_le r r' ∧ (row_ok r → row_ok r'))
  ∧ (∀ fp r', t !! fp = None → t' !! fp = Some r' → Labeled r' = false ∧ row_ok r').
Lemma rows_le_sub (t t' : Rows) : t' ⊆ t → rows_le t t'.
Proof.
  unfold rows_le, Rows in *. intros Hsub. split; intros fp r.
  - intros r' Hr Hr'. pose proof (lookup_weaken _ _ _ _ Hr' Hsub). assert (r = r') as -> by congruence. by split.
  - intros Hn Hr. pose proof (lookup_weaken _ _ _ _ Hr Hsub). congruence.
Qed.
Lemma rows_le_refl t : rows_le t t.
Proof. by apply rows_le_sub. Qed.

Lemma upsert_le enabled io row t t' e :
  Labeled row = false → row_ok row → UpsertURLFeedback enabled io row t = (t', e) → rows_le t t'.
Proof.
  unfold UpsertURLFeedback, Rows in *. intros Hl Hok Hu.
  destruct enabled; simplify_eq/=; [|apply rows_le_refl]. destruct (exec_error io); simplify_eq; [apply rows_le_refl|].
  unfold rows_le, Rows in *. destruct (t !! Fingerprint row) as [old|] eqn:Ho.
  - split.
    + intros fp r r' Hr [[<- <-]|[Hne Hr']]%lookup_insert_Some; [|assert (r = r') as -> by congruence; by split].
      assert (r = old) as -> by congruence. split; [by split_and!|done].
    + intros fp r' Hr [[<- <-]|[Hne Hr']]%lookup_insert_Some; congruence.
  - split.
    + intros fp r r' Hr [[<- <-]|[Hne Hr']]%lookup_insert_Some; [congruence|assert (r = r') as -> by congruence; by split].
    + intros fp r' Hr [[<- <-]|[Hne Hr']]%lookup_insert_Some; [done|congruence].
Qed.
(** The label of one row, and what the reply says of it. *)
Definition labelled_row (malicious : bool) (now : string) (row : URLFeedbackRow) : URLFeedbackRow :=
  mkRow (Fingerprint row) (RowKeyVersion row) (ProbabilityBucket row) (RowWouldPromote row) true malicious (RecordedAt row) now.
Lemma label_cases enabled io now fp malicious t t' e :
  ApplyURLFeedbackLabel enabled io now fp malicious t = (t', e) →
  (∃ row, t !! fp = Some row ∧ Labeled row = false ∧ t' = <[fp := labelled_row malicious now row]> t
          ∧ e = match affected_error io with Some m => Some (Unavailable m) | None => None end)
  ∨ t' = t ∧ e ≠ None ∧ (e = Some AlreadyLabelled → ∃ row, t !! fp = Some row ∧ Labeled row = true)
    ∧ (e = Some NoRows → t !! fp = None).
Proof.
  unfold ApplyURLFeedbackLabel, Rows in *. intros Hu. destruct enabled; simplify_eq/=; [|by right].
  destruct (exec_error io); simplify_eq; [by right|].
  destruct (t !! fp) as [row|] eqn:Hr; [destruct (Labeled row) eqn:Hl|].
  - right. destruct (affected_error io), (query_error io); simplify_eq/=; try done; rewrite ?Hr, ?Hl in *; simplify_eq/=.
    all: split_and!; try done; by eexists.
  - left. exists row. destruct (affected_error io); simplify_eq/=; done.
  - right. destruct (affected_error io), (query_error io); simplify_eq/=; try done; rewrite ?Hr in *; simplify_eq/=; done.
Qed.
Lemma labelled_le t fp row malicious now :
  t !! fp = Some row → Labeled row = false → rows_le t (<[fp := labelled_row malicious now row]> t).
Proof.
  unfold rows_le, Rows in *. intros Hr Hl. split.
  - intros fp' r r' Hr1 [[<- <-]|[Hne Hr2]]%lookup_insert_Some; [|assert (r = r') as -> by congruence; by split].
    assert (r = row) as -> by congruence. split; [|done]. unfold row_le. by rewrite Hl.
  - intros fp' r' Hn [[<- <-]|[Hne Hr2]]%lookup_insert_Some; congruence.
Qed.
Lemma rows_maybePrune call s : rows (maybePrune call s) = rows s.
Proof. unfold maybePrune, backgroundPrune. by repeat case_match. Qed.
Lemma record_le call id p would s : rows_le (rows s) (rows (durable_record call id p would s)).
Proof.
  unfold durable_record. destruct (String.eqb id ""); [apply rows_le_refl|].
  destruct (UpsertURLFeedback _ _ _ _) as [t [e|]] eqn:Hu; [apply rows_le_refl|].
  rewrite rows_maybePrune. simpl. by eapply upsert_le in Hu.
Qed.
(** Of an accepted label, exactly one row is labelled; otherwise none, short of a store that
    fails after it has written. *)
Lemma apply_keys_rows call n id malicious keys s :
  let r := apply_keys call n id malicious keys s in
  (∃ fp row now, rows s !! fp = Some row ∧ Labeled row = false ∧ fp ∈ (key_fingerprint id <$> keys)
     ∧ rows r.1 = <[fp := labelled_row malicious now row]> (rows s) ∧ r.2 ∈ [(true, ""); (false, persistence_error)])
  ∨ rows r.1 = rows s ∧ r.2.1 = false.
Proof.
  revert n s. induction keys as [|key keys IH]; intros n s; simpl; [by right|].
  destruct (ApplyURLFeedbackLabel _ _ _ _ _ _) as [t e] eqn:Hl.
  apply label_cases in Hl as [(row & Hr & Hlab & -> & ->)|(-> & He & _)].
  - left. exists (key_fingerprint id key), row, (time_text (call_now call)).
    destruct (affected_error _); simpl; (split_and!; [done|done|apply list_elem_of_here|done|set_solver]).
  - destruct e as [[m| |]|]; [by right..| |done]. specialize (IH (Datatypes.S n) (set_rows (rows s) s)). simpl in IH.
    destruct IH as [(fp & row & now & ? & ? & Hin & Hrest)|?]; [left|by right].
    exists fp, row, now. split_and!; [done|done|by apply list_elem_of_further|apply Hrest..].
Qed.
Lemma apply_rows call id label s :
  let r := durable_apply call id label s in
  (∃ fp row now malicious, rows s !! fp = Some row ∧ Labeled row = false ∧ label_of label = Some malicious
     ∧ fp ∈ (key_fingerprint id <$> (currentKey s :: match previousKey s with Some key => [key] | None => [] end))
     ∧ rows r.1 = <[fp := labelled_row malicious now row]> (rows s) ∧ r.2 ∈ [(true, ""); (false, persistence_error)])
  ∨ rows r.1 = rows s ∧ r.2.1 = false.
Proof.
  unfold durable_apply. destruct (String.eqb id ""); [by right|]. destruct (label_of label) as [m|]; [|by right].
  destruct (apply_keys_rows call 0 id m (currentKey s :: match previousKey s with Some key => [key] | None => [] end) s)
    as [(fp & row & now & ? & ? & Hrest)|?]; [left|by right]. exists fp, row, now, m. split_and!; [done..|apply Hrest| |]; apply Hrest.
Qed.
Lemma apply_le call id label s : rows_le (rows s) (rows (durable_apply call id label s).1).
Proof.
  destruct (apply_rows call id label s) as [(fp & row & now & m & Hr & Hl & _ & _ & -> & _)|[-> _]];
    [by apply labelled_le|apply rows_le_refl].
Qed.
Lemma prune_step_le io s : rows_le (rows s) (rows (prune_step io s)).
Proof.
  apply rows_le_sub. unfold prune_step, prune_expire, prune_excess, prune_count, Rows in *.
  destruct (pruneInflight s) as [job|]; [|done]. destruct (negb (db_enabled s)); [done|].
  destruct job; destruct (exec_error io), (query_error io); try done; simpl; try apply map_filter_subseteq.
  all: apply map_subseteq_spec; intros fp r Hr; by apply delete_all_lookup in Hr as [? _].
Qed.
Lemma step_le s s' : durable_step s s' → rows_le (rows s) (rows s').
Proof.
  destruct 1; [apply record_le|apply apply_le|apply prune_step_le|apply rows_le_refl].
Qed.
Lemma run_rows_ok s s' :
  rtc durable_step s s' → map_Forall (λ _, row_ok) (rows s) → map_Forall (λ _, row_ok) (rows s').
Proof.
  induction 1 as [|s s1 s' [Hkeep Hnew]%step_le _ IH]; [done|]. intros Hok. apply IH. intros fp r' Hr'.
  destruct (rows s !! fp) as [r|] eqn:Hr; [|by apply (Hnew fp)]. apply (Hkeep fp r r' Hr Hr'). by apply (Hok fp).
Qed.
Lemma count_tally f (t : Rows) : count_rows f t = tally f (map_to_list t).*2.
Proof. done. Qed.
Lemma labels_retained s s' fp r :
  rtc durable_step s s' → rows s !! fp = Some r →
  (∃ r', rows s' !! fp = Some r' ∧ row_le r r')
  ∨ ∃ s1, rtc durable_step s s1 ∧ rtc durable_step s1 s' ∧ rows s1 !! fp = None.
Proof.
  intros Hrun. revert r. induction Hrun as [s|s s1 s' Hstep Hrun IH]; intros r Hr.
  { left. exists r. split; [done|]. reflexivity. }
  destruct (rows s1 !! fp) as [r1|] eqn:Hr1.
  - apply step_le in Hstep as Hle. destruct Hle as [Hkeep _]. destruct (Hkeep fp r r1 Hr Hr1) as [Hle _].
    destruct (IH r1 eq_refl) as [(r' & Hr' & Hle')|(s2 & H12 & H2 & Hn)]; [left|right].
    + exists r'. split; [done|]. by etrans.
    + exists s2. split_and!; [by eapply rtc_l|done|done].
  - right. exists s1. split_and!; [by apply rtc_once|done|done].
Qed.

(** The table of [durableURLFeedbackStore], over requests, statements of prunes and a
    closing service in any order and whatever fails: a row is labelled at most once.  Once
    labelled it keeps its label, the times of its observation and of its label and its
    key version until it is deleted, however often the event is observed or labelled
    again; an unlabelled row says neither a label nor a time of one.  A label that is
    accepted labels one row that had none, of the event under the current or the previous
    key, with what was asked for; one that is turned away changes no row, unless the store
    fails after it has written.  The counts of the status are in order. *)
Theorem labels_final s s' :
  rtc durable_step s s' → map_Forall (λ _, row_ok) (rows s) →
  map_Forall (λ _, row_ok) (rows s')
  ∧ (∀ fp r, rows s !! fp = Some r → Labeled r = true →
       (∃ r', rows s' !! fp = Some r' ∧ Labeled r' = true ∧ LabelMalicious r' = LabelMalicious r
              ∧ LabeledAt r' = LabeledAt r ∧ RecordedAt r' = RecordedAt r ∧ RowKeyVersion r' = RowKeyVersion r)
       ∨ ∃ s1, rtc durable_step s s1 ∧ rtc durable_step s1 s' ∧ rows s1 !! fp = None)
  ∧ (∀ call id label, let r := durable_apply call id label s' in
       (∃ fp row now malicious, rows s' !! fp = Some row ∧ Labeled row = false ∧ label_of label = Some malicious
          ∧ fp ∈ (key_fingerprint id <$>
                    (currentKey s' :: match previousKey s' with Some key => [key] | None => [] end))
          ∧ rows r.1 = <[fp := labelled_row malicious now row]> (rows s') ∧ r.2 ∈ [(true, ""); (false, persistence_error)])
       ∨ rows r.1 = rows s' ∧ r.2.1 = false)
  ∧ (∀ call, let status := durable_status call s' in
       (0 <= ReportedBenignFalsePositive status <= WouldPromoteLabelled status)%Z
       ∧ (WouldPromoteLabelled status <= LabelledEvents status <= RecordedEvents status)%Z
       ∧ (ConfirmedMalicious status + ReportedBenignFalsePositive status <= LabelledEvents status)%Z).
Proof.
  intros Hrun Hok. split_and!.
  - by eapply run_rows_ok.
  - intros fp r Hr Hl. destruct (labels_retained s s' fp r Hrun Hr) as [(r' & Hr' & _ & Hv & Ht & Hlab)|?]; [left|by right].
    exists r'. destruct (Hlab Hl) as (? & ? & ?). done.
  - intros call id label. apply apply_rows.
  - intros call. unfold durable_status, URLFeedbackStats_. destruct (db_enabled s'); [|done]. simpl.
    destruct (query_error (call_io call 0)); [done|]. cbn -[count_rows labelled_rate]. rewrite !count_tally.
    set (rs := (map_to_list (rows s')).*2). pose proof (tally_length (λ r, Labeled r && negb (LabelMalicious r) && RowWouldPromote r) rs).
    repeat split; try lia; try apply tally_sub; try (intros r; destruct (Labeled r), (LabelMalicious r), (RowWouldPromote r); done).
    clear. induction rs as [|r rs IH]; [done|]. rewrite !tally_cons.
    destruct (Labeled r), (LabelMalicious r), (RowWouldPromote r); cbn [negb andb b2z]; lia.
Qed.
End Labels.

(** ** What a prune leaves *)

Definition writable (t : Z) : Prop := (0 <= t < 253402300800 * second_ns)%Z.
Lemma time_text_le `{CivilLaws} a b :
  writable a → writable b → String.ltb (time_text b) (time_text a) = false → (a / second_ns <= b / second_ns)%Z.
Proof.
  unfold writable. intros Ha Hb Ho. apply Z.nlt_ge. intros Hlt. rewrite time_text_order in Ho; [done|lia|done|].
  apply Z.div_lt_upper_bound; unfold second_ns in *; lia.
Qed.

(** [prune] on the feedback table, when its statements succeed: at most [maxRows] rows
    are left, all of them rows there were and none recorded, to the second, before the cutoff
    [now - retention].  A row that goes was recorded before the cutoff, to the second, or else
    the table is left exactly full with no row recorded in an earlier second.  The prune a
    record hands to the background is this prune, when nothing runs between its statements. *)
Theorem prune_retains `{Crypto} `{CivilLaws} `{SortSlice} now s :
  db_enabled s = true → (0 < maxRows s)%Z → writable (now - retention s) →
  let s' := prune (λ _, quiet) now s in let cutoff := ((now - retention s) / second_ns)%Z in
  persistenceErrors s' = persistenceErrors s ∧ (Z.of_nat (size (rows s')) <= maxRows s)%Z ∧ rows s' ⊆ rows s
  ∧ (∀ fp row t, rows s' !! fp = Some row → RecordedAt row = time_text t → writable t → (cutoff <= t / second_ns)%Z)
  ∧ (∀ fp row t, rows s !! fp = Some row → rows s' !! fp = None → RecordedAt row = time_text t → writable t →
       (t / second_ns <= cutoff)%Z
       ∨ Z.of_nat (size (rows s')) = maxRows s
         ∧ ∀ fp' row' t', rows s' !! fp' = Some row' → RecordedAt row' = time_text t' → writable t' →
             (t / second_ns <= t' / second_ns)%Z)
  ∧ Nat.iter 3 (prune_step quiet) (set_job (Some (PruneExpire now)) s) = set_job None s'.
Proof.
  intros He Hm Hc s' cutoff. unfold s'. rewrite (prune_steps now s) by done. rewrite prune_rows by done. simpl.
  split_and!; [done|by apply pruned_size| | | |done].
  - apply map_subseteq_spec. intros fp row Hr. by apply pruned_kept in Hr as [? _].
  - intros fp row t Hr Ht Hw. apply pruned_kept in Hr as [_ Hcut]; [|done]. rewrite Ht in Hcut. by apply time_text_le.
  - intros fp row t Hr Hgone Ht Hw.
    destruct (pruned_gone _ _ _ _ _ Hm Hr Hgone) as [Hold|[Hfull Hyoung]]; [left|right].
    + apply time_text_le; [done..|]. rewrite Ht in Hold. apply ltb_ge. by right.
    + split; [done|]. intros fp' row' t' Hr' Ht' Hw'. specialize (Hyoung fp' row' Hr'). rewrite Ht, Ht' in Hyoung.
      by apply time_text_le.
Qed.

(** A record that is stored leaves a prune in flight or a recent one behind, unless the
    service or the caller is going; and the stamp moves only with a prune that starts. *)
Lemma record_schedules `{Crypto, CivilTime, SortSlice} call id p would s :
  id ≠ "" → db_enabled s = true → exec_error (call_io call 0) = None →
  let s' := durable_record call id p would s in
  (shut s = false → call_gone call = false →
     is_Some (pruneInflight s') ∨ startupPruned s' = true ∧ (call_now call - lastPrune s' < urlFeedbackPruneInterval)%Z)
  ∧ ((lastPrune s', startupPruned s') = (lastPrune s, startupPruned s)
     ∨ pruneInflight s = None ∧ pruneInflight s' = Some (PruneExpire (call_now call)) ∧ lastPrune s' = call_now call).
Proof.
  intros Hid He Hio. unfold durable_record, UpsertURLFeedback. apply String.eqb_neq in Hid. rewrite Hid, He, Hio. simpl.
  unfold maybePrune, backgroundPrune. simpl.
  destruct (startupPruned s) eqn:Hst, (Z.leb_spec urlFeedbackPruneInterval (call_now call - lastPrune s)); simpl;
    destruct (shut s) eqn:Hsh, (call_gone call) eqn:Hg, (pruneInflight s) eqn:Hp; simpl; rewrite ?Hp, ?Hst; split; intros; try done; eauto.
Qed.

(** ** The two backends agree *)

(** What both stand for while nothing is evicted or pruned: the events in the order of their
    first observation, each with its row. *)
Definition Ledger : Type := list (string * URLFeedbackRow).
Definition entry_of (name : string → string) (p : string * URLFeedbackRow) : urlFeedbackEntry :=
  mkEntry (name p.1) (ProbabilityBucket p.2) (RowWouldPromote p.2) (Labeled p.2) (LabelMalicious p.2).
Definition is_event (e : string) (p : string * URLFeedbackRow) : bool := String.eqb p.1 e.
Definition event_row (e : string) (l : Ledger) : option URLFeedbackRow := snd <$> List.find (is_event e) l.
Definition update_event (e : string) (f : URLFeedbackRow → URLFeedbackRow) (l : Ledger) : Ledger :=
  (λ p, if is_event e p then (p.1, f p.2) else p) <$> l.
Definition named (name : string → string) (l : Ledger) : list (string * URLFeedbackRow) := (λ p, (name p.1, p.2)) <$> l.

Section Ledger.
Context (E : list string) (name : string → string).
Definition distinct : Prop := ∀ e e', e ∈ E → e' ∈ E → name e = name e' → e = e'.
Context (Hname : distinct).

Lemma name_eqb e e' : e ∈ E → e' ∈ E → String.eqb (name e) (name e') = String.eqb e e'.
Proof.
  intros He He'. destruct (String.eqb_spec e e') as [->|Hne]; [apply String.eqb_refl|].
  apply String.eqb_neq. by intros Hn%Hname.
Qed.
Lemma ledger_find e l :
  e ∈ E → (∀ p, p ∈ l → p.1 ∈ E) → find_key (name e) (entry_of name <$> l) = entry_of name <$> List.find (is_event e) l.
Proof.
  intros He. induction l as [|p l IH]; intros Hl; [done|]. unfold find_key in *. simpl. unfold has_key, is_event at 1. simpl.
  rewrite name_eqb by (done || apply Hl, list_elem_of_here). destruct (String.eqb p.1 e); [done|].
  apply IH. intros p' Hp'. by apply Hl, list_elem_of_further.
Qed.
Lemma ledger_update e f g l :
  e ∈ E → (∀ p, p ∈ l → p.1 ∈ E) → (∀ p, entry_of name (p.1, f p.2) = g (entry_of name p)) →
  update_key (name e) g (entry_of name <$> l) = entry_of name <$> update_event e f l.
Proof.
  intros He Hl Hfg. unfold update_key, update_event. rewrite <- !list_fmap_compose. apply list_fmap_ext.
  intros i p Hp%list_elem_of_lookup_2. simpl. unfold has_key. simpl. unfold is_event.
  rewrite name_eqb by (done || by apply Hl). by destruct (String.eqb p.1 e).
Qed.
Lemma ledger_lookup e l :
  e ∈ E → (∀ p, p ∈ l → p.1 ∈ E) → (list_to_map (named name l) : Rows) !! name e = event_row e l.
Proof.
  unfold Rows, event_row. intros He. induction l as [|p l IH]; intros Hl; [done|]. simpl.
  unfold is_event at 1. destruct (String.eqb_spec p.1 e) as [Hp|Hne].
  - by rewrite Hp, lookup_insert_eq.
  - rewrite lookup_insert_ne.
    + apply IH. intros p' Hp'. by apply Hl, list_elem_of_further.
    + intros Hn%Hname; [done|apply Hl, list_elem_of_here|done].
Qed.
Lemma ledger_nodup (l : Ledger) : (∀ p, p ∈ l → p.1 ∈ E) → NoDup l.*1 → NoDup (named name l).*1.
Proof.
  intros Hl. induction l as [|p l IH]; intros Hnd; [apply NoDup_nil_2|]. apply NoDup_cons in Hnd as [Hp Hnd].
  apply NoDup_cons. split.
  - intros ([n r] & Hn & ([e r'] & [= -> ->] & Hin)%list_elem_of_fmap)%list_elem_of_fmap. simpl in Hn. apply Hp.
    apply Hname in Hn as ->; [by apply (list_elem_of_fmap_2 fst l (e, r'))|apply Hl, list_elem_of_here|].
    by apply (Hl (e, r')), list_elem_of_further.
  - apply IH; [|done]. intros p' Hp'. by apply Hl, list_elem_of_further.
Qed.
Lemma ledger_insert e f l :
  e ∈ E → (∀ p, p ∈ l → p.1 ∈ E) → NoDup l.*1 →
  (list_to_map (named name (update_event e f l)) : Rows)
  = match event_row e l with
    | Some row => <[name e := f row]> (list_to_map (named name l))
    | None => list_to_map (named name l)
    end.
Proof.
  unfold Rows, event_row. intros He. induction l as [|p l IH]; intros Hl Hnd; [done|].
  apply NoDup_cons in Hnd as [Hp Hnd]. specialize (IH (λ p' Hp', Hl p' (list_elem_of_further _ _ _ Hp')) Hnd).
  simpl. destruct (is_event e p) eqn:Hev; [apply String.eqb_eq in Hev as <-|apply String.eqb_neq in Hev as Hne]; simpl.
  - rewrite insert_insert_eq. f_equal. f_equal. unfold named. f_equal. unfold update_event.
    rewrite <- (list_fmap_id l) at 2. apply list_fmap_ext. intros i q Hq%list_elem_of_lookup_2. unfold is_event.
    destruct (String.eqb_spec q.1 p.1) as [Hq'|]; [|done]. destruct Hp. rewrite <- Hq'. by apply list_elem_of_fmap_2.
  - rewrite IH. destruct (List.find _ l) as [p'|]; [|done]. simpl. apply insert_insert_ne.
    intros Hn%Hname; [done|apply Hl, list_elem_of_here|done].
Qed.
End Ledger.

Definition count_events (g : URLFeedbackRow → bool) (l : Ledger) : Z := tally (λ p, g p.2) l.
Lemma event_row_cons e p l : event_row e (p :: l) = if is_event e p then Some p.2 else event_row e l.
Proof. unfold event_row. simpl. by destruct (is_event e p). Qed.
Lemma event_row_none e l : event_row e l = None ↔ e ∉ l.*1.
Proof.
  induction l as [|p l IH]; [split; [intros _; apply not_elem_of_nil|done]|].
  rewrite event_row_cons. simpl. rewrite not_elem_of_cons, <- IH. unfold is_event.
  destruct (String.eqb_spec p.1 e); [split; [done|intros [? _]; congruence]|]. split; [intros ?; split; [congruence|done]|by intros [_ ?]].
Qed.
Lemma update_absent e f l : e ∉ l.*1 → update_event e f l = l.
Proof.
  intros He. unfold update_event. rewrite <- (list_fmap_id l) at 2. apply list_fmap_ext.
  intros i q Hq%list_elem_of_lookup_2. unfold is_event. destruct (String.eqb_spec q.1 e) as [<-|]; [|done].
  destruct He. by apply list_elem_of_fmap_2.
Qed.
Lemma update_events e f l : (update_event e f l).*1 = l.*1.
Proof. unfold update_event. rewrite <- list_fmap_compose. apply list_fmap_ext. intros i p _. simpl. by destruct (is_event e p). Qed.
Lemma count_update g e f l row :
  NoDup l.*1 → event_row e l = Some row →
  count_events g (update_event e f l) = (count_events g l - b2z (g row) + b2z (g (f row)))%Z.
Proof.
  unfold count_events. induction l as [|p l IH]; [done|]. intros [Hp Hnd]%NoDup_cons. rewrite event_row_cons.
  change (update_event e f (p :: l)) with ((if is_event e p then (p.1, f p.2) else p) :: update_event e f l).
  rewrite !tally_cons. destruct (is_event e p) eqn:Hev.
  - intros [= <-]. apply String.eqb_eq in Hev as <-. rewrite update_absent by done. simpl. lia.
  - intros Hr. rewrite (IH Hnd Hr). lia.
Qed.
Lemma count_snoc g l p : count_events g (l ++ [p])%list = (count_events g l + b2z (g p.2))%Z.
Proof. apply (tally_app (λ p, g p.2)). Qed.
Lemma tally_perm {A} (f : A → bool) l l' : l ≡ₚ l' → tally f l = tally f l'.
Proof. induction 1; rewrite ?tally_cons; lia. Qed.
Lemma tally_fmap {A B} (f : B → bool) (g : A → B) l : tally f (g <$> l) = tally (λ a, f (g a)) l.
Proof. induction l as [|a l IH]; [done|]. rewrite fmap_cons, !tally_cons. by rewrite IH. Qed.
Lemma count_named name g l :
  NoDup (named name l).*1 → count_rows g (list_to_map (named name l)) = count_events g l.
Proof.
  intros Hnd. rewrite count_tally, tally_fmap.
  etrans; [apply tally_perm, (map_to_list_to_map (M := gmap string)); done|].
  unfold named. by rewrite tally_fmap.
Qed.

Section Agreement.
Context `{UnicodeTables, Crypto, CivilTime, SortSlice} (E : list string) (nm nd : string → string).

Record agree (l : Ledger) (m : urlFeedbackStore) (d : durableURLFeedbackStore) : Prop := {
  agree_events p : p ∈ l → p.1 ∈ E;
  agree_nodup : NoDup l.*1;
  agree_queue : ∃ q, ring_repr m q ∧ queued q = entry_of nm <$> l ∧ taken q = length l
    ∧ Z.of_nat (length (outcomes q)) = count_events Labeled l
    ∧ tally snd (outcomes q) = count_events (λ r, Labeled r && LabelMalicious r) l;
  agree_rows : rows d = list_to_map (named nd l);
  agree_enabled : db_enabled d = true;
  agree_errors : persistenceErrors d = 0%Z;
  agree_memory e : fingerprint m e = nm e;
  agree_durable e : key_fingerprint e (currentKey d) = nd e;
  agree_previous : match previousKey d with
                   | Some key => ∀ e e', e ∈ E → e' ∈ E → key_fingerprint e key ≠ nd e'
                   | None => True
                   end;
  agree_room : length E ≤ capacity m
}.
Context (Hnm : distinct E nm) (Hnd : distinct E nd).

Lemma agree_length l m d e : agree l m d → e ∈ E → e ∉ l.*1 → length l < capacity m.
Proof.
  intros Ha He Hl. pose proof (agree_room l m d Ha). enough (length (e :: l.*1) ≤ length E) as Hle.
  { simpl in Hle. rewrite length_fmap in Hle. lia. }
  apply submseteq_length, NoDup_submseteq.
  - apply NoDup_cons. split; [done|]. by apply (agree_nodup l m d).
  - intros x [->|Hx]%elem_of_cons; [done|]. apply list_elem_of_fmap in Hx as (p & -> & Hp). by apply (agree_events l m d).
Qed.

(** An observation. *)
Definition seen_row (call : FeedbackCall) (e : string) (p : float64) (would : bool) (version : Z) : URLFeedbackRow :=
  mkRow (nd e) version (feedback_bucket p) would false false (time_text (call_now call)) "".
Definition seen_again (p : float64) (would : bool) (name : string) (r : URLFeedbackRow) : URLFeedbackRow :=
  mkRow (Fingerprint r) (RowKeyVersion r) (feedback_bucket p) would (Labeled r) (LabelMalicious r) (RecordedAt r) (LabeledAt r).
Lemma agree_maybePrune l m call d : agree l m d → agree l m (maybePrune call d).
Proof.
  intros []. unfold maybePrune, backgroundPrune. destruct (negb (startupPruned d) || _), (shut d || call_gone call), (pruneInflight d);
    split; assumption.
Qed.
(** One row moved on in its place, and a new one, on both sides. *)
Lemma agree_update l m d e row f m' q' :
  agree l m d → e ∈ E → event_row e l = Some row →
  ring_repr m' q' → queued q' = entry_of nm <$> update_event e f l → taken q' = length l →
  Z.of_nat (length (outcomes q')) = (count_events Labeled l - b2z (Labeled row) + b2z (Labeled (f row)))%Z →
  tally snd (outcomes q')
  = (count_events (λ r, Labeled r && LabelMalicious r) l - b2z (Labeled row && LabelMalicious row)
     + b2z (Labeled (f row) && LabelMalicious (f row)))%Z →
  salt m' = salt m → capacity m' = capacity m →
  agree (update_event e f l) m' (set_rows (<[nd e := f row]> (rows d)) d).
Proof.
  intros Ha He Hrow Hr' Hq' Ht' Ho' Hoc' Hsalt Hcap.
  pose proof (agree_events l m d Ha) as Hev. pose proof (agree_nodup l m d Ha) as Hdup.
  split; simpl; try apply Ha.
  - intros p' Hp'. assert (p'.1 ∈ (update_event e f l).*1) as Hin by by apply list_elem_of_fmap_2.
    rewrite update_events in Hin. apply list_elem_of_fmap in Hin as (p'' & -> & ?). by apply Hev.
  - by rewrite update_events.
  - exists q'. split_and!; [done|done|by unfold update_event; rewrite length_fmap|..]; by erewrite count_update.
  - rewrite (ledger_insert E nd Hnd e) by done. by rewrite Hrow, (agree_rows l m d Ha).
  - intros e'. unfold fingerprint. rewrite Hsalt. apply Ha.
  - rewrite Hcap. apply Ha.
Qed.
Lemma agree_append l m d e row m' q' :
  agree l m d → e ∈ E → event_row e l = None → Labeled row = false →
  ring_repr m' q' → queued q' = ((entry_of nm <$> l) ++ [entry_of nm (e, row)])%list → taken q' = Datatypes.S (length l) →
  Z.of_nat (length (outcomes q')) = count_events Labeled l →
  tally snd (outcomes q') = count_events (λ r, Labeled r && LabelMalicious r) l →
  salt m' = salt m → capacity m' = capacity m →
  agree (l ++ [(e, row)])%list m' (set_rows (<[nd e := row]> (rows d)) d).
Proof.
  intros Ha He Hout%event_row_none Hl Hr' Hq' Ht' Ho' Hoc' Hsalt Hcap.
  assert (∀ p, p ∈ (l ++ [(e, row)])%list → p.1 ∈ E) as Hev.
  { intros p [Hp|Hp]%elem_of_app; [by apply (agree_events l m d)|]. by apply list_elem_of_singleton in Hp as ->. }
  assert (NoDup (l ++ [(e, row)])%list.*1) as Hdup.
  { rewrite fmap_app. apply NoDup_app. split_and!; [apply Ha| |apply NoDup_singleton].
    by intros x Hx ->%list_elem_of_singleton. }
  split; simpl; try apply Ha; try done.
  - exists q'. rewrite fmap_app, length_app, !count_snoc. simpl. rewrite Hl. simpl. split_and!; try done; lia.
  - unfold named. rewrite fmap_app. simpl. rewrite (agree_rows l m d Ha). symmetry.
    apply (list_to_map_snoc (M := gmap string)).
    pose proof (ledger_nodup E nd Hnd _ Hev Hdup) as Hn. unfold named in Hn. rewrite !fmap_app in Hn.
    apply NoDup_app in Hn as (_ & Hn & _). intros Hin. apply (Hn _ Hin). apply list_elem_of_here.
  - intros e'. unfold fingerprint. rewrite Hsalt. apply Ha.
  - rewrite Hcap. apply Ha.
Qed.
(** The event on both sides. *)
Lemma agree_lookup l m d e :
  agree l m d → e ∈ E → rows d !! nd e = event_row e l.
Proof.
  intros Ha He. rewrite (agree_rows l m d Ha). apply (ledger_lookup E nd Hnd); [done|apply Ha].
Qed.
Lemma agree_find l m d e q :
  agree l m d → e ∈ E → queued q = entry_of nm <$> l →
  find_key (nm e) (queued q) = (λ r, entry_of nm (e, r)) <$> event_row e l.
Proof.
  intros Ha He ->. rewrite (ledger_find E nm Hnm e l He) by apply Ha. unfold event_row.
  destruct (List.find (is_event e) l) as [[e' r]|] eqn:Hf; [|done]. apply List.find_some in Hf as [_ Hf].
  apply String.eqb_eq in Hf. simpl in *. by subst.
Qed.
Lemma agree_record l m d call e p would :
  agree l m d → (∀ n, call_io call n = quiet) → e ≠ "" → e ∈ E →
  ∃ l', agree l' (memory_record e p would m) (durable_record call e p would d).
Proof.
  intros Ha Hio Hne He. unfold memory_record, durable_record. apply String.eqb_neq in Hne. rewrite Hne.
  unfold UpsertURLFeedback. rewrite (agree_enabled l m d Ha), Hio. cbn [negb exec_error quiet].
  unfold observed_row. cbn [Fingerprint]. rewrite (agree_durable l m d Ha), (agree_memory l m d Ha).
  rewrite (agree_lookup l m d e Ha He). destruct (agree_queue l m d Ha) as (q & Hr & Hq & Ht & Ho & Hoc).
  pose proof (ring_record m q Hr (nm e) (feedback_bucket p) would) as Hr'.
  destruct (record_key_fixed (nm e) (feedback_bucket p) would m) as [Hsalt Hcap].
  unfold queue_record in Hr'. rewrite (agree_find l m d e q Ha He Hq) in Hr'.
  destruct (event_row e l) as [row|] eqn:Hrow; simpl in Hr'.
  - exists (update_event e (seen_again p would (nd e)) l). apply agree_maybePrune.
    change (mkRow _ _ _ _ _ _ _ _) with (seen_again p would (nd e) row).
    eapply agree_update; [done..| |done| | |done|done]; simpl; [|lia..].
    rewrite Hq. apply (ledger_update E nm Hnm); [done|apply Ha|done].
  - eexists. apply agree_maybePrune. eapply agree_append; [done..|exact Hr'| |by rewrite <- Ht|done|done|done|done].
    simpl. rewrite Hq. apply newest_all. rewrite length_app, length_fmap. simpl.
    apply event_row_none in Hrow. pose proof (agree_length l m d e Ha He Hrow). lia.
Qed.
Lemma agree_still l m d m' q :
  agree l m d → ring_repr m' q → queued q = entry_of nm <$> l → taken q = length l →
  Z.of_nat (length (outcomes q)) = count_events Labeled l →
  tally snd (outcomes q) = count_events (λ r, Labeled r && LabelMalicious r) l →
  salt m' = salt m → capacity m' = capacity m → agree l m' (set_rows (rows d) d).
Proof.
  intros Ha Hr' Hq Ht Ho Hoc Hsalt Hcap. split; simpl; try apply Ha.
  - by exists q.
  - intros e. unfold fingerprint. rewrite Hsalt. apply Ha.
  - rewrite Hcap. apply Ha.
Qed.
(** A label that means something. *)
Lemma agree_apply l m d call e label malicious :
  agree l m d → (∀ n, call_io call n = quiet) → e ≠ "" → e ∈ E → label_of label = Some malicious →
  ∃ l', agree l' (memory_apply e label m).1 (durable_apply call e label d).1
        ∧ (memory_apply e label m).2 = (durable_apply call e label d).2.
Proof.
  intros Ha Hio Hne He Hlabel. unfold memory_apply, durable_apply. apply String.eqb_neq in Hne. rewrite Hne, Hlabel.
  rewrite (agree_memory l m d Ha). destruct (agree_queue l m d Ha) as (q & Hr & Hq & Ht & Ho & Hoc).
  destruct (ring_apply m q Hr (nm e) label) as [Hr' ->]. destruct (apply_key_fixed (nm e) label m) as [Hsalt Hcap].
  unfold queue_apply in *. rewrite (agree_find l m d e q Ha He Hq) in *.
  cbn [apply_keys]. unfold ApplyURLFeedbackLabel. rewrite (agree_enabled l m d Ha), !Hio, (agree_durable l m d Ha).
  cbn [negb exec_error affected_error query_error quiet]. rewrite (agree_lookup l m d e Ha He).
  destruct (event_row e l) as [row|] eqn:Hrow; cbn [fmap option_fmap option_map] in *.
  - cbn [entry_of labeled snd] in *. destruct (Labeled row) eqn:Hlab.
    + exists l. rewrite (agree_lookup l m d e Ha He), Hrow, Hlab. split; [|done]. by eapply agree_still.
    + rewrite Hlabel in *. exists (update_event e (labelled_row malicious (time_text (call_now call))) l). split; [|done].
      cbn [fst]. change (<[nd e := _]> (rows d)) with (<[nd e := labelled_row malicious (time_text (call_now call)) row]> (rows d)).
      eapply agree_update; [done..|exact Hr'| | | | |done|done]; simpl; rewrite ?Hlab, ?length_app, ?tally_app; simpl; [|done|lia..].
      rewrite Hq. apply (ledger_update E nm Hnm); [done|apply Ha|done].
  - exists l. rewrite (agree_lookup l m d e Ha He), Hrow. pose proof (agree_previous l m d Ha) as Hprev.
    destruct (previousKey d) as [key|]; cbn [apply_keys fst snd]; [|split; [by eapply agree_still|done]].
    { unfold ApplyURLFeedbackLabel. cbn [set_rows rows db_enabled]. rewrite !Hio, (agree_enabled l m d Ha).
      assert (rows d !! key_fingerprint e key = None) as Hnone.
      { rewrite (agree_rows l m d Ha). apply (not_elem_of_list_to_map_1 (M := gmap string)).
        intros ([n r] & Hn & ([e' r'] & [= -> ->] & Hin)%list_elem_of_fmap)%list_elem_of_fmap. simpl in Hn.
        by destruct (Hprev e e' He (agree_events l m d Ha _ Hin)). }
      cbn [negb exec_error affected_error query_error quiet]. rewrite Hnone, Hnone. split; [|done].
      cbn [fst]. change (set_rows _ (set_rows _ d)) with (set_rows (rows d) d). by eapply agree_still. }
Qed.
Lemma agree_post l m d call method decoded :
  agree l m d → (∀ n, call_io call n = quiet) →
  match decoded with Some (id, _) => TrimSpace id = "" ∨ TrimSpace id ∈ E | None => True end →
  let r := URLMLFeedbackHandler call method decoded (Some m) in let r' := URLMLFeedbackHandler call method decoded (Some d) in
  ∃ l' m' d', r.1 = Some m' ∧ r'.1 = Some d' ∧ agree l' m' d' ∧ r.2 = r'.2.
Proof.
  intros Ha Hio Hid. unfold URLMLFeedbackHandler. destruct (negb (String.eqb method "POST")); [by exists l, m, d|].
  destruct decoded as [[id label]|]; [|by exists l, m, d].
  destruct (String.eqb_spec (TrimSpace id) "") as [?|Hne]; [by exists l, m, d|]. destruct Hid as [?|He]; [done|].
  destruct (Nat.ltb 256 (String.length (TrimSpace id))); simpl orb; cbv iota; [by exists l, m, d|].
  set (lab := ToLower (TrimSpace label)).
  destruct (negb (String.eqb lab "benign") && negb (String.eqb lab "malicious")) eqn:Hlab; [by exists l, m, d|].
  assert (∃ malicious, label_of lab = Some malicious) as [malicious Hm].
  { unfold label_of. destruct (String.eqb lab "malicious"); [by exists true|]. destruct (String.eqb lab "benign"); [by exists false|done]. }
  destruct (agree_apply l m d call (TrimSpace id) lab malicious Ha Hio Hne He Hm) as (l' & Ha' & Hreply).
  unfold RecordURLFeedback. simpl backend_apply.
  destruct (memory_apply (TrimSpace id) lab m) as [m' [rec reason]], (durable_apply call (TrimSpace id) lab d) as [d' [rec' reason']].
  simpl in *. simplify_eq. by exists l', m', d'.
Qed.
End Agreement.

(** Observations and requests, and the responses. *)
Inductive Request :=
  | Observe (id : string) (p : float64) (would : bool)
  | Post (method : string) (decoded : option (string * string)).
Definition request_event `{UnicodeTables} (r : Request) : string :=
  match r with Observe id _ _ => id | Post _ (Some (id, _)) => TrimSpace id | Post _ None => "" end.
Definition serve_request `{UnicodeTables} {S} `{FeedbackBackend S} (call : FeedbackCall) (r : Request) (s : S)
    : S * list FeedbackResponse :=
  match r with
  | Observe id p would => (backend_record call id p would s, [])
  | Post method decoded =>
      let '(s', response) := URLMLFeedbackHandler call method decoded (Some s) in (default s s', [response])
  end.
Fixpoint serve_all `{UnicodeTables} {S} `{FeedbackBackend S} (calls : list (FeedbackCall * Request)) (s : S)
    : S * list FeedbackResponse :=
  match calls with
  | [] => (s, [])
  | (call, r) :: calls =>
      let '(s, now) := serve_request call r s in
      let '(s, later) := serve_all calls s in (s, (now ++ later)%list)
  end.

Section Serve.
Context `{UnicodeTables, Crypto, CivilTime, SortSlice} (E : list string) (nm nd : string → string).
Context (Hnm : distinct E nm) (Hnd : distinct E nd).

Lemma agree_serve l m d call r :
  agree E nm nd l m d → (∀ n, call_io call n = quiet) → request_event r = "" ∨ request_event r ∈ E →
  ∃ l', agree E nm nd l' (serve_request call r m).1 (serve_request call r d).1 ∧ (serve_request call r m).2 = (serve_request call r d).2.
Proof.
  intros Ha Hio Hr. destruct r as [id p would|method decoded]; simpl.
  - destruct (String.eqb_spec id "") as [->|Hne].
    + exists l. split; [|done]. by unfold memory_record, durable_record.
    + destruct Hr as [?|He]; [done|]. destruct (agree_record E nm nd Hnm Hnd l m d call id p would) as [l' ?]; [done..|].
      by exists l'.
  - destruct (agree_post E nm nd Hnm Hnd l m d call method decoded Ha Hio) as (l' & m' & d' & Hm & Hd & Ha' & Hreply).
    { destruct decoded as [[id label]|]; [done|done]. }
    destruct (URLMLFeedbackHandler call method decoded (Some m)) as [om rm].
    destruct (URLMLFeedbackHandler call method decoded (Some d)) as [od rd]. simpl in *. subst. by exists l'.
Qed.
Lemma agree_all calls l m d :
  agree E nm nd l m d → (∀ c, c ∈ calls → (∀ n, call_io c.1 n = quiet) ∧ (request_event c.2 = "" ∨ request_event c.2 ∈ E)) →
  ∃ l', agree E nm nd l' (serve_all calls m).1 (serve_all calls d).1 ∧ (serve_all calls m).2 = (serve_all calls d).2.
Proof.
  revert l m d. induction calls as [|[call r] calls IH]; intros l m d Ha Hall; [by exists l|]. cbn [serve_all].
  destruct (Hall (call, r) (list_elem_of_here _ _)) as [Hio Hr].
  destruct (agree_serve l m d call r Ha Hio Hr) as (l1 & Ha1 & Hreply).
  destruct (serve_request call r m) as [m1 now], (serve_request call r d) as [d1 now']. simpl in *. subst now'.
  destruct (IH l1 m1 d1 Ha1) as (l2 & Ha2 & Hreply2); [intros c Hc; by apply Hall, list_elem_of_further|].
  destruct (serve_all calls m1) as [m2 later], (serve_all calls d1) as [d2 later']. simpl in *. subst later'. by exists l2.
Qed.
End Serve.

(** The two implementations of [urlFeedbackBackend], new, under any observations and
    requests to [URLMLFeedbackHandler]: as long as the events fit the buffer, nothing is
    pruned, no statement fails and fingerprints tell the events apart, every response of
    the two services is the same, status and body, and so are their counts of
    observations, labels and confirmed events. *)
Theorem backends_agree `{UnicodeTables, Crypto, CivilTime, SortSlice} E random cap cfg calls :
  let m0 := newURLFeedbackStore random cap in let d0 := newDurableURLFeedbackStore true ∅ cfg in
  length E ≤ capacity m0 → distinct E (fingerprint m0) → distinct E (λ e, key_fingerprint e (currentKey d0)) →
  match previousKey d0 with
  | Some key => ∀ e e', e ∈ E → e' ∈ E → key_fingerprint e key ≠ key_fingerprint e' (currentKey d0)
  | None => True
  end →
  (∀ c, c ∈ calls → (∀ n, call_io c.1 n = quiet) ∧ (request_event c.2 = "" ∨ request_event c.2 ∈ E)) →
  let r := serve_all calls m0 in let r' := serve_all calls d0 in
  r.2 = r'.2
  ∧ ∀ call, (∀ n, call_io call n = quiet) →
      let status := backend_status call r.1 in let status' := backend_status call r'.1 in
      RecordedEvents status = RecordedEvents status' ∧ LabelledEvents status = LabelledEvents status'
      ∧ ConfirmedMalicious status = ConfirmedMalicious status' ∧ PersistenceErrors status' = 0%Z ∧ Degraded status' = false.
Proof.
  intros m0 d0 Hroom Hnm Hnd Hprev Hall r r'.
  destruct (agree_all E (fingerprint m0) (λ e, key_fingerprint e (currentKey d0)) Hnm Hnd calls [] m0 d0)
    as (l & Ha & Hreplies); [|done|].
  { split; simpl; try done; [by intros p Hp%elem_of_nil|constructor|].
    exists (mkQueue [] 0 []). split; [apply ring_start|done]. }
  split; [done|]. intros call Hio. cbn zeta. simpl backend_status. fold r r' in Ha. clearbody r r'.
  unfold durable_status, URLFeedbackStats_. rewrite (agree_enabled _ _ _ _ _ _ Ha), Hio.
  cbn [negb query_error quiet memory_status RecordedEvents LabelledEvents ConfirmedMalicious StatRows StatLabeled StatConfirmed
       PersistenceErrors Degraded].
  rewrite (agree_errors _ _ _ _ _ _ Ha), (agree_rows _ _ _ _ _ _ Ha).
  assert (NoDup (named (λ e, key_fingerprint e (currentKey d0)) l).*1) as Hdup
    by (eapply ledger_nodup; [done|apply (agree_events _ _ _ _ _ _ Ha)|apply (agree_nodup _ _ _ _ _ _ Ha)]).
  rewrite !count_named by done. destruct (agree_queue _ _ _ _ _ _ Ha) as (q & Hr & _ & Ht & Ho & Hoc).
  rewrite (ring_recorded _ _ Hr), (ring_labelled _ _ Hr), (ring_confirmed _ _ Hr), Ht, Ho, Hoc.
  split_and!; try done. clear. unfold count_events. induction l as [|p l IH]; [done|]. rewrite tally_cons. cbn [length b2z]. lia.
Qed.

(** ** Witnesses *)

Module Examples.
#[local] Instance ex_tables : UnicodeTables := ascii_tables.
#[local] Instance ex_sort : SortSlice := GroupsSpec.Examples.ex_sort.
(** An event and its key in the place of a hash. *)
#[local] Instance ex_crypto : Crypto := {|
  hmac_sha256 key event := event ++ key; sha256 s := s; bcrypt_generate p _ := Ok p; bcrypt_compare := String.eqb
|}.
(** Decimal texts of one width. *)
Fixpoint decimal (n : nat) (z : Z) : string :=
  match n with
  | 0 => ""
  | Datatypes.S n => String (ascii_of_N (Z.to_N (z / 10 ^ Z.of_nat n) + 48)) (decimal n (z mod 10 ^ Z.of_nat n))
  end.
#[local] Instance ex_civil : CivilTime := {| civil_text := decimal 12 |}.
Lemma decimal_length n z : String.length (decimal n z) = n.
Proof. revert z. induction n as [|n IH]; intros z; simpl; [done|by rewrite IH]. Qed.
Lemma decimal_order n a b : (0 <= a < b)%Z → (b < 10 ^ Z.of_nat n)%Z → String.ltb (decimal n a) (decimal n b) = true.
Proof.
  revert a b. induction n as [|n IH]; intros a b Hab Hb; [simpl in Hb; lia|].
  pose proof (Z.pow_pos_nonneg 10 (Z.of_nat n) ltac:(lia) ltac:(lia)) as Hp.
  rewrite Nat2Z.inj_succ, Z.pow_succ_r in Hb by lia. set (w := (10 ^ Z.of_nat n)%Z) in *.
  assert (b / w < 10)%Z by (apply Z.div_lt_upper_bound; lia).
  assert (0 <= a / w <= b / w)%Z by (split; [apply Z.div_pos|apply Z.div_le_mono]; lia).
  unfold String.ltb in *. simpl. fold w. unfold Ascii.compare. rewrite !N_ascii_embedding by lia.
  destruct (N.compare_spec (Z.to_N (a / w) + 48) (Z.to_N (b / w) + 48)) as [He| |]; [|done|lia].
  assert (a / w = b / w)%Z as Hw by lia. apply IH; [|by apply Z.mod_pos_bound].
  pose proof (Z.div_mod a w ltac:(lia)). pose proof (Z.div_mod b w ltac:(lia)). pose proof (Z.mod_pos_bound a w ltac:(lia)).
  rewrite Hw in *. lia.
Qed.
#[local] Instance ex_laws : CivilLaws.
Proof.
  split. intros a b Hab Hb. change civil_text with (decimal 12).
  split; [by rewrite !decimal_length|]. apply decimal_order; [done|]. lia.
Qed.

Definition ex_cfg : URLMLFeedbackConfig := mkFeedbackConfig "s3cret" 2 "old" 1 (168 * hour_ns) 65536.
Definition ex_call (t : Z) : FeedbackCall := mkCall t false (λ _, quiet).
Definition ex_row (fp : string) (t : Z) : URLFeedbackRow := mkRow fp 2 7 true false false (time_text t) "".
Definition ex_new : durableURLFeedbackStore := newDurableURLFeedbackStore true ∅ ex_cfg.

(** Three rows, one of them too old and one too many. *)
Definition ex_now : Z := 1000000 * second_ns.
Definition ex_full : durableURLFeedbackStore :=
  mkDurable true
    (<["a" := ex_row "a" (1000 * second_ns)]> (<["b" := ex_row "b" (999000 * second_ns)]>
       (<["c" := ex_row "c" (998000 * second_ns)]> ∅)))
    (mkHMACKey 2 "s3cret") None (168 * hour_ns) 1 0 false 0 false None.
Example prune_leaves_youngest :
  (λ fp, bool_decide (is_Some (rows (prune (λ _, quiet) ex_now ex_full) !! fp))) <$> ["a"; "b"; "c"] = [false; true; false].
Proof. vm_compute. reflexivity. Qed.
Lemma prune_retains_witness :
  let s' := prune (λ _, quiet) ex_now ex_full in
  persistenceErrors s' = 0%Z ∧ (Z.of_nat (size (rows s')) <= 1)%Z.
Proof.
  destruct (prune_retains ex_now ex_full) as (He & Hs & _); [done|done|by vm_compute|]. split; [exact He|exact Hs].
Defined.

(** An event labelled, and labelled again. *)
Definition ex_seen : durableURLFeedbackStore := durable_record (ex_call 5) "e1" f_one true ex_new.
Definition ex_labelled : durableURLFeedbackStore := (durable_apply (ex_call 6) "e1" "benign" ex_seen).1.
Lemma labels_final_witness :
  rtc durable_step ex_new ex_labelled ∧ map_Forall (λ _, row_ok) (rows ex_labelled).
Proof.
  assert (rtc durable_step ex_new ex_labelled) as Hrun
    by (eapply rtc_l; [apply (step_record ex_new)|]; eapply rtc_l; [apply (step_apply ex_seen)|apply rtc_refl]).
  split; [done|]. apply (labels_final ex_new ex_labelled Hrun). apply map_Forall_empty.
Defined.
Example label_replies :
  ((durable_apply (ex_call 6) "e1" "benign" ex_seen).2, (durable_apply (ex_call 7) "e1" "malicious" ex_labelled).2,
   (durable_apply (ex_call 7) "e2" "malicious" ex_labelled).2)
  = ((true, ""), (false, already_labeled), (false, unknown_event)).
Proof. vm_compute. reflexivity. Qed.
(** After a rotation the event is labelled again once it has been observed under the new
    key. *)
Definition ex_rotated : durableURLFeedbackStore :=
  newDurableURLFeedbackStore true (rows ex_labelled) (mkFeedbackConfig "n3w" 3 "s3cret" 2 (168 * hour_ns) 65536).
Example label_after_rotation :
  ((durable_apply (ex_call 8) "e1" "malicious" ex_rotated).2,
   (durable_apply (ex_call 9) "e1" "malicious" (durable_record (ex_call 8) "e1" f_one true ex_rotated)).2)
  = ((false, already_labeled), (true, "")).
Proof. vm_compute. reflexivity. Qed.

Definition ex_calls : list (FeedbackCall * Request) :=
  [(ex_call 1, Observe "a" f_one true); (ex_call 2, Post "POST" (Some (" a ", "MALICIOUS")));
   (ex_call 3, Post "POST" (Some ("a", "benign"))); (ex_call 4, Post "POST" (Some ("b", "benign")));
   (ex_call 5, Post "GET" None)].
Lemma backends_agree_witness :
  (serve_all ex_calls (newURLFeedbackStore None 16)).2 = (serve_all ex_calls ex_new).2.
Proof.
  apply (backends_agree ["a"; "b"] None 16 ex_cfg ex_calls).
  - simpl. lia.
  - intros e e' He He'. apply list_elem_of_In in He, He'. simpl in He, He'. by destruct He as [<-|[<-|[]]], He' as [<-|[<-|[]]].
  - intros e e' He He'. apply list_elem_of_In in He, He'. simpl in He, He'. by destruct He as [<-|[<-|[]]], He' as [<-|[<-|[]]].
  - intros e e' He He'. apply list_elem_of_In in He, He'. simpl in He, He'. by destruct He as [<-|[<-|[]]], He' as [<-|[<-|[]]].
  - intros c Hc. apply list_elem_of_In in Hc. simpl in Hc.
    destruct Hc as [<-|[<-|[<-|[<-|[<-|[]]]]]]; (split; [done|]); try (right; simpl; set_solver). by left.
Defined.
Example backends_reply :
  (serve_all ex_calls ex_new).2
  = [FeedbackJSON 200 true ""; FeedbackJSON 200 false already_labeled; FeedbackJSON 200 false unknown_event;
     FeedbackError_ 405 "method not allowed"].
Proof. vm_compute. reflexivity. Qed.
End Examples.
