(* ===== verification/URLShadow.v ===== *)
(** * The URL classifier in shadow: [internal/risk/url_ml.go] and [url_baseline.go]

    Sampling, the observation of one request, its counters, the rule that holds a
    promotion back, drift against a frozen reference, and the status.  The model is the
    class [URLClassifier].  The values that an error message quotes ([%q], [%s]) are left
    out. *)

From Stdlib Require Import ZArith Lia Ascii String SpecFloat.
From S2P Require Import Prelude GoStr Hostname NetIP GoFloat Whitelist Category EditDist Brand Feed FeedSync DomainML Session URLFeedback.

Record URLContext := mkURLContext { RequestedURL : string; ExpectedHost : string; RedirectChain : list string }.
Record URLAnalysisContext := mkAnalysisContext {
  CtxRequestedURL : string; CtxRedirectChain : list string; EventID : string; CallerClass : string
}.
Record URLMonitoringReference := mkReference {
  ReferenceKind : string; ReferenceRows : Z; Operational : bool; ProbabilityBuckets : list string;
  ProbabilityDistribution : list float64; MinimumLiveSamples : Z; PSIWatchThreshold : float64; PSIAlertThreshold : float64
}.
(** [URLClassifier] with the two interfaces it may have besides; a decision comes with its
    revision.  A missing classifier is
    a disabled one without them. *)
Class URLClassifier := {
  url_enabled : bool; url_revision : string; ClassifyURL : URLContext → result (MLDecision * string);
  url_metadata : option (string * float64); url_reference : option URLMonitoringReference
}.
Record URLMLObservation := mkObservation {
  ObsMode : MLMode; Sampled : bool; Evaluated : bool; WouldPromote : bool; Held : bool; HoldReason : string;
  ObsProbability : float64; ObsAction : string; ObsModelVersion : string; ObsRevision : string; ErrorClass : string;
  LatencyMicros : Z
}.
Definition urlPromoteHoldTrustedHost : string := "trusted_host_without_host_evidence".
Definition mlProbabilityBuckets : list string :=
  ["lt_0_10"; "0_10_0_19"; "0_20_0_29"; "0_30_0_39"; "0_40_0_49"; "0_50_0_59"; "0_60_0_69"; "0_70_0_79"; "0_80_0_89"; "gte_0_90"].

(** ** Coverage classes *)

Definition urlMLCallerClasses : list string := ["unspecified"; "ui"; "sdk"; "extension"; "proxy"; "other"].
Definition urlMLMissingContextReasons : list string := ["get_domain_only"; "post_not_provided"; "unspecified"].
Definition normalizeURLMLMissingContextReason (raw : string) : nat :=
  if String.eqb raw "get_domain_only" then 0 else if String.eqb raw "post_not_provided" then 1 else 2.
Definition normalizeURLMLCallerClass (raw : string) : string :=
  if existsb (String.eqb raw) ["ui"; "sdk"; "extension"; "proxy"; "other"] then raw
  else if String.eqb raw "" then "unspecified" else "other".
Fixpoint class_index (class : string) (names : list string) (i : nat) : nat :=
  match names with
  | [] => 0
  | name :: names => if String.eqb name class then i else class_index class names (S i)
  end.
Definition urlMLCallerIndex (raw : string) : nat := class_index (normalizeURLMLCallerClass raw) urlMLCallerClasses 0.

(** ** Sampling *)

Record URLMLShadowConfig := mkShadow { ShadowPercent : Z; ShadowSeed : string }.
Definition urlMLSelectorAlgorithm : string := "sha256-domain-v1".
Definition shadow_validate `{UnicodeTables} (c : URLMLShadowConfig) : option string :=
  if (ShadowPercent c <? 1)%Z || (100 <? ShadowPercent c)%Z then Some "URL ML shadow percent must be between 1 and 100"
  else if (ShadowPercent c <? 100)%Z && String.eqb (TrimSpace (ShadowSeed c)) ""
  then Some "URL ML shadow seed is required below 100 percent"
  else None.
(** The configuration a service uses: zero percent means all, and so does an invalid one. *)
Definition shadow_selected `{UnicodeTables} (c : URLMLShadowConfig) : URLMLShadowConfig :=
  let c := if (ShadowPercent c =? 0)%Z then mkShadow 100 (ShadowSeed c) else c in
  match shadow_validate c with Some _ => mkShadow 100 "" | None => c end.
Definition shadow_eligible `{UnicodeTables, FeedLibs} (c : URLMLShadowConfig) (domain : string) : bool :=
  if (100 <=? ShadowPercent c)%Z then true
  else (uint64_be (sha256_sum (TrimSpace (ShadowSeed c) ++ nul ++ ToLower (TrimSpace domain))) mod 100 <? ShadowPercent c)%Z.
Definition shadow_revision `{UnicodeTables, FeedLibs} (c : URLMLShadowConfig) : string :=
  hex_string (sha256_sum ("algorithm=" ++ urlMLSelectorAlgorithm ++ newline ++ "percent=" ++ dec_string (ShadowPercent c)
    ++ newline ++ "seed=" ++ TrimSpace (ShadowSeed c) ++ newline)).

(** ** The counters *)

(** The fields of the telemetry; a field that is an array has the index. *)
Inductive UrlCounter :=
  | contextRequests | predictionAttempts | wouldPromoteCount | wouldPass | heldPromote | errorCount | skips
  | latencyCount | latencyTotalMicros | latencyBucket (i : nat) | probabilityBucket (i : nat)
  | selected | excluded | invalidContext | predictionErrors | queryPresent | queryAbsent
  | redirectBucket (i : nat) | verdictBucket (i : nat) | promoteVerdictBucket (i : nat)
  | analyzeRequests | urlContextRequests | redirectPresent | callerBucket (i : nat) | missingContextBucket (i : nat).
#[export] Instance UrlCounter_eq_dec : EqDecision UrlCounter.
Proof. solve_decision. Defined.
Definition urlMLTelemetry : Type := UrlCounter → Z.
Definition no_telemetry : urlMLTelemetry := λ _, 0%Z.
(** Each atomic operation of a request, in order: an addition to a counter, or the feedback
    backend taking in an observation. *)
Inductive ShadowStep := Add (c : UrlCounter) (n : Z) | Feed (eventID : string) (probability : float64) (would : bool).
Definition inc (c : UrlCounter) : ShadowStep := Add c 1.
Definition add_counter (c : UrlCounter) (n : Z) (t : urlMLTelemetry) : urlMLTelemetry :=
  λ c', if decide (c' = c) then (t c' + n)%Z else t c'.

Definition noteMissingContext (reason : string) : list ShadowStep :=
  [inc (missingContextBucket (normalizeURLMLMissingContextReason reason))].
Definition url_observeLatency (micros : Z) : list ShadowStep :=
  [inc latencyCount; Add latencyTotalMicros micros; inc (latencyBucket (latency_slot mlLatencyBuckets micros))].
Definition url_observeProbability (probability : float64) : list ShadowStep :=
  match probabilityBucketIndex probability with Some i => [inc (probabilityBucket i)] | None => [] end.
Definition urlMLVerdictIndex (v : Verdict) : nat :=
  match v with VerdictSafe => 0 | VerdictSuspicious => 1 | _ => 2 end.
Definition classifyURLMLError (message : string) : string :=
  if Contains message "invalid_url_context" then "invalid_url_context" else "prediction_error".

(** ** One observation *)

Section Observe.
Context `{UnicodeTables, HostServices, EditDist.RuneTables, FeedLibs, URLClassifier}.
(** [mode], [shadow]: of the engine; [feed]: the reply of the threat feed for the name *)
Context (mode : MLMode) (shadow : URLMLShadowConfig) (brands : list Brand) (feed : string → result bool).

Definition urlPromoteHoldReason (domain : string) : string :=
  if negb (IsTrustedBrandSuffix domain brands) then ""
  else match feed domain with
  | Err _ => ""
  | Ok true => ""
  | Ok false => urlPromoteHoldTrustedHost
  end.
Definition unsampled : URLMLObservation :=
  mkObservation mode false false false false "" f_zero "" "" "" "" 0.
(** What a request adds before it may be left out, and what a sampled one adds. *)
Definition context_steps (ctx : URLAnalysisContext) : list ShadowStep :=
  ([inc contextRequests; inc urlContextRequests; inc (callerBucket (urlMLCallerIndex (CallerClass ctx)))]
   ++ match CtxRedirectChain ctx with [] => [] | _ => [inc redirectPresent] end)%list.
Definition input_steps (ctx : URLAnalysisContext) (verdict : Verdict) : list ShadowStep :=
  [inc selected; inc predictionAttempts;
   inc (if Contains (CtxRequestedURL ctx) "?" then queryPresent else queryAbsent);
   inc (redirectBucket (Nat.min 2 (length (CtxRedirectChain ctx)))); inc (verdictBucket (urlMLVerdictIndex verdict))].
(** [micros]: how long the classifier took *)
Definition outcome (domain : string) (verdict : Verdict) (ctx : URLAnalysisContext) (micros : Z)
    : URLMLObservation * list ShadowStep :=
  match ClassifyURL (mkURLContext (CtxRequestedURL ctx) domain (CtxRedirectChain ctx)) with
  | Err message =>
      let class := classifyURLMLError message in
      (mkObservation mode true false false false "" f_zero "" "" "" class micros,
       [inc errorCount; inc (if String.eqb class "invalid_url_context" then invalidContext else predictionErrors);
        Feed (EventID ctx) (f_of_Z (-1)) false])
  | Ok (decision, revision) =>
      let p := Probability decision in
      let seen would held reason :=
        mkObservation mode true true would held reason p (Action decision) (ModelVersion decision) revision "" micros in
      let steps :=
        if String.eqb (Action decision) MLActionPromoteMalicious then
          if negb (String.eqb (urlPromoteHoldReason domain) "") then
            (seen false true (urlPromoteHoldReason domain), [inc heldPromote; inc wouldPass; Feed (EventID ctx) p false])
          else
            (seen true false "",
             [inc wouldPromoteCount; inc (promoteVerdictBucket (urlMLVerdictIndex verdict)); Feed (EventID ctx) p true])
        else (seen false false "", [inc wouldPass; Feed (EventID ctx) p false]) in
      (steps.1, (url_observeProbability p ++ steps.2)%list)
  end.
Definition observeURLML (domain : string) (verdict : Verdict) (ctx : URLAnalysisContext) (micros : Z)
    : URLMLObservation * list ShadowStep :=
  if negb (bool_decide (mode = MLModeShadow)) || negb url_enabled
  then (unsampled, (context_steps ctx ++ [inc skips])%list)
  else if negb (shadow_eligible shadow domain) then (unsampled, (context_steps ctx ++ [inc excluded])%list)
  else
    let '(observation, steps) := outcome domain verdict ctx micros in
    (observation, (context_steps ctx ++ input_steps ctx verdict ++ url_observeLatency micros ++ steps)%list).
(** [AnalyzeWithOptions], as far as the counters go: the domain is the normalised one. *)
Definition analyze_steps (domain : string) (verdict : Verdict) (context : option URLAnalysisContext) (reason : string)
    (micros : Z) : option URLMLObservation * list ShadowStep :=
  match context with
  | None => (None, (inc analyzeRequests :: noteMissingContext reason))
  | Some ctx =>
      let '(observation, steps) := observeURLML domain verdict ctx micros in
      (Some observation, inc analyzeRequests :: steps)
  end.
End Observe.

(** ** Operational baselines *)

Record URLOperationalBaseline := mkBaseline {
  BPath : string; BSHA256 : string; BModelVersion : string; BRevision : string; BReferenceKind : string;
  BReferenceRows : Z; BTrafficScope : string; BRecordedAt : string; BucketNames : list string;
  Distribution : list float64; BMinimumLiveSamples : Z; WatchThreshold : float64; AlertThreshold : float64
}.
Record urlOpsBaselineFile := mkBaselineFile {
  SchemaVersion : Z; Kind : string; FModelVersion : string; FRevision : string; FTrafficScope : string;
  FRecordedAt : string; ProbabilityHistogram : gmap string Z
}.
(** [encoding/json] on a baseline file *)
Class BaselineJSON := { decode_baseline : string → result urlOpsBaselineFile }.
Definition urlOpsBaselineWatchThreshold : float64 := f_div (f_of_Z 1) (f_of_Z 10).
Definition urlOpsBaselineAlertThreshold : float64 := f_div (f_of_Z 1) (f_of_Z 4).
Definition urlOpsBaselineMinSamples : Z := 100.
(** The counts of the buckets, and their sum. *)
Fixpoint bucket_counts (histogram : gmap string Z) (names : list string) (total : float64)
    : result (list float64 * float64) :=
  match names with
  | [] => Ok ([], total)
  | name :: names =>
      match histogram !! name with
      | None => Err "baseline probability histogram missing bucket"
      | Some count =>
          if (count <? 0)%Z then Err "baseline probability histogram bucket is negative"
          else match bucket_counts histogram names (f_add total (f_of_Z count)) with
          | Err e => Err e
          | Ok (counts, total) => Ok (f_of_Z count :: counts, total)
          end
      end
  end.
Definition loadURLOperationalBaseline `{FeedLibs, BaselineJSON} (read : string → result string)
    (path modelVersion revision : string) : result URLOperationalBaseline :=
  if String.eqb path "" then Err "baseline path is empty"
  else match read path with
  | Err e => Err ("read baseline: " ++ e)
  | Ok raw =>
      match decode_baseline raw with
      | Err e => Err ("parse baseline: " ++ e)
      | Ok file =>
          if negb (SchemaVersion file =? 1)%Z then Err "unsupported baseline schema_version"
          else if negb (String.eqb (Kind file) "url_ml_shadow_operational_baseline")
                  && negb (String.eqb (Kind file) "url_ml_operational_baseline") then Err "unexpected baseline kind"
          else if negb (String.eqb (FModelVersion file) modelVersion) || negb (String.eqb (FRevision file) revision) then
            Err "baseline model mismatch"
          else match bucket_counts (ProbabilityHistogram file) mlProbabilityBuckets f_zero with
          | Err e => Err e
          | Ok (counts, total) =>
              if negb (f_lt f_zero total) then Err "baseline probability histogram is empty"
              else Ok (mkBaseline path (hex_string (sha256_sum raw)) (FModelVersion file) (FRevision file)
                         "frozen_operational_shadow_traffic" (f_trunc total) (FTrafficScope file) (FRecordedAt file)
                         mlProbabilityBuckets ((λ count, f_div count total) <$> counts) urlOpsBaselineMinSamples
                         urlOpsBaselineWatchThreshold urlOpsBaselineAlertThreshold)
          end
      end
  end.
Record URLMLOpsBaselineStatus := mkBaselineStatus {
  Loaded : bool; SPath : string; SSHA256 : string; SModelVersion : string; SRevision : string; SReferenceKind : string;
  SReferenceRows : Z; STrafficScope : string; SOperational : bool; FailOpen : bool; SErrorClass : string;
  SMinimumLiveSamples : Z; SWatchThreshold : float64; SAlertThreshold : float64; SRecordedAt : string
}.
Definition baseline_status (b : URLOperationalBaseline) : URLMLOpsBaselineStatus :=
  mkBaselineStatus true (BPath b) (BSHA256 b) (BModelVersion b) (BRevision b) (BReferenceKind b) (BReferenceRows b)
    (BTrafficScope b) true false "" (BMinimumLiveSamples b) (WatchThreshold b) (AlertThreshold b) (BRecordedAt b).
Definition urlMLOpsBaselineStatus (baseline : option URLOperationalBaseline) (failed : bool) (class : string)
    : URLMLOpsBaselineStatus :=
  match baseline with
  | Some b => baseline_status b
  | None => mkBaselineStatus false "" "" "" "" "" 0 "" false failed class 0 f_zero f_zero ""
  end.

(** ** Drift *)

Record URLMLDriftStatus := mkDrift {
  DState : string; PopulationStabilityIndex : float64; LiveSamples : Z; DMinimumLiveSamples : Z; DReferenceKind : string;
  DReferenceRows : Z; OperationalReference : bool; DWatchThreshold : float64; DAlertThreshold : float64;
  Interpretation : string
}.
Definition baseline_reference (b : URLOperationalBaseline) : URLMonitoringReference :=
  mkReference (BReferenceKind b) (BReferenceRows b) true (BucketNames b) (Distribution b) (BMinimumLiveSamples b)
    (WatchThreshold b) (AlertThreshold b).
Definition f_half : float64 := f_div f_one (f_of_Z 2).
Definition f_le (a b : float64) : bool := SFleb a b.
Definition psi_term `{FloatMath} (denominator scale referenceDenominator : float64) (count share : float64) : float64 :=
  let liveShare := f_div (f_add count f_half) denominator in
  let referenceShare := f_div (f_add (f_mul share scale) f_half) referenceDenominator in
  f_mul (f_sub liveShare referenceShare) (Log (f_div liveShare referenceShare)).
Definition psi_of `{FloatMath} (live distribution : list float64) (total rows : Z) : float64 :=
  let ten := f_mul f_half (f_of_Z (Z.of_nat (length live))) in
  let denominator := f_add (f_of_Z total) ten in
  let scale := f_of_Z rows in
  let referenceDenominator := f_add scale (f_mul f_half (f_of_Z (Z.of_nat (length distribution)))) in
  foldl (λ psi '(count, share), f_add psi (psi_term denominator scale referenceDenominator count share)) f_zero
    (zip live distribution).
Definition live_buckets (t : urlMLTelemetry) : list Z := (λ i, t (probabilityBucket i)) <$> seq 0 probability_buckets.
Definition total_count (counts : list Z) : Z := foldr Z.add 0%Z counts.
(** The state of a finite index. *)
Definition drift_state (psi watch alert : float64) : string :=
  if f_le alert psi then "alert" else if f_le watch psi then "watch" else "stable".
Definition population_only : string := "population shift only; calibration requires labels".
Definition drift_against `{FloatMath} (r : URLMonitoringReference) (t : urlMLTelemetry) : URLMLDriftStatus :=
  let status state psi samples interpretation :=
    mkDrift state psi samples (MinimumLiveSamples r) (ReferenceKind r) (ReferenceRows r) (Operational r)
      (PSIWatchThreshold r) (PSIAlertThreshold r) interpretation in
  if negb (length (ProbabilityDistribution r) =? probability_buckets)%nat
     || negb (bool_decide (ProbabilityBuckets r = mlProbabilityBuckets))
  then status "unavailable" f_zero 0%Z population_only
  else
    let live := live_buckets t in
    let total := total_count live in
    if (total <? MinimumLiveSamples r)%Z then status "insufficient_data" f_zero total population_only
    else if f_le (f_of_Z (ReferenceRows r)) f_zero then status "unavailable" f_zero total population_only
    else
      let psi := psi_of (f_of_Z <$> live) (ProbabilityDistribution r) total (ReferenceRows r) in
      if negb (f_finite psi) then
        status "alert" (PSIAlertThreshold r) total
          "population stability index was not finite; treated as drift until the reference is re-frozen"
      else if negb (Operational r) then
        status "proxy_shift" psi total
          "diagnostic shift against a balanced offline proxy; non-blocking until a representative live baseline is frozen"
      else status (drift_state psi (PSIWatchThreshold r) (PSIAlertThreshold r)) psi total population_only.
Definition urlMLDriftStatus `{FloatMath, URLClassifier} (baseline : option URLOperationalBaseline) (t : urlMLTelemetry)
    : URLMLDriftStatus :=
  match baseline with
  | Some b => drift_against (baseline_reference b) t
  | None =>
      match url_reference with
      | Some r => drift_against r t
      | None => mkDrift "unavailable" f_zero 0 0 "" 0 false f_zero f_zero ""
      end
  end.

(** ** Status *)

Record URLMLSamplingStatus := mkSampling { SPercent : Z; Algorithm : string; SelectorRevision : string; Selected : Z; Excluded : Z }.
Record URLMLCoverageStatus := mkCoverage {
  AnalyzeRequests : Z; URLContextRequests : Z; ContextCoverageRate : float64; RedirectChainPresent : Z;
  CallerBreakdown : list (string * Z); MissingContextBreakdown : list (string * Z)
}.
(** The counters of an array under their names. *)
Definition breakdown (names : list string) (counter : nat → UrlCounter) (t : urlMLTelemetry) : list (string * Z) :=
  imap (λ i name, (name, t (counter i))) names.
Definition urlMLCoverageStatus (t : urlMLTelemetry) : URLMLCoverageStatus :=
  let callers := breakdown urlMLCallerClasses callerBucket t in
  let total := total_count callers.*2 in
  mkCoverage (t analyzeRequests) total
    (if (0 <? t analyzeRequests)%Z then f_div (f_of_Z total) (f_of_Z (t analyzeRequests)) else f_zero)
    (t redirectPresent) callers (breakdown urlMLMissingContextReasons missingContextBucket t).

Record URLMLStatus := mkURLStatus {
  UMode : MLMode; UEnabled : bool; UState : string; UModelVersion : string; URevision : string; PolicyRevision : string;
  URLThreshold : float64; ContextRequests : Z; PredictionAttempts : Z; UWouldPromote : Z; WouldPromoteHeld : Z;
  WouldPass : Z; Errors : Z; Skips : Z; LatencyP95 : Z; LatencyCount : Z; LatencyAverageMicros : Z;
  LatencyHistogram : list (string * Z); UProbabilityHistogram : list (string * Z); ErrorHistogram : list (string * Z);
  InputHistogram : list (string * Z); VerdictHistogram : list (string * Z); WouldPromoteByVerdict : list (string * Z);
  Sampling : URLMLSamplingStatus; Drift : URLMLDriftStatus; Coverage : URLMLCoverageStatus;
  Feedback : URLMLFeedbackStatus; Baseline : URLMLOpsBaselineStatus
}.
Definition mlState (mode : MLMode) (enabled : bool) : string :=
  if bool_decide (mode = MLModeDisabled) then "disabled" else if enabled then "ready" else "degraded".
Definition latency_names : list string :=
  (((λ upper, ("le_" ++ dec_string upper ++ "us")%string) <$> mlLatencyBuckets) ++ ["gt_50000us"])%list.
Definition verdict_names : list string := ["safe"; "suspicious"; "malicious"].

Section Status.
Context `{UnicodeTables, FeedLibs, FloatMath, URLClassifier} {S : Type} `{FeedbackBackend S}.
Context (mode : MLMode) (shadow : URLMLShadowConfig) (baseline : option URLOperationalBaseline) (failed : bool)
  (class : string).

Definition currentURLMLPolicyRevision : string :=
  if negb url_enabled then ""
  else hex_string (sha256_sum ("model=" ++ url_revision ++ newline ++ "mode=" ++ mode_string mode ++ newline ++ "sampling="
         ++ shadow_revision shadow ++ newline)).
(** The telemetry and the backend are read at one moment. *)
Definition URLMLStatus_ (call : FeedbackCall) (t : urlMLTelemetry) (feedback : S) : URLMLStatus :=
  let latency := breakdown latency_names latencyBucket t in
  mkURLStatus mode url_enabled (mlState mode url_enabled) (match url_metadata with Some (v, _) => v | None => "" end)
    (if url_enabled then url_revision else "") currentURLMLPolicyRevision
    (match url_metadata with Some (_, threshold) => threshold | None => f_zero end)
    (t contextRequests) (t predictionAttempts) (t wouldPromoteCount) (t heldPromote) (t wouldPass) (t errorCount) (t skips)
    (latencyP95Micros latency.*2 (t latencyCount)) (t latencyCount)
    (if (0 <? t latencyCount)%Z then Z.quot (t latencyTotalMicros) (t latencyCount) else 0%Z)
    latency (breakdown mlProbabilityBuckets probabilityBucket t)
    [("invalid_url_context", t invalidContext); ("prediction_error", t predictionErrors)]
    (("query_present", t queryPresent) :: ("query_absent", t queryAbsent)
       :: breakdown ["redirects_0"; "redirects_1"; "redirects_2_to_5"] redirectBucket t)
    (breakdown verdict_names verdictBucket t) (breakdown verdict_names promoteVerdictBucket t)
    (mkSampling (ShadowPercent shadow) urlMLSelectorAlgorithm (shadow_revision shadow) (t selected) (t excluded))
    (urlMLDriftStatus baseline t) (urlMLCoverageStatus t) (backend_status call feedback)
    (urlMLOpsBaselineStatus baseline failed class).
End Status.
