(* ===== verification/URLShadowSpec.v ===== *)
(** * Theorems about [URLShadow]: what an observation says, the counters under any
    interleaving, and drift *)

From Stdlib Require Import ZArith Lia Ascii String SpecFloat.
From S2P Require Import Prelude GoStr Hostname NetIP GoFloat Whitelist Category EditDist Brand Feed FeedSync DomainML Session URLFeedback URLShadow.

(** ** Sampling *)

(** A larger percentage samples what a smaller one does. *)
Lemma shadow_nested `{UnicodeTables, FeedLibs} seed p q domain :
  (p <= q)%Z → shadow_eligible (mkShadow p seed) domain = true → shadow_eligible (mkShadow q seed) domain = true.
Proof.
  unfold shadow_eligible. simpl. intros Hpq. destruct (Z.leb_spec 100 q); [done|].
  destruct (Z.leb_spec 100 p); [lia|]. rewrite !Z.ltb_lt. lia.
Qed.
(** The configuration in use is valid. *)
Lemma shadow_selected_valid `{UnicodeTables} c : shadow_validate (shadow_selected c) = None.
Proof.
  unfold shadow_selected. set (d := if (ShadowPercent c =? 0)%Z then _ else _).
  destruct (shadow_validate d) eqn:Hd; [done|exact Hd].
Qed.

(** ** The observation *)

Section Observation.
Context `{UnicodeTables, HostServices, EditDist.RuneTables, FeedLibs, URLClassifier}.
Context (mode : MLMode) (shadow : URLMLShadowConfig) (brands : list Brand) (feed : string → result bool).

Definition in_sample (domain : string) : Prop :=
  mode = MLModeShadow ∧ url_enabled = true ∧ shadow_eligible shadow domain = true.
(** The model says promote, and the host is a trusted brand the feed knows nothing of. *)
Definition says_promote (domain : string) (ctx : URLAnalysisContext) : Prop :=
  ∃ d revision, ClassifyURL (mkURLContext (CtxRequestedURL ctx) domain (CtxRedirectChain ctx)) = Ok (d, revision)
                ∧ Action d = MLActionPromoteMalicious.
Definition trusted_and_clean (domain : string) : Prop :=
  IsTrustedBrandSuffix domain brands = true ∧ feed domain = Ok false.
Definition feeds (steps : list ShadowStep) : list (string * float64 * bool) :=
  omap (λ s, match s with Feed id p would => Some (id, p, would) | Add _ _ => None end) steps.
#[local] Arguments feeds : simpl never.
#[local] Arguments url_observeProbability : simpl never.

Lemma hold_reason domain :
  (urlPromoteHoldReason brands feed domain = urlPromoteHoldTrustedHost ∧ trusted_and_clean domain)
  ∨ (urlPromoteHoldReason brands feed domain = "" ∧ ¬ trusted_and_clean domain).
Proof.
  unfold urlPromoteHoldReason, trusted_and_clean. destruct (IsTrustedBrandSuffix domain brands); simpl; [|by right; split; [|intros [? _]]].
  destruct (feed domain) as [[]|]; [by right; split; [|intros [_ ?]]|by left|by right; split; [|intros [_ ?]]].
Qed.
Lemma feeds_app a b : feeds (a ++ b) = (feeds a ++ feeds b)%list.
Proof. apply omap_app. Qed.
Lemma feeds_inc c l : feeds (inc c :: l) = feeds l.
Proof. done. Qed.
Lemma feeds_add c n l : feeds (Add c n :: l) = feeds l.
Proof. done. Qed.
Lemma feeds_feed id p would l : feeds (Feed id p would :: l) = (id, p, would) :: feeds l.
Proof. done. Qed.
Lemma feeds_context ctx : feeds (context_steps ctx) = [].
Proof. unfold context_steps. by destruct (CtxRedirectChain ctx). Qed.
Lemma feeds_probability p : feeds (url_observeProbability p) = [].
Proof. unfold url_observeProbability. by destruct (probabilityBucketIndex p). Qed.

Ltac feed_list := repeat (rewrite feeds_app || rewrite feeds_inc || rewrite feeds_add || rewrite feeds_feed || rewrite feeds_probability).

(** [observeURLML] samples a request exactly in shadow mode, with a classifier that is
    there and a domain of the sample.  It would promote exactly when the model says so for
    a sampled request, except on a trusted brand's host about which the feed answered and
    knows nothing: then the promotion is held, and a failing lookup never holds one back.
    A sampled request hands its event to the feedback backend exactly once, classified or not,
    with the promotion as observed; any other hands over nothing. *)
Theorem observation_exact domain verdict ctx micros :
  let r := observeURLML mode shadow brands feed domain verdict ctx micros in
  (Sampled r.1 = true ↔ in_sample domain)
  ∧ (WouldPromote r.1 = true ↔ in_sample domain ∧ says_promote domain ctx ∧ ¬ trusted_and_clean domain)
  ∧ (Held r.1 = true ↔ in_sample domain ∧ says_promote domain ctx ∧ trusted_and_clean domain)
  ∧ (HoldReason r.1 = if Held r.1 then urlPromoteHoldTrustedHost else "")
  ∧ (Evaluated r.1 = true ↔ in_sample domain ∧
       is_ok (ClassifyURL (mkURLContext (CtxRequestedURL ctx) domain (CtxRedirectChain ctx))) = true)
  ∧ ((in_sample domain ∧ ∃ p, feeds r.2 = [(EventID ctx, p, WouldPromote r.1)]) ∨ (¬ in_sample domain ∧ feeds r.2 = [])).
Proof.
  intros r. unfold r, observeURLML, in_sample. pose proof (feeds_context ctx) as Hcs.
  generalize dependent (context_steps ctx). intros cs Hcs.
  destruct (decide (mode = MLModeShadow)) as [Hm|Hm]; [rewrite bool_decide_true by done|rewrite bool_decide_false by done; simpl].
  2: { feed_list; rewrite Hcs. split_and!; try (split; [done|naive_solver]); [done|right; naive_solver]. }
  destruct url_enabled eqn:He; simpl.
  2: { feed_list; rewrite Hcs. split_and!; try (split; [done|naive_solver]); [done|right; naive_solver]. }
  destruct (shadow_eligible shadow domain) eqn:Hs; simpl.
  2: { feed_list; rewrite Hcs. split_and!; try (split; [done|naive_solver]); [done|right; naive_solver]. }
  unfold outcome, says_promote.
  destruct (ClassifyURL _) as [[d revision]|message] eqn:Hc; simpl.
  2: { feed_list; rewrite Hcs. simpl. split_and!; try (split; [done|naive_solver congruence]); [done..|].
       left. split; [done|]. by eexists. }
  assert (Action d = MLActionPromoteMalicious ∨ Action d ≠ MLActionPromoteMalicious) as [Ha|Ha]
    by (destruct (decide (Action d = MLActionPromoteMalicious)); auto).
  - rewrite Ha, String.eqb_refl. destruct (hold_reason domain) as [[-> Ht]|[-> Ht]]; simpl;
      feed_list; rewrite Hcs; simpl; split_and!;
      try (split; [naive_solver|naive_solver congruence]); try done; left; (split; [done|by eexists]).
  - apply String.eqb_neq in Ha as Hb. rewrite Hb. simpl.
    feed_list; rewrite Hcs. simpl. split_and!;
      try (split; [naive_solver congruence|naive_solver congruence]); try done; left; (split; [done|by eexists]).
Qed.
End Observation.

(** ** The counters *)

(** The sum of some counters, and what steps add to it. *)
Definition value (cs : list UrlCounter) (t : urlMLTelemetry) : Z := total_count (t <$> cs).
Definition counter_eqb (a b : UrlCounter) : bool :=
  match a, b with
  | contextRequests, contextRequests | predictionAttempts, predictionAttempts | wouldPromoteCount, wouldPromoteCount
  | wouldPass, wouldPass | heldPromote, heldPromote | errorCount, errorCount | skips, skips | latencyCount, latencyCount
  | latencyTotalMicros, latencyTotalMicros | selected, selected | excluded, excluded | invalidContext, invalidContext
  | predictionErrors, predictionErrors | queryPresent, queryPresent | queryAbsent, queryAbsent
  | analyzeRequests, analyzeRequests | urlContextRequests, urlContextRequests | redirectPresent, redirectPresent => true
  | latencyBucket i, latencyBucket j | probabilityBucket i, probabilityBucket j | redirectBucket i, redirectBucket j
  | verdictBucket i, verdictBucket j | promoteVerdictBucket i, promoteVerdictBucket j | callerBucket i, callerBucket j
  | missingContextBucket i, missingContextBucket j => Nat.eqb i j
  | _, _ => false
  end.
Lemma counter_eqb_spec a b : reflect (a = b) (counter_eqb a b).
Proof.
  destruct a, b; simpl; try (by constructor); try (destruct (Nat.eqb_spec i i0); constructor; congruence).
Qed.
Definition gain (cs : list UrlCounter) (st : ShadowStep) : Z :=
  match st with Add c n => if existsb (counter_eqb c) cs then n else 0%Z | Feed _ _ _ => 0%Z end.
Definition gains (cs : list UrlCounter) (steps : list ShadowStep) : Z := foldr (λ st n, (gain cs st + n)%Z) 0%Z steps.
Lemma gains_cons cs st rest : gains cs (st :: rest) = (gain cs st + gains cs rest)%Z.
Proof. done. Qed.
Lemma gains_app cs a b : gains cs (a ++ b) = (gains cs a + gains cs b)%Z.
Proof. induction a as [|st a IH]; [done|]. simpl. rewrite IH. lia. Qed.

Lemma existsb_counter c cs : existsb (counter_eqb c) cs = true ↔ c ∈ cs.
Proof.
  rewrite existsb_exists. split.
  - intros (b & Hb & Heq). destruct (counter_eqb_spec c b) as [->|]; [by apply list_elem_of_In|done].
  - intros Hc. exists c. split; [by apply list_elem_of_In|]. by destruct (counter_eqb_spec c c).
Qed.
Lemma value_cons a cs t : value (a :: cs) t = (t a + value cs t)%Z.
Proof. done. Qed.
Lemma value_zero cs : value cs no_telemetry = 0%Z.
Proof. induction cs as [|a cs IH]; [done|]. rewrite value_cons, IH. done. Qed.
Lemma value_add cs c n t :
  NoDup cs → value cs (add_counter c n t) = (value cs t + gain cs (Add c n))%Z.
Proof.
  unfold gain. induction cs as [|a cs IH]; intros Hnd; [done|]. apply NoDup_cons in Hnd as [Ha Hnd].
  specialize (IH Hnd). rewrite !value_cons, IH. cbn [existsb]. unfold add_counter at 1.
  destruct (counter_eqb_spec c a) as [<-|Hne]; cbn [orb].
  - rewrite decide_True by done. assert (existsb (counter_eqb c) cs = false) as ->
      by (apply not_true_iff_false; by rewrite existsb_counter). lia.
  - rewrite decide_False by congruence. destruct (existsb _ cs); lia.
Qed.

(** A whole and its parts: the parts are never ahead of the whole, and in the end they make
    it up. *)
Definition family (counter : nat → UrlCounter) (n : nat) : list UrlCounter := counter <$> seq 0 n.
Definition laws : list (list UrlCounter * list UrlCounter) := [
  (contextRequests :: family missingContextBucket 3, [analyzeRequests]);
  ([urlContextRequests], [contextRequests]);
  (family callerBucket 6, [urlContextRequests]);
  ([skips; excluded; selected], [contextRequests]);
  ([predictionAttempts], [selected]);
  ([queryPresent; queryAbsent], [predictionAttempts]);
  (family redirectBucket 3, [predictionAttempts]);
  (family verdictBucket 3, [predictionAttempts]);
  ([latencyCount], [predictionAttempts]);
  (family latencyBucket 9, [latencyCount]);
  ([errorCount; wouldPromoteCount; wouldPass], [latencyCount]);
  ([invalidContext; predictionErrors], [errorCount]);
  (family promoteVerdictBucket 3, [wouldPromoteCount])].
(** What is still to come favours the parts, at every point of the steps. *)
Fixpoint owes (parts whole : list UrlCounter) (steps : list ShadowStep) : bool :=
  match steps with
  | [] => true
  | st :: rest => (gains whole steps <=? gains parts steps)%Z && owes parts whole rest
  end.
Definition balanced (steps : list ShadowStep) (law : list UrlCounter * list UrlCounter) : Prop :=
  owes law.1 law.2 steps = true ∧ gains law.1 steps = gains law.2 steps.
Lemma owes_gains parts whole steps : owes parts whole steps = true → (gains whole steps <= gains parts steps)%Z.
Proof. destruct steps; [done|]. simpl. intros [Hle _]%andb_prop. by apply Z.leb_le. Qed.
Lemma owes_tail parts whole st steps : owes parts whole (st :: steps) = true → owes parts whole steps = true.
Proof. simpl. by intros [_ ?]%andb_prop. Qed.

(** The indices that occur. *)
Lemma latency_slot_bound micros : latency_slot mlLatencyBuckets micros < 9.
Proof. simpl. repeat case_match; lia. Qed.
Lemma class_index_bound class names i : class_index class names i < Nat.max 1 (i + length names).
Proof.
  revert i. induction names as [|name names IH]; intros i; simpl; [lia|]. destruct (String.eqb name class); [lia|].
  specialize (IH (S i)). lia.
Qed.
Lemma caller_bound raw : urlMLCallerIndex raw < 6.
Proof. apply (class_index_bound _ urlMLCallerClasses 0). Qed.
Lemma missing_bound raw : normalizeURLMLMissingContextReason raw < 3.
Proof. unfold normalizeURLMLMissingContextReason. repeat case_match; lia. Qed.
Lemma verdict_bound v : urlMLVerdictIndex v < 3.
Proof. destruct v; simpl; lia. Qed.

Ltac split_index :=
  match goal with
  | |- context [Nat.eqb ?i _] =>
      is_var i; destruct i as [|i]; [|try lia]; cbn
  end.
Ltac law_check := cbn; repeat split_index; try done.

Section Counters.
Context `{UnicodeTables, HostServices, EditDist.RuneTables, FeedLibs, URLClassifier}.

(** The steps of a request, with the indices as variables. *)
Lemma unsampled_balanced i chain c :
  i < 6 → (chain = [] ∨ chain = [inc redirectPresent]) → (c = skips ∨ c = excluded) →
  Forall (balanced (inc analyzeRequests :: ([inc contextRequests; inc urlContextRequests; inc (callerBucket i)] ++ chain) ++ [inc c])) laws.
Proof.
  intros Hi Hchain Hc. destruct Hchain as [-> | ->], Hc as [-> | ->]; repeat (apply Forall_cons; split); try apply Forall_nil_2;
    split; law_check.
Qed.
Inductive outcome_tail (v : nat) : list ShadowStep → Prop :=
  | tail_error c id p : c = invalidContext ∨ c = predictionErrors → outcome_tail v [inc errorCount; inc c; Feed id p false]
  | tail_held ps id p : (ps = [] ∨ ∃ k, ps = [inc (probabilityBucket k)]) →
      outcome_tail v (ps ++ [inc heldPromote; inc wouldPass; Feed id p false])
  | tail_promote ps id p : (ps = [] ∨ ∃ k, ps = [inc (probabilityBucket k)]) →
      outcome_tail v (ps ++ [inc wouldPromoteCount; inc (promoteVerdictBucket v); Feed id p true])
  | tail_pass ps id p : (ps = [] ∨ ∃ k, ps = [inc (probabilityBucket k)]) →
      outcome_tail v (ps ++ [inc wouldPass; Feed id p false]).
Lemma sampled_balanced i chain q j v micros s tail :
  i < 6 → (chain = [] ∨ chain = [inc redirectPresent]) → (q = queryPresent ∨ q = queryAbsent) → j < 3 → v < 3 → s < 9 →
  outcome_tail v tail →
  Forall (balanced (inc analyzeRequests :: ([inc contextRequests; inc urlContextRequests; inc (callerBucket i)] ++ chain)
    ++ [inc selected; inc predictionAttempts; inc q; inc (redirectBucket j); inc (verdictBucket v)]
    ++ [inc latencyCount; Add latencyTotalMicros micros; inc (latencyBucket s)] ++ tail)) laws.
Proof.
  intros Hi Hchain Hq Hj Hv Hs Htail.
  destruct Hchain as [-> | ->], Hq as [-> | ->], Htail as [c id p [-> | ->]|ps id p [->|[k ->]]|ps id p [->|[k ->]]|ps id p [->|[k ->]]];
    repeat (apply Forall_cons; split); try apply Forall_nil_2; split; law_check.
Qed.
Lemma probability_steps p : url_observeProbability p = [] ∨ ∃ k, url_observeProbability p = [inc (probabilityBucket k)].
Proof. unfold url_observeProbability. destruct (probabilityBucketIndex p) as [k|]; [right; by exists k|by left]. Qed.
Lemma outcome_steps mode brands feed domain verdict ctx micros :
  outcome_tail (urlMLVerdictIndex verdict) (outcome mode brands feed domain verdict ctx micros).2.
Proof.
  unfold outcome. destruct (ClassifyURL _) as [[d revision]|message]; simpl.
  - pose proof (probability_steps (Probability d)). repeat case_match; simpl; by constructor.
  - constructor. destruct (String.eqb _ _); auto.
Qed.
(** Every request is balanced, from any point of it to its end. *)
Lemma request_balanced mode shadow brands feed domain verdict context reason micros :
  Forall (balanced (analyze_steps mode shadow brands feed domain verdict context reason micros).2) laws.
Proof.
  unfold analyze_steps. destruct context as [ctx|]; cycle 1.
  { cbn [snd]. unfold noteMissingContext. pose proof (missing_bound reason) as Hm.
    generalize dependent (normalizeURLMLMissingContextReason reason). intros m Hm.
    repeat (apply Forall_cons; split); try apply Forall_nil_2; split; law_check. }
  set (chain := match CtxRedirectChain ctx with [] => [] | _ => [inc redirectPresent] end).
  assert (chain = [] ∨ chain = [inc redirectPresent]) as Hchain by (subst chain; destruct (CtxRedirectChain ctx); auto).
  assert (context_steps ctx = [inc contextRequests; inc urlContextRequests; inc (callerBucket (urlMLCallerIndex (CallerClass ctx)))]
            ++ chain)%list as Hctx by done.
  pose proof (caller_bound (CallerClass ctx)) as Hi. generalize dependent chain. intros chain Hchain Hctx.
  unfold observeURLML. rewrite Hctx.
  destruct (negb _ || negb url_enabled); [by apply unsampled_balanced; auto|].
  destruct (negb _); [by apply unsampled_balanced; auto|].
  pose proof (outcome_steps mode brands feed domain verdict ctx micros) as Htail.
  destruct (outcome _ _ _ _ _ _ _) as [observation tail]. cbn [snd] in *. unfold input_steps, url_observeLatency.
  apply sampled_balanced; [done|done| |lia|apply verdict_bound|apply latency_slot_bound|done].
  destruct (Contains _ _); auto.
Qed.
End Counters.

(** Requests over one engine: each runs through its steps, one at a time, in any order with
    the others. *)
Record ShadowWorld (S : Type) := mkWorld { telemetry : urlMLTelemetry; backend : S; running : list (list ShadowStep) }.
Arguments mkWorld {S}. Arguments telemetry {S}. Arguments backend {S}. Arguments running {S}.

Section System.
Context `{UnicodeTables, HostServices, EditDist.RuneTables, FeedLibs, URLClassifier} {S : Type} `{FeedbackBackend S}.
Context (mode : MLMode) (shadow : URLMLShadowConfig).

Definition exec (call : FeedbackCall) (st : ShadowStep) (t : urlMLTelemetry) (s : S) : urlMLTelemetry * S :=
  match st with
  | Add c n => (add_counter c n t, s)
  | Feed id p would => (t, backend_record call id p would s)
  end.
Inductive shadow_step : ShadowWorld S → ShadowWorld S → Prop :=
  | begins w brands feed domain verdict context reason micros :
      shadow_step w (mkWorld (telemetry w) (backend w)
        ((analyze_steps mode shadow brands feed domain verdict context reason micros).2 :: running w))
  | advances call t s before st rest after :
      shadow_step (mkWorld t s (before ++ (st :: rest) :: after)%list)
        (mkWorld (exec call st t s).1 (exec call st t s).2 (before ++ rest :: after)%list).

Definition pending (cs : list UrlCounter) (w : ShadowWorld S) : Z := foldr (λ l n, (gains cs l + n)%Z) 0%Z (running w).
(** A law in a world: the sums with what is to come are equal, and what is to come favours
    the parts. *)
Definition law_holds (w : ShadowWorld S) (law : list UrlCounter * list UrlCounter) : Prop :=
  (value law.1 (telemetry w) + pending law.1 w = value law.2 (telemetry w) + pending law.2 w)%Z
  ∧ Forall (λ l, owes law.1 law.2 l = true) (running w).
Lemma shadow_pending_app cs t s a b :
  pending cs (mkWorld t s (a ++ b)) = (pending cs (mkWorld t s a) + pending cs (mkWorld t s b))%Z.
Proof. unfold pending. simpl. induction a as [|l a IH]; [done|]. simpl. rewrite IH. lia. Qed.
Lemma laws_nodup : Forall (λ law : list UrlCounter * list UrlCounter, NoDup law.1 ∧ NoDup law.2) laws.
Proof. by apply (bool_decide_unpack _). Qed.

Lemma law_step w w' law :
  NoDup law.1 → NoDup law.2 → law ∈ laws → shadow_step w w' → law_holds w law → law_holds w' law.
Proof.
  intros H1nd H2nd Hin Hstep [Heq Howes]. destruct Hstep as [w brands feed domain verdict context reason micros|call t s before st rest after].
  - pose proof (request_balanced mode shadow brands feed domain verdict context reason micros) as Hb.
    rewrite Forall_forall in Hb. destruct (Hb law Hin) as [Ho Hg]. split; cbn [telemetry running].
    + unfold pending in *. cbn [telemetry running foldr]. lia.
    + by apply Forall_cons.
  - simpl in *. apply Forall_app in Howes as [Hbefore [Hst Hafter]%Forall_cons]. split; cycle 1.
    { apply Forall_app. split; [done|]. apply Forall_cons. split; [by eapply owes_tail|done]. }
    cbn [telemetry]. rewrite !shadow_pending_app in *. unfold pending in *. cbn [telemetry running foldr] in *.
    rewrite !gains_cons in Heq. destruct st as [c n|id p would]; cbn [exec fst].
    + rewrite !value_add by done. lia.
    + cbn [gain] in Heq. lia.
Qed.
Lemma pending_owes parts whole w :
  Forall (λ l, owes parts whole l = true) (running w) → (pending whole w <= pending parts w)%Z.
Proof.
  unfold pending. induction 1 as [|l ls Hl _ IH]; simpl; [done|]. pose proof (owes_gains _ _ _ Hl). lia.
Qed.

(** The counters of the URL classifier, over any requests whose atomic steps interleave in
    any way.  At every moment the parts of each [law] are at most their whole, so the status
    never shows, say, more outcomes than predictions or more contexts than requests; and
    when no request is under way they make up the whole: requests are those with and without
    a context, contexts are skipped, excluded or selected, and split by caller; selected ones
    are predicted, and split by query, redirects, verdict and latency; predictions are
    errors, promotions or passes, with the errors and promotions split in turn. *)
Theorem counters_conserved s0 w :
  rtc shadow_step (mkWorld no_telemetry s0 []) w →
  Forall (λ '(parts, whole), (value parts (telemetry w) <= value whole (telemetry w))%Z
            ∧ (Forall (λ l, l = []) (running w) → value parts (telemetry w) = value whole (telemetry w))) laws.
Proof.
  intros Hrun. assert (∀ law, law ∈ laws → law_holds w law) as Hall.
  { intros law Hin. pose proof laws_nodup as Hnd. rewrite Forall_forall in Hnd. destruct (Hnd law Hin) as [Hn1 Hn2].
    assert (law_holds (mkWorld no_telemetry s0 []) law) as H0w.
    { split; simpl; [|done]. by rewrite !value_zero. }
    clear Hnd. remember (mkWorld no_telemetry s0 []) as w0. clear Heqw0. induction Hrun as [|x y z Hxy _ IH]; [done|].
    apply IH. by eapply law_step. }
  assert (∀ parts whole, (parts, whole) ∈ laws → (value parts (telemetry w) <= value whole (telemetry w))%Z) as Hle.
  { intros parts whole Hin. destruct (Hall _ Hin) as [Heq Ho]. pose proof (pending_owes _ _ _ Ho). simpl in *. lia. }
  apply Forall_forall. intros [parts whole] Hin. split; [by apply Hle|]. intros Hidle.
  destruct (Hall _ Hin) as [Heq _]. simpl in Heq.
  assert (∀ cs, pending cs w = 0%Z) as Hp.
  { intros cs. unfold pending. induction Hidle as [|l ls -> _ IH]; simpl; [done|lia]. }
  rewrite !Hp in Heq. lia.
Qed.
End System.

(** ** Drift *)

Section Drift.
Context `{FeedLibs, BaselineJSON, FloatMath, URLClassifier}.

(** A baseline that loads has the buckets of the histogram, its own counts for its model,
    and the fixed thresholds. *)
Lemma bucket_counts_length histogram names total counts total' :
  bucket_counts histogram names total = Ok (counts, total') → length counts = length names.
Proof.
  revert total counts. induction names as [|name names IH]; intros total counts; simpl; [by intros [= <- <-]|].
  destruct (histogram !! name) as [count|]; [|done]. destruct (count <? 0)%Z; [done|].
  destruct (bucket_counts histogram names _) as [[counts1 total1]|] eqn:Hb; [|done]. intros [= <- <-].
  simpl. by rewrite (IH _ _ Hb).
Qed.
Lemma loaded_baseline read path version revision b :
  loadURLOperationalBaseline read path version revision = Ok b →
  BModelVersion b = version ∧ BRevision b = revision ∧ BucketNames b = mlProbabilityBuckets
  ∧ length (Distribution b) = probability_buckets ∧ BMinimumLiveSamples b = urlOpsBaselineMinSamples
  ∧ WatchThreshold b = urlOpsBaselineWatchThreshold ∧ AlertThreshold b = urlOpsBaselineAlertThreshold.
Proof.
  unfold loadURLOperationalBaseline. destruct (String.eqb path ""); [done|]. destruct (read path) as [raw|]; [|done].
  destruct (decode_baseline raw) as [file|]; [|done].
  destruct (negb (SchemaVersion file =? 1)%Z); [done|]. destruct (negb _ && negb _); [done|].
  destruct (negb _ || negb _) eqn:Hm; [done|]. apply orb_false_elim in Hm as [Hv Hr].
  apply negb_false_iff, String.eqb_eq in Hv, Hr.
  destruct (bucket_counts _ _ _) as [[counts total]|] eqn:Hb; [|done]. destruct (negb (f_lt f_zero total)); [done|].
  intros [= <-]. simpl. apply bucket_counts_length in Hb. split_and!; try done. by rewrite length_fmap, Hb.
Qed.
(** Drift against a loaded baseline is known from the first hundred samples on, and what is
    published is a finite number. *)
Lemma drift_known read path version revision b t :
  loadURLOperationalBaseline read path version revision = Ok b → f_le (f_of_Z (BReferenceRows b)) f_zero = false →
  let d := urlMLDriftStatus (Some b) t in
  LiveSamples d = total_count (live_buckets t) ∧ f_finite (PopulationStabilityIndex d) = true
  ∧ (DState d = "insufficient_data" ↔ (total_count (live_buckets t) < 100)%Z)
  ∧ ((100 <= total_count (live_buckets t))%Z → DState d ∈ ["alert"; "watch"; "stable"]).
Proof.
  intros Hload Hrows d. destruct (loaded_baseline _ _ _ _ _ Hload) as (_ & _ & Hn & Hl & Hm & Hw & Ha).
  unfold d, urlMLDriftStatus, drift_against. generalize (live_buckets t). intros live.
  generalize (total_count live). intros total. simpl.
  rewrite Hl, Hm, Hw, Ha, Hrows, bool_decide_true by done.
  change (negb (probability_buckets =? probability_buckets)%nat || negb true) with false. cbv iota.
  unfold urlOpsBaselineMinSamples. destruct (Z.ltb_spec total 100) as [Hlt|Hge].
  { split; [reflexivity|]. split; [reflexivity|]. split; [split; [intros _; exact Hlt|intros _; reflexivity]|intros; lia]. }
  set (psi := psi_of _ _ _ _). destruct (f_finite psi) eqn:Hf; simpl.
  - assert (drift_state psi urlOpsBaselineWatchThreshold urlOpsBaselineAlertThreshold ∈ ["alert"; "watch"; "stable"]) as Hst.
    { unfold drift_state. repeat case_match; repeat (apply list_elem_of_here || apply list_elem_of_further). }
    split_and!; try done. split; [|lia]. intros Hs. rewrite Hs in Hst. set_solver.
  - repeat split; try done; try (intros; exfalso; lia). intros _. apply list_elem_of_here.
Qed.
End Drift.

(** ** Witnesses *)

Module Examples.
#[local] Instance ex_tables : UnicodeTables := ascii_tables.
#[local] Instance ex_services : HostServices := two_label_services.
#[local] Instance ex_runes : EditDist.RuneTables := {| EditDist.rune_lower r := r; EditDist.rune_space _ := false |}.
#[local] Instance ex_feed_libs : FeedLibs := {|
  parse_url _ := None; sha256_sum s := s; public_suffix s := s; unicode_fields s := []
|}.
#[local] Instance ex_crypto : Crypto := {|
  hmac_sha256 key event := event ++ key; sha256 s := s; bcrypt_generate p _ := Ok p; bcrypt_compare := String.eqb
|}.
(** A model that promotes what it is asked about. *)
#[local] Instance ex_model : URLClassifier := {|
  url_enabled := true; url_revision := "r1"; ClassifyURL _ := Ok (mkMLDecision f_one MLActionPromoteMalicious "v1", "r1");
  url_metadata := None; url_reference := None
|}.
Definition ex_shadow : URLMLShadowConfig := mkShadow 100 "".
Definition ex_context : URLAnalysisContext := mkAnalysisContext "https://evil.example/?q" ["a"; "b"; "c"] "e1" "sdk".
Definition ex_request : list ShadowStep :=
  (analyze_steps MLModeShadow ex_shadow [] (λ _, Ok false) "evil.example" VerdictSafe (Some ex_context) "" 700).2.
Definition ex_call : FeedbackCall := mkCall 0 false (λ _, mkFeedbackIO None None None).
Definition ex_store : urlFeedbackStore := newURLFeedbackStore None 4.

Example ex_steps :
  ex_request
  = [inc analyzeRequests; inc contextRequests; inc urlContextRequests; inc (callerBucket 2); inc redirectPresent;
     inc selected; inc predictionAttempts; inc queryPresent; inc (redirectBucket 2); inc (verdictBucket 0);
     inc latencyCount; Add latencyTotalMicros 700; inc (latencyBucket 3); inc (probabilityBucket 9);
     inc wouldPromoteCount; inc (promoteVerdictBucket 0); Feed "e1" f_one true].
Proof. vm_compute. reflexivity. Qed.

(** A request run to its end. *)
Fixpoint run_steps (steps : list ShadowStep) (t : urlMLTelemetry) (s : urlFeedbackStore) : urlMLTelemetry * urlFeedbackStore :=
  match steps with [] => (t, s) | st :: steps => let r := exec ex_call st t s in run_steps steps r.1 r.2 end.
Lemma drains steps t s :
  rtc (shadow_step MLModeShadow ex_shadow) (mkWorld t s [steps])
    (mkWorld (run_steps steps t s).1 (run_steps steps t s).2 [[]]).
Proof.
  revert t s. induction steps as [|st steps IH]; intros t s; [apply rtc_refl|]. simpl.
  eapply rtc_l; [apply (advances _ _ ex_call t s [] st steps [])|]. apply IH.
Qed.
Definition ex_end : ShadowWorld urlFeedbackStore :=
  mkWorld (run_steps ex_request no_telemetry ex_store).1 (run_steps ex_request no_telemetry ex_store).2 [[]].
Lemma counters_conserved_witness :
  rtc (shadow_step MLModeShadow ex_shadow) (mkWorld no_telemetry ex_store []) ex_end
  ∧ Forall (λ '(parts, whole), (value parts (telemetry ex_end) <= value whole (telemetry ex_end))%Z
            ∧ (Forall (λ l, l = []) (running ex_end) → value parts (telemetry ex_end) = value whole (telemetry ex_end))) laws.
Proof.
  assert (rtc (shadow_step MLModeShadow ex_shadow) (mkWorld no_telemetry ex_store []) ex_end) as Hrun.
  { eapply rtc_l; [|apply drains].
    apply (begins _ _ (mkWorld no_telemetry ex_store []) [] (λ _, Ok false) "evil.example" VerdictSafe (Some ex_context) "" 700). }
  split; [exact Hrun|]. exact (counters_conserved MLModeShadow ex_shadow ex_store ex_end Hrun).
Defined.

(** One distribution against itself: seven of a hundred samples in one bucket give a share
    that differs from its reference, so the index is not exactly zero. *)
Example identical_share_differs :
  let share := f_div (f_of_Z 7) (f_of_Z 100) in
  let denominator := f_add (f_of_Z 100) (f_mul f_half (f_of_Z 10)) in
  SFeqb (f_div (f_div (f_add (f_of_Z 7) f_half) denominator)
           (f_div (f_add (f_mul share (f_of_Z 100)) f_half) denominator)) f_one = false.
Proof. vm_compute. reflexivity. Qed.
End Examples.
