(* ===== verification/AgentLog.v ===== *)
(** * The agent's event log: [internal/store/telemetry.go] (agent audit log) and
    [internal/agent/besteffort.go]

    Rows are appended under growing ids and read by the keyset ([created_at], [id]).
    Texts of times are compared as SQLite compares text: byte by byte. *)

From Stdlib Require Import ZArith Lia Ascii String.
From stdpp Require Import sorting.
From S2P Require Import Prelude GoStr.

Record AgentEvent := mkEvent {
  EvID : Z; EvTask : string; EvType : string; EvDomain : string; EvDetails : string; EvCreatedAt : string
}.
(** Rows in the order of their ids; [AUTOINCREMENT] never reuses one. *)
Record EventLog := mkLog { log_rows : list AgentEvent; log_seq : Z }.
Definition empty_log : EventLog := mkLog [] 0.

(** SQLite's [datetime]: the text of a second, and the second of a text ([None] is
    [NULL]). *)
Class SqlTime := { sql_text : Z → string; sql_datetime : string → option Z }.

Section Log.
Context `{SqlTime}.

(** [failing]: the error of the insert *)
Definition RecordAgentEvent (enabled : bool) (failing : option string) (sql_now : Z)
    (taskName eventType domain details : string) (log : EventLog) : EventLog * option string :=
  if negb enabled then (log, Some "store disabled")
  else match failing with
  | Some e => (log, Some ("record agent event: " ++ e))
  | None =>
      let id := (log_seq log + 1)%Z in
      (mkLog (log_rows log ++ [mkEvent id taskName eventType domain details (sql_text sql_now)])%list id, None)
  end.
(** The error is logged and dropped. *)
Definition recordAgentEventBestEffort (enabled : bool) (failing : option string) (sql_now : Z)
    (taskName eventType domain details : string) (log : EventLog) : EventLog :=
  (RecordAgentEvent enabled failing sql_now taskName eventType domain details log).1.

(** The retention sweep's statement on the log: [NULL] compares to nothing. *)
Definition before_cutoff (cutoff : Z) (text : string) : bool :=
  match sql_datetime text, sql_datetime (sql_text cutoff) with Some t, Some c => (t <? c)%Z | _, _ => false end.
Definition cleanup_events (failing : option string) (cutoff : Z) (log : EventLog) : EventLog :=
  match failing with
  | Some _ => log
  | None => mkLog (filter (λ e, negb (before_cutoff cutoff (EvCreatedAt e))) (log_rows log)) (log_seq log)
  end.
End Log.

(** ** Keyset pages *)

(** [created_at > ? OR (created_at = ? AND id > ?)] *)
Definition after_key (createdAt : string) (id : Z) (e : AgentEvent) : bool :=
  String.ltb createdAt (EvCreatedAt e) || (String.eqb (EvCreatedAt e) createdAt && (id <? EvID e)%Z).
(** [event_type IN (…)]; no types, no condition *)
Definition type_selected (eventTypes : list string) (e : AgentEvent) : bool :=
  match eventTypes with [] => true | _ => existsb (String.eqb (EvType e)) eventTypes end.
(** [ORDER BY created_at ASC, id ASC] *)
Definition key_before (a b : AgentEvent) : Prop :=
  (String.ltb (EvCreatedAt a) (EvCreatedAt b) || (String.eqb (EvCreatedAt a) (EvCreatedAt b) && (EvID a <=? EvID b)%Z)) = true.
#[export] Instance key_before_dec : RelDecision key_before.
Proof. intros a b. unfold key_before. apply bool_eq_dec. Defined.
Definition pending_events (createdAt : string) (id : Z) (eventTypes : list string) (log : EventLog) : list AgentEvent :=
  filter (λ e, after_key createdAt id e && type_selected eventTypes e) (log_rows log).
Definition QueryAgentEventsPage (enabled : bool) (failing : option string) (createdAt : string) (id : Z)
    (eventTypes : list string) (limit : Z) (log : EventLog) : result (list AgentEvent) :=
  if negb enabled then Err "store disabled"
  else
    let limit := if (limit <=? 0)%Z then 100%Z else limit in
    match failing with
    | Some e => Err ("query agent events page: " ++ e)
    | None => Ok (take (Z.to_nat limit) (merge_sort key_before (pending_events createdAt id eventTypes log)))
    end.
Definition CountAgentEventsAfter (enabled : bool) (failing : option string) (createdAt : string) (id : Z)
    (eventTypes : list string) (log : EventLog) : result Z :=
  if negb enabled then Err "store disabled"
  else match failing with
  | Some e => Err ("count agent events: " ++ e)
  | None => Ok (Z.of_nat (length (pending_events createdAt id eventTypes log)))
  end.
