(* ===== verification/Proposals.v ===== *)
(** * Agent proposals: [internal/store/proposals.go], the proposal sweep of
    [internal/store/retention.go] and [internal/api/handlers/agent_proposals.go]

    The proposal table beside the tables of client groups and overrides, which an
    approval writes in the same transaction, and the requests by which operators write those
    tables ([internal/risk/admin.go], [internal/api/handlers/overrides.go],
    [ApproveFalsePositive] of [internal/store/reports.go]).  Which statement fails is an input, and so
    are the clocks; a transaction that fails or cannot commit leaves nothing behind. *)

From Stdlib Require Import ZArith Lia Ascii String SpecFloat.
From stdpp Require Import pretty.
From S2P Require Import Prelude GoStr Hostname NetIP GoFloat ClientIP Groups URLFeedback NetGuard Session AuthAPI AgentLog.

Definition AgentProposalPending : string := "pending".
Definition AgentProposalApproved : string := "approved".
Definition AgentProposalRejected : string := "rejected".
Definition AgentProposalExpired : string := "expired".
(** Seven days, in nanoseconds. *)
Definition DefaultAgentProposalTTL : Z := 7 * 24 * 3600 * 1000000000.

Record AgentProposal := mkProposal {
  PID : Z; PTask : string; PDomain : string; PAction : string; PScore : Z; PConfidence : float64;
  PReasons : list string; PEvidence : string; PActor : string; PScope : string; PStatus : string;
  PExpiresAt : string; PReviewer : string; PCreatedAt : string; PUpdatedAt : string
}.
(** A row of the table: the reasons are JSON text, and two columns are not projected. *)
Record ProposalRow := mkProposalRow {
  row_id : Z; row_task : string; row_domain : string; row_action : string; row_score : Z;
  row_confidence : float64; row_reasons : string; row_evidence : string; row_actor : string;
  row_scope : string; row_status : string; row_expires : string; row_reviewer : string;
  row_review_reason : string; row_reviewed : option string; row_created : string; row_updated : string
}.
(** The rows in the order of their ids, the [AUTOINCREMENT] counter, the tables an
    approval reads and writes, and the event log. *)
Record ProposalStore := mkStore {
  proposal_rows : list ProposalRow; proposal_seq : Z; policy_tables : Tables; agent_log : EventLog
}.
Definition set_rows (rows : list ProposalRow) (s : ProposalStore) : ProposalStore :=
  mkStore rows (proposal_seq s) (policy_tables s) (agent_log s).
Definition set_policy (t : Tables) (s : ProposalStore) : ProposalStore :=
  mkStore (proposal_rows s) (proposal_seq s) t (agent_log s).
Definition set_agent_log (l : EventLog) (s : ProposalStore) : ProposalStore :=
  mkStore (proposal_rows s) (proposal_seq s) (policy_tables s) l.

Inductive ProposalError :=
| StoreDisabled | ErrProposalNotReviewable (detail : string) | ErrAgentProposalConflict (detail : string)
| ErrProposalGroupOverride (detail : string) | OtherError (message : string).
(** The statements that can fail. *)
Inductive ProposalStatement :=
| SBegin | SLookup | SRefresh | SInsert | SInsertId | SCommit | SGet | SRead | SGroup (candidate : string)
| SOverride | SReview | SAffected | SReviewed | SList | SCleanup | SEvent.
(** The store's switch, [time.Now] in nanoseconds, [datetime('now')] in seconds. *)
Record ProposalEnv := mkProposalEnv {
  proposals_enabled : bool; go_now : Z; db_now : Z; failing : ProposalStatement → option string
}.

(** [time.Parse] of [RFC3339Nano], and [encoding/json] on lists of strings. *)
Class ProposalTexts := {
  parse_rfc3339 : string → option Z;
  encode_reasons : list string → string;
  decode_reasons : string → result (list string)
}.

(** ** Transactions *)

(** A statement sequence: the first error ends it. *)
Definition Tx (A : Type) : Type := ProposalStore → ProposalError + (A * ProposalStore).
#[export] Instance tx_ret : MRet Tx := λ A x s, inr (x, s).
#[export] Instance tx_bind : MBind Tx := λ A B k m s,
  match m s with inl e => inl e | inr (x, s') => k x s' end.
Definition tx_fail {A} (e : ProposalError) : Tx A := λ _, inl e.
Definition tx_read : Tx ProposalStore := λ s, inr (s, s).
Definition tx_write (f : ProposalStore → ProposalStore) : Tx unit := λ s, inr (tt, f s).
(** A statement that may fail. *)
Definition tx_attempt (env : ProposalEnv) (statement : ProposalStatement) (context : string) : Tx unit :=
  match failing env statement with Some e => tx_fail (OtherError (context ++ e)) | None => mret tt end.

(** [BeginTx], the statements, [Commit]; the deferred [Rollback] undoes the rest. *)
Definition transaction {A} (env : ProposalEnv) (what : string) (commit_context : A → string) (body : Tx A) (s : ProposalStore)
    : ProposalStore * (ProposalError + A) :=
  match failing env SBegin with
  | Some e => (s, inl (OtherError ("begin " ++ what ++ ": " ++ e)))
  | None =>
      match body s with
      | inl e => (s, inl e)
      | inr (x, s') =>
          match failing env SCommit with
          | Some e => (s, inl (OtherError (commit_context x ++ e)))
          | None => (s', inr x)
          end
      end
  end.

Section Ops.
Context `{UnicodeTables, HostServices, CivilTime, SqlTime, ProposalTexts}.

Definition clean_domain (domain : string) : string := TrimSuffix (TrimSpace (ToLower domain)) ".".

(** ** Reading rows *)

Definition scanAgentProposal (r : ProposalRow) : result AgentProposal :=
  match decode_reasons (row_reasons r) with
  | Err e => Err ("decode proposal reasons: " ++ e)
  | Ok reasons =>
      Ok (mkProposal (row_id r) (row_task r) (row_domain r) (row_action r) (row_score r) (row_confidence r) reasons
            (row_evidence r) (row_actor r) (row_scope r) (row_status r) (row_expires r) (row_reviewer r)
            (row_created r) (row_updated r))
  end.
Definition proposal_at (id : Z) (s : ProposalStore) : option ProposalRow :=
  List.find (λ r, (row_id r =? id)%Z) (proposal_rows s).
Definition GetAgentProposal (env : ProposalEnv) (id : Z) (s : ProposalStore) : ProposalError + AgentProposal :=
  if negb (proposals_enabled env) then inl StoreDisabled
  else match failing env SGet with
  | Some e => inl (OtherError e)
  | None =>
      match proposal_at id s with
      | None => inl (OtherError "sql: no rows in result set")
      | Some r => match scanAgentProposal r with Err e => inl (OtherError e) | Ok p => inr p end
      end
  end.

(** ** Creating *)

Definition pending_row (domain action : string) (r : ProposalRow) : bool :=
  String.eqb (row_domain r) domain && String.eqb (row_action r) action && String.eqb (row_status r) AgentProposalPending.
Definition refresh_row (p : AgentProposal) (expiresAt now : string) (r : ProposalRow) : ProposalRow :=
  mkProposalRow (row_id r) (row_task r) (row_domain r) (row_action r) (PScore p) (PConfidence p)
    (encode_reasons (PReasons p)) (PEvidence p) (row_actor r) (row_scope r) (row_status r) expiresAt (row_reviewer r)
    (row_review_reason r) (row_reviewed r) (row_created r) now.
Definition fresh_row (p : AgentProposal) (id : Z) (expiresAt now : string) : ProposalRow :=
  mkProposalRow id (PTask p) (PDomain p) (PAction p) (PScore p) (PConfidence p) (encode_reasons (PReasons p))
    (PEvidence p) (PActor p) (PScope p) AgentProposalPending expiresAt "" "" None now now.
Definition update_row (id : Z) (f : ProposalRow → ProposalRow) (s : ProposalStore) : ProposalStore :=
  set_rows ((λ r, if (row_id r =? id)%Z then f r else r) <$> proposal_rows s) s.
Definition insert_row (p : AgentProposal) (expiresAt now : string) (s : ProposalStore) : ProposalStore :=
  let id := (proposal_seq s + 1)%Z in
  mkStore (proposal_rows s ++ [fresh_row p id expiresAt now])%list id (policy_tables s) (agent_log s).

(** The proposal with its domain cleaned and its defaults filled in. *)
Definition completed (p : AgentProposal) : result AgentProposal :=
  let domain := clean_domain (PDomain p) in
  if String.eqb domain "" then Err "proposal domain cannot be empty"
  else if negb (String.eqb (PAction p) "allow") && negb (String.eqb (PAction p) "block") then Err "invalid action"
  else
    let task := if String.eqb (PTask p) "" then "audit" else PTask p in
    let actor := if String.eqb (PActor p) "" then "agent:" ++ task else PActor p in
    let scope := if String.eqb (PScope p) "" then "exact" else PScope p in
    Ok (mkProposal (PID p) task domain (PAction p) (PScore p) (PConfidence p) (PReasons p) (PEvidence p) actor scope
          (PStatus p) (PExpiresAt p) (PReviewer p) (PCreatedAt p) (PUpdatedAt p)).
Definition expiry_text (now : Z) (p : AgentProposal) : string :=
  let expiresAt := TrimSpace (PExpiresAt p) in
  if String.eqb expiresAt "" then time_text (now + DefaultAgentProposalTTL) else expiresAt.
(** The transaction of [CreateAgentProposal]: the id of the row, and whether it was there. *)
Definition create_body (env : ProposalEnv) (p : AgentProposal) (expiresAt : string) : Tx (Z * bool) :=
  tx_attempt env SLookup "lookup pending proposal: ";;
  s ← tx_read;
  match List.find (pending_row (PDomain p) (PAction p)) (proposal_rows s) with
  | Some existing =>
      tx_attempt env SRefresh "refresh pending proposal: ";;
      tx_write (update_row (row_id existing) (refresh_row p expiresAt (sql_text (db_now env))));;
      mret (row_id existing, true)
  | None =>
      tx_attempt env SInsert "insert proposal: ";;
      tx_write (insert_row p expiresAt (sql_text (db_now env)));;
      tx_attempt env SInsertId "proposal insert id: ";;
      mret ((proposal_seq s + 1)%Z, false)
  end.
Definition create_commit_context (x : Z * bool) : string :=
  if x.2 then "commit proposal refresh: " else "commit proposal insert: ".
Definition CreateAgentProposal (env : ProposalEnv) (p : AgentProposal) (s : ProposalStore)
    : ProposalStore * (ProposalError + AgentProposal) :=
  if negb (proposals_enabled env) then (s, inl StoreDisabled)
  else match completed p with
  | Err e => (s, inl (OtherError e))
  | Ok p =>
      match transaction env "proposal transaction" create_commit_context
              (create_body env p (expiry_text (go_now env) p)) s with
      | (s, inl e) => (s, inl e)
      | (s, inr (id, _)) => (s, GetAgentProposal env id s)
      end
  end.

(** ** Listing *)

(** [datetime(expires_at) > datetime('now')] and [<=]; [NULL] is neither. *)
Definition expires_after (now : Z) (r : ProposalRow) : bool :=
  match sql_datetime (row_expires r) with Some t => (now <? t)%Z | None => false end.
Definition expired_by (now : Z) (r : ProposalRow) : bool :=
  match sql_datetime (row_expires r) with Some t => (t <=? now)%Z | None => false end.
Definition status_listed (now : Z) (status : string) (r : ProposalRow) : bool :=
  if String.eqb status "" then true
  else if String.eqb status AgentProposalPending
  then String.eqb (row_status r) AgentProposalPending && expires_after now r
  else if String.eqb status AgentProposalExpired
  then String.eqb (row_status r) AgentProposalExpired || (String.eqb (row_status r) AgentProposalPending && expired_by now r)
  else String.eqb (row_status r) status.
Fixpoint scan_all (rows : list ProposalRow) : result (list AgentProposal) :=
  match rows with
  | [] => Ok []
  | r :: rows =>
      match scanAgentProposal r with
      | Err e => Err e
      | Ok p => match scan_all rows with Err e => Err e | Ok ps => Ok (p :: ps) end
      end
  end.
Definition known_status (status : string) : bool :=
  existsb (String.eqb status)
    [""; AgentProposalPending; AgentProposalApproved; AgentProposalRejected; AgentProposalExpired].
Definition ListAgentProposals (env : ProposalEnv) (status : string) (limit : Z) (s : ProposalStore)
    : ProposalError + list AgentProposal :=
  if negb (proposals_enabled env) then inl StoreDisabled
  else
    let limit := if (limit <=? 0)%Z || (500 <? limit)%Z then 100%Z else limit in
    let wanted := ToLower (TrimSpace status) in
    if negb (known_status wanted) then inl (OtherError "unknown proposal status")
    else match failing env SList with
    | Some e => inl (OtherError ("list proposals: " ++ e))
    | None =>
        match scan_all (take (Z.to_nat limit) (rev (List.filter (status_listed (db_now env) wanted) (proposal_rows s)))) with
        | Err e => inl (OtherError e)
        | Ok ps => inr ps
        end
    end.

(** ** Reviewing *)

(** Some group's row carries the name. *)
Definition grouped_at (candidate : string) (t : Tables) : bool :=
  existsb (λ row, String.eqb row.1.2 candidate) (map_to_list (group_overrides t)).
Fixpoint group_walk (env : ProposalEnv) (candidates : list string) (t : Tables) : result bool :=
  match candidates with
  | [] => Ok false
  | candidate :: candidates =>
      match failing env (SGroup candidate) with
      | Some e => Err ("query group override candidate " ++ candidate ++ ": " ++ e)
      | None => if grouped_at candidate t then Ok true else group_walk env candidates t
      end
  end.
Definition hasGroupOverrideForDomain (env : ProposalEnv) (domain : string) (t : Tables) : result bool :=
  group_walk env (walk_candidates (clean_domain domain)) t.
Definition HasGroupOverrideForDomain (env : ProposalEnv) (domain : string) (t : Tables) : result bool :=
  if negb (proposals_enabled env) then Err "store disabled" else hasGroupOverrideForDomain env domain t.

(** Not before its expiry; an unreadable expiry has passed. *)
Definition review_expired (now : Z) (p : AgentProposal) : bool :=
  match parse_rfc3339 (PExpiresAt p) with Some t => negb (now <? t)%Z | None => true end.
Definition override_reason (id : Z) (reviewer reason : string) : string :=
  let base := "approved agent proposal #" ++ pretty id in
  let base := if String.eqb (TrimSpace reason) "" then base else base ++ ": " ++ TrimSpace reason in
  if String.eqb (TrimSpace reviewer) "" then base else base ++ " (reviewer: " ++ TrimSpace reviewer ++ ")".
(** The override statement fails as the environment says. *)
Definition write_override (env : ProposalEnv) (domain action reason : string) : Tx unit := λ s,
  let '(t, e) := @UpsertOverride _ _ {| io_err := λ _, failing env SOverride |} domain action reason (policy_tables s) in
  match e with Some e => inl (OtherError e) | None => inr (tt, set_policy t s) end.
Definition reviewed_row (next reviewer reason now : string) (r : ProposalRow) : ProposalRow :=
  mkProposalRow (row_id r) (row_task r) (row_domain r) (row_action r) (row_score r) (row_confidence r) (row_reasons r)
    (row_evidence r) (row_actor r) (row_scope r) next (row_expires r) (TrimSpace reviewer) (TrimSpace reason) (Some now)
    (row_created r) now.
(** [UPDATE … WHERE id = ? AND status = 'pending'] *)
Definition review_update (id : Z) (next reviewer reason now : string) (s : ProposalStore) : ProposalStore :=
  update_row id (λ r, if String.eqb (row_status r) AgentProposalPending then reviewed_row next reviewer reason now r else r) s.
Definition affected (id : Z) (s : ProposalStore) : bool :=
  existsb (λ r, (row_id r =? id)%Z && String.eqb (row_status r) AgentProposalPending) (proposal_rows s).

Definition approve_statements (env : ProposalEnv) (p : AgentProposal) (id : Z) (reviewer reason : string) : Tx unit :=
  s ← tx_read;
  match hasGroupOverrideForDomain env (PDomain p) (policy_tables s) with
  | Err e => tx_fail (OtherError ("check group overrides for " ++ PDomain p ++ ": " ++ e))
  | Ok true => tx_fail (ErrProposalGroupOverride (pretty id))
  | Ok false => write_override env (PDomain p) (PAction p) (override_reason id reviewer reason)
  end.
Definition review_body (env : ProposalEnv) (id : Z) (approve : bool) (reviewer reason : string) : Tx AgentProposal :=
  tx_attempt env SRead ("read proposal " ++ pretty id ++ ": ");;
  s ← tx_read;
  match proposal_at id s with
  | None => tx_fail (ErrProposalNotReviewable "does not exist")
  | Some r =>
      match scanAgentProposal r with
      | Err e => tx_fail (OtherError ("read proposal " ++ pretty id ++ ": " ++ e))
      | Ok p =>
          if negb (String.eqb (PStatus p) AgentProposalPending) then tx_fail (ErrProposalNotReviewable (PStatus p))
          else if review_expired (go_now env) p then tx_fail (ErrProposalNotReviewable "expired")
          else
            (if approve then approve_statements env p id reviewer reason else mret tt);;
            tx_attempt env SReview "review proposal: ";;
            s ← tx_read;
            tx_write (review_update id (if approve then AgentProposalApproved else AgentProposalRejected) reviewer reason
                        (sql_text (db_now env)));;
            tx_attempt env SAffected "review proposal rows affected: ";;
            (if affected id s then mret tt else tx_fail (ErrAgentProposalConflict (pretty id)));;
            tx_attempt env SReviewed ("read reviewed proposal " ++ pretty id ++ ": ");;
            s ← tx_read;
            match proposal_at id s with
            | None => tx_fail (OtherError "sql: no rows in result set")
            | Some r => match scanAgentProposal r with Err e => tx_fail (OtherError e) | Ok p => mret p end
            end
      end
  end.
Definition ReviewAgentProposal (env : ProposalEnv) (id : Z) (approve : bool) (reviewer reason : string) (s : ProposalStore)
    : ProposalStore * (ProposalError + AgentProposal) :=
  if negb (proposals_enabled env) then (s, inl StoreDisabled)
  else transaction env "proposal review transaction" (λ _, "commit proposal review: ")
         (review_body env id approve reviewer reason) s.

(** ** Retention *)

(** Pending rows go by their expiry, decided ones by their last change. *)
Definition sweepable (cutoff : Z) (r : ProposalRow) : bool :=
  (String.eqb (row_status r) AgentProposalPending && before_cutoff cutoff (row_expires r))
  || (existsb (String.eqb (row_status r)) [AgentProposalApproved; AgentProposalRejected; AgentProposalExpired]
      && before_cutoff cutoff (row_updated r)).
Definition cleanup_proposals (env : ProposalEnv) (cutoff : Z) (s : ProposalStore) : ProposalStore :=
  match failing env SCleanup with
  | Some _ => s
  | None => set_rows (List.filter (λ r, negb (sweepable cutoff r)) (proposal_rows s)) s
  end.

(** ** The handler *)

Record proposalReviewRequest := mkReview { ReviewID : Z; Decision : string; ReviewReason : string }.
Inductive ProposalReply :=
| Items (ps : list AgentProposal) | Reviewed (status : string) (id : Z) | Refused (r : Response).
Definition store_reply (e : ProposalError) (publicMessage : string) : ProposalReply :=
  match e with
  | StoreDisabled => Refused (StoreErrorResponse ErrDisabled publicMessage)
  | ErrProposalNotReviewable m | ErrAgentProposalConflict m | ErrProposalGroupOverride m | OtherError m =>
      Refused (StoreErrorResponse (StoreFailed m) publicMessage)
  end.
Definition review_reply (e : ProposalError) : ProposalReply :=
  match e with
  | ErrProposalNotReviewable m | ErrAgentProposalConflict m | ErrProposalGroupOverride m => Refused (WriteError 409 m)
  | StoreDisabled | OtherError _ => store_reply e "failed to review proposal"
  end.
(** [{"proposal_id":N}] *)
Definition event_details (id : Z) : string :=
  let quote := String (ascii_of_nat 34) EmptyString in "{" ++ quote ++ "proposal_id" ++ quote ++ ":" ++ pretty id ++ "}".
(** [body]: the decoded request, of the first 10240 bytes; [identity]: of the request's
    context; [clock]: the environment of the event insert, which comes later. *)
Definition review_handler (env clock : ProposalEnv) (body : option proposalReviewRequest) (identity : option authIdentity)
    (s : ProposalStore) : ProposalStore * ProposalReply :=
  match body with
  | None => (s, Refused (WriteError 400 "invalid JSON body"))
  | Some req =>
      let decision := ToLower (TrimSpace (Decision req)) in
      if (ReviewID req <=? 0)%Z || (negb (String.eqb decision "approve") && negb (String.eqb decision "reject"))
      then (s, Refused (WriteError 400 "id and decision approve|reject are required"))
      else
        let reviewer := match identity with Some who => IdUsername who | None => "" end in
        let approve := String.eqb decision "approve" in
        match ReviewAgentProposal env (ReviewID req) approve reviewer (ReviewReason req) s with
        | (s, inl e) => (s, review_reply e)
        | (s, inr p) =>
            let event := if approve then "proposal_approved" else "proposal_rejected" in
            let '(log, _) := RecordAgentEvent (proposals_enabled clock) (failing clock SEvent) (db_now clock) "audit" event
                               (PDomain p) (event_details (PID p)) (agent_log s) in
            (set_agent_log log s, Reviewed (PStatus p) (PID p))
        end
  end.
Definition AgentProposalsHandler (env clock : ProposalEnv) (method status : string) (body : option proposalReviewRequest)
    (identity : option authIdentity) (s : ProposalStore) : ProposalStore * ProposalReply :=
  if negb (proposals_enabled env) then (s, Refused (WriteError 503 "store not configured"))
  else if String.eqb method "GET" then
    match ListAgentProposals env status 100 s with
    | inl e => (s, store_reply e "failed to list proposals")
    | inr ps => (s, Items ps)
    end
  else if String.eqb method "POST" then review_handler env clock body identity s
  else (s, Refused (WriteError 405 "method not allowed")).
End Ops.

(** ** An operator's writes

    The requests of an operator that write the tables an approval shares: overrides
    ([internal/risk/admin.go], [internal/api/handlers/overrides.go],
    [group_overrides.go]), groups and mappings. *)
Section Operator.
Context `{UnicodeTables, HostServices, SortSlice}.

Definition ServiceUpsertOverride (io : StoreIO) (domain action reason : string) (t : Tables) : Tables * option string :=
  match NormalizeDomain domain with
  | Err e => (t, Some ("invalid domain: " ++ e))
  | Ok normalized => UpsertOverride normalized action reason t
  end.
Definition ServiceDeleteOverride (io : StoreIO) (domain : string) (t : Tables) : Tables * option string :=
  match NormalizeDomain domain with
  | Err e => (t, Some ("invalid domain: " ++ e))
  | Ok normalized => DeleteOverride normalized t
  end.
(** [failed]: the error of the transaction, its checks of the report included; the rows of
    the reports and the event are left out.  The name is not checked again. *)
Definition ApproveFalsePositive (failed : option string) (domain overrideReason : string) (t : Tables)
    : Tables * option string :=
  match failed with
  | Some e => (t, Some e)
  | None => (set_local_overrides (<[domain := mkOverride domain "allow" overrideReason]> (local_overrides t)) t, None)
  end.
Definition ReviewFalsePositive (failed : option string) (reportID : Z) (domain reason source : string) (t : Tables)
    : Tables * option string :=
  let domain := TrimSpace domain in
  let reason := TrimSpace reason in
  let source := TrimSpace source in
  if String.eqb domain "" then (t, Some "domain is required")
  else if (Z.of_nat (slen reason) <? 8)%Z then (t, Some "review reason must contain at least 8 characters")
  else if (reportID <? 0)%Z then (t, Some "invalid report ID")
  else match NormalizeDomain domain with
  | Err e => (t, Some ("invalid domain: " ++ e))
  | Ok normalized =>
      ApproveFalsePositive failed normalized
        (if String.eqb source "" then "false-positive review: " ++ reason
         else "false-positive review (" ++ source ++ "): " ++ reason) t
  end.

Inductive OperatorWrite :=
| PutOverride (io : StoreIO) (domain action reason : string)
| DropOverride (io : StoreIO) (domain : string)
| FalsePositive (failed : option string) (reportID : Z) (domain reason source : string)
| PutGroupOverride (io : StoreIO) (groupID : Z) (domain action reason : string)
| DropGroupOverride (io : StoreIO) (groupID : Z) (domain : string)
| PutGroup (io : StoreIO) (name desc : string) (cats : list string) (sp sm : bool)
| EditGroup (io : StoreIO) (id : Z) (name desc : string) (cats : list string) (sp sm : bool)
| DropGroup (io : StoreIO) (id : Z) (db : DB)
| MapClient (io : StoreIO) (kind value : string) (groupID : Z) (db : DB)
| UnmapClient (io : StoreIO) (id : Z) (db : DB).
Definition operator_write (w : OperatorWrite) (t : Tables) : Tables :=
  match w with
  | PutOverride io domain action reason => (ServiceUpsertOverride io domain action reason t).1
  | DropOverride io domain => (ServiceDeleteOverride io domain t).1
  | FalsePositive failed reportID domain reason source => (ReviewFalsePositive failed reportID domain reason source t).1
  | PutGroupOverride io g domain action reason => (UpsertGroupOverride g domain action reason t).1
  | DropGroupOverride io g domain => (DeleteGroupOverride g domain t).1
  | PutGroup io name desc cats sp sm => (CreateGroup name desc cats sp sm t).1
  | EditGroup io id name desc cats sp sm => (UpdateGroup id name desc cats sp sm t).1
  | DropGroup io id db => (DeleteGroup id t db).1.1
  | MapClient io kind value g db => (AddMappingInt kind value g t db).1.1
  | UnmapClient io id db => (DeleteMapping id t db).1.1
  end.
End Operator.
