(* ===== verification/ProposalsSpec.v ===== *)
(** * Theorems about agent proposals: [Proposals]

    A review is all or nothing; the queue holds one pending proposal per name and action
    and its decisions are final; every override comes from a request of an operator, an
    approval, or a block the audit enforces. *)

From Stdlib Require Import ZArith Lia Ascii String SpecFloat.
From stdpp Require Import pretty.
From S2P Require Import Prelude GoStr Hostname NetIP GoFloat ClientIP Groups GroupsSpec URLFeedback NetGuard Session AuthAPI AgentLog Proposals.

(** ** Statement sequences *)

Lemma tx_bind_inv {A B} (m : Tx A) (k : A → Tx B) s y s' :
  mbind (M := Tx) k m s = inr (y, s') → ∃ x s1, m s = inr (x, s1) ∧ k x s1 = inr (y, s').
Proof. unfold mbind, tx_bind. destruct (m s) as [e|[x s1]]; [done|]. eauto. Qed.
Lemma attempt_inv env st c s x s' :
  tx_attempt env st c s = inr (x, s') → s' = s ∧ failing env st = None.
Proof. unfold tx_attempt. destruct (failing env st); [done|]. intros [= _ <-]. done. Qed.
Lemma attempt_quiet env st c s : failing env st = None → tx_attempt env st c s = inr (tt, s).
Proof. unfold tx_attempt. by intros ->. Qed.
Lemma tx_write_inv f s x s' : tx_write f s = inr (x, s') → s' = f s.
Proof. by intros [= _ <-]. Qed.
(** Open a successful sequence into its statements. *)
Ltac tx_open :=
  repeat match goal with
  | H : mbind (M := Tx) _ _ _ = inr (_, _) |- _ =>
      let x := fresh "x" in let s := fresh "s" in let Hm := fresh "Hm" in
      apply tx_bind_inv in H as (x & s & Hm & H)
  | H : tx_attempt _ _ _ _ = inr (_, _) |- _ => apply attempt_inv in H as [-> H]
  | H : tx_write _ _ = inr (_, _) |- _ => apply tx_write_inv in H as ->
  | H : tx_read _ = inr (_, _) |- _ => injection H as <- <-
  | H : mret (M := Tx) _ _ = inr (_, _) |- _ => injection H as <- <-
  | H : tx_fail _ _ = inr (_, _) |- _ => discriminate H
  end.

Lemma transaction_inv {A} env what ctx (body : Tx A) s s' out :
  transaction env what ctx body s = (s', out) →
  match out with inl _ => s' = s | inr x => body s = inr (x, s') end.
Proof.
  unfold transaction. destruct (failing env SBegin); [by intros [= <- <-]|].
  destruct (body s) as [e|[x s1]]; [by intros [= <- <-]|]. destruct (failing env SCommit); by intros [= <- <-].
Qed.

Section Spec.
Context `{UnicodeTables, HostServices, CivilTime, SqlTime, ProposalTexts, SortSlice}.

(** ** Reviews *)

Lemma row_at_some id s r : proposal_at id s = Some r → r ∈ proposal_rows s ∧ row_id r = id.
Proof. unfold proposal_at. intros Hf. apply find_some in Hf as [Hin He]. split; [by apply list_elem_of_In|]. lia. Qed.

Definition next_status (approve : bool) : string := if approve then AgentProposalApproved else AgentProposalRejected.
(** What the approval of a row writes: the override of its name. *)
Definition granted (r : ProposalRow) (d reviewer reason : string) (t : Tables) : Tables :=
  set_local_overrides (<[d := mkOverride d (row_action r) (override_reason (row_id r) reviewer reason)]> (local_overrides t)) t.
(** What a review needs of the row and, to approve, of the policy. *)
Record reviewable (env : ProposalEnv) (id : Z) (r : ProposalRow) (s : ProposalStore) : Prop := {
  rv_row : proposal_at id s = Some r;
  rv_pending : row_status r = AgentProposalPending;
  rv_unexpired : ∃ t, parse_rfc3339 (row_expires r) = Some t ∧ (go_now env < t)%Z
}.
Lemma scan_row r p : scanAgentProposal r = Ok p →
  PID p = row_id r ∧ PDomain p = row_domain r ∧ PAction p = row_action r ∧ PStatus p = row_status r ∧
  PExpiresAt p = row_expires r.
Proof. unfold scanAgentProposal. destruct (decode_reasons _); [|done]. by intros [= <-]. Qed.
Lemma write_override_inv env d a reason s x s' :
  write_override env d a reason s = inr (x, s') →
  ∃ d', check_override d a = Ok d' ∧
    s' = set_policy (set_local_overrides (<[d' := mkOverride d' a reason]> (local_overrides (policy_tables s))) (policy_tables s)) s.
Proof.
  unfold write_override, UpsertOverride. destruct (check_override d a) as [d'|e]; [|done]. simpl.
  destruct (failing env SOverride); [done|]. intros [= _ <-]. eauto.
Qed.
Lemma approve_inv env p id reviewer reason s x s' :
  approve_statements env p id reviewer reason s = inr (x, s') →
  hasGroupOverrideForDomain env (PDomain p) (policy_tables s) = Ok false ∧
  write_override env (PDomain p) (PAction p) (override_reason id reviewer reason) s = inr (x, s').
Proof. unfold approve_statements. intros Ha. tx_open. by destruct (hasGroupOverrideForDomain _ _ _) as [[|]|]. Qed.
Lemma review_update_policy t id next rv re now s :
  review_update id next rv re now (set_policy t s) = set_policy t (review_update id next rv re now s).
Proof. done. Qed.

(** The statements of a review that succeeds. *)
Lemma review_body_inv env id approve reviewer reason s p s' :
  review_body env id approve reviewer reason s = inr (p, s') →
  ∃ r s1, reviewable env id r s ∧
    (if approve
     then hasGroupOverrideForDomain env (row_domain r) (policy_tables s) = Ok false ∧
          ∃ d, check_override (row_domain r) (row_action r) = Ok d ∧ s1 = set_policy (granted r d reviewer reason (policy_tables s)) s
     else s1 = s) ∧
    s' = review_update id (next_status approve) reviewer reason (sql_text (db_now env)) s1 ∧
    ∃ r', proposal_at id s' = Some r' ∧ scanAgentProposal r' = Ok p.
Proof.
  unfold review_body. intros Hb. tx_open.
  destruct (proposal_at id s) as [r|] eqn:Hr; [|done]. destruct (scanAgentProposal r) as [q|] eqn:Hq; [|done].
  apply scan_row in Hq as (Hid & Hd & Ha & Hs & He).
  destruct (String.eqb_spec (PStatus q) AgentProposalPending) as [Hp|]; [|done]. simpl in Hb.
  destruct (review_expired (go_now env) q) eqn:Hex; [done|]. tx_open.
  match goal with Hc : (if affected id ?s then _ else _) _ = _ |- _ => destruct (affected id s); [|done] end. tx_open.
  match goal with Hc : context [proposal_at id ?s'] |- _ =>
    destruct (proposal_at id s') as [r'|] eqn:Hr'; [|discriminate Hc] end.
  destruct (scanAgentProposal r') as [p'|] eqn:Hp'; [|done]. tx_open.
  exists r. eexists. split; [|split; [|split; [reflexivity|by eauto]]].
  - split; [done|congruence|]. unfold review_expired in Hex. rewrite He in Hex.
    destruct (parse_rfc3339 _) as [t|]; [|done]. exists t. split; [done|]. bool_simpl. lia.
  - destruct approve; [|by tx_open].
    match goal with Hc : approve_statements _ _ _ _ _ _ = _ |- _ => apply approve_inv in Hc as [Hg Hw] end.
    rewrite Hd in *. split; [done|]. apply write_override_inv in Hw as (d & Hc & ->). rewrite Ha in Hc.
    exists d. split; [done|]. unfold granted. destruct (row_at_some _ _ _ Hr) as [_ ->]. by rewrite Ha.
Qed.

(** *** The errors *)

Lemma tx_bind_err {A B} (m : Tx A) (k : A → Tx B) s e :
  mbind (M := Tx) k m s = inl e → m s = inl e ∨ ∃ x s1, m s = inr (x, s1) ∧ k x s1 = inl e.
Proof. unfold mbind, tx_bind. destruct (m s) as [e'|[x s1]]; [intros [= ->]; by left|]. right. eauto. Qed.
Lemma attempt_err env st c s e : tx_attempt env st c s = inl e → ∃ m, e = OtherError m.
Proof. unfold tx_attempt. destruct (failing env st); [intros [= <-]; eauto|done]. Qed.
Lemma approve_err env p id reviewer reason s e :
  approve_statements env p id reviewer reason s = inl e →
  (∃ m, e = OtherError m) ∨
  (∃ m, e = ErrProposalGroupOverride m) ∧ hasGroupOverrideForDomain env (PDomain p) (policy_tables s) = Ok true.
Proof.
  unfold approve_statements. intros Ha. apply tx_bind_err in Ha as [Ha|(s0 & s1 & Hr & Ha)]; [done|].
  injection Hr as <- <-. destruct (hasGroupOverrideForDomain _ _ _) as [[|]|] eqn:Hg.
  - injection Ha as <-. right. eauto.
  - unfold write_override, UpsertOverride in Ha. destruct (check_override _ _); simpl in Ha; [|injection Ha as <-; eauto].
    destruct (failing env SOverride); [|done]. injection Ha as <-. eauto.
  - injection Ha as <-. eauto.
Qed.
Lemma approve_rows env p id reviewer reason s x s1 :
  approve_statements env p id reviewer reason s = inr (x, s1) → proposal_rows s1 = proposal_rows s.
Proof. intros Ha. apply approve_inv in Ha as [_ Hw]. apply write_override_inv in Hw as (d & _ & ->). done. Qed.
Lemma affected_pending id r s1 s :
  proposal_at id s = Some r → row_status r = AgentProposalPending → proposal_rows s1 = proposal_rows s → affected id s1 = true.
Proof.
  intros Hr Hp Hrows. apply row_at_some in Hr as [Hin Hid]. unfold affected. rewrite Hrows. apply existsb_exists.
  exists r. split; [by apply list_elem_of_In|]. rewrite Hp, Hid. rewrite Z.eqb_refl. done.
Qed.
(** A review that is refused says why. *)
Definition refusal (env : ProposalEnv) (id : Z) (approve : bool) (s : ProposalStore) (e : ProposalError) : Prop :=
  match e with
  | ErrProposalNotReviewable _ => ¬ ∃ r, reviewable env id r s
  | ErrAgentProposalConflict _ => False
  | ErrProposalGroupOverride _ =>
      approve = true ∧
      ∃ r, reviewable env id r s ∧ hasGroupOverrideForDomain env (row_domain r) (policy_tables s) = Ok true
  | StoreDisabled => proposals_enabled env = false
  | OtherError _ => True
  end.
Lemma refusal_other env id approve s e : (∃ m, e = OtherError m) → refusal env id approve s e.
Proof. by intros [m ->]. Qed.
#[local] Hint Resolve refusal_other attempt_err : core.
Lemma no_review env id r s : proposal_at id s = Some r →
  row_status r ≠ AgentProposalPending ∨ (∀ t, parse_rfc3339 (row_expires r) = Some t → (t <= go_now env)%Z) →
  ¬ ∃ r, reviewable env id r s.
Proof.
  intros Hr Hn [r' [Hr' Hp (t & Ht & Hlt)]]. rewrite Hr in Hr'. simplify_eq. destruct Hn as [Hn|Hn]; [done|].
  specialize (Hn _ Ht). lia.
Qed.
(** The statements after the checks. *)
Lemma review_tail_err env id approve reviewer reason q r s e :
  reviewable env id r s → row_domain r = PDomain q →
  mbind (M := Tx) (λ _ : unit,
    tx_attempt env SReview "review proposal: ";;
    s ← tx_read;
    tx_write (review_update id (next_status approve) reviewer reason (sql_text (db_now env)));;
    tx_attempt env SAffected "review proposal rows affected: ";;
    (if affected id s then mret tt else tx_fail (ErrAgentProposalConflict (pretty id)));;
    tx_attempt env SReviewed ("read reviewed proposal " ++ pretty id ++ ": ");;
    s ← tx_read;
    match proposal_at id s with
    | None => tx_fail (OtherError "sql: no rows in result set")
    | Some r => match scanAgentProposal r with Err e => tx_fail (OtherError e) | Ok p => mret p end
    end) (if approve then approve_statements env q id reviewer reason else mret tt) s = inl e →
  refusal env id approve s e.
Proof.
  intros Hrv Hd Hb. apply tx_bind_err in Hb as [Hb|(x & s1 & Hb & Hk)].
  { destruct approve; [|done]. apply approve_err in Hb as [Hb|[[m ->] Hg]]; [by auto|]. split; [done|].
    exists r. by rewrite Hd. }
  assert (affected id s1 = true) as Haff.
  { destruct Hrv as [Hr Hp _]. eapply affected_pending; [done..|].
    destruct approve; [by eapply approve_rows|by injection Hb as _ <-]. }
  apply tx_bind_err in Hk as [Hk|(? & s2 & Hm & Hk)]; [by eauto|]. apply attempt_inv in Hm as [-> _].
  apply tx_bind_err in Hk as [Hk|(? & s2 & Hm & Hk)]; [done|]. injection Hm as <- <-.
  apply tx_bind_err in Hk as [Hk|(? & s2 & Hm & Hk)]; [done|]. apply tx_write_inv in Hm as ->.
  apply tx_bind_err in Hk as [Hk|(? & s2 & Hm & Hk)]; [by eauto|]. apply attempt_inv in Hm as [-> _].
  rewrite Haff in Hk. apply tx_bind_err in Hk as [Hk|(? & s2 & Hm & Hk)]; [done|]. injection Hm as _ <-.
  apply tx_bind_err in Hk as [Hk|(? & s2 & Hm & Hk)]; [by eauto|]. apply attempt_inv in Hm as [-> _].
  apply tx_bind_err in Hk as [Hk|(? & s2 & Hm & Hk)]; [done|]. injection Hm as <- <-.
  apply refusal_other. destruct (proposal_at _ _) as [r'|]; [destruct (scanAgentProposal r') as [p|e']|].
  - done.
  - injection Hk as <-. eauto.
  - injection Hk as <-. eauto.
Qed.
Lemma review_body_err env id approve reviewer reason s e :
  review_body env id approve reviewer reason s = inl e → refusal env id approve s e.
Proof.
  unfold review_body. intros Hb. apply tx_bind_err in Hb as [Hb|(? & s1 & Hm & Hb)]; [by eauto|].
  apply attempt_inv in Hm as [-> _]. apply tx_bind_err in Hb as [Hb|(? & s1 & Hm & Hb)]; [done|]. injection Hm as <- <-.
  destruct (proposal_at id s) as [r|] eqn:Hr; [|injection Hb as <-; intros [r [Hr' _ _]]; congruence].
  destruct (scanAgentProposal r) as [q|e'] eqn:Hq; [|injection Hb as <-; done].
  apply scan_row in Hq as (Hid & Hd & Ha & Hs & He).
  destruct (String.eqb_spec (PStatus q) AgentProposalPending) as [Hp|Hp]; simpl in Hb.
  2: { injection Hb as <-. eapply no_review; [done|]. left. congruence. }
  destruct (review_expired (go_now env) q) eqn:Hex; unfold review_expired in Hex; rewrite He in Hex.
  { injection Hb as <-. eapply no_review; [done|]. right. intros t Ht. rewrite Ht in Hex. bool_simpl. lia. }
  eapply review_tail_err; [|by rewrite Hd|exact Hb]. split; [done|congruence|].
  destruct (parse_rfc3339 _) as [t|]; [|done]. exists t. split; [done|]. bool_simpl. lia.
Qed.

(** *** Success *)

Lemma row_at_update id f s : (∀ r, row_id (f r) = row_id r) → proposal_at id (update_row id f s) = f <$> proposal_at id s.
Proof.
  intros Hf. unfold proposal_at, update_row. simpl. induction (proposal_rows s) as [|r rows IH]; [done|]. simpl.
  destruct (Z.eqb_spec (row_id r) id) as [He|He]; simpl.
  - rewrite Hf. by rewrite (proj2 (Z.eqb_eq _ _) He).
  - by rewrite (proj2 (Z.eqb_neq _ _) He).
Qed.
Definition quiet (env : ProposalEnv) : Prop := proposals_enabled env = true ∧ ∀ st, failing env st = None.
(** Nothing fails, the row is reviewable and readable, the policy admits an approval. *)
Definition admitted (env : ProposalEnv) (id : Z) (approve : bool) (s : ProposalStore) : Prop :=
  ∃ r q, reviewable env id r s ∧ scanAgentProposal r = Ok q ∧
    (approve = true → hasGroupOverrideForDomain env (row_domain r) (policy_tables s) = Ok false ∧
                      ∃ d, check_override (row_domain r) (row_action r) = Ok d).
Lemma approve_ok env id approve reviewer reason r q s :
  quiet env → scanAgentProposal r = Ok q →
  (approve = true → hasGroupOverrideForDomain env (row_domain r) (policy_tables s) = Ok false ∧
                    ∃ d, check_override (row_domain r) (row_action r) = Ok d) →
  ∃ t, (if approve then approve_statements env q id reviewer reason else mret tt) s = inr (tt, set_policy t s).
Proof.
  intros [_ Hq] Hs Ha. destruct approve; [|exists (policy_tables s); by destruct s].
  destruct (Ha eq_refl) as [Hg [d Hd]]. apply scan_row in Hs as (_ & Hdom & Hact & _ & _).
  unfold approve_statements, mbind, tx_bind, tx_read. rewrite Hdom, Hg.
  unfold write_override, UpsertOverride. rewrite Hact, Hd. simpl. rewrite Hq. eauto.
Qed.
Lemma review_body_ok env id approve reviewer reason s :
  quiet env → admitted env id approve s → ∃ x, review_body env id approve reviewer reason s = inr x.
Proof.
  intros Henv (r & q & Hrv & Hq & Ha). pose proof (approve_ok env id approve reviewer reason r q s Henv Hq Ha) as [t Ht].
  destruct Henv as [_ Hquiet], Hrv as [Hr Hp (e & He & Hlt)].
  assert (affected id (set_policy t s) = true) as Haff by (eapply affected_pending; done).
  assert (proposal_at id (review_update id (next_status approve) reviewer reason (sql_text (db_now env)) (set_policy t s))
          = Some (reviewed_row (next_status approve) reviewer reason (sql_text (db_now env)) r)) as Hr'.
  { unfold review_update. rewrite row_at_update by (intros r0; by destruct (String.eqb _ _)).
    change (proposal_at id (set_policy t s)) with (proposal_at id s). rewrite Hr. simpl. by rewrite Hp. }
  assert (∃ p, scanAgentProposal (reviewed_row (next_status approve) reviewer reason (sql_text (db_now env)) r) = Ok p)
    as [p Hp'] by (unfold scanAgentProposal in *; simpl; destruct (decode_reasons _); eauto; done).
  unfold review_body, mbind, tx_bind. rewrite (attempt_quiet _ SRead) by done. simpl. rewrite Hr, Hq.
  apply scan_row in Hq as (_ & _ & _ & Hs & Hx). rewrite Hs, Hp. simpl. unfold review_expired. rewrite Hx, He.
  rewrite (proj2 (Z.ltb_lt _ _) Hlt). simpl. rewrite Ht, (attempt_quiet _ SReview) by done. simpl.
  rewrite (attempt_quiet _ SAffected) by done. rewrite Haff. simpl. rewrite (attempt_quiet _ SReviewed) by done. simpl.
  unfold next_status in Hr', Hp'. rewrite Hr', Hp'. eexists. reflexivity.
Qed.

Lemma review_all_or_nothing_aux env id approve reviewer reason s :
  match ReviewAgentProposal env id approve reviewer reason s with
  | (s', inl e) => s' = s ∧ refusal env id approve s e ∧ (quiet env → ¬ admitted env id approve s)
  | (s', inr p) =>
      ∃ r, reviewable env id r s ∧ PID p = id ∧ PStatus p = next_status approve ∧
        proposal_rows s' =
          ((λ r, if (row_id r =? id)%Z && String.eqb (row_status r) AgentProposalPending
                 then reviewed_row (next_status approve) reviewer reason (sql_text (db_now env)) r else r) <$> proposal_rows s) ∧
        proposal_seq s' = proposal_seq s ∧ agent_log s' = agent_log s ∧
        if approve
        then hasGroupOverrideForDomain env (row_domain r) (policy_tables s) = Ok false ∧
             ∃ d, check_override (row_domain r) (row_action r) = Ok d ∧
               policy_tables s' = granted r d reviewer reason (policy_tables s)
        else policy_tables s' = policy_tables s
  end.
Proof.
  unfold ReviewAgentProposal. destruct (proposals_enabled env) eqn:Hen; simpl.
  2: { split_and!; [done..|]. intros [Hon _]. congruence. }
  destruct (transaction _ _ _ _ _) as [s' [e|p]] eqn:Ht; pose proof (transaction_inv _ _ _ _ _ _ _ Ht) as Hi; simpl in Hi.
  - subst s'. split; [done|]. split.
    + unfold transaction in Ht. destruct (failing env SBegin); [by injection Ht as <-|].
      destruct (review_body env id approve reviewer reason s) as [e'|[x s1]] eqn:Hb.
      * injection Ht as <-. by eapply review_body_err.
      * destruct (failing env SCommit); [by injection Ht as <-|done].
    + intros Hq Had. destruct (review_body_ok env id approve reviewer reason s Hq Had) as [[x s1] Hb].
      unfold transaction in Ht. destruct Hq as [_ Hq]. by rewrite !Hq, Hb in Ht.
  - apply review_body_inv in Hi as (r & s1 & Hrv & Happ & Hs' & r' & Hr' & Hp). exists r. split; [done|].
    assert (proposal_at id s1 = proposal_at id s ∧ proposal_rows s1 = proposal_rows s ∧ proposal_seq s1 = proposal_seq s ∧
            agent_log s1 = agent_log s) as (Hat & Hrows & Hseq & Hlog)
      by (destruct approve; [destruct Happ as (_ & d & _ & ->)|rewrite Happ]; done).
    pose proof Hrv as [Hrow Hpend _]. subst s'. unfold review_update in Hr'.
    rewrite row_at_update in Hr' by (intros r0; by destruct (String.eqb _ _)). rewrite Hat, Hrow in Hr'. simpl in Hr'.
    rewrite Hpend in Hr'. simpl in Hr'. injection Hr' as <-. apply scan_row in Hp as (Hid & _ & _ & Hst & _).
    apply row_at_some in Hrow as [_ Hrid]. split; [by rewrite Hid|]. split; [done|]. split; [|split; [done|split; [done|]]].
    + simpl. rewrite Hrows. apply list_fmap_ext. intros _ x _. by destruct (row_id x =? id)%Z.
    + destruct approve; [|by rewrite Happ]. destruct Happ as (Hg & d & Hd & ->). eauto.
Qed.
(** C25: A review that ends in an error leaves every table as it was, and its error says
    why: a proposal reported as not reviewable is absent, decided or expired, a reported
    group override is there, and the reported conflict never happens.  A review that
    succeeds found the proposal pending and unexpired; it changes the status of that row
    alone and, when it approves, writes exactly one override, of the row's name with the
    row's action, where no group had a policy for the name or a parent, while a rejection
    leaves the policy alone.  When no statement fails and the conditions hold, it succeeds. *)
Theorem review_all_or_nothing env id approve reviewer reason s :
  match ReviewAgentProposal env id approve reviewer reason s with
  | (s', inl e) => s' = s ∧ refusal env id approve s e ∧ (quiet env → ¬ admitted env id approve s)
  | (s', inr p) =>
      ∃ r, reviewable env id r s ∧ PID p = id ∧ PStatus p = next_status approve ∧
        proposal_rows s' =
          ((λ r, if (row_id r =? id)%Z && String.eqb (row_status r) AgentProposalPending
                 then reviewed_row (next_status approve) reviewer reason (sql_text (db_now env)) r else r) <$> proposal_rows s) ∧
        proposal_seq s' = proposal_seq s ∧ agent_log s' = agent_log s ∧
        if approve
        then hasGroupOverrideForDomain env (row_domain r) (policy_tables s) = Ok false ∧
             ∃ d, check_override (row_domain r) (row_action r) = Ok d ∧
               policy_tables s' = granted r d reviewer reason (policy_tables s)
        else policy_tables s' = policy_tables s
  end.
Proof. apply review_all_or_nothing_aux. Qed.

(** ** Histories *)

(** What reaches the tables: the agent's proposals, requests to the handler, the sweeps, an
    operator's writes of the policy, and the block of the audit when it enforces by
    itself ([block_domain] of [AuditTask]). *)
Inductive ProposalOp :=
| OpCreate (env : ProposalEnv) (p : AgentProposal)
| OpHandle (env clock : ProposalEnv) (method status : string) (body : option proposalReviewRequest)
    (identity : option authIdentity)
| OpSweep (env : ProposalEnv) (cutoff : Z)
| OpSweepLog (failing : option string) (cutoff : Z)
| OpOperator (w : OperatorWrite)
| OpEnforce (io : StoreIO) (domain reason : string).
Definition apply_op (op : ProposalOp) (s : ProposalStore) : ProposalStore :=
  match op with
  | OpCreate env p => (CreateAgentProposal env p s).1
  | OpHandle env clock method status body identity => (AgentProposalsHandler env clock method status body identity s).1
  | OpSweep env cutoff => cleanup_proposals env cutoff s
  | OpSweepLog failing cutoff => set_agent_log (cleanup_events failing cutoff (agent_log s)) s
  | OpOperator w => set_policy (operator_write w (policy_tables s)) s
  | OpEnforce io domain reason => set_policy (UpsertOverride domain "block" reason (policy_tables s)).1 s
  end.
Definition run (ops : list ProposalOp) (s : ProposalStore) : ProposalStore := fold_left (λ s op, apply_op op s) ops s.
Lemma run_app ops op s : run (ops ++ [op])%list s = apply_op op (run ops s).
Proof. unfold run. by rewrite fold_left_app. Qed.

(** *** What an operation does *)

Lemma create_body_inv env p ex s x s' :
  create_body env p ex s = inr (x, s') →
  (∃ r, List.find (pending_row (PDomain p) (PAction p)) (proposal_rows s) = Some r ∧ x = (row_id r, true) ∧
        s' = update_row (row_id r) (refresh_row p ex (sql_text (db_now env))) s) ∨
  (List.find (pending_row (PDomain p) (PAction p)) (proposal_rows s) = None ∧ x = ((proposal_seq s + 1)%Z, false) ∧
   s' = insert_row p ex (sql_text (db_now env)) s).
Proof.
  unfold create_body. intros Hb. tx_open.
  destruct (List.find _ (proposal_rows s)) as [r|]; tx_open; [left; eauto|by right].
Qed.
(** Creating leaves the table, refreshes the pending row, or appends one. *)
Lemma create_cases env p s : let s' := (CreateAgentProposal env p s).1 in
  s' = s ∨ ∃ q ex, completed p = Ok q ∧
    ((∃ r, List.find (pending_row (PDomain q) (PAction q)) (proposal_rows s) = Some r ∧
           s' = update_row (row_id r) (refresh_row q ex (sql_text (db_now env))) s) ∨
     (List.find (pending_row (PDomain q) (PAction q)) (proposal_rows s) = None ∧
      s' = insert_row q ex (sql_text (db_now env)) s)).
Proof.
  unfold CreateAgentProposal. destruct (proposals_enabled env); simpl; [|by left].
  destruct (completed p) as [q|]; [|by left].
  destruct (transaction _ _ _ _ _) as [s1 [e|[id b]]] eqn:Ht; apply transaction_inv in Ht; [by left|].
  apply create_body_inv in Ht as [(r & Hf & _ & ->)|(Hf & _ & ->)]; right; exists q, (expiry_text (go_now env) q); eauto.
Qed.
Lemma completed_wf p q : completed p = Ok q → PDomain q ≠ "" ∧ existsb (String.eqb (PAction q)) ["allow"; "block"] = true.
Proof.
  unfold completed. destruct (String.eqb_spec (clean_domain (PDomain p)) "") as [|Hd]; [done|].
  destruct (String.eqb (PAction p) "allow") eqn:Ha; destruct (String.eqb (PAction p) "block") eqn:Hb; simpl;
    intros Hq; simplify_eq; simpl; rewrite ?Ha, ?Hb; done.
Qed.
(** The handler reviews or leaves everything; the event goes to the log alone. *)
Lemma handler_cases env clock method status body identity s :
  let s' := (AgentProposalsHandler env clock method status body identity s).1 in
  s' = s ∨ ∃ req p s1 l, method = "POST" ∧ body = Some req ∧
    existsb (String.eqb (ToLower (TrimSpace (Decision req)))) ["approve"; "reject"] = true ∧
    ReviewAgentProposal env (ReviewID req) (String.eqb (ToLower (TrimSpace (Decision req))) "approve")
      (match identity with Some who => IdUsername who | None => "" end) (ReviewReason req) s = (s1, inr p) ∧
    s' = set_agent_log l s1.
Proof.
  unfold AgentProposalsHandler. destruct (proposals_enabled env); [|by left].
  destruct (String.eqb method "GET") eqn:Hget; simpl; [destruct (ListAgentProposals _ _ _ _); by left|].
  destruct (String.eqb_spec method "POST") as [->|]; [|by left].
  unfold review_handler. destruct body as [req|]; [|by left].
  destruct ((ReviewID req <=? 0)%Z) eqn:Hid; [by left|]. simpl.
  destruct (negb _ && negb _) eqn:Hdec; [by left|].
  destruct (ReviewAgentProposal _ _ _ _ _ s) as [s1 [e|p]] eqn:Hr.
  - left. simpl. unfold ReviewAgentProposal in Hr. destruct (proposals_enabled env); [|by injection Hr as <-].
    simpl in Hr. by apply transaction_inv in Hr.
  - right. exists req, p, s1. destruct (RecordAgentEvent _ _ _ _ _ _ _ _) as [l ?] eqn:He. exists l.
    split_and!; [done..| |done|done]. simpl. destruct (String.eqb _ "approve"), (String.eqb _ "reject"); done.
Qed.

(** *** The queue *)

Record queue_wf (s : ProposalStore) : Prop := {
  qw_ids : NoDup (row_id <$> proposal_rows s);
  qw_seq r : r ∈ proposal_rows s → (row_id r <= proposal_seq s)%Z;
  qw_action r : r ∈ proposal_rows s → row_domain r ≠ "" ∧ existsb (String.eqb (row_action r)) ["allow"; "block"] = true;
  qw_status r : r ∈ proposal_rows s →
    existsb (String.eqb (row_status r)) [AgentProposalPending; AgentProposalApproved; AgentProposalRejected] = true;
  qw_single r1 r2 : r1 ∈ proposal_rows s → r2 ∈ proposal_rows s →
    row_status r1 = AgentProposalPending → row_status r2 = AgentProposalPending →
    row_domain r1 = row_domain r2 → row_action r1 = row_action r2 → row_id r1 = row_id r2
}.
(** The later state of a row: what identifies it stays, and a decided row stays whole. *)
Definition row_follows (r r' : ProposalRow) : Prop :=
  row_id r' = row_id r ∧ row_domain r' = row_domain r ∧ row_action r' = row_action r ∧ row_task r' = row_task r ∧
  row_actor r' = row_actor r ∧ row_scope r' = row_scope r ∧ row_created r' = row_created r ∧
  (row_status r ≠ AgentProposalPending → r' = r).
(** Every row is new or follows a row with its id. *)
Definition follows (s s' : ProposalStore) : Prop :=
  (proposal_seq s <= proposal_seq s')%Z ∧
  ∀ r', r' ∈ proposal_rows s' → (proposal_seq s < row_id r')%Z ∨ ∃ r, r ∈ proposal_rows s ∧ row_follows r r'.
Lemma row_follows_refl r : row_follows r r.
Proof. unfold row_follows. auto 10. Qed.
Lemma row_follows_trans a b c : row_follows a b → row_follows b c → row_follows a c.
Proof.
  intros (? & ? & ? & ? & ? & ? & ? & Hab) (? & ? & ? & ? & ? & ? & ? & Hbc). unfold row_follows.
  split_and!; try congruence. intros Hn. specialize (Hab Hn). subst b. auto.
Qed.
Lemma follows_sub s s' :
  proposal_seq s' = proposal_seq s → (∀ r, r ∈ proposal_rows s' → r ∈ proposal_rows s) → follows s s'.
Proof. intros Hs Hr. split; [lia|]. intros r Hin. right. exists r. split; [auto|apply row_follows_refl]. Qed.
Lemma follows_trans a b c : follows a b → follows b c → follows a c.
Proof.
  intros [Hab Fab] [Hbc Fbc]. split; [lia|]. intros r Hr. destruct (Fbc r Hr) as [Hn|(r1 & Hr1 & F1)]; [left; lia|].
  destruct (Fab r1 Hr1) as [Hn|(r0 & Hr0 & F0)].
  - left. destruct F1 as [-> _]. done.
  - right. exists r0. split; [done|]. by eapply row_follows_trans.
Qed.
(** An update of pending rows that keeps what identifies them. *)
Definition row_update (f : ProposalRow → ProposalRow) (rows : list ProposalRow) : Prop :=
  ∀ r, r ∈ rows → row_follows r (f r) ∧
    existsb (String.eqb (row_status (f r))) [AgentProposalPending; AgentProposalApproved; AgentProposalRejected] = true ∧
    (row_status (f r) = AgentProposalPending → row_status r = AgentProposalPending).
Lemma update_wf f s s' :
  queue_wf s → proposal_rows s' = f <$> proposal_rows s → proposal_seq s' = proposal_seq s →
  row_update f (proposal_rows s) → queue_wf s' ∧ follows s s'.
Proof.
  intros [Hids Hseq Hact Hst Hone] Hrows Hs Hf.
  assert (row_id <$> proposal_rows s' = row_id <$> proposal_rows s) as Hid.
  { rewrite Hrows, <- list_fmap_compose. apply list_fmap_ext. intros i r Hr. apply list_elem_of_lookup_2 in Hr.
    by destruct (Hf r Hr) as [[? _] _]. }
  assert (∀ r', r' ∈ proposal_rows s' → ∃ r, r ∈ proposal_rows s ∧ r' = f r) as Hback.
  { intros r' Hr'. rewrite Hrows in Hr'. apply list_elem_of_fmap in Hr' as (r & -> & Hr). eauto. }
  split; [split|split].
  - by rewrite Hid.
  - intros r' (r & Hr & ->)%Hback. destruct (Hf r Hr) as [[-> _] _]. rewrite Hs. auto.
  - intros r' (r & Hr & ->)%Hback. destruct (Hf r Hr) as [(_ & -> & -> & _) _]. auto.
  - intros r' (r & Hr & ->)%Hback. by destruct (Hf r Hr) as (_ & ? & _).
  - intros r1' r2' (r1 & Hr1 & ->)%Hback (r2 & Hr2 & ->)%Hback Hp1 Hp2.
    destruct (Hf r1 Hr1) as ((-> & -> & -> & _) & _ & Hq1), (Hf r2 Hr2) as ((-> & -> & -> & _) & _ & Hq2).
    intros. apply Hone; auto.
  - lia.
  - intros r' (r & Hr & ->)%Hback. right. exists r. split; [done|]. by destruct (Hf r Hr) as [? _].
Qed.
Lemma sub_wf s s' : queue_wf s → proposal_seq s' = proposal_seq s → sublist (proposal_rows s') (proposal_rows s) →
  queue_wf s' ∧ follows s s'.
Proof.
  intros [Hids Hseq Hact Hst Hone] Hs Hsub.
  assert (∀ r, r ∈ proposal_rows s' → r ∈ proposal_rows s) as Hin.
  { intros r Hr. by eapply elem_of_sublist. }
  split; [split|by apply follows_sub].
  - eapply sublist_NoDup; [done|]. by apply fmap_sublist.
  - intros r Hr. rewrite Hs. auto.
  - auto.
  - auto.
  - auto.
Qed.

Lemma create_wf env p s : queue_wf s → let s' := (CreateAgentProposal env p s).1 in queue_wf s' ∧ follows s s'.
Proof.
  intros Hwf. simpl. pose proof Hwf as [Hids Hseq Hact Hst Hone].
  destruct (create_cases env p s) as [->|(q & ex & Hq & [(r & Hf & ->)|(Hf & ->)])].
  { split; [done|]. by apply follows_sub. }
  - eapply update_wf; [done|reflexivity|done|]. intros r' Hr'. unfold row_follows.
    destruct (Z.eqb_spec (row_id r') (row_id r)) as [He|]; [|by auto 10].
    apply find_some in Hf as [Hin Hp]. unfold pending_row in Hp. bool_simpl.
    assert (r' = r) as ->.
    { apply list_elem_of_In in Hin. apply list_elem_of_lookup in Hr' as [i Hi], Hin as [j Hj].
      assert (i = j) as -> by (eapply NoDup_lookup; [exact Hids|rewrite list_lookup_fmap, Hi; simpl; by rewrite He|by rewrite list_lookup_fmap, Hj]).
      congruence. }
    simpl. apply list_elem_of_In in Hin. split_and!; try done. by apply Hst.
  - apply completed_wf in Hq as [Hd Ha].
    assert (∀ r, r ∈ proposal_rows s → row_status r = AgentProposalPending → row_domain r = PDomain q →
                 row_action r = PAction q → False) as Hnew.
    { intros r Hr Hp Hdr Har. apply list_elem_of_In in Hr. pose proof (find_none _ _ Hf r Hr) as Hc. unfold pending_row in Hc.
      rewrite Hdr, Har, Hp, !String.eqb_refl in Hc. done. }
    assert (∀ r, r ∈ proposal_rows (insert_row q ex (sql_text (db_now env)) s) →
                 r ∈ proposal_rows s ∨ r = fresh_row q (proposal_seq s + 1) ex (sql_text (db_now env))) as Hin.
    { intros r Hr. unfold insert_row in Hr. simpl in Hr. by rewrite elem_of_app, list_elem_of_singleton in Hr. }
    split; [split|split].
    + simpl. rewrite fmap_app. apply NoDup_app. split; [done|]. split; [|apply NoDup_singleton]. simpl.
      intros i Hi. rewrite list_elem_of_singleton. apply list_elem_of_fmap in Hi as (r & -> & Hr). specialize (Hseq r Hr). lia.
    + intros r [Hr| ->]%Hin; simpl; [specialize (Hseq r Hr)|]; lia.
    + intros r [Hr| ->]%Hin; [auto|done].
    + intros r [Hr| ->]%Hin; [auto|done].
    + intros r1 r2 [Hr1| ->]%Hin [Hr2| ->]%Hin Hp1 Hp2 Hd12 Ha12; [by auto|exfalso; by eapply (Hnew r1)| |done].
      exfalso. by eapply (Hnew r2).
    + simpl. lia.
    + intros r [Hr| ->]%Hin; [right; exists r; split; [done|apply row_follows_refl]|left; simpl; lia].
Qed.
Lemma handler_wf env clock method status body identity s :
  queue_wf s → let s' := (AgentProposalsHandler env clock method status body identity s).1 in queue_wf s' ∧ follows s s'.
Proof.
  intros Hwf. simpl. destruct (handler_cases env clock method status body identity s) as [->|Hc].
  { split; [done|]. by apply follows_sub. }
  destruct Hc as (req & p & s1 & l & _ & _ & _ & Hr & ->).
  pose proof (review_all_or_nothing_aux env (ReviewID req) (String.eqb (ToLower (TrimSpace (Decision req))) "approve")
    (match identity with Some who => IdUsername who | None => "" end) (ReviewReason req) s) as Hs.
  rewrite Hr in Hs. destruct Hs as (r & _ & _ & _ & Hrows & Hseq & _ & _).
  eapply update_wf; [done|exact Hrows|exact Hseq|]. intros r' Hr'. pose proof (qw_status s Hwf r' Hr') as Hst. unfold row_follows.
  destruct (String.eqb_spec (row_status r') AgentProposalPending) as [Hp|Hp]; destruct (row_id r' =? _)%Z; simpl;
    split_and!; try done; by destruct (String.eqb _ "approve").
Qed.

Lemma filter_sublist {A} (f : A → bool) l : sublist (List.filter f l) l.
Proof.
  induction l as [|x l IH]; [constructor|]. simpl. destruct (f x); [by apply sublist_skip|by apply sublist_cons].
Qed.
Lemma op_wf op s : queue_wf s → queue_wf (apply_op op s) ∧ follows s (apply_op op s).
Proof.
  intros Hwf. destruct op as [env p|env clock method status body identity|env cutoff|fail cutoff|w|io domain reason]; simpl.
  - by apply create_wf.
  - by apply handler_wf.
  - apply sub_wf; unfold cleanup_proposals; destruct (failing env SCleanup); try done. simpl. apply filter_sublist.
  - by apply sub_wf.
  - by apply sub_wf.
  - by apply sub_wf.
Qed.
Lemma run_wf ops s : queue_wf s → queue_wf (run ops s) ∧ follows s (run ops s).
Proof.
  intros Hwf. induction ops as [|op ops IH] using rev_ind.
  - split; [done|]. by apply follows_sub.
  - destruct IH as [Hr Hf]. rewrite run_app. destruct (op_wf op _ Hr) as [? ?]. split; [done|]. by eapply follows_trans.
Qed.
Definition empty_queue (t : Tables) : ProposalStore := mkStore [] 0 t empty_log.
Lemma empty_wf t : queue_wf (empty_queue t).
Proof. split; simpl; try (intros * Hr; by apply not_elem_of_nil in Hr). apply NoDup_nil_2. Qed.

(** C27: In every history of the table, whatever fails: ids are never reused; a name and an
    action have at most one pending proposal, so a repeated finding refreshes the queue
    instead of growing it; an approved or rejected proposal stays as it is until retention
    removes it; what identifies a proposal never changes; and retention never removes a
    pending proposal that expires after its cutoff. *)
Theorem proposal_queue (t : Tables) (before after : list ProposalOp) :
  let s := run before (empty_queue t) in
  let s' := run after s in
  queue_wf s' ∧
  (∀ r r', r ∈ proposal_rows s → r' ∈ proposal_rows s' → row_id r' = row_id r → row_follows r r') ∧
  (∀ env cutoff r, r ∈ proposal_rows s' → row_status r = AgentProposalPending → before_cutoff cutoff (row_expires r) = false →
     r ∈ proposal_rows (cleanup_proposals env cutoff s')).
Proof.
  simpl. destruct (run_wf before _ (empty_wf t)) as [Hs _]. destruct (run_wf after _ Hs) as [Hs' [_ Hf]].
  split; [done|]. split.
  - intros r r' Hr Hr' Hid. destruct (Hf r' Hr') as [Hn|(r0 & Hr0 & F)].
    + pose proof (qw_seq _ Hs r Hr). lia.
    + assert (r0 = r) as ->; [|done]. destruct F as [He _]. destruct Hs as [Hids _ _ _ _].
      apply list_elem_of_lookup in Hr as [i Hi], Hr0 as [j Hj].
      assert (i = j) as -> by (eapply NoDup_lookup; [exact Hids|rewrite list_lookup_fmap, Hi; simpl; by rewrite <- Hid, He|
        by rewrite list_lookup_fmap, Hj]). congruence.
  - intros env cutoff r Hr Hp Hc. unfold cleanup_proposals. destruct (failing env SCleanup); [done|]. simpl.
    apply list_elem_of_In, filter_In. split; [by apply list_elem_of_In|]. unfold sweepable. rewrite Hp, Hc. done.
Qed.

(** ** Authority *)

(** The approval of a proposal, asked for by a request, that writes [o] over [d]. *)
Definition approves (op : ProposalOp) (s : ProposalStore) (d : string) (o : Override) : Prop :=
  ∃ env clock status req identity r,
    op = OpHandle env clock "POST" status (Some req) identity ∧ ToLower (TrimSpace (Decision req)) = "approve" ∧
    reviewable env (ReviewID req) r s ∧ hasGroupOverrideForDomain env (row_domain r) (policy_tables s) = Ok false ∧
    check_override (row_domain r) (row_action r) = Ok d ∧
    o = mkOverride d (row_action r)
          (override_reason (ReviewID req) (match identity with Some who => IdUsername who | None => "" end) (ReviewReason req)).
(** What an operator's request says of the global override of [d]: the row it asks for, or
    none. *)
Definition operator_sets (w : OperatorWrite) (d : string) (o : option Override) : Prop :=
  match w with
  | PutOverride _ domain action reason => ∃ n,
      NormalizeDomain domain = Ok n ∧ check_override n action = Ok d ∧ o = Some (mkOverride d action reason)
  | DropOverride _ domain => NormalizeDomain domain = Ok d ∧ o = None
  | FalsePositive _ _ domain reason source =>
      NormalizeDomain (TrimSpace domain) = Ok d ∧ (8 <= Z.of_nat (slen (TrimSpace reason)))%Z
      ∧ ∃ text, o = Some (mkOverride d "allow" text)
  | _ => False
  end.
(** And of the override of a group. *)
Definition operator_sets_group (w : OperatorWrite) (key : Z * string) (o : option Override) : Prop :=
  match w with
  | PutGroupOverride _ g domain action reason => ∃ d,
      check_override domain action = Ok d ∧ key = (g, d) ∧ o = Some (mkOverride d action reason)
  | DropGroupOverride _ g domain => key = (g, TrimSpace (ToLower domain)) ∧ o = None
  | DropGroup _ g _ => key.1 = g ∧ o = None
  | _ => False
  end.
(** Who wrote the row, or removed it: an operator, the approval of a proposal, or the audit
    enforcing by itself. *)
Definition authority (op : ProposalOp) (s : ProposalStore) (d : string) (o : option Override) : Prop :=
  (∃ w, op = OpOperator w ∧ operator_sets w d o) ∨
  (∃ o', approves op s d o' ∧ o = Some o') ∨
  (∃ io domain reason, op = OpEnforce io domain reason ∧ check_override domain "block" = Ok d ∧
     o = Some (mkOverride d "block" reason)).
Definition group_authority (op : ProposalOp) (key : Z * string) (o : option Override) : Prop :=
  ∃ w, op = OpOperator w ∧ operator_sets_group w key o.

Lemma operator_policy w t :
  (∀ d, local_overrides (operator_write w t) !! d = local_overrides t !! d
        ∨ operator_sets w d (local_overrides (operator_write w t) !! d)) ∧
  (∀ key, group_overrides (operator_write w t) !! key = group_overrides t !! key
          ∨ operator_sets_group w key (group_overrides (operator_write w t) !! key)).
Proof.
  destruct w as [io domain action reason|io domain|failed reportID domain reason source|io g domain action reason|
    io g domain|io name desc cats sp sm|io id name desc cats sp sm|io id db|io kind value g db|io id db]; simpl.
  - unfold ServiceUpsertOverride, UpsertOverride. destruct (NormalizeDomain domain) as [n|] eqn:En; [|split; by left].
    destruct (check_override n action) as [d|] eqn:Ec; [|split; by left].
    destruct (io_err _); [split; by left|]. simpl. split; [|by left]. intros d'.
    destruct (decide (d = d')) as [->|Hd]; [right; rewrite lookup_insert_eq; eauto|left; by rewrite lookup_insert_ne].
  - unfold ServiceDeleteOverride, DeleteOverride. destruct (NormalizeDomain domain) as [n|] eqn:En; [|split; by left].
    destruct (io_err _); [split; by left|]. destruct (local_overrides t !! n); [|split; by left].
    simpl. split; [|by left]. intros d'.
    destruct (decide (n = d')) as [->|Hd]; [right; by rewrite lookup_delete_eq|left; by rewrite lookup_delete_ne].
  - unfold ReviewFalsePositive, ApproveFalsePositive. destruct (String.eqb _ ""); [split; by left|].
    destruct (Z.ltb_spec (Z.of_nat (slen (TrimSpace reason))) 8); [split; by left|].
    destruct (reportID <? 0)%Z; [split; by left|].
    destruct (NormalizeDomain _) as [n|] eqn:En; [|split; by left]. destruct failed; [split; by left|].
    simpl. split; [|by left]. intros d'.
    destruct (decide (n = d')) as [->|Hd]; [right; rewrite lookup_insert_eq; split_and!; eauto; lia|left; by rewrite lookup_insert_ne].
  - unfold UpsertGroupOverride. destruct (check_override domain action) as [d|] eqn:Ec; [|split; by left].
    destruct (io_err _); [split; by left|]. destruct (negb _); [split; by left|]. simpl. split; [by left|]. intros key.
    destruct (decide ((g, d) = key)) as [<-|Hd]; [right; rewrite lookup_insert_eq; eauto|left; by rewrite lookup_insert_ne].
  - unfold DeleteGroupOverride. destruct (io_err _); [split; by left|].
    destruct (group_overrides t !! _); [|split; by left]. simpl. split; [by left|]. intros key.
    destruct (decide ((g, TrimSpace (ToLower domain)) = key)) as [<-|Hd];
      [right; by rewrite lookup_delete_eq|left; by rewrite lookup_delete_ne].
  - unfold CreateGroup. repeat case_match; split; by left.
  - unfold UpdateGroup. repeat case_match; split; by left.
  - unfold DeleteGroup. destruct (id =? 1)%Z; [split; by left|]. destruct (io_err _); [split; by left|].
    destruct (client_groups t !! id); [|split; by left]. simpl. split; [by left|]. intros key.
    destruct (decide (key.1 = id)) as [Hk|Hk].
    + right. split; [done|]. apply map_lookup_filter_None. right. intros o _. simpl. tauto.
    + left. destruct (group_overrides t !! key) as [o|] eqn:E.
      * by apply map_lookup_filter_Some.
      * apply map_lookup_filter_None. by left.
  - unfold AddMappingInt. repeat case_match; split; by left.
  - unfold DeleteMapping. repeat case_match; split; by left.
Qed.

(** One operation on the policy. *)
Lemma op_policy op s :
  (∀ d, local_overrides (policy_tables (apply_op op s)) !! d = local_overrides (policy_tables s) !! d
        ∨ authority op s d (local_overrides (policy_tables (apply_op op s)) !! d)) ∧
  (∀ key, group_overrides (policy_tables (apply_op op s)) !! key = group_overrides (policy_tables s) !! key
          ∨ group_authority op key (group_overrides (policy_tables (apply_op op s)) !! key)).
Proof.
  assert (∀ s', policy_tables s' = policy_tables s →
    (∀ d, local_overrides (policy_tables s') !! d = local_overrides (policy_tables s) !! d
          ∨ authority op s d (local_overrides (policy_tables s') !! d)) ∧
    (∀ key, group_overrides (policy_tables s') !! key = group_overrides (policy_tables s) !! key
          ∨ group_authority op key (group_overrides (policy_tables s') !! key))) as Hsame
    by (intros s' ->; split; by left).
  destruct op as [env p|env clock method status body identity|env cutoff|fail cutoff|w|io domain reason]; simpl.
  - destruct (create_cases env p s) as [->|(q & ex & _ & [(r & _ & ->)|(_ & ->)])]; by apply Hsame.
  - destruct (handler_cases env clock method status body identity s) as [->|Hc]; [by apply Hsame|].
    destruct Hc as (req & p & s1 & l & -> & -> & _ & Hr & ->).
    pose proof (review_all_or_nothing_aux env (ReviewID req) (String.eqb (ToLower (TrimSpace (Decision req))) "approve")
      (match identity with Some who => IdUsername who | None => "" end) (ReviewReason req) s) as Hs.
    rewrite Hr in Hs. destruct Hs as (r & Hrv & _ & _ & _ & _ & _ & Hp). simpl.
    destruct (String.eqb_spec (ToLower (TrimSpace (Decision req))) "approve") as [Ha|]; [|by apply Hsame].
    destruct Hp as (Hg & d & Hd & ->). pose proof (row_at_some _ _ _ (rv_row _ _ _ _ Hrv)) as [_ Hid].
    simpl. split; [|by left]. intros d'. destruct (decide (d = d')) as [<-|Hne]; [|left; by rewrite lookup_insert_ne].
    right. rewrite lookup_insert_eq. right. left. eexists. split; [|unfold granted; reflexivity].
    rewrite Hid. exists env, clock, status, req, identity, r. split_and!; done.
  - unfold cleanup_proposals. destruct (failing env SCleanup); by apply Hsame.
  - by apply Hsame.
  - destruct (operator_policy w (policy_tables s)) as [Hl Hg]. split; intros k.
    + destruct (Hl k) as [?|?]; [by left|right; left; eauto].
    + destruct (Hg k) as [?|?]; [by left|right; exists w; eauto].
  - unfold UpsertOverride. destruct (check_override domain "block") as [d|] eqn:Hc; [|split; by left].
    destruct (io_err _); [split; by left|]. simpl. split; [|by left]. intros d'.
    destruct (decide (d = d')) as [<-|Hne]; [|left; by rewrite lookup_insert_ne].
    right. rewrite lookup_insert_eq. do 2 right. eauto 6.
Qed.

End Spec.

(** ** Concrete histories *)

Module Examples.
#[local] Instance ex_tables : UnicodeTables := ascii_tables.
#[local] Existing Instance GroupsSpec.Examples.ex_sort.
#[local] Instance ex_services : HostServices := two_label_services.
#[local] Instance ex_civil : CivilTime := {| civil_text t := pretty t |}.
#[local] Instance ex_sql : SqlTime :=
  {| sql_text t := pretty t; sql_datetime s := if String.eqb s "later" then Some 90%Z else if String.eqb s "50" then Some 50%Z else None |}.
#[local] Instance ex_texts : ProposalTexts :=
  {| parse_rfc3339 s := if String.eqb s "later" then Some (90 * second_ns)%Z else None;
     encode_reasons := λ l, Join l ","; decode_reasons := λ s, Ok (Split s ",") |}.
Definition at_second (t : Z) (broken : option ProposalStatement) : ProposalEnv :=
  mkProposalEnv true (t * second_ns) t
    (λ st, match broken, st with Some SReview, SReview => Some "disk I/O error" | Some SCommit, SCommit => Some "busy" | _, _ => None end).
Definition finding (score : Z) (reason : string) : AgentProposal :=
  mkProposal 0 "" " Phish.Example.COM." "block" score f_zero [reason] "{}" "" "" "" "later" "" "" "".
Definition asked (decision : string) : option proposalReviewRequest := Some (mkReview 1 decision " seen ").
Definition alice : option authIdentity := Some (mkIdentity "alice" "admin" "session").
Definition review (t : Z) (broken : option ProposalStatement) (decision : string) : ProposalOp :=
  OpHandle (at_second t broken) (at_second t None) "POST" "" (asked decision) alice.
Definition no_policy : Tables := mkTables ∅ ∅ ∅ ∅ 0 0.
Definition queued : ProposalStore :=
  run [OpCreate (at_second 10 None) (finding 71 "a"); OpCreate (at_second 20 None) (finding 85 "b")] (empty_queue no_policy).
(** What a row shows, and the override of the name. *)
Definition shown (s : ProposalStore) : list (Z * string * Z * string * string) * option Override :=
  ((λ r, (row_id r, row_domain r, row_score r, row_reasons r, row_status r)) <$> proposal_rows s,
   local_overrides (policy_tables s) !! "phish.example.com").

(** The second finding refreshes the first. *)
Example refreshed : shown queued = ([(1%Z, "phish.example.com", 85%Z, "b", "pending")], None).
Proof. vm_compute. reflexivity. Qed.
(** A failing status update takes the override back with it; the proposal can be approved
    again, once. *)
Example atomic :
  shown (run [review 30 (Some SReview) "approve"; review 31 (Some SCommit) "approve"] queued) = shown queued ∧
  shown (run [review 30 (Some SReview) "approve"; review 40 None " Approve"; review 41 None "reject"] queued) =
    ([(1%Z, "phish.example.com", 85%Z, "b", "approved")],
     Some (mkOverride "phish.example.com" "block" "approved agent proposal #1: seen (reviewer: alice)")).
Proof. split; vm_compute; reflexivity. Qed.
(** Policy of a group that appears in between stops the approval. *)
Definition works : StoreIO := {| io_err _ := None |}.
Definition group_rows : list ProposalOp :=
  [OpOperator (PutGroup works "kids" "" [] false false); OpOperator (PutGroupOverride works 0 "Example.com." "allow" "")].
Example not_over_groups :
  (AgentProposalsHandler (at_second 30 None) (at_second 30 None) "POST" "" (asked "approve") alice
     (run group_rows queued)).2 = Refused (WriteError 409 "1") ∧
  shown (run (group_rows ++ [review 30 None "approve"])%list queued) = shown queued ∧
  shown (run [review 100 None "approve"] queued) = shown queued.
Proof. split_and!; vm_compute; reflexivity. Qed.
(** The review of a false positive stores its override without the check every other
    write of an override makes: the name may be a public suffix. *)
Example suffix_allowed :
  (operator_write (PutOverride works "com" "allow" "") no_policy = no_policy) ∧
  local_overrides (operator_write (FalsePositive None 0 "com" "not a threat" "") no_policy) !! "com"
  = Some (mkOverride "com" "allow" "false-positive review: not a threat").
Proof. split; vm_compute; reflexivity. Qed.
(** A status no proposal can have is answered as a failure of the store. *)
Example unknown_filter :
  (AgentProposalsHandler (at_second 30 None) (at_second 30 None) "GET" "closed" None None queued).2 =
    Refused (WriteError 500 "failed to list proposals").
Proof. vm_compute. reflexivity. Qed.
(** An approval the store would refuse for its name is answered as a failure, too. *)
Example unregistrable_approval :
  (AgentProposalsHandler (at_second 30 None) (at_second 30 None) "POST" "" (asked "approve") alice
     (run [OpCreate (at_second 10 None)
             (mkProposal 0 "" "com" "block" 90 f_zero [] "{}" "" "" "" "later" "" "" "")] (empty_queue no_policy))).2 =
    Refused (WriteError 500 "failed to review proposal").
Proof. vm_compute. reflexivity. Qed.
End Examples.
