(* ===== verification/Engine.v ===== *)
(** * The agent's task engine: [internal/agent/engine.go] and the trigger handler of
    [internal/api/handlers/agent.go]

    Each operation under the mutex is a function on the engine; a step relation
    interleaves the scheduler goroutine, the goroutines of the tasks, [Start], [Stop] and
    the callers.  Times, the outcomes of tasks and failing inserts are free. *)

From Stdlib Require Import ZArith Lia Ascii String.
From stdpp Require Import relations.
From S2P Require Import Prelude GoStr NetIP ClientIP NetGuard Session AuthAPI AgentLog.

Inductive TaskState := TaskIdle | TaskRunning | TaskFailed.
#[export] Instance TaskState_eq_dec : EqDecision TaskState.
Proof. solve_decision. Defined.
(** [HasSink]: the task hands out an event store. *)
Record registeredTask := mkTask {
  TName : string; Interval : Z; Timeout : Z; TEnabled : bool; HasSink : bool;
  lastRun : option Z; lastErr : string; runCount : Z; errCount : Z; tstate : TaskState
}.
Record AgentEngine := mkEngine {
  etasks : list registeredTask; triggerCh : list string; edone : bool; ectx_cancelled : bool; ewg : nat;
  estarted : bool; estopped : bool
}.
Definition trigger_capacity : nat := 8.
Definition tickInterval : Z := 30 * 1000000000.
Definition NewEngine : AgentEngine := mkEngine [] [] false false 0 false false.

Definition set_tasks (ts : list registeredTask) (e : AgentEngine) : AgentEngine :=
  mkEngine ts (triggerCh e) (edone e) (ectx_cancelled e) (ewg e) (estarted e) (estopped e).
Definition set_queue (q : list string) (e : AgentEngine) : AgentEngine :=
  mkEngine (etasks e) q (edone e) (ectx_cancelled e) (ewg e) (estarted e) (estopped e).
Definition set_wg (n : nat) (e : AgentEngine) : AgentEngine :=
  mkEngine (etasks e) (triggerCh e) (edone e) (ectx_cancelled e) n (estarted e) (estopped e).
Definition set_state (st : TaskState) (t : registeredTask) : registeredTask :=
  mkTask (TName t) (Interval t) (Timeout t) (TEnabled t) (HasSink t) (lastRun t) (lastErr t) (runCount t) (errCount t) st.

(** ** The operations *)

Definition Register (name : string) (interval timeout : Z) (enabled sink : bool) (e : AgentEngine) : AgentEngine :=
  set_tasks (etasks e ++ [mkTask name interval timeout enabled sink None "" 0 0 TaskIdle])%list e.

Inductive TriggerResult := TriggerAccepted | TriggerTaskNotFound | TriggerTaskDisabled | TriggerQueueFull.
(** The first task of that name, with its position. *)
Fixpoint find_named (name : string) (i : nat) (ts : list registeredTask) : option (nat * registeredTask) :=
  match ts with
  | [] => None
  | t :: ts => if String.eqb (TName t) name then Some (i, t) else find_named name (S i) ts
  end.
Definition Trigger (name : string) (e : AgentEngine) : AgentEngine * TriggerResult :=
  match find_named name 0 (etasks e) with
  | None => (e, TriggerTaskNotFound)
  | Some (_, t) =>
      if negb (TEnabled t) then (e, TriggerTaskDisabled)
      else if Nat.ltb (length (triggerCh e)) trigger_capacity
      then (set_queue (triggerCh e ++ [name])%list e, TriggerAccepted)
      else (e, TriggerQueueFull)
  end.

(** The tasks [runDueTasks] takes into its snapshot. *)
Definition due (now : Z) (t : registeredTask) : bool :=
  TEnabled t && negb (bool_decide (tstate t = TaskRunning))
  && match lastRun t with Some last => negb (now - last <? Interval t)%Z | None => true end.
Fixpoint due_from (now : Z) (i : nat) (ts : list registeredTask) : list nat :=
  match ts with
  | [] => []
  | t :: ts => if due now t then i :: due_from now (S i) ts else due_from now (S i) ts
  end.
Definition due_tasks (now : Z) (e : AgentEngine) : list nat := due_from now 0 (etasks e).

(** Whether a goroutine is started. *)
Definition executeTask (i : nat) (e : AgentEngine) : AgentEngine * bool :=
  match etasks e !! i with
  | None => (e, false)
  | Some t =>
      if estopped e || bool_decide (tstate t = TaskRunning) then (e, false)
      else (set_wg (S (ewg e)) (set_tasks (<[i := set_state TaskRunning t]> (etasks e)) e), true)
  end.

Inductive TaskOutcome := Succeeded | ReturnedError (message : string) | PanickedWith (value : string).
Definition outcome_error (o : TaskOutcome) : option string :=
  match o with
  | Succeeded => None
  | ReturnedError m => Some m
  | PanickedWith v => Some ("panic: " ++ v)
  end.
Definition finished (now : Z) (o : TaskOutcome) (t : registeredTask) : registeredTask :=
  match outcome_error o with
  | Some m => mkTask (TName t) (Interval t) (Timeout t) (TEnabled t) (HasSink t) (Some now) m (runCount t + 1) (errCount t + 1) TaskFailed
  | None => mkTask (TName t) (Interval t) (Timeout t) (TEnabled t) (HasSink t) (Some now) "" (runCount t + 1) (errCount t) TaskIdle
  end.
Definition setTaskResult (now : Z) (i : nat) (o : TaskOutcome) (e : AgentEngine) : AgentEngine :=
  set_tasks (alter (finished now o) i (etasks e)) e.
(** The event a finished run leaves in the store of its task. *)
Definition runtime_event (o : TaskOutcome) : option string :=
  match o with Succeeded => None | ReturnedError _ => Some "task_failed" | PanickedWith _ => Some "task_panicked" end.
Section Events.
Context `{SqlTime}.
(** [payload]: the encoded details, [None] when they cannot be encoded *)
Definition recordTaskRuntimeEvent (enabled : bool) (failing : option string) (sql_now : Z) (t : registeredTask)
    (eventType : string) (payload : option string) (log : EventLog) : EventLog :=
  if negb (HasSink t) then log
  else match payload with
  | None => log
  | Some details => (RecordAgentEvent enabled failing sql_now (TName t) eventType "" details log).1
  end.
Definition finish_events (enabled : bool) (failing : option string) (sql_now : Z) (t : registeredTask) (o : TaskOutcome)
    (payload : option string) (log : EventLog) : EventLog :=
  match runtime_event o with
  | None => log
  | Some event => recordTaskRuntimeEvent enabled failing sql_now t event payload log
  end.
End Events.

Record TaskStatus := mkTaskStatus {
  SName : string; SEnabled : bool; SState : TaskState; SInterval : Z; SLastRun : option Z; SNextRun : option Z;
  SLastError : string; SRunCount : Z; SErrorCount : Z
}.
Definition task_status (t : registeredTask) : TaskStatus :=
  mkTaskStatus (TName t) (TEnabled t) (tstate t) (Interval t) (lastRun t) ((λ l, (l + Interval t)%Z) <$> lastRun t)
    (lastErr t) (runCount t) (errCount t).
Definition EngineStatus (e : AgentEngine) : list TaskStatus := task_status <$> etasks e.

(** [engine]: [None] when the agent is off *)
Definition AgentTriggerHandler (method task : string) (engine : option AgentEngine) : option AgentEngine * Response :=
  if negb (String.eqb method "POST") then (engine, WriteError 405 "method not allowed")
  else match engine with
  | None => (engine, WriteError 503 "agent engine not enabled")
  | Some e =>
      if String.eqb task "" then (engine, WriteError 400 "task query parameter is required")
      else
        let '(e, result) := Trigger task e in
        (Some e, match result with
                 | TriggerAccepted => mkResponse 200 (PStatus "triggered") None
                 | TriggerTaskNotFound => WriteError 404 ("task not found: " ++ task)
                 | TriggerTaskDisabled => WriteError 409 ("task is disabled: " ++ task)
                 | TriggerQueueFull => WriteError 429 "agent trigger queue is full"
                 end)
  end.

(** ** The goroutines *)

(** Where the scheduler is: [LoopStarting] is [Start] between its mutex and its [go];
    [LoopDue] walks a snapshot; [LoopExec] is about to call [executeTask]. *)
Inductive EngineLoop :=
| LoopNone | LoopStarting | LoopCheck | LoopDue (rest : list nat) | LoopExec (i : nat) (rest : list nat)
| LoopSelect | LoopNamed (name : string) | LoopExited.
(** [Stop]: past its mutex, past [cancel], past [close], returned. *)
Inductive StopState := NoStop | StopMarked | StopCancelled | StopClosed | StopReturned.
Inductive TaskPhase := Executing | Reporting (o : TaskOutcome) | Leaving.
Inductive RunEvent := RunStarted (i : nat) | RunFinished (i : nat) (o : TaskOutcome).
(** [history]: the runs so far, the newest first. *)
Record EngineSystem := mkSystem {
  engine : AgentEngine; loop : EngineLoop; stopping : StopState; goroutines : list (nat * TaskPhase);
  event_log : EventLog; history : list RunEvent
}.
Definition set_engine (e : AgentEngine) (s : EngineSystem) : EngineSystem :=
  mkSystem e (loop s) (stopping s) (goroutines s) (event_log s) (history s).
Definition set_loop (l : EngineLoop) (s : EngineSystem) : EngineSystem :=
  mkSystem (engine s) l (stopping s) (goroutines s) (event_log s) (history s).
Definition set_stop (st : StopState) (s : EngineSystem) : EngineSystem :=
  mkSystem (engine s) (loop s) st (goroutines s) (event_log s) (history s).
Definition Start_begin (e : AgentEngine) : AgentEngine :=
  mkEngine (etasks e) (triggerCh e) (edone e) (ectx_cancelled e) (ewg e) true (estopped e).
Definition Stop_begin (e : AgentEngine) : AgentEngine :=
  mkEngine (etasks e) (triggerCh e) (edone e) (ectx_cancelled e) (ewg e) (estarted e) true.
Definition Stop_cancel (e : AgentEngine) : AgentEngine :=
  mkEngine (etasks e) (triggerCh e) (edone e) true (ewg e) (estarted e) (estopped e).
Definition Stop_close (e : AgentEngine) : AgentEngine :=
  mkEngine (etasks e) (triggerCh e) true (ectx_cancelled e) (ewg e) (estarted e) (estopped e).
(** [executeTask] at the scheduler: the goroutine it launches. *)
Definition launch (i : nat) (s : EngineSystem) : EngineSystem :=
  let '(e, launched) := executeTask i (engine s) in
  if launched
  then mkSystem e (loop s) (stopping s) ((i, Executing) :: goroutines s) (event_log s) (RunStarted i :: history s)
  else set_engine e s.
(** The scheduler after [select] took a name off the queue. *)
Definition runTaskByName (name : string) (e : AgentEngine) : EngineLoop :=
  match find_named name 0 (etasks e) with Some (i, _) => LoopExec i [] | None => LoopSelect end.

Section System.
Context `{SqlTime}.
Inductive engine_step : EngineSystem → EngineSystem → Prop :=
| step_register name interval timeout enabled sink s :
    engine_step s (set_engine (Register name interval timeout enabled sink (engine s)) s)
| step_trigger name s : engine_step s (set_engine (Trigger name (engine s)).1 s)
| step_start s : estarted (engine s) = false →
    engine_step s (set_loop LoopStarting (set_engine (Start_begin (engine s)) s))
| step_go s : loop s = LoopStarting →
    engine_step s (set_loop LoopCheck (set_engine (set_wg (S (ewg (engine s))) (engine s)) s))
| step_stop s : estarted (engine s) = true → estopped (engine s) = false →
    engine_step s (set_stop StopMarked (set_engine (Stop_begin (engine s)) s))
| step_cancel s : stopping s = StopMarked →
    engine_step s (set_stop StopCancelled (set_engine (Stop_cancel (engine s)) s))
| step_close s : stopping s = StopCancelled →
    engine_step s (set_stop StopClosed (set_engine (Stop_close (engine s)) s))
| step_wait s : stopping s = StopClosed → ewg (engine s) = 0 → engine_step s (set_stop StopReturned s)
| step_check now s : loop s = LoopCheck → engine_step s (set_loop (LoopDue (due_tasks now (engine s))) s)
| step_due_done rest s : loop s = LoopDue rest → edone (engine s) = true → rest ≠ [] → engine_step s (set_loop LoopSelect s)
| step_due i rest s : loop s = LoopDue (i :: rest) → edone (engine s) = false → engine_step s (set_loop (LoopExec i rest) s)
| step_due_end s : loop s = LoopDue [] → engine_step s (set_loop LoopSelect s)
| step_exec i rest s : loop s = LoopExec i rest → engine_step s (set_loop (LoopDue rest) (launch i s))
| step_select_done s : loop s = LoopSelect → edone (engine s) = true →
    engine_step s (set_loop LoopExited (set_engine (set_wg (Nat.pred (ewg (engine s))) (engine s)) s))
| step_select_trigger name queue s : loop s = LoopSelect → triggerCh (engine s) = name :: queue →
    engine_step s (set_loop (LoopNamed name) (set_engine (set_queue queue (engine s)) s))
| step_named name s : loop s = LoopNamed name → engine_step s (set_loop (runTaskByName name (engine s)) s)
| step_tick s : loop s = LoopSelect → engine_step s (set_loop LoopCheck s)
| step_result now i o before after s : goroutines s = (before ++ (i, Executing) :: after)%list →
    engine_step s (mkSystem (setTaskResult now i o (engine s)) (loop s) (stopping s)
                     (before ++ (i, Reporting o) :: after)%list (event_log s) (RunFinished i o :: history s))
| step_report enabled failing sql_now payload t i o before after s :
    goroutines s = (before ++ (i, Reporting o) :: after)%list → etasks (engine s) !! i = Some t →
    engine_step s (mkSystem (engine s) (loop s) (stopping s) (before ++ (i, Leaving) :: after)%list
                     (finish_events enabled failing sql_now t o payload (event_log s)) (history s))
| step_leave i before after s : goroutines s = (before ++ (i, Leaving) :: after)%list →
    engine_step s (mkSystem (set_wg (Nat.pred (ewg (engine s))) (engine s)) (loop s) (stopping s)
                     (before ++ after)%list (event_log s) (history s)).
End System.
Definition initial_system : EngineSystem := mkSystem NewEngine LoopNone NoStop [] empty_log [].
