(* ===== verification/EngineSpec.v ===== *)
(** * Theorems about the agent's task engine: [Engine]

    One run of a task at a time, none of a disabled task, counters that count the runs,
    and nothing after a stop, in every interleaving. *)

From Stdlib Require Import ZArith Lia Ascii String.
From stdpp Require Import relations.
From S2P Require Import Prelude GoStr NetIP ClientIP NetGuard Session AuthAPI AgentLog Engine.

(** ** Counting *)

Definition count {A} (f : A → bool) (l : list A) : nat := length (List.filter f l).
Lemma count_cons {A} (f : A → bool) x l : count f (x :: l) = (if f x then 1 else 0) + count f l.
Proof. unfold count. simpl. by destruct (f x). Qed.
Lemma count_app {A} (f : A → bool) l1 l2 : count f (l1 ++ l2) = count f l1 + count f l2.
Proof. unfold count. by rewrite List.filter_app, length_app. Qed.
Lemma count_middle {A} (f : A → bool) l1 x l2 : count f (l1 ++ x :: l2) = (if f x then 1 else 0) + count f (l1 ++ l2).
Proof. rewrite !count_app, count_cons. lia. Qed.

Definition executing (i : nat) (g : nat * TaskPhase) : bool :=
  Nat.eqb g.1 i && match g.2 with Executing => true | _ => false end.
Definition started (i : nat) (e : RunEvent) : bool := match e with RunStarted j => Nat.eqb j i | _ => false end.
Definition ended (i : nat) (e : RunEvent) : bool := match e with RunFinished j _ => Nat.eqb j i | _ => false end.
Definition failed (i : nat) (e : RunEvent) : bool :=
  match e with RunFinished j o => Nat.eqb j i && bool_decide (is_Some (outcome_error o)) | _ => false end.
Definition running_flag (t : registeredTask) : nat := if bool_decide (tstate t = TaskRunning) then 1 else 0.
Definition loop_alive (l : EngineLoop) : nat := match l with LoopNone | LoopStarting | LoopExited => 0 | _ => 1 end.
Definition loop_indices (l : EngineLoop) : list nat :=
  match l with LoopDue rest => rest | LoopExec i rest => i :: rest | _ => [] end.
Definition loop_names (l : EngineLoop) : list string := match l with LoopNamed name => [name] | _ => [] end.

(** ** Lookups *)

Definition enabled_at (ts : list registeredTask) (i : nat) : Prop := ∃ t, ts !! i = Some t ∧ TEnabled t = true.
Definition enabled_name (ts : list registeredTask) (name : string) : Prop :=
  ∃ i t, find_named name 0 ts = Some (i, t) ∧ TEnabled t = true.
Lemma find_named_lookup name k ts i t : find_named name k ts = Some (i, t) → (k <= i)%nat ∧ ts !! (i - k)%nat = Some t.
Proof.
  revert k. induction ts as [|u ts IH]; intros k; [done|]. simpl. destruct (String.eqb (TName u) name).
  - intros [= <- <-]. rewrite Nat.sub_diag. split; [lia|done].
  - intros Hf. apply IH in Hf as [Hk Hf]. split; [lia|]. replace (i - k)%nat with (S (i - S k)) by lia. done.
Qed.
Lemma find_named_app name k ts us i t : find_named name k ts = Some (i, t) → find_named name k (ts ++ us) = Some (i, t).
Proof. revert k. induction ts as [|u ts IH]; intros k; [done|]. simpl. destruct (String.eqb (TName u) name); [done|apply IH]. Qed.
(** A change of a task's run, not of its name or switch. *)
Definition same_identity (f : registeredTask → registeredTask) : Prop :=
  ∀ t, TName (f t) = TName t ∧ TEnabled (f t) = TEnabled t.
Lemma find_named_alter f name k j ts i t : same_identity f → find_named name k ts = Some (i, t) →
  ∃ t', find_named name k (alter f j ts) = Some (i, t') ∧ TEnabled t' = TEnabled t.
Proof.
  intros Hf. revert k j. induction ts as [|u ts IH]; intros k j; [done|]. destruct (Hf u) as [Hn He]. destruct j as [|j]; simpl.
  - rewrite Hn. destruct (String.eqb (TName u) name); [intros [= <- <-]|]; eauto.
  - destruct (String.eqb (TName u) name); [intros [= <- <-]; eauto|apply IH].
Qed.
Lemma enabled_at_alter f j ts i : same_identity f → enabled_at ts i → enabled_at (alter f j ts) i.
Proof.
  intros Hf (t & Ht & He). destruct (decide (i = j)) as [->|Hij].
  - exists (f t). rewrite list_lookup_alter_eq, Ht. split; [done|]. by destruct (Hf t) as [_ ->].
  - exists t. by rewrite list_lookup_alter_ne.
Qed.
Lemma enabled_name_alter f j ts name : same_identity f → enabled_name ts name → enabled_name (alter f j ts) name.
Proof. intros Hf (i & t & Hn & He). destruct (find_named_alter f name 0 j ts i t Hf Hn) as (t' & Hn' & He'). exists i, t'. split; [done|congruence]. Qed.
Lemma enabled_at_app ts us i : enabled_at ts i → enabled_at (ts ++ us) i.
Proof. intros (t & Ht & He). exists t. split; [by apply lookup_app_l_Some|done]. Qed.
Lemma enabled_name_app ts us name : enabled_name ts name → enabled_name (ts ++ us) name.
Proof. intros (i & t & Hn & He). exists i, t. split; [by apply find_named_app|done]. Qed.
Lemma enabled_name_at ts name i t : find_named name 0 ts = Some (i, t) → TEnabled t = true → enabled_at ts i.
Proof. intros Hn He. apply find_named_lookup in Hn as [_ Hn]. rewrite Nat.sub_0_r in Hn. by exists t. Qed.
Lemma due_from_in now k ts i : i ∈ due_from now k ts → (k <= i)%nat ∧ ∃ t, ts !! (i - k)%nat = Some t ∧ due now t = true.
Proof.
  revert k. induction ts as [|t ts IH]; intros k; simpl; [by intros ?%not_elem_of_nil|].
  assert (i ∈ due_from now (S k) ts → (k <= i)%nat ∧ ∃ u, (t :: ts) !! (i - k)%nat = Some u ∧ due now u = true) as Htail.
  { intros Hi. apply IH in Hi as [Hk (u & Hu & Hd)]. split; [lia|]. exists u. by replace (i - k)%nat with (S (i - S k)) by lia. }
  destruct (due now t) eqn:Hd; [|done]. intros [->|Hi]%elem_of_cons; [|auto]. rewrite Nat.sub_diag. split; [lia|by exists t].
Qed.
Lemma due_enabled now e i : i ∈ due_tasks now e → enabled_at (etasks e) i.
Proof.
  unfold due_tasks. intros Hi. apply due_from_in in Hi as [_ (t & Ht & Hd)]. rewrite Nat.sub_0_r in Ht. exists t. split; [done|].
  unfold due in Hd. by bool_simpl.
Qed.
Lemma finished_identity now o : same_identity (finished now o).
Proof. intros t. unfold finished. by destruct (outcome_error o). Qed.
Lemma set_state_identity st : same_identity (set_state st).
Proof. done. Qed.

(** ** The invariant *)

Record task_ok (s : EngineSystem) (i : nat) (t : registeredTask) : Prop := {
  tk_run : count (executing i) (goroutines s) = running_flag t;
  tk_started : count (started i) (history s) = count (ended i) (history s) + running_flag t;
  tk_runs : runCount t = Z.of_nat (count (ended i) (history s));
  tk_errors : errCount t = Z.of_nat (count (failed i) (history s));
  tk_disabled : TEnabled t = false → count (started i) (history s) = 0
}.
Record engine_ok (s : EngineSystem) : Prop := {
  ok_tasks i t : etasks (engine s) !! i = Some t → task_ok s i t;
  ok_fresh i : etasks (engine s) !! i = None →
    count (started i) (history s) = 0 ∧ count (ended i) (history s) = 0 ∧ count (failed i) (history s) = 0;
  ok_goroutines i p : (i, p) ∈ goroutines s → enabled_at (etasks (engine s)) i;
  ok_wg : ewg (engine s) = loop_alive (loop s) + length (goroutines s);
  ok_queue : length (triggerCh (engine s)) ≤ trigger_capacity;
  ok_names name : name ∈ (triggerCh (engine s) ++ loop_names (loop s))%list → enabled_name (etasks (engine s)) name;
  ok_loop i : i ∈ loop_indices (loop s) → enabled_at (etasks (engine s)) i;
  ok_started : estarted (engine s) = false ↔ loop s = LoopNone;
  ok_stop : estopped (engine s) = true ↔ stopping s ≠ NoStop;
  ok_stop_started : estopped (engine s) = true → estarted (engine s) = true;
  ok_returned : stopping s = StopReturned → goroutines s = [];
  ok_done : edone (engine s) = true ↔ stopping s = StopClosed ∨ stopping s = StopReturned
}.
Lemma initial_ok : engine_ok initial_system.
Proof.
  split; simpl; try done; try (intros * Hi; by apply not_elem_of_nil in Hi); try (intros i; lia); try lia. split; [done|by intros [|]].
Qed.

(** *** Steps that leave the tasks alone *)

Lemma task_frame s s' i t : task_ok s i t → goroutines s' = goroutines s → history s' = history s → task_ok s' i t.
Proof. intros [? ? ? ? ?] Hg Hh. split; by rewrite ?Hg, ?Hh. Qed.
Lemma frame_ok s s' : engine_ok s →
  etasks (engine s') = etasks (engine s) → goroutines s' = goroutines s → history s' = history s →
  ewg (engine s') = loop_alive (loop s') + length (goroutines s) →
  length (triggerCh (engine s')) ≤ trigger_capacity →
  (∀ name, name ∈ (triggerCh (engine s') ++ loop_names (loop s'))%list → enabled_name (etasks (engine s)) name) →
  (∀ i, i ∈ loop_indices (loop s') → enabled_at (etasks (engine s)) i) →
  (estarted (engine s') = false ↔ loop s' = LoopNone) →
  (estopped (engine s') = true ↔ stopping s' ≠ NoStop) →
  (estopped (engine s') = true → estarted (engine s') = true) →
  (stopping s' = StopReturned → goroutines s = []) →
  (edone (engine s') = true ↔ stopping s' = StopClosed ∨ stopping s' = StopReturned) → engine_ok s'.
Proof.
  intros Hok Ht Hg Hh ????? ???. pose proof Hok as [Htasks Hfresh Hgo _ _ _ _ _ _ _ _ _].
  split; rewrite ?Ht, ?Hg, ?Hh; try assumption. intros i t Hi. eapply task_frame; [by apply Htasks|done..].
Qed.
(** The scheduler moves on. *)
Lemma loop_ok l0 l s : engine_ok s → loop s = l0 → loop_alive l = loop_alive l0 → l ≠ LoopNone → l0 ≠ LoopNone →
  (∀ name, name ∈ loop_names l → enabled_name (etasks (engine s)) name) →
  (∀ i, i ∈ loop_indices l → enabled_at (etasks (engine s)) i) → engine_ok (set_loop l s).
Proof.
  intros Hok <- Hl Hn Hs Hnames Hidx. pose proof Hok as [_ _ _ Hwg Hq Hna _ Hst ? ? ? ?].
  eapply frame_ok; try done; simpl.
  - by rewrite Hl.
  - intros name. rewrite elem_of_app. intros [Hin|Hin]; [|by auto]. apply Hna, elem_of_app. by left.
  - rewrite Hst. split; intros ?; congruence.
Qed.
Lemma sub_app {A} (a b c : list A) x : x ∈ a → x ∈ (a ++ b)%list.
Proof. intros. apply elem_of_app. by left. Qed.

(** *** Tasks and runs *)

Lemma register_ok name interval timeout enabled sink s :
  engine_ok s → engine_ok (set_engine (Register name interval timeout enabled sink (engine s)) s).
Proof.
  intros [Ht Hf Hg Hwg Hq Hn Hl ? ? ? ? ?]. unfold Register.
  assert (∀ i, (length (etasks (engine s)) <= i)%nat → etasks (engine s) !! i = None) as Hnone
    by (intros i; by apply lookup_ge_None_2).
  split; simpl; try assumption.
  - intros i t Hi. apply lookup_app_Some in Hi as [Hi|[Hge Hi]].
    { eapply task_frame; [by apply Ht|done..]. }
    destruct (i - length (etasks (engine s)))%nat eqn:Hd; [|done]. simpl in Hi. injection Hi as <-.
    destruct (Hf i) as (H1 & H2 & H3); [by apply Hnone|]. split; simpl; rewrite ?H1, ?H2, ?H3; try done.
    unfold running_flag. simpl. destruct (count (executing i) (goroutines s)) eqn:Hc; [done|]. exfalso.
    destruct (List.filter (executing i) (goroutines s)) as [|[j p] l] eqn:Hfl; [unfold count in Hc; by rewrite Hfl in Hc|].
    assert ((j, p) ∈ goroutines s ∧ executing i (j, p) = true) as [Hin Hex].
    { rewrite list_elem_of_In. apply filter_In. rewrite Hfl. by left. }
    unfold executing in Hex. simpl in Hex. bool_simpl. destruct (Hg _ _ Hin) as (u & Hu & _).
    assert (j = i) as -> by (assumption || by apply Nat.eqb_eq). rewrite Hnone in Hu; [done|lia].
  - intros i Hi. apply Hf. apply lookup_ge_None in Hi. apply lookup_ge_None. rewrite length_app in Hi. lia.
  - intros i p Hi. apply enabled_at_app. by eapply Hg.
  - intros nm Hin. apply enabled_name_app. by apply Hn.
  - intros i Hi. apply enabled_at_app. by apply Hl.
Qed.
(** A change of one task that keeps names and switches, with the goroutines and the
    history it goes with. *)
Lemma update_ok f j s s' : engine_ok s → same_identity f →
  etasks (engine s') = alter f j (etasks (engine s)) →
  triggerCh (engine s') = triggerCh (engine s) → loop s' = loop s → stopping s' = stopping s →
  estarted (engine s') = estarted (engine s) → estopped (engine s') = estopped (engine s) → edone (engine s') = edone (engine s) →
  ewg (engine s') = loop_alive (loop s) + length (goroutines s') →
  (∀ g, g ∈ goroutines s' → ∃ p, g.1 = j ∨ (g.1, p) ∈ goroutines s) → enabled_at (etasks (engine s)) j →
  (stopping s = StopReturned → goroutines s' = []) →
  (∀ i t, i ≠ j → etasks (engine s) !! i = Some t → task_ok s' i t) →
  (∀ t, etasks (engine s) !! j = Some t → task_ok s' j (f t)) →
  (∀ i, i ≠ j → count (started i) (history s') = count (started i) (history s) ∧
     count (ended i) (history s') = count (ended i) (history s) ∧ count (failed i) (history s') = count (failed i) (history s)) →
  engine_ok s'.
Proof.
  intros [Ht Hf Hg Hwg Hq Hn Hl Hsa Hso Hss Hre Hdn] Hid He Htr Hlo Hsp Hst Hsto Hdo Hw Hgo Hj Hret Hother Hself Hcount.
  split; rewrite ?He, ?Htr, ?Hlo, ?Hsp, ?Hst, ?Hsto, ?Hdo; try assumption.
  - intros i t Hi. destruct (decide (i = j)) as [->|Hij].
    + rewrite list_lookup_alter_eq in Hi. destruct (etasks (engine s) !! j) as [u|] eqn:Hu; [|done]. simpl in Hi.
      injection Hi as <-. by apply Hself.
    + rewrite list_lookup_alter_ne in Hi by done. by apply Hother.
  - intros i Hi. destruct (decide (i = j)) as [->|Hij].
    + rewrite list_lookup_alter_eq in Hi. destruct Hj as (u & Hu & _). by rewrite Hu in Hi.
    + destruct (Hcount i Hij) as (-> & -> & ->). apply Hf. by rewrite list_lookup_alter_ne in Hi.
  - intros i p Hi. apply enabled_at_alter; [done|]. destruct (Hgo _ Hi) as (q & [Heq|Hin]); simpl in *.
    + by subst j.
    + by eapply Hg.
  - intros name Hin. apply enabled_name_alter; [done|]. by apply Hn.
  - intros i Hi. apply enabled_at_alter; [done|]. by apply Hl.
Qed.
Lemma insert_alter {A} (f : A → A) i (l : list A) x : l !! i = Some x → <[i := f x]> l = alter f i l.
Proof. revert i. induction l as [|y l IH]; intros [|i]; try done; simpl; [by intros [= ->]|]. intros Hx. f_equal. by apply IH. Qed.
Lemma eqb_neq i j : i ≠ j → Nat.eqb j i = false.
Proof. intros. apply Nat.eqb_neq. congruence. Qed.

Lemma executing_self i : executing i (i, Executing) = true.
Proof. unfold executing. simpl. by rewrite Nat.eqb_refl. Qed.
Lemma started_self i : started i (RunStarted i) = true.
Proof. unfold started. by rewrite Nat.eqb_refl. Qed.
Lemma launch_cases i s : engine_ok s → enabled_at (etasks (engine s)) i →
  (launch i s = set_engine (engine s) s ∧ history (launch i s) = history s) ∨
  ∃ t, etasks (engine s) !! i = Some t ∧ estopped (engine s) = false ∧ tstate t ≠ TaskRunning ∧
    launch i s = mkSystem (set_wg (S (ewg (engine s))) (set_tasks (<[i := set_state TaskRunning t]> (etasks (engine s))) (engine s)))
                   (loop s) (stopping s) ((i, Executing) :: goroutines s) (event_log s) (RunStarted i :: history s).
Proof.
  intros Hok (t & Ht & _). unfold launch, executeTask. rewrite Ht.
  destruct (estopped (engine s)) eqn:Hs; [by left|]. simpl. destruct (bool_decide (tstate t = TaskRunning)) eqn:Hr; [by left|].
  right. exists t. split_and!; [done..| |done]. by apply bool_decide_eq_false in Hr.
Qed.
Lemma launch_ok i s : engine_ok s → enabled_at (etasks (engine s)) i → engine_ok (launch i s).
Proof.
  intros Hok Hen. destruct (launch_cases i s Hok Hen) as [[-> _]|(t & Ht & Hs & Hr & ->)]; [by destruct s|].
  pose proof Hok as [Htasks _ _ Hwg _ _ _ _ Hso _ Hre _].
  eapply (update_ok (set_state TaskRunning) i s); simpl; try done.
  - by apply (insert_alter (set_state TaskRunning)).
  - lia.
  - intros [j p] Hin. exists p. simpl. apply elem_of_cons in Hin as [[= -> ->]|Hin]; [by left|by right].
  - intros Hst. assert (estopped (engine s) = true) by (apply Hso; congruence). congruence.
  - intros j u Hj Hu. destruct (Htasks j u Hu) as [H1 H2 H3 H4 H5].
    split; simpl; rewrite ?count_cons; unfold executing, started, ended, failed; simpl; rewrite ?(eqb_neq _ _ Hj); done.
  - intros u Hu. rewrite Ht in Hu. injection Hu as <-. destruct (Htasks i t Ht) as [H1 H2 H3 H4 H5].
    assert (running_flag t = 0) as Hz by (unfold running_flag; by rewrite bool_decide_eq_false_2).
    assert (running_flag (set_state TaskRunning t) = 1) as Ho by done.
    split; rewrite ?Ho; cbn [goroutines history]; rewrite ?count_cons, ?executing_self, ?started_self.
    + lia.
    + change (ended i (RunStarted i)) with false. cbv iota. lia.
    + done.
    + done.
    + simpl. intros Hdis. destruct Hen as (w & Hw & Hwe). rewrite Ht in Hw. injection Hw as <-. congruence.
  - intros j Hj. rewrite !count_cons. split_and!; try done. simpl. by rewrite (eqb_neq _ _ Hj).
Qed.

(** *** The goroutine of a task *)

Lemma middle_in {A} (l1 l2 : list A) x y g : g ∈ (l1 ++ x :: l2)%list → g = x ∨ g ∈ (l1 ++ y :: l2)%list.
Proof. rewrite !elem_of_app, !elem_of_cons. tauto. Qed.
Lemma executing_other i j p : i ≠ j → executing i (j, p) = false.
Proof. intros Hij. unfold executing. simpl. by rewrite (eqb_neq _ _ Hij). Qed.
Lemma executing_phase i j p : p ≠ Executing → executing i (j, p) = false.
Proof. intros Hp. unfold executing. destruct p; simpl; try done; by rewrite andb_false_r. Qed.
Lemma ended_self i o : ended i (RunFinished i o) = true.
Proof. unfold ended. by rewrite Nat.eqb_refl. Qed.
Lemma failed_self i o : failed i (RunFinished i o) = match outcome_error o with Some _ => true | None => false end.
Proof. unfold failed. rewrite Nat.eqb_refl. by destruct (outcome_error o). Qed.
Lemma result_ok now i o before after s : engine_ok s → goroutines s = (before ++ (i, Executing) :: after)%list →
  engine_ok (mkSystem (setTaskResult now i o (engine s)) (loop s) (stopping s)
               (before ++ (i, Reporting o) :: after)%list (event_log s) (RunFinished i o :: history s)).
Proof.
  intros Hok Hg. pose proof Hok as [Htasks _ Hgo Hwg _ _ _ _ Hso _ Hre _].
  assert ((i, Executing) ∈ goroutines s) as Hin by (rewrite Hg; apply elem_of_app; right; by left).
  eapply (update_ok (finished now o) i s); simpl; try done; rewrite ?Hg.
  - apply finished_identity.
  - rewrite Hwg, Hg, !length_app. done.
  - intros [j p] Hj. apply (middle_in _ _ _ (i, Executing)) in Hj as [[= -> ->]|Hj]; [exists Executing; by left|].
    exists p. by right.
  - by eapply Hgo.
  - intros Hst. rewrite Hre in Hg by done. by destruct before.
  - intros j t Hj Ht. destruct (Htasks j t Ht) as [H1 H2 H3 H4 H5]. rewrite Hg, count_middle, executing_other in H1 by done.
    split; cbn [goroutines history]; rewrite ?count_middle, ?count_cons, ?executing_other by done; simpl;
      rewrite ?(eqb_neq _ _ Hj); done.
  - intros t Ht. destruct (Htasks i t Ht) as [H1 H2 H3 H4 H5]. rewrite Hg, count_middle, executing_self in H1.
    assert (running_flag (finished now o t) = 0) as Hz by (unfold finished; by destruct (outcome_error o)).
    assert (TEnabled (finished now o t) = TEnabled t) as He by apply finished_identity.
    assert (running_flag t = 1) as Ho by (unfold running_flag in *; destruct (bool_decide _); lia). rewrite Ho in *.
    split; rewrite ?Hz, ?He; cbn [goroutines history]; rewrite ?count_middle, ?count_cons, ?executing_phase, ?failed_self, ?ended_self by done;
      change (started i (RunFinished i o)) with false; cbv iota; try (intros; first [lia | by apply H5]);
      unfold finished; destruct (outcome_error o); simpl; lia.
  - intros j Hj. rewrite !count_cons. simpl. rewrite (eqb_neq _ _ Hj). done.
Qed.
Lemma report_ok i o before after log s : engine_ok s → goroutines s = (before ++ (i, Reporting o) :: after)%list →
  engine_ok (mkSystem (engine s) (loop s) (stopping s) (before ++ (i, Leaving) :: after)%list log (history s)).
Proof.
  intros Hok Hg. pose proof Hok as [Htasks Hf Hgo Hwg Hq Hn Hl Hsa Hso Hss Hre Hdn]. split; simpl; try assumption.
  - intros j t Ht. destruct (Htasks j t Ht) as [H1 H2 H3 H4 H5]. rewrite Hg, count_middle, executing_phase in H1 by done.
    split; cbn [goroutines history]; rewrite ?count_middle, ?executing_phase by done; done.
  - intros j p Hj. apply (middle_in _ _ _ (i, Reporting o)) in Hj as [[= -> ->]|Hj].
    + eapply Hgo. rewrite Hg. apply elem_of_app. right. by left.
    + eapply Hgo. by rewrite Hg.
  - rewrite Hwg, Hg, !length_app. done.
  - intros Hst. rewrite Hre in Hg by done. by destruct before.
Qed.
Lemma leave_ok i before after s : engine_ok s → goroutines s = (before ++ (i, Leaving) :: after)%list →
  engine_ok (mkSystem (set_wg (Nat.pred (ewg (engine s))) (engine s)) (loop s) (stopping s)
               (before ++ after)%list (event_log s) (history s)).
Proof.
  intros Hok Hg. pose proof Hok as [Htasks Hf Hgo Hwg Hq Hn Hl Hsa Hso Hss Hre Hdn]. split; simpl; try assumption.
  - intros j t Ht. destruct (Htasks j t Ht) as [H1 H2 H3 H4 H5]. rewrite Hg, count_middle, executing_phase in H1 by done.
    split; cbn [goroutines history]; done.
  - intros j p Hj. eapply Hgo. rewrite Hg. apply elem_of_app. apply elem_of_app in Hj as [Hj|Hj]; [by left|right; by right].
  - rewrite Hwg, Hg, !length_app. simpl. lia.
  - intros Hst. rewrite Hre in Hg by done. by destruct before.
Qed.

(** *** Every step *)

Section Steps.
Context `{SqlTime}.

Lemma trigger_ok name s : engine_ok s → engine_ok (set_engine (Trigger name (engine s)).1 s).
Proof.
  intros Hok. unfold Trigger. destruct (find_named name 0 (etasks (engine s))) as [[i t]|] eqn:Hf; [|by destruct s].
  destruct (TEnabled t) eqn:He; simpl; [|by destruct s].
  destruct (Nat.ltb (length (triggerCh (engine s))) trigger_capacity) eqn:Hlt; simpl; [|by destruct s].
  pose proof Hok as [_ _ _ Hwg Hq Hn Hl Hsa Hso Hss Hre Hdn]. eapply frame_ok; simpl; try done.
  - rewrite length_app. simpl. bool_simpl. lia.
  - intros nm. rewrite !elem_of_app, list_elem_of_singleton. intros [[Hin| ->]|Hin].
    + apply Hn, elem_of_app. by left.
    + by exists i, t.
    + apply Hn, elem_of_app. by right.
Qed.
Lemma step_ok s s' : engine_ok s → engine_step s s' → engine_ok s'.
Proof.
  intros Hok Hstep. pose proof Hok as [_ _ Hgo Hwg Hq Hn Hl Hsa Hso Hss Hre Hdn].
  destruct Hstep; try match goal with Hloop : loop s = _ |- _ => rewrite Hloop in Hwg, Hn, Hl, Hsa; simpl in Hwg, Hn, Hl end.
  - by apply register_ok.
  - by apply trigger_ok.
  - assert (loop s = LoopNone) as Hloop by by apply Hsa. rewrite Hloop in *.
    eapply frame_ok; simpl; try done.
  - eapply frame_ok; simpl; try done; [lia|]. rewrite Hsa. done.
  - assert (stopping s = NoStop) as Hno.
    { destruct (stopping s); [done|exfalso..]; assert (estopped (engine s) = true) by (by apply Hso); congruence. }
    rewrite Hno in *. eapply frame_ok; simpl; try done. rewrite Hdn. split; intros [?|?]; congruence.
  - eapply frame_ok; simpl; try done; [rewrite Hso; split; intros; congruence|].
    rewrite Hdn. split; intros [?|?]; congruence.
  - eapply frame_ok; simpl; try done; [rewrite Hso; split; intros; congruence|]. split; [by left|done].
  - assert (edone (engine s) = true) as Hd by (apply Hdn; by left).
    eapply frame_ok; simpl; try done; [rewrite Hso; split; intros; congruence| |split; [by right|done]].
    intros _. destruct (goroutines s); [done|simpl in *; lia].
  - eapply loop_ok; [done|eassumption|try done..]; simpl; try (intros * Hin; by apply not_elem_of_nil in Hin).
    intros i. by apply due_enabled.
  - eapply loop_ok; [done|eassumption|try done..]; simpl; intros * Hin; by apply not_elem_of_nil in Hin.
  - eapply loop_ok; [done|eassumption|try done..]; simpl; intros * Hin; try (by apply not_elem_of_nil in Hin); by apply Hl.
  - eapply loop_ok; [done|eassumption|try done..]; simpl; intros * Hin; by apply not_elem_of_nil in Hin.
  - assert (enabled_at (etasks (engine s)) i) as Hi by (apply Hl; by left).
    assert (loop (launch i s) = LoopExec i rest ∧ etasks (engine (launch i s)) = etasks (engine s) ∨
            loop (launch i s) = LoopExec i rest ∧ ∃ t, etasks (engine (launch i s)) = alter (set_state TaskRunning) t (etasks (engine s)))
      as Hla.
    { destruct (launch_cases i s Hok Hi) as [[-> _]|(t & Ht & _ & _ & ->)]; [by left|right]. split; [done|]. exists i.
      simpl. by apply (insert_alter (set_state TaskRunning)). }
    eapply loop_ok; [by apply launch_ok|by destruct Hla as [[? _]|[? _]]|done..| |]; simpl.
    + intros * Hin; by apply not_elem_of_nil in Hin.
    + intros j Hj. destruct Hla as [[_ ->]|[_ [t ->]]]; [|apply enabled_at_alter; [done|]]; apply Hl; by right.
  - eapply frame_ok; simpl; try done; try lia; try (intros * Hin; by apply not_elem_of_nil in Hin).
    rewrite Hsa. split; congruence.
  - eapply frame_ok; simpl; try done.
    + match goal with Hq' : triggerCh _ = _ |- _ => rewrite Hq' in Hq end. simpl in Hq. lia.
    + intros nm. match goal with Hq' : triggerCh _ = _ |- _ => rewrite Hq' in Hn end.
      rewrite elem_of_app, list_elem_of_singleton. intros [Hin| ->]; apply Hn; rewrite app_nil_r; [by right|by left].
    + rewrite Hsa. split; congruence.
  - unfold runTaskByName. destruct (find_named name 0 (etasks (engine s))) as [[i t]|] eqn:Hf.
    + eapply loop_ok; [done|eassumption|try done..]; simpl; [intros * Hin; by apply not_elem_of_nil in Hin|].
      intros j ->%list_elem_of_singleton. destruct (Hn name) as (i' & t' & Hf' & He); [apply elem_of_app; right; by left|].
      rewrite Hf in Hf'. injection Hf' as <- <-. by eapply enabled_name_at.
    + eapply loop_ok; [done|eassumption|try done..]; simpl; intros * Hin; by apply not_elem_of_nil in Hin.
  - eapply loop_ok; [done|eassumption|try done..]; simpl; intros * Hin; by apply not_elem_of_nil in Hin.
  - by apply result_ok.
  - by eapply report_ok.
  - by eapply leave_ok.
Qed.
Lemma engine_reachable_ok s : rtc engine_step initial_system s → engine_ok s.
Proof.
  intros Hr. assert (∀ a, engine_ok a → rtc engine_step a s → engine_ok s) as Hind; [|by apply (Hind _ initial_ok)].
  clear Hr. intros a Ha Hr. induction Hr as [|a b c Hab _ IH]; [done|]. apply IH. by eapply step_ok.
Qed.

(** ** After a stop *)

Lemma step_stopped s s' : engine_ok s → estopped (engine s) = true → engine_step s s' →
  estopped (engine s') = true ∧ ∀ i, count (started i) (history s') = count (started i) (history s).
Proof.
  intros Hok Hs Hstep. destruct Hstep; simpl; try done.
  - unfold Trigger. destruct (find_named _ _ _) as [[i t]|]; [|done]. destruct (TEnabled t); simpl; [|done].
    by destruct (Nat.ltb _ _).
  - assert (enabled_at (etasks (engine s)) i) as Hi.
    { apply (ok_loop s Hok). match goal with Hl : loop s = _ |- _ => rewrite Hl end. by left. }
    destruct (launch_cases i s Hok Hi) as [[-> _]|(t & _ & Hn & _)]; [done|congruence].
Qed.
Definition drain_state (s : EngineSystem) : Prop := engine_ok s ∧ estopped (engine s) = true ∧ edone (engine s) = true ∧ stopping s = StopClosed.
Lemma rtc_trans_step s1 s2 s3 : engine_step s1 s2 → rtc engine_step s2 s3 → rtc engine_step s1 s3.
Proof. intros. by eapply rtc_l. Qed.
(** Every goroutine can end. *)
Lemma goroutine_ends s i p gs : engine_ok s → goroutines s = (i, p) :: gs →
  ∃ s', rtc engine_step s s' ∧ engine_ok s' ∧ goroutines s' = gs ∧ loop s' = loop s ∧ stopping s' = stopping s ∧
    edone (engine s') = edone (engine s) ∧ estopped (engine s') = estopped (engine s).
Proof.
  assert (∀ s, engine_ok s → goroutines s = (i, Leaving) :: gs → ∃ s', rtc engine_step s s' ∧ engine_ok s' ∧
    goroutines s' = gs ∧ loop s' = loop s ∧ stopping s' = stopping s ∧ edone (engine s') = edone (engine s) ∧
    estopped (engine s') = estopped (engine s)) as Hleave.
  { intros u Hok Hg. pose proof (step_leave i [] gs u Hg) as Hst. eexists. split; [by apply rtc_once|].
    split; [by eapply step_ok|]. done. }
  assert (∀ s o, engine_ok s → goroutines s = (i, Reporting o) :: gs → ∃ s', rtc engine_step s s' ∧ engine_ok s' ∧
    goroutines s' = gs ∧ loop s' = loop s ∧ stopping s' = stopping s ∧ edone (engine s') = edone (engine s) ∧
    estopped (engine s') = estopped (engine s)) as Hreport.
  { intros u o Hok Hg. destruct (ok_goroutines u Hok i (Reporting o)) as (t & Ht & _); [rewrite Hg; by left|].
    pose proof (step_report true None 0 None t i o [] gs u Hg Ht) as Hst.
    destruct (Hleave _ (step_ok _ _ Hok Hst) eq_refl) as (u' & Hr & ?). exists u'. split; [by eapply rtc_l|]. done. }
  intros Hok Hg. destruct p as [|o|]; [|by eapply Hreport|by apply Hleave].
  pose proof (step_result 0 i Succeeded [] gs s Hg) as Hst.
  destruct (Hreport _ Succeeded (step_ok _ _ Hok Hst) eq_refl) as (u' & Hr & ?). exists u'. split; [by eapply rtc_l|]. done.
Qed.
Lemma goroutines_end s : drain_state s → ∃ s', rtc engine_step s s' ∧ drain_state s' ∧ goroutines s' = [] ∧ loop s' = loop s.
Proof.
  remember (goroutines s) as gs eqn:Hg. symmetry in Hg. revert s Hg. induction gs as [|[i p] gs IH]; intros s Hg Hd.
  { exists s. split; [done|]. done. }
  pose proof Hd as (Hok & Hs & Hdn & Hst).
  destruct (goroutine_ends s i p gs Hok Hg) as (s1 & Hr1 & Hok1 & Hg1 & Hl1 & Hst1 & Hd1 & Hs1).
  destruct (IH s1 Hg1) as (s2 & Hr2 & Hd2 & Hg2 & Hl2); [unfold drain_state; split_and!; congruence|].
  exists s2. split; [by etrans|]. split_and!; [done..|congruence].
Qed.
Lemma drain_step s s' : drain_state s → engine_step s s' → stopping s' = StopClosed → edone (engine s') = true → drain_state s'.
Proof.
  intros (Hok & Hs & _) Hst Hc Hd. unfold drain_state. split; [by eapply step_ok|]. split; [|done].
  by eapply step_stopped.
Qed.
(** The scheduler can leave its loop. *)
Lemma select_exits s : drain_state s → loop s = LoopSelect → ∃ s', rtc engine_step s s' ∧ drain_state s' ∧ loop_alive (loop s') = 0.
Proof.
  intros Hd Hl. pose proof Hd as (_ & _ & Hdn & Hst). pose proof (step_select_done s Hl Hdn) as Hs.
  eexists. split; [by apply rtc_once|]. split; [by eapply drain_step|done].
Qed.
Lemma due_exits rest s : drain_state s → loop s = LoopDue rest →
  ∃ s', rtc engine_step s s' ∧ drain_state s' ∧ loop_alive (loop s') = 0.
Proof.
  intros Hd Hl. pose proof Hd as (_ & _ & Hdn & Hst).
  assert (engine_step s (set_loop LoopSelect s)) as Hs
    by (destruct rest; [by apply step_due_end|by eapply step_due_done]).
  destruct (select_exits (set_loop LoopSelect s)) as (s' & Hr & ?); [by eapply drain_step|done|].
  exists s'. split; [by eapply rtc_l|done].
Qed.
Lemma exec_exits i rest s : drain_state s → loop s = LoopExec i rest →
  ∃ s', rtc engine_step s s' ∧ drain_state s' ∧ loop_alive (loop s') = 0.
Proof.
  intros Hd Hl. pose proof Hd as (Hok & Hsto & Hdn & Hst). pose proof (step_exec i rest s Hl) as Hs.
  assert (launch i s = s) as Hla.
  { destruct (launch_cases i s Hok) as [[-> _]|(t & _ & Hn & _)]; [|by destruct s|congruence].
    apply (ok_loop s Hok). rewrite Hl. by left. }
  rewrite Hla in Hs. destruct (due_exits rest _ (drain_step _ _ Hd Hs Hst Hdn) eq_refl) as (s' & Hr & ?).
  exists s'. split; [by eapply rtc_l|done].
Qed.
Lemma loop_exits s : drain_state s → loop_alive (loop s) = 1 → ∃ s', rtc engine_step s s' ∧ drain_state s' ∧ loop_alive (loop s') = 0.
Proof.
  intros Hd Hal. pose proof Hd as (Hok & Hsto & Hdn & Hst). destruct (loop s) as [| | |rest|i rest| |name|] eqn:Hl; try done.
  - pose proof (step_check 0 s Hl) as Hs.
    destruct (due_exits _ _ (drain_step _ _ Hd Hs Hst Hdn) eq_refl) as (s' & Hr & ?). exists s'. split; [by eapply rtc_l|done].
  - by eapply due_exits.
  - by eapply exec_exits.
  - by apply select_exits.
  - pose proof (step_named name s Hl) as Hs. unfold runTaskByName in Hs.
    destruct (find_named name 0 (etasks (engine s))) as [[i t]|] eqn:Hf.
    + destruct (exec_exits i [] _ (drain_step _ _ Hd Hs Hst Hdn) eq_refl) as (s' & Hr & ?). exists s'. split; [by eapply rtc_l|done].
    + destruct (select_exits _ (drain_step _ _ Hd Hs Hst Hdn) eq_refl) as (s' & Hr & ?). exists s'. split; [by eapply rtc_l|done].
Qed.
(** A closed engine whose scheduler is out comes to rest. *)
Lemma drained s : drain_state s → loop_alive (loop s) = 0 → ∃ s', rtc engine_step s s' ∧ stopping s' = StopReturned.
Proof.
  intros Hd Hl. destruct (goroutines_end s Hd) as (s1 & Hr & (Hok & _ & _ & Hst) & Hg & Hl1).
  assert (ewg (engine s1) = 0) as Hw by (rewrite (ok_wg s1 Hok), Hg, Hl1; simpl; lia).
  exists (set_stop StopReturned s1). split; [|done]. eapply rtc_r; [done|]. by apply step_wait.
Qed.
Lemma closed_returns s : drain_state s → ∃ s', rtc engine_step s s' ∧ stopping s' = StopReturned.
Proof.
  intros Hd. destruct (loop_alive (loop s)) as [|[|n]] eqn:Hl; [by apply drained| |by destruct (loop s)].
  destruct (loop_exits s Hd Hl) as (s1 & Hr1 & Hd1 & Hl1). destruct (drained s1 Hd1 Hl1) as (s2 & Hr2 & ?).
  exists s2. split; [by etrans|done].
Qed.

Lemma stopped_return s : engine_ok s → estopped (engine s) = true → ∃ s', rtc engine_step s s' ∧ stopping s' = StopReturned.
Proof.
  intros Hok Hs. assert (stopping s ≠ NoStop) as Hno by by apply (ok_stop s Hok).
  assert (∀ u, engine_ok u → estopped (engine u) = true → stopping u = StopClosed →
    ∃ s', rtc engine_step u s' ∧ stopping s' = StopReturned) as Hc.
  { intros u Hu Hus Hst. apply closed_returns. split_and!; [done..| |done]. apply (ok_done u Hu). by left. }
  assert (∀ u, engine_ok u → estopped (engine u) = true → stopping u = StopCancelled →
    ∃ s', rtc engine_step u s' ∧ stopping s' = StopReturned) as Hb.
  { intros u Hu Hus Hst. pose proof (step_close u Hst) as Hstep.
    destruct (Hc _ (step_ok _ _ Hu Hstep) Hus eq_refl) as (s' & Hr & ?). exists s'. split; [by eapply rtc_l|done]. }
  destruct (stopping s) eqn:Hst; [done| |by apply Hb|by apply Hc|by exists s].
  pose proof (step_cancel s Hst) as Hstep.
  destruct (Hb _ (step_ok _ _ Hok Hstep) Hs eq_refl) as (s' & Hr & ?). exists s'. split; [by eapply rtc_l|done].
Qed.
Lemma rtc_ok s s' : engine_ok s → rtc engine_step s s' → engine_ok s'.
Proof. intros Ha Hr. induction Hr as [|a b c Hab _ IH]; [done|]. apply IH. by eapply step_ok. Qed.

(** C28: Whatever the interleaving of the scheduler, the tasks, triggers and a stop: a task
    has at most one run under way, exactly when its state says so; every run that started
    has ended or is that one; the counters of its status count the ended and the failed
    runs, panics included; a disabled task never runs; at most eight triggers wait. *)
Theorem engine_single_runs s i t :
  rtc engine_step initial_system s → etasks (engine s) !! i = Some t →
  count (executing i) (goroutines s) = running_flag t ∧
  count (started i) (history s) = count (ended i) (history s) + running_flag t ∧
  runCount t = Z.of_nat (count (ended i) (history s)) ∧
  errCount t = Z.of_nat (count (failed i) (history s)) ∧
  (TEnabled t = true ∨ (runCount t = 0%Z ∧ tstate t ≠ TaskRunning)) ∧
  length (triggerCh (engine s)) ≤ trigger_capacity.
Proof.
  intros Hr Ht. pose proof (engine_reachable_ok s Hr) as Hok. destruct (ok_tasks s Hok i t Ht) as [H1 H2 H3 H4 H5].
  split_and!; [done..| |by apply ok_queue]. destruct (TEnabled t); [by left|right]. specialize (H5 eq_refl).
  split; [lia|]. intros Hrun. unfold running_flag in H2. rewrite bool_decide_eq_true_2 in H2 by done. lia.
Qed.

(** C29: From the moment a stop is under way no task starts any more, whatever is due or
    triggered, and the engine stays stopped; when the stop has returned, no run is under
    way; and a stop can always return: the scheduler and every run can come to their end. *)
Theorem stop_is_final s s' :
  rtc engine_step initial_system s → estopped (engine s) = true → rtc engine_step s s' →
  estopped (engine s') = true ∧
  (∀ i, count (started i) (history s') = count (started i) (history s)) ∧
  (stopping s' = StopReturned → goroutines s' = []) ∧
  (∃ s'', rtc engine_step s' s'' ∧ stopping s'' = StopReturned).
Proof.
  intros Hr Hs Hr'. pose proof (engine_reachable_ok s Hr) as Hok. clear Hr.
  assert (estopped (engine s') = true ∧ ∀ i, count (started i) (history s') = count (started i) (history s)) as [Hs' Hh].
  { revert Hok Hs. induction Hr' as [|a b c Hab _ IH]; intros Ha Hsa; [done|].
    destruct (step_stopped a b Ha Hsa Hab) as [Hb Hc]. destruct (IH (step_ok _ _ Ha Hab) Hb) as [IH1 IH2].
    split; [done|]. intros j. by rewrite IH2. }
  pose proof (rtc_ok s s' Hok Hr') as Hok'. split_and!; [done..|by apply ok_returned|by apply stopped_return].
Qed.
End Steps.

(** ** Concrete runs *)

Module Examples.
#[local] Instance ex_time : SqlTime := {| sql_text _ := "t"; sql_datetime _ := None |}.
Ltac step_by lemma := eapply rtc_l; [eapply lemma; reflexivity|simpl].
(** One task, one run that panics, a trigger, and the run it asks for. *)
Definition one_run : EngineSystem :=
  mkSystem (mkEngine [mkTask "audit" 3600 60 true true (Some 5%Z) "panic: boom" 1 1 TaskRunning] [] false false 2 true false)
    LoopSelect NoStop [(0, Executing)]
    (mkLog [mkEvent 1 "audit" "task_panicked" "" "{}" "t"] 1) [RunStarted 0; RunFinished 0 (PanickedWith "boom"); RunStarted 0].
Lemma one_run_reachable : rtc engine_step initial_system one_run.
Proof.
  eapply rtc_l; [apply (step_register "audit" 3600 60 true true)|]. step_by step_start. step_by step_go.
  eapply rtc_l; [by apply (step_check 0)|]. simpl. step_by step_due. step_by step_exec.
  eapply rtc_l; [by apply (step_result 5 0 (PanickedWith "boom") [] [])|].
  eapply rtc_l; [by eapply (step_report true None 0 (Some "{}") _ 0 (PanickedWith "boom") [] [])|].
  eapply rtc_l; [by apply (step_leave 0 [] [])|]. step_by step_due_end.
  eapply rtc_l; [apply (step_trigger "audit")|]. eapply rtc_l; [by eapply step_select_trigger|].
  eapply rtc_l; [by eapply step_named|]. eapply rtc_l; [by eapply step_exec|]. step_by step_due_end. apply rtc_refl.
Qed.
Lemma engine_single_runs_witness :
  rtc engine_step initial_system one_run ∧ runCount (mkTask "audit" 3600 60 true true (Some 5%Z) "panic: boom" 1 1 TaskRunning) = 1%Z ∧
  count (executing 0) (goroutines one_run) = 1.
Proof.
  split; [exact one_run_reachable|]. split; [done|].
  exact (proj1 (engine_single_runs one_run 0 _ one_run_reachable eq_refl)).
Defined.
Definition stopping_run : EngineSystem := set_stop StopMarked (set_engine (Stop_begin (engine one_run)) one_run).
Lemma stopping_reachable : rtc engine_step initial_system stopping_run.
Proof. eapply rtc_r; [exact one_run_reachable|]. by apply step_stop. Qed.
Lemma stop_is_final_witness :
  ∃ s, rtc engine_step stopping_run s ∧ stopping s = StopReturned.
Proof.
  destruct (stop_is_final stopping_run stopping_run stopping_reachable eq_refl (rtc_refl _ _)) as (_ & _ & _ & Hs). exact Hs.
Defined.
(** A stop may return while the scheduler of a start that is under way is still to run. *)
Example stop_overtakes_start :
  ∃ s, rtc engine_step initial_system s ∧ stopping s = StopReturned ∧ loop_alive (loop s) = 1.
Proof.
  eexists. split.
  - step_by step_start. eapply rtc_l; [by apply step_stop|]. step_by step_cancel. step_by step_close. step_by step_wait. step_by step_go.
    apply rtc_refl.
  - done.
Qed.
End Examples.
