(* ===== verification/AuditTask.v ===== *)
(** * The agent's audit task: [internal/agent/audit.go], [cache_invalidate.go] and
    [QuerySuspiciousDomainsPage] of [internal/store/telemetry.go]

    One cycle as a function of the moment: the page of suspicious names of the frozen
    window, the decision about each, the cursor.  The checks of a name and the write that
    follows are separate statements with slow lookups in between: what others write to the
    store before each of them is an input ([d_others]).  Lookups, AI replies, clocks, failing
    statements and the cancellation of the context are inputs; the texts of reasons and
    events, and the JSON of the cursor, come from a class. *)

From Stdlib Require Import ZArith Lia Ascii String SpecFloat.
From stdpp Require Import sorting.
From S2P Require Import Prelude GoStr Hostname NetIP GoFloat ClientIP Groups Category Exceptions Enrich URLFeedback NetGuard Session AuthAPI AgentLog Proposals.

Record AuditConfig := mkAuditConfig {
  MinOccurrences : Z; MaxPerCycle : Z; ConfidenceThreshold : float64; EnrichTimeout : Z; Lookback : Z;
  AutoEnforce : bool; ProposalTTL : Z
}.
Record auditCursorState := mkCursor { CursorVersion : Z; WindowEnd : string; LastDomain : string }.
Definition auditCursorVersion : Z := 1.
Definition auditCursorConfigKey : string := "agent_audit_cursor".
(** A day, in nanoseconds. *)
Definition defaultAuditMaxPerTime : Z := 24 * 3600 * 1000000000.
Definition maxAgentAdvisoryPromotion : Z := 10.
(** The defaults of [NewAuditTask]. *)
Definition audit_defaults (cfg : AuditConfig) : AuditConfig :=
  mkAuditConfig (if (MinOccurrences cfg <=? 0)%Z then 3%Z else MinOccurrences cfg)
    (if (MaxPerCycle cfg <=? 0)%Z then 50%Z else MaxPerCycle cfg)
    (if SFleb (ConfidenceThreshold cfg) f_zero then f_div (f_of_Z 7) (f_of_Z 10) else ConfidenceThreshold cfg)
    (if (EnrichTimeout cfg <=? 0)%Z then (5 * second_ns)%Z else EnrichTimeout cfg)
    (if (Lookback cfg <=? 0)%Z then defaultAuditMaxPerTime else Lookback cfg) (AutoEnforce cfg) (ProposalTTL cfg).

(** ** Scores *)

Definition agentScore (tls : TLSResult) (whois : WhoisResult) : Z :=
  let strong := (if TLSScore tls - AdvisoryScore tls <? 0 then 0 else TLSScore tls - AdvisoryScore tls)%Z in
  let advisory := (if maxAgentAdvisoryPromotion <? AdvisoryScore tls then maxAgentAdvisoryPromotion else AdvisoryScore tls)%Z in
  let total := (strong + advisory + WhoisScore whois)%Z in
  if (100 <? total)%Z then 100%Z else total.
Definition interim_verdict (score : Z) : Verdict :=
  if (70 <=? score)%Z then VerdictMalicious else if (score <? 40)%Z then VerdictSafe else VerdictSuspicious.
(** 0.45 + score / 120, at most 1 *)
Definition interim_confidence (score : Z) : float64 :=
  let c := f_add (f_div (f_of_Z 45) (f_of_Z 100)) (f_div (f_of_Z score) (f_of_Z 120)) in
  if f_lt f_one c then f_one else c.
(** The assessment of the domain, and whether the AI promoted it.  [ai]: the reply of an
    enabled client, [None] when there is none or it failed. *)
Definition assess_domain (domain : string) (signals : TLSResult * WhoisResult) (ai : Result → option Result)
    : Result * bool :=
  let score := agentScore signals.1 signals.2 in
  let current := mkResult domain (interim_verdict score) (interim_confidence score) score
                   (TLSReasons signals.1 ++ WhoisReasons signals.2)%list "" in
  let '(r, promoted) :=
    if bool_decide (interim_verdict score = VerdictSuspicious) then
      match ai current with
      | Some reply =>
          if bool_decide (RVerdict reply = VerdictMalicious) then
            (mkResult domain VerdictMalicious
               (if f_lt (Confidence current) (Confidence reply) then Confidence reply else Confidence current)
               (if (score <? Score reply)%Z then Score reply else score) (Reasons current ++ Reasons reply)%list "", true)
          else (current, false)
      | None => (current, false)
      end
    else (current, false) in
  (mkResult domain (RVerdict r) (Confidence r) (if (100 <? Score r)%Z then 100%Z else Score r) (Reasons r) "", promoted).
(** What the decision asks for before it acts. *)
Definition enforceable (cfg : AuditConfig) (r : Result) : bool :=
  bool_decide (RVerdict r = VerdictMalicious) && SFleb (ConfidenceThreshold cfg) (Confidence r).

(** ** Suspicious names *)

Record TelemetryRow := mkTelemetry { t_domain : string; t_verdict : string; t_analyzed : string }.
Record DomainCount := mkCount { CDomain : string; CCount : Z }.
Definition in_window (since until : string) (r : TelemetryRow) : bool :=
  String.eqb (t_verdict r) "SUSPICIOUS" && negb (String.ltb (t_analyzed r) since) && String.ltb (t_analyzed r) until.
Definition text_le (a b : string) : Prop := String.ltb b a = false.
#[export] Instance text_le_dec : RelDecision text_le.
Proof. intros a b. unfold text_le. apply bool_eq_dec. Defined.
(** [GROUP BY domain HAVING cnt >= ? ORDER BY domain ASC] *)
Definition window_counts (since until : string) (minimum : Z) (rows : list TelemetryRow) : list DomainCount :=
  let names := t_domain <$> List.filter (in_window since until) rows in
  List.filter (λ c, (minimum <=? CCount c)%Z)
    ((λ d, mkCount d (Z.of_nat (List.length (List.filter (String.eqb d) names)))) <$> merge_sort text_le (remove_dups names)).

(** ** The world of the task *)

(** The store, the telemetry rows, the configuration table, the keys of the analysis
    cache in Redis, and the cursor in memory. *)
Record AuditWorld := mkAudit {
  a_store : ProposalStore; a_rows : list TelemetryRow; a_config : gmap string string; a_keys : gset string;
  a_cursor : auditCursorState
}.
Definition set_store (s : ProposalStore) (w : AuditWorld) : AuditWorld := mkAudit s (a_rows w) (a_config w) (a_keys w) (a_cursor w).
Definition set_keys (k : gset string) (w : AuditWorld) : AuditWorld := mkAudit (a_store w) (a_rows w) (a_config w) k (a_cursor w).
Definition set_cursor (c : auditCursorState) (w : AuditWorld) : AuditWorld := mkAudit (a_store w) (a_rows w) (a_config w) (a_keys w) c.
Definition set_config (m : gmap string string) (w : AuditWorld) : AuditWorld := mkAudit (a_store w) (a_rows w) m (a_keys w) (a_cursor w).

Inductive AuditAction := ABlocked | AProposed | ASkipped | AReviewed.
#[export] Instance AuditAction_eq_dec : EqDecision AuditAction.
Proof. solve_decision. Defined.
(** Redis: whether there is one, the errors of [DEL] and of the scan, and which keys a
    failing scan had reached. *)
Record CacheIO := mkCacheIO {
  cache_enabled : bool; delete_error : option string; scan_error : option string; scan_reached : string → bool
}.
(** The moment of one domain: its statements, its lookups, its enrichment, the AI; and
    [d_others]: what operators, other processes and requests do to the store before the
    first check of the domain (0), between its two checks (1), and while the lookups run,
    before the finding is acted on (2).  No transaction holds these together. *)
Record DomainEnv := mkDomainEnv {
  d_env : ProposalEnv; d_lookup : query → option string; d_signals : TLSResult * WhoisResult;
  d_ai : Result → option Result; d_cache : CacheIO; d_others : nat → ProposalStore → ProposalStore
}.
Definition meanwhile (env : DomainEnv) (n : nat) (w : AuditWorld) : AuditWorld :=
  set_store (d_others env n (a_store w)) w.
(** The moment of a cycle; the clocks are those of the reset test, of a new window, of its
    retirement; [ae_cancelled]: the context is done when the domain's turn comes. *)
Record AuditEnv := mkAuditEnv {
  ae_enabled : bool; ae_check : Z; ae_start : Z; ae_retire : Z; ae_query : option string; ae_persist : option string;
  ae_domain : string → DomainEnv; ae_cancelled : string → bool; ae_summary : ProposalEnv
}.
(** Formatted reasons, evidence and event details, and the JSON of the cursor. *)
Class AuditTexts := {
  block_reason : Z → float64 → string;
  block_details : Result → bool → string;
  review_details : Result → string;
  proposal_evidence : Result → TLSResult → WhoisResult → bool → result string;
  proposal_details : Z → Result → string;
  summary_details : list AuditAction → string;
  encode_cursor : auditCursorState → option string;
  decode_cursor : string → option auditCursorState
}.

Section Task.
Context `{UnicodeTables, HostServices, CivilTime, SqlTime, ProposalTexts, AuditTexts}.

Definition rfc3339 (t : Z) : string := civil_text (t / second_ns) ++ "Z".
Definition QuerySuspiciousDomainsPage (enabled : bool) (failing : option string) (since until : Z) (minOccurrences limit : Z)
    (afterDomain : string) (rows : list TelemetryRow) : result (list DomainCount) :=
  if negb enabled then Err "store disabled"
  else
    let minimum := if (minOccurrences <=? 0)%Z then 3%Z else minOccurrences in
    let limit := if (limit <=? 0)%Z then 50%Z else limit in
    let untilStr := rfc3339 ((until / second_ns + 1) * second_ns) in
    match failing with
    | Some e => Err ("query suspicious domains page: " ++ e)
    | None =>
        let counts := window_counts (rfc3339 since) untilStr minimum rows in
        Ok (take (Z.to_nat limit)
              (if String.eqb afterDomain "" then counts else List.filter (λ c, String.ltb afterDomain (CDomain c)) counts))
    end.

(** ** Cache keys *)

Definition analysisCachePrefix : string := "safe-zone:analysis:".
Definition analysisCacheScanMaxKeys : Z := 1000.
(** Whether the key matches the pattern of the model variants of the domain. *)
Definition variant_key (domain key : string) : bool := HasPrefix key (analysisCachePrefix ++ domain ++ ":model:").
Definition invalidateAnalysisCache (io : CacheIO) (domain : string) (keys : gset string) : gset string * option string :=
  if negb (cache_enabled io) then (keys, Some "redis disabled")
  else if String.eqb domain "" || ContainsAny domain ("*?[]\ " ++ String (ascii_of_nat 9) EmptyString)
  then (keys, Some "invalidate analysis cache: invalid domain")
  else match delete_error io with
  | Some e => (keys, Some e)
  | None =>
      let keys := keys ∖ {[analysisCachePrefix ++ domain]} in
      match scan_error io with
      | Some e => (filter (λ k, variant_key domain k && scan_reached io k = false) keys, Some e)
      | None => (filter (λ k, variant_key domain k = false) keys, None)
      end
  end.

(** ** One domain *)

Definition log_event (env : ProposalEnv) (event domain details : string) (w : AuditWorld) : AuditWorld :=
  set_store (set_agent_log (recordAgentEventBestEffort (proposals_enabled env) (failing env SEvent) (db_now env) "audit" event
                              domain details (agent_log (a_store w))) (a_store w)) w.
Definition proposeBlock (cfg : AuditConfig) (env : DomainEnv) (domain : string) (r : Result) (promoted : bool) (w : AuditWorld)
    : AuditWorld * result AuditAction :=
  match proposal_evidence r (d_signals env).1 (d_signals env).2 promoted with
  | Err e => (w, Err ("encode proposal evidence: " ++ e))
  | Ok evidence =>
      let proposal :=
        mkProposal 0 "audit" domain "block" (Score r) (Confidence r) (Reasons r) evidence "agent:audit" "exact" ""
          (if (0 <? ProposalTTL cfg)%Z then time_text (go_now (d_env env) + ProposalTTL cfg) else "") "" "" "" in
      match CreateAgentProposal (d_env env) proposal (a_store w) with
      | (s, inl _) => (set_store s w, Err "create proposal")
      | (s, inr created) =>
          (log_event (d_env env) "proposal_created" domain (proposal_details (PID created) r) (set_store s w), Ok AProposed)
      end
  end.
Definition block_domain (env : DomainEnv) (domain : string) (r : Result) (w : AuditWorld) : AuditWorld * result AuditAction :=
  let io := {| io_err := λ _, failing (d_env env) SOverride |} in
  match @UpsertOverride _ _ io domain "block" (block_reason (Score r) (Confidence r)) (policy_tables (a_store w)) with
  | (_, Some e) => (w, Err ("upsert override: " ++ e))
  | (t, None) =>
      let w := set_store (set_policy t (a_store w)) w in
      let '(keys, e) := invalidateAnalysisCache (d_cache env) domain (a_keys w) in
      (log_event (d_env env) "auto_block" domain (block_details r (bool_decide (e = None))) (set_keys keys w), Ok ABlocked)
  end.
Definition auditDomain (cfg : AuditConfig) (env : DomainEnv) (domain : string) (w : AuditWorld)
    : AuditWorld * result AuditAction :=
  let io := {| io_err := d_lookup env |} in
  let w := meanwhile env 0 w in
  match @GetOverride _ _ io domain (policy_tables (a_store w)) with
  | Err e => (w, Err ("check override: " ++ e))
  | Ok (Some _) => (w, Ok ASkipped)
  | Ok None =>
      let w := meanwhile env 1 w in
      match HasGroupOverrideForDomain (d_env env) domain (policy_tables (a_store w)) with
      | Err e => (w, Err ("check group overrides: " ++ e))
      | Ok true => (w, Ok ASkipped)
      | Ok false =>
          let '(r, promoted) := assess_domain domain (d_signals env) (d_ai env) in
          let w := meanwhile env 2 w in
          if enforceable cfg r then
            if AutoEnforce cfg then block_domain env domain r w else proposeBlock cfg env domain r promoted w
          else (log_event (d_env env) "reviewed" domain (review_details r) w, Ok AReviewed)
      end
  end.

(** ** One cycle *)

(** In memory at once; the table when the store and the encoder let it. *)
Definition storeCursor (env : AuditEnv) (c : auditCursorState) (w : AuditWorld) : AuditWorld :=
  let w := set_cursor c w in
  if negb (ae_enabled env) then w
  else match encode_cursor c, ae_persist env with
  | Some encoded, None => set_config (<[auditCursorConfigKey := encoded]> (a_config w)) w
  | _, _ => w
  end.
(** At construction: an unreadable cursor is none. *)
Definition loadCursor (failing : option string) (w : AuditWorld) : AuditWorld :=
  match failing, a_config w !! auditCursorConfigKey with
  | None, Some raw =>
      match decode_cursor raw with
      | Some c =>
          if (CursorVersion c =? auditCursorVersion)%Z && negb (String.eqb (WindowEnd c) "")
             && bool_decide (is_Some (parse_rfc3339 (WindowEnd c)))
          then set_cursor c w else w
      | None => w
      end
  | _, _ => w
  end.

Inductive PageEnd := PageDone | PageCancelled | PageFailed (message : string).
(** The loop over the page; [done]: the names audited so far. *)
Fixpoint audit_page (cfg : AuditConfig) (env : AuditEnv) (page : list DomainCount) (done : list (string * AuditAction))
    (w : AuditWorld) : AuditWorld * list (string * AuditAction) * PageEnd :=
  match page with
  | [] => (w, done, PageDone)
  | dc :: page =>
      if ae_cancelled env (CDomain dc) then (w, done, PageCancelled)
      else match auditDomain cfg (ae_domain env (CDomain dc)) (CDomain dc) w with
      | (w, Err e) => (w, done, PageFailed ("audit domain " ++ CDomain dc ++ ": " ++ e))
      | (w, Ok action) => audit_page cfg env page (done ++ [(CDomain dc, action)])%list w
      end
  end.
Definition last_done (done : list (string * AuditAction)) : string := default "" (fst <$> last done).
(** [time.Time{}] *)
Definition zero_time : Z := -62135596800 * second_ns.
(** The window of this cycle: its end, and the text the cursor keeps of it. *)
Definition audit_window (cfg : AuditConfig) (env : AuditEnv) (c : auditCursorState) : result (Z * string) :=
  let fresh := (ae_start env, time_text (ae_start env)) in
  if String.eqb (WindowEnd c) "" then Ok fresh
  else match parse_rfc3339 (WindowEnd c) with
  | None => Err "audit cursor window end"
  | Some t =>
      if (t =? zero_time)%Z then Ok fresh
      else if String.eqb (LastDomain c) "" && (t <? ae_check env - Lookback cfg)%Z then Ok fresh
      else Ok (t, WindowEnd c)
  end.
Definition retired (env : AuditEnv) : auditCursorState := mkCursor auditCursorVersion (time_text (ae_retire env)) "".
Definition resume_at (windowText lastDomain : string) : auditCursorState := mkCursor auditCursorVersion windowText lastDomain.
(** [commit] of a prefix: nothing was done, nothing is stored. *)
Definition commit_prefix (env : AuditEnv) (windowText : string) (done : list (string * AuditAction)) (w : AuditWorld) : AuditWorld :=
  if String.eqb (last_done done) "" then w else storeCursor env (resume_at windowText (last_done done)) w.
(** What is left, the names audited with what was decided, and the error. *)
Definition Run (cfg : AuditConfig) (env : AuditEnv) (w : AuditWorld)
    : AuditWorld * list (string * AuditAction) * option string :=
  if negb (ae_enabled env) then (w, [], None)
  else match audit_window cfg env (a_cursor w) with
  | Err e => (w, [], Some e)
  | Ok (windowEnd, windowText) =>
      match QuerySuspiciousDomainsPage (ae_enabled env) (ae_query env) (windowEnd - Lookback cfg) windowEnd
              (MinOccurrences cfg) (MaxPerCycle cfg) (LastDomain (a_cursor w)) (a_rows w) with
      | Err e => (w, [], Some ("query suspicious domains page: " ++ e))
      | Ok [] => (storeCursor env (retired env) w, [], None)
      | Ok page =>
          match audit_page cfg env page [] w with
          | (w, done, PageCancelled) => (commit_prefix env windowText done w, done, Some "context canceled")
          | (w, done, PageFailed e) => (commit_prefix env windowText done w, done, Some e)
          | (w, done, PageDone) =>
              let w :=
                if (Z.of_nat (length page) <? MaxPerCycle cfg)%Z then storeCursor env (retired env) w
                else storeCursor env (resume_at windowText (last_done done)) w in
              (log_event (ae_summary env) "audit_completed" "" (summary_details (snd <$> done)) w, done, None)
          end
      end
  end.
End Task.
