(* ===== verification/AuditSpec.v ===== *)
(** * Theorems about the audit task: [AuditTask]

    The agent proposes and does not enforce unless it is told to; when it enforces, it
    blocks where it saw no override, and overwrites one that appeared after it looked; a
    frozen window is audited name by name, each once, whatever fails in between. *)

From Stdlib Require Import ZArith Lia Ascii String SpecFloat.
From stdpp Require Import sorting.
From S2P Require Import Prelude GoStr Hostname NetIP GoFloat ClientIP Groups GroupsSpec Category Exceptions Enrich URLFeedback URLTableSpec NetGuard Session AuthAPI AgentLog Proposals ProposalsSpec AuditTask.

Section Spec.
Context `{UnicodeTables, HostServices, CivilTime, SqlTime, ProposalTexts, AuditTexts}.

(** ** Policy *)

Lemma log_event_policy env event domain details w :
  policy_tables (a_store (log_event env event domain details w)) = policy_tables (a_store w) ∧
  a_keys (log_event env event domain details w) = a_keys w.
Proof. done. Qed.
Lemma create_policy env p s : policy_tables (CreateAgentProposal env p s).1 = policy_tables s.
Proof. destruct (create_cases env p s) as [->|(q & ex & _ & [(r & _ & ->)|(_ & ->)])]; done. Qed.
Lemma propose_policy cfg env domain r promoted w :
  let w' := (proposeBlock cfg env domain r promoted w).1 in
  policy_tables (a_store w') = policy_tables (a_store w) ∧ a_keys w' = a_keys w.
Proof.
  unfold proposeBlock. destruct (proposal_evidence _ _ _ _) as [evidence|]; [|done].
  pose proof (create_policy (d_env env)
    (mkProposal 0 "audit" domain "block" (Score r) (Confidence r) (Reasons r) evidence "agent:audit" "exact" ""
       (if (0 <? ProposalTTL cfg)%Z then time_text (go_now (d_env env) + ProposalTTL cfg) else "") "" "" "") (a_store w)) as Hc.
  destruct (CreateAgentProposal _ _ _) as [s [e|created]]; simpl in *; done.
Qed.
(** How the policy tables move during a cycle; [done]: what the cycle has decided so far.
    Others change them at any moment; the cycle itself only blocks, with automatic
    enforcement, a name found malicious for which there was no override when it was
    checked, and then, when groups were checked, none of a group. *)
Inductive cycle_policy (cfg : AuditConfig) (env : AuditEnv) (t0 : Tables) : list (string * AuditAction) → Tables → Prop :=
| cp_start : cycle_policy cfg env t0 [] t0
| cp_others done t domain n s :
    cycle_policy cfg env t0 done t → policy_tables s = t →
    cycle_policy cfg env t0 done (policy_tables (d_others (ae_domain env domain) n s))
| cp_decided done t domain action :
    cycle_policy cfg env t0 done t → action ≠ ABlocked → cycle_policy cfg env t0 (done ++ [(domain, action)])%list t
| cp_block done s domain d reason :
    let e := ae_domain env domain in
    cycle_policy cfg env t0 done (policy_tables s) →
    @GetOverride _ _ {| io_err := d_lookup e |} domain (policy_tables s) = Ok None →
    HasGroupOverrideForDomain (d_env e) domain (policy_tables (d_others e 1 s)) = Ok false →
    AutoEnforce cfg = true → check_override domain "block" = Ok d →
    enforceable cfg (assess_domain domain (d_signals e) (d_ai e)).1 = true →
    let t := policy_tables (d_others e 2 (d_others e 1 s)) in
    cycle_policy cfg env t0 (done ++ [(domain, ABlocked)])%list
      (set_local_overrides (<[d := mkOverride d "block" reason]> (local_overrides t)) t).

(** What a domain does to the policy and to the cached answers. *)
Lemma domain_policy cfg env t0 done domain w w' out :
  cycle_policy cfg env t0 done (policy_tables (a_store w)) →
  auditDomain cfg (ae_domain env domain) domain w = (w', out) →
  (AutoEnforce cfg = false → a_keys w' = a_keys w) ∧
  cycle_policy cfg env t0 (match out with Ok action => (done ++ [(domain, action)])%list | Err _ => done end)
    (policy_tables (a_store w')).
Proof.
  intros Hc. unfold auditDomain. cbv zeta. set (e := ae_domain env domain).
  assert (∀ n w, cycle_policy cfg env t0 done (policy_tables (a_store w)) →
    cycle_policy cfg env t0 done (policy_tables (a_store (meanwhile e n w)))) as Hm
    by (intros n w0 H0'; exact (cp_others cfg env t0 done _ domain n (a_store w0) H0' eq_refl)).
  assert (∀ w1 action, action ≠ ABlocked → cycle_policy cfg env t0 done (policy_tables (a_store w1)) →
    cycle_policy cfg env t0 (done ++ [(domain, action)])%list (policy_tables (a_store w1))) as Hd
    by (intros; by apply cp_decided).
  pose proof (Hm 0 w Hc) as H0'. set (w0 := meanwhile e 0 w) in *.
  destruct (GetOverride domain _) as [[o|]|] eqn:Ho; [intros [= <- <-]; split; [done|by apply Hd]| |intros [= <- <-]; by split].
  pose proof (Hm 1 w0 H0') as H1'. set (w1 := meanwhile e 1 w0) in *.
  destruct (HasGroupOverrideForDomain _ _ _) as [[|]|] eqn:Hg;
    [intros [= <- <-]; split; [done|by apply Hd]| |intros [= <- <-]; by split].
  destruct (assess_domain domain _ _) as [r promoted] eqn:Ha.
  pose proof (Hm 2 w1 H1') as H2'. set (w2 := meanwhile e 2 w1) in *.
  destruct (enforceable cfg r) eqn:He; [|intros [= <- <-]; split; [done|by apply Hd]].
  destruct (AutoEnforce cfg) eqn:Hae.
  2: { intros Hp. pose proof (propose_policy cfg e domain r promoted w2) as [Hpt Hpk]. rewrite Hp in Hpt, Hpk. cbn [fst] in *.
       rewrite Hpk, Hpt. split; [done|]. unfold proposeBlock in Hp.
       destruct (proposal_evidence _ _ _ _); [|injection Hp as _ <-; done].
       destruct (CreateAgentProposal _ _ _) as [s [err|created]]; injection Hp as _ <-; [done|]. by apply cp_decided. }
  unfold block_domain, UpsertOverride. destruct (check_override domain "block") as [d|] eqn:Hck; [|intros [= <- <-]; by split].
  simpl. destruct (failing _ SOverride); [intros [= <- <-]; by split|].
  destruct (invalidateAnalysisCache _ _ _) as [keys err]. intros [= <- <-]. split; [done|].
  apply (cp_block cfg env t0 done (a_store w0) domain d); try done. fold e. by rewrite Ha.
Qed.
Lemma store_cursor_policy env c w : a_store (storeCursor env c w) = a_store w ∧ a_keys (storeCursor env c w) = a_keys w.
Proof. unfold storeCursor. destruct (ae_enabled env); simpl; [|done]. destruct (encode_cursor c), (ae_persist env); done. Qed.
Lemma commit_policy env t done w : a_store (commit_prefix env t done w) = a_store w ∧ a_keys (commit_prefix env t done w) = a_keys w.
Proof. unfold commit_prefix. destruct (String.eqb _ _); [done|apply store_cursor_policy]. Qed.

(** A name without a global override is not in the table. *)
Lemma no_override io domain t : @GetOverride _ _ io domain t = Ok None → local_overrides t !! domain = None.
Proof.
  unfold GetOverride, walk_candidates. pose proof (floor_nonneg domain) as Hf.
  destruct (Split domain ".") as [|p ps] eqn:Hs; [by apply Split_nonnil in Hs|].
  replace (Nat.min _ _) with (S (Nat.min (length ps) (Z.to_nat (RegistrableWalkFloor domain)))) by (simpl length; lia).
  assert (walk_candidate (p :: ps) 0 = domain) as Hw by (unfold walk_candidate; by rewrite drop_0, <- Hs, Join_Split).
  simpl. rewrite Hw. destruct (@io_err io (QLocalOverride domain)); [done|]. by destruct (local_overrides t !! domain).
Qed.
(** What the cycle leaves when nobody interferes: changed names were blocked. *)
Definition undisturbed_policy (cfg : AuditConfig) (env : AuditEnv) (done : list (string * AuditAction)) (t t' : Tables) : Prop :=
  (AutoEnforce cfg = false → t' = t) ∧ group_overrides t' = group_overrides t ∧
  ∀ d, local_overrides t' !! d = local_overrides t !! d ∨
    ∃ domain reason, (domain, ABlocked) ∈ done ∧ check_override domain "block" = Ok d ∧
      enforceable cfg (assess_domain domain (d_signals (ae_domain env domain)) (d_ai (ae_domain env domain))).1 = true ∧
      local_overrides t' !! d = Some (mkOverride d "block" reason) ∧
      (d = domain → local_overrides t !! d = None).
Lemma undisturbed_more cfg env done more t t' :
  undisturbed_policy cfg env done t t' → undisturbed_policy cfg env (done ++ more)%list t t'.
Proof.
  intros (Hoff & Hg & Hd). split; [done|]. split; [done|]. intros d.
  destruct (Hd d) as [Hl|(dm & rs & Hin & ? & ? & ? & ?)]; [by left|right]. exists dm, rs. split_and!; try done.
  apply elem_of_app. by left.
Qed.
Definition nobody_else (env : AuditEnv) : Prop := ∀ domain n s, d_others (ae_domain env domain) n s = s.
Lemma cycle_undisturbed cfg env done t t' :
  nobody_else env → cycle_policy cfg env t done t' → undisturbed_policy cfg env done t t'.
Proof.
  intros Hno Hc. induction Hc as [|done t1 domain n s Hc IH <-|done t1 domain action Hc IH _|
      done s domain d reason e Hc IH Ho Hgr Hae Hck He t2].
  - split; [done|]. split; [done|]. by left.
  - by rewrite Hno.
  - by apply undisturbed_more.
  - subst t2 e. rewrite !Hno in *. simpl. destruct IH as (Hoff & Hg & Hd). split; [congruence|]. split; [done|].
    intros d'. simpl. destruct (decide (d' = d)) as [->|Hne].
    + right. exists domain, reason. rewrite lookup_insert_eq. split_and!; [|done..|].
      { apply elem_of_app. right. by apply list_elem_of_singleton. }
      intros ->. apply no_override in Ho. destruct (Hd domain) as [<-|(dm & rs & _ & _ & _ & Hs & _)]; [done|congruence].
    + rewrite lookup_insert_ne by done. destruct (Hd d') as [Hl|(dm & rs & Hin & ? & ? & ? & ?)]; [by left|right].
      exists dm, rs. split_and!; try done. apply elem_of_app. by left.
Qed.
(** Without automatic enforcement only the others write. *)
Definition others_step (env : AuditEnv) (t t' : Tables) : Prop :=
  ∃ domain n s, t = policy_tables s ∧ t' = policy_tables (d_others (ae_domain env domain) n s).
Lemma cycle_proposes cfg env done t t' :
  AutoEnforce cfg = false → cycle_policy cfg env t done t' → rtc (others_step env) t t'.
Proof.
  intros Hoff Hc. induction Hc as [|done t1 domain n s Hc IH <-|done t1 domain action Hc IH _|]; [done| |done|congruence].
  eapply rtc_r; [done|]. by exists domain, n, s.
Qed.

Lemma page_policy cfg env t0 page done w w' done' e :
  cycle_policy cfg env t0 done (policy_tables (a_store w)) → audit_page cfg env page done w = (w', done', e) →
  (AutoEnforce cfg = false → a_keys w' = a_keys w) ∧ cycle_policy cfg env t0 done' (policy_tables (a_store w')).
Proof.
  revert done w. induction page as [|dc page IH]; intros done w Hf; simpl; [by intros [= <- <- _]|].
  destruct (ae_cancelled env (CDomain dc)); [by intros [= <- <- _]|].
  destruct (auditDomain cfg (ae_domain env (CDomain dc)) (CDomain dc) w) as [w1 [action|m]] eqn:Ha;
    apply (domain_policy _ _ _ _ _ _ _ _ Hf) in Ha as [Hk Hc].
  - intros Hp. destruct (IH _ _ Hc Hp) as [Hk' Hc']. split; [|done]. intros Hoff. by rewrite Hk', Hk.
  - by intros [= <- <- _].
Qed.
Lemma run_policy cfg env w w' done err : Run cfg env w = (w', done, err) →
  (AutoEnforce cfg = false → a_keys w' = a_keys w) ∧
  cycle_policy cfg env (policy_tables (a_store w)) done (policy_tables (a_store w')).
Proof.
  pose proof (cp_start cfg env (policy_tables (a_store w))) as Hstart.
  unfold Run. destruct (ae_enabled env); simpl; [|by intros [= <- <- _]].
  destruct (audit_window cfg env (a_cursor w)) as [[t text]|e]; [|by intros [= <- <- _]].
  destruct (QuerySuspiciousDomainsPage _ _ _ _ _ _ _ _) as [[|dc page]|e]; [| |by intros [= <- <- _]].
  - destruct (store_cursor_policy env (retired env) w) as [Hs Hk]. intros [= <- <- _]. by rewrite Hs, Hk.
  - destruct (audit_page cfg env (dc :: page) [] w) as [[w1 done1] e] eqn:Hp.
    apply (page_policy _ _ _ _ _ _ _ _ _ Hstart) in Hp as [Hk Hc]. destruct e as [| |m].
    + destruct (_ <? _)%Z; intros [= <- <- _]; simpl;
        [destruct (store_cursor_policy env (retired env) w1) as [-> ->]
        |destruct (store_cursor_policy env (resume_at text (last_done done1)) w1) as [-> ->]]; done.
    + destruct (commit_policy env text done1 w1) as [Hs Hk']. intros [= <- <- _]. by rewrite Hs, Hk'.
    + destruct (commit_policy env text done1 w1) as [Hs Hk']. intros [= <- <- _]. by rewrite Hs, Hk'.
Qed.

(** C26: One cycle of the audit, whatever fails, is cancelled or is returned by the lookups,
    and whatever operators, requests and other processes do to the store before, between
    and after its checks: with automatic enforcement off the policy moves only by the
    others' writes and the cycle touches no cached answer, it only proposes; with it on,
    the cycle adds to the others' writes only global block overrides, of names audited in
    this cycle and found malicious with enough confidence, for which no override applied
    when the name was checked and no group had one when groups were checked.  It does not
    look again before it writes: an override set in between is overwritten.  When nobody
    interferes, the override of a group never changes, and a block whose name is the name
    in the telemetry replaces none. *)
Theorem audit_respects_policy cfg env w :
  let '(w', done, _) := Run cfg env w in
  let t := policy_tables (a_store w) in let t' := policy_tables (a_store w') in
  (AutoEnforce cfg = false → rtc (others_step env) t t' ∧ a_keys w' = a_keys w) ∧
  cycle_policy cfg env t done t' ∧
  (nobody_else env → undisturbed_policy cfg env done t t').
Proof.
  destruct (Run cfg env w) as [[w' done] err] eqn:Hr. apply run_policy in Hr as [Hk Hc]. split; [|split].
  - intros Hoff. split; [by eapply cycle_proposes|by apply Hk].
  - done.
  - intros Hno. by apply cycle_undisturbed.
Qed.

(** ** Windows *)

Definition name_lt (a b : string) : Prop := String.ltb a b = true.
#[local] Instance text_le_trans : Transitive text_le.
Proof.
  intros a b c. unfold text_le. rewrite !ltb_ge. intros [->|Hba] [->|Hcb]; [by left|by right..|]. right. by eapply ltb_trans.
Qed.
#[local] Instance text_le_total : Total text_le.
Proof.
  intros a b. unfold text_le. destruct (String.ltb b a) eqn:Hba; [|by left]. right. apply ltb_ge. by right.
Qed.
Lemma sorted_strict l : StronglySorted text_le l → NoDup l → StronglySorted name_lt l.
Proof.
  induction 1 as [|x l Hs IH Hf]; [constructor|]. intros Hn. apply NoDup_cons in Hn as [Hx Hn]. constructor; [by apply IH|].
  rewrite Forall_forall in *. intros y Hy. specialize (Hf y Hy). unfold text_le in Hf. apply ltb_ge in Hf as [->|Hlt]; done.
Qed.
Lemma sorted_filter {A} (R : A → A → Prop) (f : A → bool) l : StronglySorted R l → StronglySorted R (List.filter f l).
Proof.
  induction 1 as [|x l Hs IH Hf]; [constructor|]. simpl. destruct (f x); [|done]. constructor; [done|].
  rewrite Forall_forall in *. intros y Hy. apply Hf. apply list_elem_of_In in Hy. apply filter_In in Hy as [Hy _]. by apply list_elem_of_In.
Qed.
Lemma fmap_filter {A B} (g : A → B) (f : B → bool) l : g <$> List.filter (λ x, f (g x)) l = List.filter f (g <$> l).
Proof. induction l as [|x l IH]; [done|]. simpl. destruct (f (g x)); simpl; [f_equal|]; exact IH. Qed.
Lemma sorted_fmap_filter (g : string → DomainCount) (f : DomainCount → bool) l : (∀ d, CDomain (g d) = d) →
  StronglySorted name_lt l → StronglySorted name_lt (CDomain <$> List.filter f (g <$> l)).
Proof.
  intros Hg Hs. assert (CDomain <$> List.filter f (g <$> l) = List.filter (λ d, f (g d)) l) as ->; [|by apply sorted_filter].
  clear Hs. induction l as [|d l IH]; [done|]. simpl. destruct (f (g d)); simpl; [rewrite Hg; f_equal|]; exact IH.
Qed.
Definition window_names (cfg : AuditConfig) (t : Z) (rows : list TelemetryRow) : list string :=
  CDomain <$> window_counts (rfc3339 (t - Lookback cfg)) (rfc3339 ((t / second_ns + 1) * second_ns)) (MinOccurrences cfg) rows.
Lemma window_sorted cfg t rows : StronglySorted name_lt (window_names cfg t rows).
Proof.
  unfold window_names, window_counts. apply sorted_fmap_filter; [done|]. apply sorted_strict.
  - apply StronglySorted_merge_sort; apply _.
  - rewrite merge_sort_Permutation. apply NoDup_remove_dups.
Qed.
(** What lies after the last of a prefix is the rest. *)
Lemma after_prefix (A B : list string) x : StronglySorted name_lt ((A ++ [x]) ++ B) →
  List.filter (String.ltb x) ((A ++ [x]) ++ B) = B.
Proof.
  intros Hs. rewrite <- app_assoc in *. simpl in *. induction A as [|y A IH]; simpl in *.
  - apply StronglySorted_inv in Hs as [_ Hf]. rewrite ltb_irrefl. rewrite Forall_forall in Hf.
    induction B as [|z B IHB]; [done|]. simpl. rewrite (Hf z) by by left. f_equal. apply IHB. intros w Hw. apply Hf. by right.
  - apply StronglySorted_inv in Hs as [Hs Hf]. rewrite Forall_forall in Hf. assert (name_lt y x) as Hyx.
    { apply Hf, elem_of_app. right. by left. }
    assert (String.ltb x y = false) as ->; [|by apply IH]. apply ltb_ge. by right.
Qed.
(** The rest of the window after the cursor. *)
Definition remaining (last : string) (L : list string) : list string :=
  if String.eqb last "" then L else List.filter (String.ltb last) L.
Lemma remaining_prefix (L A B : list string) : StronglySorted name_lt L → "" ∉ L → L = (A ++ B)%list →
  remaining (default "" (last A)) L = B.
Proof.
  intros Hs Hn ->. unfold remaining. destruct A as [|x A _] using rev_ind; [done|]. rewrite last_snoc. simpl.
  destruct (String.eqb_spec x "") as [->|_]; [|by apply after_prefix].
  exfalso. apply Hn. rewrite !elem_of_app. left. right. by left.
Qed.

(** *** One cycle *)

Lemma domain_cursor cfg env domain w : a_cursor (auditDomain cfg env domain w).1 = a_cursor w.
Proof.
  unfold auditDomain. destruct (GetOverride domain _) as [[o|]|]; [done| |done].
  destruct (HasGroupOverrideForDomain _ _ _) as [[|]|]; [done| |done].
  destruct (assess_domain domain _ _) as [r promoted]. destruct (enforceable cfg r); [|done]. destruct (AutoEnforce cfg).
  - unfold block_domain. destruct (UpsertOverride _ _ _ _) as [t [e|]]; [done|]. by destruct (invalidateAnalysisCache _ _ _).
  - unfold proposeBlock. destruct (proposal_evidence _ _ _ _); [|done]. by destruct (CreateAgentProposal _ _ _) as [s [e|p]].
Qed.
Lemma page_prefix cfg env page done w w' done' e : audit_page cfg env page done w = (w', done', e) →
  a_cursor w' = a_cursor w ∧
  ∃ k, fst <$> done' = ((fst <$> done) ++ take k (CDomain <$> page))%list ∧ (e = PageDone → k = length page).
Proof.
  revert done w. induction page as [|dc page IH]; intros done w; simpl.
  { intros [= <- <- <-]. split; [done|]. exists 0. split; [by rewrite app_nil_r|done]. }
  destruct (ae_cancelled env (CDomain dc)).
  { intros [= <- <- <-]. split; [done|]. exists 0. split; [by rewrite app_nil_r|done]. }
  pose proof (domain_cursor cfg (ae_domain env (CDomain dc)) (CDomain dc) w) as Hc.
  destruct (auditDomain cfg (ae_domain env (CDomain dc)) (CDomain dc) w) as [w1 [action|m]]; simpl in Hc.
  - intros Hp. apply IH in Hp as [Hcur (k & Hk & Hd)]. split; [congruence|]. exists (S k). split; [|intros; f_equal; auto].
    rewrite Hk, fmap_app, <- app_assoc. done.
  - intros [= <- <- <-]. split; [done|]. exists 0. split; [by rewrite app_nil_r|done].
Qed.
Lemma store_cursor_at env c w : a_cursor (storeCursor env c w) = c.
Proof. unfold storeCursor. destruct (ae_enabled env); simpl; [|done]. destruct (encode_cursor c), (ae_persist env); done. Qed.
Lemma log_event_cursor env event domain details w : a_cursor (log_event env event domain details w) = a_cursor w.
Proof. done. Qed.
Lemma commit_cursor env text done w :
  LastDomain (a_cursor (commit_prefix env text done w)) = if String.eqb (last_done done) "" then LastDomain (a_cursor w) else last_done done.
Proof. unfold commit_prefix. destruct (String.eqb _ _); [done|]. by rewrite store_cursor_at. Qed.
Lemma last_done_names done : last_done done = default "" (last (fst <$> done)).
Proof. unfold last_done. by rewrite fmap_last. Qed.
Lemma query_page cfg env t last rows page : (0 < MinOccurrences cfg)%Z → (0 < MaxPerCycle cfg)%Z →
  QuerySuspiciousDomainsPage true (ae_query env) (t - Lookback cfg) t (MinOccurrences cfg) (MaxPerCycle cfg) last rows = Ok page →
  CDomain <$> page = take (Z.to_nat (MaxPerCycle cfg)) (remaining last (window_names cfg t rows)).
Proof.
  intros Hm Hp. unfold QuerySuspiciousDomainsPage. simpl. destruct (ae_query env); [done|].
  rewrite (proj2 (Z.leb_gt _ _) Hm), (proj2 (Z.leb_gt _ _) Hp). intros [= <-]. rewrite fmap_take. f_equal.
  unfold remaining, window_names. destruct (String.eqb last ""); [done|]. by rewrite <- fmap_filter.
Qed.

(** The cycle ended the window. *)
Definition window_closed (err : option string) (w : AuditWorld) : bool :=
  bool_decide (err = None) && String.eqb (LastDomain (a_cursor w)) "".
Lemma last_of_app (A B : list string) : B ≠ [] → default "" (last (A ++ B)) = default "" (last B).
Proof. intros Hb. rewrite last_app. destruct (last B) eqn:Hl; [done|]. by apply last_None in Hl. Qed.
Lemma last_not_empty (B L : list string) : B ≠ [] → (∀ x, x ∈ B → x ∈ L) → "" ∉ L → default "" (last B) ≠ "".
Proof.
  intros Hb Hin Hn. destruct B as [|x B _] using rev_ind; [done|]. rewrite last_snoc. simpl. intros ->.
  apply Hn, Hin, elem_of_app. right. by left.
Qed.
(** The cursor after an interrupted page. *)
Lemma commit_at env text done w A B1 (L : list string) :
  fst <$> done = B1 → LastDomain (a_cursor w) = default "" (last A) → "" ∉ L → (∀ x, x ∈ B1 → x ∈ L) →
  LastDomain (a_cursor (commit_prefix env text done w)) = default "" (last (A ++ B1)).
Proof.
  intros Hd Hc Hn Hin. rewrite commit_cursor, last_done_names, Hd, Hc. destruct (decide (B1 = [])) as [->|Hb].
  { by rewrite app_nil_r. }
  rewrite last_of_app by done. by destruct (String.eqb_spec (default "" (last B1)) "") as [He|];
    [apply (last_not_empty B1 L) in He|].
Qed.
Lemma cycle_progress cfg env w w' done err t text A B : let L := window_names cfg t (a_rows w) in
  (0 < MinOccurrences cfg)%Z → (0 < MaxPerCycle cfg)%Z → ae_enabled env = true →
  audit_window cfg env (a_cursor w) = Ok (t, text) → "" ∉ L → L = (A ++ B)%list →
  LastDomain (a_cursor w) = default "" (last A) → Run cfg env w = (w', done, err) →
  ∃ B2, B = ((fst <$> done) ++ B2)%list ∧
    if window_closed err w' then B2 = [] else LastDomain (a_cursor w') = default "" (last (A ++ (fst <$> done))).
Proof.
  intros L Hm Hp Hen Hwin Hn HL Hlast. unfold Run. rewrite Hen, Hwin. simpl.
  assert (remaining (LastDomain (a_cursor w)) L = B) as Hrem
    by (rewrite Hlast; apply remaining_prefix; [apply window_sorted|done|done]).
  destruct (QuerySuspiciousDomainsPage _ _ _ _ _ _ _ _) as [page|e] eqn:Hq.
  2: { intros [= <- <- <-]. exists B. split; [done|]. unfold window_closed. simpl. by rewrite app_nil_r. }
  apply query_page in Hq; [|done..]. fold L in Hq. rewrite Hrem in Hq.
  destruct page as [|dc page].
  { intros [= <- <- <-]. exists B. split; [done|]. unfold window_closed. rewrite store_cursor_at. simpl.
    destruct B as [|b B]; [done|]. destruct (Z.to_nat (MaxPerCycle cfg)) eqn:Hz; [lia|done]. }
  destruct (audit_page cfg env (dc :: page) [] w) as [[w1 done1] pe] eqn:Hpg. apply page_prefix in Hpg as [Hcur (k & Hk & Hdone)].
  change (fst <$> done1 = take k (CDomain <$> dc :: page)) in Hk.
  rewrite Hq, take_take in Hk. set (n := Nat.min k (Z.to_nat (MaxPerCycle cfg))) in *.
  assert (∀ x, x ∈ take n B → x ∈ L) as Hin.
  { intros x Hx. rewrite HL. apply elem_of_app. right. eapply elem_of_sublist; [exact Hx|]. apply sublist_take. }
  assert (B = ((fst <$> done1) ++ drop n B)%list) as HB by (rewrite Hk; by rewrite take_drop).
  assert (LastDomain (a_cursor w1) = default "" (last A)) as Hl1 by (by rewrite Hcur).
  destruct pe as [| |m].
  - specialize (Hdone eq_refl). assert (length (dc :: page) = length (take (Z.to_nat (MaxPerCycle cfg)) B)) as Hlen
      by (rewrite <- Hq; by rewrite length_fmap).
    rewrite length_take in Hlen. intros [= <- <- <-]. exists (drop n B). split; [done|].
    assert (last_done done1 ≠ "") as Hne.
    { rewrite last_done_names, Hk. eapply last_not_empty; [|exact Hin|done]. intros Hnil.
      apply (f_equal length) in Hnil. rewrite length_take in Hnil. simpl in *. lia. }
    simpl length in Hlen. destruct (Z.of_nat (S (length page)) <? MaxPerCycle cfg)%Z eqn:Hfull; bool_simpl; unfold window_closed;
      rewrite log_event_cursor, store_cursor_at; simpl LastDomain.
    + simpl. apply drop_ge. subst n. simpl length in Hdone. lia.
    + destruct (String.eqb_spec (last_done done1) "") as [|_]; [done|]. rewrite andb_false_r. rewrite last_of_app, last_done_names; [done|].
      intros Hnil. apply Hne. by rewrite last_done_names, Hnil.
  - intros [= <- <- <-]. exists (drop n B). split; [done|]. unfold window_closed. simpl.
    eapply commit_at; [done|done|exact Hn|]. by rewrite Hk.
  - intros [= <- <- <-]. exists (drop n B). split; [done|]. unfold window_closed. simpl.
    eapply commit_at; [done|done|exact Hn|]. by rewrite Hk.
Qed.

(** The cycles of one frozen window: from a cursor at its start, as long as the cursor
    stays in it and the telemetry gives it the names [L]; the rest of the world may change
    between cycles.  The cursor, the names audited so far, whether the window is closed. *)
Inductive window_history (cfg : AuditConfig) (t : Z) (text : string) (L : list string)
    : auditCursorState → list string → bool → Prop :=
| wh_start c : LastDomain c = "" → window_history cfg t text L c [] false
| wh_cycle c audited env w w' done err :
    window_history cfg t text L c audited false → a_cursor w = c → ae_enabled env = true →
    audit_window cfg env c = Ok (t, text) → window_names cfg t (a_rows w) = L → Run cfg env w = (w', done, err) →
    window_history cfg t text L (a_cursor w') (audited ++ (fst <$> done)) (window_closed err w').

(** C30: A frozen window is audited name by name, in the order of the names: the names its
    cycles have audited, however many there were and whatever failed or was cancelled in
    between, are those up to the cursor, each once, so a failure neither skips a name nor
    repeats one; and a window is closed only when every name in it has been audited. *)
Theorem audit_window_exactly_once cfg t text L c audited closed :
  (0 < MinOccurrences cfg)%Z → (0 < MaxPerCycle cfg)%Z → "" ∉ L → window_history cfg t text L c audited closed →
  ∃ rest, L = (audited ++ rest)%list ∧ (closed = true → rest = []) ∧
    (closed = false → LastDomain c = default "" (last audited)).
Proof.
  intros Hm Hp Hn Hh. induction Hh as [c Hc|c audited env w w' done err Hh IH Hcur Hen Hwin HL Hrun].
  - exists L. done.
  - destruct IH as (B & HB & _ & Hlast). specialize (Hlast eq_refl). subst c.
    assert ("" ∉ window_names cfg t (a_rows w)) as Hn' by (by rewrite HL).
    destruct (cycle_progress cfg env w w' done err t text audited B Hm Hp Hen Hwin Hn' ltac:(congruence) Hlast Hrun)
      as (B2 & HB2 & Hcl).
    exists B2. split; [by rewrite HB, HB2, app_assoc|]. destruct (window_closed err w'); done.
Qed.

(** ** Scores *)

(** Weak metadata alone never makes a finding: when a certificate is only mismatched or
    fresh and the registration scores below thirty, the name is safe, the AI is not asked,
    and nothing is proposed. *)
Lemma advisory_contained cfg domain tls whois ai :
  (TLSScore tls <= AdvisoryScore tls)%Z → (WhoisScore whois < 30)%Z →
  enforceable cfg (assess_domain domain (tls, whois) ai).1 = false.
Proof.
  intros Ht Hw. assert (agentScore tls whois < 40)%Z as Hs.
  { unfold agentScore, maxAgentAdvisoryPromotion. repeat case_match; bool_simpl; lia. }
  assert (interim_verdict (agentScore tls whois) = VerdictSafe) as Hv.
  { unfold interim_verdict. rewrite (proj2 (Z.leb_gt _ _)) by lia. by rewrite (proj2 (Z.ltb_lt _ _) Hs). }
  unfold assess_domain, enforceable. cbn [fst snd]. rewrite Hv. done.
Qed.

(** ** The cache of a blocked name *)

(** The keys of a name are exactly those its invalidation removes. *)
Lemma invalidation_exact io domain keys keys' : invalidateAnalysisCache io domain keys = (keys', None) →
  ∀ key, key ∈ keys' ↔ key ∈ keys ∧ key ≠ analysisCachePrefix ++ domain ∧ variant_key domain key = false.
Proof.
  unfold invalidateAnalysisCache. destruct (cache_enabled io); [|done]. simpl. destruct (_ || _); [done|].
  destruct (delete_error io); [done|]. destruct (scan_error io); [done|]. intros [= <-] key.
  rewrite elem_of_filter, elem_of_difference, elem_of_singleton. tauto.
Qed.
End Spec.

(** ** Concrete cycles *)

Module Examples.
#[local] Instance ex_tables : UnicodeTables := ascii_tables.
#[local] Instance ex_services : HostServices := two_label_services.
#[local] Existing Instance GroupsSpec.Examples.ex_sort.
#[local] Instance ex_civil : CivilTime := ProposalsSpec.Examples.ex_civil.
#[local] Instance ex_sql : SqlTime := ProposalsSpec.Examples.ex_sql.
#[local] Instance ex_parse : ProposalTexts :=
  {| parse_rfc3339 s := if String.eqb s "W" then Some (500000 * second_ns)%Z else if String.eqb s "later" then Some (900000 * second_ns)%Z else None;
     encode_reasons := λ l, Join l ","; decode_reasons := λ s, Ok (Split s ",") |}.
#[local] Instance ex_texts : AuditTexts :=
  {| block_reason _ _ := "agent: auto-block"; block_details _ _ := "{}"; review_details _ := "{}";
     proposal_evidence _ _ _ _ := Ok "{}"; proposal_details _ _ := "{}"; summary_details _ := "{}";
     encode_cursor _ := None; decode_cursor _ := None |}.
Definition cfg (auto : bool) : AuditConfig := audit_defaults (mkAuditConfig 1 2 f_zero 0 0 auto 0).
Definition bad_tls : TLSResult := mkTLS true false true true false 0 false 75 30 ["tls: expired"].
Definition moment (signals : TLSResult * WhoisResult) : DomainEnv :=
  mkDomainEnv (ProposalsSpec.Examples.at_second 500010 None) (λ _, None) signals (λ _, None) (mkCacheIO true None None (λ _, false)) (λ _ s, s).
Definition cycle (cancelled : string) (signals : TLSResult * WhoisResult) : AuditEnv :=
  mkAuditEnv true (500010 * second_ns) (500010 * second_ns) (500020 * second_ns) None None (λ _, moment signals)
    (String.eqb cancelled) (ProposalsSpec.Examples.at_second 500020 None).
Definition calm : TLSResult * WhoisResult := (no_tls [], mkWhois 0 []).
Definition row (d : string) : TelemetryRow := mkTelemetry d "SUSPICIOUS" "499990Z".
Definition world : AuditWorld :=
  mkAudit (empty_queue ProposalsSpec.Examples.no_policy) [row "c.com"; row "a.com"; row "b.com"; row "a.com"] ∅
    {["safe-zone:analysis:a.com:model:7"; "safe-zone:analysis:xa.com"]} (mkCursor 1 "W" "").
Definition L : list string := ["a.com"; "b.com"; "c.com"].
Definition after1 := Run (cfg false) (cycle "b.com" calm) world.
Definition after2 := Run (cfg false) (cycle "" calm) after1.1.1.
Definition after3 := Run (cfg false) (cycle "" calm) after2.1.1.
Lemma triple {A B C} (x : A * B * C) : x = (x.1.1, x.1.2, x.2).
Proof. by destruct x as [[? ?] ?]. Qed.
(** Cancelled at the second name, then a full page, then the end of the window. *)
Lemma audit_window_exactly_once_witness :
  L = ((([] ++ (fst <$> after1.1.2)) ++ (fst <$> after2.1.2)) ++ (fst <$> after3.1.2))%list ∧
  fst <$> after1.1.2 = ["a.com"].
Proof.
  split; [|vm_compute; reflexivity].
  destruct (audit_window_exactly_once (cfg false) (500000 * second_ns)%Z "W" L (a_cursor after3.1.1)
    ((([] ++ (fst <$> after1.1.2)) ++ (fst <$> after2.1.2)) ++ (fst <$> after3.1.2))%list
    (window_closed after3.2 after3.1.1)) as (rest & HL & Hclosed & _).
  - done.
  - done.
  - intros Hin. unfold L in Hin. rewrite !elem_of_cons in Hin. destruct Hin as [?|[?|[?|Hin]]]; [done..|by apply not_elem_of_nil in Hin].
  - apply (wh_cycle _ _ _ _ (a_cursor after2.1.1) _ (cycle "" calm) after2.1.1 after3.1.1 after3.1.2 after3.2).
    + assert (false = window_closed after2.2 after2.1.1) as -> by (vm_compute; reflexivity).
      apply (wh_cycle _ _ _ _ (a_cursor after1.1.1) _ (cycle "" calm) after1.1.1 after2.1.1 after2.1.2 after2.2).
      * assert (false = window_closed after1.2 after1.1.1) as -> by (vm_compute; reflexivity).
        apply (wh_cycle _ _ _ _ (a_cursor world) _ (cycle "b.com" calm) world after1.1.1 after1.1.2 after1.2);
          [by apply wh_start|reflexivity|reflexivity|vm_compute; reflexivity|vm_compute; reflexivity|apply triple].
      * reflexivity.
      * reflexivity.
      * vm_compute; reflexivity.
      * vm_compute; reflexivity.
      * apply triple.
    + reflexivity.
    + reflexivity.
    + vm_compute; reflexivity.
    + vm_compute; reflexivity.
    + apply triple.
  - rewrite Hclosed in HL by (vm_compute; reflexivity). by rewrite app_nil_r in HL.
Defined.
(** A bad certificate is proposed; with enforcement it is blocked, and its cached answers go. *)
Definition bad : AuditEnv := cycle "" (bad_tls, mkWhois 25 ["whois: new"]).
Definition seen (w : AuditWorld) : list (string * string) * option string * list string :=
  ((λ r, (row_domain r, row_status r)) <$> proposal_rows (a_store w),
   OAction <$> local_overrides (policy_tables (a_store w)) !! "a.com", elements (a_keys w)).
Example proposes : (Run (cfg false) bad world).1.2 = [("a.com", AProposed); ("b.com", AProposed)] ∧
  (seen (Run (cfg false) bad world).1.1).1 = ([("a.com", "pending"); ("b.com", "pending")], None).
Proof. split; vm_compute; reflexivity. Qed.
Example enforces : seen (Run (cfg true) bad world).1.1 = ([], Some "block", ["safe-zone:analysis:xa.com"]).
Proof. vm_compute. reflexivity. Qed.
(** An operator allows the name while the lookups of its audit run: the finding overwrites
    the override. *)
Definition allow_meanwhile : DomainEnv :=
  let e := moment (bad_tls, mkWhois 25 ["whois: new"]) in
  mkDomainEnv (d_env e) (d_lookup e) (d_signals e) (d_ai e) (d_cache e)
    (λ n s, if n =? 2 then set_policy (operator_write (PutOverride ProposalsSpec.Examples.works "a.com" "allow" "trusted") (policy_tables s)) s
            else s).
Example operator_overwritten :
  local_overrides (policy_tables (d_others allow_meanwhile 2 (a_store world))) !! "a.com" = Some (mkOverride "a.com" "allow" "trusted") ∧
  let '(w', out) := auditDomain (cfg true) allow_meanwhile "a.com" world in
  out = Ok ABlocked ∧ (OAction <$> local_overrides (policy_tables (a_store w')) !! "a.com") = Some "block".
Proof. split; vm_compute; [reflexivity|done]. Qed.
(** A cursor older than the lookback skips what lies between its end and the new window. *)
Example window_gap :
  audit_window (cfg false) (mkAuditEnv true (600000 * second_ns) (600000 * second_ns) 0 None None (λ _, moment calm)
                              (λ _, false) (ProposalsSpec.Examples.at_second 0 None)) (mkCursor 1 "W" "")
    = Ok (600000 * second_ns, time_text (600000 * second_ns))%Z ∧
  (500000 * second_ns < 600000 * second_ns - Lookback (cfg false))%Z.
Proof. split; vm_compute; reflexivity. Qed.
End Examples.
