(* ===== verification/Alert.v ===== *)
(** * The agent's alert task: [internal/agent/alert.go]

    Pages of agent events behind a persisted keyset cursor, delivered through the
    configured channels.  The replies of the channels, failing statements and what other
    writers append between two pages are inputs; the bodies of the messages and the JSON
    of the cursor are left to the senders' inputs and to a class. *)

From Stdlib Require Import ZArith Lia Ascii String.
From stdpp Require Import sorting pretty.
From S2P Require Import Prelude GoStr Hostname GoFloat EditDist Confusables Brand AgentLog.

Record AlertConfig := mkAlertConfig {
  WebhookURL : string; MinEvents : Z; AlertTimeout : Z;
  TelegramEnabled : bool; TelegramToken : string; TelegramChatID : string;
  SlackEnabled : bool; SlackWebhookURL : string;
  EmailEnabled : bool; EmailSMTPHost : string; EmailSMTPPort : Z; EmailSMTPUsername : string; EmailFrom : string;
  EmailPassword : string; EmailTo : string
}.
Record alertCursorState := mkAlertCursor { AlertVersion : Z; AlertCreatedAt : string; AlertID : Z }.
Definition alertCursorVersion : Z := 1.
Definition alertCursorConfigKey : string := "agent_alert_cursor".
Definition alertEventPageSize : Z := 100.
Definition alertMaxPagesPerCycle : nat := 20.
Definition alert_types : list string := ["auto_block"; "feed_error"].
Definition alert_defaults (cfg : AlertConfig) : AlertConfig :=
  mkAlertConfig (WebhookURL cfg) (if (MinEvents cfg <=? 0)%Z then 1%Z else MinEvents cfg)
    (if (AlertTimeout cfg <=? 0)%Z then (10 * 1000000000)%Z else AlertTimeout cfg) (TelegramEnabled cfg) (TelegramToken cfg)
    (TelegramChatID cfg) (SlackEnabled cfg) (SlackWebhookURL cfg) (EmailEnabled cfg) (EmailSMTPHost cfg) (EmailSMTPPort cfg)
    (if String.eqb (EmailSMTPUsername cfg) "" then EmailFrom cfg else EmailSMTPUsername cfg) (EmailFrom cfg)
    (EmailPassword cfg) (EmailTo cfg).

(** ** Critical spoofs *)

Record SpoofResult := mkSpoof {
  SpoofDomain : string; SpoofBrand : string; SpoofOfficial : string; SpoofCategory : string; SpoofReason : string
}.
Definition govBrands : list (string * string) :=
  [("chinhphu", "chinhphu.vn"); ("bocongan", "bocongan.gov.vn"); ("baohiemxahoi", "baohiemxahoi.gov.vn"); ("vtv", "vtv.vn")].
Definition bankBrands : list (string * string) :=
  [("vietcombank", "vietcombank.com.vn"); ("techcombank", "techcombank.com.vn"); ("bidv", "bidv.com.vn");
   ("vietinbank", "vietinbank.vn"); ("mbbank", "mbbank.com.vn"); ("agribank", "agribank.com.vn"); ("vpbank", "vpbank.com.vn");
   ("acb", "acb.com.vn"); ("sacombank", "sacombank.com.vn"); ("tpbank", "tpb.vn"); ("vib", "vib.com.vn"); ("hdbank", "hdbank.com.vn");
   ("shb", "shb.com.vn"); ("scb", "scb.com.vn")].
(** The order of a map's iteration: some permutation. *)
Class BrandOrder := { brand_order : list (string * string) → list (string * string); brand_order_perm l : brand_order l ≡ₚ l }.

Section Spoofs.
Context `{UnicodeTables, RuneTables, IdnaLib, BrandOrder}.
Definition isBrandMatch (reasonText brandName : string) : bool :=
  let r := ToLower reasonText in
  let b := ToLower brandName in
  Contains r ("of " ++ b ++ " brand") || Contains r ("keyword (" ++ b ++ ")") || Contains r ("subdomain usage (" ++ b ++ ")").
Definition spoof_of (domain reason category : string) (brands : list (string * string)) : option SpoofResult :=
  (λ b, mkSpoof domain b.1 b.2 category reason) <$> List.find (λ b, isBrandMatch reason b.1) (brand_order brands).
Definition detectVietnamBrandSpoof (domain : string) : option SpoofResult :=
  match CheckBrandSpoofing domain 30 with
  | None => None
  | Some (reason, _) =>
      match spoof_of domain reason "Cơ quan Nhà nước Việt Nam" govBrands with
      | Some s => Some s
      | None => spoof_of domain reason "Ngân hàng Việt Nam" bankBrands
      end
  end.
End Spoofs.

(** ** Channels *)

(** The outcome of a POST to an address (the status, or the client's error) and of an SMTP
    dialogue. *)
Record AlertNet := mkNet { http_post : string → result Z; smtp_dialogue : option string }.
Definition send_http (net : AlertNet) (channel url : string) : option string :=
  match http_post net url with
  | Err e => Some (channel ++ " http post: " ++ e)
  | Ok status => if (status <? 200)%Z || (300 <=? status)%Z then Some (channel ++ " returned HTTP " ++ pretty status) else None
  end.
Definition sendWebhook (net : AlertNet) (webhookURL : string) : option string := send_http net "webhook" webhookURL.
Definition sendTelegram (cfg : AlertConfig) (net : AlertNet) : option string :=
  if String.eqb (TelegramToken cfg) "" || String.eqb (TelegramChatID cfg) "" then Some "invalid telegram configuration"
  else send_http net "telegram" ("https://api.telegram.org/bot" ++ TelegramToken cfg ++ "/sendMessage").
Definition sendSlack (cfg : AlertConfig) (net : AlertNet) : option string :=
  if String.eqb (SlackWebhookURL cfg) "" then Some "invalid slack configuration" else send_http net "slack" (SlackWebhookURL cfg).
Definition sendSMTP (port : Z) (net : AlertNet) : option string :=
  if (port =? 465)%Z || (port =? 587)%Z then smtp_dialogue net else Some "unsupported smtp port".
Definition sendEmail (cfg : AlertConfig) (net : AlertNet) : option string :=
  if String.eqb (EmailSMTPHost cfg) "" || (EmailSMTPPort cfg <=? 0)%Z || String.eqb (EmailFrom cfg) "" || String.eqb (EmailTo cfg) ""
     || String.eqb (EmailSMTPUsername cfg) "" || String.eqb (EmailPassword cfg) ""
  then Some "invalid smtp configuration"
  else match sendSMTP (EmailSMTPPort cfg) net with Some e => Some ("smtp send mail: " ++ e) | None => None end.
Record Channels := mkChannels { hasWebhook : bool; hasTelegram : bool; hasSlack : bool; hasEmail : bool }.
(** The channels run in parallel and are all waited for; their failures are listed here in
    a fixed order. *)
Definition deliverPage (cfg : AlertConfig) (net : AlertNet) (webhookURL : string) (critical : list SpoofResult) (ch : Channels)
    : list string :=
  let urgent := match critical with [] => false | _ => true end in
  omap id [if hasWebhook ch then sendWebhook net webhookURL else None;
           if urgent && hasTelegram ch then sendTelegram cfg net else None;
           if urgent && hasSlack ch then sendSlack cfg net else None;
           if urgent && hasEmail ch then sendEmail cfg net else None].

(** ** The cycle *)

(** The log, the cursor in memory, and the stored one as its text. *)
Record AlertWorld := mkAlert { al_log : EventLog; al_cursor : alertCursorState; al_stored : option string }.
Class AlertTexts := {
  encode_alert : alertCursorState → option string;
  decode_alert : string → option alertCursorState;
  failed_details : Z → list string → string;
  sent_details : Z → nat → string
}.
(** The moment of a page: its query, its channels, whether the cursor can be stored, the
    insert of the event, and what others appended to the log in the meantime. *)
Record PageEnv := mkPageEnv {
  pg_query : option string; pg_net : AlertNet; pg_persist : option string; pg_event : option string; pg_now : Z;
  pg_others : EventLog → EventLog
}.
(** [custom]: the configured address in the store, when it can be read. *)
Record AlertEnv := mkAlertEnv {
  al_enabled : bool; al_custom : option string; al_count : option string; al_page : nat → PageEnv
}.
(** The cursor of a new task: what was raised before is not alerted. *)
Definition start_cursor (now : string) : alertCursorState := mkAlertCursor alertCursorVersion now 0.

Section Cycle.
Context `{UnicodeTables, RuneTables, IdnaLib, BrandOrder, SqlTime, AlertTexts}.

Definition load_alert_cursor (failing : option string) (w : AlertWorld) : AlertWorld :=
  match failing, al_stored w with
  | None, Some raw =>
      match decode_alert raw with
      | Some c =>
          if (AlertVersion c =? alertCursorVersion)%Z && negb (String.eqb (AlertCreatedAt c) "")
          then mkAlert (al_log w) c (al_stored w) else w
      | None => w
      end
  | _, _ => w
  end.
Definition advanceCursor (failing : option string) (last : AgentEvent) (w : AlertWorld) : AlertWorld :=
  let c := mkAlertCursor alertCursorVersion (EvCreatedAt last) (EvID last) in
  match encode_alert c, failing with
  | Some encoded, None => mkAlert (al_log w) c (Some encoded)
  | _, _ => mkAlert (al_log w) c (al_stored w)
  end.
Definition alert_event (p : PageEnv) (event details : string) (w : AlertWorld) : AlertWorld :=
  mkAlert (recordAgentEventBestEffort true (pg_event p) (pg_now p) "alert" event "" details (al_log w)) (al_cursor w) (al_stored w).
Definition critical_of (events : list AgentEvent) : list SpoofResult :=
  omap (λ e, if String.eqb (EvType e) "auto_block" then detectVietnamBrandSpoof (EvDomain e) else None) events.
Definition fetch_page (p : PageEnv) (w : AlertWorld) : result (list AgentEvent) :=
  QueryAgentEventsPage true (pg_query p) (AlertCreatedAt (al_cursor w)) (AlertID (al_cursor w)) alert_types alertEventPageSize (al_log w).
Definition others (p : PageEnv) (w : AlertWorld) : AlertWorld := mkAlert (pg_others p (al_log w)) (al_cursor w) (al_stored w).
(** The loop over the pages, of which [pages] are left; the pages delivered, and the error. *)
Fixpoint alert_pages (cfg : AlertConfig) (url : string) (ch : Channels) (env : AlertEnv) (page pages : nat) (w : AlertWorld)
    : AlertWorld * list (list AgentEvent) * option string :=
  match pages with
  | 0 => (w, [], None)
  | S pages =>
      let p := al_page env page in
      match fetch_page p w with
      | Err e => (w, [], Some ("query agent events page: " ++ e))
      | Ok events =>
          match last events with
          | None => (w, [], None)
          | Some final =>
              let w := others p w in
              match deliverPage cfg (pg_net p) url (critical_of events) ch with
              | [] =>
                  let w := alert_event p "alert_sent" (sent_details (EvID final) (length events)) (advanceCursor (pg_persist p) final w) in
                  if (Z.of_nat (length events) <? alertEventPageSize)%Z then (w, [events], None)
                  else
                    let '(w, delivered, e) := alert_pages cfg url ch env (S page) pages w in (w, events :: delivered, e)
              | failures => (alert_event p "alert_failed" (failed_details (EvID final) failures) w, [], Some ("send alert failures: " ++ String.concat "; " failures))
              end
          end
      end
  end.
Definition webhook_of (cfg : AlertConfig) (env : AlertEnv) : string :=
  match al_custom env with
  | Some custom => if al_enabled env && negb (String.eqb custom "") then custom else WebhookURL cfg
  | None => WebhookURL cfg
  end.
Definition channels_of (cfg : AlertConfig) (env : AlertEnv) : Channels :=
  mkChannels (negb (String.eqb (TrimSpace (webhook_of cfg env)) "")) (TelegramEnabled cfg) (SlackEnabled cfg) (EmailEnabled cfg).
Definition alert_run (cfg : AlertConfig) (env : AlertEnv) (w : AlertWorld) : AlertWorld * list (list AgentEvent) * option string :=
  let ch := channels_of cfg env in
  if negb (hasWebhook ch) && negb (hasTelegram ch) && negb (hasSlack ch) && negb (hasEmail ch) then (w, [], None)
  else if negb (al_enabled env) then (w, [], None)
  else match CountAgentEventsAfter true (al_count env) (AlertCreatedAt (al_cursor w)) (AlertID (al_cursor w)) alert_types (al_log w) with
  | Err e => (w, [], Some ("count pending agent events: " ++ e))
  | Ok pending =>
      if (pending <? MinEvents cfg)%Z then (w, [], None)
      else alert_pages cfg (webhook_of cfg env) ch env 0 alertMaxPagesPerCycle w
  end.
End Cycle.
