(* ===== verification/AlertSpec.v ===== *)
(** * Theorems about the alert task: [Alert]

    At least once: what the cursor has passed was in a page every configured channel took,
    or was skipped by a restart that found no readable cursor. *)

From Stdlib Require Import ZArith Lia Ascii String.
From stdpp Require Import sorting pretty relations.
From S2P Require Import Prelude GoStr Hostname NetIP GoFloat EditDist Confusables Brand BrandSpec Groups GroupsSpec Feed DomainML Session URLFeedback URLFeedbackSpec URLTableSpec AgentLog Alert.

(** ** Keys *)

Lemma not_after_key c i e : after_key c i e = false ↔
  String.ltb (EvCreatedAt e) c = true ∨ (EvCreatedAt e = c ∧ (EvID e <= i)%Z).
Proof.
  unfold after_key. split.
  - intros Ha. apply orb_false_iff in Ha as [Hl Hr]. apply ltb_ge in Hl as [He|Hl]; [right|by left].
    split; [congruence|]. apply andb_false_iff in Hr as [Hr|Hr]; [apply String.eqb_neq in Hr; congruence|]. by apply Z.ltb_ge.
  - intros [Hl|[He Hi]]; apply orb_false_iff.
    + assert (EvCreatedAt e ≠ c) as Hn by (intros He; rewrite He, ltb_irrefl in Hl; done).
      split; [apply ltb_ge; by right|]. by rewrite (proj2 (String.eqb_neq _ _) Hn).
    + split; [rewrite He; apply ltb_irrefl|]. rewrite (proj2 (Z.ltb_ge _ _) Hi). apply andb_false_r.
Qed.
(** At or before, as texts. *)
Definition upto (a b : string) : Prop := String.ltb b a = false.
Lemma upto_refl a : upto a a.
Proof. apply ltb_irrefl. Qed.
Lemma upto_trans a b c : upto a b → upto b c → upto a c.
Proof. unfold upto. rewrite !ltb_ge. intros [->|Hab] [->|Hbc]; [by left|by right..|]. right. by eapply ltb_trans. Qed.
(** A key within a clock and a counter comes before every later row. *)
Lemma later_row c i clock seq e : upto c clock → (i <= seq)%Z → upto clock (EvCreatedAt e) → (seq < EvID e)%Z →
  after_key c i e = true.
Proof.
  intros Hc Hi Ht Hid. destruct (after_key c i e) eqn:Ha; [done|]. apply not_after_key in Ha.
  assert (upto c (EvCreatedAt e)) as Hu by by eapply upto_trans. unfold upto in Hu. destruct Ha as [Ha|[_ Ha]]; [congruence|lia].
Qed.
#[local] Instance key_before_trans : Transitive key_before.
Proof.
  intros a b c Hab Hbc. unfold key_before in *.
  apply orb_true_iff in Hab as [Hab|Hab]; apply orb_true_iff in Hbc as [Hbc|Hbc]; apply orb_true_iff.
  - left. by eapply ltb_trans.
  - apply andb_true_iff in Hbc as [He _]. apply String.eqb_eq in He. left. by rewrite <- He.
  - apply andb_true_iff in Hab as [He _]. apply String.eqb_eq in He. left. by rewrite He.
  - right. apply andb_true_iff in Hab as [Ha Hia], Hbc as [Hb Hib]. apply String.eqb_eq in Ha, Hb. rewrite Ha, Hb, String.eqb_refl.
    apply Z.leb_le. lia.
Qed.
#[local] Instance key_before_total : Total key_before.
Proof.
  intros a b. unfold key_before. destruct (String.ltb (EvCreatedAt a) (EvCreatedAt b)) eqn:Hab; [by left|].
  apply ltb_ge in Hab as [He|Hba]; [|right; by rewrite Hba].
  rewrite He, String.eqb_refl, ltb_irrefl. simpl. destruct (Z.leb_spec (EvID b) (EvID a)); [by right|].
  left. apply Z.leb_le. lia.
Qed.
Lemma key_before_not_after a b : key_before a b → after_key (EvCreatedAt b) (EvID b) a = false.
Proof.
  unfold key_before. intros Hk. apply not_after_key. apply orb_true_iff in Hk as [Hk|Hk]; [by left|right].
  apply andb_true_iff in Hk as [He Hi]. apply String.eqb_eq in He. split; [done|]. by apply Z.leb_le.
Qed.
(** What is not after the last of a page of the sorted rows is in the page, ids being unique. *)
Lemma page_takes (l : list AgentEvent) n final e : StronglySorted key_before l →
  (∀ a b, a ∈ l → b ∈ l → EvID a = EvID b → a = b) → last (take n l) = Some final → e ∈ l →
  after_key (EvCreatedAt final) (EvID final) e = false → e ∈ take n l.
Proof.
  intros Hs Hu Hlast He Ha. rewrite <- (take_drop n l) in He. apply elem_of_app in He as [He|He]; [done|].
  assert (final ∈ take n l) as Hf by (apply last_Some in Hlast as [l' ->]; apply elem_of_app; right; by left).
  assert (key_before final e) as Hk.
  { rewrite <- (take_drop n l) in Hs. by eapply StronglySorted_app_1_elem_of. }
  apply not_after_key in Ha. unfold key_before in Hk. apply orb_true_iff in Hk as [Hk|Hk].
  - exfalso. destruct Ha as [Ha|[Ha _]]; [|rewrite Ha, ltb_irrefl in Hk; done].
    pose proof (ltb_trans _ _ _ Hk Ha) as Hc. by rewrite ltb_irrefl in Hc.
  - apply andb_true_iff in Hk as [Heq Hi]. apply String.eqb_eq in Heq. apply Z.leb_le in Hi.
    destruct Ha as [Ha|[_ Ha]]; [rewrite Heq, ltb_irrefl in Ha; done|].
    assert (e = final) as ->; [|done]. apply Hu; [|by eapply elem_of_sublist, sublist_take|lia].
    eapply elem_of_sublist; [exact He|]. apply sublist_drop.
Qed.

(** ** The log under a clock *)

Record log_ok (log : EventLog) (clock : string) : Prop := {
  lo_time e : e ∈ log_rows log → upto (EvCreatedAt e) clock;
  lo_seq e : e ∈ log_rows log → (EvID e <= log_seq log)%Z;
  lo_ids a b : a ∈ log_rows log → b ∈ log_rows log → EvID a = EvID b → a = b;
  lo_pos : (0 <= log_seq log)%Z
}.
Section Log.
Context `{SqlTime}.
(** Inserts under a clock that does not run backwards, and retention. *)
Inductive log_step : EventLog * string → EventLog * string → Prop :=
| log_insert failing now task event domain details log clock : upto clock (sql_text now) →
    log_step (log, clock) (recordAgentEventBestEffort true failing now task event domain details log, sql_text now)
| log_sweep failing cutoff log clock : log_step (log, clock) (cleanup_events failing cutoff log, clock).
Definition new_rows (log log' : EventLog) (clock : string) : Prop :=
  (log_seq log <= log_seq log')%Z ∧
  ∀ e, e ∈ log_rows log' → e ∈ log_rows log ∨ (upto clock (EvCreatedAt e) ∧ (log_seq log < EvID e)%Z).
Lemma record_cases failing now task event domain details log :
  let log' := recordAgentEventBestEffort true failing now task event domain details log in
  log' = log ∨ log' = mkLog (log_rows log ++ [mkEvent (log_seq log + 1) task event domain details (sql_text now)])%list (log_seq log + 1).
Proof. unfold recordAgentEventBestEffort, RecordAgentEvent. simpl. destruct failing; [by left|by right]. Qed.
Lemma log_step_ok a b : log_step a b → log_ok a.1 a.2 → log_ok b.1 b.2 ∧ upto a.2 b.2 ∧ new_rows a.1 b.1 a.2.
Proof.
  intros Hs Hok. destruct Hs as [failing now task event domain details log clock Hc|failing cutoff log clock]; simpl in *.
  - destruct Hok as [Ht Hq Hi Hp]. destruct (record_cases failing now task event domain details log) as [->| ->].
    + split; [split|split; [done|split; [lia|by left]]]; try done. intros e He. eapply upto_trans; [by apply Ht|done].
    + assert (∀ e, e ∈ (log_rows log ++ [mkEvent (log_seq log + 1) task event domain details (sql_text now)])%list →
        e ∈ log_rows log ∨ e = mkEvent (log_seq log + 1) task event domain details (sql_text now)) as Hin
        by (intros e; by rewrite elem_of_app, list_elem_of_singleton).
      split; [split; simpl|split; [done|split; simpl; [lia|]]].
      * intros e [He| ->]%Hin; [eapply upto_trans; [by apply Ht|done]|apply upto_refl].
      * intros e [He| ->]%Hin; simpl; [specialize (Hq e He)|]; lia.
      * intros a b [Ha| ->]%Hin [Hb| ->]%Hin Hab; [by apply Hi| | |done]; simpl in Hab.
        -- specialize (Hq a Ha). lia.
        -- specialize (Hq b Hb). lia.
      * lia.
      * intros e [He| ->]%Hin; [by left|right]. simpl. split; [done|lia].
  - assert (∀ e, e ∈ log_rows (cleanup_events failing cutoff log) → e ∈ log_rows log) as Hin.
    { intros e. unfold cleanup_events. destruct failing; [done|]. simpl. rewrite list_elem_of_filter. tauto. }
    assert (log_seq (cleanup_events failing cutoff log) = log_seq log) as Hseq by by destruct failing.
    destruct Hok as [Ht Hq Hi Hp]. split; [split|split; [apply upto_refl|split; [lia|]]]; rewrite ?Hseq; auto.
Qed.
Lemma log_steps_ok a b : rtc log_step a b → log_ok a.1 a.2 → log_ok b.1 b.2 ∧ upto a.2 b.2 ∧ new_rows a.1 b.1 a.2.
Proof.
  induction 1 as [a|a b c Hab _ IH]; intros Hok.
  - split; [done|]. split; [apply upto_refl|]. split; [lia|by left].
  - destruct (log_step_ok a b Hab Hok) as (Hb & Hu & Hs1 & Hr1). destruct (IH Hb) as (Hc & Hu' & Hs2 & Hr2).
    split; [done|]. split; [by eapply upto_trans|]. split; [lia|]. intros e He.
    destruct (Hr2 e He) as [He'|[Ht Hid]]; [by apply Hr1|]. right. split; [by eapply upto_trans|lia].
Qed.
End Log.

(** ** The invariant *)

Definition alertable (e : AgentEvent) : bool := type_selected alert_types e.
Definition past (c : alertCursorState) (e : AgentEvent) : bool := negb (after_key (AlertCreatedAt c) (AlertID c) e).
(** The starts that could not read the stored cursor: the position before, the one they took. *)
Definition Skips : Type := list (alertCursorState * alertCursorState).
Definition skipped (skips : Skips) (e : AgentEvent) : Prop :=
  ∃ c c', (c, c') ∈ skips ∧ past c e = false ∧ past c' e = true.
Definition handled (skips : Skips) (sent : list AgentEvent) (e : AgentEvent) : Prop := e ∈ sent ∨ skipped skips e.
Lemma handled_more skips sent skips' sent' e :
  handled skips sent e → handled (skips ++ skips')%list (sent ++ sent')%list e.
Proof.
  intros [He|(c & c' & Hin & Hc)]; [left; apply elem_of_app; by left|right]. exists c, c'. split; [|done]. apply elem_of_app. by left.
Qed.
(** Up to the cursor [c], everything alertable since [b0] that is in the log was sent, or skipped by such a start. *)
Record covered (b0 : alertCursorState) (skips : Skips) (log : EventLog) (clock : string) (c : alertCursorState) (sent : list AgentEvent) : Prop := {
  cv_time : upto (AlertCreatedAt c) clock;
  cv_id : (AlertID c <= log_seq log)%Z;
  cv_sent e : e ∈ log_rows log → alertable e = true → past b0 e = false → past c e = true → handled skips sent e
}.
Lemma covered_grows b0 skips log log' clock clock' c sent :
  covered b0 skips log clock c sent → new_rows log log' clock → upto clock clock' → covered b0 skips log' clock' c sent.
Proof.
  intros [Ht Hi Hs] [Hseq Hrows] Hc. split; [by eapply upto_trans|lia|]. intros e He Ha Hb Hp.
  destruct (Hrows e He) as [He'|[Hte Hie]]; [by apply Hs|]. unfold past in Hp.
  by rewrite (later_row _ _ _ _ _ Ht Hi Hte Hie) in Hp.
Qed.
Lemma covered_more b0 skips log clock c sent skips' more :
  covered b0 skips log clock c sent → covered b0 (skips ++ skips')%list log clock c (sent ++ more)%list.
Proof. intros [Ht Hi Hs]. split; [done..|]. intros. apply handled_more. by apply Hs. Qed.
Lemma covered_sent b0 skips log clock c sent more :
  covered b0 skips log clock c sent → covered b0 skips log clock c (sent ++ more)%list.
Proof. intros Hc. apply (covered_more _ _ _ _ _ _ [] more) in Hc. by rewrite app_nil_r in Hc. Qed.
Lemma covered_start log clock now : upto now clock → (0 <= log_seq log)%Z → covered (start_cursor now) [] log clock (start_cursor now) [].
Proof. intros Hn Hs. split; [done..|]. intros e _ _ Hb Hp. congruence. Qed.

Section Spec.
Context `{UnicodeTables, RuneTables, IdnaLib, BrandOrder, SqlTime, AlertTexts}.
(** The JSON of a cursor reads back. *)
Class AlertLaws := { alert_roundtrip c raw : encode_alert c = Some raw → decode_alert raw = Some c }.
Context `{!AlertLaws}.

Record alert_ok (b0 : alertCursorState) (skips : Skips) (w : AlertWorld) (clock : string) (sent : list AgentEvent) : Prop := {
  ao_log : log_ok (al_log w) clock;
  ao_cursor : covered b0 skips (al_log w) clock (al_cursor w) sent;
  ao_stored raw c : al_stored w = Some raw → decode_alert raw = Some c → covered b0 skips (al_log w) clock c sent
}.
Lemma ok_grows b0 skips w clock sent log' clock' : alert_ok b0 skips w clock sent → rtc log_step (al_log w, clock) (log', clock') →
  alert_ok b0 skips (mkAlert log' (al_cursor w) (al_stored w)) clock' sent.
Proof.
  intros [Hl Hc Hs] Hr. destruct (log_steps_ok _ _ Hr Hl) as (Hl' & Hu & Hn). simpl in *.
  split; [done|by eapply covered_grows|]. intros raw c Hraw Hdec. eapply covered_grows; [by eapply Hs|done..].
Qed.
Lemma ok_event b0 skips w clock sent p event details : alert_ok b0 skips w clock sent → upto clock (sql_text (pg_now p)) →
  alert_ok b0 skips (alert_event p event details w) (sql_text (pg_now p)) sent.
Proof.
  intros Hok Hu. pose proof (ok_grows b0 skips w clock sent
    (recordAgentEventBestEffort true (pg_event p) (pg_now p) "alert" event "" details (al_log w)) (sql_text (pg_now p)) Hok) as Hg.
  apply Hg. apply rtc_once. by apply log_insert.
Qed.
(** A page that was sent: the cursor may move to its last row. *)
Lemma page_covered b0 skips w clock sent p events final log' clock' :
  alert_ok b0 skips w clock sent → fetch_page p w = Ok events → last events = Some final →
  rtc log_step (al_log w, clock) (log', clock') →
  covered b0 skips log' clock' (mkAlertCursor alertCursorVersion (EvCreatedAt final) (EvID final)) (sent ++ events)%list.
Proof.
  intros [Hl Hc Hs] Hf Hlast Hr. destruct (log_steps_ok _ _ Hr Hl) as (Hl' & Hu & Hn). simpl in *.
  unfold fetch_page, QueryAgentEventsPage in Hf. simpl in Hf. destruct (pg_query p); [done|]. injection Hf as <-.
  set (pending := pending_events _ _ _ _) in *. set (rows := merge_sort key_before pending) in *.
  assert (∀ e, e ∈ rows ↔ e ∈ log_rows (al_log w) ∧ past (al_cursor w) e = false ∧ alertable e = true) as Hrows.
  { intros e. unfold rows. rewrite merge_sort_Permutation. unfold pending, pending_events. rewrite list_elem_of_filter.
    unfold past, alertable. split.
    - intros [Hp He]. rewrite Is_true_true in Hp. apply andb_true_iff in Hp as [-> ->]. done.
    - intros (He & Ha & ->). apply negb_false_iff in Ha. rewrite Ha. done. }
  assert (final ∈ rows) as Hfin.
  { apply last_Some in Hlast as [l' Hl2]. eapply elem_of_sublist; [|apply sublist_take]. erewrite Hl2. apply elem_of_app. right. by left. }
  assert (covered b0 skips (al_log w) clock (mkAlertCursor alertCursorVersion (EvCreatedAt final) (EvID final))
            (sent ++ take (Z.to_nat alertEventPageSize) rows)) as Hcov; [|by eapply covered_grows].
  apply Hrows in Hfin as (Hfl & _ & _). split; simpl; [by apply (lo_time _ _ Hl)|by apply (lo_seq _ _ Hl)|].
  intros e He Ha Hb Hp. destruct (past (al_cursor w) e) eqn:Hpc.
  { destruct (cv_sent _ _ _ _ _ _ Hc e He Ha Hb Hpc) as [Hin|Hin]; [left; apply elem_of_app; by left|by right]. }
  left. apply elem_of_app. right.
  eapply page_takes; [|..|exact Hlast| |].
  - apply StronglySorted_merge_sort; apply _.
  - intros a b Ha' Hb'. apply (lo_ids _ _ Hl); by apply Hrows.
  - by apply Hrows.
  - unfold past in Hp. simpl in Hp. by apply negb_true_iff in Hp.
Qed.
Lemma advance_ok b0 skips w clock sent p events final log' clock' persist :
  alert_ok b0 skips w clock sent → fetch_page p w = Ok events → last events = Some final →
  rtc log_step (al_log w, clock) (log', clock') →
  alert_ok b0 skips (advanceCursor persist final (mkAlert log' (al_cursor w) (al_stored w))) clock' (sent ++ events)%list.
Proof.
  intros Hok Hf Hlast Hr. pose proof (page_covered _ _ _ _ _ _ _ _ _ _ Hok Hf Hlast Hr) as Hp.
  pose proof (ok_grows _ _ _ _ _ _ _ Hok Hr) as [Hl Hc Hs]. simpl in *. unfold advanceCursor.
  destruct (encode_alert _) as [encoded|] eqn:Henc; [destruct persist|]; (split; simpl; [done|done|]).
  - intros raw c Hraw Hdec. apply covered_sent. by eapply Hs.
  - intros raw c [= <-] Hdec. rewrite (alert_roundtrip _ _ Henc) in Hdec. by injection Hdec as <-.
  - intros raw c Hraw Hdec. apply covered_sent. by eapply Hs.
Qed.

(** *** A cycle in time *)

(** The clocks of a cycle: before each page, and after others have appended to the log. *)
Record timely (env : AlertEnv) (before middle : nat → string) : Prop := {
  ty_others k log : rtc log_step (log, before k) (pg_others (al_page env k) log, middle k);
  ty_event k : upto (middle k) (sql_text (pg_now (al_page env k)));
  ty_next k : before (S k) = sql_text (pg_now (al_page env k))
}.
Lemma log_steps_clock a b : rtc log_step a b → upto a.2 b.2.
Proof.
  induction 1 as [a|a b c Hab _ IH]; [apply upto_refl|]. eapply upto_trans; [|exact IH]. destruct Hab; [done|apply upto_refl].
Qed.
Lemma before_mono env before middle k n : timely env before middle → upto (before k) (before (n + k)%nat).
Proof.
  intros [Ho He Hn]. induction n as [|n IH]; [apply upto_refl|]. eapply upto_trans; [exact IH|]. simpl. rewrite Hn.
  eapply upto_trans; [|apply He]. apply (log_steps_clock _ _ (Ho (n + k)%nat empty_log)).
Qed.
Lemma ok_clock b0 skips w clock clock' sent : alert_ok b0 skips w clock sent → upto clock clock' → alert_ok b0 skips w clock' sent.
Proof.
  intros [[Ht Hq Hi Hz] Hc Hs] Hu.
  assert (∀ c, covered b0 skips (al_log w) clock c sent → covered b0 skips (al_log w) clock' c sent) as Hcov.
  { intros c [? ? ?]. split; [by eapply upto_trans|done..]. }
  split; [split; [|done..]|by apply Hcov|]. { intros e He. eapply upto_trans; [by apply Ht|done]. }
  intros raw c Hraw Hdec. apply Hcov. by eapply Hs.
Qed.
Lemma pages_ok cfg url ch env before middle b0 skips n : timely env before middle → ∀ k w sent,
  alert_ok b0 skips w (before k) sent →
  let '(w', pages, _) := alert_pages cfg url ch env k n w in
  alert_ok b0 skips w' (before (n + k)%nat) (sent ++ concat pages)%list.
Proof.
  intros Hty. induction n as [|n IH]; intros k w sent Hok; simpl; [by rewrite app_nil_r|].
  assert (alert_ok b0 skips w (before (S (n + k))) sent) as Hstay by (eapply ok_clock; [done|by apply (before_mono env before middle k (S n))]).
  destruct (fetch_page (al_page env k) w) as [events|m] eqn:Hf; [|by rewrite app_nil_r].
  destruct (last events) as [final|] eqn:Hlast; [|by rewrite app_nil_r].
  pose proof (ty_others _ _ _ Hty k (al_log w)) as Hoth.
  assert (upto (before (S k)) (before (S (n + k)))) as Hlater by (rewrite <- Nat.add_succ_r; by eapply before_mono).
  destruct (deliverPage _ _ _ _ _) as [|f fs].
  - pose proof (advance_ok _ _ _ _ _ _ _ _ _ _ (pg_persist (al_page env k)) Hok Hf Hlast Hoth) as Hadv.
    eapply (ok_event _ _ _ _ _ (al_page env k) "alert_sent" (sent_details (EvID final) (length events))) in Hadv;
      [|by eapply ty_event]. rewrite <- (ty_next _ _ _ Hty) in Hadv.
    destruct (_ <? _)%Z; [simpl; rewrite app_nil_r; by eapply ok_clock|].
    specialize (IH (S k) _ _ Hadv). fold (others (al_page env k) w) in IH. unfold others in *.
    destruct (alert_pages _ _ _ _ _ _ _) as [[w' pages] e]. simpl. rewrite app_assoc. by rewrite Nat.add_succ_r in IH.
  - simpl. rewrite app_nil_r. eapply ok_clock; [|exact Hlater]. rewrite (ty_next _ _ _ Hty).
    eapply ok_event; [exact (ok_grows _ _ _ _ _ _ _ Hok Hoth)|by eapply ty_event].
Qed.

(** ** Histories *)

(** The cursor a start finds: stored, read, decoded, of this version and with a time. *)
Definition readable (failing : option string) (stored : option string) : option alertCursorState :=
  match failing, stored with
  | None, Some raw => c ← decode_alert raw;
      if (AlertVersion c =? alertCursorVersion)%Z && negb (String.eqb (AlertCreatedAt c) "") then Some c else None
  | _, _ => None
  end.
Lemma load_readable failing w : load_alert_cursor failing w =
  match readable failing (al_stored w) with Some c => mkAlert (al_log w) c (al_stored w) | None => w end.
Proof.
  unfold load_alert_cursor, readable. destruct failing; [done|]. destruct (al_stored w) as [raw|] eqn:Hw; [|done].
  destruct (decode_alert raw) as [c|]; [simpl|done]. by destruct (_ && _).
Qed.
Lemma readable_stored failing stored c : readable failing stored = Some c → ∃ raw, stored = Some raw ∧ decode_alert raw = Some c.
Proof.
  unfold readable. destruct failing; [done|]. destruct stored as [raw|]; [|done]. destruct (decode_alert raw) as [c'|] eqn:Hd; [simpl|done].
  destruct (_ && _); [|done]. intros [= ->]. by exists raw.
Qed.
(** What a restart at [now] adds to the skipping starts: nothing when it reads the stored cursor. *)
Definition fallback (failing : option string) (w : AlertWorld) (now : string) : Skips :=
  match readable failing (al_stored w) with Some _ => [] | None => [(al_cursor w, start_cursor now)] end.

(** A first start, other writers and retention, cycles in time, and restarts, whatever is
    stored and whether or not it can be read; the clock, the starts that fell back to the
    current position, and everything that was sent. *)
Inductive alert_history (cfg : AlertConfig) (b0 : alertCursorState) :
    AlertWorld → string → Skips → list AgentEvent → Prop :=
| ah_start log now : log_ok log now → b0 = start_cursor now →
    alert_history cfg b0 (mkAlert log b0 None) now [] []
| ah_log w clock skips sent log' clock' : alert_history cfg b0 w clock skips sent →
    log_step (al_log w, clock) (log', clock') →
    alert_history cfg b0 (mkAlert log' (al_cursor w) (al_stored w)) clock' skips sent
| ah_run w clock skips sent env before middle w' pages err : alert_history cfg b0 w clock skips sent →
    timely env before middle → before 0 = clock → alert_run cfg env w = (w', pages, err) →
    alert_history cfg b0 w' (before alertMaxPagesPerCycle) skips (sent ++ concat pages)%list
| ah_restart w clock skips sent failing now : alert_history cfg b0 w clock skips sent → upto clock now →
    alert_history cfg b0 (load_alert_cursor failing (mkAlert (al_log w) (start_cursor now) (al_stored w))) now
      (skips ++ fallback failing w now)%list sent.
Lemma run_ok cfg b0 skips w env before middle sent : timely env before middle → alert_ok b0 skips w (before 0) sent →
  let '(w', pages, _) := alert_run cfg env w in alert_ok b0 skips w' (before alertMaxPagesPerCycle) (sent ++ concat pages)%list.
Proof.
  intros Hty Hok. pose proof (pages_ok cfg (webhook_of cfg env) (channels_of cfg env) env before middle b0 skips alertMaxPagesPerCycle
    Hty 0 w sent Hok) as Hp. rewrite Nat.add_0_r in Hp.
  assert (alert_ok b0 skips w (before alertMaxPagesPerCycle) (sent ++ concat [])%list) as Hstay.
  { simpl. rewrite app_nil_r. eapply ok_clock; [exact Hok|]. pose proof (before_mono env before middle 0 alertMaxPagesPerCycle Hty) as Hm.
    by rewrite Nat.add_0_r in Hm. }
  unfold alert_run. destruct (_ && _); [done|]. destruct (negb (al_enabled env)); [done|].
  destruct (CountAgentEventsAfter _ _ _ _ _ _); [|done]. destruct (_ <? _)%Z; [done|exact Hp].
Qed.
Lemma restart_ok b0 skips w clock sent failing now : alert_ok b0 skips w clock sent → upto clock now →
  alert_ok b0 (skips ++ fallback failing w now)%list
    (load_alert_cursor failing (mkAlert (al_log w) (start_cursor now) (al_stored w))) now sent.
Proof.
  intros Hok Hu. destruct (ok_clock _ _ _ _ _ _ Hok Hu) as [Hl Hc Hs]. rewrite load_readable. simpl. unfold fallback.
  destruct (readable failing (al_stored w)) as [c|] eqn:Hr.
  - rewrite app_nil_r. apply readable_stored in Hr as (raw & Hraw & Hdec). split; [done|by eapply Hs|exact Hs].
  - split; simpl; [done| |].
    + split; [apply upto_refl|exact (lo_pos _ _ Hl)|]. intros e He Ha Hb Hp. destruct (past (al_cursor w) e) eqn:Hpc.
      * rewrite <- (app_nil_r sent). apply handled_more. by apply (cv_sent _ _ _ _ _ _ Hc).
      * right. exists (al_cursor w), (start_cursor now). split; [apply elem_of_app; right; by left|done].
    + intros raw c Hraw Hdec. rewrite <- (app_nil_r sent). apply covered_more. by eapply Hs.
Qed.
Lemma history_ok cfg b0 w clock skips sent : alert_history cfg b0 w clock skips sent → alert_ok b0 skips w clock sent.
Proof.
  induction 1 as [log now Hl ->|w clock skips sent log' clock' _ IH Hs|w clock skips sent env before middle w' pages err _ IH Hty Hb Hrun|
                  w clock skips sent failing now _ IH Hu].
  - split; [done|by apply covered_start; [apply upto_refl|apply (lo_pos _ _ Hl)]|done].
  - eapply ok_grows; [done|]. by apply rtc_once.
  - subst clock. pose proof (run_ok cfg b0 skips w env before middle sent Hty IH) as Hr. by rewrite Hrun in Hr.
  - eapply restart_ok; [exact IH|exact Hu].
Qed.
Lemma history_starts cfg b0 w clock skips sent : alert_history cfg b0 w clock skips sent →
  ∀ c c', (c, c') ∈ skips → ∃ now, c' = start_cursor now.
Proof.
  induction 1 as [| | |w clock skips sent failing now _ IH _]; intros c c' Hin; [by apply not_elem_of_nil in Hin|by eauto..|].
  apply elem_of_app in Hin as [Hin|Hin]; [by eapply IH|]. unfold fallback in Hin.
  destruct (readable _ _); [by apply not_elem_of_nil in Hin|]. apply list_elem_of_singleton in Hin. injection Hin as _ ->. by exists now.
Qed.
Lemma pages_sent cfg url ch env n : ∀ k w,
  let '(_, pages, _) := alert_pages cfg url ch env k n w in
  ∀ j page, pages !! j = Some page → deliverPage cfg (pg_net (al_page env (k + j)%nat)) url (critical_of page) ch = [].
Proof.
  induction n as [|n IH]; intros k w; simpl; [done|].
  destruct (fetch_page _ w) as [events|]; [|done]. destruct (last events) as [final|]; [|done].
  destruct (deliverPage cfg (pg_net (al_page env k)) url (critical_of events) ch) as [|f fs] eqn:Hd; [|done].
  assert (deliverPage cfg (pg_net (al_page env (k + 0)%nat)) url (critical_of events) ch = []) as H0' by (by rewrite Nat.add_0_r).
  destruct (_ <? _)%Z.
  - intros [|j] page Hj; [|done]. injection Hj as <-. done.
  - match goal with |- context [alert_pages cfg url ch env (S k) n ?w1] => specialize (IH (S k) w1); destruct (alert_pages cfg url ch env (S k) n w1) as [[w' pages] e] end.
    intros [|j] page Hj; [by injection Hj as <-|]. specialize (IH j page Hj). by rewrite Nat.add_succ_r.
Qed.

(** C31: At least once: in every history of the alert task, through failed pages, cursors that
    could not be stored, restarts, other writers and retention, under a clock that does not
    run backwards: every event of the alerted kinds raised since the first start that is
    behind the cursor and still in the log was in a page the task sent, or was skipped by a
    start that found no readable cursor (none was stored yet, the read failed, or the text
    was not a cursor of this version) and took the current time for its position, the event
    lying between the position before and that one. When every restart read the stored
    cursor, every such event was sent. And a page counts as sent only when no channel that
    had to take it failed. *)
Theorem alert_at_least_once cfg b0 w clock skips sent :
  alert_history cfg b0 w clock skips sent →
  (∀ e, e ∈ log_rows (al_log w) → alertable e = true → past b0 e = false → past (al_cursor w) e = true →
     (e ∈ sent ∨ ∃ before now, (before, start_cursor now) ∈ skips ∧ past before e = false ∧ past (start_cursor now) e = true) ∧
     (skips = [] → e ∈ sent)) ∧
  (∀ env w0, let '(_, pages, _) := alert_run cfg env w0 in
     ∀ j page, pages !! j = Some page →
       deliverPage cfg (pg_net (al_page env j)) (webhook_of cfg env) (critical_of page) (channels_of cfg env) = []).
Proof.
  intros Hh. split.
  { intros e He Ha Hb Hp. pose proof (history_ok _ _ _ _ _ _ Hh) as [_ [_ _ Hs] _]. destruct (Hs e He Ha Hb Hp) as [Hin|(c & c' & Hin & Hc & Hc')].
    - split; [by left|done].
    - split; [right|by intros ->; apply not_elem_of_nil in Hin]. destruct (history_starts _ _ _ _ _ _ Hh _ _ Hin) as [now ->]. by exists c, now. }
  intros env w0. unfold alert_run.
  destruct (_ && _); [done|]. destruct (negb (al_enabled env)); [done|].
  destruct (CountAgentEventsAfter _ _ _ _ _ _); [|done]. destruct (_ <? _)%Z; [done|].
  apply (pages_sent cfg (webhook_of cfg env) (channels_of cfg env) env alertMaxPagesPerCycle 0 w0).
Qed.
End Spec.

(** ** Concrete cycles *)

Module Examples.
#[local] Instance ex_tables : UnicodeTables := ascii_tables.
#[local] Instance ex_order : BrandOrder := {| brand_order l := l; brand_order_perm l := Permutation_refl l |}.
#[local] Instance ex_time : SqlTime := {| sql_text t := pretty t; sql_datetime _ := None |}.
#[local] Existing Instance BrandSpec.Examples.ex_runes.
#[local] Existing Instance BrandSpec.Examples.ex_idna.
(** Only cursors of the first event can be encoded here. *)
#[local] Instance ex_alert : AlertTexts :=
  {| encode_alert c := if (AlertVersion c =? 1)%Z && (AlertID c =? 1)%Z then Some (AlertCreatedAt c) else None;
     decode_alert raw := Some (mkAlertCursor 1 raw 1); failed_details _ _ := "{}"; sent_details _ _ := "{}" |}.
#[local] Instance ex_laws : AlertLaws.
Proof.
  split. intros [v t i] raw. simpl. destruct (Z.eqb_spec v 1) as [->|]; [|done]. destruct (Z.eqb_spec i 1) as [->|]; [|done].
  by intros [= <-].
Qed.
Definition cfg : AlertConfig := alert_defaults (mkAlertConfig "https://hook.example/x" 0 0 false "" "" false "" false "" 0 "" "" "" "").
Definition net (status : Z) : AlertNet := mkNet (λ _, Ok status) None.
Definition page (status : Z) : PageEnv := mkPageEnv None (net status) None None 20 id.
Definition env (status : Z) : AlertEnv := mkAlertEnv true None None (λ _, page status).
Definition b0 : alertCursorState := start_cursor "10".
Definition raised : EventLog := recordAgentEventBestEffort true None 20 "feed" "feed_error" "" "{}" empty_log.
Definition waiting : AlertWorld := mkAlert raised b0 None.
Definition error_event : AgentEvent := mkEvent 1 "feed" "feed_error" "" "{}" "20".
(** A refused page leaves the cursor; an accepted one moves it past the event. *)
Example refused : al_cursor (alert_run cfg (env 500) waiting).1.1 = b0 ∧ (alert_run cfg (env 500) waiting).1.2 = [].
Proof. split; vm_compute; reflexivity. Qed.
Example accepted : al_cursor (alert_run cfg (env 204) waiting).1.1 = mkAlertCursor 1 "20" 1 ∧
  (alert_run cfg (env 204) waiting).1.2 = [[error_event]].
Proof. split; vm_compute; reflexivity. Qed.
Lemma waiting_history : alert_history cfg b0 waiting "20" [] [].
Proof.
  apply (ah_log cfg b0 (mkAlert empty_log b0 None) "10" [] [] raised "20").
  - apply ah_start; [|done]. split; simpl; [intros * Hin; by apply not_elem_of_nil in Hin..|done].
  - exact (log_insert None 20 "feed" "feed_error" "" "{}" empty_log "10" eq_refl).
Qed.
Definition still (k : nat) : string := "20".
Lemma in_time : timely (env 204) still still.
Proof. split; intros; [apply rtc_refl|done|done]. Qed.
Lemma alert_at_least_once_witness : error_event ∈ ([] ++ concat (alert_run cfg (env 204) waiting).1.2)%list.
Proof.
  destruct (alert_at_least_once cfg b0 (alert_run cfg (env 204) waiting).1.1 "20" [] ([] ++ concat (alert_run cfg (env 204) waiting).1.2)%list) as [Hsent _].
  - apply (ah_run cfg b0 waiting "20" [] [] (env 204) still still _ _ (alert_run cfg (env 204) waiting).2);
      [exact waiting_history|exact in_time|done|by destruct (alert_run cfg (env 204) waiting) as [[? ?] ?]].
  - apply Hsent; [|vm_compute; reflexivity..|reflexivity]. assert (log_rows (al_log (alert_run cfg (env 204) waiting).1.1)
      = [error_event; mkEvent 2 "alert" "alert_sent" "" "{}" "20"]) as -> by (vm_compute; reflexivity). by left.
Defined.
(** A task that has sent nothing yet has stored nothing: its restart starts after the
    events that were waiting, which are then never sent. *)
Example restart_skips :
  al_cursor (load_alert_cursor None (mkAlert raised (start_cursor "30") (al_stored (alert_run cfg (env 500) waiting).1.1)))
    = start_cursor "30" ∧
  past (start_cursor "30") error_event = true ∧ (alert_run cfg (env 500) waiting).1.2 = [] ∧
  past b0 error_event = false.
Proof. split_and!; vm_compute; reflexivity. Qed.
(** A stored cursor that cannot be read is passed over in the same way. *)
Example failed_load_skips c : al_cursor (load_alert_cursor (Some "disk I/O error") (mkAlert raised (start_cursor "30") (Some c))) = start_cursor "30".
Proof. done. Qed.
End Examples.
