(* ===== verification/WhitelistStore.v ===== *)
(** * The stored allow list: [internal/store/whitelist.go] and
    [internal/store/whitelist_snapshot.go]

    The table of names with its durable revision, the guarded replacement of the whole
    table in one transaction, and the rollback copies.  Which statement fails is an
    input, and so are the environment's floors and the order in which SQLite delivers
    rows. *)

From Stdlib Require Import ZArith Lia Ascii String.
From stdpp Require Import pretty.
From S2P Require Import Prelude GoStr Hostname NetIP GoFloat Whitelist Feed FeedSync DomainML ConfigReload AdblockLists AgentLog.

Definition whitelistRevisionKey : string := "whitelist_revision".
Definition defaultWhitelistMinAbsolute : Z := 100.
Definition defaultWhitelistMinRelative : Z := 50.
Definition MaxWhitelistSnapshots : nat := 3.
Definition whitelistInsertChunkSize : nat := 500.

Record WhitelistSnapshot := mkSnapshot {
  SnapID : Z; SnapCreatedAt : string; SnapSource : string; EntryCount : Z; SnapSHA256 : string;
  SnapDomains : list string
}.
(** A row of [whitelist_snapshots]: the names are one text. *)
Record SnapshotRow := mkSnapshotRow {
  snap_id : Z; snap_created : string; snap_source : string; snap_count : Z; snap_sha256 : string; snap_blob : string
}.
(** [whitelist_domains], the revision row of [system_config], the snapshots in the order
    of their ids with the [AUTOINCREMENT] counter, and the event log. *)
Record AllowStore := mkAllowStore {
  allow_rows : gset string; allow_revision : option string;
  snapshots : list SnapshotRow; snapshot_seq : Z; allow_log : EventLog
}.
Definition empty_allow_store : AllowStore := mkAllowStore ∅ None [] 0 empty_log.
Definition set_allow (rows : gset string) (revision : string) (s : AllowStore) : AllowStore :=
  mkAllowStore rows (Some revision) (snapshots s) (snapshot_seq s) (allow_log s).
Definition set_snapshots (snaps : list SnapshotRow) (seq : Z) (s : AllowStore) : AllowStore :=
  mkAllowStore (allow_rows s) (allow_revision s) snaps seq (allow_log s).
Definition set_allow_log (l : EventLog) (s : AllowStore) : AllowStore :=
  mkAllowStore (allow_rows s) (allow_revision s) (snapshots s) (snapshot_seq s) l.

Inductive AllowError :=
| AllowDisabled | ErrWhitelistBelowFloor (detail : string) | AllowFailed (message : string)
| ErrWhitelistSnapshotNotFound | ErrWhitelistSnapshotEmpty (id : Z) | ErrWhitelistSnapshotCorrupt (id : Z).
Definition allow_text (e : AllowError) : string :=
  match e with
  | AllowDisabled => "sqlite store disabled"
  | ErrWhitelistBelowFloor detail => "whitelist import below safety floor: " ++ detail
  | AllowFailed message => message
  | ErrWhitelistSnapshotNotFound => "whitelist snapshot not found"
  | ErrWhitelistSnapshotEmpty id => "whitelist snapshot is empty: snapshot " ++ pretty id ++ " has no entries"
  | ErrWhitelistSnapshotCorrupt id =>
      "whitelist snapshot failed verification: snapshot " ++ pretty id ++ " no longer matches its digest or entry count"
  end.
Inductive AllowStatement :=
| ACount | ABegin | ADelete | AInsert (start : nat) | ARevisionRead | ARevisionWrite | ACommit | ARevisionGet
| AStream | AContains | ASnapInsert | ASnapId | ASnapPrune | ASnapLatest | ASnapList | ASnapGet | ASnapCount
| ALastRollback | AEvent.
(** The store's switch, [datetime('now')], the values of the two floors in the
    environment ([None] when unset or not a number), and the failing statements. *)
Record AllowEnv := mkAllowEnv {
  allow_enabled : bool; allow_now : Z; min_entries : option Z; min_percent : option Z;
  broken : AllowStatement → option string
}.
(** The order in which [SELECT domain FROM whitelist_domains] delivers its rows. *)
Class TableOrder := { stream_order : gset string → list string }.

(** ** Numbers *)

(** [strconv.FormatInt(v, 10)]; [int64] addition wraps ([wrap64]). *)
Definition FormatInt (v : Z) : string := if (v <? 0)%Z then "-" ++ dec_string (- v) else dec_string v.

Definition whitelistMinAbsolute (env : AllowEnv) : Z :=
  let value := default defaultWhitelistMinAbsolute (min_entries env) in if (value <? 0)%Z then 0%Z else value.
Definition whitelistMinRelative (env : AllowEnv) : Z :=
  let value := default defaultWhitelistMinRelative (min_percent env) in
  if (value <? 0)%Z then 0%Z else if (100 <? value)%Z then 100%Z else value.

Section Ops.
Context `{UnicodeTables, HostServices, FeedLibs, SqlTime, TableOrder}.

(** ** Reading *)

Definition GetWhitelistCount (env : AllowEnv) (s : AllowStore) : AllowError + Z :=
  if negb (allow_enabled env) then inl AllowDisabled
  else match broken env ACount with
  | Some e => inl (AllowFailed ("count whitelist domains: " ++ e))
  | None => inr (Z.of_nat (size (allow_rows s)))
  end.
(** A missing row reads as the empty text. *)
Definition GetWhitelistRevision (env : AllowEnv) (s : AllowStore) : AllowError + Z :=
  if negb (allow_enabled env) then inl AllowDisabled
  else match broken env ARevisionGet with
  | Some e => inl (AllowFailed e)
  | None =>
      let raw := TrimSpace (default "" (allow_revision s)) in
      if String.eqb raw "" then inr 0%Z
      else match ParseInt64 raw with
      | Some revision => if (revision <? 0)%Z then inl (AllowFailed "parse whitelist revision") else inr revision
      | None => inl (AllowFailed "parse whitelist revision")
      end
  end.
Definition IsDomainWhitelisted (env : AllowEnv) (domain : string) (s : AllowStore) : AllowError + bool :=
  if negb (allow_enabled env) then inl AllowDisabled
  else match broken env AContains with
  | Some e => inl (AllowFailed ("check whitelist domain " ++ domain ++ ": " ++ e))
  | None => inr (bool_decide (domain ∈ allow_rows s))
  end.
(** The callback is called row by row on what it accumulates; its error ends the walk. *)
Fixpoint stream_rows {A} (fn : string → A → result A) (rows : list string) (a : A) : result A :=
  match rows with
  | [] => Ok a
  | domain :: rows =>
      match fn domain a with
      | Err e => Err ("stream whitelist domain " ++ domain ++ ": " ++ e)
      | Ok a => stream_rows fn rows a
      end
  end.
Definition StreamWhitelist {A} (env : AllowEnv) (fn : string → A → result A) (s : AllowStore) (a : A) : result A :=
  if negb (allow_enabled env) then Ok a
  else match broken env AStream with
  | Some e => Err ("query whitelist domains: " ++ e)
  | None => stream_rows fn (stream_order (allow_rows s)) a
  end.
(** The callback of both callers. *)
Definition append_domain (domain : string) (domains : list string) : result (list string) :=
  Ok (domains ++ [domain])%list.
Definition GetWhitelist (env : AllowEnv) (s : AllowStore) : AllowError + list string :=
  if negb (allow_enabled env) then inl AllowDisabled
  else match broken env AStream with
  | Some e => inl (AllowFailed ("query whitelist domains: " ++ e))
  | None => inr (stream_order (allow_rows s))
  end.

(** What a load of the in-process index reads: the revision, the count and the rows,
    each in a statement of its own, at three moments. *)
Definition reply {A} (r : AllowError + A) : result A :=
  match r with inl e => Err (allow_text e) | inr a => Ok a end.
Definition load_reads (env : AllowEnv) (at_revision at_count at_rows : AllowStore) : option DBReads :=
  if allow_enabled env then
    Some (mkReads (reply (GetWhitelistRevision env at_revision)) (reply (GetWhitelistCount env at_count))
            (StreamWhitelist env append_domain at_rows []))
  else None.

(** ** Replacing the table *)

(** [buildWhitelistInsertQuery]: the arguments of the statement. *)
Definition buildWhitelistInsertQuery (domains : list string) : list string :=
  List.filter (λ domain, negb (String.eqb domain "")) domains.
(** [INSERT OR IGNORE], chunk by chunk; [fuel]: the number of names left is enough. *)
Fixpoint insert_chunks (env : AllowEnv) (fuel start : nat) (accepted : list string) (rows : gset string)
    : AllowError + gset string :=
  match fuel with
  | 0 => inr rows
  | S fuel =>
      if Nat.ltb start (length accepted) then
        let end_ := Nat.min (start + whitelistInsertChunkSize) (length accepted) in
        let args := buildWhitelistInsertQuery (take (end_ - start) (drop start accepted)) in
        match args with
        | [] => insert_chunks env fuel (start + whitelistInsertChunkSize) accepted rows
        | _ =>
            match broken env (AInsert start) with
            | Some e => inl (AllowFailed ("insert whitelist domains chunk: " ++ e))
            | None => insert_chunks env fuel (start + whitelistInsertChunkSize) accepted (rows ∪ list_to_set args)
            end
        end
      else inr rows
  end.
(** The new value of the revision row. *)
Definition bumpWhitelistRevision (env : AllowEnv) (s : AllowStore) : AllowError + Z :=
  match broken env ARevisionRead with
  | Some e => inl (AllowFailed ("read whitelist revision: " ++ e))
  | None =>
      match match allow_revision s with
            | None => Some 0%Z
            | Some raw => match ParseInt64 (TrimSpace raw) with
                          | Some current => if (current <? 0)%Z then None else Some current
                          | None => None
                          end
            end with
      | None => inl (AllowFailed "parse stored whitelist revision")
      | Some current =>
          match broken env ARevisionWrite with
          | Some e => inl (AllowFailed ("bump whitelist revision: " ++ e))
          | None => inr (wrap64 (current + 1))
          end
      end
  end.
(** The statements between [BeginTx] and the end; an error rolls all of them back. *)
Definition replace_tx (env : AllowEnv) (accepted : list string) (s : AllowStore) : AllowError + AllowStore :=
  match broken env ABegin with
  | Some e => inl (AllowFailed ("begin whitelist transaction: " ++ e))
  | None =>
      match broken env ADelete with
      | Some e => inl (AllowFailed ("delete old whitelist: " ++ e))
      | None =>
          match insert_chunks env (S (length accepted)) 0 accepted ∅ with
          | inl e => inl e
          | inr rows =>
              match bumpWhitelistRevision env s with
              | inl e => inl e
              | inr next =>
                  match broken env ACommit with
                  | Some e => inl (AllowFailed ("commit whitelist transaction: " ++ e))
                  | None => inr (set_allow rows (FormatInt next) s)
                  end
              end
          end
      end
  end.
(** The floors: [None] when the import may go on. *)
Definition below_floor (env : AllowEnv) (accepted dropped previous : Z) : option AllowError :=
  let minAbsolute := whitelistMinAbsolute env in
  let minRelative := whitelistMinRelative env in
  if (accepted <? minAbsolute)%Z then
    let reason := if (0 <? dropped)%Z then " (" ++ pretty dropped ++ " dropped: public suffix or no registrable label)" else "" in
    Some (ErrWhitelistBelowFloor ("source returned " ++ pretty accepted ++ " usable entries" ++ reason ++ ", floor is "
            ++ pretty minAbsolute ++ "; the live whitelist of " ++ pretty previous ++ " entries is unchanged"))
  else if (accepted * 100 <? previous * minRelative)%Z then
    Some (ErrWhitelistBelowFloor ("source returned " ++ pretty accepted ++ " entries, a drop from " ++ pretty previous
            ++ " (floor is " ++ pretty minRelative ++ "%); the live whitelist is unchanged"))
  else None.
Definition accepted_names (domains : list string) : list string := List.filter IsRegistrableDomain domains.
Definition updateWhitelist (env : AllowEnv) (domains : list string) (enforceFloor : bool) (s : AllowStore)
    : AllowStore * option AllowError :=
  if negb (allow_enabled env) then (s, Some AllowDisabled)
  else
    let accepted := accepted_names domains in
    let dropped := Z.of_nat (length domains - length accepted) in
    match GetWhitelistCount env s with
    | inl e => (s, Some (AllowFailed ("read current whitelist size before replace: " ++ allow_text e)))
    | inr previous =>
        match (if enforceFloor && (0 <? previous)%Z then below_floor env (Z.of_nat (length accepted)) dropped previous
               else None) with
        | Some e => (s, Some e)
        | None => match replace_tx env accepted s with inl e => (s, Some e) | inr s' => (s', None) end
        end
    end.
Definition UpdateWhitelist (env : AllowEnv) (domains : list string) : AllowStore → AllowStore * option AllowError :=
  updateWhitelist env domains true.
Definition RestoreWhitelist (env : AllowEnv) (domains : list string) : AllowStore → AllowStore * option AllowError :=
  updateWhitelist env domains false.

(** ** Rollback copies *)

Definition splitSnapshotDomains (blob : string) : list string :=
  if String.eqb blob "" then [] else List.filter (λ part, negb (String.eqb part "")) (Split blob linefeed).
Definition blob_digest (blob : string) : string := hex_string (sha256_sum blob).
(** All but the newest go; an error is logged. *)
Definition pruneWhitelistSnapshots (env : AllowEnv) (s : AllowStore) : AllowStore :=
  match broken env ASnapPrune with
  | Some _ => s
  | None => set_snapshots (drop (length (snapshots s) - MaxWhitelistSnapshots) (snapshots s)) (snapshot_seq s) s
  end.
Definition SaveWhitelistSnapshot (env : AllowEnv) (source : string) (domains : list string) (s : AllowStore)
    : AllowStore * (AllowError + Z) :=
  if negb (allow_enabled env) then (s, inl AllowDisabled)
  else
    let blob := Join domains linefeed in
    match broken env ASnapInsert with
    | Some e => (s, inl (AllowFailed ("insert whitelist snapshot: " ++ e)))
    | None =>
        let id := (snapshot_seq s + 1)%Z in
        let row := mkSnapshotRow id (sql_text (allow_now env)) source (Z.of_nat (length domains)) (blob_digest blob) blob in
        let s := set_snapshots (snapshots s ++ [row])%list id s in
        match broken env ASnapId with
        | Some e => (s, inl (AllowFailed ("whitelist snapshot id: " ++ e)))
        | None => (pruneWhitelistSnapshots env s, inr id)
        end
    end.
Definition scan_snapshot (r : SnapshotRow) : WhitelistSnapshot :=
  mkSnapshot (snap_id r) (snap_created r) (snap_source r) (snap_count r) (snap_sha256 r) (splitSnapshotDomains (snap_blob r)).
Definition LatestWhitelistSnapshot (env : AllowEnv) (s : AllowStore) : AllowError + WhitelistSnapshot :=
  if negb (allow_enabled env) then inl AllowDisabled
  else match broken env ASnapLatest with
  | Some e => inl (AllowFailed ("read latest whitelist snapshot: " ++ e))
  | None => match last (snapshots s) with Some r => inr (scan_snapshot r) | None => inl ErrWhitelistSnapshotNotFound end
  end.
(** Newest first, without the names. *)
Definition ListWhitelistSnapshots (env : AllowEnv) (s : AllowStore) : AllowError + list WhitelistSnapshot :=
  if negb (allow_enabled env) then inl AllowDisabled
  else match broken env ASnapList with
  | Some e => inl (AllowFailed ("list whitelist snapshots: " ++ e))
  | None => inr ((λ r, mkSnapshot (snap_id r) (snap_created r) (snap_source r) (snap_count r) (snap_sha256 r) [])
                   <$> rev (snapshots s))
  end.
Definition LatestWhitelistRollback (env : AllowEnv) (s : AllowStore) : AllowError + option AgentEvent :=
  if negb (allow_enabled env) then inl AllowDisabled
  else match broken env ALastRollback with
  | Some e => inl (AllowFailed ("read latest whitelist rollback: " ++ e))
  | None => inr (last (List.filter (λ e, String.eqb (EvTask e) "whitelist" && String.eqb (EvType e) "rollback") (log_rows (allow_log s))))
  end.
Definition snapshot_at (id : Z) (s : AllowStore) : option SnapshotRow :=
  List.find (λ r, (snap_id r =? id)%Z) (snapshots s).
Definition WhitelistSnapshotByID (env : AllowEnv) (id : Z) (s : AllowStore) : AllowError + WhitelistSnapshot :=
  if negb (allow_enabled env) then inl AllowDisabled
  else match broken env ASnapGet with
  | Some e => inl (AllowFailed ("read whitelist snapshot " ++ pretty id ++ ": " ++ e))
  | None => match snapshot_at id s with Some r => inr (scan_snapshot r) | None => inl ErrWhitelistSnapshotNotFound end
  end.
Definition restore_context (id : Z) (e : AllowError) : AllowError :=
  match e with
  | AllowFailed message => AllowFailed ("restore whitelist snapshot " ++ pretty id ++ ": " ++ message)
  | e => e
  end.
Definition RestoreWhitelistSnapshot (env : AllowEnv) (id : Z) (s : AllowStore) : AllowStore * (AllowError + Z) :=
  match WhitelistSnapshotByID env id s with
  | inl e => (s, inl e)
  | inr snapshot =>
      let entries := Z.of_nat (length (SnapDomains snapshot)) in
      if (EntryCount snapshot =? 0)%Z || (entries =? 0)%Z then (s, inl (ErrWhitelistSnapshotEmpty id))
      else
        let blob := Join (SnapDomains snapshot) linefeed in
        if negb (EntryCount snapshot =? entries)%Z || negb (EqualFold (SnapSHA256 snapshot) (blob_digest blob))
        then (s, inl (ErrWhitelistSnapshotCorrupt id))
        else match RestoreWhitelist env (SnapDomains snapshot) s with
        | (s, Some e) => (s, inl (restore_context id e))
        | (s, None) => (s, inr entries)
        end
  end.
Definition WhitelistSnapshotCount (env : AllowEnv) (s : AllowStore) : AllowError + Z :=
  if negb (allow_enabled env) then inl AllowDisabled
  else match broken env ASnapCount with
  | Some e => inl (AllowFailed ("count whitelist snapshots: " ++ e))
  | None => inr (Z.of_nat (length (snapshots s)))
  end.
End Ops.
