(* ===== verification/WhitelistStoreSpec.v ===== *)
(** * Theorems about the stored allow list: [WhitelistStore]

    The guarded replacement, the rollback copies, and the in-process index that is loaded
    in three reads while other processes write. *)

From Stdlib Require Import ZArith Lia Ascii String SpecFloat.
From stdpp Require Import sorting pretty relations.
From S2P Require Import Prelude GoStr Hostname NetIP GoFloat Whitelist WhitelistSpec Feed FeedSpec FeedSync DomainML SessionSpec ConfigReload AdblockLists AgentLog WhitelistStore.

(** ** Decimal texts *)

Lemma dec_val_digits fuel z acc : (0 <= z < 10 ^ Z.of_nat fuel)%Z → (0 < fuel)%nat →
  dec_val (digits fuel 10 z acc) 0 = dec_val acc z.
Proof.
  revert z acc. induction fuel as [|fuel IH]; intros z acc Hz Hf; [lia|]. cbn [digits].
  assert (digit_val (hex_char (z mod 10)) = Some (z mod 10)%Z) as Hd.
  { assert (∀ d, (0 <= d < 10)%Z → digit_val (hex_char d) = Some d) as Hall.
    { intros d Hd'. assert (d = 0 ∨ d = 1 ∨ d = 2 ∨ d = 3 ∨ d = 4 ∨ d = 5 ∨ d = 6 ∨ d = 7 ∨ d = 8 ∨ d = 9)%Z as Hc by lia.
      by repeat destruct Hc as [->|Hc]; [..|subst]. }
    apply Hall, Z.mod_pos_bound. lia. }
  destruct (Z.ltb_spec z 10) as [Hlt|Hge].
  - cbn [dec_val]. rewrite Hd. by rewrite Z.mod_small by lia.
  - destruct fuel as [|fuel]; [cbn in Hz; lia|].
    rewrite IH; [|split; [apply Z.div_pos; lia|]|lia].
    + cbn [dec_val]. rewrite Hd. f_equal. pose proof (Z.div_mod z 10). lia.
    + apply Z.div_lt_upper_bound; [lia|]. rewrite Nat2Z.inj_succ, Z.pow_succ_r in Hz by lia. lia.
Qed.
Lemma digits_all fuel z acc : (0 <= z)%Z → sforall ascii_digit acc = true → sforall ascii_digit (digits fuel 10 z acc) = true.
Proof.
  revert z acc. induction fuel as [|fuel IH]; intros z acc Hz Ha; [done|]. cbn [digits].
  assert (ascii_digit (hex_char (z mod 10)) = true) as Hd.
  { pose proof (Z.mod_pos_bound z 10). set (d := (z mod 10)%Z) in *.
    assert (d = 0 ∨ d = 1 ∨ d = 2 ∨ d = 3 ∨ d = 4 ∨ d = 5 ∨ d = 6 ∨ d = 7 ∨ d = 8 ∨ d = 9)%Z as Hc by lia.
    by repeat destruct Hc as [->|Hc]; [..|rewrite Hc]. }
  assert (sforall ascii_digit (String (hex_char (z mod 10)) acc) = true) as Hs by (cbn; by rewrite Hd, Ha).
  destruct (z <? 10)%Z; [done|]. apply IH; [apply Z.div_pos; lia|done].
Qed.
Lemma digits_cons fuel z acc : (0 < fuel)%nat → ∃ c r, digits fuel 10 z acc = String c r.
Proof.
  revert z acc. induction fuel as [|fuel IH]; intros z acc Hf; [lia|]. cbn [digits].
  destruct (z <? 10)%Z; [eauto|]. destruct fuel; [cbn; eauto|]. apply IH. lia.
Qed.
Lemma digit_plain c : ascii_digit c = true →
  Ascii.eqb c "-" = false ∧ Ascii.eqb c "+" = false ∧ is_ascii_byte c = true ∧ ascii_space c = false.
Proof. destruct c as [[] [] [] [] [] [] [] []]; vm_compute; repeat split; done. Qed.
Lemma dec_digits z : (0 <= z)%Z → sforall ascii_digit (dec_string z) = true.
Proof. intros Hz. by apply digits_all. Qed.

Section Numbers.
Context `{UnicodeTables}.

Lemma FormatInt_plain v : is_ascii (FormatInt v) = true ∧ sforall (λ c, negb (ascii_space c)) (FormatInt v) = true.
Proof.
  assert (∀ z, (0 <= z)%Z → is_ascii (dec_string z) = true ∧ sforall (λ c, negb (ascii_space c)) (dec_string z) = true) as Hd.
  { intros z Hz. pose proof (dec_digits z Hz) as Hs.
    split; revert Hs; apply sforall_impl; intros c (?&?&?&Hsp)%digit_plain; [done|by rewrite Hsp]. }
  unfold FormatInt. destruct (Z.ltb_spec v 0); [|by apply Hd].
  destruct (Hd (- v)%Z ltac:(lia)) as [Ha Hs]. by split.
Qed.
Lemma FormatInt_trim v : TrimSpace (FormatInt v) = FormatInt v.
Proof. destruct (FormatInt_plain v). by apply TrimSpace_id. Qed.
Lemma FormatInt_nonempty v : FormatInt v ≠ "".
Proof.
  unfold FormatInt. destruct (v <? 0)%Z; [done|].
  unfold dec_string. by destruct (digits_cons 20 v "") as (c & r & ->); [lia|].
Qed.
Definition in64 (v : Z) : Prop := (- 2 ^ 63 <= v < 2 ^ 63)%Z.
Lemma ParseInt_FormatInt v : in64 v → ParseInt64 (FormatInt v) = Some v.
Proof.
  unfold in64. intros Hv. unfold FormatInt.
  assert (∀ z, (0 <= z <= 2 ^ 63)%Z → dec_val (dec_string z) 0 = Some z) as Hdec.
  { intros z Hz. unfold dec_string. rewrite dec_val_digits; [done| |lia].
    split; [lia|]. change (10 ^ Z.of_nat 20)%Z with 100000000000000000000%Z. lia. }
  destruct (Z.ltb_spec v 0) as [Hneg|Hpos].
  - unfold ParseInt64. cbn [String.append]. change (Ascii.eqb "-" "-") with true. cbn iota beta.
    destruct (String.eqb_spec (dec_string (- v)) "") as [E|_].
    { unfold dec_string in E. by destruct (digits_cons 20 (- v) "") as (c & r & Hc); [lia|rewrite Hc in E]. }
    rewrite Hdec by lia. replace (- - v)%Z with v by lia.
    destruct (Z.leb_spec (- 2 ^ 63) v); [|lia]. by destruct (Z.ltb_spec v (2 ^ 63)); [|lia].
  - pose proof (dec_digits v Hpos) as Hd. unfold dec_string in *.
    pose proof (Hdec v ltac:(lia)) as Hval. unfold dec_string in Hval.
    destruct (digits_cons 20 v "") as (c & r & E); [lia|]. rewrite E in *.
    cbn in Hd. apply andb_true_iff in Hd as [(Hm & Hp & _)%digit_plain _].
    unfold ParseInt64. rewrite Hm, Hp. cbn [String.eqb]. rewrite Hval.
    destruct (Z.leb_spec (- 2 ^ 63) v); [|lia]. by destruct (Z.ltb_spec v (2 ^ 63)); [|lia].
Qed.
End Numbers.

(** ** Names carry no line feed *)

Lemma decode_rune_drop b0 rest r w : decode_rune b0 rest = (r, w) → Forall (λ b, (128 <= b)%Z) (take (w - 1) rest).
Proof.
  unfold decode_rune, cont. intros Hd.
  repeat (case_match; simplify_eq/=; try by constructor);
    repeat match goal with Hb : _ && _ = true |- _ => apply andb_true_iff in Hb as [? ?] end;
    repeat (constructor; [case_match; lia || lia|]); try (repeat constructor; lia).
Qed.
Lemma byte_is_rune (b : Z) fuel bs : (b < 128)%Z → b ∈ bs → (length bs <= fuel)%nat → b ∈ runes_fuel fuel bs.
Proof.
  intros Hb. revert bs. induction fuel as [|fuel IH]; intros [|b0 rest] Hin Hf; cbn in *;
    [by apply elem_of_nil in Hin|lia|by apply elem_of_nil in Hin|].
  destruct (decode_rune b0 rest) as [r w] eqn:E. apply elem_of_cons in Hin as [->|Hin].
  - unfold decode_rune in E. destruct (Z.ltb_spec b0 128); [injection E as <- <-; by left|lia].
  - right. apply IH; [|rewrite length_drop; lia].
    rewrite <-(take_drop (w - 1) rest) in Hin. apply elem_of_app in Hin as [Hin|Hin]; [|done].
    pose proof (proj1 (Forall_forall _ _) (decode_rune_drop _ _ _ _ E) _ Hin). cbn in *. lia.
Qed.
Lemma contains_byte_elem c s : contains_byte c s = true → byte_z c ∈ bytes_of s.
Proof.
  induction s as [|d s IH]; [done|]. rewrite bytes_of_cons, contains_byte_cons, orb_true_iff.
  intros [Hd|Hs]; [|right; by apply IH]. apply Ascii.eqb_eq in Hd as ->. left.
Qed.

Section Names.
Context `{UnicodeTables, HostServices, FeedLibs, SqlTime, TableOrder}.

Lemma wf_no_linefeed d : well_formed d → contains_byte linefeed d = false.
Proof.
  intros [_ _ _ Hr]. destruct (contains_byte linefeed d) eqn:E; [|done]. exfalso.
  apply contains_byte_elem in E.
  apply (byte_is_rune 10 (slen d)) in E; [|lia|by rewrite length_bytes_of].
  rewrite forallb_forall in Hr. specialize (Hr 10%Z). rewrite <-list_elem_of_In in Hr.
  by specialize (Hr E).
Qed.

(** A name an import may add: a normal form with a registrable domain. *)
Definition allow_name (d : string) : Prop := well_formed d ∧ IsRegistrableDomain d = true.
Lemma empty_not_registrable : IsRegistrableDomain "" = false.
Proof. done. Qed.

(** ** Rollback copies *)

Lemma split_join_names ds : ds ≠ [] → Forall well_formed ds → splitSnapshotDomains (Join ds linefeed) = ds.
Proof.
  intros Hne Hwf. assert (Forall (λ d, d ≠ "") ds) as Hns.
  { eapply Forall_impl; [exact Hwf|]. by intros d []. }
  unfold splitSnapshotDomains. rewrite Split_Join; [|done|].
  - destruct (String.eqb_spec (Join ds linefeed) "") as [E|_].
    + destruct ds as [|d [|d' ds]]; [done| |by destruct d]. inversion_clear Hns. cbn in E. by rewrite E in *.
    + clear Hne Hwf. induction Hns as [|d ds Hd Hns IH]; [done|]. cbn.
      destruct (String.eqb_spec d ""); [done|]. cbn. by rewrite IH.
  - eapply Forall_impl; [exact Hwf|]. apply wf_no_linefeed.
Qed.

(** ** Replacing the table *)

Lemma filter_registrable_nonempty ds : buildWhitelistInsertQuery (accepted_names ds) = accepted_names ds.
Proof.
  unfold buildWhitelistInsertQuery, accepted_names. induction ds as [|d ds IH]; [done|]. cbn.
  destruct (IsRegistrableDomain d) eqn:E; [|done]. cbn.
  destruct (String.eqb_spec d "") as [->|_]; [by rewrite empty_not_registrable in E|]. cbn. by rewrite IH.
Qed.
Lemma insert_query_app a b : buildWhitelistInsertQuery (a ++ b) = (buildWhitelistInsertQuery a ++ buildWhitelistInsertQuery b)%list.
Proof. apply List.filter_app. Qed.
Lemma chunk_split (accepted : list string) start :
  (start < length accepted)%nat →
  drop start accepted =
    (take (Nat.min (start + whitelistInsertChunkSize) (length accepted) - start) (drop start accepted)
     ++ drop (start + whitelistInsertChunkSize) accepted)%list.
Proof.
  intros Hlt. rewrite <-(take_drop (Nat.min (start + whitelistInsertChunkSize) (length accepted) - start) (drop start accepted)) at 1.
  f_equal. rewrite drop_drop.
  destruct (Nat.min_spec (start + whitelistInsertChunkSize) (length accepted)) as [[? ->]|[? ->]].
  - f_equal. lia.
  - rewrite !drop_ge by lia. done.
Qed.
(** Whatever chunk fails, the statements that succeeded wrote what was handed to them. *)
Lemma insert_chunks_rows env fuel start accepted rows rows' :
  (length accepted < start + fuel)%nat → insert_chunks env fuel start accepted rows = inr rows' →
  rows' = rows ∪ list_to_set (buildWhitelistInsertQuery (drop start accepted)).
Proof.
  revert start rows. induction fuel as [|fuel IH]; intros start rows Hf; cbn [insert_chunks].
  - intros [= <-]. rewrite drop_ge by lia. cbn. set_solver.
  - destruct (Nat.ltb_spec start (length accepted)) as [Hlt|Hge].
    + cbv zeta. pose proof (chunk_split accepted start Hlt) as Hc.
      set (chunk := take _ (drop start accepted)) in *. rewrite Hc, insert_query_app, list_to_set_app_L.
      assert (length accepted < start + whitelistInsertChunkSize + fuel)%nat as Hf' by (unfold whitelistInsertChunkSize; lia).
      destruct (buildWhitelistInsertQuery chunk) as [|a args].
      * intros Hi. rewrite (IH _ _ Hf' Hi). cbn. set_solver.
      * destruct (broken env (AInsert start)); [done|]. intros Hi. rewrite (IH _ _ Hf' Hi). set_solver.
    + intros [= <-]. rewrite drop_ge by lia. cbn. set_solver.
Qed.
Lemma insert_chunks_total env fuel start accepted rows :
  (∀ k, broken env (AInsert k) = None) → ∃ rows', insert_chunks env fuel start accepted rows = inr rows'.
Proof.
  intros Hok. revert start rows. induction fuel as [|fuel IH]; intros start rows; cbn [insert_chunks]; [eauto|].
  destruct (Nat.ltb start (length accepted)); [|eauto]. cbv zeta.
  destruct (buildWhitelistInsertQuery _); [eauto|]. rewrite Hok. eauto.
Qed.

(** The integer in the revision row; [None] when there is none that a replacement reads. *)
Definition stored_revision (s : AllowStore) : option Z :=
  match allow_revision s with
  | None => Some 0%Z
  | Some raw => match ParseInt64 (TrimSpace raw) with
                | Some n => if (n <? 0)%Z then None else Some n
                | None => None
                end
  end.
Lemma bump_spec env s next : bumpWhitelistRevision env s = inr next →
  ∃ n, stored_revision s = Some n ∧ next = wrap64 (n + 1).
Proof.
  unfold bumpWhitelistRevision, stored_revision. repeat (case_match; try done); intros [= <-]; eauto.
Qed.
Lemma replace_tx_spec env domains s s' : replace_tx env (accepted_names domains) s = inr s' →
  ∃ n, stored_revision s = Some n ∧ s' = set_allow (list_to_set (accepted_names domains)) (FormatInt (wrap64 (n + 1))) s.
Proof.
  unfold replace_tx. destruct (broken env ABegin); [done|]. destruct (broken env ADelete); [done|].
  destruct (insert_chunks _ _ _ _ _) as [|rows] eqn:Ei; [done|].
  destruct (bumpWhitelistRevision env s) as [|next] eqn:Eb; [done|].
  destruct (broken env ACommit); [done|]. intros [= <-].
  apply bump_spec in Eb as (n & Hn & ->). exists n. split; [done|].
  apply insert_chunks_rows in Ei; [|cbn; lia]. rewrite Ei, drop_0, filter_registrable_nonempty.
  f_equal. set_solver.
Qed.
Definition healthy (env : AllowEnv) : Prop := allow_enabled env = true ∧ ∀ st, broken env st = None.
Lemma replace_tx_total env domains s n : healthy env → stored_revision s = Some n →
  ∃ s', replace_tx env (accepted_names domains) s = inr s'.
Proof.
  intros [_ Hok] Hn. unfold replace_tx. rewrite !Hok.
  destruct (insert_chunks_total env (S (length (accepted_names domains))) 0 (accepted_names domains) ∅ ltac:(done)) as [rows ->].
  unfold bumpWhitelistRevision. rewrite !Hok. revert Hn. unfold stored_revision.
  repeat (case_match; try done); intros _; simplify_eq; eauto.
Qed.

(** What the floors demand of an import. *)
Definition floors_hold (env : AllowEnv) (accepted previous : Z) : Prop :=
  (whitelistMinAbsolute env <= accepted)%Z ∧ (previous * whitelistMinRelative env <= accepted * 100)%Z.
Lemma below_floor_spec env accepted dropped previous :
  match below_floor env accepted dropped previous with
  | Some e => ¬ floors_hold env accepted previous ∧ ∃ detail, e = ErrWhitelistBelowFloor detail
  | None => floors_hold env accepted previous
  end.
Proof.
  unfold below_floor, floors_hold. destruct (Z.ltb_spec accepted (whitelistMinAbsolute env)); [split; [lia|eauto]|].
  destruct (Z.ltb_spec (accepted * 100) (previous * whitelistMinRelative env)); [split; [lia|eauto]|lia].
Qed.

Lemma insert_chunks_error env fuel start accepted rows detail :
  insert_chunks env fuel start accepted rows ≠ inl (ErrWhitelistBelowFloor detail).
Proof.
  revert start rows. induction fuel as [|fuel IH]; intros start rows; cbn [insert_chunks]; [done|].
  destruct (Nat.ltb _ _); [|done]. cbv zeta. destruct (buildWhitelistInsertQuery _); [apply IH|].
  destruct (broken env (AInsert start)); [done|apply IH].
Qed.
Lemma replace_tx_error env accepted s detail : replace_tx env accepted s ≠ inl (ErrWhitelistBelowFloor detail).
Proof.
  unfold replace_tx. destruct (broken env ABegin); [done|]. destruct (broken env ADelete); [done|].
  destruct (insert_chunks _ _ _ _ _) eqn:Ei; [intros [= ->]; by apply insert_chunks_error in Ei|].
  unfold bumpWhitelistRevision. destruct (broken env ARevisionRead); [done|].
  destruct (match allow_revision s with Some _ => _ | None => _ end); [|done].
  destruct (broken env ARevisionWrite); [done|]. by destruct (broken env ACommit).
Qed.

Definition guard_passed (env : AllowEnv) (floor : bool) (domains : list string) (s : AllowStore) : Prop :=
  floor = true → (0 < size (allow_rows s))%nat →
  floors_hold env (Z.of_nat (length (accepted_names domains))) (Z.of_nat (size (allow_rows s))).
Lemma guard_spec env floor (accepted dropped : Z) previous : (0 <= previous)%Z →
  match (if floor && (0 <? previous)%Z then below_floor env accepted dropped previous else None) with
  | Some e => (∃ detail, e = ErrWhitelistBelowFloor detail) ∧ floor = true ∧ (0 < previous)%Z ∧ ¬ floors_hold env accepted previous
  | None => floor = true → (0 < previous)%Z → floors_hold env accepted previous
  end.
Proof.
  intros Hp. pose proof (below_floor_spec env accepted dropped previous) as Hb.
  destruct floor; cbn [andb]; [|done]. destruct (Z.ltb_spec 0 previous); [|intros _ ?; lia].
  destruct (below_floor _ _ _ _); [|done]. destruct Hb as [? ?]. done.
Qed.
(** What a replacement does, in full. *)
Lemma update_cases env domains floor s :
  let '(s', e) := updateWhitelist env domains floor s in
  match e with
  | Some e => s' = s ∧ ((∃ detail, e = ErrWhitelistBelowFloor detail) → ¬ guard_passed env floor domains s)
  | None => guard_passed env floor domains s ∧
      ∃ n, stored_revision s = Some n ∧ s' = set_allow (list_to_set (accepted_names domains)) (FormatInt (wrap64 (n + 1))) s
  end.
Proof.
  unfold updateWhitelist. destruct (allow_enabled env) eqn:Een; cbn [negb]; [|split; [done|by intros [? ?]]].
  unfold GetWhitelistCount. rewrite Een. cbn [negb]. cbv zeta.
  destruct (broken env ACount); [split; [done|by intros [? ?]]|].
  pose proof (guard_spec env floor (Z.of_nat (length (accepted_names domains)))
                (Z.of_nat (length domains - length (accepted_names domains))) (Z.of_nat (size (allow_rows s))) ltac:(lia)) as Hg.
  destruct (if floor && _ then _ else None) as [e|].
  - destruct Hg as (_ & Hfl & Hpos & Hno). split; [done|]. intros _ Hp. apply Hno. apply Hp; [done|lia].
  - destruct (replace_tx env (accepted_names domains) s) as [e|s'] eqn:Er.
    + split; [done|]. intros [detail ->]. by apply replace_tx_error in Er.
    + split; [|by apply (replace_tx_spec env)]. intros Hfl Hpos. apply Hg; [done|lia].
Qed.

(** C8: an import replaces the allow list as a whole or not at all.  One that fails, at any
    statement or at a floor, leaves the tables exactly as they were; one that succeeds
    makes the table the set of the registrable names it was given, under the next
    revision, and touches nothing else.  When the statements work, an import succeeds
    exactly when the floors allow it.  The floors hold back an import over a list that is in
    use, not a restore; they are compared with the number of registrable names in the
    source, each counted as often as it is repeated.  So a list in use is never left with
    fewer rows than the floors when the names of the source are distinct; a source that
    repeats its names can leave fewer ([repeated_name] below). *)
Theorem import_guarded env domains floor s :
  let '(s', e) := updateWhitelist env domains floor s in
  match e with
  | Some e => s' = s ∧ ((∃ detail, e = ErrWhitelistBelowFloor detail) → ¬ guard_passed env floor domains s)
  | None => guard_passed env floor domains s ∧
      ∃ n, stored_revision s = Some n ∧ s' = set_allow (list_to_set (accepted_names domains)) (FormatInt (wrap64 (n + 1))) s
  end ∧ (healthy env → is_Some (stored_revision s) → e = None ↔ guard_passed env floor domains s)
  ∧ (e = None → floor = true → (0 < size (allow_rows s))%nat → NoDup (accepted_names domains) →
     floors_hold env (Z.of_nat (size (allow_rows s'))) (Z.of_nat (size (allow_rows s)))).
Proof.
  pose proof (update_cases env domains floor s) as Hc.
  destruct (updateWhitelist env domains floor s) as [s' e] eqn:Eu. split; [done|]. split.
  2: { intros -> Hfl Hpos Hnd. destruct Hc as (Hg & n & _ & ->). simpl. rewrite size_list_to_set by done. by apply Hg. }
  intros [Hen Hok] [n Hn]. split; [by intros ->; destruct Hc|]. intros Hg. revert Eu.
  unfold updateWhitelist, GetWhitelistCount. rewrite Hen, Hok. cbn [negb]. cbv zeta.
  pose proof (guard_spec env floor (Z.of_nat (length (accepted_names domains)))
                (Z.of_nat (length domains - length (accepted_names domains))) (Z.of_nat (size (allow_rows s))) ltac:(lia)) as Hs.
  destruct (if floor && _ then _ else None) as [e'|].
  - destruct Hs as (_ & Hfl & Hpos & Hno). exfalso. apply Hno. apply Hg; [done|lia].
  - destruct (replace_tx_total env domains s n ltac:(done) Hn) as [s'' ->]. by intros [= <- <-].
Qed.
End Names.

(** ** Histories of the store *)

Section Histories.
Context `{UnicodeTables, HostServices, FeedLibs, SqlTime, TableOrder}.

(** One operation of some process: an import or a restore, with any statement failing,
    a copy, an event. *)
Inductive store_step (s : AllowStore) : AllowStore → Prop :=
| step_import env domains floor : Forall well_formed domains → store_step s (updateWhitelist env domains floor s).1
| step_copy env source domains : domains ≠ [] → Forall allow_name domains →
    store_step s (SaveWhitelistSnapshot env source domains s).1
| step_restore env id : store_step s (RestoreWhitelistSnapshot env id s).1
| step_event log : store_step s (set_allow_log log s).

(** A copy that still is what was saved. *)
Definition copy_of (ds : list string) (r : SnapshotRow) : Prop :=
  snap_blob r = Join ds linefeed ∧ snap_count r = Z.of_nat (length ds) ∧ snap_sha256 r = blob_digest (snap_blob r).
Definition copy_ok (r : SnapshotRow) : Prop := ∃ ds, ds ≠ [] ∧ Forall allow_name ds ∧ copy_of ds r.
Record store_ok (s : AllowStore) : Prop := {
  so_names : ∀ d, d ∈ allow_rows s → allow_name d;
  so_revision : (allow_revision s = None ∧ allow_rows s = ∅)
                ∨ ∃ v, allow_revision s = Some (FormatInt v) ∧ in64 v ∧ v ≠ 0%Z;
  so_sorted : StronglySorted Z.lt (snap_id <$> snapshots s);
  so_seq : (0 <= snapshot_seq s)%Z ∧ Forall (λ r, (0 < snap_id r <= snapshot_seq s)%Z) (snapshots s);
  so_copies : Forall copy_ok (snapshots s)
}.

Lemma empty_store_ok : store_ok empty_allow_store.
Proof.
  split; cbn; [set_solver|by left|constructor|split; [lia|constructor]|constructor].
Qed.
Lemma wrap64_next n : (0 <= n < 2 ^ 63)%Z →
  in64 (wrap64 (n + 1)) ∧ wrap64 (n + 1) ≠ 0%Z ∧ (wrap64 (n + 1) = n + 1 ∨ n + 1 = 2 ^ 63 ∧ wrap64 (n + 1) = - 2 ^ 63)%Z.
Proof.
  intros Hn. unfold wrap64, in64. destruct (Z.eq_dec n (2 ^ 63 - 1)%Z) as [->|Hne].
  - vm_compute. repeat split; try done. right. done.
  - rewrite Z.mod_small by lia. lia.
Qed.
Lemma stored_format s v : allow_revision s = Some (FormatInt v) → in64 v →
  stored_revision s = if (v <? 0)%Z then None else Some v.
Proof. unfold stored_revision. intros -> Hv. by rewrite FormatInt_trim, ParseInt_FormatInt. Qed.
Lemma stored_bound s n : store_ok s → stored_revision s = Some n → (0 <= n < 2 ^ 63)%Z.
Proof.
  intros [_ [[Hr _]|(v & Hr & Hv & _)] _ _ _]; [unfold stored_revision; rewrite Hr; intros [= <-]; lia|].
  rewrite (stored_format s v Hr Hv). destruct (Z.ltb_spec v 0); [done|]. intros [= <-]. unfold in64 in Hv. lia.
Qed.

Lemma import_ok env domains floor s : store_ok s → Forall well_formed domains →
  store_ok (updateWhitelist env domains floor s).1.
Proof.
  intros Hok Hwf. pose proof (update_cases env domains floor s) as Hc.
  destruct (updateWhitelist env domains floor s) as [s' [e|]]; cbn [fst]; [by destruct Hc as [-> _]|].
  destruct Hc as (_ & n & Hn & ->). pose proof (stored_bound s n Hok Hn) as Hb.
  destruct (wrap64_next n Hb) as (H64 & Hne & _). split; cbn; try apply Hok; [|by right; eauto].
  intros d Hd. apply elem_of_list_to_set in Hd. unfold accepted_names in Hd.
  rewrite list_elem_of_In, filter_In, <-list_elem_of_In in Hd. destruct Hd as [Hd Hr].
  split; [|done]. rewrite Forall_forall in Hwf. by apply Hwf.
Qed.
Lemma sorted_drop {A} (R : A → A → Prop) n l : StronglySorted R l → StronglySorted R (drop n l).
Proof.
  revert n. induction l as [|a l IH]; intros [|n] Hs; cbn; try done. inversion_clear Hs. by apply IH.
Qed.
Lemma sorted_snoc l (x : Z) : StronglySorted Z.lt l → Forall (λ y, (y < x)%Z) l → StronglySorted Z.lt (l ++ [x]).
Proof.
  induction l as [|a l IH]; intros Hs Hf; cbn; [repeat constructor|]. inversion_clear Hs. inversion_clear Hf.
  constructor; [by apply IH|]. apply Forall_app. split; [done|by constructor].
Qed.
Lemma prune_ok env s : store_ok s → store_ok (pruneWhitelistSnapshots env s).
Proof.
  intros [Hn Hr Hs [Hq Hf] Hc]. unfold pruneWhitelistSnapshots. destruct (broken env ASnapPrune); [done|].
  split; cbn; try done; [rewrite fmap_drop; by apply sorted_drop|split; [done|]|]; by apply Forall_drop.
Qed.
(** The row a copy adds. *)
Definition new_copy (env : AllowEnv) (source : string) (domains : list string) (s : AllowStore) : SnapshotRow :=
  mkSnapshotRow (snapshot_seq s + 1) (sql_text (allow_now env)) source (Z.of_nat (length domains))
    (blob_digest (Join domains linefeed)) (Join domains linefeed).
Definition with_copy (env : AllowEnv) (source : string) (domains : list string) (s : AllowStore) : AllowStore :=
  set_snapshots (snapshots s ++ [new_copy env source domains s])%list (snapshot_seq s + 1) s.
Lemma with_copy_ok env source domains s : store_ok s → domains ≠ [] → Forall allow_name domains →
  store_ok (with_copy env source domains s).
Proof.
  intros [Hn Hr Hs [Hq Hf] Hc] Hne Hd. split; cbn; try done.
  - rewrite fmap_app. apply sorted_snoc; [done|]. apply Forall_fmap. eapply Forall_impl; [exact Hf|].
    intros r ?. cbn in *. lia.
  - split; [lia|]. apply Forall_app. split; [|repeat constructor; cbn; lia].
    eapply Forall_impl; [exact Hf|]. intros r ?. cbn in *. lia.
  - apply Forall_app. split; [done|]. repeat constructor. by exists domains.
Qed.
Lemma save_cases env source domains s :
  let '(s', r) := SaveWhitelistSnapshot env source domains s in
  match r with
  | inl _ => s' = s ∨ s' = with_copy env source domains s
  | inr id => id = (snapshot_seq s + 1)%Z ∧ s' = pruneWhitelistSnapshots env (with_copy env source domains s)
  end.
Proof.
  unfold SaveWhitelistSnapshot. destruct (allow_enabled env); cbn [negb]; [|by left]. cbv zeta.
  destruct (broken env ASnapInsert); [by left|]. destruct (broken env ASnapId); [by right|done].
Qed.
Lemma save_ok env source domains s : store_ok s → domains ≠ [] → Forall allow_name domains →
  store_ok (SaveWhitelistSnapshot env source domains s).1.
Proof.
  intros Hok Hne Hd. pose proof (save_cases env source domains s) as Hc.
  pose proof (with_copy_ok env source domains s Hok Hne Hd).
  destruct (SaveWhitelistSnapshot env source domains s) as [s' [e|id]]; cbn [fst]; [by destruct Hc as [-> | ->]|].
  destruct Hc as [_ ->]. by apply prune_ok.
Qed.
Lemma copy_names ds r : ds ≠ [] → Forall allow_name ds → copy_of ds r → SnapDomains (scan_snapshot r) = ds.
Proof.
  intros Hne Hd (Hb & _). unfold scan_snapshot. cbn. rewrite Hb. apply split_join_names; [done|].
  eapply Forall_impl; [exact Hd|]. by intros d [].
Qed.
Lemma snapshot_at_in id s r : snapshot_at id s = Some r → r ∈ snapshots s ∧ snap_id r = id.
Proof. unfold snapshot_at. intros [Hin He]%find_some. split; [by apply list_elem_of_In|lia]. Qed.
(** A restore is an import of names that were live. *)
Lemma restore_cases env id s : store_ok s →
  (RestoreWhitelistSnapshot env id s).1 = s
  ∨ ∃ ds, Forall allow_name ds ∧ (RestoreWhitelistSnapshot env id s).1 = (RestoreWhitelist env ds s).1.
Proof.
  intros Hok. unfold RestoreWhitelistSnapshot, WhitelistSnapshotByID.
  destruct (allow_enabled env); cbn [negb]; [|by left]. destruct (broken env ASnapGet); [by left|].
  destruct (snapshot_at id s) as [r|] eqn:Er; [|by left]. cbv zeta.
  destruct (_ || _); [by left|]. destruct (_ || _); [by left|]. right.
  apply snapshot_at_in in Er as [Hin _].
  pose proof (proj1 (Forall_forall _ _) (so_copies s Hok) r Hin) as (ds & Hne & Hd & Hc).
  rewrite (copy_names ds r Hne Hd Hc). exists ds. split; [done|].
  by destruct (RestoreWhitelist env ds s) as [s' [e|]].
Qed.
Lemma names_wf ds : Forall allow_name ds → Forall well_formed ds.
Proof. intros Hd. eapply Forall_impl; [exact Hd|]. by intros d []. Qed.
Lemma store_step_ok s s' : store_ok s → store_step s s' → store_ok s'.
Proof.
  intros Hok []; [by apply import_ok|by apply save_ok| |by destruct Hok].
  destruct (restore_cases env id s Hok) as [-> | (ds & Hd & ->)]; [done|]. by apply import_ok, names_wf.
Qed.
Lemma store_steps_ok s s' : store_ok s → rtc store_step s s' → store_ok s'.
Proof. intros Hok Hs. induction Hs as [|s s' s'' Hst _ IH]; [done|]. by apply IH, (store_step_ok s). Qed.

(** *** Copies survive two further copies *)

Definition held (r : SnapshotRow) (s : AllowStore) : Prop := r ∈ snapshots s.
Lemma update_snapshots env domains floor s :
  snapshots (updateWhitelist env domains floor s).1 = snapshots s
  ∧ snapshot_seq (updateWhitelist env domains floor s).1 = snapshot_seq s.
Proof.
  pose proof (update_cases env domains floor s) as Hc.
  destruct (updateWhitelist env domains floor s) as [s' [e|]]; [by destruct Hc as [-> _]|]. by destruct Hc as (_ & n & _ & ->).
Qed.
Lemma sorted_count (l : list Z) a b : StronglySorted Z.lt l → Forall (λ x, (a < x <= b)%Z) l → (a <= b)%Z →
  (Z.of_nat (length l) <= b - a)%Z.
Proof.
  revert a. induction l as [|x l IH]; intros a Hs Hf Hab; cbn; [lia|]. inversion_clear Hs as [|?? Hs' Hx].
  inversion_clear Hf as [|?? Hxb Hf']. specialize (IH x Hs').
  assert (Forall (λ y, (x < y <= b)%Z) l) as Hl.
  { apply Forall_forall. intros y Hy. rewrite Forall_forall in Hx, Hf'. pose proof (Hx y Hy). pose proof (Hf' y Hy). cbn in *. lia. }
  specialize (IH Hl). lia.
Qed.
Lemma sorted_app_r (R : Z → Z → Prop) l1 l2 : StronglySorted R (l1 ++ l2) → StronglySorted R l2.
Proof. induction l1 as [|x l1 IH]; [done|]. intros Hs. inversion_clear Hs. by apply IH. Qed.
Lemma held_prune env r s : store_ok s → held r s → (snapshot_seq s < snap_id r + Z.of_nat MaxWhitelistSnapshots)%Z →
  held r (pruneWhitelistSnapshots env s).
Proof.
  intros Hok Hh Hq. unfold pruneWhitelistSnapshots. destruct (broken env ASnapPrune); [done|]. unfold held in *. cbn.
  apply list_elem_of_split in Hh as (l1 & l2 & Hl). destruct Hok as [_ _ Hs [_ Hf] _]. rewrite Hl in *.
  rewrite fmap_app, fmap_cons in Hs. apply sorted_app_r in Hs. inversion_clear Hs as [|?? Hs' Hgt].
  apply Forall_app in Hf as [_ Hf]. inversion_clear Hf as [|?? Hr Hf'].
  assert (Z.of_nat (length l2) <= snapshot_seq s - snap_id r)%Z as Hlen.
  { rewrite <-(length_fmap snap_id l2). apply sorted_count; [done| |lia]. apply Forall_forall. intros x Hx. split.
    - by apply (proj1 (Forall_forall _ _) Hgt).
    - apply list_elem_of_fmap in Hx as (r' & -> & Hr'). by apply (proj1 (Forall_forall _ _) Hf' r'). }
  rewrite drop_app_le by (rewrite length_app; cbn; lia). set_solver.
Qed.
Lemma save_seq env source domains s :
  (snapshot_seq s <= snapshot_seq (SaveWhitelistSnapshot env source domains s).1)%Z.
Proof.
  pose proof (save_cases env source domains s) as Hc.
  destruct (SaveWhitelistSnapshot env source domains s) as [s' [e|id]]; cbn [fst];
    [destruct Hc as [-> | ->]; cbn; lia|destruct Hc as [_ ->]]. unfold pruneWhitelistSnapshots.
  destruct (broken env ASnapPrune); cbn; lia.
Qed.
Lemma step_seq s s' : store_ok s → store_step s s' → (snapshot_seq s <= snapshot_seq s')%Z.
Proof.
  intros Hok []; [|apply save_seq| |done].
  - by rewrite (proj2 (update_snapshots _ _ _ _)).
  - destruct (restore_cases env id s Hok) as [-> | (ds & Hd & ->)]; [done|].
    unfold RestoreWhitelist. by rewrite (proj2 (update_snapshots _ _ _ _)).
Qed.
Lemma steps_seq s s' : store_ok s → rtc store_step s s' → (snapshot_seq s <= snapshot_seq s')%Z.
Proof.
  intros Hok Hs. induction Hs as [|s s' s'' Hst _ IH]; [done|].
  pose proof (step_seq s s' Hok Hst). pose proof (IH (store_step_ok _ _ Hok Hst)). lia.
Qed.
Lemma step_held r s s' : store_ok s → held r s → store_step s s' →
  (snapshot_seq s' < snap_id r + Z.of_nat MaxWhitelistSnapshots)%Z → held r s'.
Proof.
  intros Hok Hh Hst Hq. destruct Hst as [env domains floor Hwf|env source domains Hne Hd|env id|log]; [| | |done].
  - unfold held. by rewrite (proj1 (update_snapshots _ _ _ _)).
  - pose proof (save_cases env source domains s) as Hc. revert Hq.
    pose proof (with_copy_ok env source domains s Hok Hne Hd) as Hok'.
    assert (held r (with_copy env source domains s)) as Hh' by (unfold held; cbn; set_solver).
    destruct (SaveWhitelistSnapshot env source domains s) as [s' [e|id]]; cbn [fst];
      [by destruct Hc as [-> | ->]|destruct Hc as [_ ->]]. intros Hq. apply held_prune; [done|done|].
    revert Hq. unfold pruneWhitelistSnapshots. destruct (broken env ASnapPrune); done.
  - destruct (restore_cases env id s Hok) as [-> | (ds & Hd & ->)]; [done|].
    unfold held, RestoreWhitelist. by rewrite (proj1 (update_snapshots _ _ _ _)).
Qed.
Lemma steps_held r s s' : store_ok s → held r s → rtc store_step s s' →
  (snapshot_seq s' < snap_id r + Z.of_nat MaxWhitelistSnapshots)%Z → held r s'.
Proof.
  intros Hok Hh Hs Hq. induction Hs as [|s s' s'' Hst Hss IH]; [done|].
  pose proof (store_step_ok _ _ Hok Hst) as Hok'. apply IH; [done| |done]. apply (step_held r s); [done..|].
  pose proof (steps_seq _ _ Hok' Hss). lia.
Qed.

Lemma sorted_id_unique l r r' : StronglySorted Z.lt (snap_id <$> l) → r ∈ l → r' ∈ l → snap_id r = snap_id r' → r = r'.
Proof.
  induction l as [|x l IH]; intros Hs Hr Hr' He; [by apply elem_of_nil in Hr|].
  cbn in Hs. inversion_clear Hs as [|?? Hs' Hx]. rewrite Forall_fmap, Forall_forall in Hx.
  apply elem_of_cons in Hr as [->|Hr], Hr' as [->|Hr']; [done| | |by apply IH].
  - pose proof (Hx r' Hr'). cbn in *. lia.
  - pose proof (Hx r Hr). cbn in *. lia.
Qed.
Lemma held_at r s : store_ok s → held r s → snapshot_at (snap_id r) s = Some r.
Proof.
  intros Hok Hh. destruct (snapshot_at (snap_id r) s) as [r'|] eqn:E.
  - apply snapshot_at_in in E as [Hin He]. f_equal. by apply (sorted_id_unique (snapshots s)); [apply Hok|..].
  - unfold snapshot_at in E. unfold held in Hh. apply list_elem_of_In, (find_none _ _ E) in Hh. lia.
Qed.
Lemma accepted_all ds : Forall allow_name ds → accepted_names ds = ds.
Proof.
  unfold accepted_names. induction 1 as [|d ds [_ Hr] _ IH]; [done|]. cbn. by rewrite Hr, IH.
Qed.
Lemma restore_success env ds s n : healthy env → stored_revision s = Some n → Forall allow_name ds →
  RestoreWhitelist env ds s = (set_allow (list_to_set ds) (FormatInt (wrap64 (n + 1))) s, None).
Proof.
  intros [Hen Hok] Hn Hd. unfold RestoreWhitelist, updateWhitelist, GetWhitelistCount. rewrite Hen, Hok. cbn [negb andb]. cbv zeta.
  destruct (replace_tx_total env ds s n (conj Hen Hok) Hn) as [s' Hs']. rewrite Hs'.
  apply replace_tx_spec in Hs' as (m & Hm & ->). simplify_eq. by rewrite accepted_all.
Qed.
Lemma restore_held env ds r s n : store_ok s → healthy env → stored_revision s = Some n → held r s →
  ds ≠ [] → Forall allow_name ds → copy_of ds r →
  RestoreWhitelistSnapshot env (snap_id r) s
    = (set_allow (list_to_set ds) (FormatInt (wrap64 (n + 1))) s, inr (Z.of_nat (length ds))).
Proof.
  intros Hok Hh Hn Hheld Hne Hd Hc. unfold RestoreWhitelistSnapshot, WhitelistSnapshotByID.
  rewrite (proj1 Hh), (proj2 Hh), (held_at r s Hok Hheld). cbn [negb]. cbv zeta.
  rewrite (copy_names ds r Hne Hd Hc). destruct Hc as (Hb & Hcount & Hsha). unfold scan_snapshot. cbn [EntryCount SnapSHA256].
  rewrite Hcount, Hsha, Hb, Z.eqb_refl. cbn [negb orb].
  destruct (Z.eqb_spec (Z.of_nat (length ds)) 0) as [E|_]; [destruct ds; [done|cbn in E; lia]|]. cbn [orb].
  rewrite EqualFold_refl by apply hex_ascii. cbn [negb]. by rewrite (restore_success env ds s n).
Qed.
Lemma save_held env source domains s s' id : store_ok s → domains ≠ [] → Forall allow_name domains →
  SaveWhitelistSnapshot env source domains s = (s', inr id) →
  held (new_copy env source domains s) s' ∧ snap_id (new_copy env source domains s) = id ∧ copy_of domains (new_copy env source domains s).
Proof.
  intros Hok Hne Hd Hs. pose proof (save_cases env source domains s) as Hc. rewrite Hs in Hc. destruct Hc as [-> ->].
  split; [|done]. apply held_prune; [by apply with_copy_ok|unfold held; cbn; set_solver|].
  change (snapshot_seq s + 1 < snapshot_seq s + 1 + 3)%Z. lia.
Qed.

(** C10: a copy brings the allow list back.  Whatever any process does to the store after
    the copy was taken — imports, restores, copies of its own, with any statement
    failing — as long as fewer than three further ids were handed out, restoring it makes
    the table exactly the copied set under the next revision, reports the number of names
    copied, is not held to the floors and leaves the copies in place, so that it can be
    done again.  (It needs working statements and a readable revision.) *)
Theorem rollback_restores env env' source domains s s1 s2 id n :
  rtc store_step empty_allow_store s → domains ≠ [] → Forall allow_name domains →
  SaveWhitelistSnapshot env source domains s = (s1, inr id) →
  rtc store_step s1 s2 → (snapshot_seq s2 < id + 3)%Z → healthy env' → stored_revision s2 = Some n →
  ∃ s3, RestoreWhitelistSnapshot env' id s2 = (s3, inr (Z.of_nat (length domains)))
    ∧ allow_rows s3 = list_to_set domains ∧ allow_revision s3 = Some (FormatInt (wrap64 (n + 1)))
    ∧ snapshots s3 = snapshots s2.
Proof.
  intros Hr Hne Hd Hs Hs2 Hq Hh Hn. pose proof (store_steps_ok _ _ empty_store_ok Hr) as Hok.
  destruct (save_held _ _ _ _ _ _ Hok Hne Hd Hs) as (Hheld & Hid & Hc).
  pose proof (save_ok env source domains s Hok Hne Hd) as Hok1. rewrite Hs in Hok1. cbn [fst] in Hok1.
  apply (steps_held _ s1 s2 Hok1) in Hheld; [|done|by rewrite Hid].
  pose proof (restore_held env' domains _ s2 n (store_steps_ok _ _ Hok1 Hs2) Hh Hn Hheld Hne Hd Hc) as Hres.
  rewrite Hid in Hres. eexists. split; [exact Hres|done].
Qed.
End Histories.

(** ** The index of a process *)

Section Index.
Context `{UnicodeTables, HostServices, FeedLibs, SqlTime, TableOrder, FloatMath}.

(** A load that has read the revision, and perhaps the count: the states it read them in. *)
Record Pending := mkPending { load_env : AllowEnv; read_revision : AllowStore; read_count : option AllowStore }.
(** The store, the index of one process and its loads under way. *)
Record AllowWorld := mkWorld { store : AllowStore; index : Whitelist; loads : list Pending }.
Inductive allow_step : AllowWorld → AllowWorld → Prop :=
| world_store s s' w ls : store_step s s' → allow_step (mkWorld s w ls) (mkWorld s' w ls)
| world_revision env s w ls : allow_step (mkWorld s w ls) (mkWorld s w (mkPending env s None :: ls))
| world_count env s1 s w ls1 ls2 : allow_step (mkWorld s w (ls1 ++ mkPending env s1 None :: ls2))
    (mkWorld s w (ls1 ++ mkPending env s1 (Some s) :: ls2))
| world_rows env s1 s2 s w ls1 ls2 : allow_step (mkWorld s w (ls1 ++ mkPending env s1 (Some s2) :: ls2))
    (mkWorld s (LoadFromDB (load_reads env s1 s2 s) w).1 (ls1 ++ ls2)).
Definition initial_world : AllowWorld := mkWorld empty_allow_store NewWhitelist [].

(** The revision as a clock; one that no replacement can read is past all. *)
Definition rank (s : AllowStore) : Z := default (2 ^ 63)%Z (stored_revision s).
Definition later (s s' : AllowStore) : Prop :=
  (rank s <= rank s')%Z ∧ (rank s = rank s' → allow_rows s' = allow_rows s).
#[export] Instance later_preorder : PreOrder later.
Proof.
  split; [by split|]. intros s1 s2 s3 [H12 E12] [H23 E23]. split; [lia|]. intros E.
  rewrite E23, E12 by lia. done.
Qed.
Lemma update_later env domains floor s : store_ok s → later s (updateWhitelist env domains floor s).1.
Proof.
  intros Hok. pose proof (update_cases env domains floor s) as Hc.
  destruct (updateWhitelist env domains floor s) as [s' [e|]]; cbn [fst]; [by destruct Hc as [-> _]|].
  destruct Hc as (_ & n & Hn & ->). pose proof (stored_bound s n Hok Hn) as Hb. destruct (wrap64_next n Hb) as (H64 & _ & Hw).
  unfold later, rank. rewrite Hn, (stored_format _ (wrap64 (n + 1))) by done. cbn [default from_option].
  destruct (Z.ltb_spec (wrap64 (n + 1)) 0); cbn; lia.
Qed.
Lemma save_later env source domains s : later s (SaveWhitelistSnapshot env source domains s).1.
Proof.
  pose proof (save_cases env source domains s) as Hc.
  destruct (SaveWhitelistSnapshot env source domains s) as [s' [e|id]]; cbn [fst]; [by destruct Hc as [-> | ->]|].
  destruct Hc as [_ ->]. unfold pruneWhitelistSnapshots. by destruct (broken env ASnapPrune).
Qed.
Lemma step_later s s' : store_ok s → store_step s s' → later s s'.
Proof.
  intros Hok []; [by apply update_later|apply save_later| |done].
  destruct (restore_cases env id s Hok) as [-> | (ds & Hd & ->)]; [done|]. by apply update_later.
Qed.
Lemma revision_rank env s n : store_ok s → GetWhitelistRevision env s = inr n → rank s = n.
Proof.
  intros Hok. unfold GetWhitelistRevision, rank. destruct (allow_enabled env); cbn [negb]; [|done].
  destruct (broken env ARevisionGet); [done|]. destruct (so_revision s Hok) as [[Hr _]|(v & Hr & Hv & _)].
  - unfold stored_revision. rewrite Hr. by intros [= <-].
  - rewrite (stored_format s v Hr Hv), Hr. change (default "" (Some (FormatInt v))) with (FormatInt v). rewrite FormatInt_trim.
    destruct (String.eqb_spec (FormatInt v) "") as [E|_]; [by apply FormatInt_nonempty in E|].
    rewrite ParseInt_FormatInt by done. cbv zeta. destruct (v <? 0)%Z; [done|]. by intros [= <-].
Qed.
Lemma count_zero env s : GetWhitelistCount env s = inr 0%Z → allow_rows s = ∅.
Proof.
  unfold GetWhitelistCount. destruct (allow_enabled env); cbn [negb]; [|done]. destruct (broken env ACount); [done|].
  intros [= E]. apply leibniz_equiv, size_empty_inv. lia.
Qed.
Lemma reply_ok {A} (r : AllowError + A) a : reply r = Ok a → r = inr a.
Proof. destruct r; [done|]. by intros [= ->]. Qed.
Lemma stream_append env s : allow_enabled env = true →
  ∀ names, StreamWhitelist env append_domain s [] = Ok names → names = stream_order (allow_rows s).
Proof.
  intros Hen names. unfold StreamWhitelist. rewrite Hen. cbn [negb]. destruct (broken env AStream); [done|].
  assert (∀ rows acc, stream_rows append_domain rows acc = Ok (acc ++ rows)%list) as Hs.
  { induction rows as [|d rows IH]; intros acc; cbn; [by rewrite app_nil_r|]. by rewrite IH, <-app_assoc. }
  rewrite Hs. by intros [= <-].
Qed.
Class OrderLaws := { stream_order_elements s : stream_order s ≡ₚ elements s }.

Section Current.
Context `{!OrderLaws}.

(** What the index says about a store that carries its revision. *)
Definition index_ok (w : Whitelist) (s : AllowStore) : Prop :=
  (revision w <= rank s)%Z
  ∧ (revision w = rank s → ∃ names, (bloom w, exact w) = buildIndex names ∧ names ≡ₚ elements (allow_rows s)).
Definition pending_ok (s : AllowStore) (p : Pending) : Prop :=
  store_ok (read_revision p) ∧ later (read_revision p) s
  ∧ ∀ s2, read_count p = Some s2 → later (read_revision p) s2 ∧ later s2 s.
Record world_ok (x : AllowWorld) : Prop := {
  wo_store : store_ok (store x);
  wo_index : index_ok (index x) (store x);
  wo_loads : Forall (pending_ok (store x)) (loads x)
}.
Lemma index_later w s s' : index_ok w s → later s s' → index_ok w s'.
Proof. intros [Hle He] [Hl El]. split; [lia|]. intros E. rewrite El by lia. apply He. lia. Qed.
Lemma pending_later s s' p : pending_ok s p → later s s' → pending_ok s' p.
Proof.
  intros (Hok & Hl & Hc) Hs. split_and!; [done|by etrans|]. intros s2 E. destruct (Hc s2 E). split; [done|by etrans].
Qed.
Lemma buildIndex_nil : buildIndex [] = (None, []).
Proof. done. Qed.
Lemma load_index_ok env s1 s2 s w : store_ok s1 → later s1 s2 → later s2 s → index_ok w s →
  index_ok (LoadFromDB (load_reads env s1 s2 s) w).1 s.
Proof.
  intros Hok Hlat12 Hlat2 Hi. unfold LoadFromDB, load_reads.
  destruct (allow_enabled env) eqn:Een; cbn [loadFromDB recordLoad]; [|by destruct Hi].
  destruct (reply (GetWhitelistRevision env s1)) as [n|] eqn:Er; [|by destruct Hi].
  apply reply_ok, (revision_rank env s1 n Hok) in Er. cbn [r_count r_revision].
  destruct (reply (GetWhitelistCount env s2)) as [c|] eqn:Ec; [|by destruct Hi]. apply reply_ok in Ec.
  pose proof (transitivity Hlat12 Hlat2) as [Hle Heq].
  destruct (Z.eqb_spec c 0) as [->|_].
  - destruct (0 <? ExactCount (Some w))%Z; [by destruct Hi|]. split; cbn; [lia|].
    intros E. exists []. split; [done|]. rewrite (proj2 Hlat2) by (destruct Hlat12, Hlat2; lia).
    by rewrite (count_zero env s2 Ec), elements_empty.
  - cbn [r_stream]. destruct (StreamWhitelist env append_domain s []) as [names|] eqn:Es; [|by destruct Hi].
    apply (stream_append env s Een) in Es as ->.
    destruct (buildIndex (stream_order (allow_rows s))) as [bf ex] eqn:Eb. split; cbn; [lia|]. intros _.
    exists (stream_order (allow_rows s)). split; [done|apply stream_order_elements].
Qed.
Lemma allow_step_ok x x' : world_ok x → allow_step x x' → world_ok x'.
Proof.
  intros Hx Hst. destruct Hst; destruct Hx as [Hs Hi Hl]; cbn in *.
  - pose proof (step_later s s' Hs ltac:(done)) as Hlat. split; cbn; [by eapply store_step_ok|by eapply index_later|].
    eapply Forall_impl; [exact Hl|]. intros p Hp. by eapply pending_later.
  - split; cbn; [done|done|]. constructor; [|done]. split_and!; cbn; [done|done|by intros].
  - apply Forall_app in Hl as [Hl1 Hl2]. inversion_clear Hl2 as [|?? Hp Hl2']. split; cbn; [done|done|].
    apply Forall_app. split; [done|]. constructor; [|done]. destruct Hp as (Hok & Hlat & _). split_and!; cbn in *; [done|done|].
    by intros s2 [= <-].
  - apply Forall_app in Hl as [Hl1 Hl2]. inversion_clear Hl2 as [|?? Hp Hl2']. split; cbn; [done| |by apply Forall_app].
    destruct Hp as (Hok & Hlat & Hc). cbn in *. destruct (Hc s2 eq_refl). by apply load_index_ok.
Qed.
Lemma initial_world_ok : world_ok initial_world.
Proof.
  split; cbn; [apply empty_store_ok|split; [done|]|constructor].
  intros _. by exists [].
Qed.
Lemma world_steps_ok x x' : world_ok x → rtc allow_step x x' → world_ok x'.
Proof. intros Hok Hs. induction Hs as [|x x' x'' Hst _ IH]; [done|]. by apply IH, (allow_step_ok x). Qed.

(** C7: an index that carries the stored revision is the stored allow list.  Several
    processes import, restore and copy while a process loads its index, possibly several
    times at once, reading the revision, the count and the rows in three statements that
    anything may happen between and each of which may fail.  Whenever the revision in the
    store is then the one the index carries — the comparison by which the reload decides
    that there is nothing to do — the index allows a name exactly when the name or one of
    its parents down to the registrable domain is in the table. *)
Theorem index_current B `{!LogLaws B} x env d :
  rtc allow_step initial_world x → GetWhitelistRevision env (store x) = inr (revision (index x)) →
  (Z.of_nat (size (allow_rows (store x))) <= B)%Z →
  IsAllowed (Some (index x)) (λ _, false) d = true ↔ ∃ c, c ∈ walk_candidates d ∧ c ≠ "" ∧ c ∈ allow_rows (store x).
Proof.
  intros Hr Hrev HB. pose proof (world_steps_ok _ _ initial_world_ok Hr) as [Hs [_ Hi] _].
  apply (revision_rank env _ _ Hs) in Hrev. destruct (Hi (eq_sym Hrev)) as (names & Hb & Hp).
  rewrite (allowed_iff B (index x) names d).
  - by setoid_rewrite Hp; setoid_rewrite elem_of_elements.
  - split; [done|]. rewrite Hp. done.
Qed.
End Current.
End Index.

(** ** Examples *)

Module Examples.
#[local] Instance ex_tables : UnicodeTables := ascii_tables.
#[local] Instance ex_services : HostServices := two_label_services.
#[local] Existing Instance FeedSpec.Examples.ex_feed_libs.
#[local] Instance ex_time : SqlTime := {| sql_text t := pretty t; sql_datetime _ := None |}.
#[local] Instance ex_order : TableOrder := {| stream_order := elements |}.
#[local] Instance ex_order_laws : OrderLaws := {| stream_order_elements s := reflexivity _ |}.
#[local] Existing Instances WhitelistSpec.Examples.ex_math WhitelistSpec.Examples.ex_log.

Definition working : AllowEnv := mkAllowEnv true 100 None None (λ _, None).
Definition names : list string := ["example.com"].
Lemma name_ok : allow_name "example.com".
Proof. split; [by apply (normalize_wf_aux "Example.com")|by vm_compute]. Qed.
Lemma names_ok : Forall allow_name names.
Proof. constructor; [apply name_ok|constructor]. Qed.

(** Any first import is accepted; a second one has to reach the floor of a hundred names. *)
Definition imported : AllowStore := (UpdateWhitelist working names empty_allow_store).1.
Example second_import : (UpdateWhitelist working ["example.org"] imported).2
  = Some (ErrWhitelistBelowFloor "source returned 1 usable entries, floor is 100; the live whitelist of 1 entries is unchanged").
Proof. vm_compute. reflexivity. Qed.
(** The floors count the names of the source, not the rows they make: a source that
    repeats one name is large enough for any floor, and leaves one name. *)
Example repeated_name :
  let '(s, e) := UpdateWhitelist working (replicate 100 "example.org") imported in
  e = None ∧ size (allow_rows s) = 1%nat.
Proof. vm_compute. done. Qed.

Definition copied : AllowStore := (SaveWhitelistSnapshot working "source" names empty_allow_store).1.
Lemma rollback_restores_witness :
  ∃ s3, RestoreWhitelistSnapshot working 1 copied = (s3, inr 1%Z)
    ∧ allow_rows s3 = list_to_set names ∧ allow_revision s3 = Some (FormatInt (wrap64 (0 + 1)))
    ∧ snapshots s3 = snapshots copied.
Proof.
  apply (rollback_restores working working "source" names empty_allow_store copied copied 1 0); try done.
  apply names_ok.
Defined.

Definition loaded : AllowWorld :=
  mkWorld imported (LoadFromDB (load_reads working imported imported imported) NewWhitelist).1 [].
Lemma loaded_reachable : rtc allow_step initial_world loaded.
Proof.
  eapply rtc_l; [apply (world_store _ imported); apply step_import, names_wf, names_ok|].
  eapply rtc_l; [apply (world_revision working)|].
  eapply rtc_l; [apply (world_count working imported imported NewWhitelist [] [])|].
  eapply rtc_l; [apply (world_rows working imported imported imported NewWhitelist [] [])|].
  apply rtc_refl.
Qed.
Lemma index_current_witness :
  IsAllowed (Some (index loaded)) (λ _, false) "mail.example.com" = true ↔
  ∃ c, c ∈ walk_candidates "mail.example.com" ∧ c ≠ "" ∧ c ∈ allow_rows (store loaded).
Proof.
  apply (index_current 3 loaded working); [apply loaded_reachable|vm_compute; reflexivity|vm_compute; done].
Defined.
End Examples.
