(* ===== verification/WhitelistUpdate.v ===== *)
(** * Updating and rolling back the allow list: [internal/agent/whitelist_update.go] and
    [internal/api/handlers/whitelist_snapshot.go]

    The scheduled task (download, checksum, parse, copy, replace, rebuild, undo) and the
    operator's rollback, over the tables of [WhitelistStore] and the in-process index of
    [Whitelist].  The reply of the source, the archive reader and the failing statements
    are inputs.  Then the theorems: what a run may change, from what, and how it is undone;
    what the reply to a rollback promises. *)

From Stdlib Require Import ZArith Lia Ascii String SpecFloat.
From stdpp Require Import pretty relations.
From S2P Require Import Prelude GoStr Hostname NetIP GoFloat Whitelist WhitelistSpec Groups Exceptions Feed FeedSpec FeedSync DomainML ConfigReload NetGuard Session AuthAPI AdblockLists AgentLog WhitelistStore WhitelistStoreSpec.

(** ** The task *)

Record WhitelistUpdateConfig := mkUpdateConfig {
  UpdateSourceURL : string; UpdateTimeout : Z; UpdateEnabled : bool; MaxDownloadBytes : Z;
  AllowPrivateSources : bool; ExpectedSHA256 : string
}.
Definition DefaultWhitelistDownloadBytes : Z := 64 * 1048576.
(** The defaults of [NewWhitelistUpdateTask]. *)
Definition update_defaults (cfg : WhitelistUpdateConfig) : WhitelistUpdateConfig :=
  mkUpdateConfig (UpdateSourceURL cfg)
    (if (UpdateTimeout cfg <=? 0)%Z then (300 * 1000000000)%Z else UpdateTimeout cfg) (UpdateEnabled cfg)
    (if (MaxDownloadBytes cfg <=? 0)%Z then DefaultWhitelistDownloadBytes else MaxDownloadBytes cfg)
    (AllowPrivateSources cfg) (ExpectedSHA256 cfg).
Definition parse_cap : Z := 128 * 1024 * 1024.
(** [bufio.MaxScanTokenSize] *)
Definition scanner_cap : Z := 65536.

(** [zip.NewReader]: the entries with what opening each gives; and the texts of events
    and rollback bodies ([encoding/json], [%q]). *)
Class ZipReader := { zip_files : string → result (list (string * result Stream)) }.
Record whitelistRollbackDetails := mkRollback {
  RollbackSnapshot : Z; RollbackEntries : Z; RollbackActor : string; RollbackReason : string;
  RollbackRevision : Z; RollbackCorrelation : string
}.
(** A request body: at its end, not JSON (or over the limit), or with a reason. *)
Inductive rollback_body := BodyEOF | BodyInvalid | BodyReason (reason : string).
Class UpdateTexts := {
  error_details : string → string;
  completed_details : Z → Z → string;
  decode_rollback : nat → string → rollback_body;
  encode_rollback : whitelistRollbackDetails → result string;
  decode_details : string → option whitelistRollbackDetails
}.
(** Building the request, and the exchange through the guarded client: an error, or the
    status and the body. *)
Record SourceExchange := mkSourceExchange { request_error : option string; exchange_reply : result (Z * Stream) }.

Section Task.
Context `{UnicodeTables, HostServices, FeedLibs, FloatMath, SqlTime, TableOrder, ZipReader, UpdateTexts}.

(** [io.LimitReader]: the error behind the limit is not reached. *)
Definition limit_stream (n : Z) (s : Stream) : Stream :=
  mkStream (limit_reader n (content s)) (if (Z.of_nat (slen (content s)) <? n)%Z then read_error s else None).
(** A [bufio.Scanner] with its default buffer. *)
Definition scan_default (s : Stream) : list string * option string :=
  (scan_lines (content s),
   if forallb (λ l, Z.of_nat (slen l) <? scanner_cap)%Z (raw_lines (content s)) then read_error s
   else Some "bufio.Scanner: token too long").
(** The name of a line, [None] when the line is skipped. *)
Definition csv_name (line : string) : option string :=
  let line := TrimSpace line in
  if String.eqb line "" || HasPrefix line "#" then None
  else
    let domain := match Split line "," with _ :: second :: _ => second | first :: _ => first | [] => "" end in
    match NormalizeDomain domain with
    | Ok normalized => if String.eqb normalized "" then None else Some normalized
    | Err _ => None
    end.
Definition parseCSV (r : Stream) : result (list string) :=
  let '(lines, scan_error) := scan_default (limit_stream parse_cap r) in
  match scan_error with Some e => Err ("scan csv: " ++ e) | None => Ok (omap csv_name lines) end.
Definition verifyChecksum (cfg : WhitelistUpdateConfig) (body : string) : option string :=
  let expected := ToLower (TrimSpace (ExpectedSHA256 cfg)) in
  if String.eqb expected "" then None
  else
    let actual := hex_string (sha256_sum body) in
    if negb (String.eqb actual expected)
    then Some ("whitelist source checksum mismatch: got " ++ actual ++ ", want " ++ expected) else None.
(** The first entry whose name ends in [.csv], else the first one. *)
Definition pick_file (files : list (string * result Stream)) : option (string * result Stream) :=
  match List.find (λ f, HasSuffix (ToLower f.1) ".csv") files with
  | Some f => Some f
  | None => head files
  end.
Definition parse_body (body : string) : result (list string) :=
  match zip_files body with
  | Err _ => parseCSV (mkStream body None)
  | Ok files =>
      match pick_file files with
      | None => Err "no files found inside ZIP archive"
      | Some (_, Err e) => Err ("open file inside zip: " ++ e)
      | Some (_, Ok rc) => parseCSV rc
      end
  end.
(** [parse] is [url.Parse]. *)
Definition downloadAndParse (parse : string → result OutURL) (exchange : SourceExchange) (cfg : WhitelistUpdateConfig)
    : result (list string) :=
  match ValidateURL parse (UpdateSourceURL cfg) (AllowPrivateSources cfg) with
  | Err e => Err ("validate whitelist source: " ++ e)
  | Ok _ =>
      match request_error exchange with
      | Some e => Err ("create request: " ++ e)
      | None =>
          match exchange_reply exchange with
          | Err e => Err ("http request: " ++ e)
          | Ok (status, body) =>
              if negb (status =? 200)%Z then Err ("http error: status code " ++ pretty status)
              else
                let limit := if (MaxDownloadBytes cfg <=? 0)%Z then DefaultWhitelistDownloadBytes else MaxDownloadBytes cfg in
                let buffered := limit_stream (limit + 1) body in
                match read_error buffered with
                | Some e => Err ("read response body: " ++ e)
                | None =>
                    if (limit <? Z.of_nat (slen (content buffered)))%Z
                    then Err ("whitelist source exceeds " ++ pretty limit ++ " bytes download cap")
                    else match verifyChecksum cfg (content buffered) with
                    | Some e => Err e
                    | None => parse_body (content buffered)
                    end
                end
          end
      end
  end.

(** The process's view: the store and the index. *)
Record AllowProcess := mkAllowProcess { durable : AllowStore; index : Whitelist }.
Definition record_event (env : AllowEnv) (eventType details : string) (s : AllowStore) : AllowStore :=
  set_allow_log (recordAgentEventBestEffort (allow_enabled env) (broken env AEvent) (allow_now env)
                   "whitelist_update" eventType "" details (allow_log s)) s.
Definition snapshotCurrentAllowList (env : AllowEnv) (cfg : WhitelistUpdateConfig) (s : AllowStore)
    : AllowStore * result Z :=
  match StreamWhitelist env append_domain s [] with
  | Err e => (s, Err ("read current whitelist for snapshot: " ++ e))
  | Ok [] => (s, Ok 0%Z)
  | Ok domains =>
      match SaveWhitelistSnapshot env (UpdateSourceURL cfg) domains s with
      | (s, inl e) => (s, Err ("save whitelist snapshot: " ++ allow_text e))
      | (s, inr id) => (s, Ok id)
      end
  end.
(** The load of this process, with nothing in between. *)
Definition load_index (env : AllowEnv) (s : AllowStore) (w : Whitelist) : Whitelist * option string :=
  LoadFromDB (load_reads env s s s) w.
Definition restoreSnapshot (env : AllowEnv) (id : Z) (p : AllowProcess) : AllowProcess :=
  if (id =? 0)%Z then p
  else match RestoreWhitelistSnapshot env id (durable p) with
  | (s, inl _) => mkAllowProcess s (index p)
  | (s, inr _) => mkAllowProcess s (load_index env s (index p)).1
  end.
(** [env]: the statements of the run; [recovery]: those after a failed rebuild;
    [elapsed]: of the whole run, in milliseconds. *)
Definition Run (env recovery : AllowEnv) (parse : string → result OutURL) (exchange : SourceExchange) (elapsed : Z)
    (cfg : WhitelistUpdateConfig) (p : AllowProcess) : AllowProcess * option string :=
  if negb (UpdateEnabled cfg) then (p, None)
  else if negb (allow_enabled env)
  then (p, Some "sqlite store is disabled or nil, cannot run whitelist update task")
  else if String.eqb (UpdateSourceURL cfg) "" then (p, Some "whitelist update source URL is empty")
  else
    let s := record_event env "whitelist_update_started" "Download and import started" (durable p) in
    let failed (env : AllowEnv) (e : string) (s : AllowStore) := record_event env "whitelist_update_failed" (error_details e) s in
    match downloadAndParse parse exchange cfg with
    | Err e => (mkAllowProcess (failed env e s) (index p), Some e)
    | Ok domains =>
        match snapshotCurrentAllowList env cfg s with
        | (s, Err e) => (mkAllowProcess (failed env e s) (index p), Some ("snapshot allow list: " ++ e))
        | (s, Ok snapshotID) =>
            match UpdateWhitelist env domains s with
            | (s, Some e) => (mkAllowProcess (failed env (allow_text e) s) (index p), Some ("update sqlite: " ++ allow_text e))
            | (s, None) =>
                match load_index env s (index p) with
                | (w, Some e) =>
                    (restoreSnapshot recovery snapshotID (mkAllowProcess (failed env e s) w), Some ("reload bloom filter: " ++ e))
                | (w, None) =>
                    (mkAllowProcess (record_event env "whitelist_update_completed"
                                  (completed_details (Z.of_nat (length domains)) elapsed) s) w, None)
                end
            end
        end
    end.

(** ** The handlers *)

Definition whitelistRollbackReasonMinRunes : nat := 8.
Record RollbackView := mkRollbackView { ViewEvent : AgentEvent; ViewDetails : option whitelistRollbackDetails }.
Inductive SnapshotReply :=
| SnapshotList (snapshots : list WhitelistSnapshot) (last_rollback : option RollbackView)
| RolledBack (snapshot entries revision : Z) (published audit_recorded : bool)
| SnapshotRefused (r : Response).
Definition refuse (status : Z) (message : string) : SnapshotReply := SnapshotRefused (WriteError status message).
Definition store_refused (e : AllowError) (publicMessage : string) : SnapshotReply :=
  refuse (match e with AllowDisabled => 503 | _ => 500 end)%Z publicMessage.
Definition whitelistRollbackView (event : AgentEvent) : RollbackView :=
  mkRollbackView event (decode_details (EvDetails event)).
Definition WhitelistSnapshotHandler (env : AllowEnv) (method : string) (s : AllowStore) : SnapshotReply :=
  if negb (String.eqb method "GET") then refuse 405 "method not allowed"
  else if negb (allow_enabled env) then refuse 503 "whitelist snapshots require the sqlite store"
  else match ListWhitelistSnapshots env s with
  | inl e => store_refused e "failed to list the whitelist snapshots"
  | inr items =>
      match LatestWhitelistRollback env s with
      | inl e => store_refused e "failed to read the last whitelist rollback"
      | inr event => SnapshotList items (whitelistRollbackView <$> event)
      end
  end.
Definition decodeWhitelistRollbackReason (body : string) : result string :=
  match decode_rollback 4096 body with
  | BodyInvalid => Err "invalid JSON body"
  | (BodyEOF | BodyReason _) as b =>
      let reason := TrimSpace (match b with BodyReason r => r | _ => "" end) in
      if Nat.ltb (length (runes reason)) whitelistRollbackReasonMinRunes
      then Err "reason is required and must be at least 8 characters" else Ok reason
  end.
(** The snapshot asked for: the [id] parameter, or the newest. *)
Definition requested_snapshot (env : AllowEnv) (raw : string) (s : AllowStore) : SnapshotReply + Z :=
  if negb (String.eqb raw "") then
    match ParseInt64 raw with Some id => inr id | None => inl (refuse 400 "id must be an integer") end
  else match LatestWhitelistSnapshot env s with
  | inl ErrWhitelistSnapshotNotFound => inl (refuse 404 "no whitelist snapshot is available")
  | inl _ => inl (refuse 500 "failed to read the whitelist snapshot")
  | inr snapshot => inr (SnapID snapshot)
  end.
Definition restore_refused (e : AllowError) : SnapshotReply :=
  match e with
  | ErrWhitelistSnapshotNotFound => refuse 404 "whitelist snapshot not found"
  | ErrWhitelistSnapshotEmpty _ | ErrWhitelistSnapshotCorrupt _ => refuse 500 "whitelist snapshot failed verification"
  | _ => refuse 500 "failed to restore the whitelist snapshot"
  end.
(** [raw]: the [id] parameter; [who], [correlation]: of the request's context; [stamp]:
    of the reload message; [publish_failure]: of the Redis command. *)
Definition WhitelistRollbackHandler (env : AllowEnv) (o : ReloadOptions) (stamp : string) (publish_failure : option string)
    (method raw body : string) (who : option authIdentity) (correlation : string) (p : AllowProcess)
    : AllowProcess * SnapshotReply * option (string * analysisConfigReloadEvent) :=
  if negb (String.eqb method "POST") then (p, refuse 405 "method not allowed", None)
  else if negb (allow_enabled env) then (p, refuse 503 "whitelist rollback requires the sqlite store", None)
  else match decodeWhitelistRollbackReason body with
  | Err e => (p, refuse 400 e, None)
  | Ok reason =>
      match requested_snapshot env raw (durable p) with
      | inl r => (p, r, None)
      | inr snapshotID =>
          match RestoreWhitelistSnapshot env snapshotID (durable p) with
          | (s, inl e) => (mkAllowProcess s (index p), restore_refused e, None)
          | (s, inr restored) =>
              match load_index env s (index p) with
              | (w, Some _) =>
                  (mkAllowProcess s w, refuse 500 "the whitelist was restored but the index could not be rebuilt", None)
              | (w, None) =>
                  let '(message, published) := PublishWhitelistReload o (Whitelist.revision w) stamp publish_failure in
                  let actor := match who with Some who => IdUsername who | None => "" end in
                  let details := mkRollback snapshotID restored actor reason (Whitelist.revision w) correlation in
                  let encoded := match encode_rollback details with Ok text => text | Err _ => "{}" end in
                  let '(log, audit) := RecordAgentEvent (allow_enabled env) (broken env AEvent) (allow_now env)
                                         "whitelist" "rollback" "" encoded (allow_log s) in
                  (mkAllowProcess (set_allow_log log s) w,
                   RolledBack snapshotID restored (Whitelist.revision w) (match published with Ok b => b | Err _ => false end)
                     (match audit with None => true | Some _ => false end), message)
              end
          end
      end
  end.
End Task.

(** ** Theorems *)

Section Updates.
Context `{UnicodeTables, HostServices, FeedLibs, FloatMath, SqlTime, TableOrder, ZipReader, UpdateTexts}.

(** ** Downloads *)

Lemma csv_name_wf line d : csv_name line = Some d → well_formed d.
Proof.
  unfold csv_name. destruct (_ || _); [done|].
  destruct (NormalizeDomain _) as [n|] eqn:E; [|done]. destruct (String.eqb n ""); [done|]. intros [= <-].
  by eapply normalize_wf_aux.
Qed.
Lemma parseCSV_wf r ds : parseCSV r = Ok ds → Forall well_formed ds.
Proof.
  unfold parseCSV. destruct (scan_default _) as [lines [e|]]; [done|]. intros [= <-].
  apply Forall_forall. intros d (line & _ & Hl)%list_elem_of_omap. by eapply csv_name_wf.
Qed.
Lemma parse_body_wf body ds : parse_body body = Ok ds → Forall well_formed ds.
Proof.
  unfold parse_body. destruct (zip_files body); [|apply parseCSV_wf].
  destruct (pick_file _) as [[? [?|?]]|]; try done; apply parseCSV_wf.
Qed.
Definition download_limit (cfg : WhitelistUpdateConfig) : Z :=
  if (MaxDownloadBytes cfg <=? 0)%Z then DefaultWhitelistDownloadBytes else MaxDownloadBytes cfg.
(** A body that may be imported: complete, within the cap, with the digest the operator
    expects, from a source the outbound policy admits. *)
Definition verified_body (parse : string → result OutURL) (exchange : SourceExchange) (cfg : WhitelistUpdateConfig) (body : string)
    : Prop :=
  (∃ u, ValidateURL parse (UpdateSourceURL cfg) (AllowPrivateSources cfg) = Ok u)
  ∧ (∃ stream, exchange_reply exchange = Ok (200%Z, stream) ∧ content stream = body ∧ read_error stream = None)
  ∧ (Z.of_nat (slen body) <= download_limit cfg)%Z
  ∧ (ToLower (TrimSpace (ExpectedSHA256 cfg)) ≠ "" → hex_string (sha256_sum body) = ToLower (TrimSpace (ExpectedSHA256 cfg))).
Lemma limit_reader_length n text : (0 <= n)%Z → Z.of_nat (slen (limit_reader n text)) = Z.min n (Z.of_nat (slen text)).
Proof.
  intros Hn. unfold limit_reader. destruct (Z.leb_spec (Z.of_nat (slen text)) n); [lia|].
  assert (∀ (k : nat) s, (k <= slen s)%nat → slen (String.substring 0 k s) = k) as Hs.
  { induction k as [|k IH]; intros [|c s] Hk; cbn in *; [done|done|lia|]. by rewrite IH by lia. }
  rewrite Hs by lia. lia.
Qed.
Lemma download_verified parse exchange cfg ds : downloadAndParse parse exchange cfg = Ok ds →
  ∃ body, verified_body parse exchange cfg body ∧ parse_body body = Ok ds.
Proof.
  unfold downloadAndParse, verified_body. destruct (ValidateURL _ _ _) as [u|]; [|done].
  destruct (request_error exchange); [done|]. destruct (exchange_reply exchange) as [[status stream]|]; [|done].
  destruct (Z.eqb_spec status 200) as [->|]; [|done]. cbn [negb]. cbv zeta. fold (download_limit cfg).
  assert (0 < download_limit cfg)%Z as Hpos.
  { unfold download_limit. destruct (Z.leb_spec (MaxDownloadBytes cfg) 0); [unfold DefaultWhitelistDownloadBytes; lia|lia]. }
  set (buffered := limit_stream (download_limit cfg + 1) stream).
  destruct (read_error buffered) eqn:Ee; [done|].
  destruct (Z.ltb_spec (download_limit cfg) (Z.of_nat (slen (content buffered)))) as [|Hle]; [done|].
  subst buffered. unfold limit_stream in Ee, Hle |- *. cbn [content read_error] in Ee, Hle |- *.
  rewrite limit_reader_length in Hle by lia.
  assert (limit_reader (download_limit cfg + 1) (content stream) = content stream) as ->.
  { unfold limit_reader. destruct (Z.leb_spec (Z.of_nat (slen (content stream))) (download_limit cfg + 1)); [done|lia]. }
  destruct (Z.ltb_spec (Z.of_nat (slen (content stream))) (download_limit cfg + 1)); [|lia].
  destruct (verifyChecksum cfg (content stream)) eqn:Ev; [done|]. intros Hp. exists (content stream).
  split; [|done]. split_and!; [eauto|eauto|lia|]. revert Ev. unfold verifyChecksum. cbv zeta.
  destruct (String.eqb_spec (ToLower (TrimSpace (ExpectedSHA256 cfg))) ""); [done|].
  destruct (String.eqb_spec (hex_string (sha256_sum (content stream))) (ToLower (TrimSpace (ExpectedSHA256 cfg)))); [done|done].
Qed.

(** ** A run, as operations of the store *)

Context `{!OrderLaws}.

Lemma log_rows_same l s : allow_rows (set_allow_log l s) = allow_rows s.
Proof. done. Qed.
Lemma stream_names s : store_ok s → Forall allow_name (stream_order (allow_rows s)).
Proof.
  intros Hok. rewrite (stream_order_elements (allow_rows s)). apply Forall_forall. intros d Hd%elem_of_elements. by apply (so_names s).
Qed.
Lemma stream_set s : list_to_set (stream_order (allow_rows s)) = allow_rows s.
Proof. rewrite (list_to_set_perm_L _ _ (stream_order_elements (allow_rows s))). apply list_to_set_elements_L. Qed.
Lemma stream_length s : length (stream_order (allow_rows s)) = size (allow_rows s).
Proof. by rewrite (stream_order_elements (allow_rows s)). Qed.

(** The copy a run takes first: none of an empty table, else one of exactly the rows. *)
Lemma snapshot_cases env cfg s : allow_enabled env = true →
  let '(s', r) := snapshotCurrentAllowList env cfg s in
  match r with
  | Err _ => allow_rows s' = allow_rows s ∧ allow_revision s' = allow_revision s ∧ (store_ok s → rtc store_step s s')
  | Ok id => (id = 0%Z ∧ s' = s ∧ allow_rows s = ∅)
             ∨ (stream_order (allow_rows s) ≠ []
                ∧ SaveWhitelistSnapshot env (UpdateSourceURL cfg) (stream_order (allow_rows s)) s = (s', inr id))
  end.
Proof.
  intros Hen. unfold snapshotCurrentAllowList.
  destruct (StreamWhitelist env append_domain s []) as [ds|e] eqn:Es; [|done].
  apply (stream_append env s Hen) in Es as ->.
  destruct (stream_order (allow_rows s)) as [|d ds] eqn:Eo.
  - left. split_and!; [done|done|]. by rewrite <-stream_set, Eo.
  - pose proof (save_cases env (UpdateSourceURL cfg) (d :: ds) s) as Hc.
    destruct (SaveWhitelistSnapshot _ _ _ _) as [s' [e|id]] eqn:Ev; [|by right].
    split_and!; [by destruct Hc as [-> | ->]..|]. intros Hok.
    pose proof (step_copy s env (UpdateSourceURL cfg) (d :: ds) ltac:(done)) as Hst. rewrite Ev in Hst.
    apply rtc_once, Hst. rewrite <-Eo. by apply stream_names.
Qed.
Lemma save_same env source ds s s' id : SaveWhitelistSnapshot env source ds s = (s', inr id) →
  allow_rows s' = allow_rows s ∧ allow_revision s' = allow_revision s ∧ id = (snapshot_seq s + 1)%Z ∧ snapshot_seq s' = id.
Proof.
  intros Hs. pose proof (save_cases env source ds s) as Hc. rewrite Hs in Hc. destruct Hc as [-> ->].
  unfold pruneWhitelistSnapshots. by destruct (broken env ASnapPrune).
Qed.

(** The table before and after: the same names under the same revision. *)
Definition same_table (s s' : AllowStore) : Prop := allow_rows s' = allow_rows s ∧ allow_revision s' = allow_revision s.
(** [s'] is [s] with the copy [id] of its rows; 0 stands for the copy of an empty table. *)
Definition copied (env : AllowEnv) (cfg : WhitelistUpdateConfig) (s : AllowStore) (id : Z) (s' : AllowStore) : Prop :=
  (id = 0%Z ∧ s' = s ∧ allow_rows s = ∅)
  ∨ (stream_order (allow_rows s) ≠ []
     ∧ SaveWhitelistSnapshot env (UpdateSourceURL cfg) (stream_order (allow_rows s)) s = (s', inr id)).
(** The ways a run ends. *)
Inductive run_result (env recovery : AllowEnv) (cfg : WhitelistUpdateConfig) (download : result (list string))
    (p : AllowProcess) : AllowProcess → option string → Prop :=
| run_kept s' e : same_table (durable p) s' → rtc store_step (durable p) s' → (e = None → UpdateEnabled cfg = false) →
    run_result env recovery cfg download p (mkAllowProcess s' (WhitelistUpdate.index p)) e
| run_replaced l l' ds id s1 s2 w : download = Ok ds → copied env cfg (set_allow_log l (durable p)) id s1 →
    UpdateWhitelist env ds s1 = (s2, None) → load_index env s2 (WhitelistUpdate.index p) = (w, None) →
    allow_enabled env = true →
    run_result env recovery cfg download p (mkAllowProcess (set_allow_log l' s2) w) None
| run_undone l l' ds id s1 s2 w e : download = Ok ds → copied env cfg (set_allow_log l (durable p)) id s1 →
    UpdateWhitelist env ds s1 = (s2, None) → allow_enabled env = true →
    run_result env recovery cfg download p (restoreSnapshot recovery id (mkAllowProcess (set_allow_log l' s2) w)) (Some e).
Lemma event_steps l s s' : rtc store_step s s' → rtc store_step s (set_allow_log l s').
Proof. intros Hs. eapply rtc_r; [exact Hs|constructor]. Qed.
Lemma run_cases env recovery parse exchange elapsed cfg p : store_ok (durable p) →
  let '(p', e) := Run env recovery parse exchange elapsed cfg p in
  run_result env recovery cfg (downloadAndParse parse exchange cfg) p p' e.
Proof.
  intros Hok. unfold Run. destruct p as [s w0]. cbn [durable WhitelistUpdate.index] in *.
  destruct (UpdateEnabled cfg) eqn:Een; cbn [negb]; [|by apply (run_kept _ _ _ _ (mkAllowProcess s w0))].
  destruct (allow_enabled env) eqn:Hen; cbn [negb]; [|by apply (run_kept _ _ _ _ (mkAllowProcess s w0))].
  destruct (String.eqb _ ""); [by apply (run_kept _ _ _ _ (mkAllowProcess s w0))|]. cbv zeta.
  unfold record_event at 1. set (l := recordAgentEventBestEffort _ _ _ _ _ _ _ _).
  destruct (downloadAndParse parse exchange cfg) as [ds|e] eqn:Ed.
  2: { apply (run_kept _ _ _ _ (mkAllowProcess s w0)); [done| |done]. by apply event_steps, event_steps. }
  pose proof (snapshot_cases env cfg (set_allow_log l s) Hen) as Hc.
  destruct (snapshotCurrentAllowList env cfg (set_allow_log l s)) as [s1 [id|e]].
  2: { destruct Hc as (Hrows & Hrev & Hst). apply (run_kept _ _ _ _ (mkAllowProcess s w0)); [done| |done].
       apply event_steps. etrans; [by apply rtc_once, (step_event s l)|]. apply Hst. by destruct Hok. }
  pose proof (update_cases env ds true s1) as Hu. unfold UpdateWhitelist.
  destruct (updateWhitelist env ds true s1) as [s2 [e|]] eqn:Eu.
  - destruct Hu as [-> _]. apply (run_kept _ _ _ _ (mkAllowProcess s w0)); [| |done].
    + destruct Hc as [(_ & -> & _)|[_ Hs]]; [done|]. by destruct (save_same _ _ _ _ _ _ Hs) as (? & ? & _).
    + apply event_steps. etrans; [by apply rtc_once, (step_event s l)|].
      destruct Hc as [(_ & -> & _)|[Hne Hs]]; [done|].
      pose proof (step_copy (set_allow_log l s) env (UpdateSourceURL cfg) _ Hne) as Hst. rewrite Hs in Hst.
      apply rtc_once, Hst, stream_names. by destruct Hok.
  - destruct (load_index env s2 w0) as [w [e|]] eqn:El; by eapply (run_replaced _ _ _ _ (mkAllowProcess s w0)) || by eapply (run_undone _ _ _ _ (mkAllowProcess s w0)).
Qed.

(** ** The copy a run leaves behind *)

Lemma copied_ok env cfg s id s' : store_ok s → copied env cfg s id s' → store_ok s'.
Proof.
  intros Hok [(_ & -> & _)|[Hne Hs]]; [done|].
  pose proof (save_ok env (UpdateSourceURL cfg) _ s Hok Hne (stream_names s Hok)) as Hok'. by rewrite Hs in Hok'.
Qed.
Lemma copied_same env cfg s id s' : copied env cfg s id s' → same_table s s'.
Proof. intros [(_ & -> & _)|[_ Hs]]; [done|]. by destruct (save_same _ _ _ _ _ _ Hs) as (? & ? & _). Qed.
(** After a run that replaced a list in use, its copy is the newest one. *)
Lemma copied_newest env cfg s id s' : store_ok s → copied env cfg s id s' → allow_rows s ≠ ∅ →
  id ≠ 0%Z ∧ snapshot_seq s' = id
  ∧ ∃ r, held r s' ∧ snap_id r = id ∧ copy_of (stream_order (allow_rows s)) r ∧ last (snapshots s') = Some r.
Proof.
  intros Hok [(_ & _ & He)|[Hne Hs]] Hrows; [done|]. destruct (save_same _ _ _ _ _ _ Hs) as (_ & _ & Hid & Hseq).
  destruct (save_held _ _ _ _ _ _ Hok Hne (stream_names s Hok) Hs) as (Hh & Hi & Hc).
  split; [destruct (so_seq s Hok); lia|]. split; [done|].
  exists (new_copy env (UpdateSourceURL cfg) (stream_order (allow_rows s)) s). split_and!; [done..|].
  pose proof (save_cases env (UpdateSourceURL cfg) (stream_order (allow_rows s)) s) as Hsc. rewrite Hs in Hsc.
  destruct Hsc as [_ ->]. unfold pruneWhitelistSnapshots. destruct (broken env ASnapPrune).
  - cbn. by rewrite last_snoc.
  - cbn [snapshots set_snapshots with_copy]. rewrite drop_app_le by (rewrite length_app; unfold MaxWhitelistSnapshots; cbn; lia). by rewrite last_snoc.
Qed.
Lemma restore_snapshots env id s : store_ok s →
  snapshots (RestoreWhitelistSnapshot env id s).1 = snapshots s
  ∧ snapshot_seq (RestoreWhitelistSnapshot env id s).1 = snapshot_seq s.
Proof.
  intros Hok. destruct (restore_cases env id s Hok) as [-> | (ds & Hd & ->)]; [done|]. apply update_snapshots.
Qed.
Lemma restoreSnapshot_store recovery id p :
  durable (restoreSnapshot recovery id p)
  = if (id =? 0)%Z then durable p else (RestoreWhitelistSnapshot recovery id (durable p)).1.
Proof.
  unfold restoreSnapshot. destruct (id =? 0)%Z; [done|]. by destruct (RestoreWhitelistSnapshot _ _ _) as [s [e|n]].
Qed.

(** ** What a run promises *)

(** The table was replaced by what a verified body holds. *)
Definition from_source (env : AllowEnv) (parse : string → result OutURL) (exchange : SourceExchange)
    (cfg : WhitelistUpdateConfig) (s s' : AllowStore) : Prop :=
  ∃ body ds, verified_body parse exchange cfg body ∧ parse_body body = Ok ds ∧ guard_passed env true ds s
    ∧ allow_rows s' = list_to_set (accepted_names ds).
(** The newest copy is one of [s], and brings it back after any history that hands out
    fewer than three further ids. *)
Definition undoable (s s' : AllowStore) : Prop :=
  ∃ id, (∀ env, healthy env → ∃ copy, LatestWhitelistSnapshot env s' = inr copy ∧ SnapID copy = id)
  ∧ ∀ env s2 n, rtc store_step s' s2 → (snapshot_seq s2 < id + 3)%Z → healthy env → stored_revision s2 = Some n →
    ∃ s3, RestoreWhitelistSnapshot env id s2 = (s3, inr (Z.of_nat (size (allow_rows s)))) ∧ allow_rows s3 = allow_rows s.

Lemma copy_undoes env cfg s id s1 s' : store_ok s → copied env cfg s id s1 → allow_rows s ≠ ∅ →
  rtc store_step s1 s' → snapshots s' = snapshots s1 → undoable s s'.
Proof.
  intros Hok Hc Hne Hst Hsn. pose proof (copied_ok _ _ _ _ _ Hok Hc) as Hok1.
  destruct (copied_newest _ _ _ _ _ Hok Hc Hne) as (_ & _ & r & Hh & Hid & Hcopy & Hlast). exists id. split.
  - intros env' [Hen Hbr]. exists (scan_snapshot r). unfold LatestWhitelistSnapshot.
    by rewrite Hen, Hbr, Hsn, Hlast.
  - intros env' s2 n Hs2 Hq Hh' Hn.
    assert (held r s2) as Hheld.
    { apply (steps_held r s1 s2 Hok1 Hh); [by etrans|]. by rewrite Hid. }
    pose proof (restore_held env' (stream_order (allow_rows s)) r s2 n (store_steps_ok _ _ (store_steps_ok _ _ Hok1 Hst) Hs2) Hh' Hn Hheld) as Hres.
    rewrite <-Hid, <-stream_length. eexists. split; [apply Hres|cbn; apply stream_set]; [|by apply stream_names|done].
    intros E. apply Hne. by rewrite <-stream_set, E.
Qed.
Lemma replaced_table env cfg l s ds id s1 s2 : store_ok s → Forall well_formed ds →
  copied env cfg (set_allow_log l s) id s1 → UpdateWhitelist env ds s1 = (s2, None) →
  guard_passed env true ds s ∧ store_ok s1 ∧ rtc store_step s1 s2
  ∧ ∃ n, stored_revision s = Some n ∧ s2 = set_allow (list_to_set (accepted_names ds)) (FormatInt (wrap64 (n + 1))) s1.
Proof.
  intros Hok Hwf Hc Hu. assert (store_ok (set_allow_log l s)) as Hok0 by (by destruct Hok).
  pose proof (copied_ok _ _ _ _ _ Hok0 Hc) as Hok1. destruct (copied_same _ _ _ _ _ Hc) as [Hrows Hrev].
  pose proof (update_cases env ds true s1) as Hcases. unfold UpdateWhitelist in Hu. rewrite Hu in Hcases.
  destruct Hcases as (Hg & n & Hn & He). split_and!; [|done| |].
  - revert Hg. unfold guard_passed. rewrite Hrows. done.
  - pose proof (step_import s1 env ds true Hwf) as Hst. rewrite Hu in Hst. by apply rtc_once.
  - exists n. split; [|done]. revert Hn. unfold stored_revision. by rewrite Hrev.
Qed.
(** A restore of a copy brings it back or changes nothing. *)
Lemma restore_either env r ds s : store_ok s → held r s → ds ≠ [] → Forall allow_name ds → copy_of ds r →
  (RestoreWhitelistSnapshot env (snap_id r) s).1 = s
  ∨ allow_rows (RestoreWhitelistSnapshot env (snap_id r) s).1 = list_to_set ds.
Proof.
  intros Hok Hh Hne Hd Hc. unfold RestoreWhitelistSnapshot, WhitelistSnapshotByID.
  destruct (allow_enabled env); cbn [negb]; [|by left]. destruct (broken env ASnapGet); [by left|].
  rewrite (held_at r s Hok Hh). cbv zeta. rewrite (copy_names ds r Hne Hd Hc).
  destruct (_ || _); [by left|]. destruct (_ || _); [by left|].
  pose proof (update_cases env ds false s) as Hu. unfold RestoreWhitelist.
  destruct (updateWhitelist env ds false s) as [s' [e|]]; [left; by destruct Hu as [-> _]|].
  right. destruct Hu as (_ & n & _ & ->). cbn. by rewrite accepted_all.
Qed.
Lemma undo_outcome recovery env cfg l s id s1 s2 : store_ok s → copied env cfg (set_allow_log l s) id s1 →
  store_ok s2 → snapshots s2 = snapshots s1 →
  let s' := if (id =? 0)%Z then s2 else (RestoreWhitelistSnapshot recovery id s2).1 in
  allow_rows s' = allow_rows s ∨ allow_rows s' = allow_rows s2.
Proof.
  intros Hok Hc Hok2 Hsn. cbv zeta. destruct Hc as [(-> & _)|[Hne Hs]]; [by right|].
  assert (store_ok (set_allow_log l s)) as Hok0 by (by destruct Hok).
  pose proof (stream_names _ Hok0) as Hnames. change (allow_rows (set_allow_log l s)) with (allow_rows s) in *.
  destruct (save_held _ _ _ _ _ _ Hok0 Hne Hnames Hs) as (Hheld & <- & Hcopy).
  destruct (_ =? 0)%Z; [by right|].
  assert (held (new_copy env (UpdateSourceURL cfg) (stream_order (allow_rows s)) (set_allow_log l s)) s2) as Hheld2
    by (unfold held; by rewrite Hsn).
  destruct (restore_either recovery _ _ s2 Hok2 Hheld2 Hne Hnames Hcopy) as [-> |He]; [by right|].
  left. rewrite He. apply stream_set.
Qed.
(** After a failed rebuild, working statements put the previous names back. *)
Lemma undo_restores recovery env cfg l l' s ds id s1 s2 n : store_ok s → allow_rows s ≠ ∅ →
  copied env cfg (set_allow_log l s) id s1 → store_ok s1 → rtc store_step s1 s2 →
  s2 = set_allow (list_to_set (accepted_names ds)) (FormatInt (wrap64 (n + 1))) s1 → (0 <= n < 2 ^ 63 - 1)%Z → healthy recovery →
  allow_rows (RestoreWhitelistSnapshot recovery id (set_allow_log l' s2)).1 = allow_rows s.
Proof.
  intros Hok Hne Hc Hok1 Hst Hs2 Hn Hh. assert (store_ok (set_allow_log l s)) as Hok0 by (by destruct Hok).
  destruct (copied_newest _ _ _ _ _ Hok0 Hc Hne) as (_ & _ & r & Hheld & Hid & Hcopy & _).
  assert (store_ok (set_allow_log l' s2)) as Hok2 by (apply (store_step_ok s2); [by apply (store_steps_ok s1)|constructor]).
  assert (stored_revision (set_allow_log l' s2) = Some (n + 1)%Z) as Hrev.
  { rewrite (stored_format _ (n + 1)).
    - destruct (Z.ltb_spec (n + 1) 0); [lia|done].
    - rewrite Hs2. cbn. f_equal. f_equal. unfold wrap64. rewrite Z.mod_small by lia. lia.
    - unfold in64. lia. }
  pose proof (restore_held recovery (stream_order (allow_rows s)) r (set_allow_log l' s2) (n + 1) Hok2 Hh Hrev) as Hres.
  rewrite <-Hid, Hres; [cbn; apply stream_set| | |by apply stream_names|done].
  - unfold held. by rewrite Hs2.
  - intros E. apply Hne. by rewrite <-stream_set, E.
Qed.

(** C9: an update of the allow list is verified, guarded and undoable.  However a run ends,
    the table is what it was, or holds exactly the registrable names of a body that was
    downloaded completely, within the cap, from an admitted source and with the digest the
    operator expects, and the floors allowed it; a run that reports success has installed
    such a body.  A run that fails after it replaced a list in use puts the previous names
    back when its statements work again (and the revision is not at its end).  Whenever a
    run changed a list in use, the newest copy is one of the names before it, and restoring
    it brings exactly those names back, whatever happens until three further ids are handed
    out. *)
Theorem update_undoable env recovery parse exchange elapsed cfg p :
  rtc store_step empty_allow_store (durable p) →
  let '(p', e) := Run env recovery parse exchange elapsed cfg p in
  (allow_rows (durable p') = allow_rows (durable p) ∨ from_source env parse exchange cfg (durable p) (durable p'))
  ∧ (e = None → UpdateEnabled cfg = true → from_source env parse exchange cfg (durable p) (durable p'))
  ∧ (e ≠ None → healthy recovery → allow_rows (durable p) ≠ ∅ → stored_revision (durable p) ≠ Some (2 ^ 63 - 1)%Z →
       allow_rows (durable p') = allow_rows (durable p))
  ∧ (allow_rows (durable p) ≠ ∅ → allow_rows (durable p') ≠ allow_rows (durable p) → undoable (durable p) (durable p')).
Proof.
  intros Hr. pose proof (store_steps_ok _ _ empty_store_ok Hr) as Hok.
  pose proof (run_cases env recovery parse exchange elapsed cfg p Hok) as Hcases.
  destruct (Run env recovery parse exchange elapsed cfg p) as [p' e].
  destruct Hcases as [s' e [Hrows _] _ Hidle|l l' ds id s1 s2 w Hd Hc Hu Hl Hen|l l' ds id s1 s2 w e Hd Hc Hu Hen]; cbn [durable].
  - split_and!; [by left| |done|done]. intros -> Ht. by rewrite Hidle in Ht.
  - destruct (download_verified _ _ _ _ Hd) as (body & Hv & Hp).
    destruct (replaced_table _ _ _ _ _ _ _ _ Hok (parse_body_wf _ _ Hp) Hc Hu) as (Hg & Hok1 & Hst & n & Hn & ->).
    assert (from_source env parse exchange cfg (durable p)
              (set_allow_log l' (set_allow (list_to_set (accepted_names ds)) (FormatInt (wrap64 (n + 1))) s1))) as Hf by (by exists body, ds).
    split_and!; [by right|done|done|]. intros Hne _.
    apply (copy_undoes env cfg (set_allow_log l (durable p)) id s1); [by destruct Hok|done|done|by apply event_steps|done].
  - destruct (download_verified _ _ _ _ Hd) as (body & Hv & Hp).
    destruct (replaced_table _ _ _ _ _ _ _ _ Hok (parse_body_wf _ _ Hp) Hc Hu) as (Hg & Hok1 & Hst & n & Hn & Hs2).
    assert (store_ok (set_allow_log l' s2)) as Hok2 by (apply (store_step_ok s2); [by apply (store_steps_ok s1)|constructor]).
    rewrite restoreSnapshot_store. cbn [durable].
    assert (from_source env parse exchange cfg (durable p) (set_allow_log l' s2)) as Hf by (exists body, ds; by rewrite Hs2).
    split_and!; [|done| |].
    + destruct (undo_outcome recovery env cfg l (durable p) id s1 (set_allow_log l' s2)) as [He|He]; try done.
      * by rewrite Hs2.
      * by left.
      * right. exists body, ds. rewrite He. by rewrite Hs2.
    + intros _ Hh Hne Hmax. pose proof (stored_bound _ _ Hok Hn) as Hb. assert (n ≠ 2 ^ 63 - 1)%Z by congruence.
      assert (store_ok (set_allow_log l (durable p))) as Hok0 by (by destruct Hok).
      destruct (copied_newest _ _ _ _ _ Hok0 Hc Hne) as (Hid & _). rewrite (proj2 (Z.eqb_neq _ _) Hid).
      by apply (undo_restores recovery env cfg l l' (durable p) ds id s1 s2 n); try done; lia.
    + intros Hne _. apply (copy_undoes env cfg (set_allow_log l (durable p)) id s1); [by destruct Hok|done|done| |].
      * etrans; [exact Hst|]. etrans; [by apply rtc_once, (step_event s2 l')|]. destruct (id =? 0)%Z; [done|]. apply rtc_once, step_restore.
      * destruct (id =? 0)%Z; [by rewrite Hs2|]. rewrite (proj1 (restore_snapshots recovery id _ Hok2)). by rewrite Hs2.
Qed.

(** A run is a sequence of operations of the store. *)
Lemma run_steps env recovery parse exchange elapsed cfg p : store_ok (durable p) →
  rtc store_step (durable p) (durable (Run env recovery parse exchange elapsed cfg p).1).
Proof.
  intros Hok. pose proof (run_cases env recovery parse exchange elapsed cfg p Hok) as Hcases.
  destruct (Run env recovery parse exchange elapsed cfg p) as [p' e]. cbn [fst].
  assert (∀ l id s1, copied env cfg (set_allow_log l (durable p)) id s1 → rtc store_step (durable p) s1) as Hcopy.
  { intros l id s1 Hc. etrans; [by apply rtc_once, (step_event _ l)|]. destruct Hc as [(_ & -> & _)|[Hne Hs]]; [done|].
    pose proof (step_copy (set_allow_log l (durable p)) env (UpdateSourceURL cfg) _ Hne) as Hst. rewrite Hs in Hst.
    apply rtc_once, Hst, stream_names. by destruct Hok. }
  destruct Hcases as [s' e _ Hst _|l l' ds id s1 s2 w Hd Hc Hu Hl Hen|l l' ds id s1 s2 w e Hd Hc Hu Hen]; [done|..];
    destruct (download_verified _ _ _ _ Hd) as (body & _ & Hp);
    destruct (replaced_table _ _ _ _ _ _ _ _ Hok (parse_body_wf _ _ Hp) Hc Hu) as (_ & _ & Hst & _).
  - cbn. apply event_steps. by etrans; [eapply Hcopy|].
  - rewrite restoreSnapshot_store. cbn [durable].
    assert (rtc store_step (durable p) (set_allow_log l' s2)) as Hs by (apply event_steps; by etrans; [eapply Hcopy|]).
    destruct (id =? 0)%Z; [done|]. eapply rtc_r; [exact Hs|constructor].
Qed.

(** ** What a rollback promises *)

Lemma load_success env s w w' : store_ok s → allow_enabled env = true → allow_rows s ≠ ∅ → load_index env s w = (w', None) →
  Whitelist.revision w' = rank s ∧ ∃ names, (bloom w', Whitelist.exact w') = buildIndex names ∧ names ≡ₚ elements (allow_rows s).
Proof.
  intros Hok Hen Hne. unfold load_index, LoadFromDB, load_reads. rewrite Hen. cbn [loadFromDB r_revision r_count r_stream].
  destruct (reply (GetWhitelistRevision env s)) as [n|] eqn:Er; [|done].
  apply reply_ok, (revision_rank env s n Hok) in Er.
  destruct (reply (GetWhitelistCount env s)) as [c|] eqn:Ec; [|done]. apply reply_ok in Ec.
  destruct (Z.eqb_spec c 0) as [->|_]; [by apply count_zero in Ec|].
  destruct (StreamWhitelist env append_domain s []) as [names|] eqn:Es; [|done].
  apply (stream_append env s Hen) in Es as ->.
  destruct (buildIndex (stream_order (allow_rows s))) as [bf ex] eqn:Eb. intros [= <-]. split; [done|].
  exists (stream_order (allow_rows s)). split; [done|apply stream_order_elements].
Qed.
Lemma restore_done env id s s' entries : store_ok s → RestoreWhitelistSnapshot env id s = (s', inr entries) →
  ∃ r ds, held r s ∧ snap_id r = id ∧ ds ≠ [] ∧ Forall allow_name ds ∧ copy_of ds r ∧ entries = Z.of_nat (length ds)
    ∧ allow_rows s' = list_to_set ds ∧ allow_log s' = allow_log s ∧ allow_enabled env = true.
Proof.
  intros Hok. unfold RestoreWhitelistSnapshot, WhitelistSnapshotByID.
  destruct (allow_enabled env); cbn [negb]; [|done]. destruct (broken env ASnapGet); [done|].
  destruct (snapshot_at id s) as [r|] eqn:Er; [|done]. cbv zeta. apply snapshot_at_in in Er as [Hin Hid].
  pose proof (proj1 (Forall_forall _ _) (so_copies s Hok) r Hin) as (ds & Hne & Hd & Hc).
  rewrite (copy_names ds r Hne Hd Hc). destruct (_ || _); [done|]. destruct (_ || _); [done|].
  pose proof (update_cases env ds false s) as Hu. unfold RestoreWhitelist.
  destruct (updateWhitelist env ds false s) as [s2 [e|]]; [done|]. intros [= <- <-].
  destruct Hu as (_ & n & _ & ->). exists r, ds. split_and!; try done. cbn. by rewrite accepted_all.
Qed.
Lemma restore_refusal env id s s' e : RestoreWhitelistSnapshot env id s = (s', inl e) → s' = s.
Proof.
  unfold RestoreWhitelistSnapshot. destruct (WhitelistSnapshotByID env id s) as [?|snap]; [by intros [= <- _]|]. cbv zeta.
  destruct (_ || _); [by intros [= <- _]|]. destruct (_ || _); [by intros [= <- _]|].
  pose proof (update_cases env (SnapDomains snap) false s) as Hu. unfold RestoreWhitelist.
  destruct (updateWhitelist env (SnapDomains snap) false s) as [s2 [e'|]]; [|done]. intros [= <- _]. by destruct Hu as [-> _].
Qed.
Lemma requested_refusal env raw s r : requested_snapshot env raw s = inl r → ∃ status message, r = refuse status message.
Proof.
  unfold requested_snapshot. destruct (negb _).
  - destruct (ParseInt64 raw); [done|]. intros [= <-]. eauto.
  - destruct (LatestWhitelistSnapshot env s) as [[]|]; [..|done]; intros [= <-]; eauto.
Qed.
Lemma restore_refused_form e : ∃ status message, restore_refused e = refuse status message.
Proof. destruct e; cbn; eauto. Qed.
Lemma reason_length body reason : decodeWhitelistRollbackReason body = Ok reason → (8 <= length (runes reason))%nat.
Proof.
  unfold decodeWhitelistRollbackReason. destruct (decode_rollback 4096 body); [|done|]; cbv zeta;
    match goal with |- context [Nat.ltb ?a ?b] => destruct (Nat.ltb_spec a b) end; intros [= <-]; done.
Qed.
Definition restored_unindexed : SnapshotReply := refuse 500 "the whitelist was restored but the index could not be rebuilt".
(** The event of a rollback. *)
Definition rollback_recorded (env : AllowEnv) (text : string) (log log' : EventLog) : Prop :=
  ∃ event, log_rows log' = (log_rows log ++ [event])%list ∧ EvTask event = "whitelist" ∧ EvType event = "rollback" ∧ EvDetails event = text.
Lemma rollback_record_cases env text log :
  let '(log', e) := RecordAgentEvent (allow_enabled env) (broken env AEvent) (allow_now env) "whitelist" "rollback" "" text log in
  match e with None => rollback_recorded env text log log' | Some _ => log' = log end.
Proof.
  unfold RecordAgentEvent. destruct (allow_enabled env); cbn [negb]; [|done]. destruct (broken env AEvent); [done|].
  cbv zeta. eexists. split_and!; done.
Qed.

(** C11: the reply to a rollback is truthful.  Success means that the request gave a reason
    of at least eight characters, that the named copy was there intact, and that the table
    and the index of this process now are exactly its names, the index under the reported
    revision; the entries reported are those of the copy, and the audit flag is set exactly
    when the event with actor, reason and revision was appended to the log.  Every other
    reply leaves store and index as they were, except the one that says that the table was
    restored and the index was not. *)
Theorem rollback_truthful env o stamp publish_failure method raw body who correlation p :
  rtc store_step empty_allow_store (durable p) →
  let '(p', r, _) := WhitelistRollbackHandler env o stamp publish_failure method raw body who correlation p in
  match r with
  | RolledBack id entries rev _ audit =>
      method = "POST" ∧ rev = Whitelist.revision (WhitelistUpdate.index p') ∧ rev = rank (durable p')
      ∧ (∃ copy ds, copy ∈ snapshots (durable p) ∧ snap_id copy = id ∧ copy_of ds copy ∧ entries = Z.of_nat (length ds)
           ∧ allow_rows (durable p') = list_to_set ds)
      ∧ (∃ names, (bloom (WhitelistUpdate.index p'), Whitelist.exact (WhitelistUpdate.index p')) = buildIndex names
           ∧ names ≡ₚ elements (allow_rows (durable p')))
      ∧ (∃ reason, decodeWhitelistRollbackReason body = Ok reason ∧ (8 <= length (runes reason))%nat ∧
           if audit : bool then
             let details := mkRollback id entries (match who with Some who => IdUsername who | None => "" end) reason rev correlation in
             rollback_recorded env (match encode_rollback details with Ok text => text | Err _ => "{}" end)
               (allow_log (durable p)) (allow_log (durable p'))
           else allow_log (durable p') = allow_log (durable p))
  | SnapshotRefused _ => p' = p ∨ (r = restored_unindexed ∧ allow_log (durable p') = allow_log (durable p))
  | SnapshotList _ _ => False
  end.
Proof.
  intros Hr. pose proof (store_steps_ok _ _ empty_store_ok Hr) as Hok. unfold WhitelistRollbackHandler.
  destruct (String.eqb_spec method "POST") as [->|]; cbn [negb]; [|by left].
  destruct (allow_enabled env) eqn:Hen; cbn [negb]; [|by left].
  destruct (decodeWhitelistRollbackReason body) as [reason|] eqn:Ed; [|by left].
  destruct (requested_snapshot env raw (durable p)) as [r|id] eqn:Eq.
  { by apply requested_refusal in Eq as (status & message & ->); left. }
  destruct (RestoreWhitelistSnapshot env id (durable p)) as [s [e|restored]] eqn:Er.
  { apply restore_refusal in Er as ->. destruct (restore_refused_form e) as (status & message & ->). left. by destruct p. }
  pose proof (f_equal fst Er) as Hs. cbn [fst] in Hs.
  assert (store_ok s) as Hok' by (rewrite <-Hs; apply (store_step_ok (durable p)); [done|constructor]).
  destruct (restore_done _ _ _ _ _ Hok Er) as (r & ds & Hh & <- & Hne & Hd & Hc & -> & Hrows & Hlog & _).
  destruct (load_index env s (WhitelistUpdate.index p)) as [w [e|]] eqn:El; [by right|].
  assert (allow_rows s ≠ ∅) as Hsome by (rewrite Hrows; destruct ds; [done|set_solver]).
  destruct (load_success env s _ w Hok' Hen Hsome El) as (Hrev & Hidx).
  destruct (PublishWhitelistReload o _ stamp publish_failure) as [message published].
  pose proof (rollback_record_cases env) as Hrec.
  set (text := match encode_rollback _ with Ok text => text | Err _ => "{}" end).
  specialize (Hrec text (allow_log s)). rewrite Hen in Hrec.
  destruct (RecordAgentEvent true _ _ _ _ _ text (allow_log s)) as [log audit]. cbn [durable WhitelistUpdate.index].
  split_and!; [done|done|done|by exists r, ds|done|]. exists reason. split_and!; [done|by eapply reason_length|].
  destruct audit; cbn [allow_log set_allow_log]; rewrite <-Hlog; done.
Qed.
End Updates.

(** ** Examples *)

Module Examples.
#[local] Instance ex_tables : UnicodeTables := ascii_tables.
#[local] Instance ex_services : HostServices := two_label_services.
#[local] Existing Instance FeedSpec.Examples.ex_feed_libs.
#[local] Existing Instances WhitelistSpec.Examples.ex_math.
#[local] Existing Instances WhitelistStoreSpec.Examples.ex_time WhitelistStoreSpec.Examples.ex_order WhitelistStoreSpec.Examples.ex_order_laws.
#[local] Instance ex_zip : ZipReader := {| zip_files _ := Err "zip: not a valid zip file" |}.
#[local] Instance ex_texts : UpdateTexts := {|
  error_details e := e; completed_details n ms := pretty n; decode_rollback _ body := BodyReason body;
  encode_rollback d := Ok (RollbackActor d ++ ": " ++ RollbackReason d); decode_details _ := None
|}.

Definition working : AllowEnv := mkAllowEnv true 100 (Some 0%Z) None (λ _, None).
Definition parse (raw : string) : result OutURL := Ok (mkOutURL "https" "lists.example.net").
Definition config : WhitelistUpdateConfig := update_defaults (mkUpdateConfig "https://lists.example.net/top.csv" 0 true 0 false "").
Definition delivers (text : string) : SourceExchange := mkSourceExchange None (Ok (200%Z, mkStream text None)).
Definition run (env : AllowEnv) (text : string) (p : AllowProcess) : AllowProcess * option string :=
  Run env env parse (delivers text) 5 config p.
Definition before : AllowProcess := mkAllowProcess WhitelistStoreSpec.Examples.imported NewWhitelist.
Lemma before_reachable : rtc store_step empty_allow_store (durable before).
Proof. apply rtc_once, step_import, names_wf, WhitelistStoreSpec.Examples.names_ok. Qed.

Lemma update_undoable_witness :
  let '(p', e) := Run working working parse (delivers "1,example.org") 5 config before in
  (allow_rows (durable p') = allow_rows (durable before)
     ∨ from_source working parse (delivers "1,example.org") config (durable before) (durable p'))
  ∧ (e = None → UpdateEnabled config = true →
       from_source working parse (delivers "1,example.org") config (durable before) (durable p'))
  ∧ (e ≠ None → healthy working → allow_rows (durable before) ≠ ∅ → stored_revision (durable before) ≠ Some (2 ^ 63 - 1)%Z →
       allow_rows (durable p') = allow_rows (durable before))
  ∧ (allow_rows (durable before) ≠ ∅ → allow_rows (durable p') ≠ allow_rows (durable before) → undoable (durable before) (durable p')).
Proof.
  pose proof (update_undoable working working parse (delivers "1,example.org") 5 config before) as Hrun.
  specialize (Hrun before_reachable). exact Hrun.
Defined.
Example replaced : (run working "1,example.org" before).2 = None
  ∧ elements (allow_rows (durable (run working "1,example.org" before).1)) = ["example.org"].
Proof. vm_compute. done. Qed.

(** Every run takes its copy before the import is judged: three runs that the floors
    refuse after a bad import leave no copy of the names before it. *)
Definition guarded : AllowEnv := mkAllowEnv true 100 None None (λ _, None).
Definition after_bad_import : AllowProcess := (run working "1,example.org" before).1.
Definition three_refused : AllowProcess :=
  let refused (p : AllowProcess) := (run guarded "1,example.net" p).1 in refused (refused (refused after_bad_import)).
Example copies_pushed_out :
  (snap_blob <$> snapshots (durable after_bad_import)) = ["example.com"]
  ∧ (snap_blob <$> snapshots (durable three_refused)) = ["example.org"; "example.org"; "example.org"].
Proof. vm_compute. done. Qed.

Definition options : ReloadOptions := mkReloadOptions true "" 0 true false true "core-api".
Definition operator : authIdentity := mkIdentity "admin" "admin" "session".
Lemma after_reachable : rtc store_step empty_allow_store (durable after_bad_import).
Proof.
  etrans; [apply before_reachable|]. unfold after_bad_import, run.
  pose proof (run_steps working working parse (delivers "1,example.org") 5 config before) as Hst.
  apply Hst. apply (store_steps_ok empty_allow_store); [apply empty_store_ok|apply before_reachable].
Qed.
Lemma rollback_truthful_witness :
  let '(p', r, _) := WhitelistRollbackHandler working options "now" None "POST" "" "bad import" (Some operator) "c1" after_bad_import in
  match r with
  | RolledBack id entries rev _ audit =>
      "POST" = "POST" ∧ rev = Whitelist.revision (WhitelistUpdate.index p') ∧ rev = rank (durable p')
      ∧ (∃ copy ds, copy ∈ snapshots (durable after_bad_import) ∧ snap_id copy = id ∧ copy_of ds copy
           ∧ entries = Z.of_nat (length ds) ∧ allow_rows (durable p') = list_to_set ds)
      ∧ (∃ names, (bloom (WhitelistUpdate.index p'), Whitelist.exact (WhitelistUpdate.index p')) = buildIndex names
           ∧ names ≡ₚ elements (allow_rows (durable p')))
      ∧ (∃ reason, decodeWhitelistRollbackReason "bad import" = Ok reason ∧ (8 <= length (runes reason))%nat ∧
           if audit : bool then
             rollback_recorded working (match encode_rollback (mkRollback id entries "admin" reason rev "c1") with Ok text => text | Err _ => "{}" end)
               (allow_log (durable after_bad_import)) (allow_log (durable p'))
           else allow_log (durable p') = allow_log (durable after_bad_import))
  | SnapshotRefused _ => p' = after_bad_import ∨ (r = restored_unindexed ∧ allow_log (durable p') = allow_log (durable after_bad_import))
  | SnapshotList _ _ => False
  end.
Proof.
  pose proof (rollback_truthful working options "now" None "POST" "" "bad import" (Some operator) "c1" after_bad_import) as Hreply.
  specialize (Hreply after_reachable). exact Hreply.
Defined.
Example rolled_back :
  (WhitelistRollbackHandler working options "now" None "POST" "" "bad import" (Some operator) "c1" after_bad_import).1.2
  = RolledBack 1 1 3 false true.
Proof. vm_compute. reflexivity. Qed.
(** A rollback whose index cannot be rebuilt has replaced the table and is not on record. *)
Definition no_stream : AllowEnv :=
  mkAllowEnv true 100 None None (λ st, match st with AStream => Some "database is locked" | _ => None end).
Example unrecorded_rollback :
  let '(p', r, _) := WhitelistRollbackHandler no_stream options "now" None "POST" "" "bad import" (Some operator) "c1" after_bad_import in
  r = restored_unindexed ∧ elements (allow_rows (durable p')) = ["example.com"]
  ∧ (EvType <$> log_rows (allow_log (durable p'))) = (EvType <$> log_rows (allow_log (durable after_bad_import))).
Proof. vm_compute. done. Qed.
End Examples.
